(* ===== verification/_CoqProject ===== *)
-Q . S2P
Prelude.v
GoFloat.v
GoStrings.v
GoFormat.v
GoCrypto.v
Effects.v
GitClient.v
IntentTypes.v
IntentPlanning.v
IntentReconciler.v
IntentInvariants.v
IntentSystem.v
IntentPasses.v
PorchTypes.v
Orchestration.v
E2Wire.v
E2Types.v
E2Codec.v
CircuitBreaker.v
LockManager.v
GoHeap.v
ExecutionQueue.v
StateCache.v
StateManager.v
SharedEventBus.v
RecoveryManager.v
Coordination.v
Rbac.v
JwtManager.v
SessionManager.v
AuthMiddleware.v
AuthHandlers.v
SatSolver.v
PorchClient.v
GoSlice.v
Registry.v
Lifecycle.v
ParallelEngine.v
WorkerPools.v
TaskScheduling.v
ParallelProcessor.v
GenericsResult.v
GenericsCollections.v
GenericsValidation.v
GenericsEvents.v
AuditTypes.v
IntegrityChain.v
AuditBackends.v
AuditSystem.v
