(* ===== verification/Prelude.v ===== *)
(** * Verification of the Nephoran intent operator

    The program turns operator intents into network configuration. A reconciler
    takes every intent through its phases (call of the language model, resource
    planning, manifest generation, commit to git, verification) and lets go of
    what was deleted; a second orchestration of the same phases is a state
    machine whose coordination services queue, lock and cache the work, keep the
    states of the intents, spread events and recover failures; the calls to the
    language model go through a circuit breaker; access to the API is decided by
    roles; and the RAN side is reached over the E2 interface, whose messages are
    encoded byte by byte; package versions are chosen by a satisfiability
    solver; packages are kept and reviewed through the Porch API; stages run in
    parallel on pools of workers; and audit events are chained by hashes and
    written in batches to back ends.
    This development models those parts of pkg/ and proves what makes each of
    them correct, and, where the code falls short of its intention, what
    happens instead.

    ** Files

    - [Prelude] (this file): results of fallible functions, time, counting,
      machine integers, and the tactics and hints the other files share.
    - [GoFloat], [GoStrings], [GoFormat], [GoCrypto], [GoHeap], [GoSlice]: the
      pieces of Go and its standard library the source leans on: [float64]
      arithmetic, package [strings], the verbs of [fmt], SHA-256 with
      hexadecimal and base64 text, container/heap, slices that share arrays.
    - [Effects]: programs as trees of calls, with the rules to reason about
      the calls they make and to run them on a server.
    - [IntentTypes], [IntentPlanning], [IntentReconciler]: controllers.  The
      helpers of controller_utils.go and networkintent_controller.go on
      objects; what the phases compute (prompts of llm_processor.go, plans and
      manifests of resource_planner.go, over telecom/knowledge_base.go); and
      the handlers of reconciler.go, llm_processor.go, resource_planner.go and
      gitops_handler.go, each a program in the monad [M] over the calls
      [Call].  [IntentInvariants]: what they call under which assumptions on
      the answers.  [IntentSystem]: passes, crashes and other clients on any
      server of the class [Cluster].  [IntentPasses]: a server of that class,
      passes over it, the theorems.  [GitClient]: git/client.go over go-git
      behind the class [GoGit].
    - [Orchestration]: controllers/orchestration.  [StateMachine] is
      state_machine.go (tables, transitions, dependencies, the workflows and
      their progress); [PhaseTracker] is the tracker of phase_tracker.go.
    - [E2Wire], [E2Types], [E2Codec]: oran/e2.  Readers and writers of
      bytes, the E2AP structs, and asn1_codec.go with one definition per
      encode and decode method.
    - [CircuitBreaker]: llm/circuit_breaker.go (module [CircuitBreaker]) and
      resilience/circuit_breaker.go (module [Resilience]).
    - [LockManager]: shared/lock_manager.go.
    - [ExecutionQueue]: shared/execution_queue.go over [GoHeap], and what the
      workers of shared/coordination_manager.go take from it.
    - [StateCache]: shared/state_cache.go over container/list.
    - [StateManager]: shared/state_manager.go, phase_conversion.go and
      state_types.go, over any cache of its class [Memo], of which
      [StateCache] is one, and any server of its class [KubeAPI].
      [SharedEventBus]: shared/enhanced_event_bus.go and event_components.go.
      [RecoveryManager]: shared/recovery_manager.go over these two.
      [Coordination]: shared/coordination_manager.go over the state manager,
      the execution queue and the events of the bus.
    - [Rbac]: auth/rbac.go over [GoStrings].  [JwtManager]: auth/jwt_manager.go
      and memory_stores.go, over golang-jwt behind the class [JWT] and any stores
      of the classes [TokenStore] and [TokenBlacklist].  [SessionManager]:
      auth/session_manager.go over [Rbac], the tokens behind the class
      [UserTokens], and providers of the class [OAuthProvider].
      [AuthMiddleware]: auth/middleware.go over these three.  [AuthHandlers]:
      what handlers.go, manager.go and auth_manager.go do to tokens and
      sessions.
    - [SatSolver]: nephio/porch/dependency_sat_solver.go over [GoFloat] and
      [GoStrings].
    - [PorchTypes], [PorchClient]: nephio/porch/types.go and client.go.
      [Registry] and [Lifecycle]: nephio/porch/lifecycle_manager.go over the
      client; its registries of handlers, gates and hooks are [Registry] over
      [GoSlice].
    - [ParallelEngine], [WorkerPools], [TaskScheduling], [ParallelProcessor]:
      controllers/parallel, whose engine.go, worker_pool.go, task_scheduler.go,
      and processor.go with types.go they model in this order.
    - [GenericsResult], [GenericsCollections], [GenericsValidation],
      [GenericsEvents]: generics, one file for each of result.go,
      collections.go, validation.go and events.go.
    - [AuditTypes]: audit/types/events.go.  [IntegrityChain]:
      audit/integrity.go over [GoCrypto].  [AuditBackends]: what batches go
      through in audit/backends.  [AuditSystem]: audit/audit_system.go over
      these three.

    A definition has the name of the function it translates where Rocq
    allows it (a method [T.m] is [m] or [T_m]; a name that is a keyword gets
    an underscore), and stands in the file above for the package.

    ** How the code is modelled

    Go functions are functions of the state they read and write; the state
    of a component is a record with the fields of its struct.  An error
    value is the constructor [Err] of [result].  Pointers are values, except
    where sharing shows: tasks of the queue, entries of the cache and locks
    under renewal live in a store and are named by references.  Calls of
    [time.Now] are arguments (an instant is an integer of nanoseconds); the
    instants of one call may differ and need not grow unless a theorem asks
    for it.  Where the result depends on the order in which Go ranges over a
    map, that order is an argument.  Counters are unbounded integers;
    the wire formats and average latencies wrap as the machine's do.

    The reconciler's handlers talk to the API server, the model and git
    throughout.  They are trees of calls, whose answers are arbitrary up to
    the laws of the server: writes carry the newest version or are refused,
    reads may be late, the status subresource writes the status only.
    Properties of all calls of a handler are proved by weakest preconditions
    over its tree, and hold for every server; passes are computed on one.

    Concurrency is a step relation whose steps are the critical sections of
    the code, in the granularity of its mutexes: the breaker's [Execute]
    calls, the clients of the lock manager with its cleanup and renewal
    goroutines, the sections of the cache's [Get], the read and write locks
    of [CheckAccess].  Statements about concurrency hold for any number of
    goroutines and any interleaving.  Where this idealises: a context that
    is cancelled is a deadline that has passed; the updates of the breaker's
    statistics in one lock section are one step; the three sections of the
    queue's processor are one step.

    ** What the theorems show

    - NetworkIntent reconciler: whatever fails, crashes, is read late or is
      edited by others, the stored conditions are those of a prefix of the
      phases, a completed intent has all of them, a stored claim of a commit
      is true, files are committed only under the path of their intent, and no
      pass panics; a pass whose services do their part deploys exactly the
      manifests of its plan.  Its weaknesses are theorems too: a failed commit
      is never made and the intent is declared completed, a pass that ends
      between plan and manifests blocks its intent, retries are never counted,
      and an intent that is deleted stays where git refuses empty commits.
    - Orchestration: an intent under validated transitions is in a phase
      only after every earlier stage has completed; the table's transitions
      are acyclic and lead to Completed; workflows list phases after their
      dependencies, and one of them takes a step the table forbids; reports
      count what the conditions say.
    - E2 codec: decoding inverts encoding on well-formed messages, strict
      prefixes are rejected, and what a decoder can return is characterised;
      control requests without a process identifier cannot be read back.
    - Circuit breaker: its counters account for every request under any
      interleaving; an open breaker lets nothing through until its timeout;
      states change along the documented edges only; the sequential
      [Execute] is a run of the concurrent system; recovery from half-open,
      the way it can get stuck, and the missing bound on its trial requests.
    - Lock manager: critical sections exclude each other while locks are
      renewed in time, waiters are woken, acquisition ends; and three ways in
      which expiry and shutdown break this.
    - Execution queue: heap order, indices and maps agree under any use;
      dequeuing takes the most urgent task; a blocked head blocks the queue
      and delivered tasks are never completed.
    - State cache: it refines a least-recently-used list with expiry, also
      under interleaving; eviction ends exactly for sizes that are not
      negative; a late [Get] drops a fresh value.
    - State manager: whatever fails or interleaves, histories of states are
      linked, the server shows the phase of the last published event, and
      what each outcome of an update leaves behind; dependencies are never
      satisfied.  Event bus: the log is read back over its rotations; an event
      reaches every handler, with retries and dead letters; sequence numbers
      and logged events are accounted for, and no stop is clean.  Recovery:
      attempts are limited per phase; put together, the retries of the bus and
      the parsing of names let one event use up all recoveries of a phase.
      Coordination, with workers, timers and events in any interleaving: every
      other phase is skipped, no phase runs twice, transitions that depend on
      others are refused, intents whose phases come from the server only
      fail; the function that executes a task is a run of the steps.
    - Access control: a decision is what the user's roles grant, cached or
      not; users hold existing roles only; cached permissions survive the
      loss of all roles; the recursive read lock deadlocks.  Tokens: a revoked
      token is rejected for ever under any interleaving, and an issued one
      validates as its claims until then; refresh tokens are used once, by
      requests that follow each other; and a forged token can bring a revoked
      one back.  Sessions: each comes from a login of its own and a user a
      provider named, and they stay within the limit, but for those revived.
      A request passes a guard only with a session or token that grants it.
    - Package solver: a model found selects one version of each required
      package, within its constraints; the search ends, and is complete when
      the activity heuristic is off; with it on, no variable is ever chosen;
      the solution that is reported selects nothing.
    - Packages: reviews follow the lifecycle table; the client's cache is
      bounded, and transparent for a single writer; registries behave as lists
      although their slices share arrays, and loops over them are undisturbed
      by registration (not by unregistration); what a transition leaves on the
      server in every case; its locks exclude until they expire; hooks have no
      say; a refused update poisons the cache; batches count every package and
      come to their end.
    - Parallel processing: no accepted task is lost while the engine runs and
      its queue has room, workers get tasks of their type, and from every state
      there is a run that finishes all tasks that have a dispatcher; the
      dependency graph executes every task once, after its dependencies, all
      but those behind a failure; a scheduled task goes to one pool with room;
      the blocking priority queue is ordered and loses no wake-up; the
      processor gives each task at most one result, within its concurrency,
      with sound times; batches partition the tasks in order.  Also: results
      that overtake their submission, waits that end before the work begins, a
      shutdown that crashes, and tasks that a time-out takes along.
    - Generics: results and options are sums and options with the usual
      combinators; sets, maps and slices are what their names say in whatever
      order Go goes through a map; validators collect the errors of their
      parts; the event bus delivers to handlers in order up to the first that
      fails, in the order of publication, and loses its buffer when closed.
    - Audit trail: the integrity chain stays linked whatever it processes, and
      an event verifies exactly when its hashed text has the digest of the
      processed one; the chain's own verification rejects every chain it
      built; the timeline reconstruction is a sort.  In the audit system no
      accepted event is lost before its batch and each batch is written once
      to each back end, under any interleaving; [Stop] loses the queue, and
      what it flushes reaches no server; accepted events are one chain when
      calls follow each other, and need not be otherwise.

    ** Fuel

    These functions recurse on fuel: [up] and [down] of [GoHeap] (the
    position, the array's length; enough by the heap-order lemmas, which
    need no further hypothesis) and the cache's eviction loop (a round for
    each element and a last test; [eviction_terminates_iff]).  The retry
    loop of the lock manager is a step relation whose end is proved from a
    measure ([acquisition_terminates]), and chains of phase transitions are
    bounded by [transition_chain_bounded].  The search of the package
    solver needs [2 * (MaxDecisions + 1) + 1] rounds at most, unit
    propagation one for each literal and a last one ([solve_terminates]).
    The batches of [ExecuteTasksInBatches] and the chunks of [ChunkSlice] are
    at most as many as the tasks or items.

    ** What is not modelled

    Of the modelled packages: the E2NodeSet and other controllers beside the
    NetworkIntent one, and its unused helpers that delete cluster resources;
    transport, logging, metrics export, the Kubernetes client, tickers that only
    log, the closing of the engine's queue at the end of its [Stop], the
    starting and stopping of the coordination manager with its health checks,
    and its settings that nothing reads (parallel groups, back-offs). What the
    source takes from third parties or from large libraries is a class of
    parameters with the laws it relies on: RSA signatures, JSON Web Tokens, JSON
    encoding of events (which are data with an object of fields), identifiers,
    the phases of api/v1, which src/ does not hold (the records of [IntentTypes]
    have the fields the controllers use), the sanitizer of prompts, go-git, JSON
    and YAML encodings of plans and manifests, the decoding of back-end
    settings, the Kubernetes API behind the Porch client with its limiter and
    breaker. Of the rest of pkg/: the OAuth2 and LDAP providers behind the
    sessions, second factors and the middleware's rate limits; the rest of the
    Porch and Nephio code (workflows, promotion, content, dependency analysis),
    audit queries, retention and compliance reports, A1, O1 and O2 interfaces,
    monitoring, security scanners and certificate management, and the glue
    around third-party libraries; the generated API code, manifests and the
    Python and TypeScript parts are outside the Go core. *)

From stdpp Require Export base tactics list gmap strings sorting.
From Stdlib Require Export ZArith Lia.

#[export] Set Warnings "-clear-no-such-hyp".
#[local] Set Warnings "-register-all".

(** ** The values of an [interface{}] *)

Inductive any :=
| AnyNil
| AnyBool (b : bool)
| AnyInt (z : Z)
| AnyString (s : string)
| AnyList (l : list any)
| AnyMap (m : list (string * any)).

(** ** Results of fallible Go functions: a value, or an error value *)

Inductive result (E A : Type) : Type :=
| Ok (a : A)
| Err (e : E).
Arguments Ok {E A} a.
Arguments Err {E A} e.

#[export] Instance result_eq_dec `{EqDecision E, EqDecision A} : EqDecision (result E A).
Proof. solve_decision. Defined.

Definition rbind {E A B} (m : result E A) (k : A -> result E B) : result E B :=
  match m with
  | Ok a => k a
  | Err e => Err e
  end.

Definition is_ok {E A} (m : result E A) : bool :=
  match m with Ok _ => true | Err _ => false end.

Declare Scope go_scope.
Delimit Scope go_scope with go.
Notation "'let?' x ':=' m 'in' k" := (rbind m (fun x => k))
  (at level 10, x pattern, m at level 100, k at level 200) : go_scope.
#[global] Open Scope go_scope.

(** ** Time

    [time.Time] and [time.Duration] are integers: nanoseconds, of an instant
    from the zero [time.Time].  Operations that call [time.Now()] take the
    instant as an argument. *)

Abbreviation Time := Z.
Abbreviation Duration := Z.

Definition time_Before (t u : Time) : bool := (t <? u)%Z.
Definition time_After (t u : Time) : bool := (u <? t)%Z.
Definition time_Add (t : Time) (d : Duration) : Time := (t + d)%Z.
Definition time_Sub (t u : Time) : Duration := (t - u)%Z.

(** Durations as the source writes them. *)
Definition Millisecond : Duration := 1000000%Z.
Definition Second : Duration := (1000 * Millisecond)%Z.
Definition Minute : Duration := (60 * Second)%Z.

(** The zero [time.Time] and the first instant of 1970. *)
Definition zeroTime : Time := 0%Z.
Definition unixEpoch : Time := (62135596800 * Second)%Z.

Definition IsZero (t : Time) : bool := (t =? zeroTime)%Z.

Lemma time_Before_spec t u : time_Before t u = true <-> (t < u)%Z.
Proof. apply Z.ltb_lt. Qed.

Lemma time_After_spec t u : time_After t u = true <-> (u < t)%Z.
Proof. apply Z.ltb_lt. Qed.

Lemma time_Before_false t u : time_Before t u = false <-> (u <= t)%Z.
Proof. apply Z.ltb_ge. Qed.

Lemma time_After_false t u : time_After t u = false <-> (t <= u)%Z.
Proof. apply Z.ltb_ge. Qed.

(** Comparisons of instants, as propositions of arithmetic. *)
Create Rewrite HintDb time.
#[export] Hint Rewrite time_Before_spec time_After_spec time_Before_false time_After_false : time.

(** [time_lia]: arithmetic with tests on instants. *)
Ltac time_lia := autorewrite with time in *; unfold time_Add, time_Sub in *; lia.

(** ** Tactics of the development *)

(** [in_cases H]: case analysis of a membership [H] in a concrete list. *)
Ltac in_cases H :=
  apply list_elem_of_In in H; simpl in H;
  repeat match type of H with _ \/ _ => destruct H as [H | H] end;
  try contradiction; simplify_eq.

(** [in_solve]: membership of an element in a concrete list. *)
Ltac in_solve := apply list_elem_of_In; simpl; tauto.

(** [compute_Forall H]: evaluate the list of a [Forall] hypothesis. *)
Ltac compute_Forall H :=
  match type of H with Forall _ ?l => let l' := eval vm_compute in l in change l with l' in H end.

(** [goal_if]: split on a boolean test of the goal. *)
Ltac goal_if :=
  match goal with
  | |- context [if ?b then _ else _] =>
      lazymatch type of b with bool => destruct b eqn:?; try done end
  end.

(** [div_lia]: linear arithmetic with quotients and remainders. *)
Ltac div_lia := Z.to_euclidean_division_equations; lia.

(** [pairs_lia]: arithmetic equality of tuples, component by component. *)
Ltac pairs_lia := repeat match goal with |- (_, _) = (_, _) => f_equal end; lia.

(** ** Generic lemmas *)

Lemma bool_decide_in1 (s a : string) : bool_decide (s ∈ [a]) = bool_decide (s = a).
Proof. apply bool_decide_ext. by rewrite list_elem_of_singleton. Qed.

Lemma bool_decide_in2 (s a b : string) :
  bool_decide (s ∈ [a; b]) = bool_decide (s = a) || bool_decide (s = b).
Proof.
  rewrite <- bool_decide_or. apply bool_decide_ext.
  by rewrite elem_of_cons, list_elem_of_singleton.
Qed.

(** [record_setter eta proj]: the function that replaces the field [proj] of a
    record, from [eta], which rebuilds a record from its projections. *)
Ltac record_setter eta proj :=
  let body := eval unfold eta in eta in
  match eval pattern proj in body with
  | ?rebuild _ =>
      let t := eval cbv beta in (fun v => rebuild (fun _ => v)) in exact t
  end.

(** [forall_inv]: take apart the [Forall]s of concrete lists. *)
Ltac forall_inv := rewrite ?Forall_cons, ?Forall_nil in *; destruct_and?.

Lemma insert_middle {A} (l k : list A) (x y : A) : <[length l := y]> (l ++ x :: k) = l ++ y :: k.
Proof. induction l as [| a l IH]; simpl; congruence. Qed.

Lemma filter_Forall {A} (P : A -> Prop) `{forall x, Decision (P x)} l : Forall P l -> filter P l = l.
Proof. induction 1 as [| x l Hx _ IH]; [done |]. by rewrite filter_cons_True, IH. Qed.

(** One element of a list is replaced. *)
Lemma bind_insert {A B} (f : A -> list B) l i x y : l !! i = Some x ->
  exists rest, (l ≫= f) ≡ₚ f x ++ rest /\ (<[i := y]> l ≫= f) ≡ₚ f y ++ rest.
Proof.
  intros Hx. exists ((take i l ++ drop (S i) l) ≫= f). pose proof (lookup_lt_Some _ _ _ Hx) as Hlt.
  rewrite insert_take_drop by done. rewrite <- (take_drop_middle l i x Hx) at 1.
  rewrite !bind_app, !bind_cons. split; solve_Permutation.
Qed.

Lemma filter_none {A} (P : A -> Prop) `{forall x, Decision (P x)} l : Forall (λ x, ~ P x) l -> filter P l = [].
Proof. induction 1 as [| x l Hx Hf IH]; [done |]. by rewrite filter_cons_False. Qed.

Lemma Sorted_snoc {A} (Rel : A -> A -> Prop) l x :
  Sorted Rel l -> (forall y, last l = Some y -> Rel y x) -> Sorted Rel (l ++ [x]).
Proof.
  induction 1 as [| a l Hs IH Hd]; intros Hx; simpl; [by repeat constructor |]. constructor.
  - apply IH. intros y Hy. apply Hx. destruct l; [done |]. by rewrite last_cons_cons.
  - destruct l; simpl in *; constructor; [by apply Hx | by inversion Hd].
Qed.

(** One of a list whose images under [f] differ. *)
Lemma NoDup_middle {A B} (f : A -> B) l1 x l2 :
  NoDup (f <$> l1 ++ x :: l2) -> NoDup (f <$> l1 ++ l2) /\ Forall (λ y, f y <> f x) (l1 ++ l2).
Proof.
  rewrite <- Permutation_middle, fmap_cons, NoDup_cons. intros [Hx Hn]. split; [done |].
  apply Forall_forall. intros y Hy E. apply Hx. rewrite <- E. by apply list_elem_of_fmap_2.
Qed.

(** ** Machine integers *)

(** The value an [int64] operation stores. *)
Definition wrap64 (z : Z) : Z := ((z + 2 ^ 63) mod 2 ^ 64 - 2 ^ 63)%Z.

(** [UnixNano] of an instant. *)
Definition UnixNano (t : Time) : Z := wrap64 (t - unixEpoch).

Lemma wrap64_small z : (- 2 ^ 63 <= z < 2 ^ 63)%Z -> wrap64 z = z.
Proof. intros H. unfold wrap64. rewrite Z.mod_small; lia. Qed.

(** ** Counting the elements of a list that satisfy a test *)

Definition countb {A} (f : A -> bool) (l : list A) : Z :=
  foldr (fun a n => (Z.b2z (f a) + n)%Z) 0%Z l.

Lemma countb_nonneg {A} (f : A -> bool) l : (0 <= countb f l)%Z.
Proof. induction l as [| a l IH]; simpl; [lia |]. destruct (f a); simpl; lia. Qed.

Lemma countb_app {A} (f : A -> bool) l k : countb f (l ++ k) = (countb f l + countb f k)%Z.
Proof. induction l as [| a l IH]; simpl; [done |]. rewrite IH. lia. Qed.

Lemma countb_insert {A} (f : A -> bool) l i a b :
  l !! i = Some a -> countb f (<[i := b]> l) = (countb f l - Z.b2z (f a) + Z.b2z (f b))%Z.
Proof.
  revert i. induction l as [| c l IH]; intros [| i] H; simplify_eq/=; [lia |].
  rewrite (IH i H). lia.
Qed.

Lemma countb_lookup {A} (f : A -> bool) l i a :
  l !! i = Some a -> f a = true -> (1 <= countb f l)%Z.
Proof.
  revert i. induction l as [| c l IH]; intros [| i] H Hf; simplify_eq/=.
  - rewrite Hf. pose proof (countb_nonneg f l). simpl. lia.
  - pose proof (IH i H Hf). destruct (f c); simpl; lia.
Qed.
