(* ===== verification/GoFloat.v ===== *)
(** * GoFloat: the [float64] operations of the source

    IEEE 754 binary64 as the reference semantics [SpecFloat] of the
    standard library computes it (53 bits of precision, exponent bound
    1024, round to nearest even): conversion from and to [int64], division,
    addition, subtraction, multiplication and the comparisons the program branches on.  No
    primitive float and no axiom is used, so every rate and percentage of
    the development evaluates by [vm_compute]. *)

From Stdlib Require Import ZArith SpecFloat.
From S2P Require Import Prelude.

Definition float64 : Type := spec_float.

Definition f64_prec : Z := 53.
Definition f64_emax : Z := 1024.

(** [float64(z)] for an integer [z]. *)
Definition f64_of_int (z : Z) : float64 := binary_normalize f64_prec f64_emax z 0 false.

Definition f64_div (x y : float64) : float64 := SFdiv f64_prec f64_emax x y.
Definition f64_add (x y : float64) : float64 := SFadd f64_prec f64_emax x y.
Definition f64_sub (x y : float64) : float64 := SFsub f64_prec f64_emax x y.
Definition f64_mul (x y : float64) : float64 := SFmul f64_prec f64_emax x y.

(** The conversion to [int64] truncates; what does not fit gives the least
    integer, as on amd64. *)
Definition f64_to_int (x : float64) : Z :=
  match x with
  | S754_zero _ => 0
  | S754_finite s m e =>
      let z := if (0 <=? e)%Z then (Z.pos m * 2 ^ e)%Z else (Z.pos m / 2 ^ (- e))%Z in
      let z := if s then (- z)%Z else z in
      if ((- 2 ^ 63 <=? z) && (z <? 2 ^ 63))%Z then z else (- 2 ^ 63)%Z
  | _ => (- 2 ^ 63)%Z
  end.

(** [x >= y] and [x > y]; both are false when an operand is NaN. *)
Definition f64_geb (x y : float64) : bool := SFleb y x.
Definition f64_gtb (x y : float64) : bool := SFltb y x.
Definition f64_eqb (x y : float64) : bool := SFeqb x y.

Definition f64_zero : float64 := S754_zero false.
Definition f64_one : float64 := f64_of_int 1.

(** [float64(a) / float64(b)] *)
Definition f64_ratio (a b : Z) : float64 := f64_div (f64_of_int a) (f64_of_int b).

#[export] Instance float64_eq_dec : EqDecision float64.
Proof. unfold float64. solve_decision. Defined.

Lemma f64_of_int_0 : f64_of_int 0 = f64_zero.
Proof. reflexivity. Qed.

(** A rate with numerator 0 never passes a positive threshold. *)
Lemma f64_ratio_0_pos (b : Z) (thr : float64) :
  (0 < b)%Z -> f64_gtb thr f64_zero = true -> f64_geb (f64_ratio 0 b) thr = false.
Proof.
  intros Hb Hthr. unfold f64_ratio. rewrite f64_of_int_0.
  assert (f64_div f64_zero (f64_of_int b) = f64_zero \/ f64_div f64_zero (f64_of_int b) = S754_nan
          \/ f64_div f64_zero (f64_of_int b) = S754_zero true) as [-> | [-> | ->]].
  { unfold f64_div, f64_zero. destruct (f64_of_int b) as [[]|[]| |[]]; simpl; auto. }
  all: unfold f64_gtb, f64_geb, f64_zero, SFltb, SFleb in *;
    destruct thr as [[]|[]| |[]]; simpl in *; congruence.
Qed.
