(* ===== verification/GoStrings.v ===== *)
(** * GoStrings: the functions of Go's [strings] package the source uses

    A string is its bytes ([String.string]).  [ToLower] is modelled for ASCII
    text: Go also maps the other letters of Unicode. *)

From S2P Require Import Prelude.
From Stdlib Require Import Ascii.

(** [strings.HasSuffix] *)
Fixpoint HasSuffix (s suffix : string) : bool :=
  String.eqb s suffix ||
  match s with
  | String _ s => HasSuffix s suffix
  | EmptyString => false
  end.

(** [strings.HasPrefix] *)
Definition HasPrefix (s pre : string) : bool := String.prefix pre s.

(** [strings.TrimSuffix] *)
Definition TrimSuffix (s suffix : string) : string :=
  if HasSuffix s suffix then String.substring 0 (String.length s - String.length suffix) s else s.

(** [strings.Contains] *)
Definition Contains (s sub : string) : bool :=
  match String.index 0 sub s with Some _ => true | None => false end.

(** The text before and after the first [sep]. *)
Fixpoint cut (sep : ascii) (s : string) : option (string * string) :=
  match s with
  | EmptyString => None
  | String a s =>
      if Ascii.eqb a sep then Some ("", s)
      else option_map (λ p, (String a p.1, p.2)) (cut sep s)
  end.

(** The text before and after the last [sep]. *)
Fixpoint cutLast (sep : ascii) (s : string) : option (string * string) :=
  match s with
  | EmptyString => None
  | String a s =>
      match cutLast sep s with
      | Some p => Some (String a p.1, p.2)
      | None => if Ascii.eqb a sep then Some ("", s) else None
      end
  end.

(** [strings.SplitN(s, sep, 2)] for a separator of one byte *)
Definition SplitN2 (sep : ascii) (s : string) : list string :=
  match cut sep s with
  | Some (a, b) => [a; b]
  | None => [s]
  end.

(** [strings.Split] for a separator of one byte *)
Fixpoint Split (sep : ascii) (s : string) : list string :=
  match s with
  | EmptyString => [""]
  | String a s =>
      if Ascii.eqb a sep then "" :: Split sep s
      else match Split sep s with
           | [] => [String a ""]
           | p :: ps => String a p :: ps
           end
  end.

Definition lower_ascii (a : ascii) : ascii :=
  let n := nat_of_ascii a in
  if (65 <=? n)%nat && (n <=? 90)%nat then ascii_of_nat (n + 32) else a.

(** [strings.ToLower] *)
Fixpoint ToLower (s : string) : string :=
  match s with
  | EmptyString => EmptyString
  | String a s => String (lower_ascii a) (ToLower s)
  end.

(** ** Lemmas *)

Fixpoint has_byte (c : ascii) (s : string) : bool :=
  match s with
  | EmptyString => false
  | String a s => Ascii.eqb a c || has_byte c s
  end.

Lemma HasSuffix_spec s suffix : HasSuffix s suffix = true <-> exists p, s = String.append p suffix.
Proof.
  induction s as [| a s IH]; cbn [HasSuffix]; rewrite orb_true_iff, String.eqb_eq.
  - split; [intros [<- | [=]]; by exists "" |]. intros [p E]. left. by destruct p.
  - rewrite IH. split.
    + intros [<- | [p ->]]; [by exists "" | by exists (String a p)].
    + intros [[| b p] E]; [by left |]. injection E as -> ->. right. by exists p.
Qed.

Lemma length_append a b : String.length (String.append a b) = (String.length a + String.length b)%nat.
Proof. induction a as [| x a IH]; [done |]. exact (f_equal S IH). Qed.

Lemma substring_append a b : String.substring 0 (String.length a) (String.append a b) = a.
Proof.
  induction a as [| x a IH]; [by destruct b |].
  change (String x (String.substring 0 (String.length a) (String.append a b)) = String x a).
  by rewrite IH.
Qed.

Lemma TrimSuffix_append p suffix : TrimSuffix (String.append p suffix) suffix = p.
Proof.
  unfold TrimSuffix. rewrite (proj2 (HasSuffix_spec _ _)) by (by exists p).
  rewrite length_append, Nat.add_sub. apply substring_append.
Qed.

Lemma cut_spec c s a b :
  cut c s = Some (a, b) <-> s = String.append a (String c b) /\ has_byte c a = false.
Proof.
  revert a b. induction s as [| x s IH]; intros a b; simpl.
  - split; [done |]. intros [E _]. by destruct a.
  - destruct (Ascii.eqb_spec x c) as [-> | Hne].
    + split; [by intros [= <- <-] |]. intros [E Ha].
      destruct a as [| y a]; simpl in *; injection E; [by intros -> |].
      intros -> <-. by rewrite Ascii.eqb_refl in Ha.
    + destruct (cut c s) as [[a' b'] |] eqn:Hc; simpl.
      * pose proof (proj1 (IH a' b') eq_refl) as [-> Hb]. split.
        -- intros [= <- <-]. simpl. by rewrite (proj2 (Ascii.eqb_neq x c) Hne).
        -- intros [E Ha]. destruct a as [| y a]; simpl in *; [injection E; congruence |].
           injection E as <- E. apply orb_false_iff in Ha as [_ Ha].
           pose proof (proj2 (IH a b) (conj E Ha)) as H. by injection H as <- <-.
      * split; [done |]. intros [E Ha]. destruct a as [| y a]; simpl in *; [injection E; congruence |].
        injection E as <- E. apply orb_false_iff in Ha as [_ Ha].
        by pose proof (proj2 (IH a b) (conj E Ha)).
Qed.

Lemma cutLast_none c s : cutLast c s = None -> has_byte c s = false.
Proof.
  induction s as [| x s IH]; [done |]. simpl. destruct (cutLast c s); [done |].
  destruct (Ascii.eqb x c); [done |]. intros _. by apply IH.
Qed.

Lemma has_byte_append c a b : has_byte c (String.append a b) = has_byte c a || has_byte c b.
Proof.
  induction a as [| x a IH]; [done |].
  change (Ascii.eqb x c || has_byte c (String.append a b) = (Ascii.eqb x c || has_byte c a) || has_byte c b).
  rewrite IH. apply orb_assoc.
Qed.

Lemma cutLast_spec c s a b :
  cutLast c s = Some (a, b) <-> s = String.append a (String c b) /\ has_byte c b = false.
Proof.
  revert a b. induction s as [| x s IH]; intros a b; simpl.
  - split; [done |]. intros [E _]. by destruct a.
  - destruct (cutLast c s) as [[a' b'] |] eqn:Hc.
    + pose proof (proj1 (IH a' b') eq_refl) as [-> Hb]. simpl. split.
      * intros [= <- <-]. done.
      * intros [E Hb']. destruct a as [| y a]; injection E as -> E.
        -- rewrite <- E, has_byte_append in Hb'. simpl in Hb'.
           by rewrite Ascii.eqb_refl, orb_true_r in Hb'.
        -- pose proof (proj2 (IH a b) (conj E Hb')) as Q. by injection Q as <- <-.
    + apply cutLast_none in Hc. destruct (Ascii.eqb_spec x c) as [-> | Hne]; split.
      * intros [= <- <-]. done.
      * intros [E Hb]. destruct a as [| y a]; injection E as E'; [by subst |]. subst.
        rewrite has_byte_append in Hc. simpl in Hc. by rewrite Ascii.eqb_refl, orb_true_r in Hc.
      * done.
      * intros [E Hb]. destruct a as [| y a]; injection E as E'; [done |]. subst.
        rewrite has_byte_append in Hc. simpl in Hc. by rewrite Ascii.eqb_refl, orb_true_r in Hc.
Qed.

(** Every byte of [s] satisfies [f]. *)
Fixpoint all_bytes (f : ascii -> bool) (s : string) : bool :=
  match s with
  | EmptyString => true
  | String a s => f a && all_bytes f s
  end.

Lemma all_bytes_append f a b : all_bytes f (String.append a b) = all_bytes f a && all_bytes f b.
Proof.
  induction a as [| x a IH]; [done |].
  change (f x && all_bytes f (String.append a b) = (f x && all_bytes f a) && all_bytes f b).
  rewrite IH. apply andb_assoc.
Qed.

Lemma all_bytes_without f c s : f c = false -> all_bytes f s = true -> has_byte c s = false.
Proof.
  intros Hc. induction s as [| x s IH]; [done |]. simpl. rewrite andb_true_iff. intros [Hx Hs].
  rewrite IH by done. destruct (Ascii.eqb_spec x c) as [-> |]; [congruence | done].
Qed.

Lemma append_inj_r a b c : String.append a c = String.append b c -> a = b.
Proof. intros E. rewrite <- (TrimSuffix_append a c), E. apply TrimSuffix_append. Qed.

Lemma HasPrefix_spec s pre : HasPrefix s pre = true <-> exists t, s = String.append pre t.
Proof.
  unfold HasPrefix. revert s. induction pre as [| a pre IH]; intros s; simpl.
  - destruct s as [| b s]; (split; [intros _; by eexists | done]).
  - destruct s as [| b s]; [split; [done | by intros [t E]] |].
    change (String.prefix (String a pre) (String b s)) with (if ascii_dec a b then String.prefix pre s else false).
    destruct (ascii_dec a b) as [<- | Hne].
    + rewrite IH. split; intros [t E]; exists t; [by rewrite E | by injection E].
    + split; [done |]. intros [t E]. injection E. congruence.
Qed.

Fixpoint count_byte (c : ascii) (s : string) : nat :=
  match s with
  | EmptyString => 0
  | String a s => (if Ascii.eqb a c then 1 else 0) + count_byte c s
  end.

Lemma count_byte_append c a b : count_byte c (String.append a b) = (count_byte c a + count_byte c b)%nat.
Proof.
  induction a as [| x a IH]; [done |].
  change (count_byte c (String.append (String x a) b))
    with ((if Ascii.eqb x c then 1 else 0) + count_byte c (String.append a b))%nat.
  rewrite IH. simpl. lia.
Qed.

Lemma length_Split c s : length (Split c s) = S (count_byte c s).
Proof.
  induction s as [| a s IH]; [done |]. simpl. destruct (Ascii.eqb a c); simpl; [by rewrite IH |].
  destruct (Split c s); simpl in *; congruence.
Qed.

(** The text before the first [c] and the text after it are determined. *)
Lemma append_sep_inj c a b a' b' :
  has_byte c a = false -> has_byte c a' = false ->
  String.append a (String c b) = String.append a' (String c b') -> a = a' /\ b = b'.
Proof.
  intros Ha Ha' E. pose proof (proj2 (cut_spec c _ a b) (conj eq_refl Ha)) as H.
  pose proof (proj2 (cut_spec c _ a' b') (conj eq_refl Ha')) as H'. rewrite E, H' in H. by simplify_eq.
Qed.

Lemma append_assoc a b c : String.append (String.append a b) c = String.append a (String.append b c).
Proof. induction a as [| x a IH]; [done |]. exact (f_equal (String x) IH). Qed.

(** ** Trimming and numbers *)

(** [unicode.IsSpace], for ASCII text. *)
Definition is_space (a : ascii) : bool :=
  let n := nat_of_ascii a in (n =? 32)%nat || ((9 <=? n) && (n <=? 13))%nat.

Fixpoint TrimLeft (s : string) : string :=
  match s with
  | String a s' => if is_space a then TrimLeft s' else s
  | EmptyString => EmptyString
  end.

Fixpoint TrimRight (s : string) : string :=
  match s with
  | String a s =>
      match TrimRight s with
      | EmptyString => if is_space a then EmptyString else String a EmptyString
      | t => String a t
      end
  | EmptyString => EmptyString
  end.

(** [strings.TrimSpace] *)
Definition TrimSpace (s : string) : string := TrimRight (TrimLeft s).

Definition digit (a : ascii) : option Z :=
  let n := nat_of_ascii a in if ((48 <=? n) && (n <=? 57))%nat then Some (Z.of_nat n - 48)%Z else None.

Fixpoint digits (acc : Z) (s : string) : option Z :=
  match s with
  | EmptyString => Some acc
  | String a s => d ← digit a; digits (acc * 10 + d)%Z s
  end.

(** [strconv.Atoi]: digits after an optional sign, within 64 bits; [None] stands
    for its error. *)
Definition Atoi (s : string) : option Z :=
  let unsigned (neg : bool) (s : string) :=
    match s with
    | EmptyString => None
    | _ => z ← digits 0 s;
           let z := if neg then (- z)%Z else z in
           if ((- 2 ^ 63 <=? z) && (z <? 2 ^ 63))%Z then Some z else None
    end in
  match s with
  | String a s' =>
      if Ascii.eqb a "-"%char then unsigned true s'
      else if Ascii.eqb a "+"%char then unsigned false s' else unsigned false s
  | EmptyString => None
  end.

Example atoi_examples :
  Atoi "42" = Some 42%Z /\ Atoi "-7" = Some (-7)%Z /\ Atoi "+7" = Some 7%Z /\ Atoi "4a" = None /\ Atoi "-" = None /\
  Atoi "9223372036854775808" = None /\ TrimSpace " a b  " = "a b".
Proof. by vm_compute. Qed.
