(* ===== verification/GoFormat.v ===== *)
(** * GoFormat: the verbs of package [fmt] the source uses

    [%.nf] prints a [float64] rounded to [n] decimals, correctly and half to
    even, as package [strconv] does; [%v] of a list of strings; [%q]; and
    [fmt.Sscanf] of a leading decimal number ([%f]).  Texts are bytes; [%q]
    leaves the bytes of longer characters as they are, and [Sscanf] reads
    numbers without sign, exponent and underscores, as quantities are
    written. *)

From Stdlib Require Import ZArith SpecFloat Ascii.
From stdpp Require Import pretty.
From S2P Require Import Prelude GoFloat GoStrings.
Local Open Scope Z_scope.

(** ** Printing floats *)

(** [n / d] rounded to an integer, half to even. *)
Definition round_div (n d : Z) : Z :=
  let q := n / d in
  let r := n mod d in
  if 2 * r <? d then q else if d <? 2 * r then q + 1 else if Z.even q then q else q + 1.

(** [m * 2^e], scaled and rounded. *)
Definition round_scaled (m : positive) (e scale : Z) : Z :=
  if 0 <=? e then Z.pos m * 2 ^ e * scale else round_div (Z.pos m * scale) (2 ^ (- e)).

Fixpoint zeros (n : nat) : string :=
  match n with O => "" | S n => "0" +:+ zeros n end.

(** A natural number with at least [n] digits. *)
Definition padded (n : nat) (z : Z) : string :=
  let s := pretty z in zeros (n - String.length s) +:+ s.

Definition fixed_point (prec : nat) (z : Z) : string :=
  match prec with
  | O => pretty z
  | _ => let p := 10 ^ Z.of_nat prec in pretty (z / p) +:+ "." +:+ padded prec (z mod p)
  end.

(** [fmt.Sprintf] of [%.<prec>f] *)
Definition fmt_f (prec : nat) (x : float64) : string :=
  match x with
  | S754_zero s => (if s then "-" else "") +:+ fixed_point prec 0
  | S754_infinity s => if s then "-Inf" else "+Inf"
  | S754_nan => "NaN"
  | S754_finite s m e => (if s then "-" else "") +:+ fixed_point prec (round_scaled m e (10 ^ Z.of_nat prec))
  end.

(** ** Reading floats *)

(** [n / d], correctly rounded: the quotient with 64 bits and more, and a last
    bit for what remains. *)
Definition f64_of_ratio (n d : Z) : float64 :=
  let k := 64 + Z.log2_up d in
  let q := n * 2 ^ k / d in
  let sticky := if (n * 2 ^ k) mod d =? 0 then 0 else 1 in
  binary_normalize f64_prec f64_emax (2 * q + sticky) (- k - 1) false.

(** The leading digits of a text: their value, their number and the rest. *)
Fixpoint take_digits (acc : Z) (n : nat) (s : string) : Z * nat * string :=
  match s with
  | String a s' =>
      match digit a with
      | Some d => take_digits (acc * 10 + d) (S n) s'
      | None => (acc, n, s)
      end
  | EmptyString => (acc, n, s)
  end.

(** [fmt.Sscanf(s, "%f...", &x)]: the value [x] gets, which was 0.  A suffix of
    the format that does not match is an error after [x] is set. *)
Definition Sscanf_f (s : string) : float64 :=
  let '(i, n, rest) := take_digits 0 0 s in
  let '(v, k, m) :=
    match rest with
    | String "." rest' => take_digits i 0 rest'
    | _ => (i, 0%nat, rest)
    end in
  if ((n + k) =? 0)%nat then f64_zero else f64_of_ratio v (10 ^ Z.of_nat k).

(** ** Lists and quoted texts *)

(** [strings.Join] *)
Definition Join (sep : string) (l : list string) : string :=
  match l with
  | [] => ""
  | s :: l => foldl (λ acc s, acc +:+ sep +:+ s) s l
  end.

(** [%v] of a slice of strings *)
Definition fmt_v (l : list string) : string := "[" +:+ Join " " l +:+ "]".

Definition hex_digit (z : Z) : ascii := ascii_of_nat (Z.to_nat (if z <? 10 then 48 + z else 87 + z)).

(** A byte of a text under [strconv.Quote]. *)
Definition quote_byte (a : ascii) : string :=
  let n := Z.of_nat (nat_of_ascii a) in
  if n =? 34 then String "\" (String a EmptyString)
  else if n =? 92 then "\\"
  else if n =? 7 then "\a" else if n =? 8 then "\b" else if n =? 12 then "\f"
  else if n =? 10 then "\n" else if n =? 13 then "\r" else if n =? 9 then "\t"
  else if n =? 11 then "\v"
  else if (n <? 32) || (n =? 127) then "\x" +:+ String (hex_digit (n / 16)) (String (hex_digit (n mod 16)) EmptyString)
  else String a EmptyString.

Fixpoint quote_bytes (s : string) : string :=
  match s with
  | EmptyString => ""
  | String a s => quote_byte a +:+ quote_bytes s
  end.

Definition quotation_mark : string := String (ascii_of_nat 34) EmptyString.

(** [%q] *)
Definition fmt_q (s : string) : string := quotation_mark +:+ quote_bytes s +:+ quotation_mark.

Example formats :
  fmt_f 2 (f64_ratio 5 2) = "2.50" /\ fmt_f 1 (f64_ratio 1 20) = "0.1" /\ fmt_f 1 (f64_ratio 1 4) = "0.2" /\
  fmt_f 0 (f64_of_int 1200) = "1200" /\ fmt_f 2 f64_zero = "0.00" /\
  Sscanf_f "16Gi" = f64_of_int 16 /\ Sscanf_f "0.1" = f64_ratio 1 10 /\ Sscanf_f "Gi" = f64_zero /\
  fmt_v ["amf"; "smf"] = "[amf smf]" /\ quote_bytes "a\b" = "a\\b".
Proof. by vm_compute. Qed.
