(* ===== verification/GoCrypto.v ===== *)
(** * GoCrypto: the parts of Go's crypto and encoding packages the source uses

    [Sum256] of crypto/sha256 (FIPS 180-4), encoding/hex and the standard
    encoding of encoding/base64, on strings of bytes.  A 32-bit word is an
    integer below [2^32]. *)

From S2P Require Import Prelude GoStrings.
From Stdlib Require Import Ascii.

Local Open Scope Z_scope.

(** ** Bytes *)

Definition byte_of (a : ascii) : Z := Z.of_nat (nat_of_ascii a).
Definition of_byte (z : Z) : ascii := ascii_of_nat (Z.to_nat z).

Fixpoint bytes (s : string) : list Z :=
  match s with
  | EmptyString => []
  | String a s => byte_of a :: bytes s
  end.

Fixpoint of_bytes (l : list Z) : string :=
  match l with
  | [] => EmptyString
  | z :: l => String (of_byte z) (of_bytes l)
  end.

Definition is_byte (z : Z) : Prop := 0 <= z < 256.

Lemma of_byte_byte a : of_byte (byte_of a) = a.
Proof. unfold of_byte, byte_of. by rewrite Nat2Z.id, ascii_nat_embedding. Qed.

Lemma byte_of_byte z : is_byte z -> byte_of (of_byte z) = z.
Proof.
  intros [? ?]. unfold of_byte, byte_of. rewrite nat_ascii_embedding; lia.
Qed.

Lemma byte_bound a : is_byte (byte_of a).
Proof. unfold is_byte, byte_of. pose proof (nat_ascii_bounded a). lia. Qed.

Lemma of_bytes_bytes s : of_bytes (bytes s) = s.
Proof. induction s as [| a s IH]; [done |]. simpl. by rewrite of_byte_byte, IH. Qed.

Lemma bytes_of_bytes l : Forall is_byte l -> bytes (of_bytes l) = l.
Proof. induction 1 as [| z l Hz _ IH]; [done |]. simpl. by rewrite byte_of_byte, IH. Qed.

Lemma bytes_bound s : Forall is_byte (bytes s).
Proof. induction s; constructor; [apply byte_bound | done]. Qed.

Lemma length_of_bytes l : String.length (of_bytes l) = length l.
Proof. induction l; simpl; congruence. Qed.

(** ** SHA-256 *)

Definition add32 (x y : Z) : Z := (x + y) mod 2 ^ 32.
Definition rotr (n x : Z) : Z :=
  Z.lor (Z.shiftr x n) (Z.shiftl x (32 - n) mod 2 ^ 32).
Definition xor3 (x y z : Z) : Z := Z.lxor x (Z.lxor y z).

Definition Ch (x y z : Z) : Z := Z.lxor (Z.land x y) (Z.land (2 ^ 32 - 1 - x) z).
Definition Maj (x y z : Z) : Z := xor3 (Z.land x y) (Z.land x z) (Z.land y z).
Definition Sigma0 (x : Z) : Z := xor3 (rotr 2 x) (rotr 13 x) (rotr 22 x).
Definition Sigma1 (x : Z) : Z := xor3 (rotr 6 x) (rotr 11 x) (rotr 25 x).
Definition sigma0 (x : Z) : Z := xor3 (rotr 7 x) (rotr 18 x) (Z.shiftr x 3).
Definition sigma1 (x : Z) : Z := xor3 (rotr 17 x) (rotr 19 x) (Z.shiftr x 10).

(** The constants are the first 32 bits of the fractional parts of roots of
    the first primes: cube roots for the rounds, square roots for the initial
    digest. *)
Definition isPrime (n : Z) : bool :=
  forallb (fun d => negb (n mod Z.of_nat d =? 0)) (seq 2 (Z.to_nat (Z.sqrt n) - 1)).

Fixpoint primesFrom (range count : nat) (n : Z) : list Z :=
  match range, count with
  | S range, S count' =>
      if isPrime n then n :: primesFrom range count' (n + 1) else primesFrom range count (n + 1)
  | _, _ => []
  end.

(** The integer cube root of [n], bit by bit from bit [k]. *)
Fixpoint cubeRoot (k : nat) (r n : Z) : Z :=
  let r' := r + 2 ^ Z.of_nat k in
  let r := if r' ^ 3 <=? n then r' else r in
  match k with
  | O => r
  | S k => cubeRoot k r n
  end.

Definition cubeFraction (p : Z) : Z := cubeRoot 36 0 (p * 2 ^ 96) mod 2 ^ 32.
Definition squareFraction (p : Z) : Z := Z.sqrt (p * 2 ^ 64) mod 2 ^ 32.

Definition K : list Z := Eval vm_compute in cubeFraction <$> primesFrom 400 64 2.

Record Digest := mkDigest { h0 : Z; h1 : Z; h2 : Z; h3 : Z; h4 : Z; h5 : Z; h6 : Z; h7 : Z }.

Definition initial : Digest := Eval vm_compute in
  match squareFraction <$> primesFrom 30 8 2 with
  | [a; b; c; d; e; f; g; h] => mkDigest a b c d e f g h
  | _ => mkDigest 0 0 0 0 0 0 0 0
  end.

(** The rounds of one block: [w] is the window of the next sixteen words. *)
Fixpoint rounds (ks w : list Z) (d : Digest) : Digest :=
  match ks with
  | [] => d
  | k :: ks =>
      let w0 := nth 0 w 0 in
      let next := add32 (add32 (sigma1 (nth 14 w 0)) (nth 9 w 0)) (add32 (sigma0 (nth 1 w 0)) w0) in
      let t1 := add32 (add32 (add32 (h7 d) (Sigma1 (h4 d))) (add32 (Ch (h4 d) (h5 d) (h6 d)) k)) w0 in
      let t2 := add32 (Sigma0 (h0 d)) (Maj (h0 d) (h1 d) (h2 d)) in
      rounds ks (tail w ++ [next])
        (mkDigest (add32 t1 t2) (h0 d) (h1 d) (h2 d) (add32 (h3 d) t1) (h4 d) (h5 d) (h6 d))
  end.

Definition block (d : Digest) (w : list Z) : Digest :=
  let r := rounds K w d in
  mkDigest (add32 (h0 d) (h0 r)) (add32 (h1 d) (h1 r)) (add32 (h2 d) (h2 r)) (add32 (h3 d) (h3 r))
    (add32 (h4 d) (h4 r)) (add32 (h5 d) (h5 r)) (add32 (h6 d) (h6 r)) (add32 (h7 d) (h7 r)).

(** The [n] big-endian bytes of [z]. *)
Fixpoint big_endian (n : nat) (z : Z) : list Z :=
  match n with
  | O => []
  | S n => big_endian n (z / 256) ++ [z mod 256]
  end.

Definition pad (l : list Z) : list Z :=
  let n := length l in
  l ++ [128] ++ replicate (Z.to_nat ((55 - Z.of_nat n) mod 64)) 0 ++ big_endian 8 (8 * Z.of_nat n).

Fixpoint words (l : list Z) : list Z :=
  match l with
  | a :: b :: c :: d :: l => (a * 2 ^ 24 + b * 2 ^ 16 + c * 2 ^ 8 + d) :: words l
  | _ => []
  end.

(** The blocks of a padded message; [n] is at least their number. *)
Fixpoint blocks (n : nat) (w : list Z) (d : Digest) : Digest :=
  match n, w with
  | S n, _ :: _ => blocks n (drop 16 w) (block d (take 16 w))
  | _, _ => d
  end.

Definition Sum256 (s : string) : string :=
  let w := words (pad (bytes s)) in
  let d := blocks (length w) w initial in
  of_bytes (concat (big_endian 4 <$> [h0 d; h1 d; h2 d; h3 d; h4 d; h5 d; h6 d; h7 d])).

(** Sums are compared, not computed, in proofs. *)
#[global] Arguments Sum256 : simpl never.

(** ** encoding/hex *)

Definition hex_digit (n : Z) : ascii := of_byte (if n <? 10 then 48 + n else 87 + n).

(** [hex.EncodeToString], also what [fmt] prints for [%x] *)
Fixpoint hex (s : string) : string :=
  match s with
  | EmptyString => EmptyString
  | String a s => String (hex_digit (byte_of a / 16)) (String (hex_digit (byte_of a mod 16)) (hex s))
  end.

Example hex_sum : hex (Sum256 "abc") = "ba7816bf8f01cfea414140de5dae2223b00361a396177a9cb410ff61f20015ad".
Proof. by vm_compute. Qed.

Example hex_sum_long :
  hex (Sum256 "abcdbcdecdefdefgefghfghighijhijkijkljklmklmnlmnomnopnopq")
  = "248d6a61d20638b8e5c026930c3e6039a33ce45964ff2167f6ecedd419db06c1".
Proof. by vm_compute. Qed.

Lemma length_Sum256 s : String.length (Sum256 s) = 32%nat.
Proof. unfold Sum256. by rewrite length_of_bytes. Qed.

Lemma hex_digit_inj m n : 0 <= m < 16 -> 0 <= n < 16 -> hex_digit m = hex_digit n -> m = n.
Proof.
  unfold hex_digit. intros Hm Hn E. apply (f_equal byte_of) in E.
  rewrite !byte_of_byte in E by (unfold is_byte; repeat case_match; lia).
  destruct (Z.ltb_spec m 10), (Z.ltb_spec n 10); lia.
Qed.

Lemma hex_inj s t : hex s = hex t -> s = t.
Proof.
  revert t. induction s as [| a s IH]; intros [| b t] E; try done. injection E as E1 E2 E3.
  pose proof (byte_bound a). pose proof (byte_bound b). unfold is_byte in *.
  apply hex_digit_inj in E1; [| div_lia | div_lia]. apply hex_digit_inj in E2; [| div_lia | div_lia].
  assert (byte_of a = byte_of b) as Eb by div_lia.
  by rewrite (IH t E3), <- (of_byte_byte a), <- (of_byte_byte b), Eb.
Qed.

Lemma length_hex s : String.length (hex s) = (2 * String.length s)%nat.
Proof. induction s as [| a s IH]; [done |]. simpl. rewrite IH. lia. Qed.

Lemma hex_Sum256_nonempty s : hex (Sum256 s) <> "".
Proof. intros E. apply (f_equal String.length) in E. by rewrite length_hex, length_Sum256 in E. Qed.

(** ** encoding/base64, the standard encoding with padding *)

Definition sextet (n : Z) : Z :=
  if n <? 26 then 65 + n else if n <? 52 then 71 + n else if n <? 62 then n - 4
  else if n =? 62 then 43 else 47.

Definition unsextet (c : Z) : option Z :=
  if (65 <=? c) && (c <=? 90) then Some (c - 65)
  else if (97 <=? c) && (c <=? 122) then Some (c - 71)
  else if (48 <=? c) && (c <=? 57) then Some (c + 4)
  else if c =? 43 then Some 62 else if c =? 47 then Some 63 else None.

Fixpoint base64_bytes (l : list Z) : list Z :=
  match l with
  | [] => []
  | [a] => [sextet (a / 4); sextet (a mod 4 * 16); 61; 61]
  | [a; b] => [sextet (a / 4); sextet (a mod 4 * 16 + b / 16); sextet (b mod 16 * 4); 61]
  | a :: b :: c :: l =>
      sextet (a / 4) :: sextet (a mod 4 * 16 + b / 16) :: sextet (b mod 16 * 4 + c / 64)
        :: sextet (c mod 64) :: base64_bytes l
  end.

(** The quantum of four digits [p q r s], the last of the text if [final]. *)
Definition quantum (p q r s : Z) (final : bool) : option (list Z) :=
  p ← unsextet p; q ← unsextet q;
  let a := p * 4 + q / 16 in
  if final && (r =? 61) && (s =? 61) then Some [a]
  else
    r ← unsextet r;
    let b := q mod 16 * 16 + r / 4 in
    if final && (s =? 61) then Some [a; b]
    else s ← unsextet s; Some [a; b; r mod 4 * 64 + s].

Fixpoint unbase64_bytes (l : list Z) : option (list Z) :=
  match l with
  | [] => Some []
  | p :: q :: r :: s :: l =>
      front ← quantum p q r s (match l with [] => true | _ => false end);
      rest ← unbase64_bytes l;
      Some (front ++ rest)
  | _ => None
  end.

Definition EncodeToString (s : string) : string := of_bytes (base64_bytes (bytes s)).

(** Line ends are skipped. *)
Definition DecodeString (s : string) : option string :=
  of_bytes <$> unbase64_bytes (filter (λ c, c <> 10 /\ c <> 13) (bytes s)).

Lemma unsextet_sextet n : 0 <= n < 64 -> unsextet (sextet n) = Some n.
Proof.
  intros Hn. unfold unsextet, sextet.
  repeat (case_match; try (f_equal; lia)); lia.
Qed.

Lemma sextet_plain n : 0 <= n < 64 ->
  is_byte (sextet n) /\ sextet n <> 10 /\ sextet n <> 13 /\ (sextet n =? 61) = false.
Proof. intros Hn. unfold sextet, is_byte. repeat case_match; lia. Qed.

Lemma quantum_sextets p q r s final :
  0 <= p < 64 -> 0 <= q < 64 -> 0 <= r < 64 -> 0 <= s < 64 ->
  quantum (sextet p) (sextet q) (sextet r) (sextet s) final =
  Some [p * 4 + q / 16; q mod 16 * 16 + r / 4; r mod 4 * 64 + s].
Proof.
  intros Hp Hq Hr Hs. unfold quantum. rewrite !unsextet_sextet by done. simpl.
  destruct (sextet_plain r Hr) as (_ & _ & _ & ->). rewrite andb_false_r. simpl.
  destruct (sextet_plain s Hs) as (_ & _ & _ & ->). by rewrite andb_false_r.
Qed.

(** Induction in steps of three. *)
Lemma list_ind3 {A} (P : list A -> Prop) :
  P [] -> (forall a, P [a]) -> (forall a b, P [a; b]) ->
  (forall a b c l, P l -> P (a :: b :: c :: l)) -> forall l, P l.
Proof.
  intros H0 H1 H2 H3. fix IH 1. intros [| a [| b [| c l]]]; [done | apply H1 | apply H2 |].
  apply H3, IH.
Qed.

Lemma unbase64_base64 l : Forall is_byte l -> unbase64_bytes (base64_bytes l) = Some l.
Proof.
  induction l as [| a | a b | a b c l IH] using list_ind3; intros Hl; [done |..];
    rewrite ?Forall_cons in Hl; unfold is_byte in Hl.
  - simpl. unfold quantum. rewrite !unsextet_sextet by div_lia. simpl. do 2 f_equal. div_lia.
  - simpl. unfold quantum. rewrite !unsextet_sextet by div_lia. simpl.
    destruct (sextet_plain (b mod 16 * 4)) as (_ & _ & _ & ->); [div_lia |]. simpl.
    repeat f_equal; div_lia.
  - destruct Hl as (Ha & Hb & Hc & Hl). cbn [base64_bytes unbase64_bytes].
    rewrite quantum_sextets by div_lia. cbn. rewrite IH by done. cbn. repeat f_equal; div_lia.
Qed.

Lemma base64_plain l : Forall is_byte l ->
  Forall (λ c, is_byte c /\ c <> 10 /\ c <> 13) (base64_bytes l).
Proof.
  assert (forall n, 0 <= n < 64 -> is_byte (sextet n) /\ sextet n <> 10 /\ sextet n <> 13) as Hs
    by (intros n Hn; destruct (sextet_plain n Hn) as (? & ? & ? & _); done).
  assert (is_byte 61 /\ 61 <> 10 /\ 61 <> 13) as Hp by (by unfold is_byte).
  induction l as [| a | a b | a b c l IH] using list_ind3; intros Hl; [done |..];
    rewrite ?Forall_cons in Hl; unfold is_byte in Hl; cbn [base64_bytes];
    repeat (apply Forall_cons; split); try apply Hs; try done; try div_lia. apply IH, Hl.
Qed.

(** Decoding inverts encoding. *)
Lemma DecodeString_EncodeToString s : DecodeString (EncodeToString s) = Some s.
Proof.
  unfold DecodeString, EncodeToString. pose proof (base64_plain _ (bytes_bound s)) as Hp.
  rewrite bytes_of_bytes by (eapply Forall_impl; [done | by intros ? [? _]]).
  rewrite filter_Forall by (eapply Forall_impl; [done | by intros ? [_ ?]]).
  rewrite unbase64_base64 by apply bytes_bound. simpl. by rewrite of_bytes_bytes.
Qed.

Example base64_example : EncodeToString "any carnal pleas" = "YW55IGNhcm5hbCBwbGVhcw==".
Proof. by vm_compute. Qed.
