(* ===== verification/Effects.v ===== *)
(** * Effects: programs that call services

    A handler that talks to servers is the tree of its calls: [Vis c k] makes the
    call [c] and goes on with [k] of the answer.  [reach] is what a program can
    do when answers satisfy an assumption about the calls before them, and [wp]
    its proof rule: what is claimed of each call, of the result, and that no
    panic is reached.  Calls and answers so far are listed newest first. *)

From S2P Require Import Prelude.

Section programs.
Context {Call : Type} {Answer : Call -> Type}.

Inductive prog (A : Type) : Type :=
| Ret (a : A)
| Vis (c : Call) (k : Answer c -> prog A)
| Panic (why : string).
Arguments Ret {A} a.
Arguments Vis {A} c k.
Arguments Panic {A} why.

Fixpoint pbind {A B} (p : prog A) (f : A -> prog B) : prog B :=
  match p with
  | Ret a => f a
  | Vis c k => Vis c (λ r, pbind (k r) f)
  | Panic why => Panic why
  end.

Record event := Ev { ev_call : Call; ev_answer : Answer ev_call }.

Section reasoning.
Context (assume : list event -> forall c, Answer c -> Prop).

(** [reach t p t' p']: after the calls [t], [p] can get to [p'], the calls being
    [t'] by then. *)
Inductive reach {A} (t : list event) (p : prog A) : list event -> prog A -> Prop :=
| reach_here : reach t p t p
| reach_call t' c k r :
    reach t p t' (Vis c k) -> assume t' c r -> reach t p (Ev c r :: t') (k r).

Context (claim : list event -> Call -> Prop).

Fixpoint wp {A} (p : prog A) (Q : A -> list event -> Prop) (t : list event) : Prop :=
  match p with
  | Ret a => Q a t
  | Vis c k => claim t c /\ (forall r, assume t c r -> wp (k r) Q (Ev c r :: t))
  | Panic _ => False
  end.

Lemma wp_mono {A} (p : prog A) (Q Q' : A -> list event -> Prop) t :
  (forall a t, Q a t -> Q' a t) -> wp p Q t -> wp p Q' t.
Proof.
  intros HQ. revert t. induction p as [a | c k IH | why]; intros t; simpl; [apply HQ | | done].
  intros [Hc Hk]. split; [done |]. intros r Hr. by apply IH, Hk.
Qed.

Lemma wp_pbind {A B} (p : prog A) (f : A -> prog B) Q t :
  wp p (λ a t, wp (f a) Q t) t -> wp (pbind p f) Q t.
Proof.
  revert t. induction p as [a | c k IH | why]; intros t; simpl; [done | | done].
  intros [Hc Hk]. split; [done |]. intros r Hr. by apply IH, Hk.
Qed.

Lemma wp_reach {A} (p : prog A) Q t t' p' : wp p Q t -> reach t p t' p' -> wp p' Q t'.
Proof. induction 2 as [| t' c k r Hr IH Ha]; [done |]. by apply IH. Qed.

(** What a proved program does: each of its calls is as claimed, it does not
    panic, and its result is as stated. *)
Lemma wp_sound {A} (p : prog A) Q t t' p' :
  wp p Q t -> reach t p t' p' ->
  match p' with
  | Ret a => Q a t'
  | Vis c _ => claim t' c
  | Panic _ => False
  end.
Proof. intros Hp Hr. pose proof (wp_reach p Q t t' p' Hp Hr) as H. destruct p'; [done | apply H | done]. Qed.

(** Every call a program has made was as claimed at its time. *)
Lemma wp_calls {A} (p : prog A) Q t t' p' :
  wp p Q t -> reach t p t' p' -> exists new, t' = new ++ t /\
  forall l e l', new = l ++ e :: l' -> claim (l' ++ t) (ev_call e).
Proof.
  intros Hp. induction 1 as [| t' c k r Hr IH Ha].
  - exists []. split; [done |]. intros [] ? ? [=].
  - destruct IH as (new & -> & IH). exists (Ev c r :: new). split; [done |].
    intros [| e0 l] e l' [= <- E]; [| by eapply IH].
    rewrite <- E. pose proof (wp_sound _ _ _ _ _ Hp Hr) as H. by simpl in *; subst.
Qed.

End reasoning.

(** A server that answers each call by a function of its state. *)
Section serve.
Context {W : Type} (answer : forall c, W -> Answer c * W).

Fixpoint serve {A} (p : prog A) (w : W) : option A * W :=
  match p with
  | Ret a => (Some a, w)
  | Vis c k => let '(r, w) := answer c w in serve (k r) w
  | Panic _ => (None, w)
  end.

Lemma serve_pbind {A B} (p : prog A) (f : A -> prog B) w :
  serve (pbind p f) w =
  match serve p w with (Some a, w) => serve (f a) w | (None, w) => (None, w) end.
Proof.
  revert w. induction p as [a | c k IH | why]; intros w; simpl; [done | | done].
  destruct (answer c w) as [r w']. apply IH.
Qed.
End serve.

End programs.

Arguments prog {Call} Answer A.
Arguments Ret {Call Answer A} a.
Arguments Vis {Call Answer A} c k.
Arguments Panic {Call Answer A} why.
Arguments event {Call} Answer.
Arguments Ev {Call Answer} ev_call ev_answer.
