(* ===== verification/GitClient.v ===== *)
(** * GitClient: commits to the deployment repository

    Follows InitRepo, CommitAndPush and CommitFiles of pkg/git/client.go over
    go-git, the file system and the paths of the standard library: the class
    [GoGit], operations on the state of the local repository.  A map of files is
    the list in which Go ranges over it.  The semaphore, test hooks and logging
    are left out. *)

From S2P Require Import Prelude.

Class GoGit := {
  Repo : Type;
  Exists_ : Repo -> bool;  (* os.Stat of the path *)
  PlainClone : Repo -> result string unit * Repo;
  PlainOpen : Repo -> result string unit;
  Worktree : Repo -> result string unit;
  FullPath : string -> string;  (* filepath.Join with the path of the repository *)
  Dir : string -> string;
  MkdirAll : string -> Repo -> result string unit * Repo;
  WriteFile : string -> string -> Repo -> result string unit * Repo;
  Add : string -> Repo -> result string unit * Repo;
  Commit : string -> Repo -> result string string * Repo;
  CommitObject : string -> Repo -> result string string;
  NewPublicKeys : Repo -> result string unit;
  Push : Repo -> result string unit * Repo;
  (* nothing is staged that the last commit does not have *)
  clean : Repo -> Prop
}.

(** go-git (5.16) makes no empty commits unless asked to, and a commit takes
    all that is staged. *)
Class GoGitLaws (G : GoGit) : Prop := {
  Commit_clean m r : clean r -> Commit m r = (Err "cannot create empty commit: clean working tree", r);
  Commit_takes_all m r h r' : Commit m r = (Ok h, r') -> clean r';
  Push_clean r : clean r -> clean (Push r).2
}.

Section client.
Context `{!GoGit}.

(** A step on the repository; [what] is wrapped around its error. *)
Definition wrapped {A} (what : string) (m : result string A) : result string A :=
  match m with Ok a => Ok a | Err e => Err (what +:+ e) end.

Definition InitRepo (r : Repo) : result string unit * Repo :=
  if Exists_ r then (Ok tt, r)
  else match PlainClone r with
       | (Ok _, r) => (Ok tt, r)
       | (Err e, r) => if String.eqb e "repository already exists" then (Ok tt, r)
                       else (Err ("failed to clone repo: " +:+ e), r)
       end.

Definition openWorktree (r : Repo) : result string unit :=
  let? _ := wrapped "failed to open repo: " (PlainOpen r) in wrapped "failed to get worktree: " (Worktree r).

(** One file of [CommitAndPush]. *)
Definition stageFile (path content : string) (r : Repo) : result string unit * Repo :=
  let fullPath := FullPath path in
  match MkdirAll (Dir fullPath) r with
  | (Err e, r) => (Err ("failed to create directory for " +:+ path +:+ ": " +:+ e), r)
  | (Ok _, r) =>
      match WriteFile fullPath content r with
      | (Err e, r) => (Err ("failed to write file " +:+ path +:+ ": " +:+ e), r)
      | (Ok _, r) =>
          match Add path r with
          | (Err e, r) => (Err ("failed to add file " +:+ path +:+ ": " +:+ e), r)
          | (Ok _, r) => (Ok tt, r)
          end
      end
  end.

Fixpoint stageFiles (files : list (string * string)) (r : Repo) : result string unit * Repo :=
  match files with
  | [] => (Ok tt, r)
  | (path, content) :: files =>
      match stageFile path content r with
      | (Ok _, r) => stageFiles files r
      | e => e
      end
  end.

Definition CommitAndPush (files : list (string * string)) (message : string) (r : Repo) : result string string * Repo :=
  match openWorktree r with
  | Err e => (Err e, r)
  | Ok _ =>
      match stageFiles files r with
      | (Err e, r) => (Err e, r)
      | (Ok _, r) =>
          match Commit message r with
          | (Err e, r) => (Err ("failed to commit: " +:+ e), r)
          | (Ok commit, r) =>
              match CommitObject commit r with
              | Err e => (Err ("failed to get commit object: " +:+ e), r)
              | Ok hash =>
                  match NewPublicKeys r with
                  | Err e => (Err ("failed to create ssh auth: " +:+ e), r)
                  | Ok _ =>
                      match Push r with
                      | (Err e, r) => (Err ("failed to push: " +:+ e), r)
                      | (Ok _, r) => (Ok hash, r)
                      end
                  end
              end
          end
      end
  end.

Fixpoint addFiles (files : list string) (r : Repo) : result string unit * Repo :=
  match files with
  | [] => (Ok tt, r)
  | file :: files =>
      match Add file r with
      | (Err e, r) => (Err ("failed to add file " +:+ file +:+ ": " +:+ e), r)
      | (Ok _, r) => addFiles files r
      end
  end.

Definition CommitFiles (files : list string) (msg : string) (r : Repo) : result string unit * Repo :=
  match openWorktree r with
  | Err e => (Err e, r)
  | Ok _ =>
      match addFiles files r with
      | (Err e, r) => (Err e, r)
      | (Ok _, r) =>
          match Commit msg r with
          | (Err e, r) => (Err ("failed to commit: " +:+ e), r)
          | (Ok _, r) => (Ok tt, r)
          end
      end
  end.

(** ** What commits leave behind *)

Context {laws : GoGitLaws _}.

(** A commit without files is refused by a clean repository and changes nothing. *)
Lemma CommitAndPush_nothing m r : clean r ->
  exists e, CommitAndPush [] m r = (Err e, r).
Proof.
  intros Hc. unfold CommitAndPush. destruct (openWorktree r) as [u | e]; [| by exists e].
  simpl. rewrite Commit_clean by done. eauto.
Qed.

(** After a commit the repository is clean, also when the push then fails: the
    commit stays local. *)
Lemma CommitAndPush_clean files m r h r1 r2 :
  openWorktree r = Ok tt -> stageFiles files r = (Ok tt, r1) -> Commit m r1 = (Ok h, r2) ->
  clean (CommitAndPush files m r).2.
Proof.
  intros Ho Hs Hc. unfold CommitAndPush. rewrite Ho, Hs, Hc. pose proof (Commit_takes_all _ _ _ _ Hc) as Hcl.
  destruct (CommitObject h r2); [| done]. destruct (NewPublicKeys r2); [| done].
  pose proof (Push_clean r2 Hcl). by destruct (Push r2) as [[] r3].
Qed.

(** So a clean-up after it is refused, for ever if nothing else is staged. *)
Lemma cleanup_refused files m m' r h r1 r2 :
  openWorktree r = Ok tt -> stageFiles files r = (Ok tt, r1) -> Commit m r1 = (Ok h, r2) ->
  let r' := (CommitAndPush files m r).2 in exists e, CommitAndPush [] m' r' = (Err e, r').
Proof. intros. by eapply CommitAndPush_nothing, CommitAndPush_clean. Qed.

End client.
