(* ===== verification/IntentTypes.v ===== *)
(** * IntentTypes: NetworkIntents, their conditions and the helpers on them

    Follows pkg/controllers/controller_utils.go and the helpers of
    networkintent_controller.go.  The API types are not part of the repository:
    [NetworkIntent] holds the fields the reconciler reads and writes.  Maps that
    may be nil are maps: the source reads nil maps and empty maps alike, and makes
    a map before it writes.  The raw text of an extension is a string.  Times are
    instants. *)

From stdpp Require Import pretty.
From Stdlib Require Import Ascii.
From S2P Require Import Prelude GoStrings GoFormat.
Local Open Scope Z_scope.

(** ** Objects *)

Inductive ConditionStatus := ConditionTrue | ConditionFalse | ConditionUnknown.

#[export] Instance ConditionStatus_eq_dec : EqDecision ConditionStatus.
Proof. solve_decision. Defined.

Record Condition := mkCondition {
  Type_ : string;
  Status_ : ConditionStatus;
  Reason : string;
  Message : string;
  LastTransitionTime : Time
}.

#[export] Instance Condition_eq_dec : EqDecision Condition.
Proof. solve_decision. Defined.

Record NetworkIntentStatus := mkStatus {
  Phase : string;
  LastUpdated : Time;
  ObservedGeneration : Z;
  Conditions : list Condition;
  Extensions : gmap string string
}.

Record NetworkIntent := mkNetworkIntent {
  Namespace : string;
  Name : string;
  ResourceVersion : string;
  Generation : Z;
  Finalizers : list string;
  Annotations : gmap string string;
  DeletionTimestamp : option Time;
  Intent : string;  (* spec.intent *)
  Status : NetworkIntentStatus
}.

#[export] Instance status_eq_dec : EqDecision NetworkIntentStatus.
Proof. solve_decision. Defined.
#[export] Instance intent_eq_dec : EqDecision NetworkIntent.
Proof. solve_decision. Defined.

Definition set_Phase (p : string) (s : NetworkIntentStatus) : NetworkIntentStatus :=
  mkStatus p (LastUpdated s) (ObservedGeneration s) (Conditions s) (Extensions s).
Definition set_LastUpdated (t : Time) (s : NetworkIntentStatus) : NetworkIntentStatus :=
  mkStatus (Phase s) t (ObservedGeneration s) (Conditions s) (Extensions s).
Definition set_ObservedGeneration (g : Z) (s : NetworkIntentStatus) : NetworkIntentStatus :=
  mkStatus (Phase s) (LastUpdated s) g (Conditions s) (Extensions s).
Definition set_Conditions (l : list Condition) (s : NetworkIntentStatus) : NetworkIntentStatus :=
  mkStatus (Phase s) (LastUpdated s) (ObservedGeneration s) l (Extensions s).
Definition set_Extension (k v : string) (s : NetworkIntentStatus) : NetworkIntentStatus :=
  mkStatus (Phase s) (LastUpdated s) (ObservedGeneration s) (Conditions s) (<[k := v]> (Extensions s)).

Definition set_Status (s : NetworkIntentStatus) (o : NetworkIntent) : NetworkIntent :=
  mkNetworkIntent (Namespace o) (Name o) (ResourceVersion o) (Generation o) (Finalizers o)
    (Annotations o) (DeletionTimestamp o) (Intent o) s.
Definition set_ResourceVersion (v : string) (o : NetworkIntent) : NetworkIntent :=
  mkNetworkIntent (Namespace o) (Name o) v (Generation o) (Finalizers o)
    (Annotations o) (DeletionTimestamp o) (Intent o) (Status o).
Definition set_Finalizers (l : list string) (o : NetworkIntent) : NetworkIntent :=
  mkNetworkIntent (Namespace o) (Name o) (ResourceVersion o) (Generation o) l
    (Annotations o) (DeletionTimestamp o) (Intent o) (Status o).
Definition set_Annotations (m : gmap string string) (o : NetworkIntent) : NetworkIntent :=
  mkNetworkIntent (Namespace o) (Name o) (ResourceVersion o) (Generation o) (Finalizers o)
    m (DeletionTimestamp o) (Intent o) (Status o).

Definition on_Status (f : NetworkIntentStatus -> NetworkIntentStatus) (o : NetworkIntent) : NetworkIntent :=
  set_Status (f (Status o)) o.

(** ** Conditions *)

Fixpoint UpdateCondition (conditions : list Condition) (newCondition : Condition) : list Condition :=
  match conditions with
  | [] => [newCondition]
  | c :: l => if String.eqb (Type_ c) (Type_ newCondition) then newCondition :: l
              else c :: UpdateCondition l newCondition
  end.

(** The first condition of a type. *)
Fixpoint findCondition (conditions : list Condition) (conditionType : string) : option Condition :=
  match conditions with
  | [] => None
  | c :: l => if String.eqb (Type_ c) conditionType then Some c else findCondition l conditionType
  end.

Definition is_True (st : ConditionStatus) : bool := match st with ConditionTrue => true | _ => false end.

Definition isConditionTrue (conditions : list Condition) (conditionType : string) : bool :=
  match findCondition conditions conditionType with
  | Some c => is_True (Status_ c)
  | None => false
  end.

Definition updateCondition (c : Condition) (o : NetworkIntent) : NetworkIntent :=
  on_Status (λ s, set_Conditions (UpdateCondition (Conditions s) c) s) o.

(** A condition of an intent. *)
Definition conditionOf (o : NetworkIntent) (ty : string) : option Condition :=
  findCondition (Conditions (Status o)) ty.

Definition holds (o : NetworkIntent) (ty : string) : bool := isConditionTrue (Conditions (Status o)) ty.

(** ** Finalizers *)

Definition containsFinalizer (finalizers : list string) (finalizer : string) : bool :=
  existsb (λ f, String.eqb f finalizer) finalizers.

Definition removeFinalizer (finalizers : list string) (finalizer : string) : list string :=
  List.filter (λ f, negb (String.eqb f finalizer)) finalizers.

(** ** Retry counts in annotations *)

Definition retryCountKey (operation : string) : string := "nephoran.com/retry-count-" +:+ operation.

Definition getNetworkIntentRetryCount (o : NetworkIntent) (operation : string) : Z :=
  match Annotations o !! retryCountKey operation with
  | Some countStr => default 0 (Atoi countStr)
  | None => 0
  end.

Definition setNetworkIntentRetryCount (operation : string) (count : Z) (o : NetworkIntent) : NetworkIntent :=
  set_Annotations (<[retryCountKey operation := pretty count]> (Annotations o)) o.

Definition clearNetworkIntentRetryCount (operation : string) (o : NetworkIntent) : NetworkIntent :=
  set_Annotations (delete (retryCountKey operation) (Annotations o)) o.

(** The helpers for any object, under a key of another form. *)
Definition objectRetryKey (operation : string) : string := "nephoran.com/" +:+ operation +:+ "-retry-count".

Definition getRetryCount (o : NetworkIntent) (operation : string) : Z :=
  match Annotations o !! objectRetryKey operation with
  | Some countStr => default 0 (Atoi countStr)
  | None => 0
  end.

Definition setRetryCount (operation : string) (count : Z) (o : NetworkIntent) : NetworkIntent :=
  set_Annotations (<[objectRetryKey operation := pretty count]> (Annotations o)) o.

Definition clearRetryCount (operation : string) (o : NetworkIntent) : NetworkIntent :=
  set_Annotations (delete (objectRetryKey operation) (Annotations o)) o.

(** ** Delays between attempts

    [time.Duration(math.Pow(2, n))]: below 1 it truncates to 0, and what does
    not fit is the least integer, as on amd64. *)
Definition pow2_Duration (n : Z) : Duration :=
  if n <? 0 then 0 else if n <=? 62 then 2 ^ n else - 2 ^ 63.

Definition backoffBounds (operation : string) : Duration * Duration :=
  if String.eqb operation "configmap-operations" then (2 * Second, 2 * Minute)
  else if String.eqb operation "e2-provisioning" then (5 * Second, 5 * Minute)
  else if String.eqb operation "cleanup" then (10 * Second, 10 * Minute)
  else if String.eqb operation "llm-processing" then (2 * Second, 3 * Minute)
  else if String.eqb operation "git-operations" then (1 * Second, 2 * Minute)
  else if String.eqb operation "resource-planning" then (3 * Second, 4 * Minute)
  else (1 * Second, 1 * Minute).

(** The delay before jitter: [baseDelay] doubled, capped. *)
Definition cappedDelay (retryCount : Z) (operation : string) : Duration :=
  let '(baseDelay, maxDelay) := backoffBounds operation in
  let delay := wrap64 (baseDelay * pow2_Duration retryCount) in
  if maxDelay <? delay then maxDelay else delay.

(** The end of [calculateExponentialBackoffForOperation], from the delay with
    jitter, which [rand.Float64] moves by 10% at most. *)
Definition finalDelay (retryCount : Z) (operation : string) (jittered : Duration) : Duration :=
  let '(_, maxDelay) := backoffBounds operation in
  let d := if jittered <? 0 then Z.quot (cappedDelay retryCount operation) 2 else jittered in
  if maxDelay <? d then maxDelay else d.

(** A tenth more or less, up to rounding. *)
Definition jitter_of (delay jittered : Duration) : Prop :=
  10 * Z.abs (jittered - delay) <= Z.abs delay + 10.

(** ** Configuration *)

(** [MaxRetries], [RetryDelay] and [GitDeployPath] of [Config], and the constants
    they are checked against. *)
Record Config := mkConfig {
  MaxRetries : Z;
  RetryDelay : Duration;
  Timeout : Duration;
  GitDeployPath : string
}.

Record Constants := mkConstants {
  NetworkIntentFinalizer : string;
  DefaultMaxRetries : Z;
  DefaultRetryDelay : Duration;
  DefaultTimeout : Duration;
  DefaultGitDeployPath : string;
  MaxAllowedRetries : Z;
  MaxAllowedRetryDelay : Duration
}.

Definition validateAndSetConfigDefaults (config : option Config) (k : Constants) : result string Config :=
  let c := default (mkConfig 0 0 0 "") config in
  let c := mkConfig
    (if MaxRetries c <=? 0 then DefaultMaxRetries k else MaxRetries c)
    (if RetryDelay c <=? 0 then DefaultRetryDelay k else RetryDelay c)
    (if Timeout c <=? 0 then DefaultTimeout k else Timeout c)
    (if String.eqb (GitDeployPath c) "" then DefaultGitDeployPath k else GitDeployPath c) in
  if MaxAllowedRetries k <? MaxRetries c then Err "MaxRetries exceeds maximum allowed"
  else if MaxAllowedRetryDelay k <? RetryDelay c then Err "RetryDelay exceeds maximum allowed"
  else Ok c.

(** ** Texts of intents *)

Definition anyIn (text : string) (words : list string) : bool := existsb (Contains text) words.

Definition extractIntentType (intent : string) : string :=
  let intentLower := ToLower intent in
  if anyIn intentLower ["embb"; "broadband"] then "embb"
  else if anyIn intentLower ["urllc"; "low latency"] then "urllc"
  else if anyIn intentLower ["mmtc"; "machine type"; "iot"] then "mmtc"
  else if anyIn intentLower ["amf"; "access"] then "5gc-control"
  else if anyIn intentLower ["upf"; "user plane"] then "5gc-user"
  else if anyIn intentLower ["gnb"; "base station"] then "ran"
  else "generic".

(** [parseLabels]; later pairs replace earlier ones. *)
Definition parseLabels (labelSelector : string) : gmap string string :=
  if String.eqb labelSelector "" then ∅
  else foldl (λ labels pair,
         match SplitN2 "="%char pair with
         | [k; v] => <[TrimSpace k := TrimSpace v]> labels
         | _ => labels
         end) ∅ (Split ","%char labelSelector).

(** The line ends and indentation of texts of several lines. *)
Definition nl : string := String (ascii_of_nat 10) EmptyString.
Definition tabs (n : nat) : string := String.concat "" (replicate n (String (ascii_of_nat 9) EmptyString)).
Definition quoted (s : string) : string := quotation_mark +:+ s +:+ quotation_mark.

(** The lines of a text, an empty line after each. *)
Definition spaced_lines (l : list string) : string := String.concat (nl +:+ nl) l.

Definition fallbackJSON (nf cpu memory storage qos : string) : string :=
  spaced_lines [
    "{";
    tabs 3 +:+ quoted "network_functions" +:+ ": [" +:+ quoted nf +:+ "],";
    tabs 3 +:+ quoted "deployment_pattern" +:+ ": " +:+ quoted "basic" +:+ ",";
    tabs 3 +:+ quoted "resource_requirements" +:+ ": {";
    tabs 4 +:+ quoted "cpu" +:+ ": " +:+ quoted cpu +:+ ",";
    tabs 4 +:+ quoted "memory" +:+ ": " +:+ quoted memory +:+ ",";
    tabs 4 +:+ quoted "storage" +:+ ": " +:+ quoted storage;
    tabs 3 +:+ "},";
    tabs 3 +:+ quoted "qos_profile" +:+ ": " +:+ quoted qos +:+ ",";
    tabs 3 +:+ quoted "security_policies" +:+ ": [" +:+ quoted "default-security" +:+ "]";
    tabs 2 +:+ "}"].

Definition generateFallbackResponse (intent : string) : string :=
  let intentLower := ToLower intent in
  let asked := anyIn intentLower ["deploy"; "create"] in
  if Contains intentLower "amf" && asked then fallbackJSON "AMF" "2" "4Gi" "10Gi" "standard"
  else if Contains intentLower "smf" && asked then fallbackJSON "SMF" "2" "4Gi" "10Gi" "standard"
  else if Contains intentLower "upf" && asked then fallbackJSON "UPF" "4" "8Gi" "20Gi" "high-throughput"
  else "".

(** ** Conditions: what an update does *)

Lemma findCondition_update l c ty :
  findCondition (UpdateCondition l c) ty = if String.eqb (Type_ c) ty then Some c else findCondition l ty.
Proof.
  induction l as [| d l IH]; simpl; [done |].
  destruct (String.eqb_spec (Type_ d) (Type_ c)) as [Hd | Hd]; simpl.
  - rewrite Hd. by destruct (String.eqb _ _).
  - rewrite IH. destruct (String.eqb_spec (Type_ d) ty), (String.eqb_spec (Type_ c) ty); congruence.
Qed.

Lemma isConditionTrue_update l c ty :
  isConditionTrue (UpdateCondition l c) ty =
  if String.eqb (Type_ c) ty then is_True (Status_ c) else isConditionTrue l ty.
Proof. unfold isConditionTrue. rewrite findCondition_update. by destruct (String.eqb _ _). Qed.

Lemma conditionOf_update c o ty :
  conditionOf (updateCondition c o) ty = if String.eqb (Type_ c) ty then Some c else conditionOf o ty.
Proof. apply findCondition_update. Qed.

Lemma holds_update c o ty :
  holds (updateCondition c o) ty =
  if String.eqb (Type_ c) ty then is_True (Status_ c) else holds o ty.
Proof. apply isConditionTrue_update. Qed.

Lemma types_update l c ty :
  ty ∈ Type_ <$> UpdateCondition l c <-> ty = Type_ c \/ ty ∈ Type_ <$> l.
Proof.
  induction l as [| d l IH]; simpl; [set_solver |].
  destruct (String.eqb_spec (Type_ d) (Type_ c)) as [Hd | Hd]; simpl; [rewrite Hd; set_solver |].
  rewrite elem_of_cons, IH. set_solver.
Qed.

(** Conditions stay a map from their types. *)
Lemma types_NoDup l c : NoDup (Type_ <$> l) -> NoDup (Type_ <$> UpdateCondition l c).
Proof.
  induction l as [| d l IH]; simpl; [intros _; apply NoDup_singleton |]. rewrite NoDup_cons. intros [Hd Hl].
  destruct (String.eqb_spec (Type_ d) (Type_ c)) as [E | E]; simpl; rewrite NoDup_cons.
  - by rewrite <- E.
  - rewrite types_update. naive_solver.
Qed.

(** ** Finalizers *)

Lemma containsFinalizer_spec l f : containsFinalizer l f = true <-> f ∈ l.
Proof.
  unfold containsFinalizer. rewrite existsb_exists. setoid_rewrite String.eqb_eq. setoid_rewrite <- list_elem_of_In.
  naive_solver.
Qed.

Lemma removeFinalizer_spec l f g : g ∈ removeFinalizer l f <-> g ∈ l /\ g <> f.
Proof.
  unfold removeFinalizer. rewrite !list_elem_of_In, filter_In, negb_true_iff, String.eqb_neq. done.
Qed.

(** ** Delays *)

Lemma backoffBounds_range op : let '(b, m) := backoffBounds op in Second <= b <= 10 * Second /\ b < m <= 10 * Minute.
Proof. unfold backoffBounds. repeat case_match; simplify_eq; unfold Minute, Second, Millisecond; lia. Qed.

Lemma cappedDelay_range n op : 0 <= n <= 29 -> Second <= cappedDelay n op <= 10 * Minute.
Proof.
  intros Hn. pose proof (backoffBounds_range op) as Hb. unfold cappedDelay, pow2_Duration.
  destruct (backoffBounds op) as [b m]. destruct (n <? 0) eqn:E; [lia |]. destruct (n <=? 62) eqn:E'; [| lia].
  assert (1 <= 2 ^ n <= 2 ^ 29) by (split; [change 1 with (2 ^ 0) |]; apply Z.pow_le_mono_r; lia).
  unfold Minute, Second, Millisecond in *. rewrite wrap64_small by nia. destruct (m <? b * 2 ^ n) eqn:?; nia.
Qed.

(** A delay is positive, so that the request is taken up again. *)
Lemma finalDelay_positive n op j : 0 <= n <= 29 -> jitter_of (cappedDelay n op) j -> 0 < finalDelay n op j.
Proof.
  intros Hn Hj. pose proof (cappedDelay_range n op Hn) as Hd. pose proof (backoffBounds_range op) as Hb.
  unfold finalDelay, jitter_of, Minute, Second, Millisecond in *. destruct (backoffBounds op) as [b m].
  destruct (j <? 0) eqn:?; [lia |]. destruct (m <? j) eqn:?; lia.
Qed.
