(* ===== verification/IntentPlanning.v ===== *)
(** * IntentPlanning: prompts, resource plans and manifests

    The pure part of pkg/controllers/llm_processor.go (what an intent mentions
    and the prompt made of it) and resource_planner.go (from the answer of the
    model to a plan, and from a plan to manifests), over the parts of
    pkg/telecom/knowledge_base.go they read.  The contents of the knowledge base
    are a parameter.  JSON values are data, numbers as [float64]; the texts that
    encoding/json and sigs.k8s.io/yaml make of values, and the values made of
    texts, are the class [Encodings].  Of the Kubernetes objects in manifests the
    fields that are set are kept. *)

From stdpp Require Import pretty.
From Stdlib Require Import Ascii.
From S2P Require Import Prelude GoFloat GoStrings GoFormat IntentTypes.
Local Open Scope Z_scope.
#[local] Set Warnings "-register-all".

(** ** JSON values *)

Inductive json :=
| JNull
| JBool (b : bool)
| JNumber (x : float64)
| JString (s : string)
| JArray (l : list json)
| JObject (m : gmap string json).

(** Type assertions on what a key is mapped to. *)
Definition as_string (v : option json) : option string :=
  match v with Some (JString s) => Some s | _ => None end.
Definition as_number (v : option json) : option float64 :=
  match v with Some (JNumber x) => Some x | _ => None end.
Definition as_array (v : option json) : option (list json) :=
  match v with Some (JArray l) => Some l | _ => None end.
Definition as_object (v : option json) : option (gmap string json) :=
  match v with Some (JObject m) => Some m | _ => None end.

(** ** The knowledge base (pkg/telecom/knowledge_base.go) *)

Module Telecom.

Record EndpointSpec := mkEndpointSpec { e_Name : string; Port : Z; e_Protocol : string; Path : string }.

Record SecurityModel := mkSecurityModel { Authentication : string; Encryption : list string }.

Record QosRequirements := mkQosRequirements {
  Bandwidth : string; Latency : float64; Jitter : float64; PacketLoss : float64 }.

Record InterfaceSpec := mkInterfaceSpec {
  i_Name : string; i_Type : string; Protocol : list string; Endpoints : list EndpointSpec;
  SecurityModel_ : SecurityModel; QosRequirements_ : QosRequirements }.

Record ResourceRequirements := mkResourceRequirements {
  MaxCPU : string; MaxMemory : string; Storage : string; NetworkBW : string; Accelerator : string }.

Record DeploymentConfig := mkDeploymentConfig { Replicas : Z; ResourceProfile : string }.

Record HealthCheck := mkHealthCheck {
  hc_Type : string; hc_Path : string; hc_Port : Z; Interval : Z; Timeout : Z; Retries : Z }.

Record MetricDefinition := mkMetricDefinition { m_Name : string; Alerts : list string }.

Record NetworkFunctionSpec := mkNetworkFunctionSpec {
  Name : string; Type_ : string; Description : string; Version : string;
  Interfaces : list string; Dependencies : list string;
  Resources : ResourceRequirements;
  MaxThroughputRPS : Z; AvgLatencyMs : float64;
  DeploymentPatterns : gmap string DeploymentConfig;
  Configuration : gmap string json;  (* the default of each parameter *)
  HealthChecks : list HealthCheck;
  MonitoringMetrics : list MetricDefinition }.

Record SliceTypeSpec := mkSliceTypeSpec {
  SST : Z; s_Description : string; UseCase : string; QosProfile : string;
  UserPlane : float64; ControlPlane : float64;  (* Requirements.Latency *)
  Min : string; Max : string; Typical : string;  (* Requirements.Throughput *)
  Availability : float64; s_PacketLoss : float64 (* Requirements.Reliability *) }.

Record DeploymentPattern := mkDeploymentPattern {
  dp_Name : string; dp_Description : string; dp_UseCase : list string }.

Record TelecomKnowledgeBase := mkTelecomKnowledgeBase {
  NetworkFunctions : gmap string NetworkFunctionSpec;
  InterfacesOf : gmap string InterfaceSpec;
  SliceTypes : gmap string SliceTypeSpec;
  DeploymentTypes : gmap string DeploymentPattern }.

Definition GetNetworkFunction (kb : TelecomKnowledgeBase) (name : string) := NetworkFunctions kb !! ToLower name.
Definition GetInterface (kb : TelecomKnowledgeBase) (name : string) := InterfacesOf kb !! ToLower name.
Definition GetSliceType (kb : TelecomKnowledgeBase) (name : string) := SliceTypes kb !! ToLower name.
Definition GetDeploymentPattern (kb : TelecomKnowledgeBase) (name : string) := DeploymentTypes kb !! ToLower name.

End Telecom.

(** ** What an intent mentions (llm_processor.go) *)

Inductive contextValue :=
| CtxStrings (l : list string)
| CtxString (s : string)
| CtxInt (z : Z)
| CtxBool (b : bool).

Abbreviation TelecomContext := (gmap string contextValue).

Definition detectedFunctions (intentLower : string) : list string :=
  List.filter (λ t, Contains intentLower t) ["amf"; "smf"; "upf"].

(** [(Description, UseCase, SST)] *)
Definition sliceTypes : list (string * string * Z) :=
  [("eMBB", "enhanced mobile broadband", 1); ("URLLC", "ultra-reliable low latency", 2)].

Definition detectedSlice (intentLower : string) : option (string * Z) :=
  match List.find (λ '(d, u, _), Contains intentLower (ToLower d) || Contains intentLower (ToLower u)) sliceTypes with
  | Some (d, _, sst) => Some (d, sst)
  | None => None
  end.

(** [m[k] = v] when there is a [v]. *)
Definition put {A} (k : string) (v : option A) (m : gmap string A) : gmap string A :=
  match v with Some v => <[k := v]> m | None => m end.

Definition performanceRequirement (t : string) : option contextValue :=
  if anyIn t ["high performance"; "high throughput"] then Some (CtxString "high")
  else if anyIn t ["low latency"; "ultra"] then Some (CtxString "ultra_low_latency")
  else if anyIn t ["massive"; "iot"] then Some (CtxString "massive_iot")
  else None.

Definition environmentOf (t : string) : option contextValue :=
  if anyIn t ["production"; "prod"] then Some (CtxString "production")
  else if anyIn t ["development"; "dev"] then Some (CtxString "development")
  else if anyIn t ["staging"; "stage"] then Some (CtxString "staging")
  else None.

Definition flag (b : bool) : option contextValue := if b then Some (CtxBool true) else None.

Definition extractTelecomContext (intent : string) : TelecomContext :=
  let t := ToLower intent in
  let slice := detectedSlice t in
  put "security_required" (flag (anyIn t ["secure"; "security"]))
  (put "environment" (environmentOf t)
  (put "auto_scaling" (flag (anyIn t ["scale"; "auto"]))
  (put "performance_requirement" (performanceRequirement t)
  (put "detected_deployment_pattern"
     (if anyIn t ["high-availability"; "high availability deployment"] then Some (CtxString "high-availability") else None)
  (put "detected_sst" (option_map (λ s, CtxInt s.2) slice)
  (put "detected_slice_type" (option_map (λ s, CtxString s.1) slice)
  (<["detected_network_functions" := CtxStrings (detectedFunctions t)]> ∅))))))).

Definition ctx_strings (v : option contextValue) : list string :=
  match v with Some (CtxStrings l) => l | _ => [] end.
Definition ctx_string (v : option contextValue) : option string :=
  match v with Some (CtxString s) => Some s | _ => None end.

(** ** The prompt (llm_processor.go) *)

Definition lines (l : list string) : string := String.concat "" (map (λ s, s +:+ nl) l).

Section prompt.
Import Telecom.

Definition functionText (nf : NetworkFunctionSpec) : string :=
  lines [
    "- **" +:+ Name nf +:+ "** (" +:+ Telecom.Type_ nf +:+ "): " +:+ Description nf;
    "  - Interfaces: " +:+ Join ", " (Interfaces nf);
    "  - Dependencies: " +:+ Join ", " (Dependencies nf);
    "  - Performance: Max " +:+ pretty (MaxThroughputRPS nf) +:+ " RPS, Avg latency " +:+ fmt_f 1 (AvgLatencyMs nf) +:+ "ms"].

Definition sliceText (s : SliceTypeSpec) : string :=
  lines [
    "### Network Slice Type: " +:+ s_Description s +:+ " (SST=" +:+ pretty (SST s) +:+ ")";
    "- Use Case: " +:+ UseCase s;
    "- Latency Requirement: User Plane " +:+ fmt_f 1 (UserPlane s) +:+ "ms, Control Plane " +:+ fmt_f 1 (ControlPlane s) +:+ "ms";
    "- Throughput: " +:+ Min s +:+ "-" +:+ Max s +:+ " Mbps (typical " +:+ Typical s +:+ ")";
    "- Reliability: " +:+ fmt_f 3 (Availability s) +:+ "% availability, " +:+ fmt_f 5 (s_PacketLoss s) +:+ "% packet loss";
    ""].

Definition patternText (d : DeploymentPattern) : string :=
  lines [
    "### Deployment Pattern: " +:+ dp_Name d;
    "- Description: " +:+ dp_Description d;
    "- Use Case: " +:+ fmt_v (dp_UseCase d);
    "- Required Network Functions:";
    "  - Network functions from deployment pattern";
    ""].

Definition opt_text {A} (f : A -> string) (o : option A) : string := from_option f "" o.

(** The context that goes with an intent, and the prompt; the error case of the
    source is a reconciler without dependencies, which cannot be made. *)
Definition buildTelecomEnhancedPrompt (kb : option TelecomKnowledgeBase) (intent : string) : TelecomContext * string :=
  let telecomContext : TelecomContext := match kb with None => ∅ | Some _ => extractTelecomContext intent end in
  let nfTypes := ctx_strings (telecomContext !! "detected_network_functions") in
  let of_kb {A} (get : TelecomKnowledgeBase -> string -> option A) (key : string) : option A :=
    kb ← kb; k ← ctx_string (telecomContext !! key); if String.eqb k "" then None else get kb k in
  (telecomContext,
   lines [
     "You are a telecommunications network orchestration expert with deep knowledge of 5G Core (5GC), "
       +:+ "O-RAN architecture, 3GPP specifications, and network function deployment patterns.";
     "";
     "## TELECOMMUNICATIONS CONTEXT";
     "Based on 3GPP Release 17 and O-RAN Alliance specifications:";
     ""]
   +:+ (match nfTypes with
        | [] => ""
        | _ => lines ["### Relevant Network Functions:"]
               +:+ String.concat "" (map (λ t, opt_text functionText (kb ← kb; GetNetworkFunction kb t)) nfTypes)
               +:+ nl
        end)
   +:+ opt_text sliceText (of_kb GetSliceType "detected_slice_type")
   +:+ opt_text patternText (of_kb GetDeploymentPattern "detected_deployment_pattern")
   +:+ lines [
     "## USER INTENT";
     "Process this telecommunications network intent: " +:+ quoted intent;
     "";
     "## INSTRUCTIONS";
     "Generate a JSON response that includes:";
     "1. **network_functions**: Array of required network functions with configurations";
     "2. **deployment_pattern**: Recommended deployment pattern";
     "3. **resource_requirements**: CPU, memory, storage requirements";
     "4. **qos_profile**: Quality of Service profile";
     "5. **security_policies**: Required security configurations";
     "6. **monitoring**: Monitoring and alerting specifications";
     "";
     "Ensure all recommendations comply with 3GPP standards and O-RAN specifications. "
       +:+ "Use appropriate resource sizing based on the deployment pattern and expected load."]).

End prompt.

(** ** Plans (networkintent_controller.go and resource_planner.go) *)

Record EndpointSpec := mkEndpointSpec { ep_Name : string; ep_Port : Z; ep_Protocol : string; ep_Path : string }.
Record SecuritySpec := mkSecuritySpec { Authentication : string; Encryption : string }.
Record QoSSpec := mkQoSSpec { Bandwidth : string; Latency : string; Jitter : string; PacketLoss : float64 }.
Record InterfaceConfiguration := mkInterfaceConfiguration {
  if_Name : string; if_Type : string; if_Protocol : string; Endpoints : list EndpointSpec;
  Security : SecuritySpec; QoS : QoSSpec }.
Record HealthCheckSpec := mkHealthCheckSpec {
  hc_Type : string; hc_Path : string; hc_Port : Z; Interval : string; hc_Timeout : string; Retries : Z }.
Record MonitoringSpec := mkMonitoringSpec {
  Enabled : bool; Metrics : list string; Alerts : list string; Dashboards : list string }.
Record ResourceRequirements := mkResourceRequirements {
  CPU : string; Memory : string; Storage : string; NetworkBW : string; GPU : string; Accelerator : string }.
Record SliceConfiguration := mkSliceConfiguration {
  SliceType : string; SST : Z; SD : string; QoSProfile : string; Isolation : string; Parameters : string }.
Record SecurityPolicy := mkSecurityPolicy { sp_Name : string; sp_Type : string; sp_Config : string }.

Record PlannedNetworkFunction := mkPlannedNetworkFunction {
  nf_Name : string; nf_Type : string; nf_Version : string; Replicas : Z;
  Resources : ResourceRequirements; Configuration : string; Dependencies : list string;
  nf_Interfaces : list string; HealthChecks : list HealthCheckSpec; Monitoring : MonitoringSpec }.

Record ResourcePlan := mkResourcePlan {
  NetworkFunctions : list PlannedNetworkFunction;
  ResourceRequirements_ : ResourceRequirements;
  DeploymentPattern : string;
  plan_QoSProfile : string;
  SliceConfiguration_ : option SliceConfiguration;
  Interfaces : list InterfaceConfiguration;
  SecurityPolicies : list SecurityPolicy;
  EstimatedCost : float64 }.

(** ** Manifests: Kubernetes objects *)

Record ObjectMeta := mkObjectMeta { om_Name : string; om_Namespace : string; Labels : gmap string string }.

Record ContainerPort := mkContainerPort { cp_Name : string; ContainerPort_ : Z; cp_Protocol : string }.
Record ServicePort := mkServicePort { svc_Name : string; svc_Port : Z; TargetPort : string; svc_Protocol : string }.
Inductive EnvVar := EnvValue (name value : string) | EnvField (name fieldPath : string).
Record Probe := mkProbe {
  probe_Path : string; probe_Port : string;
  InitialDelaySeconds : Z; PeriodSeconds : Z; TimeoutSeconds : Z; FailureThreshold : Z }.

(** The resource lists of containers stay empty: [parseQuantity] returns none. *)
Record Container := mkContainer {
  c_Name : string; Image : string; Ports : list ContainerPort; Env : list EnvVar;
  LivenessProbe : Probe; ReadinessProbe : Probe; MountPath : string; ConfigMapName : string }.

Inductive Manifest :=
| Deployment (apiVersion kind : string) (meta : ObjectMeta) (replicas : Z) (selector : gmap string string)
    (podLabels : gmap string string) (container : Container)
| Service (apiVersion kind : string) (meta : ObjectMeta) (selector : gmap string string)
    (ports : list ServicePort) (type : string)
| ConfigMap (apiVersion kind : string) (meta : ObjectMeta) (data : gmap string string)
| NetworkPolicy (apiVersion kind : string) (meta : ObjectMeta) (podSelector : gmap string string)
    (policyTypes : list string) (ingressFromNamespaces : list (gmap string string)) (egressRules : nat).

(** ** Texts of values: encoding/json and sigs.k8s.io/yaml *)

Class Encodings := {
  json_Unmarshal : string -> result string json;
  json_Marshal : json -> result string string;
  json_MarshalPlan : ResourcePlan -> result string string;
  yaml_Marshal : Manifest -> result string string;
  yaml_MarshalSlice : SliceConfiguration -> string
}.

Section planning.
Context `{!Encodings}.

(** ** From the model's answer to a plan *)

Definition lookupDeployment (nfSpec : Telecom.NetworkFunctionSpec) (deploymentType : string) : Telecom.DeploymentConfig :=
  match Telecom.DeploymentPatterns nfSpec !! deploymentType with
  | Some c => c
  | None => default (Telecom.mkDeploymentConfig 1 "medium") (Telecom.DeploymentPatterns nfSpec !! "production")
  end.

Definition plannedReplicas (nfSpec : Telecom.NetworkFunctionSpec) (llmParams : gmap string json) : Z :=
  let deployConfig := lookupDeployment nfSpec (default "production" (as_string (llmParams !! "deployment_type"))) in
  match (m ← as_object (llmParams !! "scaling_requirements"); as_number (m !! "min_replicas")) with
  | Some minReplicas => f64_to_int minReplicas
  | None => Telecom.Replicas deployConfig
  end.

Definition plannedConfiguration (nfSpec : Telecom.NetworkFunctionSpec) (llmParams : gmap string json) : string :=
  let configuration := default ∅ (as_object (llmParams !! "configuration")) ∪ Telecom.Configuration nfSpec in
  match json_Marshal (JObject configuration) with Ok configJSON => configJSON | Err _ => "{}" end.

Definition planNetworkFunction (nfSpec : Telecom.NetworkFunctionSpec) (llmParams : gmap string json)
    : PlannedNetworkFunction :=
  let r := Telecom.Resources nfSpec in
  mkPlannedNetworkFunction (ToLower (Telecom.Name nfSpec)) (Telecom.Type_ nfSpec) (Telecom.Version nfSpec)
    (plannedReplicas nfSpec llmParams)
    (mkResourceRequirements (Telecom.MaxCPU r) (Telecom.MaxMemory r) (Telecom.Storage r)
       (Telecom.NetworkBW r) "" (Telecom.Accelerator r))
    (plannedConfiguration nfSpec llmParams)
    (Telecom.Dependencies nfSpec) (Telecom.Interfaces nfSpec)
    (map (λ hc, mkHealthCheckSpec (Telecom.hc_Type hc) (Telecom.hc_Path hc) (Telecom.hc_Port hc)
                  (pretty (Telecom.Interval hc) +:+ "s") (pretty (Telecom.Timeout hc) +:+ "s") (Telecom.Retries hc))
         (Telecom.HealthChecks nfSpec))
    (mkMonitoringSpec true (map Telecom.m_Name (Telecom.MonitoringMetrics nfSpec))
       (concat (map Telecom.Alerts (Telecom.MonitoringMetrics nfSpec))) []).

(** The named functions the knowledge base knows, in the order of the answer. *)
Definition plannedFunctions (kb : Telecom.TelecomKnowledgeBase) (llmParams : gmap string json)
    : list PlannedNetworkFunction :=
  omap (λ v, nfName ← as_string (Some v);
             nfSpec ← Telecom.GetNetworkFunction kb nfName;
             Some (planNetworkFunction nfSpec llmParams))
       (default [] (as_array (llmParams !! "network_functions"))).

Definition sliceParameters (s : Telecom.SliceTypeSpec) : string :=
  match json_Marshal (JObject (<["latency_requirement" := JNumber (Telecom.UserPlane s)]>
          (<["throughput_min" := JString (Telecom.Min s)]>
          (<["reliability" := JNumber (Telecom.Availability s)]> ∅)))) with
  | Ok paramsJSON => paramsJSON
  | Err _ => "{}"
  end.

Definition plannedSlice (kb : Telecom.TelecomKnowledgeBase) (llmParams : gmap string json) : option SliceConfiguration :=
  sliceConfig ← as_object (llmParams !! "slice_configuration");
  let sliceType := default "" (as_string (sliceConfig !! "slice_type")) in
  sliceSpec ← Telecom.GetSliceType kb sliceType;
  Some (mkSliceConfiguration sliceType (Telecom.SST sliceSpec) "" (Telecom.QosProfile sliceSpec) "standard"
          (sliceParameters sliceSpec)).

Definition interfaceConfiguration (i : Telecom.InterfaceSpec) : InterfaceConfiguration :=
  let q := Telecom.QosRequirements_ i in
  mkInterfaceConfiguration (Telecom.i_Name i) (Telecom.i_Type i) (Join "," (Telecom.Protocol i))
    (map (λ e, mkEndpointSpec (Telecom.e_Name e) (Telecom.Port e) (Telecom.e_Protocol e) (Telecom.Path e))
         (Telecom.Endpoints i))
    (mkSecuritySpec (Telecom.Authentication (Telecom.SecurityModel_ i))
       (Join "," (Telecom.Encryption (Telecom.SecurityModel_ i))))
    (mkQoSSpec (Telecom.Bandwidth q) (fmt_f 2 (Telecom.Latency q) +:+ "ms") (fmt_f 2 (Telecom.Jitter q) +:+ "ms")
       (Telecom.PacketLoss q)).

(** One interface for each name that is known, in the order of first use:
    [interfaceMap] holds the names that were taken. *)
Definition addInterface (kb : Telecom.TelecomKnowledgeBase) (acc : list InterfaceConfiguration * gset string)
    (ifaceName : string) : list InterfaceConfiguration * gset string :=
  let '(l, interfaceMap) := acc in
  if bool_decide (ifaceName ∈ interfaceMap) then acc
  else match Telecom.GetInterface kb ifaceName with
       | Some i => (l ++ [interfaceConfiguration i], {[ifaceName]} ∪ interfaceMap)
       | None => acc
       end.

Definition plannedInterfaces (kb : Telecom.TelecomKnowledgeBase) (nfs : list PlannedNetworkFunction)
    : list InterfaceConfiguration :=
  (foldl (addInterface kb) ([], ∅) (concat (map nf_Interfaces nfs))).1.

(** [total += value * float64(replicas)] over the functions. *)
Definition total (field : ResourceRequirements -> string) (nfs : list PlannedNetworkFunction) : float64 :=
  foldl (λ t nf, f64_add t (f64_mul (Sscanf_f (field (Resources nf))) (f64_of_int (Replicas nf)))) f64_zero nfs.

Definition calculateEstimatedCost (cpu memory storage : float64) : float64 :=
  f64_add (f64_add (f64_mul cpu (f64_of_int 50)) (f64_mul memory (f64_of_int 10))) (f64_mul storage (f64_of_int 2)).

Definition CalculateEstimatedCost (plan : option ResourcePlan) : result string float64 :=
  match plan with
  | None => Err "resource plan cannot be nil"
  | Some p => let nfs := NetworkFunctions p in Ok (calculateEstimatedCost (total CPU nfs) (total Memory nfs) (total Storage nfs))
  end.

(** The plan that [PlanResources] makes; without a knowledge base it is empty. *)
Definition planResources (kb : option Telecom.TelecomKnowledgeBase) (llmParams : gmap string json)
    (telecomContext : TelecomContext) : ResourcePlan :=
  let nfs := from_option (λ kb, plannedFunctions kb llmParams) [] kb in
  let totalCPU := total CPU nfs in
  let totalMemory := total Memory nfs in
  let totalStorage := total Storage nfs in
  mkResourcePlan nfs
    (mkResourceRequirements (fmt_f 1 totalCPU) (fmt_f 1 totalMemory +:+ "Gi") (fmt_f 1 totalStorage +:+ "Gi") "" "" "")
    (default "production" (ctx_string (telecomContext !! "deployment_pattern")))
    ""
    (kb ← kb; plannedSlice kb llmParams)
    (from_option (λ kb, plannedInterfaces kb nfs) [] kb)
    []
    (calculateEstimatedCost totalCPU totalMemory totalStorage).

(** [PlanNetworkFunction] of the interface *)
Definition PlanNetworkFunction (kb : option Telecom.TelecomKnowledgeBase) (nfName : string) (llmParams : gmap string json)
    : result string PlannedNetworkFunction :=
  match kb with
  | None => Err "telecom knowledge base not available"
  | Some kb => match Telecom.GetNetworkFunction kb nfName with
               | Some nfSpec => Ok (planNetworkFunction nfSpec llmParams)
               | None => Err ("network function spec not found: " +:+ nfName)
               end
  end.

(** ** From a plan to manifests *)

Definition functionLabels (o : NetworkIntent) (nf : PlannedNetworkFunction) : gmap string string :=
  list_to_map [("app", nf_Name nf); ("networkintent", Name o); ("networkfunction", nf_Type nf);
               ("nephoran.com/managed", "true"); ("nephoran.com/network-intent", Name o);
               ("nephoran.com/network-function", nf_Type nf)].

Definition selectorLabels (nf : PlannedNetworkFunction) : gmap string string :=
  list_to_map [("app", nf_Name nf); ("networkfunction", nf_Type nf)].

Definition generateContainerPorts (nf : PlannedNetworkFunction) : list ContainerPort :=
  let ty := ToLower (nf_Type nf) in
  (if String.eqb ty "amf" then [mkContainerPort "n2" 8080 "TCP"; mkContainerPort "n11" 8081 "TCP"]
   else if String.eqb ty "smf" then [mkContainerPort "n4" 8080 "TCP"; mkContainerPort "n7" 8081 "TCP"]
   else if String.eqb ty "upf" then [mkContainerPort "n3" 8080 "TCP"; mkContainerPort "n6" 8081 "TCP"]
   else [mkContainerPort "api" 8080 "TCP"])
  ++ [mkContainerPort "mgmt" 9090 "TCP"].

Definition generateServicePorts (nf : PlannedNetworkFunction) : list ServicePort :=
  map (λ cp, mkServicePort (cp_Name cp) (ContainerPort_ cp) (cp_Name cp) (cp_Protocol cp)) (generateContainerPorts nf).

Definition generateEnvironmentVariables (nf : PlannedNetworkFunction) : list EnvVar :=
  [EnvValue "NF_TYPE" (nf_Type nf); EnvValue "NF_NAME" (nf_Name nf);
   EnvField "POD_NAME" "metadata.name"; EnvField "POD_NAMESPACE" "metadata.namespace"].

Definition generateLivenessProbe : Probe := mkProbe "/health" "mgmt" 30 10 5 3.
Definition generateReadinessProbe : Probe := mkProbe "/ready" "mgmt" 10 5 3 3.

Definition generateIngressRules (nf : PlannedNetworkFunction) : list (gmap string string) :=
  [{["name" := nf_Name nf]}].

(** One rule without restrictions. *)
Definition generateEgressRules : nat := 1.

(** The value an [int32] conversion stores. *)
Definition wrap32 (z : Z) : Z := (z + 2 ^ 31) mod 2 ^ 32 - 2 ^ 31.

Definition generateDeploymentManifest (o : NetworkIntent) (nf : PlannedNetworkFunction) : Manifest :=
  Deployment "apps/v1" "Deployment" (mkObjectMeta (nf_Name nf) (Namespace o) (functionLabels o nf))
    (wrap32 (Replicas nf)) (selectorLabels nf) (functionLabels o nf)
    (mkContainer (nf_Name nf) (ToLower (nf_Type nf) +:+ ":" +:+ nf_Version nf) (generateContainerPorts nf)
       (generateEnvironmentVariables nf) generateLivenessProbe generateReadinessProbe "/etc/config"
       (nf_Name nf +:+ "-config")).

Definition generateServiceManifest (o : NetworkIntent) (nf : PlannedNetworkFunction) : Manifest :=
  Service "v1" "Service" (mkObjectMeta (nf_Name nf +:+ "-service") (Namespace o) (functionLabels o nf))
    (selectorLabels nf) (generateServicePorts nf) "ClusterIP".

(** Values that are not strings are written as JSON; what cannot be is empty. *)
Definition configText (v : json) : string :=
  match v with
  | JString s => s
  | _ => match json_Marshal v with Ok s => s | Err _ => "" end
  end.

Definition generateConfigMapManifest (o : NetworkIntent) (nf : PlannedNetworkFunction) : Manifest :=
  let configData : gmap string json :=
    if String.eqb (Configuration nf) "" then ∅
    else match json_Unmarshal (Configuration nf) with Ok (JObject m) => m | _ => ∅ end in
  ConfigMap "v1" "ConfigMap" (mkObjectMeta (nf_Name nf +:+ "-config") (Namespace o) (functionLabels o nf))
    (configText <$> configData).

Definition generateNetworkPolicyManifest (o : NetworkIntent) (nf : PlannedNetworkFunction) : Manifest :=
  NetworkPolicy "networking.k8s.io/v1" "NetworkPolicy"
    (mkObjectMeta (nf_Name nf +:+ "-netpol") (Namespace o) (functionLabels o nf))
    (selectorLabels nf) ["Ingress"; "Egress"] (generateIngressRules nf) generateEgressRules.

Definition generateSliceConfigMap (o : NetworkIntent) (s : SliceConfiguration) : Manifest :=
  ConfigMap "v1" "ConfigMap"
    (mkObjectMeta (Name o +:+ "-slice-config") (Namespace o)
       (list_to_map [("networkintent", Name o); ("slice-type", SliceType s); ("nephoran.com/managed", "true");
                     ("nephoran.com/network-intent", Name o); ("nephoran.com/slice-config", "true")]))
    (list_to_map [("slice-config.yaml", yaml_MarshalSlice s); ("sst", pretty (SST s));
                  ("qos-profile", QoSProfile s); ("isolation", Isolation s)]).

(** A manifest under its file name; [kind] is for the message. *)
Definition addManifest (kind file : string) (m : Manifest) (manifestMap : gmap string string)
    : result string (gmap string string) :=
  match yaml_Marshal m with
  | Ok text => Ok (<[file := text]> manifestMap)
  | Err e => Err ("failed to marshal " +:+ kind +:+ " manifest: " +:+ e)
  end.

Definition functionManifests (o : NetworkIntent) (nf : PlannedNetworkFunction) (m : gmap string string)
    : result string (gmap string string) :=
  let? m := addManifest "deployment" ("deployment-" +:+ nf_Name nf +:+ ".yaml") (generateDeploymentManifest o nf) m in
  let? m := addManifest "service" ("service-" +:+ nf_Name nf +:+ ".yaml") (generateServiceManifest o nf) m in
  let? m := (if String.eqb (Configuration nf) "" then Ok m
             else addManifest "configmap" ("configmap-" +:+ nf_Name nf +:+ ".yaml") (generateConfigMapManifest o nf) m) in
  addManifest "network policy" ("networkpolicy-" +:+ nf_Name nf +:+ ".yaml") (generateNetworkPolicyManifest o nf) m.

Fixpoint allManifests (o : NetworkIntent) (nfs : list PlannedNetworkFunction) (m : gmap string string)
    : result string (gmap string string) :=
  match nfs with
  | [] => Ok m
  | nf :: nfs => let? m := functionManifests o nf m in allManifests o nfs m
  end.

Definition placeholderManifest (o : NetworkIntent) : string :=
  lines [
    "# NetworkIntent: " +:+ Namespace o +:+ "/" +:+ Name o;
    "# No network functions required";
    "apiVersion: v1";
    "kind: ConfigMap";
    "metadata:";
    "  name: " +:+ Name o +:+ "-intent";
    "  namespace: " +:+ Namespace o;
    "data:";
    "  intent: " +:+ fmt_q (Intent o)].

(** The manifests that [GenerateManifests] makes of a plan. *)
Definition manifestsOf (o : NetworkIntent) (plan : ResourcePlan) : result string (gmap string string) :=
  let? m := allManifests o (NetworkFunctions plan) ∅ in
  let? m := (match SliceConfiguration_ plan with
             | Some s => addManifest "slice configmap" "slice-configuration.yaml" (generateSliceConfigMap o s) m
             | None => Ok m
             end) in
  Ok (if decide (m = ∅) then {["intent-placeholder.yaml" := placeholderManifest o]} else m).

(** ** Facts *)

Lemma manifestsOf_nonempty o plan m : manifestsOf o plan = Ok m -> m <> ∅.
Proof.
  unfold manifestsOf. destruct (allManifests _ _ _) as [m1 |]; [| done]. simpl.
  destruct (match SliceConfiguration_ plan with Some s => _ | None => _ end) as [m2 |]; [| done]. simpl.
  intros [= <-]. destruct (decide (m2 = ∅)); [apply map_non_empty_singleton | done].
Qed.

(** Manifests depend on the name, the namespace and the text of an intent. *)
Lemma manifestsOf_same o o' plan :
  Namespace o' = Namespace o -> Name o' = Name o -> Intent o' = Intent o -> manifestsOf o' plan = manifestsOf o plan.
Proof.
  intros Hns Hn Hi.
  assert (forall nf m, functionManifests o' nf m = functionManifests o nf m) as Hf.
  { intros nf m. unfold functionManifests, generateDeploymentManifest, generateServiceManifest, generateConfigMapManifest,
      generateNetworkPolicyManifest, functionLabels. by rewrite Hns, Hn. }
  assert (forall nfs m, allManifests o' nfs m = allManifests o nfs m) as Ha.
  { induction nfs as [| nf nfs IH]; intros m; simpl; [done |]. rewrite Hf.
    destruct (functionManifests o nf m); simpl; [apply IH | done]. }
  unfold manifestsOf, generateSliceConfigMap, placeholderManifest. by rewrite Ha, Hns, Hn, Hi.
Qed.

End planning.
