(* ===== verification/IntentReconciler.v ===== *)
(** * IntentReconciler: the reconciler of NetworkIntents

    Follows pkg/controllers/reconciler.go, llm_processor.go, resource_planner.go,
    gitops_handler.go and the handlers of networkintent_controller.go.  A
    reconcile is a program over calls ([Effects]): the API server, the clock,
    the environment, the event recorder, the model behind its circuit breaker,
    the git client.  The intent in memory and the processing context, which the
    source passes by pointer, are the state of the monad [M].

    The sanitizer is the class [Sanitizer]; its functions depend on its input
    alone.  Logging, metrics and the pause of two seconds before verification are
    left out; the branches for a reconciler without configuration or
    dependencies are too, since its constructor makes neither. *)

From stdpp Require Import pretty.
From S2P Require Import Prelude GoFloat GoStrings GoFormat Effects IntentTypes IntentPlanning.
Local Open Scope Z_scope.

(** ** Calls *)

Inductive GetError := NotFound | OtherError (e : string).

(** [llmCircuitBreaker.ExecuteWithFallback]: what the primary operation gave, or
    that the fallback is asked for with the error of the circuit. *)
Inductive LLMAnswer :=
| LLMReturned (r : result string string)
| LLMFallback (circuitErr : string).

Inductive Call :=
| CtxDone
| Get
| Update (o : NetworkIntent)
| UpdateStatus (o : NetworkIntent)
| Now
| Getenv (name : string)
| Event (eventType reason message : string)
| ProcessIntent (prompt : string)
| IsOpen
| Jitter (delay : Duration)
| InitRepo
| CommitAndPush (files : gmap string string) (message : string).

Definition Answer (c : Call) : Type :=
  match c with
  | CtxDone => option string
  | Get => result GetError NetworkIntent
  | Update _ | UpdateStatus _ => result string NetworkIntent
  | Now => Time
  | Getenv _ => string
  | Event _ _ _ => unit
  | ProcessIntent _ => LLMAnswer
  | IsOpen => bool
  | Jitter _ => Duration
  | InitRepo => result string unit
  | CommitAndPush _ _ => result string string
  end.

Class Sanitizer := {
  SanitizeInput : string -> result string string;
  ValidateOutput : string -> result string string;
  BuildSecurePrompt : string -> string -> string
}.

(** [time.Time.Format] with [time.RFC3339]. *)
Class TimeFormat := Format_RFC3339 : Time -> string.

(** ** State: the intent in memory and the context of the pass *)

Record ProcessingContext := mkProcessingContext {
  CurrentPhase : string;
  IntentType : string;
  ExtractedEntities : gmap string json;
  TelecomContext_ : TelecomContext;
  ResourcePlan_ : option ResourcePlan;
  Manifests : gmap string string;
  GitCommitHash : string
}.

Definition newProcessingContext : ProcessingContext := mkProcessingContext "" "" ∅ ∅ None ∅ "".

Record Local := mkLocal { networkIntent : NetworkIntent; processingCtx : ProcessingContext }.

Definition M (A : Type) : Type := Local -> prog Answer (A * Local).

Definition mret {A} (a : A) : M A := λ l, Ret (a, l).
Definition mbind {A B} (m : M A) (f : A -> M B) : M B := λ l, pbind (m l) (λ '(a, l), f a l).
Definition call (c : Call) : M (Answer c) := λ l, Vis c (λ r, Ret (r, l)).
Definition panic {A} (why : string) : M A := λ _, Panic why.
Definition getIntent : M NetworkIntent := λ l, Ret (networkIntent l, l).
Definition getCtx : M ProcessingContext := λ l, Ret (processingCtx l, l).
Definition modifyIntent (f : NetworkIntent -> NetworkIntent) : M unit :=
  λ l, Ret (tt, mkLocal (f (networkIntent l)) (processingCtx l)).
Definition modifyCtx (f : ProcessingContext -> ProcessingContext) : M unit :=
  λ l, Ret (tt, mkLocal (networkIntent l) (f (processingCtx l))).

Notation "'let!' x ':=' m 'in' k" := (mbind m (fun x => k))
  (at level 10, x pattern, m at level 100, k at level 200) : go_scope.
Notation "m ';;!' k" := (mbind m (fun _ => k)) (at level 100, right associativity) : go_scope.

Definition set_CurrentPhase p c := mkProcessingContext p (IntentType c) (ExtractedEntities c)
  (TelecomContext_ c) (ResourcePlan_ c) (Manifests c) (GitCommitHash c).
Definition set_IntentType t c := mkProcessingContext (CurrentPhase c) t (ExtractedEntities c)
  (TelecomContext_ c) (ResourcePlan_ c) (Manifests c) (GitCommitHash c).
Definition set_ExtractedEntities m c := mkProcessingContext (CurrentPhase c) (IntentType c) m
  (TelecomContext_ c) (ResourcePlan_ c) (Manifests c) (GitCommitHash c).
Definition set_TelecomContext m c := mkProcessingContext (CurrentPhase c) (IntentType c) (ExtractedEntities c)
  m (ResourcePlan_ c) (Manifests c) (GitCommitHash c).
Definition set_ResourcePlan p c := mkProcessingContext (CurrentPhase c) (IntentType c) (ExtractedEntities c)
  (TelecomContext_ c) (Some p) (Manifests c) (GitCommitHash c).
Definition set_Manifests m c := mkProcessingContext (CurrentPhase c) (IntentType c) (ExtractedEntities c)
  (TelecomContext_ c) (ResourcePlan_ c) m (GitCommitHash c).
Definition set_GitCommitHash h c := mkProcessingContext (CurrentPhase c) (IntentType c) (ExtractedEntities c)
  (TelecomContext_ c) (ResourcePlan_ c) (Manifests c) h.

(** [(ctrl.Result, error)] *)
Record Outcome := mkOutcome { RequeueAfter : Duration; error : option string }.

Definition ok : Outcome := mkOutcome 0 None.
Definition requeue (d : Duration) : Outcome := mkOutcome d None.
Definition failed (d : Duration) (e : string) : Outcome := mkOutcome d (Some e).

(** The caller of a phase stops on an error and on a delay. *)
Definition stops (o : Outcome) : bool :=
  match error o with Some _ => true | None => 0 <? RequeueAfter o end.

(** The services the reconciler was made with. *)
Record Dependencies := mkDependencies {
  hasGitClient : bool;
  hasLLMClient : bool;
  hasEventRecorder : bool;
  TelecomKnowledgeBase : option Telecom.TelecomKnowledgeBase
}.

Section reconciler.
Context `{!Encodings, !Sanitizer, !TimeFormat}.
Context (deps : Dependencies) (config : Config) (constants : Constants).

(** ** Steps shared by the handlers *)

(** [safeStatusUpdate] of the intent in memory: the answer replaces it. *)
Definition safeStatusUpdate : M (option string) :=
  let! o := getIntent in
  let! r := call (UpdateStatus o) in
  match r with
  | Ok o => modifyIntent (λ _, o) ;;! mret None
  | Err e => mret (Some e)
  end.

Definition safeUpdate : M (option string) :=
  let! o := getIntent in
  let! r := call (Update o) in
  match r with
  | Ok o => modifyIntent (λ _, o) ;;! mret None
  | Err e => mret (Some e)
  end.

(** [updateCondition] with [metav1.Now()]. *)
Definition setCondition (ty : string) (st : ConditionStatus) (reason message : string) : M unit :=
  let! now := call Now in
  modifyIntent (updateCondition (mkCondition ty st reason message now)).

Definition setReadyCondition (st : ConditionStatus) (reason message : string) : M (option string) :=
  setCondition "Ready" st reason message ;;! safeStatusUpdate.

Definition updatePhase (phase : string) : M (option string) :=
  modifyIntent (on_Status (set_Phase phase)) ;;!
  let! now := call Now in
  modifyIntent (on_Status (set_LastUpdated now)) ;;!
  safeStatusUpdate.

Definition recordEvent (eventType reason message : string) : M unit :=
  if hasEventRecorder deps then call (Event eventType reason message) else mret tt.

Definition recordFailureEvent (reason message : string) : M unit := recordEvent "Warning" reason message.

Definition calculateExponentialBackoffForOperation (retryCount : Z) (operation : string) : M Duration :=
  let! j := call (Jitter (cappedDelay retryCount operation)) in
  mret (finalDelay retryCount operation j).

(** The latest version is fetched and its phase set to Error; failures are logged. *)
Definition persistErrorPhase : M unit :=
  let! r := call Get in
  match r with
  | Ok latest => let! _ := call (UpdateStatus (on_Status (set_Phase "Error") latest)) in mret tt
  | Err _ => mret tt
  end.

(** [json.Unmarshal] into a nil [map[string]interface{}]; null leaves it nil. *)
Definition unmarshalMap (s : string) : result string (option (gmap string json)) :=
  match json_Unmarshal s with
  | Ok (JObject m) => Ok (Some m)
  | Ok JNull => Ok None
  | Ok _ => Err "json: cannot unmarshal value into Go value of type map[string]interface {}"
  | Err e => Err e
  end.

(** [json.Marshal] of such a map. *)
Definition marshalMap (m : option (gmap string json)) : result string string :=
  json_Marshal (from_option JObject JNull m).

(** [Duration.Seconds] *)
Definition Seconds (d : Duration) : float64 :=
  f64_add (f64_of_int (Z.quot d Second)) (f64_div (f64_of_int (Z.rem d Second)) (f64_of_int Second)).

(** A prefix of eight bytes, [hash[:8]]; shorter hashes panic. *)
Definition short (hash : string) : option string :=
  if (8 <=? String.length hash)%nat then Some (String.substring 0 8 hash) else None.

(** ** Phase 1: the language model (llm_processor.go) *)

Definition systemPrompt : string :=
  "You are a secure telecommunications network orchestration expert. Generate only valid JSON for network function deployments.".

(** The call of the model, with the fallback the circuit breaker runs. *)
Definition callModel (sanitizedIntent securePrompt : string) : M (result string string) :=
  let! r := call (ProcessIntent securePrompt) in
  match r with
  | LLMReturned r => mret r
  | LLMFallback circuitErr =>
      let fallbackResponse := generateFallbackResponse sanitizedIntent in
      if String.eqb fallbackResponse "" then
        mret (Err ("LLM service unavailable and no fallback possible: " +:+ circuitErr))
      else recordEvent "Normal" "LLMFallbackUsed" "Circuit breaker open, using fallback response" ;;!
           mret (Ok fallbackResponse)
  end.

(** "attempt n of max" *)
Definition attempt (retryCount : Z) : string := pretty (retryCount + 1) +:+ "/" +:+ pretty (MaxRetries config).

(** The latest version takes over the status in memory, with phase Error. *)
Definition persistLLMFailure (retryCount : Z) (e : string) : M unit :=
  let! r := call Get in
  match r with
  | Err _ => mret tt
  | Ok latest =>
      let! o := getIntent in
      let! now := call Now in
      let latest := updateCondition
        (mkCondition "Ready" ConditionFalse "LLMProcessingRetrying"
           ("LLM processing failed, retrying (attempt " +:+ attempt retryCount +:+ "): " +:+ e) now)
        (on_Status (set_Phase "Error") (set_Status (Status o) latest)) in
      let! r := call (UpdateStatus latest) in
      match r with
      | Ok latest => modifyIntent (λ o, set_ResourceVersion (ResourceVersion latest) (set_Status (Status latest) o))
      | Err _ => mret tt
      end
  end.

(** The call failed. *)
Definition llmFailed (retryCount : Z) (e : string) : M Outcome :=
  let! open := call IsOpen in
  if open then
    setCondition "Processed" ConditionFalse "LLMServiceUnavailable"
      ("LLM service unavailable (circuit breaker open): " +:+ e) ;;!
    setReadyCondition ConditionFalse "LLMServiceUnavailable" ("LLM service is currently unavailable: " +:+ e) ;;!
    recordFailureEvent "LLMServiceUnavailable" e ;;!
    mret (failed (2 * RetryDelay config) e)
  else
    modifyIntent (setNetworkIntentRetryCount "llm-processing" (retryCount + 1)) ;;!
    setCondition "Processed" ConditionFalse "LLMProcessingRetrying"
      ("LLM processing failed (attempt " +:+ attempt retryCount +:+ "): " +:+ e) ;;!
    persistLLMFailure retryCount e ;;!
    recordFailureEvent "LLMProcessingRetry" ("attempt " +:+ attempt retryCount +:+ " failed: " +:+ e) ;;!
    let! d := calculateExponentialBackoffForOperation retryCount "llm-processing" in
    mret (requeue d).

(** The answer is not JSON. *)
Definition llmUnparsable (retryCount : Z) (e : string) : M Outcome :=
  modifyIntent (setNetworkIntentRetryCount "llm-processing" (retryCount + 1)) ;;!
  setCondition "Processed" ConditionFalse "LLMResponseParsingFailed" ("Failed to parse LLM response as JSON: " +:+ e) ;;!
  modifyIntent (on_Status (set_Phase "Error")) ;;!
  setReadyCondition ConditionFalse "LLMResponseParsingFailed" ("Failed to parse LLM response as JSON: " +:+ e) ;;!
  let! d := calculateExponentialBackoffForOperation retryCount "llm-processing" in
  mret (requeue d).

(** The answer is stored, then the condition, each with a write of its own. *)
Definition llmSucceeded (startTime : Time) (parameters : option (gmap string json)) : M Outcome :=
  let extracted := default ∅ parameters in
  modifyCtx (set_ExtractedEntities extracted) ;;!
  match marshalMap parameters with
  | Err e => mret (failed (RetryDelay config) ("failed to marshal parameters: " +:+ e))
  | Ok parametersRaw =>
      modifyIntent (on_Status (set_Extension "parameters" parametersRaw)) ;;!
      let! r := safeStatusUpdate in
      match r with
      | Some e => mret (failed (10 * Second) ("failed to update NetworkIntent with parameters: " +:+ e))
      | None =>
          modifyIntent (clearNetworkIntentRetryCount "llm-processing") ;;!
          let! endTime := call Now in
          let! now := call Now in
          modifyIntent (on_Status (set_Extension "processingCompletionTime" (quoted (Format_RFC3339 now)))) ;;!
          let count := pretty (Z.of_nat (size extracted)) in
          modifyIntent (updateCondition (mkCondition "Processed" ConditionTrue "LLMProcessingSucceeded"
            ("Intent successfully processed by LLM with " +:+ count +:+ " parameters in "
             +:+ fmt_f 2 (Seconds (endTime - startTime)) +:+ "s") now)) ;;!
          let! r := safeStatusUpdate in
          match r with
          | Some e => mret (failed (10 * Second) ("failed to update status: " +:+ e))
          | None =>
              recordEvent "Normal" "LLMProcessingSucceeded" ("Intent processed with " +:+ count +:+ " parameters") ;;!
              mret ok
          end
      end
  end.

(** The intent is refused by the sanitizer. *)
Definition inputRejected (e : string) : M Outcome :=
  setCondition "Validated" ConditionFalse "InputValidationFailed" ("Intent validation failed: " +:+ e) ;;!
  modifyIntent (on_Status (set_Phase "Error")) ;;!
  safeStatusUpdate ;;!
  recordFailureEvent "InputValidationFailed" e ;;!
  mret ok.

Definition ProcessLLMPhase : M Outcome :=
  let! startTime := call Now in
  let! o := getIntent in
  modifyCtx (set_CurrentPhase "LLMProcessing") ;;!
  modifyCtx (set_IntentType (extractIntentType (Intent o))) ;;!
  let retryCount := getNetworkIntentRetryCount o "llm-processing" in
  if MaxRetries config <=? retryCount then
    let n := pretty (MaxRetries config) in
    let e := "max retries (" +:+ n +:+ ") exceeded for LLM processing" in
    setCondition "Processed" ConditionFalse "LLMProcessingFailedMaxRetries"
      ("Failed to process intent after " +:+ n +:+ " retries") ;;!
    setReadyCondition ConditionFalse "LLMProcessingFailed"
      ("LLM processing failed after " +:+ n +:+ " retries: " +:+ e) ;;!
    mret (failed 0 e)
  else if negb (hasLLMClient deps) then
    setCondition "Processed" ConditionFalse "LLMClientNotConfigured"
      "LLM client is not configured and cannot process intent" ;;!
    setReadyCondition ConditionFalse "LLMClientNotConfigured" "LLM client is not properly configured" ;;!
    mret (failed 0 "LLM client is not configured")
  else
  match SanitizeInput (Intent o) with
  | Err e => inputRejected e
  | Ok sanitizedIntent =>
      let '(telecomContext, enhancedPrompt) := buildTelecomEnhancedPrompt (TelecomKnowledgeBase deps) sanitizedIntent in
      modifyCtx (set_TelecomContext telecomContext) ;;!
      let! r := callModel sanitizedIntent (BuildSecurePrompt systemPrompt enhancedPrompt) in
      match r with
      | Err e => llmFailed retryCount e
      | Ok processedResult =>
          match ValidateOutput processedResult with
          | Err e =>
              setCondition "Processed" ConditionFalse "LLMOutputValidationFailed"
                ("LLM output rejected due to security concerns: " +:+ e) ;;!
              setReadyCondition ConditionFalse "OutputSecurityValidationFailed"
                ("LLM output failed security validation: " +:+ e) ;;!
              recordFailureEvent "OutputSecurityValidationFailed" e ;;!
              mret (failed 0 ("LLM output failed security validation: " +:+ e))
          | Ok validatedOutput =>
              match unmarshalMap validatedOutput with
              | Err e => llmUnparsable retryCount e
              | Ok parameters => llmSucceeded startTime parameters
              end
          end
      end
  end.

(** ** Phases 2 and 3: plans and manifests (resource_planner.go) *)

Definition PlanResources : M Outcome :=
  modifyCtx (set_CurrentPhase "ResourcePlanning") ;;!
  let! o := getIntent in
  let! ctx := getCtx in
  let raw := default "" (Extensions (Status o) !! "parameters") in
  match (if String.eqb raw "" then Ok None else unmarshalMap raw) with
  | Err e =>
      setReadyCondition ConditionFalse "LLMParametersParsingFailed" ("Failed to parse LLM parameters: " +:+ e) ;;!
      mret (failed (RetryDelay config) e)
  | Ok llmParams =>
      let plan := planResources (TelecomKnowledgeBase deps) (default ∅ llmParams) (TelecomContext_ ctx) in
      let count := pretty (Z.of_nat (length (NetworkFunctions plan))) in
      modifyCtx (set_ResourcePlan plan) ;;!
      match json_MarshalPlan plan with
      | Err e => mret (failed (RetryDelay config) ("failed to marshal resource plan: " +:+ e))
      | Ok planData =>
          modifyIntent (on_Status (set_Extension "resourcePlan" planData)) ;;!
          setCondition "ResourcesPlanned" ConditionTrue "ResourcePlanningSucceeded"
            ("Resource plan created with " +:+ count +:+ " network functions, estimated cost $"
             +:+ fmt_f 2 (EstimatedCost plan)) ;;!
          let! r := safeStatusUpdate in
          match r with
          | Some e => mret (failed (10 * Second) ("failed to update status: " +:+ e))
          | None =>
              recordEvent "Normal" "ResourcePlanningSucceeded" ("Created resource plan with " +:+ count +:+ " NFs") ;;!
              mret ok
          end
      end
  end.

Definition GenerateManifests : M Outcome :=
  modifyCtx (set_CurrentPhase "ManifestGeneration") ;;!
  let! o := getIntent in
  let! ctx := getCtx in
  match ResourcePlan_ ctx with
  | None =>
      setReadyCondition ConditionFalse "ResourcePlanNotAvailable"
        "Resource plan is not available for manifest generation" ;;!
      mret (failed 0 "resource plan not available for manifest generation")
  | Some plan =>
      match manifestsOf o plan with
      | Err e => mret (failed (RetryDelay config) e)
      | Ok manifestMap =>
          let count := pretty (Z.of_nat (size manifestMap)) in
          modifyCtx (set_Manifests manifestMap) ;;!
          setCondition "ManifestsGenerated" ConditionTrue "ManifestGenerationSucceeded"
            ("Generated " +:+ count +:+ " deployment manifests for network functions") ;;!
          let! r := safeStatusUpdate in
          match r with
          | Some e => mret (failed (10 * Second) ("failed to update status: " +:+ e))
          | None =>
              recordEvent "Normal" "ManifestGenerationSucceeded" ("Generated " +:+ count +:+ " manifests") ;;!
              mret ok
          end
      end
  end.

(** ** Phases 4 and 5: git (gitops_handler.go) *)

Definition getNetworkFunctionsList (plan : ResourcePlan) : string :=
  match NetworkFunctions plan with
  | [] => "none"
  | nfs => "[" +:+ fmt_v (map nf_Name nfs) +:+ "]"
  end.

Definition basePath (o : NetworkIntent) : string :=
  GitDeployPath config +:+ "/" +:+ Namespace o +:+ "-" +:+ Name o.

(** Each manifest under the path of the intent. *)
Definition deploymentFiles (o : NetworkIntent) (manifests : gmap string string) : gmap string string :=
  kmap (λ filename, basePath o +:+ "/" +:+ filename) manifests.

Definition commitMessage (o : NetworkIntent) (ctx : ProcessingContext) (plan : ResourcePlan) : string :=
  String.concat nl [
    "Deploy NetworkIntent: " +:+ Namespace o +:+ "/" +:+ Name o;
    "";
    "Intent: " +:+ Intent o;
    "Phase: " +:+ CurrentPhase ctx;
    "Network Functions: " +:+ getNetworkFunctionsList plan;
    "Generated Manifests: " +:+ pretty (Z.of_nat (size (Manifests ctx)));
    "Estimated Cost: $" +:+ fmt_f 2 (EstimatedCost plan);
    "";
    "Processed by Nephoran Intent Operator"].

(** A git operation failed: counted in memory, the status is written, and the
    pass ends with a delay. *)
Definition gitFailed (retryCount : Z) (reason message ready : string) : M Outcome :=
  modifyIntent (setNetworkIntentRetryCount "git-deployment" (retryCount + 1)) ;;!
  setCondition "GitOpsCommitted" ConditionFalse reason message ;;!
  setReadyCondition ConditionFalse reason ready ;;!
  let! d := calculateExponentialBackoffForOperation retryCount "git-operations" in
  mret (requeue d).

(** Without a hash of eight bytes the message of the condition panics. *)
Definition commitSucceeded (files : Z) (commitHash : string) : M Outcome :=
  modifyCtx (set_GitCommitHash commitHash) ;;!
  modifyIntent (clearNetworkIntentRetryCount "git-deployment") ;;!
  let! now := call Now in
  modifyIntent (on_Status (set_Extension "deploymentCompletionTime" (quoted (Format_RFC3339 now)))) ;;!
  modifyIntent (on_Status (set_Extension "gitCommitHash" (match json_Marshal (JString commitHash) with Ok s => s | Err _ => "" end))) ;;!
  match short commitHash with
  | None => panic "slice bounds out of range"
  | Some hash8 =>
      modifyIntent (updateCondition (mkCondition "GitOpsCommitted" ConditionTrue "GitCommitSucceeded"
        ("Successfully committed " +:+ pretty files +:+ " manifests to GitOps repository (commit: " +:+ hash8 +:+ ")") now)) ;;!
      let! r := safeStatusUpdate in
      match r with
      | Some e => mret (failed (10 * Second) ("failed to update status: " +:+ e))
      | None =>
          recordEvent "Normal" "GitOpsCommitSucceeded"
            ("Committed " +:+ pretty files +:+ " manifests to GitOps (commit: " +:+ hash8 +:+ ")") ;;!
          mret ok
      end
  end.

Definition CommitToGitOps : M Outcome :=
  modifyCtx (set_CurrentPhase "GitOpsCommit") ;;!
  let! o := getIntent in
  let! ctx := getCtx in
  if decide (Manifests ctx = ∅) then
    setCondition "GitOpsCommitted" ConditionTrue "NoManifestsToCommit"
      "No deployment manifests were generated; GitOps commit skipped" ;;!
    safeStatusUpdate ;;!
    mret ok
  else if negb (hasGitClient deps) then mret (failed 0 "Git client is not configured")
  else
  let retryCount := getNetworkIntentRetryCount o "git-deployment" in
  if MaxRetries config <=? retryCount then
    let n := pretty (MaxRetries config) in
    setCondition "GitOpsCommitted" ConditionFalse "GitCommitFailedMaxRetries"
      ("Failed to commit to GitOps after " +:+ n +:+ " retries") ;;!
    setReadyCondition ConditionFalse "GitOperationsFailed" ("Git operations failed after " +:+ n +:+ " retries") ;;!
    mret (failed 0 "max retries exceeded for GitOps commit")
  else
  let! r := call InitRepo in
  match r with
  | Err e => gitFailed retryCount "GitRepoInitializationFailed" ("Failed to initialize git repository: " +:+ e)
               ("Git repository initialization failed: " +:+ e)
  | Ok _ =>
      match ResourcePlan_ ctx with
      | None => panic "invalid memory address or nil pointer dereference"
      | Some plan =>
          let files := deploymentFiles o (Manifests ctx) in
          let! r := call (CommitAndPush files (commitMessage o ctx plan)) in
          match r with
          | Err e => gitFailed retryCount "GitCommitPushFailed" ("Failed to commit and push: " +:+ e)
                       ("Git commit and push failed: " +:+ e)
          | Ok commitHash => commitSucceeded (Z.of_nat (size files)) commitHash
          end
      end
  end.

Definition VerifyDeployment : M Outcome :=
  modifyCtx (set_CurrentPhase "DeploymentVerification") ;;!
  let! ctx := getCtx in
  if String.eqb (GitCommitHash ctx) "" then
    setCondition "DeploymentVerified" ConditionTrue "NoManifestsToVerify"
      "No manifests were committed; deployment verification skipped" ;;!
    safeStatusUpdate ;;!
    mret ok
  else
  match ResourcePlan_ ctx, short (GitCommitHash ctx) with
  | None, _ => panic "invalid memory address or nil pointer dereference"
  | _, None => panic "slice bounds out of range"
  | Some plan, Some hash8 =>
      let count := pretty (Z.of_nat (length (NetworkFunctions plan))) in
      setCondition "DeploymentVerified" ConditionTrue "DeploymentVerificationSucceeded"
        ("Deployment verified successfully - " +:+ count +:+ " network functions deployed via commit " +:+ hash8) ;;!
      let! r := safeStatusUpdate in
      match r with
      | Some e => mret (failed (10 * Second) ("failed to update status: " +:+ e))
      | None =>
          recordEvent "Normal" "DeploymentVerificationSucceeded"
            ("Verified deployment of " +:+ count +:+ " network functions") ;;!
          mret ok
      end
  end.

(** The commit of a clean-up names no files. *)
Definition CleanupGitOpsResources : M (option string) :=
  let! o := getIntent in
  if negb (hasGitClient deps) then mret (Some "Git client is not configured")
  else
  let! r := call InitRepo in
  match r with
  | Err e => mret (Some ("failed to initialize git repository: " +:+ e))
  | Ok _ =>
      let! r := call (CommitAndPush ∅ (String.concat nl [
        "Remove NetworkIntent: " +:+ Namespace o +:+ "/" +:+ Name o; "";
        "Cleaning up resources for deleted NetworkIntent"; "";
        "Processed by Nephoran Intent Operator"])) in
      match r with
      | Err e => mret (Some ("failed to remove GitOps resources: " +:+ e))
      | Ok _ => mret None
      end
  end.

(** ** The reconciler (reconciler.go, networkintent_controller.go) *)

Definition reconcileDelete : M Outcome :=
  let! r := CleanupGitOpsResources in
  match r with
  | Some e => mret (failed Minute e)
  | None =>
      modifyIntent (λ o, set_Finalizers (removeFinalizer (Finalizers o) (NetworkIntentFinalizer constants)) o) ;;!
      let! r := safeUpdate in
      match r with
      | Some e => mret (failed (10 * Second) e)
      | None => mret ok
      end
  end.

Definition isProcessingComplete (o : NetworkIntent) : bool :=
  holds o "Processed" && holds o "ResourcesPlanned" && holds o "ManifestsGenerated"
  && holds o "GitOpsCommitted" && holds o "DeploymentVerified" && String.eqb (Phase (Status o)) "Completed".

(** A phase of the pipeline: its name is written, then it runs; the rest of the
    pipeline follows unless it stops. *)
Definition runPhase (guard : NetworkIntent -> bool) (phase what : string) (process rest : M Outcome) : M Outcome :=
  let! o := getIntent in
  if guard o then
    let! r := updatePhase phase in
    match r with
    | Some e => mret (failed (10 * Second) ("failed to update " +:+ what +:+ " phase: " +:+ e))
    | None =>
        let! r := process in
        if stops r then mret r else rest
    end
  else rest.

(** A phase runs once the one before it holds and it does not itself. *)
Definition due (before this : string) (o : NetworkIntent) : bool := holds o before && negb (holds o this).

(** With the model disabled the intent counts as processed. *)
Definition bypass : M Outcome :=
  setCondition "Processed" ConditionTrue "LLMBypassed"
    "LLM processing disabled; intent accepted directly without LLM enrichment" ;;!
  modifyIntent (on_Status (set_Phase "Processed")) ;;!
  safeStatusUpdate ;;!
  mret ok.

Definition phase5 : M Outcome :=
  runPhase (due "GitOpsCommitted" "DeploymentVerified") "DeploymentVerification" "deployment verification"
    VerifyDeployment (mret ok).
Definition phase4 : M Outcome :=
  runPhase (due "ManifestsGenerated" "GitOpsCommitted") "GitOpsCommit" "GitOps commit" CommitToGitOps phase5.
Definition phase3 : M Outcome :=
  runPhase (due "ResourcesPlanned" "ManifestsGenerated") "ManifestGeneration" "manifest generation"
    GenerateManifests phase4.
Definition phase2 : M Outcome :=
  runPhase (due "Processed" "ResourcesPlanned") "ResourcePlanning" "resource planning" PlanResources phase3.
Definition phase1 : M Outcome :=
  runPhase (λ o, negb (holds o "Processed")) "LLMProcessing" "LLM processing" ProcessLLMPhase phase2.

Definition executeProcessingPipeline : M Outcome :=
  let! v := call (Getenv "ENABLE_LLM_INTENT") in
  if String.eqb v "false" then bypass else phase1.

(** The last writes of a pass that went through. *)
Definition finish : M Outcome :=
  let! r := updatePhase "Completed" in
  match r with
  | Some e => mret (failed (10 * Second) ("failed to update completion phase: " +:+ e))
  | None =>
      setReadyCondition ConditionTrue "AllPhasesCompleted"
        "All processing phases completed successfully and NetworkIntent is ready" ;;!
      recordEvent "Normal" "ReconciliationCompleted"
        "NetworkIntent successfully processed through all phases and deployed" ;;!
      mret ok
  end.

(** From the pipeline's outcome to that of the pass. *)
Definition conclude (result : Outcome) : M Outcome :=
  let! o := getIntent in
  match error result with
  | Some e => recordFailureEvent "ProcessingPipelineFailed" e ;;! persistErrorPhase ;;! mret result
  | None =>
      if 0 <? RequeueAfter result then
        (if String.eqb (Phase (Status o)) "Error" then persistErrorPhase else mret tt) ;;! mret result
      else if String.eqb (Phase (Status o)) "Error" || String.eqb (Phase (Status o)) "Processed" then mret ok
      else finish
  end.

(** A pass over an intent that is neither deleted nor new. *)
Definition process : M Outcome :=
  modifyIntent (λ o, on_Status (set_ObservedGeneration (Generation o)) o) ;;!
  let! o := getIntent in
  if isProcessingComplete o then mret ok
  else let! result := executeProcessingPipeline in conclude result.

Definition handle : M Outcome :=
  let! o := getIntent in
  match DeletionTimestamp o with
  | Some _ => reconcileDelete
  | None =>
      if containsFinalizer (Finalizers o) (NetworkIntentFinalizer constants) then process
      else modifyIntent (set_Finalizers (Finalizers o ++ [NetworkIntentFinalizer constants])) ;;!
           let! r := safeUpdate in
           match r with
           | Some e => mret (failed (10 * Second) ("failed to add finalizer: " +:+ e))
           | None => mret (requeue Second)
           end
  end.

(** [Reconcile] *)
Definition Reconcile : prog Answer Outcome :=
  Vis CtxDone (λ e,
  match e with
  | Some e => Ret (failed 0 e)
  | None =>
      Vis Get (λ r,
      match r with
      | Err NotFound => Ret ok
      | Err (OtherError e) => Ret (failed Minute ("failed to fetch NetworkIntent: " +:+ e))
      | Ok o => pbind (handle (mkLocal o newProcessingContext)) (λ '(r, _), Ret r)
      end)
  end).

End reconciler.
