(* ===== verification/IntentInvariants.v ===== *)
(** * IntentInvariants: what a pass of the reconciler does

    The proof rules of [Effects] for the monad of [IntentReconciler], what is
    assumed of the answers, what is claimed of the calls, and the proof that every
    handler makes only such calls and never panics. *)

From stdpp Require Import pretty.
From S2P Require Import Prelude GoStrings GoFormat Effects IntentTypes IntentPlanning IntentReconciler.
Local Open Scope Z_scope.

(** ** Versions of an intent *)

(** Each phase's condition holds only if the one before it does. *)
Definition in_order (o : NetworkIntent) : Prop :=
  (holds o "ResourcesPlanned" -> holds o "Processed") /\
  (holds o "ManifestsGenerated" -> holds o "ResourcesPlanned") /\
  (holds o "GitOpsCommitted" -> holds o "ManifestsGenerated") /\
  (holds o "DeploymentVerified" -> holds o "GitOpsCommitted").

Definition all_hold (o : NetworkIntent) : Prop :=
  holds o "Processed" /\ holds o "ResourcesPlanned" /\ holds o "ManifestsGenerated" /\
  holds o "GitOpsCommitted" /\ holds o "DeploymentVerified".

Definition completed_ok (o : NetworkIntent) : Prop := Phase (Status o) = "Completed" -> all_hold o.

(** No retry count is kept. *)
Definition retry_free (o : NetworkIntent) : Prop := forall op, Annotations o !! retryCountKey op = None.

(** A condition that says the retries are used up. *)
Definition gives_up (c : Condition) : Prop :=
  Reason c = "LLMProcessingFailedMaxRetries" \/ Reason c = "GitCommitFailedMaxRetries".

(** A condition that says the manifests were committed. *)
Definition says_committed (c : Condition) : Prop := Reason c = "GitCommitSucceeded".

(** ** Calls so far *)

Abbreviation trace := (list (event Answer)).

Definition got (e : event Answer) : option NetworkIntent :=
  match e with
  | Ev Get (Ok o) => Some o
  | _ => None
  end.

(** The version the pass started from: the first answer to [Get]. *)
Fixpoint fetched (t : trace) : option NetworkIntent :=
  match t with
  | [] => None
  | e :: t => match fetched t with Some o => Some o | None => got e end
  end.

(** A commit of files that was accepted. *)
Definition committed_by (e : event Answer) : Prop :=
  match e with
  | Ev (CommitAndPush files _) (Ok _) => files <> ∅
  | _ => False
  end.

(** A commit without files that was accepted. *)
Definition cleaned_by (e : event Answer) : Prop :=
  match e with
  | Ev (CommitAndPush files _) (Ok _) => files = ∅
  | _ => False
  end.

Definition inherited_by (e : event Answer) : Prop :=
  exists o, got e = Some o /\ Exists says_committed (Conditions (Status o)).

Definition committed (t : trace) : Prop := Exists committed_by t.
Definition cleaned (t : trace) : Prop := Exists cleaned_by t.
Definition inherited (t : trace) : Prop := Exists inherited_by t.

(** ** What is assumed of answers *)

(** The object in memory after a write that was accepted. *)
Definition written (o o' : NetworkIntent) : Prop :=
  Status o' = Status o /\ Namespace o' = Namespace o /\ Name o' = Name o /\ (retry_free o -> retry_free o').

Definition assume (t : trace) (c : Call) : Answer c -> Prop :=
  match c with
  | Get => λ r, forall o, r = Ok o ->
      in_order o /\ completed_ok o /\ retry_free o /\ Forall (λ c, ~ gives_up c) (Conditions (Status o))
  | UpdateStatus o => λ r, forall o', r = Ok o' -> written o o'
  | Jitter d => λ j, jitter_of d j
  | CommitAndPush _ _ => λ r, forall h, r = Ok h -> (8 <= String.length h)%nat
  | _ => λ _, True
  end.

Section claims.
Context (deps : Dependencies) (config : Config) (constants : Constants).

(** ** What is claimed of calls *)

Definition status_claim (t : trace) (o : NetworkIntent) : Prop :=
  in_order o /\ completed_ok o /\ Forall (λ c, ~ gives_up c) (Conditions (Status o)) /\
  (Exists says_committed (Conditions (Status o)) -> committed t \/ inherited t).

Definition commit_claim (t : trace) (files : gmap string string) : Prop :=
  files <> ∅ -> exists o, fetched t = Some o /\ holds o "ResourcesPlanned" = false /\
    forall p, is_Some (files !! p) -> HasPrefix p (basePath config o +:+ "/") = true.

Definition update_claim (t : trace) (o : NetworkIntent) : Prop :=
  exists o0, fetched t = Some o0 /\ Annotations o = Annotations o0 /\
    (forall f, f ∈ Finalizers o0 -> f ∈ Finalizers o \/ f = NetworkIntentFinalizer constants /\ cleaned t).

Definition claim (t : trace) (c : Call) : Prop :=
  match c with
  | UpdateStatus o => status_claim t o
  | CommitAndPush files _ => commit_claim t files
  | Update o => update_claim t o
  | _ => True
  end.

(** ** Rules for the monad *)

Definition wpM {A} (m : M A) (Q : A -> Local -> trace -> Prop) (l : Local) (t : trace) : Prop :=
  wp assume claim (m l) (λ r t, Q r.1 r.2 t) t.

Lemma wpM_mono {A} (m : M A) (Q Q' : A -> Local -> trace -> Prop) l t :
  wpM m Q l t -> (forall a l t, Q a l t -> Q' a l t) -> wpM m Q' l t.
Proof. intros H HQ. eapply wp_mono; [| apply H]. intros [a l'] t'. apply HQ. Qed.

Lemma wpM_bind {A B} (m : M A) (f : A -> M B) Q l t :
  wpM m (λ a, wpM (f a) Q) l t -> wpM (let! x := m in f x) Q l t.
Proof. intros H. apply wp_pbind. eapply wp_mono; [| apply H]. by intros [a l'] t'. Qed.

Lemma wpM_seq {A B} (m : M A) (k : M B) Q l t : wpM m (λ _, wpM k Q) l t -> wpM (m ;;! k) Q l t.
Proof. apply wpM_bind. Qed.

Lemma wpM_ret {A} (a : A) Q l t : Q a l t -> wpM (mret a) Q l t.
Proof. done. Qed.

Lemma wpM_getIntent Q l t : Q (networkIntent l) l t -> wpM getIntent Q l t.
Proof. done. Qed.

Lemma wpM_getCtx Q l t : Q (processingCtx l) l t -> wpM getCtx Q l t.
Proof. done. Qed.

Lemma wpM_modifyIntent f Q l t :
  Q tt (mkLocal (f (networkIntent l)) (processingCtx l)) t -> wpM (modifyIntent f) Q l t.
Proof. done. Qed.

Lemma wpM_modifyCtx f Q l t :
  Q tt (mkLocal (networkIntent l) (f (processingCtx l))) t -> wpM (modifyCtx f) Q l t.
Proof. done. Qed.

Lemma wpM_call c Q l t :
  claim t c -> (forall r, assume t c r -> Q r l (Ev c r :: t)) -> wpM (call c) Q l t.
Proof. done. Qed.

(** ** The state during a pass *)

Definition planned (t : trace) : Prop :=
  exists o0, fetched t = Some o0 /\ holds o0 "ResourcesPlanned" = false.

(** The intent in memory and the version it was made of. *)
Definition from_fetched (t : trace) (o : NetworkIntent) : Prop :=
  exists o0, fetched t = Some o0 /\ Namespace o = Namespace o0 /\ Name o = Name o0 /\
    (holds o0 "ResourcesPlanned" -> holds o "ResourcesPlanned").

Record good (t : trace) (o : NetworkIntent) : Prop := {
  good_order : in_order o;
  good_free : retry_free o;
  good_reasons : Forall (λ c, ~ gives_up c) (Conditions (Status o));
  good_says : Exists says_committed (Conditions (Status o)) -> committed t \/ inherited t;
  good_fetched : from_fetched t o
}.

Definition ctx_ok (t : trace) (c : ProcessingContext) : Prop :=
  (Manifests c <> ∅ -> ResourcePlan_ c <> None /\ planned t) /\
  (ResourcePlan_ c <> None -> planned t) /\
  (GitCommitHash c <> "" -> ResourcePlan_ c <> None /\ (8 <= String.length (GitCommitHash c))%nat).

Definition Inv (l : Local) (t : trace) : Prop :=
  good t (networkIntent l) /\ ctx_ok t (processingCtx l) /\ Phase (Status (networkIntent l)) <> "Completed".

Lemma fetched_extend t e o0 : fetched t = Some o0 -> fetched (e :: t) = Some o0.
Proof. simpl. by intros ->. Qed.

Lemma planned_extend t e : planned t -> planned (e :: t).
Proof. intros (o0 & H & Hp). exists o0. by rewrite (fetched_extend t e o0). Qed.

Lemma good_extend t e o : good t o -> good (e :: t) o.
Proof.
  intros [? ? ? Hs (o0 & H & Hf)]. split; try done.
  - intros Hx. destruct (Hs Hx); [left | right]; by right.
  - exists o0. by rewrite (fetched_extend t e o0).
Qed.

Lemma Inv_extend l t e : Inv l t -> Inv l (e :: t).
Proof.
  intros (Hg & (H1 & H2 & H3) & Hp). split_and!; [by apply good_extend | | done].
  split_and!; [| | done].
  - intros H. split; [by apply H1 | by apply planned_extend, H1].
  - intros H. by apply planned_extend, H2.
Qed.

(** Changes of the intent that keep its conditions, names and annotations. *)
Lemma good_same t o o' :
  Conditions (Status o') = Conditions (Status o) -> Namespace o' = Namespace o -> Name o' = Name o ->
  (retry_free o -> retry_free o') -> good t o -> good t o'.
Proof.
  intros Hc Hns Hn Hf [? ? ? ? (o0 & H0 & ? & ? & Hr)]. split.
  - unfold in_order, holds. by rewrite Hc.
  - auto.
  - by rewrite Hc.
  - by rewrite Hc.
  - exists o0. rewrite Hns, Hn. split_and!; try done. unfold holds. by rewrite Hc.
Qed.

Lemma good_written t o o' : written o o' -> good t o -> good t o'.
Proof. intros (Hs & ? & ? & ?). apply good_same; try done. by rewrite Hs. Qed.

Lemma Forall_update (P : Condition -> Prop) l c : Forall P l -> P c -> Forall P (UpdateCondition l c).
Proof.
  intros Hl Hc. induction Hl as [| d l Hd Hl IH]; simpl; [by repeat constructor |].
  destruct (String.eqb _ _); by constructor.
Qed.

Lemma Exists_update (P : Condition -> Prop) l c : Exists P (UpdateCondition l c) -> Exists P l \/ P c.
Proof.
  induction l as [| d l IH]; simpl; [rewrite Exists_cons, Exists_nil; tauto |].
  destruct (String.eqb _ _); rewrite !Exists_cons; tauto.
Qed.

(** A condition is set that keeps the order of the phases. *)
Lemma good_update t o c :
  good t o -> ~ gives_up c -> (says_committed c -> committed t) -> in_order (updateCondition c o) ->
  (Type_ c = "ResourcesPlanned" -> Status_ c = ConditionTrue) -> good t (updateCondition c o).
Proof.
  intros [? ? ? Hs (o0 & H0 & ? & ? & Hr)] Hg Hc Ho Hp. split; [done | done | | |].
  - by apply Forall_update.
  - intros [Hx | Hx]%Exists_update; auto.
  - exists o0. split_and!; try done. rewrite holds_update.
    destruct (String.eqb_spec (Type_ c) "ResourcesPlanned") as [E |]; [| done]. by rewrite Hp.
Qed.

(** What is enough to write a status: the claim of a version that is not
    completed. *)
Definition sendable (t : trace) (o : NetworkIntent) : Prop :=
  in_order o /\ Forall (λ c, ~ gives_up c) (Conditions (Status o)) /\
  (Exists says_committed (Conditions (Status o)) -> committed t \/ inherited t) /\ Phase (Status o) <> "Completed".

Lemma sendable_claim t o : sendable t o -> status_claim t o.
Proof. intros (? & ? & ? & Hp). split_and!; try done. Qed.

Lemma sendable_extend t e o : sendable t o -> sendable (e :: t) o.
Proof.
  intros (? & ? & Hs & ?). split_and!; try done. intros Hx. destruct (Hs Hx); [left | right]; by right.
Qed.

Lemma Inv_sendable l t : Inv l t -> sendable t (networkIntent l).
Proof. by intros ([] & _ & ?). Qed.

Definition harmless (reason : string) : Prop :=
  reason ∉ ["LLMProcessingFailedMaxRetries"; "GitCommitFailedMaxRetries"; "GitCommitSucceeded"].

(** [harmless]: the reason is another text. *)
Ltac harmless := let H := fresh in intros H; by in_cases H.

Lemma harmless_condition c : harmless (Reason c) -> ~ gives_up c /\ ~ says_committed c.
Proof. unfold harmless, gives_up, says_committed. rewrite !not_elem_of_cons. tauto. Qed.

Lemma sendable_update t o c :
  sendable t o -> harmless (Reason c) -> in_order (updateCondition c o) -> sendable t (updateCondition c o).
Proof.
  intros (? & ? & Hs & ?) [Hg Hc]%harmless_condition Ho. split_and!; [done | by apply Forall_update | | done].
  intros [Hx | Hx]%Exists_update; [by apply Hs | done].
Qed.

(** [retry_free] goes through the clearing of counts. *)
Lemma retry_free_clear op o : retry_free o -> retry_free (clearNetworkIntentRetryCount op o).
Proof. intros H op'. simpl. by apply lookup_delete_None; right. Qed.

Lemma retry_free_count op o : retry_free o -> getNetworkIntentRetryCount o op = 0.
Proof. intros H. unfold getNetworkIntentRetryCount. by rewrite H. Qed.

(** ** Rules for the shared steps *)

Lemma wpM_safeStatusUpdate Q l t :
  status_claim t (networkIntent l) ->
  (forall o' e, written (networkIntent l) o' -> Q None (mkLocal o' (processingCtx l)) (e :: t)) ->
  (forall m e, Q (Some m) l (e :: t)) ->
  wpM safeStatusUpdate Q l t.
Proof.
  intros Hg H1 H2. unfold safeStatusUpdate. apply wpM_bind, wpM_getIntent, wpM_bind, wpM_call; [done |].
  intros [o' | m] Hr; [| by apply wpM_ret, H2]. apply wpM_seq, wpM_modifyIntent, wpM_ret, H1. by apply Hr.
Qed.

Lemma wpM_setCondition Q ty st reason message l t :
  (forall now e, Q tt (mkLocal (updateCondition (mkCondition ty st reason message now) (networkIntent l)) (processingCtx l)) (e :: t)) ->
  wpM (setCondition ty st reason message) Q l t.
Proof. intros H. unfold setCondition. apply wpM_bind, wpM_call; [done |]. intros now _. apply wpM_modifyIntent, H. Qed.

Lemma wpM_recordEvent Q ty reason message l t :
  Q tt l t -> (forall e, Q tt l (e :: t)) -> wpM (recordEvent deps ty reason message) Q l t.
Proof.
  intros H1 H2. unfold recordEvent. destruct (hasEventRecorder deps); [| done].
  apply wpM_call; [done |]. intros [] _. apply H2.
Qed.

(** ** What the handlers make *)

Context {enc : Encodings} {san : Sanitizer} {rfc : TimeFormat}.
Hypothesis (Hmax : 0 < MaxRetries config).

(** An outcome that lets the pipeline go on has kept the invariant and [R]. *)
Definition post (R : Local -> Prop) (r : Outcome) (l : Local) (t : trace) : Prop :=
  stops r = false -> Inv l t /\ R l.

Lemma post_failed R d e l t : post R (failed d e) l t.
Proof. done. Qed.

Lemma post_requeue R d l t : 0 < d -> post R (requeue d) l t.
Proof. intros Hd. unfold post, stops. simpl. by rewrite (proj2 (Z.ltb_lt 0 d)). Qed.

Lemma post_ok (R : Local -> Prop) l t : Inv l t -> R l -> post R ok l t.
Proof. by intros. Qed.

(** The delay after a failure without earlier ones is positive. *)
Lemma wpM_backoff R op l t :
  wpM (let! d := calculateExponentialBackoffForOperation 0 op in mret (requeue d)) (post R) l t.
Proof.
  apply wpM_bind. unfold calculateExponentialBackoffForOperation. apply wpM_bind, wpM_call; [done |].
  intros j Hj. apply wpM_ret, wpM_ret, post_requeue. apply finalDelay_positive; [lia | done].
Qed.

Lemma in_order_update_other c o :
  Type_ c ∉ ["Processed"; "ResourcesPlanned"; "ManifestsGenerated"; "GitOpsCommitted"; "DeploymentVerified"] ->
  in_order o -> in_order (updateCondition c o).
Proof.
  intros Hc Ho. unfold in_order. rewrite !holds_update.
  rewrite !(proj2 (String.eqb_neq (Type_ c) _)) by (intros E; apply Hc; rewrite E; set_solver). done.
Qed.

Lemma Inv_update c o ctx t :
  harmless (Reason c) -> in_order (updateCondition c o) ->
  (Type_ c = "ResourcesPlanned" -> Status_ c = ConditionTrue) ->
  Inv (mkLocal o ctx) t -> Inv (mkLocal (updateCondition c o) ctx) t.
Proof.
  intros [Hh Hs]%harmless_condition Ho Hr (Hg & Hc & Hp). split_and!; [| done..]. by apply good_update.
Qed.

(** The pass ends after this write, whatever it gives. *)
Lemma wpM_setReadyCondition Q st reason message l t :
  sendable t (networkIntent l) -> harmless reason -> (forall r l t, Q r l t) ->
  wpM (setReadyCondition st reason message) Q l t.
Proof.
  intros HI Hh HQ. unfold setReadyCondition. apply wpM_seq, wpM_setCondition. intros now e.
  apply wpM_safeStatusUpdate; [| by intros.. ]. apply sendable_claim. simpl.
  apply sendable_update; [by apply sendable_extend | done |]. apply in_order_update_other; [set_solver | apply HI].
Qed.

(** A condition that follows the order: what comes before holds, and what comes
    after does not where it is false. *)
Ltac order_tac :=
  unfold in_order in *; rewrite ?holds_update; simpl in *;
  repeat match goal with
  | H : holds _ _ = false |- _ => apply Is_true_false in H
  | H : holds _ _ = true |- _ => apply Is_true_eq_left in H
  end; tauto.

(** One write that sets a condition and goes on whatever it gives. *)
Lemma wpM_set_and_send Q ty st reason message l t :
  Inv l t -> harmless reason ->
  (forall now, in_order (updateCondition (mkCondition ty st reason message now) (networkIntent l))) ->
  (ty = "ResourcesPlanned" -> st = ConditionTrue) ->
  (forall l' t', Inv l' t' -> processingCtx l' = processingCtx l ->
     (forall x, holds (networkIntent l') x = if String.eqb ty x then is_True st else holds (networkIntent l) x) ->
     Q None l' t' /\ forall m, Q (Some m) l' t') ->
  wpM (setCondition ty st reason message ;;! safeStatusUpdate) Q l t.
Proof.
  intros HI Hh Ho Hr HQ. apply wpM_seq, wpM_setCondition. intros now e. destruct l as [o ctx]. simpl in *.
  pose proof (Inv_update (mkCondition ty st reason message now) o ctx (e :: t) Hh (Ho now) Hr (Inv_extend _ _ e HI)) as HI'.
  assert (forall x, holds (updateCondition (mkCondition ty st reason message now) o) x =
    if String.eqb ty x then is_True st else holds o x) as Hx by (intros; apply holds_update).
  pose proof HI' as (Hg & Hc & Hp). apply wpM_safeStatusUpdate; [by eapply sendable_claim, Inv_sendable | |].
  - simpl. intros o' e' Hw. apply HQ; [| done |].
    + destruct (Inv_extend _ _ e' HI') as (Hg' & Hc' & _). split_and!; [by eapply good_written | done |].
      simpl. destruct Hw as (-> & _). done.
    + intros x. unfold holds in *. simpl. destruct Hw as (-> & _). apply Hx.
  - intros m e'. apply HQ; [by apply Inv_extend | done | done].
Qed.

(** *** Phase 1 *)

(** The intent is refused: phase Error, and nothing processed. *)
Definition rejected (l : Local) : Prop :=
  Phase (Status (networkIntent l)) = "Error" /\ holds (networkIntent l) "Processed" = false.

Definition after_llm (l : Local) : Prop := holds (networkIntent l) "Processed" \/ rejected l.

(** A condition is set false and the pass ends with an error. *)
Lemma wpM_fail R ty reason message ready_reason ready d e l t :
  sendable t (networkIntent l) -> harmless reason -> harmless ready_reason ->
  (forall now, in_order (updateCondition (mkCondition ty ConditionFalse reason message now) (networkIntent l))) ->
  wpM (setCondition ty ConditionFalse reason message ;;!
       setReadyCondition ConditionFalse ready_reason ready ;;! mret (failed d e)) (post R) l t.
Proof.
  intros Hs Hh Hr Ho. apply wpM_seq, wpM_setCondition. intros now ev.
  apply wpM_seq, wpM_setReadyCondition; [| done | by intros].
  apply sendable_update; [by apply sendable_extend | done | apply Ho].
Qed.

Lemma wpM_persistErrorPhase Q l t : (forall t, Q tt l t) -> wpM persistErrorPhase Q l t.
Proof.
  intros HQ. unfold persistErrorPhase. apply wpM_bind, wpM_call; [done |]. intros [latest | e] Hr; [| apply wpM_ret, HQ].
  destruct (Hr _ eq_refl) as (Ho & _ & _ & Hg). apply wpM_bind, wpM_call; [| intros; apply wpM_ret, HQ].
  split_and!; [done | by intros ? | done |]. intros Hs. right. apply Exists_cons. left. by exists latest.
Qed.

Lemma wpM_persistLLMFailure Q n e l t :
  sendable t (networkIntent l) -> (forall l t, Q tt l t) -> wpM (persistLLMFailure config n e) Q l t.
Proof.
  intros Hs HQ. unfold persistLLMFailure. apply wpM_bind, wpM_call; [done |]. intros [latest | m] _; [| apply HQ].
  apply wpM_bind, wpM_getIntent, wpM_bind, wpM_call; [done |]. intros now _. apply wpM_bind, wpM_call.
  - apply sendable_claim, sendable_update; [| harmless | apply in_order_update_other; [set_solver | apply Hs]].
    do 2 apply sendable_extend. by destruct Hs as (? & ? & ? & ?).
  - intros [o' | m] _; [apply wpM_modifyIntent | apply wpM_ret]; apply HQ.
Qed.

Lemma wpM_llmFailed R e l t :
  sendable t (networkIntent l) -> holds (networkIntent l) "Processed" = false ->
  wpM (llmFailed deps config 0 e) (post R) l t.
Proof.
  intros Hs Hp. unfold llmFailed. apply wpM_bind, wpM_call; [done |]. intros [] _.
  - apply wpM_seq, wpM_setCondition. intros now ev. apply wpM_seq, wpM_setReadyCondition.
    + apply sendable_update; [by do 2 apply sendable_extend | harmless |].
      destruct Hs as (Ho & _). order_tac.
    + harmless.
    + intros. by apply wpM_seq, wpM_recordEvent; intros; apply wpM_ret.
  - apply wpM_seq, wpM_modifyIntent, wpM_seq, wpM_setCondition. intros now ev.
    apply wpM_seq, wpM_persistLLMFailure.
    + apply sendable_update; [by do 2 apply sendable_extend | harmless |].
      destruct Hs as (Ho & _). order_tac.
    + intros. apply wpM_seq, wpM_recordEvent; intros; apply wpM_backoff.
Qed.

Lemma wpM_llmUnparsable R e l t :
  sendable t (networkIntent l) -> holds (networkIntent l) "Processed" = false ->
  wpM (llmUnparsable 0 e) (post R) l t.
Proof.
  intros Hs Hp. unfold llmUnparsable. apply wpM_seq, wpM_modifyIntent, wpM_seq, wpM_setCondition. intros now ev.
  apply wpM_seq, wpM_modifyIntent, wpM_seq, wpM_setReadyCondition; [| harmless | intros; apply wpM_backoff].
  assert (sendable (ev :: t) (updateCondition (mkCondition "Processed" ConditionFalse "LLMResponseParsingFailed"
    ("Failed to parse LLM response as JSON: " +:+ e) now) (networkIntent l))) as (? & ? & ? & ?)
    by (apply sendable_update; [by apply sendable_extend | harmless | destruct Hs as (Ho & _); order_tac]).
  by split_and!.
Qed.

Lemma in_order_processed o c :
  Type_ c = "Processed" -> Status_ c = ConditionTrue -> in_order o -> in_order (updateCondition c o).
Proof. intros Ht Hs Ho. unfold in_order in *. rewrite !holds_update, Ht, Hs. simpl. tauto. Qed.

(** A write in the middle of a phase. *)
Lemma wpM_send Q l t :
  Inv l t ->
  (forall o' e, Inv (mkLocal o' (processingCtx l)) (e :: t) -> Status o' = Status (networkIntent l) ->
     Q None (mkLocal o' (processingCtx l)) (e :: t)) ->
  (forall m e, Inv l (e :: t) -> Q (Some m) l (e :: t)) ->
  wpM safeStatusUpdate Q l t.
Proof.
  intros HI H1 H2. apply wpM_safeStatusUpdate; [by eapply sendable_claim, Inv_sendable | |].
  - intros o' e Hw. apply H1; [| apply Hw]. destruct (Inv_extend _ _ e HI) as (Hg & Hc & Hp).
    split_and!; [by eapply good_written | done |]. simpl. by destruct Hw as (-> & _).
  - intros m e. by apply H2, Inv_extend.
Qed.

(** Changes of the intent that keep its conditions, phase and names. *)
Lemma Inv_same o' l t :
  Conditions (Status o') = Conditions (Status (networkIntent l)) -> Phase (Status o') <> "Completed" ->
  Namespace o' = Namespace (networkIntent l) -> Name o' = Name (networkIntent l) ->
  (retry_free (networkIntent l) -> retry_free o') -> Inv l t -> Inv (mkLocal o' (processingCtx l)) t.
Proof. intros ? ? ? ? ? (Hg & Hc & Hp). split_and!; [by eapply good_same | done | done]. Qed.

Lemma wpM_llmSucceeded startTime parameters l t :
  Inv l t -> holds (networkIntent l) "Processed" = false ->
  wpM (llmSucceeded deps config startTime parameters) (post after_llm) l t.
Proof.
  intros HI Hp. unfold llmSucceeded. apply wpM_seq, wpM_modifyCtx.
  destruct (marshalMap parameters) as [raw | e]; [| by apply wpM_ret].
  apply wpM_seq, wpM_modifyIntent, wpM_bind, wpM_send; [| | by intros; apply wpM_ret].
  { apply (Inv_same _ (mkLocal (networkIntent l) (set_ExtractedEntities (default ∅ parameters) (processingCtx l))));
      try done; apply HI. }
  intros o1 e1 HI1 Hs1. simpl in Hs1. apply wpM_seq, wpM_modifyIntent, wpM_bind, wpM_call; [done |]. intros t1 _.
  apply wpM_bind, wpM_call; [done |]. intros now _. apply wpM_seq, wpM_modifyIntent, wpM_seq, wpM_modifyIntent.
  apply wpM_bind, wpM_send; [| | by intros; apply wpM_ret].
  - apply Inv_update; [harmless | | done |].
    + destruct HI1 as ([Ho1] & _). apply in_order_processed; [done | done | exact Ho1].
    + do 2 apply Inv_extend.
      apply (Inv_same _ (mkLocal o1 (set_ExtractedEntities (default ∅ parameters) (processingCtx l)))); [done | | done | done | apply retry_free_clear | done].
      simpl. rewrite Hs1. apply HI.
  - intros o2 e2 HI2 Hs2. simpl in Hs2.
    assert (after_llm (mkLocal o2 (set_ExtractedEntities (default ∅ parameters) (processingCtx l)))) as Ha.
    { left. unfold holds. simpl. rewrite Hs2. simpl. by rewrite isConditionTrue_update. }
    apply wpM_seq, wpM_recordEvent; [| intros e3]; apply wpM_ret, post_ok; [done | done | by apply Inv_extend | done].
Qed.

Lemma wpM_inputRejected e l t :
  Inv l t -> holds (networkIntent l) "Processed" = false -> wpM (inputRejected deps e) (post after_llm) l t.
Proof.
  intros HI Hp. unfold inputRejected. apply wpM_seq, wpM_setCondition. intros now ev. apply wpM_seq, wpM_modifyIntent.
  assert (forall l' t', Inv l' t' -> rejected l' -> wpM (recordFailureEvent deps "InputValidationFailed" e ;;! mret ok) (post after_llm) l' t') as Hend.
  { intros l' t' HI' Hr. apply wpM_seq, wpM_recordEvent; [| intros e']; apply wpM_ret, post_ok; try (by right); [done |].
    by apply Inv_extend. }
  destruct l as [o ctx]. simpl.
  set (c := mkCondition "Validated" ConditionFalse "InputValidationFailed" ("Intent validation failed: " +:+ e) now).
  assert (Inv (mkLocal (on_Status (set_Phase "Error") (updateCondition c o)) ctx) (ev :: t)) as HI1.
  { apply (Inv_same _ (mkLocal (updateCondition c o) ctx)); try done. apply Inv_update; [harmless | | done | by apply Inv_extend].
    apply in_order_update_other; [set_solver | apply HI]. }
  assert (holds (updateCondition c o) "Processed" = false) as Hp1 by (by rewrite holds_update).
  apply wpM_seq, wpM_send; [done | |].
  - intros o' e' HI' Hs'. apply Hend; [done |]. unfold rejected, holds. simpl in *. by rewrite Hs'.
  - intros m e' HI'. apply Hend; [done |]. by split.
Qed.

Lemma wpM_callModel Q intent prompt l t :
  (forall r t', Inv l t' -> Q r l t') -> Inv l t -> wpM (callModel deps intent prompt) Q l t.
Proof.
  intros HQ HI. unfold callModel. apply wpM_bind, wpM_call; [done |]. intros [r | e] _.
  - by apply wpM_ret, HQ, Inv_extend.
  - destruct (String.eqb _ _); [by apply wpM_ret, HQ, Inv_extend |].
    apply wpM_seq, wpM_recordEvent; [| intros e']; apply wpM_ret, HQ; by repeat apply Inv_extend.
Qed.

(** Changes of the context that the invariant does not see. *)
Lemma Inv_ctx ctx' l t :
  Manifests ctx' = Manifests (processingCtx l) -> ResourcePlan_ ctx' = ResourcePlan_ (processingCtx l) ->
  GitCommitHash ctx' = GitCommitHash (processingCtx l) -> Inv l t -> Inv (mkLocal (networkIntent l) ctx') t.
Proof. intros Hm Hr Hg (? & Hc & ?). split_and!; [done | | done]. unfold ctx_ok. simpl. by rewrite Hm, Hr, Hg. Qed.

Lemma wpM_ProcessLLMPhase l t :
  Inv l t -> holds (networkIntent l) "Processed" = false ->
  wpM (ProcessLLMPhase deps config) (post after_llm) l t.
Proof.
  intros HI Hp. unfold ProcessLLMPhase. apply wpM_bind, wpM_call; [done |]. intros start _.
  apply wpM_bind, wpM_getIntent, wpM_seq, wpM_modifyCtx, wpM_seq, wpM_modifyCtx.
  apply (Inv_extend _ _ (Ev Now start)) in HI.
  rewrite retry_free_count by apply HI. rewrite (proj2 (Z.leb_gt _ _)) by done.
  apply (Inv_ctx (set_IntentType (extractIntentType (Intent (networkIntent l))) (set_CurrentPhase "LLMProcessing" (processingCtx l))))
    in HI; try done. destruct l as [o ctx]. simpl in *.
  destruct (negb (hasLLMClient deps)).
  { apply wpM_fail; [by apply Inv_sendable in HI | harmless | harmless |].
    intros now. destruct HI as ([Ho] & _). simpl in *. order_tac. }
  destruct (SanitizeInput (Intent o)) as [sanitized | e]; [| by apply wpM_inputRejected].
  destruct (buildTelecomEnhancedPrompt (TelecomKnowledgeBase deps) sanitized) as [telecom prompt].
  apply wpM_seq, wpM_modifyCtx. simpl.
  apply (Inv_ctx (set_TelecomContext telecom (set_IntentType (extractIntentType (Intent o)) (set_CurrentPhase "LLMProcessing" ctx))))
    in HI; try done. simpl in HI.
  apply wpM_bind, wpM_callModel; [| done]. intros [result | e] t' HI'.
  - destruct (ValidateOutput result) as [output | e].
    + destruct (unmarshalMap output) as [parameters | e]; [by apply wpM_llmSucceeded |].
      apply wpM_llmUnparsable; [by apply Inv_sendable in HI' | done].
    + apply wpM_seq, wpM_setCondition. intros now ev. apply wpM_seq, wpM_setReadyCondition; [| harmless |].
      * apply sendable_update; [by apply Inv_sendable, Inv_extend | harmless |].
        destruct HI' as ([Ho] & _). simpl in *. order_tac.
      * intros. apply wpM_seq, wpM_recordEvent; intros; by apply wpM_ret.
  - apply wpM_llmFailed; [by apply Inv_sendable in HI' | done].
Qed.

(** *** Phases 2 to 5 *)

Definition now_holds (ty : string) (l : Local) : Prop := holds (networkIntent l) ty.

(** A phase that ends by setting its condition: the status must be written. *)
Lemma wpM_settle ty reason message ev_reason ev_message l t :
  Inv l t -> harmless reason ->
  (forall now, in_order (updateCondition (mkCondition ty ConditionTrue reason message now) (networkIntent l))) ->
  wpM (setCondition ty ConditionTrue reason message ;;!
       let! r := safeStatusUpdate in
       match r with
       | Some e => mret (failed (10 * Second) ("failed to update status: " +:+ e))
       | None => recordEvent deps "Normal" ev_reason ev_message ;;! mret ok
       end) (post (now_holds ty)) l t.
Proof.
  intros HI Hh Ho. apply wpM_seq, wpM_setCondition. intros now e. destruct l as [o ctx]. simpl in *.
  apply wpM_bind, wpM_send; [by apply Inv_update, Inv_extend | | by intros; apply wpM_ret].
  intros o' e' HI' Hs. simpl in *.
  assert (now_holds ty (mkLocal o' ctx)) as Hn.
  { unfold now_holds, holds. simpl. rewrite Hs. simpl. by rewrite isConditionTrue_update, String.eqb_refl. }
  apply wpM_seq, wpM_recordEvent; [| intros e3]; apply wpM_ret, post_ok; [done | done | by apply Inv_extend | done].
Qed.

(** The same when a failed write is only logged. *)
Lemma wpM_settle_anyway ty reason message l t :
  Inv l t -> harmless reason ->
  (forall now, in_order (updateCondition (mkCondition ty ConditionTrue reason message now) (networkIntent l))) ->
  wpM (setCondition ty ConditionTrue reason message ;;! safeStatusUpdate ;;! mret ok) (post (now_holds ty)) l t.
Proof.
  intros HI Hh Ho. apply wpM_seq, wpM_setCondition. intros now e. destruct l as [o ctx]. simpl in *.
  assert (isConditionTrue (UpdateCondition (Conditions (Status o)) (mkCondition ty ConditionTrue reason message now)) ty) as Hn
    by (by rewrite isConditionTrue_update, String.eqb_refl).
  apply wpM_seq, wpM_send; [by apply Inv_update, Inv_extend | |].
  - intros o' e' HI' Hs. simpl in *. apply wpM_ret, post_ok; [done |]. unfold now_holds, holds. simpl. by rewrite Hs.
  - intros m e' HI'. by apply wpM_ret, post_ok.
Qed.

Lemma wpM_PlanResources l t :
  Inv l t -> due "Processed" "ResourcesPlanned" (networkIntent l) = true ->
  wpM (PlanResources deps config) (post (now_holds "ResourcesPlanned")) l t.
Proof.
  intros HI [Hp Hr%negb_true_iff]%andb_true_iff. unfold PlanResources.
  apply wpM_seq, wpM_modifyCtx, wpM_bind, wpM_getIntent, wpM_bind, wpM_getCtx.
  apply (Inv_ctx (set_CurrentPhase "ResourcePlanning" (processingCtx l))) in HI; try done.
  destruct l as [o ctx]. simpl in *.
  match goal with |- context [match ?x with Ok _ => _ | Err _ => _ end] => destruct x as [params | e] end.
  2:{ apply wpM_seq, wpM_setReadyCondition; [by apply Inv_sendable in HI | harmless | by intros]. }
  set (plan := planResources _ _ _). apply wpM_seq, wpM_modifyCtx. simpl.
  destruct (json_MarshalPlan plan) as [data | e]; [| by apply wpM_ret].
  apply wpM_seq, wpM_modifyIntent. simpl.
  assert (planned t) as Hpl.
  { destruct HI as ([_ _ _ _ (o0 & H0 & _ & _ & Hm)] & _). exists o0. split; [done |].
    simpl in Hm. rewrite Hr in Hm. destruct (holds o0 "ResourcesPlanned"); [by destruct Hm | done]. }
  assert (Inv (mkLocal (on_Status (set_Extension "resourcePlan" data) o)
    (set_ResourcePlan plan (set_CurrentPhase "ResourcePlanning" ctx))) t) as HI2.
  { apply (Inv_same _ (mkLocal o _)); try done; [apply HI |]. destruct HI as (Hg & (Hc1 & Hc2 & Hc3) & Hph).
    split_and!; [done | | done]. simpl in *. split_and!; [| done |]; intros Hx; (split; [done |]); naive_solver. }
  apply wpM_settle; [done | harmless |]. intros now. destruct HI as ([Ho] & _). simpl in *. order_tac.
Qed.

Lemma wpM_GenerateManifests l t :
  Inv l t -> due "ResourcesPlanned" "ManifestsGenerated" (networkIntent l) = true ->
  wpM (GenerateManifests deps config) (post (now_holds "ManifestsGenerated")) l t.
Proof.
  intros HI [Hp Hr%negb_true_iff]%andb_true_iff. unfold GenerateManifests.
  apply wpM_seq, wpM_modifyCtx, wpM_bind, wpM_getIntent, wpM_bind, wpM_getCtx.
  apply (Inv_ctx (set_CurrentPhase "ManifestGeneration" (processingCtx l))) in HI; try done.
  destruct l as [o ctx]. simpl in *. destruct (ResourcePlan_ ctx) as [plan |] eqn:Epl.
  2:{ apply wpM_seq, wpM_setReadyCondition; [by apply Inv_sendable in HI | harmless | by intros]. }
  destruct (manifestsOf o plan) as [manifests | e]; [| by apply wpM_ret].
  apply wpM_seq, wpM_modifyCtx. simpl. apply wpM_settle; [| harmless |].
  - destruct HI as (Hg & (Hc1 & Hc2 & Hc3) & Hph). split_and!; [done | | done].
    simpl in *. unfold ctx_ok. simpl. rewrite Epl in *. naive_solver.
  - intros now. destruct HI as ([Ho] & _). simpl in *. order_tac.
Qed.

Lemma wpM_VerifyDeployment l t :
  Inv l t -> due "GitOpsCommitted" "DeploymentVerified" (networkIntent l) = true ->
  wpM (VerifyDeployment deps) (post (now_holds "DeploymentVerified")) l t.
Proof.
  intros HI [Hp Hr%negb_true_iff]%andb_true_iff. unfold VerifyDeployment.
  apply wpM_seq, wpM_modifyCtx, wpM_bind, wpM_getCtx.
  apply (Inv_ctx (set_CurrentPhase "DeploymentVerification" (processingCtx l))) in HI; try done.
  destruct l as [o ctx]. simpl in *.
  assert (forall reason message now, in_order (updateCondition (mkCondition "DeploymentVerified" ConditionTrue reason message now) o)) as Ho'
    by (intros; destruct HI as ([Ho] & _); simpl in *; order_tac).
  destruct (String.eqb_spec (GitCommitHash ctx) "") as [E | E].
  - by apply wpM_settle_anyway; [done | harmless | intros; apply Ho'].
  - destruct HI as (Hg & (Hc1 & Hc2 & Hc3) & Hph). simpl in *. destruct (Hc3 E) as [Hplan Hlen].
    unfold short. rewrite (proj2 (Nat.leb_le _ _)) by done. destruct (ResourcePlan_ ctx) as [plan |] eqn:Epl; [| done].
    apply wpM_settle; [| harmless | intros; apply Ho']. split_and!; [done | | done]. simpl. unfold ctx_ok. simpl. by rewrite Epl.
Qed.

#[local] Instance path_inj o : Inj (=) (=) (λ filename, basePath config o +:+ "/" +:+ filename).
Proof. intros a b H. by do 2 apply (inj (String.append _)) in H. Qed.

Lemma deploymentFiles_empty o m : deploymentFiles config o m = ∅ -> m = ∅.
Proof. unfold deploymentFiles. by rewrite kmap_empty_iff by apply _. Qed.

Lemma deploymentFiles_path o m p :
  is_Some (deploymentFiles config o m !! p) -> HasPrefix p (basePath config o +:+ "/") = true.
Proof.
  unfold deploymentFiles. rewrite lookup_kmap_is_Some by apply _. intros (f & -> & _). apply HasPrefix_spec.
  exists f. symmetry. apply append_assoc.
Qed.

Lemma wpM_gitFailed R reason message ready l t :
  sendable t (networkIntent l) -> harmless reason -> holds (networkIntent l) "DeploymentVerified" = false ->
  wpM (gitFailed 0 reason message ready) (post R) l t.
Proof.
  intros Hs Hh Hd. unfold gitFailed. apply wpM_seq, wpM_modifyIntent, wpM_seq, wpM_setCondition. intros now ev.
  apply wpM_seq, wpM_setReadyCondition; [| done | intros; apply wpM_backoff].
  apply sendable_update; [by apply sendable_extend | done |]. destruct Hs as (Ho & _). order_tac.
Qed.

Lemma short_some h : (8 <= String.length h)%nat -> exists h8, short h = Some h8.
Proof. intros H. unfold short. rewrite (proj2 (Nat.leb_le _ _)) by done. eauto. Qed.

Lemma wpM_commitSucceeded files h l t :
  Inv l t -> committed t -> ResourcePlan_ (processingCtx l) <> None -> (8 <= String.length h)%nat ->
  holds (networkIntent l) "ManifestsGenerated" ->
  wpM (commitSucceeded deps files h) (post (now_holds "GitOpsCommitted")) l t.
Proof.
  intros HI Hc Hplan Hh Hm. unfold commitSucceeded. destruct (short_some h Hh) as [h8 ->].
  apply wpM_seq, wpM_modifyCtx, wpM_seq, wpM_modifyIntent, wpM_bind, wpM_call; [done |]. intros now _.
  do 3 apply wpM_seq, wpM_modifyIntent. destruct l as [o ctx]. simpl in *.
  set (o1 := on_Status _ _).
  assert (Inv (mkLocal o1 (set_GitCommitHash h ctx)) (Ev Now now :: t)) as HI1.
  { apply (Inv_same _ (mkLocal o (set_GitCommitHash h ctx))); try done; [apply HI | apply retry_free_clear |].
    apply Inv_extend. destruct HI as (Hg & (Hc1 & Hc2 & Hc3) & Hph). split_and!; [done | | done].
    split_and!; [done | done |]. by intros _. }
  apply wpM_bind, wpM_send.
  - destruct HI1 as (Hg & Hctx & Hph). split_and!; [| done | done]. apply good_update; [done | | | | done].
    + by intros [? | ?].
    + intros _. by right.
    + destruct Hg as [Ho]. assert (holds o1 "ManifestsGenerated") as Hm1 by exact Hm. order_tac.
  - intros o' e' HI' Hs. simpl in *.
    assert (now_holds "GitOpsCommitted" (mkLocal o' (set_GitCommitHash h ctx))) as Hn.
    { unfold now_holds, holds. simpl. rewrite Hs. simpl. by rewrite isConditionTrue_update. }
    apply wpM_seq, wpM_recordEvent; [| intros e3]; apply wpM_ret, post_ok; [done | done | by apply Inv_extend | done].
  - by intros; apply wpM_ret.
Qed.

Lemma wpM_CommitToGitOps l t :
  Inv l t -> due "ManifestsGenerated" "GitOpsCommitted" (networkIntent l) = true ->
  wpM (CommitToGitOps deps config) (post (now_holds "GitOpsCommitted")) l t.
Proof.
  intros HI [Hp%Is_true_eq_left Hr%negb_true_iff]%andb_true_iff. unfold CommitToGitOps.
  apply wpM_seq, wpM_modifyCtx, wpM_bind, wpM_getIntent, wpM_bind, wpM_getCtx.
  apply (Inv_ctx (set_CurrentPhase "GitOpsCommit" (processingCtx l))) in HI; try done.
  destruct l as [o ctx]. simpl in *. destruct (decide (Manifests ctx = ∅)) as [Hm | Hm].
  { apply wpM_settle_anyway; [done | harmless |]. intros now. destruct HI as ([Ho] & _). simpl in *. order_tac. }
  destruct (negb (hasGitClient deps)); [by apply wpM_ret |].
  rewrite retry_free_count by apply HI. rewrite (proj2 (Z.leb_gt _ _)) by done.
  assert (holds o "DeploymentVerified" = false) as Hd.
  { destruct HI as ([(_ & _ & _ & Ho)] & _). simpl in Ho. rewrite Hr in Ho. destruct (holds o "DeploymentVerified"); [by destruct Ho | done]. }
  apply wpM_bind, wpM_call; [done |]. intros [u | e] _.
  2:{ apply wpM_gitFailed; [by apply sendable_extend; apply Inv_sendable in HI | harmless | done]. }
  destruct (proj1 (proj1 (proj2 HI)) Hm) as [Hplan (o0 & Hf0 & Hp0)]. simpl in Hplan.
  destruct (ResourcePlan_ ctx) as [plan |] eqn:Epl; [| done]. apply wpM_bind, wpM_call.
  { intros _. exists o0. split_and!; [by apply fetched_extend | done |].
    intros p Hx%deploymentFiles_path. destruct HI as ([_ _ _ _ (o0' & Hf0' & Hns & Hn & _)] & _).
    simpl in *. rewrite Hf0 in Hf0'. simplify_eq. unfold basePath in *. by rewrite <- Hns, <- Hn. }
  intros [h | e] Hh.
  - apply wpM_commitSucceeded; [by do 2 apply Inv_extend | | simpl; by rewrite Epl | by apply Hh | done].
    left. simpl. by intros Hx%deploymentFiles_empty.
  - apply wpM_gitFailed; [by do 2 apply sendable_extend; apply Inv_sendable in HI | harmless | done].
Qed.

(** *** The pipeline *)

Lemma wpM_updatePhase Q phase l t :
  Inv l t -> phase <> "Completed" ->
  (forall l' t', Inv l' t' -> Conditions (Status (networkIntent l')) = Conditions (Status (networkIntent l)) ->
     processingCtx l' = processingCtx l -> Q None l' t') ->
  (forall m l' t', Q (Some m) l' t') ->
  wpM (updatePhase phase) Q l t.
Proof.
  intros HI Hp H1 H2. unfold updatePhase. apply wpM_seq, wpM_modifyIntent, wpM_bind, wpM_call; [done |]. intros now _.
  apply wpM_seq, wpM_modifyIntent, wpM_send; [| | by intros].
  - apply (Inv_same _ l); try done. by apply Inv_extend.
  - intros o' e HI' Hs. apply H1; [done | | done]. simpl in *. by rewrite Hs.
Qed.

(** A phase and what follows it. *)
Lemma wpM_runPhase guard phase what (process rest : M Outcome) (R R' : Local -> Prop) l t :
  Inv l t -> phase <> "Completed" ->
  (forall o o', Conditions (Status o') = Conditions (Status o) -> guard o' = guard o) ->
  (forall l t, Inv l t -> guard (networkIntent l) = true -> wpM process (post R) l t) ->
  (forall l t, Inv l t -> R l -> wpM rest (post R') l t) ->
  (guard (networkIntent l) = false -> R l) ->
  wpM (runPhase guard phase what process rest) (post R') l t.
Proof.
  intros HI Hp Hg Hproc Hrest Hskip. unfold runPhase. apply wpM_bind, wpM_getIntent.
  destruct (guard (networkIntent l)) eqn:E; [| by apply Hrest, Hskip].
  apply wpM_bind, wpM_updatePhase; [done | done | | by intros; apply wpM_ret].
  intros l' t' HI' Hc _. apply wpM_bind. eapply wpM_mono.
  - apply Hproc; [done |]. by rewrite (Hg (networkIntent l)).
  - intros r l2 t2 Hpost. simpl. destruct (stops r) eqn:Es.
    + apply wpM_ret. intros Hs. congruence.
    + destruct (Hpost Es). by apply Hrest.
Qed.

Definition done_or_rejected (l : Local) : Prop :=
  Phase (Status (networkIntent l)) = "Error" \/ all_hold (networkIntent l).

Lemma due_ext before this o o' :
  Conditions (Status o') = Conditions (Status o) -> due before this o' = due before this o.
Proof. intros H. unfold due, holds. by rewrite H. Qed.

(** What follows the refusal of an intent, or a phase that holds. *)
Definition upto (ty : string) (l : Local) : Prop := rejected l \/ now_holds ty l.

Lemma upto_next before this l :
  upto before l -> due before this (networkIntent l) = false -> upto this l.
Proof.
  intros [Hr | Hb] Hd; [by left |]. right. unfold now_holds, due in *.
  rewrite (Is_true_eq_true _ Hb) in Hd. by destruct (holds (networkIntent l) this).
Qed.

(** A phase in the chain. *)
Lemma wpM_chain before this phase what (process rest : M Outcome) l t :
  Inv l t -> upto before l -> phase <> "Completed" ->
  (forall l t, Inv l t -> due before this (networkIntent l) = true -> wpM process (post (now_holds this)) l t) ->
  (forall l t, Inv l t -> upto this l -> wpM rest (post done_or_rejected) l t) ->
  wpM (runPhase (due before this) phase what process rest) (post done_or_rejected) l t.
Proof.
  intros HI Hu Hp Hproc Hrest. apply (wpM_runPhase _ _ _ _ _ (upto this)); try done.
  - apply due_ext.
  - intros l' t' HI' Hg. eapply wpM_mono; [by apply Hproc |]. intros r l2 t2 Hpost Hs. destruct (Hpost Hs). split; [done | by right].
  - by eapply upto_next.
Qed.

Lemma wpM_phase5 l t : Inv l t -> upto "GitOpsCommitted" l -> wpM (phase5 deps) (post done_or_rejected) l t.
Proof.
  intros HI Hu. apply wpM_chain; [done | done | done | apply wpM_VerifyDeployment |].
  intros l' t' HI' Hu'. apply wpM_ret, post_ok; [done |]. destruct Hu' as [[? _] | Hd]; [by left | right].
  destruct HI' as ([Ho] & _). unfold in_order, all_hold, now_holds in *. tauto.
Qed.

Lemma wpM_phase4 l t : Inv l t -> upto "ManifestsGenerated" l -> wpM (phase4 deps config) (post done_or_rejected) l t.
Proof. intros HI Hu. apply wpM_chain; [done | done | done | apply wpM_CommitToGitOps | apply wpM_phase5]. Qed.

Lemma wpM_phase3 l t : Inv l t -> upto "ResourcesPlanned" l -> wpM (phase3 deps config) (post done_or_rejected) l t.
Proof. intros HI Hu. apply wpM_chain; [done | done | done | apply wpM_GenerateManifests | apply wpM_phase4]. Qed.

Lemma wpM_phase2 l t : Inv l t -> upto "Processed" l -> wpM (phase2 deps config) (post done_or_rejected) l t.
Proof. intros HI Hu. apply wpM_chain; [done | done | done | apply wpM_PlanResources | apply wpM_phase3]. Qed.

Lemma wpM_phase1 l t : Inv l t -> wpM (phase1 deps config) (post done_or_rejected) l t.
Proof.
  intros HI. apply (wpM_runPhase _ _ _ _ _ (upto "Processed")); [done | done | | | apply wpM_phase2 |].
  - intros o o' H. unfold holds. by rewrite H.
  - intros l' t' HI' Hg%negb_true_iff. eapply wpM_mono; [by apply wpM_ProcessLLMPhase |].
    intros r l2 t2 Hpost Hs. destruct (Hpost Hs) as [? [? | ?]]; (split; [done |]); [by right | by left].
  - intros Hg%negb_false_iff. right. by apply Is_true_eq_left.
Qed.

(** The bypass writes phase Processed, the condition, and nothing else. *)
Definition finished (l : Local) : Prop := Phase (Status (networkIntent l)) = "Processed" \/ done_or_rejected l.

Lemma wpM_executeProcessingPipeline l t :
  Inv l t -> wpM (executeProcessingPipeline deps config) (post finished) l t.
Proof.
  intros HI. unfold executeProcessingPipeline. apply wpM_bind, wpM_call; [done |]. intros v _.
  destruct (String.eqb v "false").
  - unfold bypass. apply wpM_seq, wpM_setCondition. intros now e. apply wpM_seq, wpM_modifyIntent. destruct l as [o ctx]. simpl.
    assert (Inv (mkLocal (updateCondition (mkCondition "Processed" ConditionTrue "LLMBypassed"
      "LLM processing disabled; intent accepted directly without LLM enrichment" now) o) ctx) (e :: Ev (Getenv "ENABLE_LLM_INTENT") v :: t)) as HI1.
    { apply Inv_update; [harmless | | done | by do 2 apply Inv_extend]. apply in_order_processed; [done | done | apply HI]. }
    apply wpM_seq, wpM_send.
    + match type of HI1 with Inv ?l _ => by apply (Inv_same _ l) end.
    + intros o' e' HI' Hs. apply wpM_ret, post_ok; [done |]. left. simpl in *. by rewrite Hs.
    + intros m e' HI'. apply wpM_ret, post_ok; [done |]. by left.
  - eapply wpM_mono; [by apply wpM_phase1, Inv_extend |]. intros r l' t' Hpost Hs. destruct (Hpost Hs). split; [done | by right].
Qed.

(** *** The pass *)

Lemma wpM_finish l t :
  Inv l t -> all_hold (networkIntent l) -> wpM (finish deps) (λ _ _ _, True) l t.
Proof.
  intros HI Ha. unfold finish, updatePhase. apply wpM_bind, wpM_seq, wpM_modifyIntent, wpM_bind, wpM_call; [done |]. intros now _.
  apply (Inv_extend _ _ (Ev Now now)) in HI. destruct HI as ([Ho Hf Hr Hs Hff] & _). destruct l as [o ctx]. simpl in *.
  apply wpM_seq, wpM_modifyIntent, wpM_safeStatusUpdate; [| | by intros; apply wpM_ret].
  { split; [exact Ho |]. split; [intros _; exact Ha | by split]. }
  intros o' e (Hst & _). simpl in *. unfold setReadyCondition. apply wpM_seq, wpM_seq, wpM_setCondition. intros now' e'.
  assert (status_claim (e' :: e :: Ev Now now :: t) o') as (Ho1 & Hc1 & Hr1 & Hs1).
  { unfold status_claim, in_order, completed_ok, all_hold, holds in *. rewrite Hst. simpl.
    split; [exact Ho |]. split; [intros _; exact Ha |]. split; [exact Hr |]. intros Hx. destruct (Hs Hx); [left | right]; by do 2 right. }
  apply wpM_safeStatusUpdate; simpl.
  - set (c := mkCondition "Ready" _ _ _ _). split_and!; [by apply in_order_update_other; [set_solver |] | | |].
    + intros _. unfold all_hold. rewrite !holds_update. simpl. apply Hc1. by rewrite Hst.
    + apply Forall_update; [done |]. by intros [? | ?].
    + intros [Hx | Hx]%Exists_update; [by apply Hs1 | done].
  - intros. apply wpM_seq, wpM_recordEvent; intros; by apply wpM_ret.
  - intros. apply wpM_seq, wpM_recordEvent; intros; by apply wpM_ret.
Qed.

Lemma wpM_conclude result l t :
  post finished result l t -> wpM (conclude deps result) (λ _ _ _, True) l t.
Proof.
  intros Hpost. unfold conclude. apply wpM_bind, wpM_getIntent. unfold post, stops in Hpost.
  destruct (error result) as [e |].
  { apply wpM_seq, wpM_recordEvent; intros; apply wpM_seq, wpM_persistErrorPhase; intros; by apply wpM_ret. }
  destruct (0 <? RequeueAfter result).
  { apply wpM_seq. destruct (String.eqb _ _); [apply wpM_persistErrorPhase; intros |]; by apply wpM_ret. }
  destruct (Hpost eq_refl) as [HI Hf].
  destruct (String.eqb_spec (Phase (Status (networkIntent l))) "Error") as [E | E]; [by apply wpM_ret |].
  destruct (String.eqb_spec (Phase (Status (networkIntent l))) "Processed") as [E' | E']; [by apply wpM_ret |].
  apply wpM_finish; [done |]. by destruct Hf as [? | [? | ?]].
Qed.

Lemma isProcessingComplete_all o : Phase (Status o) = "Completed" -> all_hold o -> isProcessingComplete o = true.
Proof.
  intros Hp (H1 & H2 & H3 & H4 & H5). unfold isProcessingComplete. rewrite Hp.
  by rewrite (Is_true_eq_true _ H1), (Is_true_eq_true _ H2), (Is_true_eq_true _ H3), (Is_true_eq_true _ H4), (Is_true_eq_true _ H5).
Qed.

(** A version as the cluster is assumed to return it. *)
Definition version_ok (o : NetworkIntent) : Prop :=
  in_order o /\ completed_ok o /\ retry_free o /\ Forall (λ c, ~ gives_up c) (Conditions (Status o)).

Lemma wpM_process o t :
  version_ok o -> fetched t = Some o -> (Exists says_committed (Conditions (Status o)) -> inherited t) ->
  wpM (process deps config) (λ _ _ _, True) (mkLocal o newProcessingContext) t.
Proof.
  intros (Ho & Hc & Hf & Hr) Ht Hin. unfold process. apply wpM_seq, wpM_modifyIntent, wpM_bind, wpM_getIntent. simpl.
  set (o1 := on_Status (set_ObservedGeneration (Generation o)) o).
  destruct (isProcessingComplete o1) eqn:Ec; [by apply wpM_ret |].
  assert (Inv (mkLocal o1 newProcessingContext) t) as HI.
  { split_and!.
    - split; [done | done | done | by intros Hx; right; apply Hin |]. by exists o.
    - unfold ctx_ok. simpl. split_and!; by intros.
    - simpl. intros E. rewrite isProcessingComplete_all in Ec; [done | done |]. by apply Hc. }
  apply wpM_bind. eapply wpM_mono; [by apply wpM_executeProcessingPipeline |]. intros. by apply wpM_conclude.
Qed.

Lemma wpM_reconcileDelete o t :
  fetched t = Some o -> wpM (reconcileDelete deps constants) (λ _ _ _, True) (mkLocal o newProcessingContext) t.
Proof.
  intros Ht. unfold reconcileDelete, CleanupGitOpsResources. apply wpM_bind, wpM_bind, wpM_getIntent.
  destruct (negb (hasGitClient deps)); [by do 2 apply wpM_ret |].
  apply wpM_bind, wpM_call; [done |]. intros [u | e] _; [| by do 2 apply wpM_ret].
  apply wpM_bind, wpM_call; [by intros [] |]. intros [h | e] _; [| by do 2 apply wpM_ret].
  apply wpM_ret, wpM_seq, wpM_modifyIntent. simpl. unfold safeUpdate. apply wpM_bind, wpM_bind, wpM_getIntent, wpM_bind, wpM_call.
  - exists o. split_and!; [by do 2 apply fetched_extend | done |]. intros f Hx. simpl.
    destruct (decide (f = NetworkIntentFinalizer constants)) as [-> | Hne].
    + right. split; [done |]. left. done.
    + left. by apply removeFinalizer_spec.
  - intros [o' | e] _; [apply wpM_seq, wpM_modifyIntent |]; by repeat apply wpM_ret.
Qed.

(** Every call of a pass is as claimed, and none panics. *)
Lemma wp_Reconcile : wp assume claim (Reconcile deps config constants) (λ _ _, True) [].
Proof.
  split; [done |]. intros [e | ] _; [done |]. split; [done |]. intros [o | [| e]] Hv; [| done..].
  simpl in Hv. apply wp_pbind, (wp_mono _ _ _ (λ _ _, True)); [by intros [] |].
  change (wpM (handle deps config constants) (λ _ _ _, True) (mkLocal o newProcessingContext) [Ev Get (Ok o); Ev CtxDone None]).
  unfold handle. apply wpM_bind, wpM_getIntent. simpl.
  destruct (DeletionTimestamp o); [by apply wpM_reconcileDelete |].
  destruct (containsFinalizer _ _).
  - apply wpM_process; [by apply Hv | done |]. intros Hx. left. by exists o.
  - apply wpM_seq, wpM_modifyIntent, wpM_bind. unfold safeUpdate. apply wpM_bind, wpM_getIntent, wpM_bind, wpM_call.
    + exists o. split_and!; [done | done |]. intros f Hx. left. simpl. set_solver.
    + intros [o' | e] _; [apply wpM_seq, wpM_modifyIntent |]; by repeat apply wpM_ret.
Qed.

End claims.
