(* ===== verification/IntentSystem.v ===== *)
(** * IntentSystem: the reconciler, the cluster and its other clients

    Passes of the reconciler run one after the other against an API server
    whose objects others change as well; a pass may stop anywhere, as when the
    process ends.  Reads may return any version that was stored (the client reads
    through a cache); a write is accepted only if it carries the newest version's
    resourceVersion.  The server and the git remote are the class [Cluster], what
    is known of them its laws. *)

From stdpp Require Import pretty relations.
From S2P Require Import Prelude GoStrings GoFormat Effects IntentTypes IntentPlanning IntentReconciler IntentInvariants.
Local Open Scope Z_scope.

(** ** The cluster *)

Class Cluster := {
  World : Type;
  (* the versions of the intent that were ever stored, newest first *)
  versions : World -> list NetworkIntent;
  (* the files of the commits that reached the remote, newest first *)
  commits : World -> list (gmap string string);
  answers : World -> forall c, Answer c -> World -> Prop;
  (* a step of another client *)
  others : World -> World -> Prop
}.

Definition emptyStatus : NetworkIntentStatus := mkStatus "" zeroTime 0 [] ∅.

Class ClusterLaws (C : Cluster) : Prop := {
  get_law w r w' : answers w Get r w' ->
    versions w' = versions w /\ commits w' = commits w /\ forall o, r = Ok o -> o ∈ versions w;
  (* the status subresource: everything else of the stored object stays; an error may hide a write *)
  status_law w o r w' : answers w (UpdateStatus o) r w' ->
    commits w' = commits w /\
    (versions w' = versions w /\ (forall o', r <> Ok o') \/
     exists cur v, head (versions w) = Some cur /\ ResourceVersion o = ResourceVersion cur /\
       versions w' = set_ResourceVersion v (set_Status (Status o) cur) :: versions w /\
       forall o', r = Ok o' ->
         ResourceVersion o' = v /\ Status o' = Status o /\ Namespace o' = Namespace o /\ Name o' = Name o /\
         forall k, Annotations o' !! k = Annotations o !! k \/ Annotations o' !! k = Annotations cur !! k);
  (* the object itself: its status stays *)
  update_law w o r w' : answers w (Update o) r w' ->
    commits w' = commits w /\
    (versions w' = versions w /\ (forall o', r <> Ok o') \/
     exists cur v, head (versions w) = Some cur /\ ResourceVersion o = ResourceVersion cur /\
       versions w' = set_ResourceVersion v (set_Status (Status cur) o) :: versions w);
  (* hashes are printed in hexadecimal *)
  commit_law w files m r w' : answers w (CommitAndPush files m) r w' ->
    versions w' = versions w /\
    (commits w' = commits w /\ (forall h, r <> Ok h) \/ commits w' = files :: commits w) /\
    forall h, r = Ok h -> (8 <= String.length h)%nat;
  jitter_law w d j w' : answers w (Jitter d) j w' -> jitter_of d j;
  other_calls_law w c r w' : answers w c r w' ->
    match c with
    | Get | UpdateStatus _ | Update _ | CommitAndPush _ _ => True
    | _ => versions w' = versions w /\ commits w' = commits w
    end;
  (* others write objects, not their status, and leave the retry counts alone *)
  others_law w w' : others w w' ->
    commits w' = commits w /\
    (versions w' = versions w \/
     exists new, versions w' = new :: versions w /\ retry_free new /\
       (Status new = emptyStatus \/ exists cur, head (versions w) = Some cur /\ Status new = Status cur))
}.

Section system.
Context {enc : Encodings} {san : Sanitizer} {rfc : TimeFormat}.
Context (deps : Dependencies) (config : Config) (constants : Constants).
Context {C : Cluster}.

(** The pass that runs, with its calls so far. *)
Abbreviation pass := (option (list (event Answer) * prog Answer Outcome)).

Inductive step : World * pass -> World * pass -> Prop :=
| step_start w : step (w, None) (w, Some ([], Reconcile deps config constants))
| step_call w t c k r w' :
    answers w c r w' -> step (w, Some (t, Vis c k)) (w', Some (Ev c r :: t, k r))
| step_end w t r : step (w, Some (t, Ret r)) (w, None)
| step_crash w t p : step (w, Some (t, p)) (w, None)
| step_other w p w' : others w w' -> step (w, p) (w', p).

(** Before the first pass nothing is stored. *)
Definition initial (s : World * pass) : Prop := versions s.1 = [] /\ s.2 = None.

Definition reachable (s : World * pass) : Prop := exists s0, initial s0 /\ rtc step s0 s.

(** ** The invariant *)

Definition some_commit (w : World) : Prop := Exists (λ files, files <> ∅) (commits w).

Definition stored_ok (w : World) (o : NetworkIntent) : Prop :=
  version_ok o /\ (Exists says_committed (Conditions (Status o)) -> some_commit w).

Definition world_ok (w : World) : Prop := Forall (stored_ok w) (versions w).

(** The cluster gave this answer. *)
Definition answered (e : event Answer) : Prop := exists w w', answers w (ev_call e) (ev_answer e) w'.

Definition pass_ok (w : World) (p : pass) : Prop :=
  match p with
  | None => True
  | Some (t, p) =>
      wp assume (claim config constants) p (λ _ _, True) t /\
      (committed t \/ inherited t -> some_commit w) /\
      (forall o, fetched t = Some o -> retry_free o) /\
      Forall answered t
  end.

Definition system_ok (s : World * pass) : Prop := world_ok s.1 /\ pass_ok s.1 s.2.

Context {laws : ClusterLaws C}.
Hypothesis (Hmax : 0 < MaxRetries config).

(** Commits are never taken back. *)
Lemma some_commit_mono w w' : commits w' = commits w \/ (exists f, commits w' = f :: commits w) ->
  some_commit w -> some_commit w'.
Proof. unfold some_commit. intros [-> | [f ->]]; [done |]. intros. by right. Qed.

Lemma answers_commits w c r w' : answers w c r w' ->
  commits w' = commits w \/ (exists f, commits w' = f :: commits w).
Proof.
  intros H. pose proof (other_calls_law _ _ _ _ H) as Ho. destruct c; try (left; apply Ho).
  - left. by apply get_law in H as (_ & ? & _).
  - left. by apply update_law in H as (? & _).
  - left. by apply status_law in H as (? & _).
  - apply commit_law in H as (_ & [[-> _] | ->] & _); eauto.
Qed.

Lemma stored_ok_mono w w' o : (some_commit w -> some_commit w') -> stored_ok w o -> stored_ok w' o.
Proof. intros H [Hv Hs]. split; [done |]. auto. Qed.

Lemma world_ok_newest w cur : world_ok w -> head (versions w) = Some cur -> stored_ok w cur.
Proof. intros Hw Hc. destruct (versions w) eqn:E; simplify_eq/=. unfold world_ok in Hw. rewrite E in Hw. by inversion Hw. Qed.

(** Answers are as a pass assumes them. *)
Lemma answers_assume w t c r w' : world_ok w -> answers w c r w' -> assume t c r.
Proof.
  intros Hw H. destruct c; try done.
  - apply get_law in H as (_ & _ & Hin). intros o E. unfold world_ok in Hw. rewrite Forall_forall in Hw.
    by destruct (Hw o (Hin o E)) as [Hv _].
  - apply status_law in H as (_ & [[_ He] | (cur & v & Hc & _ & _ & Ho)]); intros o' E; [by destruct (He o') |].
    destruct (Ho o' E) as (_ & Hs & Hns & Hn & Ha). split_and!; try done. intros Hf op.
    destruct (world_ok_newest w cur Hw Hc) as [(_ & _ & Hcur & _) _].
    destruct (Ha (retryCountKey op)) as [-> | ->]; auto.
  - by eapply jitter_law.
  - apply commit_law in H as (_ & _ & Hh). exact Hh.
Qed.

(** A call made as claimed keeps the stored versions in order. *)
Lemma answers_world w t c r w' :
  world_ok w -> claim config constants t c -> (committed t \/ inherited t -> some_commit w) ->
  (forall o, fetched t = Some o -> retry_free o) -> answers w c r w' -> world_ok w'.
Proof.
  intros Hw Hc Ht Hf H. pose proof (some_commit_mono w w' (answers_commits _ _ _ _ H)) as Hm.
  assert (Forall (stored_ok w') (versions w)) as Hold by (eapply Forall_impl; [done | intros o; by apply stored_ok_mono]).
  unfold world_ok. pose proof (other_calls_law _ _ _ _ H) as Ho. destruct c; try (by rewrite (proj1 Ho)).
  - apply get_law in H as (-> & _). done.
  - apply update_law in H as (_ & [[-> _] | (cur & v & Hcur & _ & ->)]); [done |]. constructor; [| done].
    destruct (world_ok_newest w cur Hw Hcur) as [(Hv1 & Hv2 & _ & Hv4) Hs]. destruct Hc as (o0 & Hf0 & Ha & _).
    split; [| intros Hx; apply Hm, Hs, Hx]. split; [exact Hv1 |]. split; [exact Hv2 |]. split; [| exact Hv4].
    intros op. simpl. rewrite Ha. by apply Hf.
  - apply status_law in H as (_ & [[-> _] | (cur & v & Hcur & _ & -> & _)]); [done |]. constructor; [| done].
    destruct (world_ok_newest w cur Hw Hcur) as [(_ & _ & Hv3 & _) _]. destruct Hc as (Hc1 & Hc2 & Hc3 & Hc4).
    split; [| intros Hx; apply Hm, Ht, Hc4, Hx]. split; [exact Hc1 |]. split; [exact Hc2 |]. by split.
  - apply commit_law in H as (-> & _). done.
Qed.

(** What a pass has done so far shows in the cluster. *)
Lemma answers_pass w t c r w' :
  world_ok w -> (committed t \/ inherited t -> some_commit w) -> (forall o, fetched t = Some o -> retry_free o) ->
  answers w c r w' ->
  (committed (Ev c r :: t) \/ inherited (Ev c r :: t) -> some_commit w') /\
  (forall o, fetched (Ev c r :: t) = Some o -> retry_free o).
Proof.
  intros Hw Ht Hf H. pose proof (some_commit_mono w w' (answers_commits _ _ _ _ H)) as Hm.
  assert (forall o, got (Ev c r) = Some o -> o ∈ versions w) as Hgot.
  { intros o. destruct c; try done. destruct r; [| done]. intros [= ->]. by apply get_law in H as (_ & _ & Hin); apply Hin. }
  unfold world_ok in Hw. rewrite Forall_forall in Hw. split.
  - unfold committed, inherited. rewrite !Exists_cons. intros [[Hx | Hx] | [Hx | Hx]]; [| by apply Hm, Ht; left | | by apply Hm, Ht; right].
    + destruct c; try done. destruct r as [h |]; [| done].
      apply commit_law in H as (_ & [[_ Hn] | Hn] & _); [by destruct (Hn h) |].
      unfold some_commit. rewrite Hn. by left.
    + destruct Hx as (o & Hg & Hs). by apply Hm, (Hw o (Hgot o Hg)).
  - simpl. intros o. destruct (fetched t); [apply Hf |]. intros Hg. by destruct (Hw o (Hgot o Hg)) as [(_ & _ & ? & _) _].
Qed.

Lemma others_world w w' : world_ok w -> others w w' -> world_ok w'.
Proof.
  intros Hw [Hc Hv]%others_law.
  assert (Forall (stored_ok w') (versions w)) as Hold.
  { eapply Forall_impl; [done |]. intros o. apply stored_ok_mono. unfold some_commit. by rewrite Hc. }
  unfold world_ok. destruct Hv as [-> | (new & -> & Hf & Hs)]; [done |]. constructor; [| done].
  unfold stored_ok, version_ok, in_order, completed_ok, all_hold, holds.
  destruct Hs as [-> | (cur & Hcur & ->)]; simpl.
  - split; [| by intros ?%Exists_nil]. split; [tauto |]. split; [done |]. by split.
  - destruct (world_ok_newest w cur Hw Hcur) as [(H1 & H2 & _ & H3) Hs]. split.
    + split; [exact H1 |]. split; [exact H2 |]. by split.
    + intros Hx. apply Hs in Hx. unfold some_commit in *. by rewrite Hc.
Qed.

Lemma step_ok s s' : system_ok s -> step s s' -> system_ok s'.
Proof.
  intros [Hw Hp]. destruct 1 as [w | w t c k r w' Ha | w t r | w t p | w p w' Ho]; simpl in *; try done.
  - split; [done |]. split_and!; [by apply wp_Reconcile | | done | by constructor].
    intros [H | H]; by apply Exists_nil in H.
  - destruct Hp as ([Hc Hk] & Ht & Hf & Han). split; [by eapply answers_world |].
    destruct (answers_pass w t c r w' Hw Ht Hf Ha). split_and!; [| done | done | constructor; [by exists w, w' | done]].
    apply Hk. by eapply answers_assume.
  - split; [by eapply others_world |]. destruct p as [[t p] |]; [| done]. destruct Hp as (Hp & Ht & Hf & Han).
    split_and!; [done | | done | done].
    intros Hx. apply (some_commit_mono w w'); [left; by apply others_law in Ho as [? _] | by apply Ht].
Qed.

Lemma reachable_ok s : reachable s -> system_ok s.
Proof.
  intros (s0 & [Hv Hn] & Hs). assert (system_ok s0) as H0.
  { destruct s0 as [w p]. simpl in *. split; simpl; [unfold world_ok; by rewrite Hv | by rewrite Hn]. }
  clear Hv Hn. induction Hs as [| s0 s1 s2 Hst _ IH]; [done |]. by apply IH, (step_ok s0).
Qed.

Lemma reachable_version s o : reachable s -> o ∈ versions s.1 -> stored_ok s.1 o.
Proof. intros [Hw _]%reachable_ok Ho. unfold world_ok in Hw. rewrite Forall_forall in Hw. by apply Hw. Qed.

End system.
