(* ===== verification/IntentPasses.v ===== *)
(** * IntentPasses: passes over a server, and what the reconciler guarantees

    A server that keeps the versions of an intent and the commits of the remote,
    with the answers of the model and of git as parameters, is a [Cluster] (its git
    refuses empty commits, as [GitClient] does); runs
    of [serve] on it are runs of the system.  On it whole passes are computed and
    proved; the properties of all clusters follow with their witnesses, and the
    ways in which the reconciler loses work. *)

From stdpp Require Import pretty relations.
From S2P Require Import Prelude GoFloat GoStrings GoFormat Effects IntentTypes IntentPlanning IntentReconciler.
From S2P Require Import IntentInvariants IntentSystem.
Local Open Scope Z_scope.

(** ** A server *)

Record Server := mkServer {
  stored : list NetworkIntent;  (* versions, newest first *)
  pushed : list (gmap string string)
}.

(** What varies from run to run. *)
Record Behaviour := mkBehaviour {
  model : string -> LLMAnswer;
  circuitOpen : bool;
  clone : result string unit;
  push : result string string;
  environment : string -> string;
  clock : Time
}.

Definition newVersion (s : Server) : string := pretty (length (stored s)).

(** The same object, at the same version. *)
Definition same_version (o cur : NetworkIntent) : bool :=
  String.eqb (Namespace o) (Namespace cur) && String.eqb (Name o) (Name cur)
  && String.eqb (ResourceVersion o) (ResourceVersion cur).

(** A write is accepted if it carries the newest version; [f] is what it stores. *)
Definition write (f : NetworkIntent -> NetworkIntent) (o : NetworkIntent) (s : Server)
    : result string NetworkIntent * Server :=
  match head (stored s) with
  | Some cur =>
      if same_version o cur then
        let new := set_ResourceVersion (newVersion s) (f cur) in (Ok new, mkServer (new :: stored s) (pushed s))
      else (Err "the object has been modified", s)
  | None => (Err "not found", s)
  end.

Definition server_answer (b : Behaviour) (c : Call) : Server -> Answer c * Server :=
  match c with
  | CtxDone => λ s, (None, s)
  | Get => λ s, (from_option Ok (Err NotFound) (head (stored s)), s)
  | Update o => λ s, write (λ cur, set_Status (Status cur) o) o s
  | UpdateStatus o => λ s, write (set_Status (Status o)) o s
  | Now => λ s, (clock b, s)
  | Getenv name => λ s, (environment b name, s)
  | Event _ _ _ => λ s, (tt, s)
  | ProcessIntent prompt => λ s, (model b prompt, s)
  | IsOpen => λ s, (circuitOpen b, s)
  | Jitter d => λ s, (d, s)
  | InitRepo => λ s, (clone b, s)
  | CommitAndPush files _ => λ s,
      if decide (files = ∅) then (Err "failed to commit: cannot create empty commit: clean working tree", s)
      else (push b, match push b with Ok _ => mkServer (stored s) (files :: pushed s) | Err _ => s end)
  end.

(** Another client makes the object, changes its spec, or marks it deleted; this
    server lets it do so to what the retry counts are not in. *)
Definition edit (w w' : Server) : Prop :=
  exists new, w' = mkServer (new :: stored w) (pushed w) /\ retry_free new /\
    (Status new = emptyStatus \/ exists cur, head (stored w) = Some cur /\ Status new = Status cur).

(** A behaviour whose hashes are long enough. *)
Definition behaves (b : Behaviour) : Prop := forall h, push b = Ok h -> (8 <= String.length h)%nat.

(** Each answer is that of one of several behaviours. *)
#[export] Instance server_cluster : Cluster := {|
  World := Server;
  versions := stored;
  commits := pushed;
  answers s c r s' := exists b, behaves b /\ server_answer b c s = (r, s');
  others := edit
|}.

Lemma same_version_spec o cur : same_version o cur = true <->
  Namespace o = Namespace cur /\ Name o = Name cur /\ ResourceVersion o = ResourceVersion cur.
Proof. unfold same_version. rewrite !andb_true_iff, !String.eqb_eq. tauto. Qed.

#[export] Instance server_laws : ClusterLaws server_cluster.
Proof.
  split; simpl.
  - intros w r w' (b & _ & [= <- <-]). split_and!; try done. intros o. destruct (stored w); by intros [= ->]; left.
  - intros w o r w' (b & _ & H). unfold write in H. destruct (head (stored w)) as [cur |]; [| simplify_eq; auto].
    destruct (same_version o cur) eqn:E; simplify_eq; [| auto]. apply same_version_spec in E as (En & Ens & Er).
    split; [done |]. right. exists cur, (newVersion w). split_and!; try done. intros o' [= <-]. simpl. by split_and!; auto.
  - intros w o r w' (b & _ & H). unfold write in H. destruct (head (stored w)) as [cur |]; [| simplify_eq; auto].
    destruct (same_version o cur) eqn:E; simplify_eq; [| auto]. apply same_version_spec in E as (En & Ens & Er).
    split; [done |]. right. by exists cur, (newVersion w).
  - intros w files m r w' (b & Hb & H). destruct (decide (files = ∅)); simplify_eq; [split; [done |]; by split; [left |] |].
    destruct (push b) as [h | e] eqn:E; simpl; (split; [done |]).
    + split; [by right |]. intros h' [= <-]. by apply Hb.
    + by split; [left |].
  - intros w d j w' (b & _ & [= <- <-]). unfold jitter_of. lia.
  - intros w c r w' (b & _ & H). destruct c; by simplify_eq/=.
  - intros w w' (new & -> & Hf & Hs). split; [done |]. right. by exists new.
Qed.

(** ** Runs of the server are runs of the system *)

Section runs.
Context {enc : Encodings} {san : Sanitizer} {rfc : TimeFormat}.
Context (deps : Dependencies) (config : Config) (constants : Constants).

Definition run_pass (b : Behaviour) (s : Server) : option Outcome * Server :=
  serve (server_answer b) (Reconcile deps config constants) s.

Lemma serve_steps b p s t r s' :
  behaves b -> serve (server_answer b) p s = (Some r, s') ->
  rtc (step deps config constants) (s, Some (t, p)) (s', None).
Proof.
  intros Hb. revert s t. induction p as [a | c k IH | why]; intros s t; simpl; [| | done].
  - intros [= -> ->]. apply rtc_once, step_end.
  - destruct (server_answer b c s) as [a s1] eqn:E. intros H.
    refine (rtc_l _ _ _ _ (step_call deps config constants s t c k a s1 (ex_intro _ b (conj Hb E))) _). by apply IH.
Qed.

Lemma pass_steps b s r s' :
  behaves b -> run_pass b s = (Some r, s') -> rtc (step deps config constants) (s, None) (s', None).
Proof. intros Hb H. refine (rtc_l _ _ _ _ (step_start deps config constants s) _). by eapply serve_steps. Qed.

(** Total correctness of a program on the server. *)
Definition runs {A} (b : Behaviour) (m : M A) (l : Local) (s : Server) (Q : A -> Local -> Server -> Prop) : Prop :=
  match serve (server_answer b) (m l) s with
  | (Some (a, l'), s') => Q a l' s'
  | (None, _) => False
  end.

Lemma runs_bind {A B} b (m : M A) (f : A -> M B) l s Q :
  runs b m l s (λ a l s, runs b (f a) l s Q) -> runs b (let! x := m in f x) l s Q.
Proof. unfold runs, mbind. rewrite serve_pbind. by destruct (serve _ (m l) s) as [[[a l'] |] s']. Qed.

Lemma runs_mono {A} b (m : M A) l s (Q Q' : A -> Local -> Server -> Prop) :
  runs b m l s Q -> (forall a l s, Q a l s -> Q' a l s) -> runs b m l s Q'.
Proof. unfold runs. destruct (serve _ (m l) s) as [[[a l'] |] s']; auto. Qed.

Lemma runs_call b c l s (Q : Answer c -> Local -> Server -> Prop) :
  (let '(r, s') := server_answer b c s in Q r l s') -> runs b (call c) l s Q.
Proof. unfold runs, call. simpl. by destruct (server_answer b c s). Qed.

(** ** A pass with answers that succeed *)

(** The object in memory is the newest version, up to its status. *)
Definition synced (o : NetworkIntent) (s : Server) : Prop :=
  exists cur rest, stored s = cur :: rest /\ set_Status (Status cur) o = cur.

(** Two versions of one object whose metadata and spec agree. *)
Definition same_object (o o' : NetworkIntent) : Prop :=
  Namespace o' = Namespace o /\ Name o' = Name o /\ Intent o' = Intent o /\ Annotations o' = Annotations o /\
  Finalizers o' = Finalizers o /\ DeletionTimestamp o' = DeletionTimestamp o.

#[local] Arguments buildTelecomEnhancedPrompt : simpl never.
#[local] Arguments planResources : simpl never.
#[local] Arguments manifestsOf : simpl never.
#[local] Arguments deploymentFiles : simpl never.

Section succeeding.
Context (b : Behaviour) (o0 : NetworkIntent) (s0 : Server).

(** The pass goes on with an intent made of [o0]; so much is pushed. *)
Definition at_ (files : list (gmap string string)) (l : Local) (s : Server) : Prop :=
  synced (networkIntent l) s /\ same_object o0 (networkIntent l) /\ pushed s = files.

Lemma at_status files f l s :
  at_ files l s -> at_ files (mkLocal (on_Status f (networkIntent l)) (processingCtx l)) s.
Proof.
  intros ((cur & rest & Hs & Hc) & Hsame & Hp). split_and!; [| done | done]. by exists cur, rest.
Qed.

Lemma at_ctx files ctx l s : at_ files l s -> at_ files (mkLocal (networkIntent l) ctx) s.
Proof. done. Qed.

Lemma at_clear files op l s :
  retry_free o0 -> at_ files l s ->
  at_ files (mkLocal (clearNetworkIntentRetryCount op (networkIntent l)) (processingCtx l)) s.
Proof.
  intros Hf (Hs & Hsame & Hp). assert (clearNetworkIntentRetryCount op (networkIntent l) = networkIntent l) as E; [| by rewrite E].
  destruct Hsame as (_ & _ & _ & Ha & _). destruct l as [[] ctx]. unfold clearNetworkIntentRetryCount, set_Annotations. simpl in *.
  f_equal. rewrite Ha. by apply delete_id.
Qed.

Lemma runs_write files l s Q :
  at_ files l s ->
  (forall o' s', at_ files (mkLocal o' (processingCtx l)) s' -> Status o' = Status (networkIntent l) ->
     head (stored s') = Some o' -> Q None (mkLocal o' (processingCtx l)) s') ->
  runs b safeStatusUpdate l s Q.
Proof.
  intros ((cur & rest & Hs & Hc) & Hsame & Hp) HQ. destruct l as [o ctx]. unfold safeStatusUpdate.
  apply runs_bind, runs_bind, runs_call. simpl in *. unfold write. rewrite Hs. simpl.
  assert (same_version o cur = true) as -> by (rewrite <- Hc; by apply same_version_spec).
  set (o' := set_ResourceVersion _ _).
  assert (o' = set_ResourceVersion (newVersion s) o) as Eo by (unfold o'; rewrite <- Hc; by destruct o).
  apply runs_bind. apply (HQ o' (mkServer (o' :: cur :: rest) (pushed s))); [| by rewrite Eo | done].
  split_and!; [| | done]; simpl.
  - exists o', (cur :: rest). split; [done |]. by destruct o'.
  - rewrite Eo. done.
Qed.

Lemma runs_setCondition ty st reason message l s Q :
  Q tt (mkLocal (updateCondition (mkCondition ty st reason message (clock b)) (networkIntent l)) (processingCtx l)) s ->
  runs b (setCondition ty st reason message) l s Q.
Proof. intros HQ. unfold setCondition. by apply runs_bind, runs_call. Qed.

Lemma runs_recordEvent ty reason message l s Q : Q tt l s -> runs b (recordEvent deps ty reason message) l s Q.
Proof. intros HQ. unfold recordEvent. destruct (hasEventRecorder deps); exact HQ. Qed.

Lemma runs_updatePhase files phase l s Q :
  at_ files l s ->
  (forall o' s', at_ files (mkLocal o' (processingCtx l)) s' ->
     Status o' = set_LastUpdated (clock b) (set_Phase phase (Status (networkIntent l))) ->
     head (stored s') = Some o' -> Q None (mkLocal o' (processingCtx l)) s') ->
  runs b (updatePhase phase) l s Q.
Proof.
  intros Ha HQ. unfold updatePhase. apply runs_bind, runs_bind, runs_call, runs_bind.
  eapply runs_write; [by apply (at_status _ (λ st, set_LastUpdated (clock b) (set_Phase phase st))) |]. done.
Qed.

(** The status with a condition that holds now. *)
Definition with_condition (ty reason message : string) (st : NetworkIntentStatus) : NetworkIntentStatus :=
  set_Conditions (UpdateCondition (Conditions st) (mkCondition ty ConditionTrue reason message (clock b))) st.

Lemma runs_settle files ty reason message ev_reason ev_message l s Q :
  at_ files l s ->
  (forall o' s', at_ files (mkLocal o' (processingCtx l)) s' ->
     Status o' = with_condition ty reason message (Status (networkIntent l)) ->
     head (stored s') = Some o' -> Q ok (mkLocal o' (processingCtx l)) s') ->
  runs b (setCondition ty ConditionTrue reason message ;;!
       let! r := safeStatusUpdate in
       match r with
       | Some e => mret (failed (10 * Second) ("failed to update status: " +:+ e))
       | None => recordEvent deps "Normal" ev_reason ev_message ;;! mret ok
       end) l s Q.
Proof.
  intros Ha HQ. apply runs_bind, runs_setCondition, runs_bind. eapply runs_write; [by apply at_status |].
  intros o' s' Ha' Hs' Hh. apply runs_bind, runs_recordEvent. by apply HQ.
Qed.

Lemma runs_settle_anyway files ty reason message l s Q :
  at_ files l s ->
  (forall o' s', at_ files (mkLocal o' (processingCtx l)) s' ->
     Status o' = with_condition ty reason message (Status (networkIntent l)) ->
     head (stored s') = Some o' -> Q ok (mkLocal o' (processingCtx l)) s') ->
  runs b (setCondition ty ConditionTrue reason message ;;! safeStatusUpdate ;;! mret ok) l s Q.
Proof.
  intros Ha HQ. apply runs_bind, runs_setCondition, runs_bind. eapply runs_write; [by apply at_status |].
  intros o' s' Ha' Hs' Hh. by apply HQ.
Qed.

Lemma runs_runPhase files guard phase what (process rest : M Outcome) l s (Q : Outcome -> Local -> Server -> Prop) :
  at_ files l s -> guard (networkIntent l) = true ->
  (forall o' s', at_ files (mkLocal o' (processingCtx l)) s' ->
     Status o' = set_LastUpdated (clock b) (set_Phase phase (Status (networkIntent l))) ->
     runs b process (mkLocal o' (processingCtx l)) s' (λ r l s, stops r = false /\ runs b rest l s Q)) ->
  runs b (runPhase guard phase what process rest) l s Q.
Proof.
  intros Ha Hg Hp. unfold runPhase. apply runs_bind. unfold runs at 1. simpl. rewrite Hg.
  apply runs_bind. eapply runs_updatePhase; [done |]. intros o' s' Ha' Hs' Hh. simpl.
  apply runs_bind. eapply runs_mono; [by apply Hp |]. by intros r l2 s2 [-> H].
Qed.

(** A phase that ends the pass. *)
Lemma runs_stopPhase files guard phase what (process rest : M Outcome) l s (Q : Outcome -> Local -> Server -> Prop) :
  at_ files l s -> guard (networkIntent l) = true ->
  (forall o' s', at_ files (mkLocal o' (processingCtx l)) s' ->
     Status o' = set_LastUpdated (clock b) (set_Phase phase (Status (networkIntent l))) ->
     runs b process (mkLocal o' (processingCtx l)) s' (λ r l s, stops r = true /\ Q r l s)) ->
  runs b (runPhase guard phase what process rest) l s Q.
Proof.
  intros Ha Hg Hp. unfold runPhase. apply runs_bind. unfold runs at 1. simpl. rewrite Hg.
  apply runs_bind. eapply runs_updatePhase; [done |]. intros o' s' Ha' Hs' Hh. simpl.
  apply runs_bind. eapply runs_mono; [by apply Hp |]. by intros r l2 s2 [-> H].
Qed.

Lemma runs_skipPhase guard phase what (process rest : M Outcome) l s (Q : Outcome -> Local -> Server -> Prop) :
  guard (networkIntent l) = false -> runs b rest l s Q -> runs b (runPhase guard phase what process rest) l s Q.
Proof. intros Hg H. unfold runPhase. apply runs_bind. unfold runs at 1. simpl. by rewrite Hg. Qed.

(** What a status says of the phases. *)
Definition says (st : NetworkIntentStatus) (x : string) : bool := isConditionTrue (Conditions st) x.

Lemma says_with ty reason message st x :
  says (with_condition ty reason message st) x = if String.eqb ty x then true else says st x.
Proof. apply isConditionTrue_update. Qed.

(** The end of a pass whose phases all hold. *)
Lemma runs_conclude files l s :
  at_ files l s -> all_hold (networkIntent l) ->
  Phase (Status (networkIntent l)) <> "Error" -> Phase (Status (networkIntent l)) <> "Processed" ->
  runs b (conclude deps ok) l s (λ r l' s', r = ok /\ at_ files l' s' /\ head (stored s') = Some (networkIntent l') /\
    Phase (Status (networkIntent l')) = "Completed" /\ all_hold (networkIntent l') /\ holds (networkIntent l') "Ready").
Proof.
  intros Ha Hall He Hp. unfold conclude. apply runs_bind. unfold runs at 1. simpl.
  rewrite (proj2 (String.eqb_neq _ _) He), (proj2 (String.eqb_neq _ _) Hp). unfold finish.
  apply runs_bind. eapply runs_updatePhase; [done |]. intros o1 s1 Ha1 Hs1 Hh1.
  unfold setReadyCondition. apply runs_bind, runs_bind, runs_setCondition.
  eapply runs_write; [by apply at_status |]. intros o2 s2 Ha2 Hs2 Hh2. apply runs_bind, runs_recordEvent.
  split; [done |]. split; [done |]. split; [done |]. unfold all_hold, holds in *. simpl in *. rewrite Hs2. simpl.
  rewrite !isConditionTrue_update. simpl. rewrite Hs1. simpl. done.
Qed.

(** Phases 4 and 5 of a pass that has no manifests in memory: both conditions
    are set, and git is not called. *)
Lemma runs_no_manifests files l s (Q : Outcome -> Local -> Server -> Prop) :
  at_ files l s -> Manifests (processingCtx l) = ∅ -> GitCommitHash (processingCtx l) = "" ->
  in_order (networkIntent l) -> holds (networkIntent l) "ManifestsGenerated" ->
  holds (networkIntent l) "GitOpsCommitted" = false ->
  (forall l' s', at_ files l' s' -> all_hold (networkIntent l') ->
     Phase (Status (networkIntent l')) = "DeploymentVerification" -> Q ok l' s') ->
  runs b (phase4 deps config) l s Q.
Proof.
  intros Ha Hm Hh Ho Hmg Hgc HQ. destruct l as [o ctx]. simpl in *.
  assert (holds o "DeploymentVerified" = false) as Hdv.
  { destruct Ho as (_ & _ & _ & Ho). rewrite Hgc in Ho. destruct (holds o "DeploymentVerified"); [by destruct Ho | done]. }
  eapply runs_runPhase; [exact Ha | simpl; unfold due; by rewrite (Is_true_eq_true _ Hmg), Hgc |]. intros o1 s1 Ha1 Hs1.
  unfold CommitToGitOps. apply runs_bind. simpl. apply runs_bind, runs_bind. unfold runs at 1. simpl. rewrite Hm. simpl.
  eapply runs_settle_anyway; [exact Ha1 |].
  intros o2 s2 Ha2 Hs2 _. simpl in *. rewrite Hs1 in Hs2. split; [done |].
  eapply runs_runPhase; [exact Ha2 | |].
  { simpl. unfold due, holds in *. rewrite Hs2. simpl. rewrite !isConditionTrue_update. simpl. by rewrite Hdv. }
  intros o3 s3 Ha3 Hs3. simpl in Hs3. unfold VerifyDeployment. apply runs_bind. simpl. apply runs_bind. unfold runs at 1. simpl.
  rewrite Hh. simpl. eapply runs_settle_anyway; [exact Ha3 |].
  intros o4 s4 Ha4 Hs4 _. simpl in *. rewrite Hs3, Hs2 in Hs4. split; [done |]. apply HQ; [done | | simpl; by rewrite Hs4].
  unfold all_hold, holds, in_order in *. simpl. rewrite Hs4. simpl. rewrite !isConditionTrue_update. simpl. tauto.
Qed.

(** The newest version gets phase Error. *)
Lemma runs_persistErrorPhase o l s (Q : unit -> Local -> Server -> Prop) :
  head (stored s) = Some o ->
  (forall s', head (stored s') = Some (set_ResourceVersion (newVersion s) (on_Status (set_Phase "Error") o)) ->
     pushed s' = pushed s -> Q tt l s') ->
  runs b persistErrorPhase l s Q.
Proof.
  intros Hh HQ. unfold persistErrorPhase. apply runs_bind, runs_call. cbn [server_answer]. rewrite Hh. simpl.
  apply runs_bind, (runs_call b (UpdateStatus _)). cbn [server_answer]. unfold write. rewrite Hh.
  rewrite (proj2 (same_version_spec _ _)) by done. by apply HQ.
Qed.

(** From the stored version to the pass over it. *)
Lemma run_pass_process s o rest (Q : Outcome -> Local -> Server -> Prop) :
  stored s = o :: rest -> DeletionTimestamp o = None -> NetworkIntentFinalizer constants ∈ Finalizers o ->
  runs b (process deps config) (mkLocal o newProcessingContext) s Q ->
  exists r l s', run_pass b s = (Some r, s') /\ Q r l s'.
Proof.
  intros Hs Hd Hf H. unfold run_pass, Reconcile. cbn [serve server_answer]. rewrite Hs. cbn [head from_option serve].
  rewrite serve_pbind. unfold handle, mbind, getIntent. cbn [pbind networkIntent]. rewrite Hd.
  rewrite (proj2 (containsFinalizer_spec _ _)) by done. unfold runs in H.
  destruct (serve (server_answer b) (process deps config _) s) as [[[r l'] |] s'] eqn:E; [| done].
  by exists r, l', s'.
Qed.

(** *** Phases 1 to 4 with answers that succeed *)

Lemma at_retry_free files l s : retry_free o0 -> at_ files l s -> retry_free (networkIntent l).
Proof. intros Hf (_ & (_ & _ & _ & Ha & _) & _). unfold retry_free. by rewrite Ha. Qed.

Lemma runs_ProcessLLMPhase files clean text out params raw l s (Q : Outcome -> Local -> Server -> Prop) :
  at_ files l s -> retry_free o0 -> hasLLMClient deps = true -> 0 < MaxRetries config ->
  SanitizeInput (Intent o0) = Ok clean ->
  model b (BuildSecurePrompt systemPrompt (buildTelecomEnhancedPrompt (TelecomKnowledgeBase deps) clean).2)
    = LLMReturned (Ok text) ->
  ValidateOutput text = Ok out -> unmarshalMap out = Ok (Some params) -> marshalMap (Some params) = Ok raw ->
  (forall o' ctx' s', at_ files (mkLocal o' ctx') s' ->
     (forall x, holds o' x = if String.eqb "Processed" x then true else holds (networkIntent l) x) ->
     Extensions (Status o') !! "parameters" = Some raw ->
     TelecomContext_ ctx' = (buildTelecomEnhancedPrompt (TelecomKnowledgeBase deps) clean).1 ->
     Q ok (mkLocal o' ctx') s') ->
  runs b (ProcessLLMPhase deps config) l s Q.
Proof.
  intros Ha Hf Hllm Hmax Hsan Hmodel Hval Hun Hma HQ. unfold ProcessLLMPhase.
  apply runs_bind, runs_call, runs_bind. unfold runs at 1. cbn [serve getIntent]. apply runs_bind, runs_bind.
  rewrite retry_free_count by (by eapply at_retry_free). rewrite (proj2 (Z.leb_gt _ _)) by done. rewrite Hllm. cbn [negb].
  assert (Intent (networkIntent l) = Intent o0) as -> by apply Ha. rewrite Hsan.
  destruct (buildTelecomEnhancedPrompt (TelecomKnowledgeBase deps) clean) as [tc prompt]. cbn [fst snd] in *.
  apply runs_bind, runs_bind. unfold callModel. apply runs_bind, runs_call. cbn [server_answer]. rewrite Hmodel.
  unfold runs at 1. cbn [serve mret]. rewrite Hval, Hun. unfold llmSucceeded. apply runs_bind. rewrite Hma. apply runs_bind, runs_bind.
  eapply runs_write; [exact (at_status _ (set_Extension "parameters" raw) _ _ Ha) |]. intros o1 s1 Ha1 Hs1 _. simpl in Hs1.
  apply runs_bind, runs_bind, runs_call, runs_bind, runs_call, runs_bind, runs_bind, runs_bind.
  eapply runs_write.
  { apply (at_status _ (λ st, set_Conditions (UpdateCondition (Conditions (set_Extension _ _ st)) _) (set_Extension _ _ st))
             (mkLocal (clearNetworkIntentRetryCount "llm-processing" o1) _)).
    exact (at_clear _ "llm-processing" _ _ Hf Ha1). }
  intros o2 s2 Ha2 Hs2 _. apply runs_bind, runs_recordEvent. apply HQ; [done | | | done].
  - intros x. unfold holds. simpl in *. rewrite Hs2. simpl. rewrite isConditionTrue_update. simpl. by rewrite Hs1.
  - simpl in *. rewrite Hs2. simpl. rewrite lookup_insert_ne by done. rewrite Hs1. simpl. by rewrite lookup_insert_eq.
Qed.

Lemma runs_PlanResources files params raw planData l s (Q : Outcome -> Local -> Server -> Prop) :
  let plan := planResources (TelecomKnowledgeBase deps) params (TelecomContext_ (processingCtx l)) in
  at_ files l s -> Extensions (Status (networkIntent l)) !! "parameters" = Some raw -> raw <> "" ->
  unmarshalMap raw = Ok (Some params) -> json_MarshalPlan plan = Ok planData ->
  (forall o' ctx' s', at_ files (mkLocal o' ctx') s' ->
     (forall x, holds o' x = if String.eqb "ResourcesPlanned" x then true else holds (networkIntent l) x) ->
     ResourcePlan_ ctx' = Some plan -> Q ok (mkLocal o' ctx') s') ->
  runs b (PlanResources deps config) l s Q.
Proof.
  intros plan Ha Hraw Hne Hun Hpl HQ. unfold PlanResources. apply runs_bind, runs_bind. unfold runs at 1. simpl.
  apply runs_bind. unfold runs at 1. simpl. rewrite Hraw. simpl. rewrite (proj2 (String.eqb_neq _ _) Hne), Hun. simpl.
  apply runs_bind. fold plan. rewrite Hpl. apply runs_bind. eapply runs_settle; [exact (at_status _ (set_Extension "resourcePlan" planData) _ _ Ha) |].
  intros o' s' Ha' Hs' _. apply HQ; [done | | done]. intros x. unfold holds. simpl in *. rewrite Hs'. simpl.
  by rewrite isConditionTrue_update.
Qed.

Lemma runs_GenerateManifests files plan m l s (Q : Outcome -> Local -> Server -> Prop) :
  at_ files l s -> ResourcePlan_ (processingCtx l) = Some plan -> manifestsOf (networkIntent l) plan = Ok m ->
  (forall o' ctx' s', at_ files (mkLocal o' ctx') s' ->
     (forall x, holds o' x = if String.eqb "ManifestsGenerated" x then true else holds (networkIntent l) x) ->
     ResourcePlan_ ctx' = Some plan -> Manifests ctx' = m -> Q ok (mkLocal o' ctx') s') ->
  runs b (GenerateManifests deps config) l s Q.
Proof.
  intros Ha Hpl Hm HQ. unfold GenerateManifests. apply runs_bind, runs_bind. unfold runs at 1. simpl.
  apply runs_bind. unfold runs at 1. simpl. rewrite Hpl, Hm. apply runs_bind. eapply runs_settle; [exact Ha |].
  intros o' s' Ha' Hs' _. apply HQ; [done | | done | done]. intros x. unfold holds. simpl in *. rewrite Hs'. simpl.
  by rewrite isConditionTrue_update.
Qed.

Lemma runs_CommitToGitOps files plan m h l s (Q : Outcome -> Local -> Server -> Prop) :
  at_ files l s -> retry_free o0 -> ResourcePlan_ (processingCtx l) = Some plan -> Manifests (processingCtx l) = m -> m <> ∅ ->
  hasGitClient deps = true -> 0 < MaxRetries config -> clone b = Ok tt -> push b = Ok h -> (8 <= String.length h)%nat ->
  (forall o' ctx' s', at_ (deploymentFiles config o0 m :: files) (mkLocal o' ctx') s' ->
     (forall x, holds o' x = if String.eqb "GitOpsCommitted" x then true else holds (networkIntent l) x) ->
     ResourcePlan_ ctx' = Some plan -> GitCommitHash ctx' = h -> Q ok (mkLocal o' ctx') s') ->
  runs b (CommitToGitOps deps config) l s Q.
Proof.
  intros Ha Hf Hpl Hm Hne Hgit Hmax Hclone Hpush Hh HQ. unfold CommitToGitOps. apply runs_bind, runs_bind.
  unfold runs at 1. simpl. apply runs_bind. unfold runs at 1. simpl. rewrite Hm, decide_False by done. rewrite Hgit. simpl.
  rewrite retry_free_count by (by eapply at_retry_free). rewrite (proj2 (Z.leb_gt _ _)) by done.
  apply runs_bind, (runs_call b InitRepo). cbn [server_answer]. rewrite Hclone, Hpl.
  assert (deploymentFiles config (networkIntent l) m = deploymentFiles config o0 m) as ->.
  { destruct Ha as (_ & (Hns & Hn & _) & _). unfold deploymentFiles, basePath. by rewrite Hns, Hn. }
  apply runs_bind, (runs_call b (CommitAndPush _ _)). cbn [server_answer].
  rewrite decide_False by (by intros ?%deploymentFiles_empty). rewrite Hpush.
  unfold commitSucceeded. destruct (short_some h Hh) as [h8 ->].
  apply runs_bind, runs_bind, runs_bind, runs_call, runs_bind, runs_bind, runs_bind, runs_bind.
  assert (at_ (deploymentFiles config o0 m :: files) l (mkServer (stored s) (deploymentFiles config o0 m :: pushed s))) as Ha1.
  { destruct Ha as (Hs & Hsame & Hp). split_and!; [done | done |]. simpl. by rewrite Hp. }
  eapply runs_write.
  { apply (at_status _ (λ st, set_Conditions (UpdateCondition (Conditions (set_Extension _ _ (set_Extension _ _ st))) _) (set_Extension _ _ (set_Extension _ _ st)))
             (mkLocal (clearNetworkIntentRetryCount "git-deployment" (networkIntent l)) _)).
    exact (at_clear _ "git-deployment" _ _ Hf Ha1). }
  intros o' s' Ha' Hs' _. apply runs_bind, runs_recordEvent. apply HQ; [done | | done | done]. intros x.
  unfold holds. simpl in *. rewrite Hs'. simpl. by rewrite isConditionTrue_update.
Qed.

Lemma runs_VerifyDeployment files plan h l s (Q : Outcome -> Local -> Server -> Prop) :
  at_ files l s -> ResourcePlan_ (processingCtx l) = Some plan -> GitCommitHash (processingCtx l) = h ->
  (8 <= String.length h)%nat ->
  (forall o' ctx' s', at_ files (mkLocal o' ctx') s' -> Phase (Status o') = Phase (Status (networkIntent l)) ->
     (forall x, holds o' x = if String.eqb "DeploymentVerified" x then true else holds (networkIntent l) x) ->
     Q ok (mkLocal o' ctx') s') ->
  runs b (VerifyDeployment deps) l s Q.
Proof.
  intros Ha Hpl Hg Hh HQ. unfold VerifyDeployment. apply runs_bind, runs_bind. unfold runs at 1. simpl.
  rewrite Hg, Hpl. destruct (short_some h Hh) as [h8 ->]. destruct (String.eqb_spec h "") as [E | _].
  { rewrite E in Hh. simpl in Hh. lia. }
  eapply runs_settle; [exact Ha |]. intros o' s' Ha' Hs' _. simpl in *. apply HQ; [done | by rewrite Hs' |].
  intros x. unfold holds. simpl in *. rewrite Hs'. simpl. by rewrite isConditionTrue_update.
Qed.

Lemma holds_status o o' t phase x :
  Status o' = set_LastUpdated t (set_Phase phase (Status o)) -> holds o' x = holds o x.
Proof. intros H. unfold holds. by rewrite H. Qed.

(** Phases 4 and 5 of a pass with manifests, when git takes them. *)
Lemma runs_phase4 files plan m h l s (Q : Outcome -> Local -> Server -> Prop) :
  at_ files l s -> retry_free o0 -> ResourcePlan_ (processingCtx l) = Some plan -> Manifests (processingCtx l) = m -> m <> ∅ ->
  hasGitClient deps = true -> 0 < MaxRetries config -> clone b = Ok tt -> push b = Ok h -> (8 <= String.length h)%nat ->
  holds (networkIntent l) "ManifestsGenerated" = true -> holds (networkIntent l) "GitOpsCommitted" = false ->
  holds (networkIntent l) "DeploymentVerified" = false ->
  (forall l' s', at_ (deploymentFiles config o0 m :: files) l' s' ->
     (forall x, holds (networkIntent l') x = if String.eqb "DeploymentVerified" x then true else
        if String.eqb "GitOpsCommitted" x then true else holds (networkIntent l) x) ->
     Phase (Status (networkIntent l')) = "DeploymentVerification" -> Q ok l' s') ->
  runs b (phase4 deps config) l s Q.
Proof.
  intros Ha Hf Hpl Hm Hne Hgit Hmax Hclone Hpush Hh H3 H4 H5 HQ. destruct l as [o ctx]. cbn [networkIntent processingCtx] in *.
  eapply runs_runPhase; [exact Ha | cbn [networkIntent]; unfold due; by rewrite H3, H4 |].
  intros o7 s7 Ha7 Hs7. pose proof (fun x => holds_status _ _ _ _ x Hs7) as Hx7. cbn [networkIntent processingCtx] in *.
  eapply runs_CommitToGitOps; [exact Ha7 | done | exact Hpl | exact Hm | done | done | done | done | done | done |].
  intros o8 ctx8 s8 Ha8 Hx8 Hplan8 Hh8. split; [done |]. cbn [networkIntent processingCtx] in *.
  assert (T8 : forall x, holds o8 x = if String.eqb "GitOpsCommitted" x then true else holds o x) by (intros x; by rewrite Hx8, Hx7).
  eapply runs_runPhase; [exact Ha8 | cbn [networkIntent]; unfold due; rewrite !T8; cbn; by rewrite H5 |].
  intros o9 s9 Ha9 Hs9. pose proof (fun x => holds_status _ _ _ _ x Hs9) as Hx9. cbn [networkIntent processingCtx] in *.
  eapply runs_VerifyDeployment; [exact Ha9 | exact Hplan8 | exact Hh8 | done |].
  intros o10 ctx10 s10 Ha10 Hph10 Hx10. split; [done |]. apply HQ; [done | | cbn [networkIntent] in *; by rewrite Hph10, Hs9].
  intros x. cbn [networkIntent] in *. by rewrite Hx10, Hx9, T8.
Qed.

End succeeding.

(** ** What a pass does *)

Lemma start_at o rest s : stored s = o :: rest ->
  at_ o (pushed s) (mkLocal (on_Status (set_ObservedGeneration (Generation o)) o) newProcessingContext) s.
Proof. intros Hs. split_and!; [| done | done]. exists o, rest. split; [done |]. by destruct o. Qed.

Lemma not_complete o ty :
  ty ∈ ["Processed"; "ResourcesPlanned"; "ManifestsGenerated"; "GitOpsCommitted"; "DeploymentVerified"] ->
  holds o ty = false -> isProcessingComplete o = false.
Proof.
  intros Hin H. unfold isProcessingComplete. in_cases Hin; rewrite H; repeat (rewrite ?andb_false_r, ?andb_false_l); done.
Qed.

(** The end of a pass, as the server shows it. *)
Definition completed (o : NetworkIntent) (s s' : Server) (files : list (gmap string string)) (o' : NetworkIntent) : Prop :=
  head (stored s') = Some o' /\ Phase (Status o') = "Completed" /\ all_hold o' /\ holds o' "Ready" /\
  same_object o o' /\ pushed s' = files ++ pushed s.

(** C12 - A commit that did not happen in the pass that generated its manifests
    never happens: the next pass, whatever git and the model would answer, finds
    no manifests in memory, calls git no more, and declares the intent
    completed. *)
Theorem unfinished_commits_are_lost b s o rest :
  String.eqb (environment b "ENABLE_LLM_INTENT") "false" = false ->
  stored s = o :: rest -> DeletionTimestamp o = None -> NetworkIntentFinalizer constants ∈ Finalizers o ->
  in_order o -> holds o "ManifestsGenerated" -> holds o "GitOpsCommitted" = false ->
  exists s' o', run_pass b s = (Some ok, s') /\ completed o s s' [] o'.
Proof.
  intros He Hs Hd Hf Ho Hmg Hgc.
  edestruct (run_pass_process b s o rest
    (λ r l' s', r = ok /\ completed o s s' [] (networkIntent l'))) as (r & l' & s' & Hrun & -> & Hc);
    [done | done | done | | by eauto].
  unfold process. apply runs_bind, runs_bind. unfold runs at 1. simpl. rewrite (not_complete _ "GitOpsCommitted"); [| by set_solver | done].
  apply runs_bind. unfold executeProcessingPipeline. apply runs_bind, runs_call. simpl. rewrite He.
  assert (holds o "ResourcesPlanned" /\ holds o "Processed") as [Hrp Hp] by (unfold in_order in Ho; tauto).
  apply runs_skipPhase; [change (negb (holds o "Processed") = false); by rewrite (Is_true_eq_true _ Hp) |].
  apply runs_skipPhase; [change (due "Processed" "ResourcesPlanned" o = false); unfold due; by rewrite (Is_true_eq_true _ Hrp), andb_false_r |].
  apply runs_skipPhase; [change (due "ResourcesPlanned" "ManifestsGenerated" o = false); unfold due; by rewrite (Is_true_eq_true _ Hmg), andb_false_r |].
  eapply runs_no_manifests; [by eapply start_at | done | done | done | done | done |].
  intros l1 s1 Ha1 Hall Hph. eapply runs_mono; [apply (runs_conclude b o); [done | done | by rewrite Hph | by rewrite Hph] |].
  intros r l2 s2 (-> & (_ & Hsame & Hpush) & Hh & Hc2 & Ha2 & Hr2). by split_and!.
Qed.

(** What a pass goes through when every service does its part. *)
Record cooperates (b : Behaviour) (o : NetworkIntent) (m : gmap string string) : Prop := {
  coop_env : String.eqb (environment b "ENABLE_LLM_INTENT") "false" = false;
  coop_clients : hasLLMClient deps = true /\ hasGitClient deps = true /\ 0 < MaxRetries config;
  coop_git : clone b = Ok tt /\ exists h, push b = Ok h /\ (8 <= String.length h)%nat;
  coop_answers : exists clean text out params raw,
    let '(ctx, prompt) := buildTelecomEnhancedPrompt (TelecomKnowledgeBase deps) clean in
    let plan := planResources (TelecomKnowledgeBase deps) params ctx in
    SanitizeInput (Intent o) = Ok clean /\
    model b (BuildSecurePrompt systemPrompt prompt) = LLMReturned (Ok text) /\
    ValidateOutput text = Ok out /\ unmarshalMap out = Ok (Some params) /\
    marshalMap (Some params) = Ok raw /\ raw <> "" /\ unmarshalMap raw = Ok (Some params) /\
    (exists planData, json_MarshalPlan plan = Ok planData) /\
    manifestsOf o plan = Ok m
}.

(** C1 - One pass over a new intent, with services that do their part, commits
    exactly the manifests of the plan made of the model's answer, under the path
    of the intent and once, and leaves it completed and ready with all phases'
    conditions, its metadata and spec untouched. *)
Theorem one_pass_deploys b s o rest m :
  cooperates b o m ->
  stored s = o :: rest -> DeletionTimestamp o = None -> NetworkIntentFinalizer constants ∈ Finalizers o ->
  retry_free o -> in_order o -> holds o "Processed" = false ->
  exists s' o', run_pass b s = (Some ok, s') /\ completed o s s' [deploymentFiles config o m] o'.
Proof.
  intros [He (Hllm & Hgit & Hmax) (Hclone & h & Hpush & Hh) (clean & text & out & params & raw & Hcoop)] Hs Hd Hf Hfree Ho Hp.
  destruct (buildTelecomEnhancedPrompt (TelecomKnowledgeBase deps) clean) as [ctx prompt] eqn:Eb.
  destruct Hcoop as (Hsan & Hmodel & Hval & Hun & Hma & Hne & Hun' & (planData & Hpl) & Hm).
  set (plan := planResources (TelecomKnowledgeBase deps) params ctx) in *.
  edestruct (run_pass_process b s o rest
    (λ r l' s', r = ok /\ completed o s s' [deploymentFiles config o m] (networkIntent l'))) as (r & l' & s' & Hrun & -> & Hc);
    [done | done | done | | by eauto].
  assert (holds o "ResourcesPlanned" = false /\ holds o "ManifestsGenerated" = false /\
          holds o "GitOpsCommitted" = false /\ holds o "DeploymentVerified" = false) as (H2 & H3 & H4 & H5).
  { unfold in_order in Ho. rewrite Hp in Ho. simpl in Ho.
    destruct (holds o "ResourcesPlanned"), (holds o "ManifestsGenerated"), (holds o "GitOpsCommitted"), (holds o "DeploymentVerified"); simpl in *; tauto. }
  unfold process. apply runs_bind, runs_bind. unfold runs at 1. cbn [serve getIntent].
  rewrite (not_complete _ "Processed"); [| by set_solver | done].
  apply runs_bind. unfold executeProcessingPipeline. apply runs_bind, runs_call. cbn [server_answer]. rewrite He.
  pose proof (start_at o rest s Hs) as Ha0.
  eapply runs_runPhase; [exact Ha0 | change (negb (holds o "Processed") = true); by rewrite Hp |].
  intros o1 s1 Ha1 Hs1. pose proof (fun x => holds_status _ _ _ _ x Hs1) as Hx1.
  eapply runs_ProcessLLMPhase; try done; [by rewrite Eb |].
  intros o2 ctx2 s2 Ha2 Hx2 Hraw Hctx. split; [done |]. rewrite Eb in Hctx. cbn [fst networkIntent processingCtx] in *.
  assert (T2 : forall x, holds o2 x = if String.eqb "Processed" x then true else holds o x) by (intros x; by rewrite Hx2, Hx1).
  (* resource planning *)
  eapply runs_runPhase; [exact Ha2 | cbn [networkIntent]; unfold due; rewrite !T2; cbn; by rewrite H2 |].
  intros o3 s3 Ha3 Hs3. pose proof (fun x => holds_status _ _ _ _ x Hs3) as Hx3. cbn [networkIntent processingCtx] in *.
  eapply runs_PlanResources; [exact Ha3 | cbn [networkIntent]; by rewrite Hs3 | exact Hne | exact Hun' | cbn [processingCtx]; rewrite Hctx; exact Hpl |].
  intros o4 ctx4 s4 Ha4 Hx4 Hplan4. split; [done |]. cbn [networkIntent processingCtx] in *. rewrite Hctx in Hplan4. fold plan in Hplan4.
  assert (T4 : forall x, holds o4 x = if String.eqb "ResourcesPlanned" x then true else
    if String.eqb "Processed" x then true else holds o x) by (intros x; by rewrite Hx4, Hx3, T2).
  (* manifests *)
  eapply runs_runPhase; [exact Ha4 | cbn [networkIntent]; unfold due; rewrite !T4; cbn; by rewrite H3 |].
  intros o5 s5 Ha5 Hs5. pose proof (fun x => holds_status _ _ _ _ x Hs5) as Hx5. cbn [networkIntent processingCtx] in *.
  eapply runs_GenerateManifests; [exact Ha5 | exact Hplan4 | |].
  { cbn [networkIntent]. destruct Ha5 as (_ & (? & ? & ? & _) & _). rewrite (manifestsOf_same o o5); [exact Hm | done | done | done]. }
  intros o6 ctx6 s6 Ha6 Hx6 Hplan6 Hm6. split; [done |]. cbn [networkIntent processingCtx] in *.
  assert (T6 : forall x, holds o6 x = if String.eqb "ManifestsGenerated" x then true else
    if String.eqb "ResourcesPlanned" x then true else
    if String.eqb "Processed" x then true else holds o x) by (intros x; by rewrite Hx6, Hx5, T4).
  eapply runs_phase4; [exact Ha6 | done | exact Hplan6 | exact Hm6 | by eapply manifestsOf_nonempty | done | done | done
    | exact Hpush | done | cbn [networkIntent]; by rewrite T6 .. |].
  - intros l7 s7 Ha7 Hx7 Hph. cbn [networkIntent] in *.
    assert (all_hold (networkIntent l7)) as Hall by (unfold all_hold; rewrite !Hx7; cbn; by rewrite !T6).
    eapply runs_mono; [apply (runs_conclude b o _ _ _ Ha7 Hall); by rewrite Hph |].
    intros r l2 sl (-> & (_ & Hsame & Hpush') & Hhd & Hc2 & Hal2 & Hr2). by split_and!.
Qed.

(** Passes one after the other. *)
Fixpoint run_passes (bs : list Behaviour) (s : Server) : list (option Outcome) * Server :=
  match bs with
  | [] => ([], s)
  | b :: bs => let '(r, s) := run_pass b s in let '(rs, s) := run_passes bs s in (r :: rs, s)
  end.

(** An intent whose plan was stored, and whose manifests were not. *)
Definition planned_only (o : NetworkIntent) : Prop :=
  DeletionTimestamp o = None /\ NetworkIntentFinalizer constants ∈ Finalizers o /\ in_order o /\
  holds o "ResourcesPlanned" /\ holds o "ManifestsGenerated" = false.

Lemma planned_only_pass b s o rest :
  String.eqb (environment b "ENABLE_LLM_INTENT") "false" = false ->
  stored s = o :: rest -> planned_only o ->
  exists s' o', run_pass b s = (Some (failed 0 "resource plan not available for manifest generation"), s') /\
    head (stored s') = Some o' /\ planned_only o' /\ Phase (Status o') = "Error" /\ pushed s' = pushed s.
Proof.
  intros He Hs (Hd & Hf & Ho & Hrp & Hmg).
  edestruct (run_pass_process b s o rest (λ r l' s', r = failed 0 "resource plan not available for manifest generation" /\
    exists o', head (stored s') = Some o' /\ planned_only o' /\ Phase (Status o') = "Error" /\ pushed s' = pushed s))
    as (r & l' & s' & Hrun & -> & o' & Hc); [done | done | done | | by exists s', o'].
  unfold process. apply runs_bind, runs_bind. unfold runs at 1. cbn [serve getIntent].
  rewrite (not_complete _ "ManifestsGenerated"); [| by set_solver | done].
  apply runs_bind. unfold executeProcessingPipeline. apply runs_bind, runs_call. cbn [server_answer]. rewrite He.
  assert (holds o "Processed") as Hp by (unfold in_order in Ho; tauto).
  apply runs_skipPhase; [change (negb (holds o "Processed") = false); by rewrite (Is_true_eq_true _ Hp) |].
  apply runs_skipPhase; [change (due "Processed" "ResourcesPlanned" o = false); unfold due; by rewrite (Is_true_eq_true _ Hrp), andb_false_r |].
  pose proof (start_at o rest s Hs) as Ha0.
  eapply runs_stopPhase; [exact Ha0 | change (due "ResourcesPlanned" "ManifestsGenerated" o = true); unfold due; by rewrite (Is_true_eq_true _ Hrp), Hmg |].
  intros o1 s1 Ha1 Hs1. unfold GenerateManifests. apply runs_bind, runs_bind. unfold runs at 1. simpl.
  apply runs_bind. unfold runs at 1. simpl. apply runs_bind. unfold setReadyCondition. apply runs_bind, runs_setCondition.
  eapply runs_write; [exact (at_status _ _ (λ st, set_Conditions (UpdateCondition (Conditions st) _) st) _ _ Ha1) |].
  intros o2 s2 Ha2 Hs2 Hh2. simpl in Hs1, Hs2. split; [done |].
  unfold conclude. apply runs_bind. unfold runs at 1. cbn [serve getIntent error].
  apply runs_bind, runs_recordEvent, runs_bind. apply runs_persistErrorPhase with (1 := Hh2). intros s3 Hh3 Hp3.
  split; [done |]. eexists. split; [exact Hh3 |]. destruct Ha2 as (_ & (_ & _ & _ & _ & Hfin & Hdel) & Hpu). cbn [networkIntent] in *.
  split; [| split; [done | by rewrite Hp3]]. split; [by rewrite <- Hd |]. split; [simpl; by rewrite Hfin |].
  unfold in_order, holds in *. simpl. rewrite Hs2. simpl. rewrite !isConditionTrue_update. simpl. by rewrite Hs1.
Qed.

(** C25 - A plan that was stored by a pass that did not store its manifests
    blocks the intent for ever: plans are kept in memory alone, and every later
    pass, whatever the model and git answer, fails for lack of the plan and
    neither plans again nor commits. *)
Theorem forgotten_plans_block bs s o rest :
  Forall (λ b, String.eqb (environment b "ENABLE_LLM_INTENT") "false" = false) bs ->
  stored s = o :: rest -> planned_only o ->
  let '(rs, s') := run_passes bs s in
  Forall (eq (Some (failed 0 "resource plan not available for manifest generation"))) rs /\
  pushed s' = pushed s /\ exists o', head (stored s') = Some o' /\ planned_only o'.
Proof.
  intros Hbs. revert s o rest. induction Hbs as [| b bs He Hbs IH]; intros s o rest Hs Ho; simpl.
  { split_and!; [done | done |]. exists o. by rewrite Hs. }
  destruct (planned_only_pass b s o rest He Hs Ho) as (s1 & o1 & -> & Hh1 & Ho1 & _ & Hp1).
  destruct (stored s1) as [| o1' rest1] eqn:Es1; simplify_eq/=. specialize (IH s1 o1 rest1 Es1 Ho1).
  destruct (run_passes bs s1) as [rs s2]. destruct IH as (Hrs & Hp2 & Hex). split_and!; [by constructor | congruence | done].
Qed.

End runs.

(** ** What the reconciler guarantees in any cluster *)

Section guarantees.
Context {enc : Encodings} {san : Sanitizer} {rfc : TimeFormat}.
Context (deps : Dependencies) (config : Config) (constants : Constants).
Context {C : Cluster} {laws : ClusterLaws C}.
Hypothesis (Hmax : 0 < MaxRetries config).

(** C2 - Whatever fails, crashes, is read late or is edited by others, no stored
    version of an intent shows a phase's condition without that of the phase
    before it, and none is Completed without all five. *)
Theorem phases_in_order s o :
  reachable deps config constants s -> o ∈ versions s.1 ->
  in_order o /\ (Phase (Status o) = "Completed" -> all_hold o).
Proof. intros Hs Ho. by destruct (reachable_version deps config constants Hmax s o Hs Ho) as [(? & ? & _) _]. Qed.


(** C26 - The bound on retries is never reached: counts are kept in memory and in
    annotations that are written with the status only, so no intent is ever given
    up. *)
Theorem retries_never_run_out s o c :
  reachable deps config constants s -> o ∈ versions s.1 -> c ∈ Conditions (Status o) ->
  retry_free o /\ Reason c <> "LLMProcessingFailedMaxRetries" /\ Reason c <> "GitCommitFailedMaxRetries".
Proof.
  intros Hs Ho Hc. destruct (reachable_version deps config constants Hmax s o Hs Ho) as [(_ & _ & Hf & Hg) _].
  rewrite Forall_forall in Hg. specialize (Hg c Hc). unfold gives_up in Hg. tauto.
Qed.

(** C27 - Files are committed only by a pass that began before the resources were
    planned, and only under the path of its intent; no pass panics. *)
Theorem commits_follow_planning w t p :
  reachable deps config constants (w, Some (t, p)) ->
  (forall why, p <> Panic why) /\
  forall files message k, p = Vis (CommitAndPush files message) k -> files <> ∅ ->
    exists o, fetched t = Some o /\ holds o "ResourcesPlanned" = false /\
      forall path, is_Some (files !! path) -> HasPrefix path (basePath config o +:+ "/") = true.
Proof.
  intros Hs. apply reachable_ok in Hs as [_ (Hp & _)]; [| done..]. simpl in Hp. split; [by intros why -> |].
  intros files message k -> Hne. destruct Hp as [Hc _]. by apply Hc.
Qed.


End guarantees.

(** ** Passes computed *)

Module Demo.

Definition amf : Telecom.NetworkFunctionSpec :=
  Telecom.mkNetworkFunctionSpec "AMF" "5gc-control-plane" "Access and mobility" "R17" ["N1"; "N2"] ["AUSF"]
    (Telecom.mkResourceRequirements "8" "16Gi" "100Gi" "10Gbps" "") 10000 f64_one
    {["production" := Telecom.mkDeploymentConfig 3 "large"]} ∅ [] [].

Definition kb : Telecom.TelecomKnowledgeBase :=
  Telecom.mkTelecomKnowledgeBase {["amf" := amf]} ∅ ∅ ∅.

(** Encodings that know the one answer of the model. *)
#[export] Instance encodings : Encodings := {|
  json_Unmarshal s := if String.eqb s "amf" then Ok (JObject {["network_functions" := JArray [JString "AMF"]]}) else Err "invalid";
  json_Marshal _ := Ok "amf";
  json_MarshalPlan _ := Ok "plan";
  yaml_Marshal _ := Ok "yaml";
  yaml_MarshalSlice _ := "yaml"
|}.

#[export] Instance sanitizer : Sanitizer := {|
  SanitizeInput s := if String.eqb s "" then Err "input cannot be empty" else Ok s;
  ValidateOutput := Ok;
  BuildSecurePrompt _ prompt := prompt
|}.

#[export] Instance time_format : TimeFormat := λ _, "2026-01-01T00:00:00Z".

Definition deps : Dependencies := mkDependencies true true true (Some kb).
Definition config : Config := mkConfig 3 (30 * Second) (5 * Minute) "deployments".
Definition constants : Constants := mkConstants "fin" 3 (30 * Second) (5 * Minute) "networkintents" 10 (60 * Minute).

Definition created : NetworkIntent :=
  mkNetworkIntent "ran" "amf-a" "0" 1 ["fin"] ∅ None "deploy an amf" emptyStatus.

Definition happy : Behaviour :=
  mkBehaviour (λ _, LLMReturned (Ok "amf")) false (Ok tt) (Ok "0123456789abcdef") (λ _, "") 1000.
Definition git_down : Behaviour :=
  mkBehaviour (λ _, LLMReturned (Ok "amf")) false (Ok tt) (Err "push rejected") (λ _, "") 1000.

Definition fresh : Server := mkServer [created] [].

Definition pass (b : Behaviour) (s : Server) := run_pass deps config constants b s.

(** The functions by name, phase, conditions that hold, and the files pushed. *)
Definition summary (r : option Outcome * Server) : option (option string * string * list string * list (list string)) :=
  match r with
  | (Some out, s) =>
      Some (error out, default "" (Phase ∘ Status <$> head (stored s)),
        from_option (λ o, List.filter (holds o) ["Processed"; "ResourcesPlanned"; "ManifestsGenerated"; "GitOpsCommitted"; "DeploymentVerified"; "Ready"]) []
          (head (stored s)),
        map (λ files, (map_to_list files).*1) (pushed s))
  | (None, _) => None
  end.

Definition all_names : list string :=
  ["Processed"; "ResourcesPlanned"; "ManifestsGenerated"; "GitOpsCommitted"; "DeploymentVerified"; "Ready"].

Example pass_deploys : exists paths, summary (pass happy fresh) = Some (None, "Completed", all_names, [paths]) /\ length paths = 4%nat /\
  Forall (λ p, HasPrefix p "deployments/ran-amf-a/" = true) paths.
Proof. eexists. split; [by vm_compute |]. split; [by vm_compute |]. by repeat constructor. Qed.

(** A rejected push, then git works again: the next pass completes the intent,
    and nothing was ever pushed. *)
Example failed_push_completes :
  let s1 := (pass git_down fresh).2 in
  let r1 := (pass git_down fresh).1 in
  option_map error r1 = Some None /\ default 0 (RequeueAfter <$> r1) = Second /\
  summary (pass happy s1) = Some (None, "Completed", all_names, []).
Proof. by vm_compute. Qed.

(** An intent that was deleted; a git that refuses empty commits. *)
Definition deleted : NetworkIntent := mkNetworkIntent "ran" "amf-a" "0" 1 ["fin"] ∅ (Some 5) "deploy an amf" emptyStatus.

Example deletion_waits :
  pass happy (mkServer [deleted] []) =
  (Some (failed Minute "failed to remove GitOps resources: failed to commit: cannot create empty commit: clean working tree"),
   mkServer [deleted] []).
Proof. by vm_compute. Qed.

(** An intent the sanitizer refuses is written twice in every pass, the phase
    going to LLMProcessing and back: each pass makes new versions, whose events
    start the next. *)
Definition empty_text : NetworkIntent := mkNetworkIntent "ran" "amf-a" "0" 1 ["fin"] ∅ None "" emptyStatus.

Example refused_again_and_again :
  let s1 := (pass happy (mkServer [empty_text] [])).2 in
  let s2 := (pass happy s1).2 in
  Phase ∘ Status <$> stored s2 = ["Error"; "LLMProcessing"; "Error"; "LLMProcessing"; ""].
Proof. by vm_compute. Qed.

(** A changed text of a completed intent starts nothing. *)
Definition edited (o : NetworkIntent) : NetworkIntent :=
  mkNetworkIntent (Namespace o) (Name o) (ResourceVersion o) 2 (Finalizers o) (Annotations o) None "remove the amf" (Status o).

Example edits_are_ignored :
  match stored (pass happy fresh).2 with
  | o :: rest => (pass happy (mkServer (edited o :: rest) [])) = (Some ok, mkServer (edited o :: rest) [])
  | [] => False
  end.
Proof. vm_compute. reflexivity. Qed.

(** A count below zero, which only another client can write, has the delay end
    at 0: the pass goes on after the failed push and completes the intent without
    the condition of the commit. *)
Definition negative_count : NetworkIntent :=
  mkNetworkIntent "ran" "amf-a" "0" 1 ["fin"] {[retryCountKey "git-deployment" := "-5"]} None "deploy an amf" emptyStatus.

Example negative_count_completes :
  summary (pass git_down (mkServer [negative_count] [])) =
  Some (None, "Completed", ["Processed"; "ResourcesPlanned"; "ManifestsGenerated"; "Ready"], []).
Proof. by vm_compute. Qed.

(** With the model disabled nothing is deployed, and enabling it later runs the
    other phases without an answer of the model. *)
Definition disabled : Behaviour :=
  mkBehaviour (λ _, LLMReturned (Ok "amf")) false (Ok tt) (Ok "0123456789abcdef") (λ _, "false") 1000.

Example bypass_then_enable :
  let s1 := (pass disabled fresh).2 in
  summary (pass disabled fresh) = Some (None, "Processed", ["Processed"], []) /\
  summary (pass happy s1) = Some (None, "Completed", all_names, [["deployments/ran-amf-a/intent-placeholder.yaml"]]).
Proof. by vm_compute. Qed.

(** A pass whose first read is late: the cache still has an earlier version. *)
Definition late_answer (b : Behaviour) (old : NetworkIntent) (c : Call) (w : Server * bool) : Answer c * (Server * bool) :=
  match c as c return Answer c * (Server * bool) with
  | Get => if w.2 then (Ok old, (w.1, false)) else let '(r, s) := server_answer b Get w.1 in (r, (s, false))
  | c => let '(r, s) := server_answer b c w.1 in (r, (s, w.2))
  end.

(** Its writes are refused, and the phase Error is put on the version it reads
    then: the completed intent shows Error, and no later pass changes that. *)
Example late_read_spoils :
  let s1 := (pass happy fresh).2 in
  let old := default created (stored s1 !! 3%nat) in
  let '(r, (s2, _)) := serve (late_answer happy old) (Reconcile deps config constants) (s1, true) in
  error <$> r = Some (Some "failed to update deployment verification phase: the object has been modified") /\
  option_map (λ q, q.1.1.2) (summary (r, s2)) = Some "Error" /\
  option_map (λ q, q.1.2) (summary (r, s2)) = Some all_names /\
  (pass happy s2).1 = Some ok /\ length (stored (pass happy s2).2) = length (stored s2).
Proof. by vm_compute. Qed.


(** ** States that are reached *)

(** A client stores the object, and a pass starts. *)
Lemma started_reachable o : retry_free o -> Status o = emptyStatus ->
  reachable deps config constants (mkServer [o] [], None).
Proof.
  intros Hf Hs. exists (mkServer [] [], None). split; [done |]. apply rtc_once, step_other. exists o. by split_and!; [| | left].
Qed.

Lemma created_free : retry_free created.
Proof. intros op. apply lookup_empty. Qed.

Lemma happy_behaves : behaves happy.
Proof. intros h [= <-]. by vm_compute; lia. Qed.

Lemma run_result b s r : (pass b s).1 = Some r -> pass b s = (Some r, (pass b s).2).
Proof. destruct (pass b s) as [o s']. by intros [= ->]. Qed.

Lemma pass_reachable : reachable deps config constants ((pass happy fresh).2, None).
Proof.
  destruct (started_reachable created created_free eq_refl) as (s0 & Hi & Hr). exists s0. split; [done |].
  etransitivity; [exact Hr |]. apply (pass_steps deps config constants happy fresh ok); [exact happy_behaves |].
  exact (run_result happy fresh ok ltac:(by vm_compute)).
Qed.

(** A pass after some of its calls. *)
Fixpoint advance (b : Behaviour) (n : nat) (s : Server) (t : list (event Answer)) (p : prog Answer Outcome)
    : Server * (list (event Answer) * prog Answer Outcome) :=
  match n, p with
  | S n, Vis c k => let '(r, s') := server_answer b c s in advance b n s' (Ev c r :: t) (k r)
  | _, _ => (s, (t, p))
  end.

Lemma advance_steps b n s t p s' q : behaves b -> advance b n s t p = (s', q) ->
  rtc (step deps config constants) (s, Some (t, p)) (s', Some q).
Proof.
  intros Hb. revert s t p. induction n as [| n IH]; intros s t p; simpl; [by intros [= <- <-] |].
  destruct p as [a | c k | why]; [by intros [= <- <-] | | by intros [= <- <-]].
  destruct (server_answer b c s) as [r s1] eqn:E. intros H.
  refine (rtc_l _ _ _ _ (step_call deps config constants s t c k r s1 (ex_intro _ b (conj Hb E))) _). by apply IH.
Qed.

Definition advanced (n : nat) (o : NetworkIntent) := advance happy n (mkServer [o] []) [] (Reconcile deps config constants).

Lemma advanced_reachable n o : retry_free o -> Status o = emptyStatus ->
  reachable deps config constants ((advanced n o).1, Some ((advanced n o).2.1, (advanced n o).2.2)).
Proof.
  intros Hf Hs. rewrite <- (surjective_pairing (advanced n o).2). destruct (started_reachable o Hf Hs) as (s0 & Hi & Hr). exists s0. split; [done |].
  etransitivity; [exact Hr |]. refine (rtc_l _ _ _ _ (step_start deps config constants _) _).
  apply (advance_steps happy n); [exact happy_behaves |]. apply surjective_pairing.
Qed.

(** The call a program waits for. *)
Definition pending_files (p : prog Answer Outcome) : option (gmap string string) :=
  match p with Vis (CommitAndPush files _) _ => Some files | _ => None end.
Definition pending_update (p : prog Answer Outcome) : option NetworkIntent :=
  match p with Vis (Update o) _ => Some o | _ => None end.

Lemma pending_files_spec p files : pending_files p = Some files -> exists message k, p = Vis (CommitAndPush files message) k.
Proof. destruct p as [| c k |]; [done | | done]. destruct c; try done. intros [= <-]. by eexists _, _. Qed.

Lemma pending_update_spec p o : pending_update p = Some o -> exists k, p = Vis (Update o) k.
Proof. destruct p as [| c k |]; [done | | done]. destruct c; try done. intros [= <-]. by eexists. Qed.

Lemma demo_retries : 0 < MaxRetries config.
Proof. done. Qed.

(** The object after the pass, and its condition of the commit. *)
Definition finished : NetworkIntent := default created (head (stored (pass happy fresh).2)).
Definition commit_condition : Condition :=
  default (mkCondition "" ConditionFalse "" "" 0) (Conditions (Status finished) !! 3%nat).

Lemma finished_stored : finished ∈ stored (pass happy fresh).2.
Proof. apply head_Some_elem_of. by vm_compute. Qed.

Lemma commit_condition_in : commit_condition ∈ Conditions (Status finished).
Proof. apply (list_elem_of_lookup_2 _ 3). by vm_compute. Qed.

(** The files a pass offers to git, and the object a new intent gets its
    finalizer with. *)
Definition offered : gmap string string := default ∅ (pending_files (advanced 25 created).2.2).

Definition unguarded : NetworkIntent := mkNetworkIntent "ran" "amf-a" "0" 1 [] ∅ None "deploy an amf" emptyStatus.
Definition guarded : NetworkIntent := default unguarded (pending_update (advanced 2 unguarded).2.2).

Lemma map_nonempty (m : gmap string string) n : size m = S n -> m <> ∅.
Proof. by intros Hn ->. Qed.

(** ** Instances of the theorems *)

Lemma phases_in_order_witness : Phase (Status finished) = "Completed" /\ in_order finished /\ all_hold finished.
Proof.
  destruct (phases_in_order deps config constants demo_retries _ finished pass_reachable finished_stored) as [Ho Hc].
  assert (Phase (Status finished) = "Completed") as E by by vm_compute. split_and!; [exact E | exact Ho | exact (Hc E)].
Defined.


Lemma retries_never_run_out_witness : retry_free finished /\ Reason commit_condition <> "GitCommitFailedMaxRetries".
Proof.
  destruct (retries_never_run_out deps config constants demo_retries _ finished commit_condition pass_reachable finished_stored
    commit_condition_in) as (Hf & _ & Hr). by split.
Defined.

Lemma commits_follow_planning_witness : size offered = 4%nat /\ exists o,
  fetched (advanced 25 created).2.1 = Some o /\ holds o "ResourcesPlanned" = false /\
  forall path, is_Some (offered !! path) -> HasPrefix path (basePath config o +:+ "/") = true.
Proof.
  assert (pending_files (advanced 25 created).2.2 = Some offered) as Hf by (vm_compute; reflexivity).
  pose proof (advanced_reachable 25 created created_free eq_refl) as Hr.
  assert (size offered = 4%nat) as Hn by by vm_compute.
  destruct (advanced 25 created) as [w [t p]]. cbn [fst snd] in *.
  apply pending_files_spec in Hf as (m & k & E). split; [exact Hn |]. apply (proj2 (commits_follow_planning (C := server_cluster) deps config constants demo_retries w t p Hr) offered m k E).
  exact (map_nonempty offered 3 Hn).
Defined.


(** The server after a rejected push. *)
Definition unpushed : Server := (pass git_down fresh).2.
Definition uncommitted : NetworkIntent := default created (head (stored unpushed)).

Lemma unfinished_commits_are_lost_witness : holds uncommitted "GitOpsCommitted" = false /\
  exists s' o', run_pass deps config constants happy unpushed = (Some ok, s') /\ completed uncommitted unpushed s' [] o'.
Proof.
  assert (holds uncommitted "GitOpsCommitted" = false) as Hc by (vm_compute; reflexivity). split; [exact Hc |].
  assert (stored unpushed = uncommitted :: tail (stored unpushed)) as Hs by (vm_compute; reflexivity).
  assert (in_order uncommitted) as Ho by (vm_compute; tauto).
  assert (holds uncommitted "ManifestsGenerated") as Hm by (vm_compute; exact I).
  assert (NetworkIntentFinalizer constants ∈ Finalizers uncommitted) as Hf by (vm_compute; left).
  assert (DeletionTimestamp uncommitted = None) as Hd by (vm_compute; reflexivity).
  exact (unfinished_commits_are_lost deps config constants happy unpushed uncommitted _ eq_refl Hs Hd Hf Ho Hm Hc).
Defined.

(** An intent whose first pass ended after the plan was stored. *)
Definition only_planned : NetworkIntent :=
  mkNetworkIntent "ran" "amf-a" "7" 1 ["fin"] ∅ None "deploy an amf"
    (mkStatus "ResourcePlanning" 0 1
      [mkCondition "Processed" ConditionTrue "LLMProcessingSucceeded" "" 0;
       mkCondition "ResourcesPlanned" ConditionTrue "ResourcePlanningSucceeded" "" 0] ∅).

Lemma forgotten_plans_block_witness :
  let '(rs, s') := run_passes deps config constants [git_down; happy; happy] (mkServer [only_planned] []) in
  Forall (eq (Some (failed 0 "resource plan not available for manifest generation"))) rs /\ length rs = 3%nat /\ pushed s' = [].
Proof.
  pose proof (forgotten_plans_block deps config constants [git_down; happy; happy] (mkServer [only_planned] []) only_planned []
    ltac:(by repeat constructor) eq_refl ltac:(split; [done |]; split; [by left |]; vm_compute; tauto)) as H.
  assert (length (run_passes deps config constants [git_down; happy; happy] (mkServer [only_planned] [])).1 = 3%nat) as Hl by by vm_compute.
  destruct (run_passes deps config constants [git_down; happy; happy] (mkServer [only_planned] [])) as [rs s'].
  destruct H as (Hr & Hp & _). by split_and!.
Defined.

(** The manifests of the one function of the plan. *)
Definition amf_manifests : gmap string string :=
  match unmarshalMap "amf" with
  | Ok (Some params) =>
      match manifestsOf created (planResources (Some kb) params (buildTelecomEnhancedPrompt (Some kb) "deploy an amf").1) with
      | Ok m => m
      | Err _ => ∅
      end
  | _ => ∅
  end.

Lemma happy_cooperates : cooperates deps config happy created amf_manifests.
Proof.
  split; [by vm_compute | by vm_compute | split; [done |]; eexists; split; [done | by vm_compute; lia] |].
  exists "deploy an amf", "amf", "amf", {["network_functions" := JArray [JString "AMF"]]}, "amf".
  destruct (buildTelecomEnhancedPrompt (TelecomKnowledgeBase deps) "deploy an amf") as [ctx prompt] eqn:E.
  split_and!; try done. by eexists.
Qed.

Lemma one_pass_deploys_witness : size amf_manifests = 4%nat /\
  exists s' o', run_pass deps config constants happy fresh = (Some ok, s') /\ completed created fresh s' [deploymentFiles config created amf_manifests] o'.
Proof.
  split; [by vm_compute |].
  apply (one_pass_deploys deps config constants happy fresh created [] amf_manifests happy_cooperates);
    [done | done | by vm_compute; left | exact created_free | by vm_compute | by vm_compute].
Defined.

End Demo.
