(* ===== verification/PorchTypes.v ===== *)
(** * PorchTypes: pkg/nephio/porch/types.go

    The packages and repositories of Porch: their structs, the lifecycle of a
    package revision and the conditions.  Of the metadata of a Kubernetes
    object the source uses the name and the time of creation; the rest is the
    type [ObjectMetaRest] of the class [Kube].  A nil map or slice is an empty
    one. *)

From S2P Require Import Prelude.

Local Open Scope Z_scope.

(** ** References *)

Record PackageReference := mkPackageReference {
  Repository : string;
  PackageName : string;
  Revision : string
}.

#[global] Instance PackageReference_eq_dec : EqDecision PackageReference.
Proof. solve_decision. Defined.

Definition GetPackageKey (pr : PackageReference) : string :=
  Repository pr +:+ "/" +:+ PackageName pr +:+ "@" +:+ Revision pr.

(** ** The lifecycle of a package revision *)

Abbreviation PackageRevisionLifecycle := string.

Definition PackageRevisionLifecycleDraft : PackageRevisionLifecycle := "Draft".
Definition PackageRevisionLifecycleProposed : PackageRevisionLifecycle := "Proposed".
Definition PackageRevisionLifecyclePublished : PackageRevisionLifecycle := "Published".
Definition PackageRevisionLifecycleDeletable : PackageRevisionLifecycle := "Deletable".

Definition IsValidLifecycle (lifecycle : PackageRevisionLifecycle) : bool :=
  String.eqb lifecycle PackageRevisionLifecycleDraft ||
  String.eqb lifecycle PackageRevisionLifecycleProposed ||
  String.eqb lifecycle PackageRevisionLifecyclePublished ||
  String.eqb lifecycle PackageRevisionLifecycleDeletable.

Definition lifecycleTransitions : gmap PackageRevisionLifecycle (list PackageRevisionLifecycle) :=
  <[PackageRevisionLifecycleDraft :=
      [PackageRevisionLifecycleProposed; PackageRevisionLifecycleDeletable]]>
  (<[PackageRevisionLifecycleProposed :=
      [PackageRevisionLifecyclePublished; PackageRevisionLifecycleDraft;
       PackageRevisionLifecycleDeletable]]>
  (<[PackageRevisionLifecyclePublished := [PackageRevisionLifecycleDeletable]]>
  (<[PackageRevisionLifecycleDeletable := []]> ∅))).

Definition CanTransitionTo (current target : PackageRevisionLifecycle) : bool :=
  match lifecycleTransitions !! current with
  | Some validTargets => existsb (λ valid, String.eqb valid target) validTargets
  | None => false
  end.

(** ** Resources and functions *)

Record KRMResource := mkKRMResource {
  APIVersion : string;
  Kind : string;
  Metadata : gmap string any;
  krm_Spec : gmap string any;
  krm_Status : gmap string any;
  Data : gmap string any
}.

Record ResourceSelector := mkSelector {
  sel_APIVersion : string;
  sel_Kind : string;
  sel_Name : string;
  sel_Namespace : string;
  sel_Labels : gmap string string
}.

Record ExecConfig := mkExec {
  exec_Args : list string;
  exec_Env : gmap string string;
  WorkDir : string
}.

Record FunctionConfig := mkFunction {
  Image : string;
  ConfigPath : string;
  ConfigMap : gmap string any;
  Selectors : list ResourceSelector;
  Exec : option ExecConfig
}.

Record FunctionResult := mkFunctionResult {
  fr_Message : string;
  fr_Severity : string;
  fr_Field : string;
  fr_File : string;
  fr_Tags : gmap string string
}.

Record PackageMetadata := mkPackageMetadata {
  Description : string;
  Keywords : list string;
  Site : string;
  Emails : list string;
  License : string;
  pm_Tags : gmap string string
}.

Record WorkflowLock := mkWorkflowLock {
  LockedBy : string;
  LockedAt : option Time;
  wl_Reason : string;
  WorkflowID : string
}.

(** ** Validation and rendering *)

Record ValidationError := mkValidationError {
  ve_Path : string;
  Message : string;
  ve_Severity : string;
  Code : string;
  Remediation : string
}.

Record ValidationResult := mkValidation {
  Valid : bool;
  Errors : list ValidationError;
  Warnings : list ValidationError
}.

Record RenderError := mkRenderError {
  re_Message : string;
  re_Type : string;
  re_Details : string
}.

Record RenderResult := mkRender {
  rr_Resources : list KRMResource;
  Results : list FunctionResult;
  rr_Error : option RenderError
}.

(** ** Conditions *)

Record Condition := mkCondition {
  cond_Type : string;
  cond_Status : string;
  ObservedGeneration : Z;
  LastTransitionTime : Time;
  Reason : string;
  cond_Message : string
}.

Definition ConditionTrue : string := "True".

(** [SetCondition] of both types: the condition of the same type is replaced
    where it stands. *)
Fixpoint setCondition (condition : Condition) (l : list Condition) : list Condition :=
  match l with
  | [] => [condition]
  | existing :: l =>
      if String.eqb (cond_Type existing) (cond_Type condition) then condition :: l
      else existing :: setCondition condition l
  end.

(** [GetCondition] of a repository. *)
Definition repository_GetCondition (conditionType : string) (l : list Condition) : option Condition :=
  List.find (λ condition, String.eqb (cond_Type condition) conditionType) l.

(** [GetCondition] of a package revision: it compares the type of a condition
    with itself. *)
Definition GetCondition (conditionType : string) (l : list Condition) : option Condition :=
  List.find (λ condition, String.eqb (cond_Type condition) (cond_Type condition)) l.

(** ** Deployment *)

Record DeployedResource := mkDeployedResource {
  dr_APIVersion : string;
  dr_Kind : string;
  dr_Name : string;
  dr_Namespace : string;
  dr_Status : string
}.

Record DeploymentTarget := mkDeploymentTarget {
  Cluster : string;
  dt_Namespace : string;
  dt_Status : string;
  dt_Error : string;
  dt_Resources : list DeployedResource
}.

Record DeploymentStatus := mkDeployment {
  Phase : string;
  dep_Conditions : list Condition;
  Targets : list DeploymentTarget;
  dep_StartTime : option Time;
  dep_EndTime : option Time
}.

(** ** Objects *)

Class Kube := {
  ObjectMetaRest : Type
}.

Section objects.
Context {K : Kube}.

Record TypeMeta := mkTypeMeta {
  tm_Kind : string;
  tm_APIVersion : string
}.

Record ObjectMeta := mkObjectMeta {
  Name : string;
  CreationTimestamp : Time;
  om_rest : ObjectMetaRest
}.

Record PackageRevisionSpec := mkPackageSpec {
  prs_PackageName : string;
  prs_Repository : string;
  prs_Revision : string;
  Lifecycle : PackageRevisionLifecycle;
  Resources : list KRMResource;
  Functions : list FunctionConfig;
  prs_PackageMetadata : option PackageMetadata;
  prs_WorkflowLock : option WorkflowLock
}.

Record PackageRevisionStatus := mkPackageStatus {
  Conditions : list Condition;
  PublishTime : option Time;
  ValidationResults : list ValidationResult;
  RenderingResults : option RenderResult;
  prs_DeploymentStatus : option DeploymentStatus;
  PackageSize : Z;
  Downstream : list PackageReference
}.

Record PackageRevision := mkPackageRevision {
  pr_TypeMeta : TypeMeta;
  pr_ObjectMeta : ObjectMeta;
  Spec : PackageRevisionSpec;
  Status : PackageRevisionStatus
}.

Definition eta_package (p : PackageRevision) : PackageRevision :=
  mkPackageRevision (pr_TypeMeta p) (pr_ObjectMeta p) (Spec p) (Status p).

Definition set_TypeMeta : TypeMeta -> PackageRevision -> PackageRevision :=
  ltac:(record_setter eta_package pr_TypeMeta).
Definition set_ObjectMeta : ObjectMeta -> PackageRevision -> PackageRevision :=
  ltac:(record_setter eta_package pr_ObjectMeta).
Definition set_Spec : PackageRevisionSpec -> PackageRevision -> PackageRevision :=
  ltac:(record_setter eta_package Spec).
Definition set_Status : PackageRevisionStatus -> PackageRevision -> PackageRevision :=
  ltac:(record_setter eta_package Status).

Definition set_Lifecycle (l : PackageRevisionLifecycle) (p : PackageRevision) : PackageRevision :=
  let sp := Spec p in
  set_Spec (mkPackageSpec (prs_PackageName sp) (prs_Repository sp) (prs_Revision sp) l (Resources sp)
    (Functions sp) (prs_PackageMetadata sp) (prs_WorkflowLock sp)) p.

Definition set_Conditions (l : list Condition) (st : PackageRevisionStatus) : PackageRevisionStatus :=
  mkPackageStatus l (PublishTime st) (ValidationResults st) (RenderingResults st)
    (prs_DeploymentStatus st) (PackageSize st) (Downstream st).

Definition set_PublishTime (t : option Time) (st : PackageRevisionStatus) : PackageRevisionStatus :=
  mkPackageStatus (Conditions st) t (ValidationResults st) (RenderingResults st)
    (prs_DeploymentStatus st) (PackageSize st) (Downstream st).

Definition SetCondition (condition : Condition) (p : PackageRevision) : PackageRevision :=
  set_Status (set_Conditions (setCondition condition (Conditions (Status p))) (Status p)) p.

Record SecretReference := mkSecretReference {
  sr_Name : string;
  sr_Namespace : string;
  sr_Key : string
}.

Record AuthConfig := mkAuthConfig {
  auth_Type : string;
  Username : string;
  Password : string;
  Token : string;
  PrivateKey : string;
  SecretRef : option SecretReference;
  Headers : gmap string string
}.

Record SyncConfig := mkSyncConfig {
  sync_Interval : option Duration;
  AutoSync : bool;
  MaxRetries : Z;
  BackoffLimit : option Duration;
  WebhookEnabled : bool
}.

Record RepositorySpec := mkRepositorySpec {
  rs_Type : string;
  URL : string;
  Branch : string;
  Directory : string;
  Auth : option AuthConfig;
  Sync : option SyncConfig;
  Capabilities : list string
}.

Record RepositoryStatus := mkRepositoryStatus {
  rst_Conditions : list Condition;
  LastSyncTime : option Time;
  CommitHash : string;
  SyncError : string;
  PackageCount : Z;
  Health : string
}.

(** The object; [Repository] is the field of a reference. *)
Record RepositoryObject := mkRepository {
  repo_TypeMeta : TypeMeta;
  repo_ObjectMeta : ObjectMeta;
  repo_Spec : RepositorySpec;
  repo_Status : RepositoryStatus
}.

Definition set_repo_Meta (tm : TypeMeta) (om : ObjectMeta) (r : RepositoryObject) : RepositoryObject :=
  mkRepository tm om (repo_Spec r) (repo_Status r).

(** What [SyncRepository] writes. *)
Definition synced (now : Time) (r : RepositoryObject) : RepositoryObject :=
  let st := repo_Status r in
  mkRepository (repo_TypeMeta r) (repo_ObjectMeta r) (repo_Spec r)
    (mkRepositoryStatus (rst_Conditions st) (Some now) (CommitHash st) "" (PackageCount st) (Health st)).

End objects.

(** ** Lifecycle and conditions *)

(** The table lists stages of the lifecycle only. *)
Lemma CanTransitionTo_valid current target : CanTransitionTo current target = true ->
  IsValidLifecycle current = true /\ IsValidLifecycle target = true /\ current <> target.
Proof.
  unfold CanTransitionTo. destruct (lifecycleTransitions !! current) as [l |] eqn:E; [| done].
  intros (v & Hin & ->%String.eqb_eq)%existsb_exists. unfold lifecycleTransitions in E.
  repeat (apply lookup_insert_Some in E as [[<- <-] | [_ E]];
    [simpl in Hin; repeat destruct Hin as [<- | Hin]; by try done |]).
  by rewrite lookup_empty in E.
Qed.

(** A condition keeps its place; a new type goes to the end. *)
Lemma setCondition_types condition l :
  cond_Type <$> setCondition condition l =
  if bool_decide (cond_Type condition ∈ cond_Type <$> l) then cond_Type <$> l
  else (cond_Type <$> l) ++ [cond_Type condition].
Proof.
  induction l as [| c l IH]; csimpl; [done |].
  destruct (String.eqb_spec (cond_Type c) (cond_Type condition)) as [E | Hne]; csimpl.
  - rewrite E, bool_decide_true by apply list_elem_of_here. done.
  - rewrite IH. assert (cond_Type condition ∈ cond_Type c :: (cond_Type <$> l) <->
      cond_Type condition ∈ cond_Type <$> l) as Hiff
      by (rewrite elem_of_cons; split; [intros [? | ?]; [congruence | done] | by right]).
    rewrite (bool_decide_ext _ _ Hiff). by case_bool_decide.
Qed.

(** No two conditions of an object have the same type. *)
Lemma setCondition_NoDup condition l :
  NoDup (cond_Type <$> l) -> NoDup (cond_Type <$> setCondition condition l).
Proof.
  intros Hl. rewrite setCondition_types. case_bool_decide as Hin; [done |].
  apply NoDup_app. split; [done |]. split; [| apply NoDup_singleton].
  intros x Hx ->%list_elem_of_singleton. done.
Qed.

Lemma setCondition_get condition l :
  repository_GetCondition (cond_Type condition) (setCondition condition l) = Some condition.
Proof.
  unfold repository_GetCondition.
  induction l as [| c l IH]; simpl; [by rewrite String.eqb_refl |].
  destruct (String.eqb_spec (cond_Type c) (cond_Type condition)) as [E | Hne]; simpl.
  - by rewrite String.eqb_refl.
  - by rewrite (proj2 (String.eqb_neq _ _) Hne).
Qed.

(** A condition stays until one of its own type replaces it: a package that was
    rejected and then approved has both conditions. *)
Lemma setCondition_other condition t l : t <> cond_Type condition ->
  repository_GetCondition t (setCondition condition l) = repository_GetCondition t l.
Proof.
  unfold repository_GetCondition. intros Hne.
  induction l as [| c l IH]; simpl; [by rewrite (proj2 (String.eqb_neq _ _)) |].
  destruct (String.eqb_spec (cond_Type c) (cond_Type condition)) as [E | Hc]; simpl.
  - by rewrite E, (proj2 (String.eqb_neq _ _)).
  - by rewrite IH.
Qed.

(** [GetCondition] of a package revision gives the first condition, whatever
    type it is asked for. *)
Lemma GetCondition_first t l : GetCondition t l = head l.
Proof. unfold GetCondition. destruct l; simpl; [done |]. by rewrite String.eqb_refl. Qed.
