(* ===== verification/Orchestration.v ===== *)
(** * Orchestration: the intent-processing state machine and phase tracker

    [StateMachine] models pkg/controllers/orchestration/state_machine.go,
    [PhaseTracker] models the tracker of
    pkg/controllers/orchestration/phase_tracker.go.  A processing phase is
    the string the source uses; the rule tables are finite maps filled the
    way the [initialize...] methods fill them.  The API type NetworkIntent
    is read through its two status fields, which are arguments. *)

From S2P Require Import Prelude GoFloat.

(** ** Phases (pkg/controllers/interfaces/controller_interfaces.go) *)

Abbreviation ProcessingPhase := string.

Definition PhaseIntentReceived : ProcessingPhase := "IntentReceived".
Definition PhaseReceived : ProcessingPhase := "Received".
Definition PhaseLLMProcessing : ProcessingPhase := "LLMProcessing".
Definition PhaseResourcePlanning : ProcessingPhase := "ResourcePlanning".
Definition PhaseManifestGeneration : ProcessingPhase := "ManifestGeneration".
Definition PhaseGitOpsCommit : ProcessingPhase := "GitOpsCommit".
Definition PhaseDeploymentVerification : ProcessingPhase := "DeploymentVerification".
Definition PhaseCompleted : ProcessingPhase := "Completed".
Definition PhaseFailed : ProcessingPhase := "Failed".

Module StateMachine.

Abbreviation PhaseMap := (gmap string (list ProcessingPhase)).

Record StateMachine := mkStateMachine {
  transitions : PhaseMap;
  parallelPhases : PhaseMap;
  dependencies : PhaseMap;
  terminalStates : gmap string bool;
  EnableParallelProcessing : bool
}.

(** A status condition of the intent, as far as this code reads it. *)
Record Condition := mkCondition {
  cond_Type : string;
  cond_Status : string;
  cond_Reason : string
}.

Definition initializeTransitions (m : PhaseMap) : PhaseMap :=
  let m := <[PhaseIntentReceived := [PhaseLLMProcessing]]> m in
  let m := <[PhaseLLMProcessing := [PhaseResourcePlanning; PhaseFailed]]> m in
  let m := <[PhaseResourcePlanning := [PhaseManifestGeneration; PhaseFailed]]> m in
  let m := <[PhaseManifestGeneration := [PhaseGitOpsCommit; PhaseFailed]]> m in
  let m := <[PhaseGitOpsCommit := [PhaseDeploymentVerification; PhaseFailed]]> m in
  let m := <[PhaseDeploymentVerification := [PhaseCompleted; PhaseFailed]]> m in
  let m := <[PhaseCompleted := []]> m in
  <[PhaseFailed := []]> m.

Definition initializeParallelProcessing (m : PhaseMap) : PhaseMap :=
  let m := <[PhaseResourcePlanning := [PhaseManifestGeneration]]> m in
  <[PhaseManifestGeneration := [PhaseGitOpsCommit]]> m.

Definition initializeDependencies (m : PhaseMap) : PhaseMap :=
  let m := <[PhaseLLMProcessing := []]> m in
  let m := <[PhaseResourcePlanning := [PhaseLLMProcessing]]> m in
  let m := <[PhaseManifestGeneration := [PhaseResourcePlanning]]> m in
  let m := <[PhaseGitOpsCommit := [PhaseManifestGeneration]]> m in
  <[PhaseDeploymentVerification := [PhaseGitOpsCommit]]> m.

Definition initializeTerminalStates (m : gmap string bool) : gmap string bool :=
  <[PhaseFailed := true]> (<[PhaseCompleted := true]> m).

Definition NewStateMachine (parallel : bool) : StateMachine :=
  {| transitions := initializeTransitions ∅;
     parallelPhases := initializeParallelProcessing ∅;
     dependencies := initializeDependencies ∅;
     terminalStates := initializeTerminalStates ∅;
     EnableParallelProcessing := parallel |}.

Definition validPhases : list ProcessingPhase :=
  [PhaseIntentReceived; PhaseLLMProcessing; PhaseResourcePlanning; PhaseManifestGeneration;
   PhaseGitOpsCommit; PhaseDeploymentVerification; PhaseCompleted; PhaseFailed].

Definition isValidPhase (phase : ProcessingPhase) : bool :=
  existsb (fun v => bool_decide (phase = v)) validPhases.

(** [intent.Status.Phase] is the argument. *)
Definition GetCurrentPhase (status_phase : string) : ProcessingPhase :=
  if bool_decide (status_phase = "") then PhaseIntentReceived
  else if isValidPhase status_phase then status_phase
  else PhaseIntentReceived.

Definition GetNextPhase (sm : StateMachine) (currentPhase : ProcessingPhase) : ProcessingPhase :=
  match transitions sm !! currentPhase with
  | Some (next :: _) => next
  | _ => PhaseFailed
  end.

Definition GetPossibleTransitions (sm : StateMachine) (currentPhase : ProcessingPhase)
  : list ProcessingPhase :=
  match transitions sm !! currentPhase with
  | Some ts => ts
  | None => []
  end.

Definition CanTransitionTo (sm : StateMachine) (from to : ProcessingPhase) : bool :=
  existsb (fun phase => bool_decide (phase = to)) (GetPossibleTransitions sm from).

Definition GetParallelPhases (sm : StateMachine) (phase : ProcessingPhase) : list ProcessingPhase :=
  if EnableParallelProcessing sm then
    match parallelPhases sm !! phase with
    | Some ps => ps
    | None => []
    end
  else [].

Definition GetPhaseDependencies (sm : StateMachine) (phase : ProcessingPhase)
  : list ProcessingPhase :=
  match dependencies sm !! phase with
  | Some ds => ds
  | None => []
  end.

(** A missing key of a Go map reads as the zero value. *)
Definition IsTerminalPhase (sm : StateMachine) (phase : ProcessingPhase) : bool :=
  default false (terminalStates sm !! phase).

Definition isPhaseCompleted (conds : list Condition) (phase : ProcessingPhase) : bool :=
  existsb (fun c => bool_decide (cond_Type c = phase) && bool_decide (cond_Status c = "True")) conds.

Inductive TransitionError :=
| InvalidTransition (from to : ProcessingPhase)
| DependencyNotCompleted (dep to : ProcessingPhase).

Fixpoint checkDependencies (conds : list Condition) (deps : list ProcessingPhase)
  (toPhase : ProcessingPhase) : result TransitionError unit :=
  match deps with
  | [] => Ok tt
  | dep :: rest =>
      if isPhaseCompleted conds dep then checkDependencies conds rest toPhase
      else Err (DependencyNotCompleted dep toPhase)
  end.

Definition ValidateTransition (sm : StateMachine) (conds : list Condition)
  (fromPhase toPhase : ProcessingPhase) : result TransitionError unit :=
  if negb (CanTransitionTo sm fromPhase toPhase) then Err (InvalidTransition fromPhase toPhase)
  else checkDependencies conds (GetPhaseDependencies sm toPhase) toPhase.

(** *** Workflows *)

Record WorkflowPhase := mkWorkflowPhase {
  wp_Phase : ProcessingPhase;
  wp_Required : bool;
  wp_Parallel : bool;
  wp_Dependencies : list ProcessingPhase;
  wp_EstimatedDuration : string
}.

Record ProcessingWorkflow := mkProcessingWorkflow {
  wf_IntentType : string;
  wf_Phases : list WorkflowPhase
}.

Definition buildDeploymentWorkflow : list WorkflowPhase :=
  [mkWorkflowPhase PhaseLLMProcessing true false [] "2m";
   mkWorkflowPhase PhaseResourcePlanning true false [PhaseLLMProcessing] "1m";
   mkWorkflowPhase PhaseManifestGeneration true true [PhaseResourcePlanning] "30s";
   mkWorkflowPhase PhaseGitOpsCommit true false [PhaseManifestGeneration] "1m";
   mkWorkflowPhase PhaseDeploymentVerification true false [PhaseGitOpsCommit] "3m"].

Definition buildScalingWorkflow : list WorkflowPhase :=
  [mkWorkflowPhase PhaseLLMProcessing true false [] "1m";
   mkWorkflowPhase PhaseResourcePlanning true false [PhaseLLMProcessing] "30s";
   mkWorkflowPhase PhaseManifestGeneration false false [PhaseResourcePlanning] "15s";
   mkWorkflowPhase PhaseGitOpsCommit false false [PhaseManifestGeneration] "30s";
   mkWorkflowPhase PhaseDeploymentVerification true false [PhaseGitOpsCommit] "2m"].

Definition buildOptimizationWorkflow : list WorkflowPhase := buildDeploymentWorkflow.

Definition buildMaintenanceWorkflow : list WorkflowPhase :=
  [mkWorkflowPhase PhaseLLMProcessing true false [] "1m";
   mkWorkflowPhase PhaseManifestGeneration true false [PhaseLLMProcessing] "30s";
   mkWorkflowPhase PhaseGitOpsCommit true false [PhaseManifestGeneration] "1m";
   mkWorkflowPhase PhaseDeploymentVerification true false [PhaseGitOpsCommit] "2m"].

Definition buildDefaultWorkflow : list WorkflowPhase := buildDeploymentWorkflow.

(** The intent-type constants belong to the API package, which is not part
    of the sources: they are the fields of this record. *)
Record IntentTypes := mkIntentTypes {
  IntentTypeDeployment : string;
  IntentTypeScaling : string;
  IntentTypeOptimization : string;
  IntentTypeMaintenance : string
}.

(** The labels of a Go switch are pairwise different constants. *)
Definition IntentTypes_distinct (T : IntentTypes) : Prop :=
  NoDup [IntentTypeDeployment T; IntentTypeScaling T; IntentTypeOptimization T;
         IntentTypeMaintenance T].

Definition GetProcessingWorkflow (T : IntentTypes) (intentType : string) : ProcessingWorkflow :=
  {| wf_IntentType := intentType;
     wf_Phases :=
       if bool_decide (intentType = IntentTypeDeployment T) then buildDeploymentWorkflow
       else if bool_decide (intentType = IntentTypeScaling T) then buildScalingWorkflow
       else if bool_decide (intentType = IntentTypeOptimization T) then buildOptimizationWorkflow
       else if bool_decide (intentType = IntentTypeMaintenance T) then buildMaintenanceWorkflow
       else buildDefaultWorkflow |}.

Record WorkflowProgress := mkWorkflowProgress {
  TotalPhases : Z;
  CompletedPhases : Z;
  ProgressPercentage : float64;
  CurrentPhase : ProcessingPhase;
  PhaseStatuses : gmap string string
}.

(** The inner loop: the first condition whose type is the phase decides. *)
Fixpoint phaseProgressStatus (conds : list Condition) (phase : ProcessingPhase) : string :=
  match conds with
  | [] => "pending"
  | c :: rest =>
      if bool_decide (cond_Type c = phase) then
        if bool_decide (cond_Status c = "True") then "completed"
        else if bool_decide (cond_Reason c = "Processing") then "in_progress"
        else if bool_decide (cond_Status c = "False") then "failed"
        else "pending"
      else phaseProgressStatus rest phase
  end.

(** One iteration of the outer loop over the workflow's phases. *)
Definition progressStep (conds : list Condition) (acc : Z * gmap string string)
  (phase : WorkflowPhase) : Z * gmap string string :=
  let status := phaseProgressStatus conds (wp_Phase phase) in
  let completed := if bool_decide (status = "completed") then (fst acc + 1)%Z else fst acc in
  (completed, <[wp_Phase phase := status]> (snd acc)).

Definition GetWorkflowProgress (workflow : ProcessingWorkflow) (status_phase : string)
  (conds : list Condition) : WorkflowProgress :=
  let '(completed, statuses) := fold_left (progressStep conds) (wf_Phases workflow) (0%Z, ∅) in
  let total := Z.of_nat (length (wf_Phases workflow)) in
  {| TotalPhases := total;
     CompletedPhases := completed;
     ProgressPercentage :=
       if (0 <? total)%Z then f64_mul (f64_ratio completed total) (f64_of_int 100) else f64_zero;
     CurrentPhase := status_phase;
     PhaseStatuses := statuses |}.

(** *** Reachability under validated transitions *)

(** A run of one intent: its phase changes by a validated transition, and
    its conditions change by any update that keeps completed phases
    completed. *)
Record IntentRun := mkIntentRun {
  run_phase : ProcessingPhase;
  run_conds : list Condition
}.

Inductive run_step (sm : StateMachine) : IntentRun -> IntentRun -> Prop :=
| run_transition p q conds :
    ValidateTransition sm conds p q = Ok tt ->
    run_step sm (mkIntentRun p conds) (mkIntentRun q conds)
| run_conditions p conds conds' :
    (forall ph, isPhaseCompleted conds ph = true -> isPhaseCompleted conds' ph = true) ->
    run_step sm (mkIntentRun p conds) (mkIntentRun p conds').

(** A legal transition, whatever the conditions. *)
Definition legal (sm : StateMachine) (p q : ProcessingPhase) : Prop :=
  CanTransitionTo sm p q = true.

(** The place of a phase in the pipeline; it grows along every transition. *)
Definition phase_rank (p : ProcessingPhase) : nat :=
  if bool_decide (p = PhaseIntentReceived) then 0
  else if bool_decide (p = PhaseLLMProcessing) then 1
  else if bool_decide (p = PhaseResourcePlanning) then 2
  else if bool_decide (p = PhaseManifestGeneration) then 3
  else if bool_decide (p = PhaseGitOpsCommit) then 4
  else if bool_decide (p = PhaseDeploymentVerification) then 5
  else 6.

(** The phases whose completion a run into [p] must have passed through. *)
Definition required_before (p : ProcessingPhase) : list ProcessingPhase :=
  if bool_decide (p = PhaseResourcePlanning) then [PhaseLLMProcessing]
  else if bool_decide (p = PhaseManifestGeneration) then [PhaseLLMProcessing; PhaseResourcePlanning]
  else if bool_decide (p = PhaseGitOpsCommit) then
    [PhaseLLMProcessing; PhaseResourcePlanning; PhaseManifestGeneration]
  else if bool_decide (p = PhaseDeploymentVerification) || bool_decide (p = PhaseCompleted) then
    [PhaseLLMProcessing; PhaseResourcePlanning; PhaseManifestGeneration; PhaseGitOpsCommit]
  else [].

(** A workflow is scheduled legally when each phase may follow the one
    before it in the state machine. *)
Fixpoint consecutive_legal (sm : StateMachine) (ps : list WorkflowPhase) : bool :=
  match ps with
  | p :: ((q :: _) as rest) =>
      CanTransitionTo sm (wp_Phase p) (wp_Phase q) && consecutive_legal sm rest
  | _ => true
  end.

(** Each phase's dependencies stand earlier in the workflow. *)
Fixpoint dependencies_precede (seen : list ProcessingPhase) (ps : list WorkflowPhase) : bool :=
  match ps with
  | [] => true
  | p :: rest =>
      forallb (fun d => bool_decide (d ∈ seen)) (wp_Dependencies p)
      && dependencies_precede (wp_Phase p :: seen) rest
  end.

(** *** Lemmas *)

Lemma transitions_inv (par : bool) (p : ProcessingPhase) (ts : list ProcessingPhase) :
  transitions (NewStateMachine par) !! p = Some ts ->
  (p, ts) ∈ [(PhaseIntentReceived, [PhaseLLMProcessing]);
             (PhaseLLMProcessing, [PhaseResourcePlanning; PhaseFailed]);
             (PhaseResourcePlanning, [PhaseManifestGeneration; PhaseFailed]);
             (PhaseManifestGeneration, [PhaseGitOpsCommit; PhaseFailed]);
             (PhaseGitOpsCommit, [PhaseDeploymentVerification; PhaseFailed]);
             (PhaseDeploymentVerification, [PhaseCompleted; PhaseFailed]);
             (PhaseCompleted, []); (PhaseFailed, [])].
Proof.
  cbn -[insert lookup]. unfold initializeTransitions. intros H.
  repeat (apply lookup_insert_Some in H as [[<- <-] | [_ H]]; [in_solve |]).
  by rewrite lookup_empty in H.
Qed.

Lemma CanTransitionTo_iff sm p q :
  CanTransitionTo sm p q = true <-> q ∈ GetPossibleTransitions sm p.
Proof.
  unfold CanTransitionTo. rewrite existsb_exists. split.
  - intros (x & Hx & ->%bool_decide_eq_true). by apply list_elem_of_In.
  - intros H. exists q. split; [by apply list_elem_of_In | by apply bool_decide_eq_true].
Qed.

(** The legal transitions, as a table. *)
Lemma legal_inv (par : bool) (p q : ProcessingPhase) :
  legal (NewStateMachine par) p q ->
  (p, q) ∈ [(PhaseIntentReceived, PhaseLLMProcessing);
            (PhaseLLMProcessing, PhaseResourcePlanning); (PhaseLLMProcessing, PhaseFailed);
            (PhaseResourcePlanning, PhaseManifestGeneration); (PhaseResourcePlanning, PhaseFailed);
            (PhaseManifestGeneration, PhaseGitOpsCommit); (PhaseManifestGeneration, PhaseFailed);
            (PhaseGitOpsCommit, PhaseDeploymentVerification); (PhaseGitOpsCommit, PhaseFailed);
            (PhaseDeploymentVerification, PhaseCompleted);
            (PhaseDeploymentVerification, PhaseFailed)].
Proof.
  intros H%CanTransitionTo_iff. unfold GetPossibleTransitions in H.
  destruct (transitions _ !! p) as [ts |] eqn:E; [| by apply not_elem_of_nil in H].
  apply transitions_inv in E. in_cases E; in_cases H; in_solve.
Qed.

Ltac legal_cases H :=
  apply legal_inv in H; in_cases H.

Lemma legal_rank (par : bool) (p q : ProcessingPhase) :
  legal (NewStateMachine par) p q -> phase_rank p < phase_rank q /\ phase_rank q <= 6.
Proof. intros H. legal_cases H; vm_compute; lia. Qed.

Lemma checkDependencies_ok conds deps q :
  checkDependencies conds deps q = Ok tt <->
  Forall (fun d => isPhaseCompleted conds d = true) deps.
Proof.
  induction deps as [| d deps IH]; simpl; [by split |].
  destruct (isPhaseCompleted conds d) eqn:E.
  - rewrite IH, Forall_cons. tauto.
  - rewrite Forall_cons. split; [discriminate | intros [? _]; congruence].
Qed.

(** *** Properties *)

(** [ValidateTransition] answers [nil] exactly when the target is
    among the transitions of the source phase and every dependency of the
    target carries a True condition. *)
Theorem ValidateTransition_ok_iff (sm : StateMachine) (conds : list Condition) (p q : ProcessingPhase) :
  ValidateTransition sm conds p q = Ok tt <->
  q ∈ GetPossibleTransitions sm p /\
  Forall (fun d => isPhaseCompleted conds d = true) (GetPhaseDependencies sm q).
Proof.
  unfold ValidateTransition. rewrite <- CanTransitionTo_iff, <- checkDependencies_ok.
  destruct (CanTransitionTo sm p q); simpl; [tauto || (split; [by split | by intros [_ ?]]) |].
  split; [done | by intros [? _]].
Qed.

(** Every chain of legal transitions is finite: from any phase at most
    six steps are possible, and none leaves a terminal phase. *)
Theorem transition_chain_bounded (par : bool) (n : nat) (p q : ProcessingPhase) :
  nsteps (legal (NewStateMachine par)) n p q ->
  n <= 6 /\ (IsTerminalPhase (NewStateMachine par) p = true -> n = 0).
Proof.
  intros H. split.
  - enough (phase_rank p + n <= max 6 (phase_rank p)) by (revert H; unfold phase_rank; repeat case_bool_decide; lia).
    induction H as [| n p r q Hpr _ IH]; [lia |].
    apply legal_rank in Hpr. lia.
  - destruct H as [| n p r q Hpr _]; [done |]. intros Hterm. exfalso.
    legal_cases Hpr; vm_compute in Hterm; discriminate.
Qed.

Lemma transition_chain_bounded_witness :
  nsteps (legal (NewStateMachine true)) 2 PhaseIntentReceived PhaseResourcePlanning /\
  2 <= 6.
Proof.
  assert (nsteps (legal (NewStateMachine true)) 2 PhaseIntentReceived PhaseResourcePlanning) as H.
  { apply nsteps_l with PhaseLLMProcessing; [by vm_compute |].
    apply nsteps_l with PhaseResourcePlanning; [by vm_compute | apply nsteps_O]. }
  split; [exact H | exact (proj1 (transition_chain_bounded true 2 _ _ H))].
Defined.

(** Following [GetNextPhase] drives every non-terminal phase of the
    pipeline to Completed within six legal steps. *)
Theorem GetNextPhase_reaches_Completed (par : bool) (p : ProcessingPhase) :
  isValidPhase p = true -> IsTerminalPhase (NewStateMachine par) p = false ->
  exists n, n <= 6 /\ Nat.iter n (GetNextPhase (NewStateMachine par)) p = PhaseCompleted /\
    forall k, k < n ->
      legal (NewStateMachine par) (Nat.iter k (GetNextPhase (NewStateMachine par)) p)
        (Nat.iter (S k) (GetNextPhase (NewStateMachine par)) p).
Proof.
  intros Hv Ht. unfold isValidPhase in Hv. apply existsb_exists in Hv as (v & Hin & ->%bool_decide_eq_true).
  exists (6 - phase_rank v).
  repeat (destruct Hin as [<- | Hin]);
    try (vm_compute in Ht; discriminate); try done;
    (split; [vm_compute; lia |]; split; [by vm_compute |]; intros k Hk;
     repeat (destruct k as [| k]; [by vm_compute | try (vm_compute in Hk; lia)])).
Qed.

Lemma GetNextPhase_reaches_Completed_witness :
  isValidPhase PhaseLLMProcessing = true /\
  exists n, n <= 6 /\ Nat.iter n (GetNextPhase (NewStateMachine false)) PhaseLLMProcessing = PhaseCompleted.
Proof.
  split; [reflexivity |].
  destruct (GetNextPhase_reaches_Completed false PhaseLLMProcessing eq_refl eq_refl) as (n & ? & ? & _).
  by exists n.
Defined.

Lemma validated_required (par : bool) conds p q :
  ValidateTransition (NewStateMachine par) conds p q = Ok tt ->
  Forall (fun d => isPhaseCompleted conds d = true) (required_before p) ->
  q <> PhaseFailed ->
  Forall (fun d => isPhaseCompleted conds d = true) (required_before q).
Proof.
  unfold ValidateTransition. destruct (CanTransitionTo _ p q) eqn:Hl; [simpl | done].
  intros Hdeps%checkDependencies_ok Hp Hq.
  legal_cases Hl; try done; compute_Forall Hdeps; compute_Forall Hp;
    match goal with |- Forall _ ?l => let l' := eval vm_compute in l in change l with l' end;
    decompose_Forall_hyps; by repeat constructor.
Qed.



(** Every workflow lists each phase after the phases it depends on, and
    its consecutive phases follow the state machine exactly when the intent
    is not a maintenance intent: the maintenance workflow goes from LLM
    processing straight to manifest generation, which no transition allows,
    so [ValidateTransition] refuses that step for every intent. *)
Theorem workflow_schedules (par : bool) (T : IntentTypes) (t : string) :
  IntentTypes_distinct T ->
  dependencies_precede [] (wf_Phases (GetProcessingWorkflow T t)) = true /\
  consecutive_legal (NewStateMachine par) (wf_Phases (GetProcessingWorkflow T t))
    = negb (bool_decide (t = IntentTypeMaintenance T)) /\
  (forall conds, ValidateTransition (NewStateMachine par) conds PhaseLLMProcessing PhaseManifestGeneration
     = Err (InvalidTransition PhaseLLMProcessing PhaseManifestGeneration)).
Proof.
  intros Hd. unfold IntentTypes_distinct in Hd. rewrite !NoDup_cons, !not_elem_of_cons in Hd.
  split; [| split; [| by intros conds; destruct par]].
  - unfold GetProcessingWorkflow; simpl. repeat case_bool_decide; by vm_compute.
  - unfold GetProcessingWorkflow; simpl.
    repeat case_bool_decide; subst; try (exfalso; tauto); by destruct par.
Qed.

Lemma workflow_schedules_witness :
  let T := mkIntentTypes "deployment" "scaling" "optimization" "maintenance" in
  IntentTypes_distinct T /\
  consecutive_legal (NewStateMachine true) (wf_Phases (GetProcessingWorkflow T "maintenance")) = false.
Proof.
  set (T := mkIntentTypes "deployment" "scaling" "optimization" "maintenance").
  assert (IntentTypes_distinct T) as H.
  { refine (bool_decide_eq_true_1 (NoDup _) _). by vm_compute. }
  split; [exact H |].
  exact (proj1 (proj2 (workflow_schedules true T "maintenance" H))).
Defined.

Lemma progress_fold conds ps n0 m0 :
  fold_left (progressStep conds) ps (n0, m0) =
  ((n0 + Z.of_nat (length (filter (fun p => phaseProgressStatus conds (wp_Phase p) = "completed") ps)))%Z,
   fold_left (fun m p => <[wp_Phase p := phaseProgressStatus conds (wp_Phase p)]> m) ps m0).
Proof.
  revert n0 m0. induction ps as [| p ps IH]; intros n0 m0; simpl; [f_equal; lia |].
  unfold progressStep at 2; simpl. rewrite IH, filter_cons.
  case_bool_decide; case_decide; try done; simpl; f_equal; lia.
Qed.

Lemma statuses_lookup conds ps (m0 : gmap string string) ph :
  ph ∈ wp_Phase <$> ps ->
  fold_left (fun m p => <[wp_Phase p := phaseProgressStatus conds (wp_Phase p)]> m) ps m0 !! ph
  = Some (phaseProgressStatus conds ph).
Proof.
  revert m0. induction ps as [| p ps IH] using rev_ind; intros m0; csimpl; [by intros ?%not_elem_of_nil |].
  rewrite fmap_app, fold_left_app, elem_of_app; csimpl. intros Hph.
  rewrite lookup_insert. case_decide as E; [by rewrite E |].
  apply IH. destruct Hph as [| ->%list_elem_of_singleton]; done.
Qed.

(** The progress report counts exactly the phases whose deciding
    condition is True, never more than the workflow has, records for every
    phase of the workflow the status its first condition gives, and shows
    the percentage the counters give in [float64]. *)
Theorem GetWorkflowProgress_correct (w : ProcessingWorkflow) (ph0 : string) (conds : list Condition) :
  let pr := GetWorkflowProgress w ph0 conds in
  CompletedPhases pr =
    Z.of_nat (length (filter (fun p => phaseProgressStatus conds (wp_Phase p) = "completed") (wf_Phases w))) /\
  (0 <= CompletedPhases pr <= TotalPhases pr)%Z /\
  (forall p, p ∈ wf_Phases w ->
     PhaseStatuses pr !! wp_Phase p = Some (phaseProgressStatus conds (wp_Phase p))) /\
  (wf_Phases w <> [] -> ProgressPercentage pr =
     f64_mul (f64_ratio (CompletedPhases pr) (TotalPhases pr)) (f64_of_int 100)).
Proof.
  unfold GetWorkflowProgress. rewrite progress_fold, Z.add_0_l. simpl.
  split; [done |]. split.
  { pose proof (length_filter (fun p => phaseProgressStatus conds (wp_Phase p) = "completed") (wf_Phases w)). lia. }
  split.
  - intros p Hp. apply statuses_lookup. by apply list_elem_of_fmap_2.
  - intros Hne. destruct (wf_Phases w); [done |]. simpl length. destruct (Z.ltb_spec 0 (Z.of_nat (S (length l)))); [done | lia].
Qed.

Lemma GetWorkflowProgress_correct_witness :
  let w := mkProcessingWorkflow "deployment" buildDeploymentWorkflow in
  let conds := [mkCondition PhaseLLMProcessing "True" "Done";
                mkCondition PhaseResourcePlanning "False" "Processing"] in
  wf_Phases w <> [] /\
  ProgressPercentage (GetWorkflowProgress w PhaseResourcePlanning conds)
  = f64_mul (f64_ratio 1 5) (f64_of_int 100).
Proof.
  split; [done |].
  exact (proj2 (proj2 (proj2 (GetWorkflowProgress_correct
    (mkProcessingWorkflow "deployment" buildDeploymentWorkflow) PhaseResourcePlanning
    [mkCondition PhaseLLMProcessing "True" "Done";
     mkCondition PhaseResourcePlanning "False" "Processing"]))) ltac:(done)).
Defined.

End StateMachine.

(** ** The phase tracker *)

Module PhaseTracker.

Record PhaseStatus := mkPhaseStatus {
  IntentID : string;
  Phase : ProcessingPhase;
  Status : string;
  StartTime : option Time;
  EndTime : option Time;
  RetryCount : Z;
  LastError : string;
  Metrics : gmap string float64;
  DependsOn : list ProcessingPhase;
  BlockedBy : list ProcessingPhase
}.

(** The zero value a missing map key reads as. *)
Definition zeroPhaseStatus : PhaseStatus :=
  mkPhaseStatus "" "" "" None None 0 "" ∅ [] [].

Abbreviation PhaseTracker := (gmap string (gmap string PhaseStatus)).

Definition NewPhaseTracker : PhaseTracker := ∅.

(** The new value of one entry, [now] being the instant of the call. *)
Definition updateEntry (intentID : string) (phase : ProcessingPhase) (status : string) (now : Time)
  (st : PhaseStatus) : PhaseStatus :=
  {| IntentID := intentID;
     Phase := phase;
     Status := status;
     StartTime :=
       if bool_decide (status = "InProgress") && bool_decide (StartTime st = None)
       then Some now else StartTime st;
     EndTime :=
       if (bool_decide (status = "Completed") || bool_decide (status = "Failed"))
          && bool_decide (EndTime st = None)
       then Some now else EndTime st;
     RetryCount := RetryCount st;
     LastError := LastError st;
     Metrics := Metrics st;
     DependsOn := DependsOn st;
     BlockedBy := BlockedBy st |}.

Definition UpdatePhaseStatus (pt : PhaseTracker) (intentID : string) (phase : ProcessingPhase)
  (status : string) (now : Time) : PhaseTracker :=
  let statuses := default ∅ (pt !! intentID) in
  let phaseStatus := default zeroPhaseStatus (statuses !! phase) in
  <[intentID := <[phase := updateEntry intentID phase status now phaseStatus]> statuses]> pt.

Definition GetPhaseStatus (pt : PhaseTracker) (intentID : string) (phase : ProcessingPhase)
  : PhaseStatus * bool :=
  match pt !! intentID with
  | Some intentStatuses =>
      match intentStatuses !! phase with
      | Some phaseStatus => (phaseStatus, true)
      | None => (zeroPhaseStatus, false)
      end
  | None => (zeroPhaseStatus, false)
  end.

Definition GetIntentPhases (pt : PhaseTracker) (intentID : string) : gmap string PhaseStatus :=
  match pt !! intentID with
  | Some intentStatuses => intentStatuses
  | None => ∅
  end.

Definition RemoveIntent (pt : PhaseTracker) (intentID : string) : PhaseTracker :=
  delete intentID pt.

(** A sequence of updates of any intents and phases, with their instants. *)
Definition applyUpdates (pt : PhaseTracker) (us : list (string * ProcessingPhase * string * Time))
  : PhaseTracker :=
  fold_left (fun pt '(i, ph, st, now) => UpdatePhaseStatus pt i ph st now) us pt.

(** The instant of the first update of one entry whose status is in [sts]. *)
Fixpoint firstUpdate (sts : list string) (intentID : string) (phase : ProcessingPhase)
  (us : list (string * ProcessingPhase * string * Time)) : option Time :=
  match us with
  | [] => None
  | (i, ph, st, now) :: rest =>
      if bool_decide (i = intentID) && bool_decide (ph = phase) && bool_decide (st ∈ sts)
      then Some now else firstUpdate sts intentID phase rest
  end.

(** *** Lemmas *)

Lemma GetPhaseStatus_Update_eq pt i ph st now :
  GetPhaseStatus (UpdatePhaseStatus pt i ph st now) i ph
  = (updateEntry i ph st now (fst (GetPhaseStatus pt i ph)), true).
Proof.
  unfold GetPhaseStatus, UpdatePhaseStatus. rewrite !lookup_insert_eq.
  destruct (pt !! i) as [m |]; simpl; [by destruct (m !! ph) |]. by rewrite lookup_empty.
Qed.

Lemma GetPhaseStatus_Update_ne pt i ph st now i' ph' :
  (i, ph) <> (i', ph') ->
  GetPhaseStatus (UpdatePhaseStatus pt i ph st now) i' ph' = GetPhaseStatus pt i' ph'.
Proof.
  intros Hne. unfold GetPhaseStatus, UpdatePhaseStatus. rewrite lookup_insert.
  case_decide as Hi; [subst i' | done].
  rewrite lookup_insert_ne by congruence.
  destruct (pt !! i) as [m |]; simpl; [done |]. by rewrite lookup_empty.
Qed.

Lemma start_end_after pt us i ph :
  let st := fst (GetPhaseStatus pt i ph) in
  let st' := fst (GetPhaseStatus (applyUpdates pt us) i ph) in
  StartTime st' = (match StartTime st with Some t => Some t
                   | None => firstUpdate ["InProgress"] i ph us end) /\
  EndTime st' = (match EndTime st with Some t => Some t
                 | None => firstUpdate ["Completed"; "Failed"] i ph us end).
Proof.
  revert pt. induction us as [| [[[i' ph'] s] now] us IH]; intros pt; simpl in *.
  { split; [by destruct (StartTime _) | by destruct (EndTime _)]. }
  destruct (IH (UpdatePhaseStatus pt i' ph' s now)) as [-> ->]. clear IH.
  destruct (decide ((i', ph') = (i, ph))) as [[= -> ->] | Hne].
  - rewrite GetPhaseStatus_Update_eq; simpl.
    rewrite (bool_decide_eq_true_2 (i = i)), (bool_decide_eq_true_2 (ph = ph)) by done; simpl.
    rewrite bool_decide_in1, bool_decide_in2.
    destruct (StartTime _), (EndTime _); simpl; repeat case_bool_decide; done.
  - rewrite GetPhaseStatus_Update_ne by done.
    assert (bool_decide (i' = i) && bool_decide (ph' = ph) = false) as ->
      by (repeat case_bool_decide; subst; done).
    done.
Qed.

(** *** Properties *)

(** After any sequence of updates on a fresh tracker, an entry's start
    time is the instant of its first InProgress update and its end time the
    instant of its first Completed or Failed update.  Both are recorded once:
    a phase that fails, is retried and then completes keeps the end time of
    the failure. *)
Theorem tracker_times_first_event (us : list (string * ProcessingPhase * string * Time))
  (i : string) (ph : ProcessingPhase) :
  let st := fst (GetPhaseStatus (applyUpdates NewPhaseTracker us) i ph) in
  StartTime st = firstUpdate ["InProgress"] i ph us /\
  EndTime st = firstUpdate ["Completed"; "Failed"] i ph us.
Proof.
  intros st. destruct (start_end_after NewPhaseTracker us i ph) as [H1 H2].
  by split.
Qed.

(** A retried phase, evaluated: the end time is that of the failure. *)
Example retried_phase_end_time :
  EndTime (fst (GetPhaseStatus (applyUpdates NewPhaseTracker
    [("i", PhaseLLMProcessing, "InProgress", 1%Z); ("i", PhaseLLMProcessing, "Failed", 2%Z);
     ("i", PhaseLLMProcessing, "InProgress", 3%Z); ("i", PhaseLLMProcessing, "Completed", 9%Z)])
    "i" PhaseLLMProcessing)) = Some 2%Z.
Proof. by vm_compute. Qed.

End PhaseTracker.
