(* ===== verification/E2Wire.v ===== *)
(** * E2Wire: bytes, big-endian integers and readers

    The parts of encoding/binary, io and bytes that the E2AP codec
    (pkg/oran/e2/asn1_codec.go) is written with.  A reader is a state
    transformer on the bytes that are left: it gives its result and what
    remains, also when it fails, because the codec ignores some read errors
    and goes on with the reader where the failed read left it.  The class
    [Wire] states what an encoder and a decoder promise to the code that
    calls them. *)

From Stdlib Require Import Strings.Byte.
From S2P Require Import Prelude.
Local Open Scope Z_scope.

Abbreviation bytes := (list byte).

(** ** Bytes and integers *)

Definition Z_of_byte (b : byte) : Z := Z.of_N (Byte.to_N b).

(** Conversion to [uint8]: the low eight bits. *)
Definition byte_of_Z (z : Z) : byte :=
  match Byte.of_N (Z.to_N (z mod 256)) with
  | Some b => b
  | None => "000"%byte
  end.

(** [binary.Write(w, binary.BigEndian, uintN(z))] for N = 8 n: conversion
    keeps the low bits. *)
Fixpoint be_bytes (n : nat) (z : Z) : bytes :=
  match n with
  | O => []
  | S k => byte_of_Z (Z.shiftr z (8 * Z.of_nat k)) :: be_bytes k z
  end.

Fixpoint be_value_acc (acc : Z) (l : bytes) : Z :=
  match l with
  | [] => acc
  | b :: rest => be_value_acc (256 * acc + Z_of_byte b) rest
  end.

Definition be_value (l : bytes) : Z := be_value_acc 0 l.

Definition put_uint8 (z : Z) : bytes := be_bytes 1 z.
Definition put_uint16 (z : Z) : bytes := be_bytes 2 z.
Definition put_uint32 (z : Z) : bytes := be_bytes 4 z.

(** [fitsN z]: the value survives the conversion to an N-bit unsigned
    integer and back. *)
Definition fits8 (z : Z) : Prop := 0 <= z < 256.
Definition fits16 (z : Z) : Prop := 0 <= z < 65536.
Definition fits32 (z : Z) : Prop := 0 <= z < 4294967296.

#[export] Instance fits8_dec z : Decision (fits8 z).
Proof. unfold fits8. apply _. Defined.
#[export] Instance fits16_dec z : Decision (fits16 z).
Proof. unfold fits16. apply _. Defined.
#[export] Instance fits32_dec z : Decision (fits32 z).
Proof. unfold fits32. apply _. Defined.

(** ** Readers *)

Inductive DecodeError :=
| EOF
| UnexpectedEOF
| UnsupportedLengthEncoding (octets : Z)
| UnsupportedNodeType (t : Z).

#[export] Instance DecodeError_eq_dec : EqDecision DecodeError.
Proof. solve_decision. Defined.

Definition Reader (A : Type) : Type := bytes -> result DecodeError A * bytes.

Definition rd_ret {A} (a : A) : Reader A := fun r => (Ok a, r).
Definition rd_fail {A} (e : DecodeError) : Reader A := fun r => (Err e, r).

Definition rd_bind {A B} (m : Reader A) (k : A -> Reader B) : Reader B :=
  fun r => match m r with
           | (Ok a, r') => k a r'
           | (Err e, r') => (Err e, r')
           end.

(** Run a reader and look at its error instead of returning it. *)
Definition rd_try {A} (m : Reader A) : Reader (result DecodeError A) :=
  fun r => let '(x, r') := m r in (Ok x, r').

(** [buf.Len() > 0] *)
Definition rd_more : Reader bool := fun r => (Ok (match r with [] => false | _ => true end), r).

Declare Scope reader_scope.
Delimit Scope reader_scope with reader.
Notation "x '<-?' m ';' k" := (rd_bind m (fun x => k))
  (at level 60, m at next level, right associativity) : reader_scope.
Local Open Scope reader_scope.

(** [io.ReadFull] into a buffer of [n] bytes: nothing is read into an empty
    buffer; a short read consumes what is left. *)
Definition readFull (n : Z) : Reader bytes := fun r =>
  if n <=? 0 then (Ok [], r)
  else if (Z.of_nat (length r) <? n) then
    (Err (match r with [] => EOF | _ => UnexpectedEOF end), [])
  else (Ok (take (Z.to_nat n) r), drop (Z.to_nat n) r).

(** [binary.Read] into an unsigned integer of [n] bytes. *)
Definition readUint (n : Z) : Reader Z :=
  l <-? readFull n; rd_ret (be_value l).

Definition readUint8 : Reader Z := readUint 1.
Definition readUint16 : Reader Z := readUint 2.
Definition readUint32 : Reader Z := readUint 4.

(** [for i := range count { x, err := dec(r); if err != nil { return } }] *)
Fixpoint readCount {A} (dec : Reader A) (count : nat) : Reader (list A) :=
  match count with
  | O => rd_ret []
  | S k => x <-? dec; xs <-? readCount dec k; rd_ret (x :: xs)
  end.

(** ** The interface between encoders and decoders

    [dec] reads back what [enc] wrote, whatever follows it on the wire, for
    the values in [wf]. *)
Class Wire {A} (enc : A -> bytes) (dec : Reader A) (wf : A -> Prop) : Prop :=
  wire_roundtrip : forall a rest, wf a -> dec (enc a ++ rest) = (Ok a, rest).

(** ** Lemmas *)

Lemma Z_of_byte_range b : 0 <= Z_of_byte b < 256.
Proof. unfold Z_of_byte. pose proof (Byte.to_N_bounded b). lia. Qed.

Lemma Z_of_byte_of_Z z : Z_of_byte (byte_of_Z z) = z mod 256.
Proof.
  unfold Z_of_byte, byte_of_Z.
  pose proof (Z.mod_pos_bound z 256 ltac:(lia)) as Hb.
  destruct (Byte.of_N (Z.to_N (z mod 256))) as [b |] eqn:E.
  - apply Byte.to_of_N in E. rewrite E. lia.
  - apply Byte.of_N_None_iff in E. lia.
Qed.

Lemma byte_of_Z_of_byte b : byte_of_Z (Z_of_byte b) = b.
Proof.
  unfold byte_of_Z. pose proof (Z_of_byte_range b).
  rewrite Z.mod_small by lia. unfold Z_of_byte. rewrite N2Z.id.
  by rewrite Byte.of_to_N.
Qed.

Lemma length_be_bytes n z : length (be_bytes n z) = n.
Proof. induction n; simpl; congruence. Qed.

Lemma be_value_acc_bytes n acc z :
  be_value_acc acc (be_bytes n z) = acc * 2 ^ (8 * Z.of_nat n) + z mod 2 ^ (8 * Z.of_nat n).
Proof.
  revert acc. induction n as [| n IH]; intros acc.
  { simpl. rewrite Z.mod_1_r. lia. }
  cbn [be_bytes be_value_acc]. rewrite IH, Z_of_byte_of_Z, Z.shiftr_div_pow2 by lia.
  replace (2 ^ (8 * Z.of_nat (S n))) with (2 ^ (8 * Z.of_nat n) * 256)
    by (rewrite Nat2Z.inj_succ, Z.mul_succ_r, Z.pow_add_r by lia; reflexivity).
  rewrite Z.rem_mul_r by lia. lia.
Qed.

Lemma be_value_bytes n z : be_value (be_bytes n z) = z mod 2 ^ (8 * Z.of_nat n).
Proof. unfold be_value. rewrite be_value_acc_bytes. lia. Qed.

Lemma readFull_app l rest :
  readFull (Z.of_nat (length l)) (l ++ rest) = (Ok l, rest).
Proof.
  unfold readFull. destruct (Z.leb_spec (Z.of_nat (length l)) 0) as [H | H].
  { destruct l; [done | simpl in H; lia]. }
  destruct (Z.ltb_spec (Z.of_nat (length (l ++ rest))) (Z.of_nat (length l))) as [H' | _].
  { rewrite length_app in H'. lia. }
  by rewrite Nat2Z.id, take_app_length, drop_app_length.
Qed.

Lemma readFull_short n r :
  Z.of_nat (length r) < n -> exists e, readFull n r = (Err e, []).
Proof.
  intros H. unfold readFull. destruct (Z.leb_spec n 0); [lia |].
  destruct (Z.ltb_spec (Z.of_nat (length r)) n); [by eexists | lia].
Qed.

Lemma readUint_put n z rest :
  readUint (Z.of_nat n) (be_bytes n z ++ rest) = (Ok (z mod 2 ^ (8 * Z.of_nat n)), rest).
Proof.
  unfold readUint, rd_bind. rewrite <- (length_be_bytes n z) at 1. rewrite readFull_app.
  unfold rd_ret. by rewrite be_value_bytes.
Qed.

(** Reading a field back gives the value modulo its width. *)
Lemma readUint8_put z rest : readUint8 (put_uint8 z ++ rest) = (Ok (z mod 256), rest).
Proof. apply (readUint_put 1). Qed.

Lemma readUint16_put z rest : readUint16 (put_uint16 z ++ rest) = (Ok (z mod 65536), rest).
Proof. apply (readUint_put 2). Qed.

Lemma readUint32_put z rest : readUint32 (put_uint32 z ++ rest) = (Ok (z mod 4294967296), rest).
Proof. apply (readUint_put 4). Qed.

#[export] Instance wire_uint8 : Wire put_uint8 readUint8 fits8.
Proof. intros z rest H. rewrite readUint8_put, Z.mod_small; [done | exact H]. Qed.

#[export] Instance wire_uint16 : Wire put_uint16 readUint16 fits16.
Proof. intros z rest H. rewrite readUint16_put, Z.mod_small; [done | exact H]. Qed.

#[export] Instance wire_uint32 : Wire put_uint32 readUint32 fits32.
Proof. intros z rest H. rewrite readUint32_put, Z.mod_small; [done | exact H]. Qed.

Lemma rd_bind_ok {A B} (m : Reader A) (k : A -> Reader B) r a r' :
  m r = (Ok a, r') -> rd_bind m k r = k a r'.
Proof. intros H. unfold rd_bind. by rewrite H. Qed.

Lemma rd_try_ok {A} (m : Reader A) r x r' : m r = (x, r') -> rd_try m r = (Ok x, r').
Proof. intros H. unfold rd_try. by rewrite H. Qed.

(** One decoding step of a reader whose encoder promises the round trip. *)
Lemma rd_bind_wire {A B} (enc : A -> bytes) (dec : Reader A) (wf : A -> Prop)
  `{!Wire enc dec wf} (k : A -> Reader B) (a : A) (rest : bytes) :
  wf a -> rd_bind dec k (enc a ++ rest) = k a rest.
Proof. intros H. apply rd_bind_ok. by apply wire_roundtrip. Qed.

#[export] Instance wire_readCount {A} (enc : A -> bytes) (dec : Reader A) (wf : A -> Prop) (n : nat) :
  Wire enc dec wf ->
  Wire (fun l : list A => mjoin (enc <$> l)) (readCount dec n) (fun l => length l = n /\ Forall wf l).
Proof.
  intros W. induction n as [| n IH]; intros l rest [Hn Hwf].
  - by destruct l.
  - destruct l as [| a l]; [done |]. simpl in Hn. injection Hn as Hn.
    apply Forall_cons in Hwf as [Ha Hl].
    rewrite fmap_cons. cbn [mjoin list_join]. rewrite <- (assoc_L (++)). cbn [readCount].
    rewrite (rd_bind_wire enc dec wf) by done.
    rewrite (rd_bind_ok _ _ _ l rest); [done | by apply IH].
Qed.

(** A fixed-width read that fails has consumed the buffer, and nothing can be
    read from an empty buffer. *)
Lemma readFull_err n r e r' : readFull n r = (Err e, r') -> r' = [].
Proof. unfold readFull. intros H. repeat case_match; by simplify_eq. Qed.

Lemma readUint_err n r e r' : readUint n r = (Err e, r') -> r' = [].
Proof.
  unfold readUint, rd_bind. destruct (readFull n r) as [[l | e'] s] eqn:E; [done |].
  intros [= _ <-]. by eapply readFull_err.
Qed.

Lemma readUint_nil n : 0 < n -> readUint n [] = (Err EOF, []).
Proof. intros H. unfold readUint, rd_bind, readFull. by destruct (Z.leb_spec n 0); [lia | destruct n]. Qed.

Lemma be_value_acc_range acc l :
  0 <= acc -> acc * 2 ^ (8 * Z.of_nat (length l)) <= be_value_acc acc l
              < (acc + 1) * 2 ^ (8 * Z.of_nat (length l)).
Proof.
  revert acc. induction l as [| b l IH]; intros acc H; cbn [be_value_acc length].
  - simpl. lia.
  - pose proof (Z_of_byte_range b). specialize (IH (256 * acc + Z_of_byte b) ltac:(lia)).
    replace (2 ^ (8 * Z.of_nat (S (length l)))) with (256 * 2 ^ (8 * Z.of_nat (length l)))
      by (rewrite Nat2Z.inj_succ, Z.mul_succ_r, Z.pow_add_r by lia; lia).
    pose proof (Z.pow_pos_nonneg 2 (8 * Z.of_nat (length l))). nia.
Qed.

Lemma readUint_range n r z r' : 0 < n -> readUint n r = (Ok z, r') -> 0 <= z < 2 ^ (8 * n).
Proof.
  intros Hn. unfold readUint, rd_bind, readFull. destruct (Z.leb_spec n 0); [lia |].
  destruct (Z.ltb_spec (Z.of_nat (length r)) n); [done |]. intros [= <- _].
  pose proof (be_value_acc_range 0 (take (Z.to_nat n) r)) as Hr.
  rewrite length_take, Nat.min_l, Z2Nat.id in Hr by lia. unfold be_value. lia.
Qed.
