(* ===== verification/E2Types.v ===== *)
(** * E2Types: the E2AP data types the codec reads and writes

    The structs of pkg/oran/e2/e2ap_messages.go and e2ap_types.go.  Integer
    types are [Z]; strings and byte slices are lists of bytes; a pointer
    field is an option.  A nil slice and an empty slice are the same list. *)

From Stdlib Require Import Strings.Byte.
From S2P Require Import Prelude E2Wire.

(** ** Message types and header *)

Abbreviation E2APMessageType := Z.

Definition E2APMessageTypeSetupRequest : E2APMessageType := 1.
Definition E2APMessageTypeRICSubscriptionRequest : E2APMessageType := 2.
Definition E2APMessageTypeRICControlRequest : E2APMessageType := 3.
Definition E2APMessageTypeErrorIndication : E2APMessageType := 4.
Definition E2APMessageTypeRICSubscriptionDeleteRequest : E2APMessageType := 5.
Definition E2APMessageTypeResetRequest : E2APMessageType := 6.
Definition E2APMessageTypeSetupResponse : E2APMessageType := 11.
Definition E2APMessageTypeRICSubscriptionResponse : E2APMessageType := 12.
Definition E2APMessageTypeRICControlAcknowledge : E2APMessageType := 13.
Definition E2APMessageTypeRICSubscriptionDeleteResponse : E2APMessageType := 14.
Definition E2APMessageTypeResetResponse : E2APMessageType := 15.
Definition E2APMessageTypeSetupFailure : E2APMessageType := 21.
Definition E2APMessageTypeRICSubscriptionFailure : E2APMessageType := 22.
Definition E2APMessageTypeRICControlFailure : E2APMessageType := 23.
Definition E2APMessageTypeRICSubscriptionDeleteFailure : E2APMessageType := 24.
Definition E2APMessageTypeResetFailure : E2APMessageType := 25.
Definition E2APMessageTypeRICIndication : E2APMessageType := 31.
Definition E2APMessageTypeRICServiceUpdate : E2APMessageType := 32.
Definition E2APMessageTypeRICServiceUpdateAcknowledge : E2APMessageType := 33.
Definition E2APMessageTypeRICServiceUpdateFailure : E2APMessageType := 34.

(** ** Node identities *)

(** [E2NodeType]: the four values of the iota block. *)
Definition E2NodeTypegNB : Z := 0.
Definition E2NodeTypeeNB : Z := 1.
Definition E2NodeTypeNgENB : Z := 2.
Definition E2NodeTypeEnGNB : Z := 3.

Record PLMNIdentity := mkPLMNIdentity { MCC : bytes; MNC : bytes }.

Record GNBID := mkGNBID { GNBID22 : option bytes; GNBID32 : option bytes }.
Record ENBID := mkENBID {
  MacroENBID : option bytes; HomeENBID : option bytes;
  enb_ShortMacro : option bytes; enb_LongMacro : option bytes
}.
Record EnGNBID := mkEnGNBID { EnGNBID_id : bytes }.
Record NgENBID := mkNgENBID {
  MacroNgENBID : option bytes; ng_ShortMacro : option bytes; ng_LongMacro : option bytes
}.

Record E2NodeID := mkE2NodeID {
  e2_GNBID : option GNBID;
  e2_ENBID : option ENBID;
  e2_EnGNBID : option EnGNBID;
  e2_NgENBID : option NgENBID
}.

Definition zeroE2NodeID : E2NodeID := mkE2NodeID None None None None.

Record GlobalE2NodeID := mkGlobalE2NodeID {
  gn_PLMNIdentity : PLMNIdentity;
  NodeType : Z;
  NodeID : bytes;
  gn_E2NodeID : E2NodeID
}.

Record GlobalRICID := mkGlobalRICID {
  gr_PLMNIdentity : PLMNIdentity;
  gr_RICID : Z
}.

Record RICRequestID := mkRICRequestID {
  RICRequestorID : Z;
  RICInstanceID : Z
}.

(** ** Causes *)

Record E2APCause := mkE2APCause {
  RICCause : option Z;
  RICServiceCause : option Z;
  E2NodeCause : option Z;
  TransportCause : option Z;
  ProtocolCause : option Z;
  MiscCause : option Z
}.

Definition zeroE2APCause : E2APCause := mkE2APCause None None None None None None.

Record E2Cause := mkE2Cause { CauseType : Z; CauseValue : Z }.

Definition E2CauseTypeRIC : Z := 0.

Record RANFunctionIDCauseItem := mkRANFunctionIDCauseItem {
  fci_RANFunctionID : Z;
  fci_Cause : E2Cause
}.

(** ** Information elements *)

Record RANFunctionItem := mkRANFunctionItem {
  rf_RANFunctionID : Z;
  RANFunctionDefinition : bytes;
  rf_RANFunctionRevision : Z;
  RANFunctionOID : option bytes
}.

Record RANFunctionIDItem := mkRANFunctionIDItem {
  fi_RANFunctionID : Z;
  fi_RANFunctionRevision : Z
}.

Record RANFunctionIDCause := mkRANFunctionIDCause {
  fc_RANFunctionID : Z;
  fc_Cause : E2APCause
}.

Record RICSubsequentAction := mkRICSubsequentAction {
  RICSubsequentActionType : Z;
  RICTimeToWait : option Z
}.

Record RICActionToBeSetupItem := mkRICActionToBeSetupItem {
  ra_RICActionID : Z;
  RICActionType : Z;
  RICActionDefinition : bytes;
  ra_RICSubsequentAction : option RICSubsequentAction
}.

Record RICSubscriptionDetails := mkRICSubscriptionDetails {
  RICEventTriggerDefinition : bytes;
  RICActionToBeSetupList : list RICActionToBeSetupItem
}.

Record RICActionNotAdmittedItem := mkRICActionNotAdmittedItem {
  na_RICActionID : Z;
  na_Cause : E2APCause
}.

(** [E2NodeComponentID]: one pointer per interface; each interface struct
    has a single string field. *)
Record E2NodeComponentID := mkE2NodeComponentID {
  InterfaceTypeNG : option bytes;
  InterfaceTypeXn : option bytes;
  InterfaceTypeE1 : option bytes;
  InterfaceTypeF1 : option bytes;
  InterfaceTypeW1 : option bytes;
  InterfaceTypeS1 : option bytes;
  InterfaceTypeX2 : option bytes
}.

Definition zeroE2NodeComponentID : E2NodeComponentID :=
  mkE2NodeComponentID None None None None None None None.

Record E2NodeComponentConfiguration := mkE2NodeComponentConfiguration {
  E2NodeComponentRequestPart : bytes;
  E2NodeComponentResponsePart : bytes
}.

Record E2NodeComponentConfigurationItem := mkE2NodeComponentConfigurationItem {
  E2NodeComponentInterfaceType : Z;
  ci_E2NodeComponentID : E2NodeComponentID;
  ci_E2NodeComponentConfiguration : E2NodeComponentConfiguration
}.

(** ** Messages *)

Record E2SetupRequest := mkE2SetupRequest {
  sq_GlobalE2NodeID : GlobalE2NodeID;
  RANFunctionsList : list RANFunctionItem;
  sq_ConfigurationList : list E2NodeComponentConfigurationItem
}.

Record E2SetupResponse := mkE2SetupResponse {
  sr_GlobalRICID : GlobalRICID;
  RANFunctionsAccepted : list RANFunctionIDItem;
  RANFunctionsRejected : list RANFunctionIDCause;
  sr_ConfigurationList : list E2NodeComponentConfigurationItem
}.

Record RICSubscriptionRequest := mkRICSubscriptionRequest {
  bq_RICRequestID : RICRequestID;
  bq_RANFunctionID : Z;
  bq_RICSubscriptionDetails : RICSubscriptionDetails
}.

Record RICSubscriptionResponse := mkRICSubscriptionResponse {
  br_RICRequestID : RICRequestID;
  br_RANFunctionID : Z;
  RICActionAdmittedList : list Z;
  RICActionNotAdmittedList : list RICActionNotAdmittedItem
}.

Record RICControlRequest := mkRICControlRequest {
  cq_RICRequestID : RICRequestID;
  cq_RANFunctionID : Z;
  cq_RICCallProcessID : option bytes;
  RICControlHeader : bytes;
  RICControlMessage : bytes;
  RICControlAckRequest : option Z
}.

Record RICControlAcknowledge := mkRICControlAcknowledge {
  ca_RICRequestID : RICRequestID;
  ca_RANFunctionID : Z;
  ca_RICCallProcessID : option bytes;
  RICControlOutcome : bytes
}.

Record RICIndication := mkRICIndication {
  in_RICRequestID : RICRequestID;
  in_RANFunctionID : Z;
  in_RICActionID : Z;
  RICIndicationSN : option Z;
  RICIndicationType : Z;
  RICIndicationHeader : bytes;
  RICIndicationMessage : bytes;
  in_RICCallProcessID : option bytes
}.

(** The dynamic type of [Payload interface{}], as the codec's type switch
    and assertions distinguish it. *)
Inductive E2APPayload :=
| PSetupRequest (m : E2SetupRequest)
| PSetupResponse (m : E2SetupResponse)
| PSubscriptionRequest (m : RICSubscriptionRequest)
| PSubscriptionResponse (m : RICSubscriptionResponse)
| PIndication (m : RICIndication)
| PControlRequest (m : RICControlRequest)
| PControlAcknowledge (m : RICControlAcknowledge)
| POther.

Record E2APMessage := mkE2APMessage {
  MessageType : E2APMessageType;
  TransactionID : Z;
  ProcedureCode : Z;
  Criticality : Z;
  Payload : E2APPayload;
  Timestamp : Time;
  CorrelationID : string
}.
