(* ===== verification/E2Codec.v ===== *)
(** * E2Codec: the E2AP codec of pkg/oran/e2/asn1_codec.go

    One definition per encode or decode method.  Encoders write to an
    in-memory buffer, which does not fail, so an encoder gives the bytes it
    appends; only the node-type switch and the payload switch can fail.
    Decoders are [Reader]s.  The second half proves, element by element
    through the [Wire] interface, that decoding inverts encoding, and states
    for which values it does not. *)

From Stdlib Require Import Strings.Byte.
From S2P Require Import Prelude E2Wire E2Types.
Local Open Scope Z_scope.
Local Open Scope reader_scope.

(** ** Lengths and octet strings *)

Definition encodeLength (length : Z) : bytes :=
  if length <? 128 then put_uint8 length
  else if length <? 65536 then put_uint8 0x82 ++ put_uint16 length
  else put_uint8 0x84 ++ put_uint32 length.

Definition decodeLength : Reader Z :=
  firstByte <-? readUint8;
  if firstByte <? 128 then rd_ret firstByte
  else
    let numOctets := Z.land firstByte 0x7F in
    if numOctets =? 1 then readUint8
    else if numOctets =? 2 then readUint16
    else if numOctets =? 4 then readUint32
    else rd_fail (UnsupportedLengthEncoding numOctets).

Definition zlen {A} (l : list A) : Z := Z.of_nat (length l).

Definition encodeOctetString (data : bytes) : bytes := encodeLength (zlen data) ++ data.

Definition decodeOctetString : Reader bytes :=
  length <-? decodeLength; readFull length.

(** The four node-ID encodings are the octet string of the identifier. *)
Definition encodeGNBID (nodeID : bytes) : bytes := encodeOctetString nodeID.
Definition decodeGNBID : Reader bytes := decodeOctetString.
Definition encodeENBID (nodeID : bytes) : bytes := encodeOctetString nodeID.
Definition decodeENBID : Reader bytes := decodeOctetString.
Definition encodeNgENBID (nodeID : bytes) : bytes := encodeOctetString nodeID.
Definition decodeNgENBID : Reader bytes := decodeOctetString.
Definition encodeEnGNBID (nodeID : bytes) : bytes := encodeOctetString nodeID.
Definition decodeEnGNBID : Reader bytes := decodeOctetString.

(** ** PLMN identities *)

(** [x - '0'] on a byte, as [uint8]. *)
Definition digit (b : byte) : Z := (Z_of_byte b - 48) mod 256.

(** [(hi << 4) | lo] on [uint8] operands. *)
Definition nibbles (hi lo : Z) : byte := byte_of_Z (Z.lor (Z.shiftl hi 4 mod 256) lo).

Definition encodePLMNIdentity (plmn : PLMNIdentity) : bytes :=
  match MCC plmn, MNC plmn with
  | m0 :: m1 :: m2 :: _, n0 :: n1 :: n =>
      [ nibbles (digit m1) (digit m0);
        nibbles (digit n0) (digit m2);
        match n with
        | [n2] => nibbles (digit n2) (digit n1)
        | _ => byte_of_Z (Z.lor 0xF0 (digit n1))
        end ]
  | _, _ => [byte_of_Z 0; byte_of_Z 0; byte_of_Z 0]
  end.

(** [fmt.Sprintf("%d", x)] for a nibble: at most two digits. *)
Definition sprint_nibble (x : Z) : bytes :=
  if x <? 10 then [byte_of_Z (48 + x)] else [byte_of_Z 49; byte_of_Z (48 + (x - 10))].

Definition lo_nibble (b : byte) : Z := Z.land (Z_of_byte b) 0x0F.
Definition hi_nibble (b : byte) : Z := Z.land (Z.shiftr (Z_of_byte b) 4) 0x0F.

Definition decodePLMNIdentity (l : bytes) : PLMNIdentity :=
  match l with
  | [b0; b1; b2] =>
      let mcc := sprint_nibble (lo_nibble b0) ++ sprint_nibble (hi_nibble b0)
                 ++ sprint_nibble (lo_nibble b1) in
      let mnc2 := hi_nibble b1 in
      let mnc1 := lo_nibble b2 in
      let mnc3 := hi_nibble b2 in
      let mnc := if mnc3 =? 0x0F then sprint_nibble mnc2 ++ sprint_nibble mnc1
                 else sprint_nibble mnc2 ++ sprint_nibble mnc1 ++ sprint_nibble mnc3 in
      mkPLMNIdentity mcc mnc
  | _ => mkPLMNIdentity [] []
  end.

(** ** Global identifiers *)

Inductive EncodeError :=
| EncUnsupportedNodeType (t : Z)
| EncUnsupportedMessageType (t : Z)
| EncPanicTypeAssertion.

Definition encodeGlobalE2NodeID (id : GlobalE2NodeID) : result EncodeError bytes :=
  let header := put_uint8 (NodeType id) ++ encodePLMNIdentity (gn_PLMNIdentity id) in
  if NodeType id =? E2NodeTypegNB then Ok (header ++ encodeGNBID (NodeID id))
  else if NodeType id =? E2NodeTypeeNB then Ok (header ++ encodeENBID (NodeID id))
  else if NodeType id =? E2NodeTypeNgENB then Ok (header ++ encodeNgENBID (NodeID id))
  else if NodeType id =? E2NodeTypeEnGNB then Ok (header ++ encodeEnGNBID (NodeID id))
  else Err (EncUnsupportedNodeType (NodeType id)).

Definition decodeGlobalE2NodeID : Reader GlobalE2NodeID :=
  nodeType <-? readUint8;
  plmnBytes <-? readFull 3;
  nodeID <-? (if nodeType =? E2NodeTypegNB then decodeGNBID
              else if nodeType =? E2NodeTypeeNB then decodeENBID
              else if nodeType =? E2NodeTypeNgENB then decodeNgENBID
              else if nodeType =? E2NodeTypeEnGNB then decodeEnGNBID
              else rd_fail (UnsupportedNodeType nodeType));
  rd_ret (mkGlobalE2NodeID (decodePLMNIdentity plmnBytes) nodeType nodeID zeroE2NodeID).

Definition encodeGlobalRICID (id : GlobalRICID) : bytes :=
  encodePLMNIdentity (gr_PLMNIdentity id) ++ put_uint32 (gr_RICID id).

Definition decodeGlobalRICID : Reader GlobalRICID :=
  plmnBytes <-? readFull 3;
  ricID <-? readUint32;
  rd_ret (mkGlobalRICID (decodePLMNIdentity plmnBytes) ricID).

Definition encodeRICRequestID (id : RICRequestID) : bytes :=
  put_uint16 (RICRequestorID id) ++ put_uint16 (RICInstanceID id).

Definition decodeRICRequestID : Reader RICRequestID :=
  requestorID <-? readUint16;
  instanceID <-? readUint16;
  rd_ret (mkRICRequestID requestorID instanceID).

(** ** Lists: a count in the length format, then the items *)

Definition encodeList {A} (enc : A -> bytes) (l : list A) : bytes :=
  encodeLength (zlen l) ++ mjoin (enc <$> l).

Definition decodeList {A} (dec : Reader A) : Reader (list A) :=
  count <-? decodeLength; readCount dec (Z.to_nat count).

Definition encodeRANFunction (fn : RANFunctionItem) : bytes :=
  put_uint16 (rf_RANFunctionID fn) ++ encodeOctetString (RANFunctionDefinition fn)
  ++ put_uint16 (rf_RANFunctionRevision fn)
  ++ match RANFunctionOID fn with
     | Some oid => encodeOctetString oid
     | None => encodeOctetString []
     end.

Definition decodeRANFunction : Reader RANFunctionItem :=
  functionID <-? readUint16;
  definition <-? decodeOctetString;
  revision <-? readUint16;
  oid <-? decodeOctetString;
  rd_ret (mkRANFunctionItem functionID definition revision
            (match oid with [] => None | _ => Some oid end)).

Definition encodeRANFunctionsList (functions : list RANFunctionItem) : bytes :=
  encodeList encodeRANFunction functions.
Definition decodeRANFunctionsList : Reader (list RANFunctionItem) := decodeList decodeRANFunction.

Definition encodeE2NodeComponentID (id : E2NodeComponentID) : bytes :=
  match InterfaceTypeNG id with Some s => put_uint8 0 ++ encodeOctetString s | None =>
  match InterfaceTypeXn id with Some s => put_uint8 1 ++ encodeOctetString s | None =>
  match InterfaceTypeE1 id with Some s => put_uint8 2 ++ encodeOctetString s | None =>
  match InterfaceTypeF1 id with Some s => put_uint8 3 ++ encodeOctetString s | None =>
  match InterfaceTypeW1 id with Some s => put_uint8 4 ++ encodeOctetString s | None =>
  match InterfaceTypeS1 id with Some s => put_uint8 5 ++ encodeOctetString s | None =>
  match InterfaceTypeX2 id with Some s => put_uint8 6 ++ encodeOctetString s | None =>
  put_uint8 255 end end end end end end end.

Definition decodeE2NodeComponentID : Reader E2NodeComponentID :=
  choice <-? readUint8;
  if choice =? 0 then
    s <-? decodeOctetString; rd_ret (mkE2NodeComponentID (Some s) None None None None None None)
  else if choice =? 1 then
    s <-? decodeOctetString; rd_ret (mkE2NodeComponentID None (Some s) None None None None None)
  else if choice =? 2 then
    s <-? decodeOctetString; rd_ret (mkE2NodeComponentID None None (Some s) None None None None)
  else if choice =? 3 then
    s <-? decodeOctetString; rd_ret (mkE2NodeComponentID None None None (Some s) None None None)
  else if choice =? 4 then
    s <-? decodeOctetString; rd_ret (mkE2NodeComponentID None None None None (Some s) None None)
  else if choice =? 5 then
    s <-? decodeOctetString; rd_ret (mkE2NodeComponentID None None None None None (Some s) None)
  else if choice =? 6 then
    s <-? decodeOctetString; rd_ret (mkE2NodeComponentID None None None None None None (Some s))
  else rd_ret zeroE2NodeComponentID.

Definition encodeE2NodeComponentConfiguration (config : E2NodeComponentConfiguration) : bytes :=
  encodeOctetString (E2NodeComponentRequestPart config)
  ++ encodeOctetString (E2NodeComponentResponsePart config).

Definition decodeE2NodeComponentConfiguration : Reader E2NodeComponentConfiguration :=
  requestPart <-? decodeOctetString;
  responsePart <-? decodeOctetString;
  rd_ret (mkE2NodeComponentConfiguration requestPart responsePart).

Definition encodeE2NodeComponentConfig (config : E2NodeComponentConfigurationItem) : bytes :=
  put_uint8 (E2NodeComponentInterfaceType config)
  ++ encodeE2NodeComponentID (ci_E2NodeComponentID config)
  ++ encodeE2NodeComponentConfiguration (ci_E2NodeComponentConfiguration config).

Definition decodeE2NodeComponentConfig : Reader E2NodeComponentConfigurationItem :=
  interfaceType <-? readUint8;
  id <-? decodeE2NodeComponentID;
  configuration <-? decodeE2NodeComponentConfiguration;
  rd_ret (mkE2NodeComponentConfigurationItem interfaceType id configuration).

Definition encodeE2NodeComponentConfigList (configs : list E2NodeComponentConfigurationItem) : bytes :=
  encodeList encodeE2NodeComponentConfig configs.
Definition decodeE2NodeComponentConfigList : Reader (list E2NodeComponentConfigurationItem) :=
  decodeList decodeE2NodeComponentConfig.

Definition encodeCause (cause : E2Cause) : bytes :=
  put_uint8 (CauseType cause) ++ put_uint16 (CauseValue cause).

Definition decodeCause : Reader E2Cause :=
  causeType <-? readUint8; causeValue <-? readUint16; rd_ret (mkE2Cause causeType causeValue).

Definition encodeRANFunctionIDItem (fn : RANFunctionIDItem) : bytes :=
  put_uint16 (fi_RANFunctionID fn) ++ put_uint16 (fi_RANFunctionRevision fn).
Definition decodeRANFunctionIDItem : Reader RANFunctionIDItem :=
  functionID <-? readUint16; revision <-? readUint16;
  rd_ret (mkRANFunctionIDItem functionID revision).

Definition encodeRANFunctionIDList (functions : list RANFunctionIDItem) : bytes :=
  encodeList encodeRANFunctionIDItem functions.
Definition decodeRANFunctionIDList : Reader (list RANFunctionIDItem) :=
  decodeList decodeRANFunctionIDItem.

Definition encodeRANFunctionIDCauseItem (fn : RANFunctionIDCauseItem) : bytes :=
  put_uint16 (fci_RANFunctionID fn) ++ encodeCause (fci_Cause fn).
Definition decodeRANFunctionIDCauseItem : Reader RANFunctionIDCauseItem :=
  functionID <-? readUint16; cause <-? decodeCause;
  rd_ret (mkRANFunctionIDCauseItem functionID cause).

Definition encodeRANFunctionIDCauseList (functions : list RANFunctionIDCauseItem) : bytes :=
  encodeList encodeRANFunctionIDCauseItem functions.
Definition decodeRANFunctionIDCauseList : Reader (list RANFunctionIDCauseItem) :=
  decodeList decodeRANFunctionIDCauseItem.

(** ** RIC actions *)

(** Time to wait is written as one byte, 0 when absent. *)
Definition encodeSubsequentAction (action : RICSubsequentAction) : bytes :=
  put_uint8 (RICSubsequentActionType action)
  ++ match RICTimeToWait action with
     | Some t => put_uint8 t
     | None => put_uint8 0
     end.

Definition encodeRICAction (action : RICActionToBeSetupItem) : bytes :=
  put_uint16 (ra_RICActionID action) ++ put_uint8 (RICActionType action)
  ++ match RICActionDefinition action with
     | [] => []
     | d => encodeOctetString d
     end
  ++ match ra_RICSubsequentAction action with
     | Some a => encodeSubsequentAction a
     | None => []
     end.

(** The definition's error is dropped, and the subsequent action is never
    read. *)
Definition decodeRICAction : Reader RICActionToBeSetupItem :=
  actionID <-? readUint16;
  actionType <-? readUint8;
  definition <-? rd_try decodeOctetString;
  rd_ret (mkRICActionToBeSetupItem actionID actionType
            (match definition with Ok d => d | Err _ => [] end) None).

Definition encodeRICActionsList (actions : list RICActionToBeSetupItem) : bytes :=
  encodeList encodeRICAction actions.
Definition decodeRICActionsList : Reader (list RICActionToBeSetupItem) := decodeList decodeRICAction.

Definition encodeRICActionAdmittedList (actions : list Z) : bytes := encodeList put_uint16 actions.
Definition decodeRICActionAdmittedList : Reader (list Z) := decodeList readUint16.

(** The cause of the item is replaced by a fixed RIC cause. *)
Definition encodeRICActionNotAdmittedItem (action : RICActionNotAdmittedItem) : bytes :=
  put_uint16 (na_RICActionID action) ++ encodeCause (mkE2Cause E2CauseTypeRIC 0).
Definition decodeRICActionNotAdmittedItem : Reader RICActionNotAdmittedItem :=
  actionID <-? readUint16; _ <-? decodeCause;
  rd_ret (mkRICActionNotAdmittedItem actionID zeroE2APCause).

Definition encodeRICActionNotAdmittedList (actions : list RICActionNotAdmittedItem) : bytes :=
  encodeList encodeRICActionNotAdmittedItem actions.
Definition decodeRICActionNotAdmittedList : Reader (list RICActionNotAdmittedItem) :=
  decodeList decodeRICActionNotAdmittedItem.

Definition encodeIndicationType (indType : Z) : bytes := put_uint8 indType.
Definition decodeIndicationType : Reader Z := readUint8.

(** ** Messages *)

Definition encodeE2SetupRequest (req : E2SetupRequest) : result EncodeError bytes :=
  let? id := encodeGlobalE2NodeID (sq_GlobalE2NodeID req) in
  Ok (id ++ encodeRANFunctionsList (RANFunctionsList req)
      ++ match sq_ConfigurationList req with
         | [] => []
         | cs => encodeE2NodeComponentConfigList cs
         end).

Definition decodeE2SetupRequest : Reader E2SetupRequest :=
  globalID <-? decodeGlobalE2NodeID;
  functions <-? decodeRANFunctionsList;
  more <-? rd_more;
  configList <-? (if more : bool then decodeE2NodeComponentConfigList else rd_ret []);
  rd_ret (mkE2SetupRequest globalID functions configList).

Definition encodeE2SetupResponse (resp : E2SetupResponse) : bytes :=
  encodeGlobalRICID (sr_GlobalRICID resp)
  ++ match RANFunctionsAccepted resp with
     | [] => []
     | fs => encodeRANFunctionIDList fs
     end
  ++ match RANFunctionsRejected resp with
     | [] => []
     | rs => encodeRANFunctionIDCauseList
               ((fun r => mkRANFunctionIDCauseItem (fc_RANFunctionID r) (mkE2Cause E2CauseTypeRIC 0)) <$> rs)
     end.

Definition decodeE2SetupResponse : Reader E2SetupResponse :=
  ricID <-? decodeGlobalRICID;
  more <-? rd_more;
  accepted <-? (if more : bool then rd_try decodeRANFunctionIDList else rd_ret (Ok []));
  more' <-? rd_more;
  rejected <-? (if more' : bool then rd_try decodeRANFunctionIDCauseList else rd_ret (Ok []));
  rd_ret (mkE2SetupResponse ricID
            (match accepted with Ok fs => fs | Err _ => [] end)
            (match rejected with
             | Ok items => (fun i => mkRANFunctionIDCause (fci_RANFunctionID i) zeroE2APCause) <$> items
             | Err _ => []
             end)
            []).

Definition encodeRICSubscriptionRequest (req : RICSubscriptionRequest) : bytes :=
  encodeRICRequestID (bq_RICRequestID req) ++ put_uint16 (bq_RANFunctionID req)
  ++ encodeOctetString (RICEventTriggerDefinition (bq_RICSubscriptionDetails req))
  ++ encodeRICActionsList (RICActionToBeSetupList (bq_RICSubscriptionDetails req)).

Definition decodeRICSubscriptionRequest : Reader RICSubscriptionRequest :=
  requestID <-? decodeRICRequestID;
  ranFunctionID <-? readUint16;
  eventTrigger <-? decodeOctetString;
  actions <-? decodeRICActionsList;
  rd_ret (mkRICSubscriptionRequest requestID ranFunctionID
            (mkRICSubscriptionDetails eventTrigger actions)).

Definition encodeRICSubscriptionResponse (resp : RICSubscriptionResponse) : bytes :=
  encodeRICRequestID (br_RICRequestID resp) ++ put_uint16 (br_RANFunctionID resp)
  ++ encodeRICActionAdmittedList (RICActionAdmittedList resp)
  ++ match RICActionNotAdmittedList resp with
     | [] => []
     | l => encodeRICActionNotAdmittedList l
     end.

Definition decodeRICSubscriptionResponse : Reader RICSubscriptionResponse :=
  requestID <-? decodeRICRequestID;
  ranFunctionID <-? readUint16;
  admitted <-? decodeRICActionAdmittedList;
  more <-? rd_more;
  notAdmitted <-? (if more : bool then rd_try decodeRICActionNotAdmittedList else rd_ret (Ok []));
  rd_ret (mkRICSubscriptionResponse requestID ranFunctionID admitted
            (match notAdmitted with Ok l => l | Err _ => [] end)).

(** An optional octet string is written only when it is present and not
    empty, with no flag. *)
Definition encodeOptionalOctets (o : option bytes) : bytes :=
  match o with
  | Some (b :: l) => encodeOctetString (b :: l)
  | _ => []
  end.

Definition encodeRICControlRequest (req : RICControlRequest) : bytes :=
  encodeRICRequestID (cq_RICRequestID req) ++ put_uint16 (cq_RANFunctionID req)
  ++ encodeOptionalOctets (cq_RICCallProcessID req)
  ++ encodeOctetString (RICControlHeader req) ++ encodeOctetString (RICControlMessage req)
  ++ put_uint8 (default 0 (RICControlAckRequest req)).

Definition decodeRICControlRequest : Reader RICControlRequest :=
  requestID <-? decodeRICRequestID;
  ranFunctionID <-? readUint16;
  callProcessID <-? rd_try decodeOctetString;
  header <-? decodeOctetString;
  message <-? decodeOctetString;
  ackByte <-? readUint8;
  rd_ret (mkRICControlRequest requestID ranFunctionID
            (match callProcessID with Ok (b :: l) => Some (b :: l) | _ => None end)
            header message (if ackByte =? 0 then None else Some ackByte)).

Definition encodeRICControlAcknowledge (ack : RICControlAcknowledge) : bytes :=
  encodeRICRequestID (ca_RICRequestID ack) ++ put_uint16 (ca_RANFunctionID ack)
  ++ encodeOptionalOctets (ca_RICCallProcessID ack)
  ++ match RICControlOutcome ack with
     | [] => []
     | o => encodeOctetString o
     end.

Definition decodeRICControlAcknowledge : Reader RICControlAcknowledge :=
  requestID <-? decodeRICRequestID;
  ranFunctionID <-? readUint16;
  more <-? rd_more;
  callProcessID <-? (if more : bool then rd_try decodeOctetString else rd_ret (Err EOF));
  more' <-? rd_more;
  outcome <-? (if more' : bool then rd_try decodeOctetString else rd_ret (Err EOF));
  rd_ret (mkRICControlAcknowledge requestID ranFunctionID
            (match callProcessID with Ok d => Some d | Err _ => None end)
            (match outcome with Ok d => d | Err _ => [] end)).

(** A [uint32] converted to [int32]. *)
Definition int32_of_uint32 (z : Z) : Z := if z <? 2147483648 then z else z - 4294967296.

Definition encodeRICIndication (ind : RICIndication) : bytes :=
  encodeRICRequestID (in_RICRequestID ind) ++ put_uint16 (in_RANFunctionID ind)
  ++ put_uint16 (in_RICActionID ind)
  ++ match RICIndicationSN ind with
     | Some sn => if 0 <? sn then put_uint32 sn else []
     | None => []
     end
  ++ encodeIndicationType (RICIndicationType ind)
  ++ encodeOctetString (RICIndicationHeader ind) ++ encodeOctetString (RICIndicationMessage ind)
  ++ encodeOptionalOctets (in_RICCallProcessID ind).

Definition decodeRICIndication : Reader RICIndication :=
  requestID <-? decodeRICRequestID;
  ranFunctionID <-? readUint16;
  actionID <-? readUint16;
  more <-? rd_more;
  sn <-? (if more : bool then rd_try readUint32 else rd_ret (Err EOF));
  indicationType <-? decodeIndicationType;
  header <-? decodeOctetString;
  message <-? decodeOctetString;
  more' <-? rd_more;
  callProcessID <-? (if more' : bool then rd_try decodeOctetString else rd_ret (Err EOF));
  rd_ret (mkRICIndication requestID ranFunctionID actionID
            (match sn with Ok n => Some (int32_of_uint32 n) | Err _ => None end)
            indicationType header message
            (match callProcessID with Ok d => Some d | Err _ => None end)).

(** ** Payload dispatch and message envelope *)

Definition encodePayload (msgType : E2APMessageType) (payload : E2APPayload) : result EncodeError bytes :=
  if msgType =? E2APMessageTypeSetupRequest then
    match payload with PSetupRequest m => encodeE2SetupRequest m | _ => Err EncPanicTypeAssertion end
  else if msgType =? E2APMessageTypeSetupResponse then
    match payload with PSetupResponse m => Ok (encodeE2SetupResponse m) | _ => Err EncPanicTypeAssertion end
  else if msgType =? E2APMessageTypeRICSubscriptionRequest then
    match payload with
    | PSubscriptionRequest m => Ok (encodeRICSubscriptionRequest m) | _ => Err EncPanicTypeAssertion end
  else if msgType =? E2APMessageTypeRICSubscriptionResponse then
    match payload with
    | PSubscriptionResponse m => Ok (encodeRICSubscriptionResponse m) | _ => Err EncPanicTypeAssertion end
  else if msgType =? E2APMessageTypeRICIndication then
    match payload with PIndication m => Ok (encodeRICIndication m) | _ => Err EncPanicTypeAssertion end
  else if msgType =? E2APMessageTypeRICControlRequest then
    match payload with
    | PControlRequest m => Ok (encodeRICControlRequest m) | _ => Err EncPanicTypeAssertion end
  else if msgType =? E2APMessageTypeRICControlAcknowledge then
    match payload with
    | PControlAcknowledge m => Ok (encodeRICControlAcknowledge m) | _ => Err EncPanicTypeAssertion end
  else Err (EncUnsupportedMessageType msgType).

Inductive MessageDecodeError :=
| InsufficientHeader
| HeaderError (e : DecodeError)
| PayloadReadError (e : DecodeError)
| PayloadDecodeError (e : DecodeError)
| UnsupportedMessageType (t : E2APMessageType).

(** A payload decoder runs on the payload's bytes; what it leaves is
    ignored. *)
Definition runPayload {A} (dec : Reader A) (wrap : A -> E2APPayload) (data : bytes)
  : result MessageDecodeError E2APPayload :=
  match fst (dec data) with
  | Ok m => Ok (wrap m)
  | Err e => Err (PayloadDecodeError e)
  end.

Definition decodePayload (msgType : E2APMessageType) (data : bytes)
  : result MessageDecodeError E2APPayload :=
  if msgType =? E2APMessageTypeSetupRequest then runPayload decodeE2SetupRequest PSetupRequest data
  else if msgType =? E2APMessageTypeSetupResponse then runPayload decodeE2SetupResponse PSetupResponse data
  else if msgType =? E2APMessageTypeRICSubscriptionRequest then
    runPayload decodeRICSubscriptionRequest PSubscriptionRequest data
  else if msgType =? E2APMessageTypeRICSubscriptionResponse then
    runPayload decodeRICSubscriptionResponse PSubscriptionResponse data
  else if msgType =? E2APMessageTypeRICIndication then runPayload decodeRICIndication PIndication data
  else if msgType =? E2APMessageTypeRICControlRequest then
    runPayload decodeRICControlRequest PControlRequest data
  else if msgType =? E2APMessageTypeRICControlAcknowledge then
    runPayload decodeRICControlAcknowledge PControlAcknowledge data
  else Err (UnsupportedMessageType msgType).

Definition getMessageTypeFromProcedureCode (procedureCode : Z) : E2APMessageType :=
  match procedureCode with
  | 1 => E2APMessageTypeSetupRequest
  | 2 => E2APMessageTypeRICSubscriptionRequest
  | 3 => E2APMessageTypeRICControlRequest
  | 4 => E2APMessageTypeErrorIndication
  | 5 => E2APMessageTypeRICSubscriptionDeleteRequest
  | 6 => E2APMessageTypeResetRequest
  | 11 => E2APMessageTypeSetupResponse
  | 12 => E2APMessageTypeRICSubscriptionResponse
  | 13 => E2APMessageTypeRICControlAcknowledge
  | 14 => E2APMessageTypeRICSubscriptionDeleteResponse
  | 15 => E2APMessageTypeResetResponse
  | 21 => E2APMessageTypeSetupFailure
  | 22 => E2APMessageTypeRICSubscriptionFailure
  | 23 => E2APMessageTypeRICControlFailure
  | 24 => E2APMessageTypeRICSubscriptionDeleteFailure
  | 25 => E2APMessageTypeResetFailure
  | 31 => E2APMessageTypeRICIndication
  | 32 => E2APMessageTypeRICServiceUpdate
  | 33 => E2APMessageTypeRICServiceUpdateAcknowledge
  | 34 => E2APMessageTypeRICServiceUpdateFailure
  | _ => 0
  end.

Definition encodeHeader (msg : E2APMessage) (payloadLength : Z) : bytes :=
  put_uint16 (ProcedureCode msg)
  ++ [byte_of_Z (Z.shiftl (Z.land (Criticality msg) 0x03) 6)]
  ++ put_uint8 (TransactionID msg) ++ put_uint32 payloadLength.

Definition EncodeE2APMessage (msg : E2APMessage) : result EncodeError bytes :=
  let? payloadBytes := encodePayload (MessageType msg) (Payload msg) in
  Ok (encodeHeader msg (zlen payloadBytes) ++ payloadBytes).

(** The header fields, in the order the message carries them. *)
Definition decodeHeader : Reader (Z * Z * Z * Z) :=
  procedureCode <-? readUint16;
  criticalityByte <-? readUint8;
  transactionID <-? readUint8;
  payloadLength <-? readUint32;
  rd_ret (procedureCode, Z.shiftr criticalityByte 6, transactionID, payloadLength).

Definition DecodeE2APMessage (data : bytes) : result MessageDecodeError E2APMessage :=
  if zlen data <? 8 then Err InsufficientHeader
  else
    match decodeHeader data with
    | (Err e, _) => Err (HeaderError e)
    | (Ok (procedureCode, criticality, transactionID, payloadLength), rest) =>
        match readFull payloadLength rest with
        | (Err e, _) => Err (PayloadReadError e)
        | (Ok payloadBytes, _) =>
            let msgType := getMessageTypeFromProcedureCode procedureCode in
            match decodePayload msgType payloadBytes with
            | Err e => Err e
            | Ok payload =>
                Ok (mkE2APMessage msgType transactionID procedureCode criticality payload 0 "")
            end
        end
    end.

(** ** Well-formed values: those the wire format can carry *)

Definition octets_wf (d : bytes) : Prop := zlen d < 4294967296.
Definition list_wf {A} (wf : A -> Prop) (l : list A) : Prop := zlen l < 4294967296 /\ Forall wf l.

Definition is_digit (b : byte) : Prop := 48 <= Z_of_byte b <= 57.

(** Three decimal digits of MCC, two or three of MNC. *)
Definition plmn_wf (p : PLMNIdentity) : Prop :=
  length (MCC p) = 3%nat /\ (length (MNC p) = 2%nat \/ length (MNC p) = 3%nat) /\
  Forall is_digit (MCC p) /\ Forall is_digit (MNC p).

Definition node_wf (id : GlobalE2NodeID) : Prop :=
  plmn_wf (gn_PLMNIdentity id) /\ 0 <= NodeType id < 4 /\ octets_wf (NodeID id) /\
  gn_E2NodeID id = zeroE2NodeID.

Definition ric_id_wf (id : GlobalRICID) : Prop :=
  plmn_wf (gr_PLMNIdentity id) /\ fits32 (gr_RICID id).

Definition request_id_wf (id : RICRequestID) : Prop :=
  fits16 (RICRequestorID id) /\ fits16 (RICInstanceID id).

(** A present object identifier is not the empty string. *)
Definition ran_function_wf (fn : RANFunctionItem) : Prop :=
  fits16 (rf_RANFunctionID fn) /\ octets_wf (RANFunctionDefinition fn) /\
  fits16 (rf_RANFunctionRevision fn) /\
  match RANFunctionOID fn with Some oid => oid <> [] /\ octets_wf oid | None => True end.

(** The interface identifiers that are present. *)
Definition component_strings (id : E2NodeComponentID) : list bytes :=
  omap (fun o => o) [InterfaceTypeNG id; InterfaceTypeXn id; InterfaceTypeE1 id; InterfaceTypeF1 id;
                     InterfaceTypeW1 id; InterfaceTypeS1 id; InterfaceTypeX2 id].

(** At most one interface is present, as in a choice. *)
Definition component_id_wf (id : E2NodeComponentID) : Prop :=
  (length (component_strings id) <= 1)%nat /\ Forall octets_wf (component_strings id).

Definition component_config_wf (c : E2NodeComponentConfiguration) : Prop :=
  octets_wf (E2NodeComponentRequestPart c) /\ octets_wf (E2NodeComponentResponsePart c).

Definition config_item_wf (c : E2NodeComponentConfigurationItem) : Prop :=
  fits8 (E2NodeComponentInterfaceType c) /\ component_id_wf (ci_E2NodeComponentID c) /\
  component_config_wf (ci_E2NodeComponentConfiguration c).

Definition setup_request_wf (m : E2SetupRequest) : Prop :=
  node_wf (sq_GlobalE2NodeID m) /\ list_wf ran_function_wf (RANFunctionsList m) /\
  list_wf config_item_wf (sq_ConfigurationList m).

Definition function_id_wf (i : RANFunctionIDItem) : Prop :=
  fits16 (fi_RANFunctionID i) /\ fits16 (fi_RANFunctionRevision i).

Definition rejected_wf (i : RANFunctionIDCause) : Prop :=
  fits16 (fc_RANFunctionID i) /\ fc_Cause i = zeroE2APCause.

(** Rejected functions need accepted ones before them, no cause survives
    the wire, and the configuration list is not transmitted. *)
Definition setup_response_wf (m : E2SetupResponse) : Prop :=
  ric_id_wf (sr_GlobalRICID m) /\ list_wf function_id_wf (RANFunctionsAccepted m) /\
  list_wf rejected_wf (RANFunctionsRejected m) /\
  (RANFunctionsAccepted m = [] -> RANFunctionsRejected m = []) /\ sr_ConfigurationList m = [].

(** An action needs its definition and cannot carry a subsequent action. *)
Definition action_wf (a : RICActionToBeSetupItem) : Prop :=
  fits16 (ra_RICActionID a) /\ fits8 (RICActionType a) /\ RICActionDefinition a <> [] /\
  octets_wf (RICActionDefinition a) /\ ra_RICSubsequentAction a = None.

Definition subscription_request_wf (m : RICSubscriptionRequest) : Prop :=
  request_id_wf (bq_RICRequestID m) /\ fits16 (bq_RANFunctionID m) /\
  octets_wf (RICEventTriggerDefinition (bq_RICSubscriptionDetails m)) /\
  list_wf action_wf (RICActionToBeSetupList (bq_RICSubscriptionDetails m)).

Definition not_admitted_wf (i : RICActionNotAdmittedItem) : Prop :=
  fits16 (na_RICActionID i) /\ na_Cause i = zeroE2APCause.

Definition subscription_response_wf (m : RICSubscriptionResponse) : Prop :=
  request_id_wf (br_RICRequestID m) /\ fits16 (br_RANFunctionID m) /\
  list_wf fits16 (RICActionAdmittedList m) /\ list_wf not_admitted_wf (RICActionNotAdmittedList m).

(** The call process identifier is mandatory in practice, and an
    acknowledgement request of 0 reads back as absent. *)
Definition control_request_wf (m : RICControlRequest) : Prop :=
  request_id_wf (cq_RICRequestID m) /\ fits16 (cq_RANFunctionID m) /\
  (exists d, cq_RICCallProcessID m = Some d /\ d <> [] /\ octets_wf d) /\
  octets_wf (RICControlHeader m) /\ octets_wf (RICControlMessage m) /\
  match RICControlAckRequest m with Some a => 1 <= a < 256 | None => True end.

(** An outcome needs the call process identifier before it. *)
Definition control_ack_wf (m : RICControlAcknowledge) : Prop :=
  request_id_wf (ca_RICRequestID m) /\ fits16 (ca_RANFunctionID m) /\
  octets_wf (RICControlOutcome m) /\
  match ca_RICCallProcessID m with
  | Some d => d <> [] /\ octets_wf d
  | None => RICControlOutcome m = []
  end.

(** The sequence number is mandatory in practice and positive. *)
Definition indication_wf (m : RICIndication) : Prop :=
  request_id_wf (in_RICRequestID m) /\ fits16 (in_RANFunctionID m) /\ fits16 (in_RICActionID m) /\
  (exists sn, RICIndicationSN m = Some sn /\ 0 < sn < 2147483648) /\
  fits8 (RICIndicationType m) /\ octets_wf (RICIndicationHeader m) /\
  octets_wf (RICIndicationMessage m) /\
  match in_RICCallProcessID m with Some d => d <> [] /\ octets_wf d | None => True end.

(** The payload's type is the message type's, and its value is well-formed. *)
Definition payload_wf (t : E2APMessageType) (p : E2APPayload) : Prop :=
  match p with
  | PSetupRequest m => t = E2APMessageTypeSetupRequest /\ setup_request_wf m
  | PSetupResponse m => t = E2APMessageTypeSetupResponse /\ setup_response_wf m
  | PSubscriptionRequest m => t = E2APMessageTypeRICSubscriptionRequest /\ subscription_request_wf m
  | PSubscriptionResponse m => t = E2APMessageTypeRICSubscriptionResponse /\ subscription_response_wf m
  | PIndication m => t = E2APMessageTypeRICIndication /\ indication_wf m
  | PControlRequest m => t = E2APMessageTypeRICControlRequest /\ control_request_wf m
  | PControlAcknowledge m => t = E2APMessageTypeRICControlAcknowledge /\ control_ack_wf m
  | POther => False
  end.

Definition message_wf (msg : E2APMessage) : Prop :=
  fits16 (ProcedureCode msg) /\ 0 <= Criticality msg < 4 /\ fits8 (TransactionID msg) /\
  MessageType msg = getMessageTypeFromProcedureCode (ProcedureCode msg) /\
  payload_wf (MessageType msg) (Payload msg) /\
  (forall b, encodePayload (MessageType msg) (Payload msg) = Ok b -> zlen b < 4294967296) /\
  Timestamp msg = 0 /\ CorrelationID msg = ""%string.

(** ** The round trip, element by element *)

Lemma zlen_nonneg {A} (l : list A) : 0 <= zlen l.
Proof. unfold zlen. lia. Qed.

#[export] Instance wire_length : Wire encodeLength decodeLength fits32.
Proof.
  intros n rest [H0 H]. unfold encodeLength, decodeLength.
  destruct (Z.ltb_spec n 128).
  - rewrite (rd_bind_wire put_uint8 readUint8 fits8) by (unfold fits8; lia).
    destruct (Z.ltb_spec n 128); [done | lia].
  - destruct (Z.ltb_spec n 65536); rewrite <- (assoc_L (++));
      rewrite (rd_bind_wire put_uint8 readUint8 fits8) by (unfold fits8; lia); cbn -[readUint16 readUint32].
    + by apply (wire_roundtrip (enc := put_uint16)); unfold fits16; lia.
    + by apply (wire_roundtrip (enc := put_uint32)).
Qed.

#[export] Instance wire_octets : Wire encodeOctetString decodeOctetString octets_wf.
Proof.
  intros d rest H. unfold encodeOctetString, decodeOctetString. rewrite <- (assoc_L (++)).
  rewrite (rd_bind_wire encodeLength decodeLength fits32).
  - apply readFull_app.
  - unfold octets_wf, fits32 in *. pose proof (zlen_nonneg d). lia.
Qed.

#[export] Instance wire_list {A} (enc : A -> bytes) (dec : Reader A) (wf : A -> Prop) :
  Wire enc dec wf -> Wire (encodeList enc) (decodeList dec) (list_wf wf).
Proof.
  intros W l rest [Hlen Hwf]. unfold encodeList, decodeList. rewrite <- (assoc_L (++)).
  rewrite (rd_bind_wire encodeLength decodeLength fits32)
    by (unfold fits32; pose proof (zlen_nonneg l); lia).
  unfold zlen. rewrite Nat2Z.id.
  by apply (wire_readCount enc dec wf (length l) W).
Qed.

(** *** Rewriting one decoding step *)

Ltac wire_side :=
  unfold fits8, fits16, fits32, octets_wf, list_wf in *; intuition (lia || auto).

Lemma step_uint8 {B} (k : Z -> Reader B) z rest :
  fits8 z -> rd_bind readUint8 k (put_uint8 z ++ rest) = k z rest.
Proof. apply (rd_bind_wire put_uint8 readUint8 fits8). Qed.

Lemma step_uint16 {B} (k : Z -> Reader B) z rest :
  fits16 z -> rd_bind readUint16 k (put_uint16 z ++ rest) = k z rest.
Proof. apply (rd_bind_wire put_uint16 readUint16 fits16). Qed.

Lemma step_uint32 {B} (k : Z -> Reader B) z rest :
  fits32 z -> rd_bind readUint32 k (put_uint32 z ++ rest) = k z rest.
Proof. apply (rd_bind_wire put_uint32 readUint32 fits32). Qed.

Lemma step_octets {B} (k : bytes -> Reader B) d rest :
  octets_wf d -> rd_bind decodeOctetString k (encodeOctetString d ++ rest) = k d rest.
Proof. apply (rd_bind_wire encodeOctetString decodeOctetString octets_wf). Qed.

Lemma step_try_octets {B} (k : result DecodeError bytes -> Reader B) d rest :
  octets_wf d ->
  rd_bind (rd_try decodeOctetString) k (encodeOctetString d ++ rest) = k (Ok d) rest.
Proof.
  intros H. apply rd_bind_ok, rd_try_ok. by apply (wire_roundtrip (enc := encodeOctetString)).
Qed.

Lemma step_list {A B} (enc : A -> bytes) (dec : Reader A) (wf : A -> Prop) `{!Wire enc dec wf}
  (k : list A -> Reader B) l rest :
  list_wf wf l -> rd_bind (decodeList dec) k (encodeList enc l ++ rest) = k l rest.
Proof. apply (rd_bind_wire (encodeList enc) (decodeList dec) (list_wf wf)). Qed.

Lemma step_try_list {A B} (enc : A -> bytes) (dec : Reader A) (wf : A -> Prop) `{!Wire enc dec wf}
  (k : result DecodeError (list A) -> Reader B) l rest :
  list_wf wf l -> rd_bind (rd_try (decodeList dec)) k (encodeList enc l ++ rest) = k (Ok l) rest.
Proof.
  intros H. apply rd_bind_ok, rd_try_ok.
  by apply (wire_roundtrip (enc := encodeList enc)).
Qed.

Lemma step_more_nil {B} (k : bool -> Reader B) : rd_bind rd_more k [] = k false [].
Proof. done. Qed.

Lemma encodeLength_cons n : exists b l, encodeLength n = b :: l.
Proof. unfold encodeLength. repeat case_match; simpl; eauto. Qed.

Lemma step_more_length {B} (k : bool -> Reader B) n rest :
  rd_bind rd_more k (encodeLength n ++ rest) = k true (encodeLength n ++ rest).
Proof. by destruct (encodeLength_cons n) as (b & l & ->). Qed.

Lemma step_more_octets {B} (k : bool -> Reader B) d rest :
  rd_bind rd_more k (encodeOctetString d ++ rest) = k true (encodeOctetString d ++ rest).
Proof. unfold encodeOctetString. rewrite <- (assoc_L (++)). apply step_more_length. Qed.

Lemma step_more_list {A B} (enc : A -> bytes) (k : bool -> Reader B) l rest :
  rd_bind rd_more k (encodeList enc l ++ rest) = k true (encodeList enc l ++ rest).
Proof. unfold encodeList. rewrite <- (assoc_L (++)). apply step_more_length. Qed.

Lemma step_more_uint8 {B} (k : bool -> Reader B) z rest :
  rd_bind rd_more k (put_uint8 z ++ rest) = k true (put_uint8 z ++ rest).
Proof. done. Qed.

Lemma step_more_uint32 {B} (k : bool -> Reader B) z rest :
  rd_bind rd_more k (put_uint32 z ++ rest) = k true (put_uint32 z ++ rest).
Proof. done. Qed.

Lemma step_try_uint32 {B} (k : result DecodeError Z -> Reader B) z rest :
  fits32 z -> rd_bind (rd_try readUint32) k (put_uint32 z ++ rest) = k (Ok z) rest.
Proof.
  intros H. apply rd_bind_ok, rd_try_ok. by apply (wire_roundtrip (enc := put_uint32)).
Qed.

#[local] Opaque put_uint8 put_uint16 put_uint32 encodeLength encodeOctetString encodeList
  readUint8 readUint16 readUint32 decodeLength decodeOctetString decodeList.

Create Rewrite HintDb wire.
#[export] Hint Rewrite @step_uint8 @step_uint16 @step_uint32 @step_octets @step_try_octets
  using solve [wire_side] : wire.
#[export] Hint Rewrite @step_more_nil @step_more_length @step_more_octets @step_more_list : wire.

(** [wire_steps]: decode as far as the encoders' promises reach. *)
Ltac wire_steps := rewrite <- ?(assoc_L (++)); autorewrite with wire.

(** *** PLMN identities *)

Lemma nibble_table :
  forallb (fun h => forallb (fun l =>
    (lo_nibble (nibbles h l) =? l) && (hi_nibble (nibbles h l) =? h)) (seqZ 0 16)) (seqZ 0 16) = true.
Proof. by vm_compute. Qed.

Lemma nibbles_lo_hi h l :
  0 <= h < 16 -> 0 <= l < 16 ->
  lo_nibble (nibbles h l) = l /\ hi_nibble (nibbles h l) = h.
Proof.
  intros Hh Hl. pose proof nibble_table as H.
  rewrite forallb_forall in H. specialize (H h). rewrite forallb_forall in H.
  assert (In h (seqZ 0 16)) as Hh' by (apply list_elem_of_In, elem_of_seqZ; lia).
  assert (In l (seqZ 0 16)) as Hl' by (apply list_elem_of_In, elem_of_seqZ; lia).
  specialize (H Hh' l Hl'). lia.
Qed.

Lemma digit_range b : is_digit b -> 0 <= digit b < 10.
Proof.
  unfold is_digit, digit. intros H. rewrite Z.mod_small by lia. lia.
Qed.

Lemma sprint_digit b : is_digit b -> sprint_nibble (digit b) = [b].
Proof.
  intros H. pose proof (digit_range b H). unfold sprint_nibble.
  destruct (Z.ltb_spec (digit b) 10); [| lia]. unfold digit in *. unfold is_digit in H.
  rewrite Z.mod_small by lia. replace (48 + (Z_of_byte b - 48)) with (Z_of_byte b) by lia.
  by rewrite byte_of_Z_of_byte.
Qed.

(** The filler nibble of a two-digit MNC. *)
Lemma filler_nibble d : 0 <= d < 16 -> byte_of_Z (Z.lor 0xF0 d) = nibbles 15 d.
Proof.
  done.
Qed.

Lemma decode_encode_PLMN p : plmn_wf p -> decodePLMNIdentity (encodePLMNIdentity p) = p.
Proof.
  destruct p as [mcc mnc]. intros (Hc & Hn & Dc & Dn). simpl in *.
  destruct mcc as [| m0 [| m1 [| m2 []]]]; try done.
  destruct mnc as [| n0 [| n1 mnc]]; [destruct Hn; done | destruct Hn; done |].
  forall_inv.
  repeat match goal with H : is_digit ?b |- _ =>
    pose proof (digit_range b H); pose proof (sprint_digit b H); clear H end.
  unfold encodePLMNIdentity, decodePLMNIdentity; cbn [MCC MNC].
  destruct (nibbles_lo_hi (digit m1) (digit m0)) as [-> ->]; [lia.. |].
  destruct (nibbles_lo_hi (digit n0) (digit m2)) as [-> ->]; [lia.. |].
  destruct mnc as [| n2 [| n3 mnc]]; [| | simpl in Hn; lia].
  - rewrite filler_nibble by lia.
    destruct (nibbles_lo_hi 15 (digit n1)) as [-> ->]; [lia.. |].
    rewrite Z.eqb_refl.
    by repeat match goal with H : sprint_nibble _ = _ |- _ => rewrite H; clear H end.
  - forall_inv.
    match goal with H : is_digit ?b |- _ =>
      pose proof (digit_range b H); pose proof (sprint_digit b H); clear H end.
    destruct (nibbles_lo_hi (digit n2) (digit n1)) as [-> ->]; [lia.. |].
    destruct (Z.eqb_spec (digit n2) 15); [lia |].
    by repeat match goal with H : sprint_nibble _ = _ |- _ => rewrite H; clear H end.
Qed.

Lemma length_encodePLMN p : length (encodePLMNIdentity p) = 3%nat.
Proof. unfold encodePLMNIdentity. by repeat case_match. Qed.

Lemma step_plmn {B} (k : bytes -> Reader B) p rest :
  rd_bind (readFull 3) k (encodePLMNIdentity p ++ rest) = k (encodePLMNIdentity p) rest.
Proof.
  apply rd_bind_ok. change 3 with (Z.of_nat 3). rewrite <- (length_encodePLMN p).
  apply readFull_app.
Qed.

#[export] Hint Rewrite @step_plmn : wire.

(** *** Elements *)

#[export] Instance wire_request_id : Wire encodeRICRequestID decodeRICRequestID request_id_wf.
Proof.
  intros [a b] rest [Ha Hb]; simpl in *. unfold encodeRICRequestID, decodeRICRequestID. by wire_steps.
Qed.

#[export] Instance wire_ric_id : Wire encodeGlobalRICID decodeGlobalRICID ric_id_wf.
Proof.
  intros [p n] rest [Hp Hn]; simpl in *. unfold encodeGlobalRICID, decodeGlobalRICID.
  wire_steps. by rewrite decode_encode_PLMN.
Qed.

#[export] Instance wire_ran_function : Wire encodeRANFunction decodeRANFunction ran_function_wf.
Proof.
  intros [i d r o] rest (Hi & Hd & Hr & Ho); simpl in *.
  unfold encodeRANFunction, decodeRANFunction; simpl. wire_steps.
  destruct o as [[| b oid] |]; wire_steps; [by destruct Ho | done |].
  rewrite step_octets by done. done.
Qed.

#[export] Instance wire_component_id :
  Wire encodeE2NodeComponentID decodeE2NodeComponentID component_id_wf.
Proof.
  intros [o1 o2 o3 o4 o5 o6 o7] rest [Hlen Hwf].
  unfold component_strings in *; simpl in *.
  destruct o1, o2, o3, o4, o5, o6, o7; simpl in Hlen; try (exfalso; lia); clear Hlen;
    unfold encodeE2NodeComponentID, decodeE2NodeComponentID; simpl in *;
    forall_inv; wire_steps; simpl; by wire_steps.
Qed.

#[export] Instance wire_component_config :
  Wire encodeE2NodeComponentConfiguration decodeE2NodeComponentConfiguration component_config_wf.
Proof.
  intros [a b] rest [Ha Hb]; simpl in *.
  unfold encodeE2NodeComponentConfiguration, decodeE2NodeComponentConfiguration. by wire_steps.
Qed.

#[export] Instance wire_config_item :
  Wire encodeE2NodeComponentConfig decodeE2NodeComponentConfig config_item_wf.
Proof.
  intros [t i c] rest (Ht & Hi & Hc); simpl in *.
  unfold encodeE2NodeComponentConfig, decodeE2NodeComponentConfig; simpl. wire_steps.
  rewrite (rd_bind_wire encodeE2NodeComponentID decodeE2NodeComponentID component_id_wf) by done.
  by rewrite (rd_bind_wire encodeE2NodeComponentConfiguration _ component_config_wf) by done.
Qed.

Definition cause_wf (c : E2Cause) : Prop := fits8 (CauseType c) /\ fits16 (CauseValue c).

#[export] Instance wire_cause : Wire encodeCause decodeCause cause_wf.
Proof. intros [t v] rest [Ht Hv]; simpl in *. unfold encodeCause, decodeCause. by wire_steps. Qed.

#[export] Instance wire_function_id : Wire encodeRANFunctionIDItem decodeRANFunctionIDItem function_id_wf.
Proof.
  intros [a b] rest [Ha Hb]; simpl in *.
  unfold encodeRANFunctionIDItem, decodeRANFunctionIDItem. by wire_steps.
Qed.

Definition cause_item_wf (i : RANFunctionIDCauseItem) : Prop :=
  fits16 (fci_RANFunctionID i) /\ cause_wf (fci_Cause i).

#[export] Instance wire_cause_item :
  Wire encodeRANFunctionIDCauseItem decodeRANFunctionIDCauseItem cause_item_wf.
Proof.
  intros [i c] rest [Hi Hc]; simpl in *.
  unfold encodeRANFunctionIDCauseItem, decodeRANFunctionIDCauseItem. wire_steps. simpl.
  by rewrite (rd_bind_wire encodeCause decodeCause cause_wf).
Qed.

#[export] Instance wire_action : Wire encodeRICAction decodeRICAction action_wf.
Proof.
  intros [i t d s] rest (Hi & Ht & Hd & Hd' & Hs); simpl in *. subst s.
  unfold encodeRICAction, decodeRICAction; simpl. destruct d as [| b d]; [done |].
  by wire_steps.
Qed.

#[export] Instance wire_not_admitted :
  Wire encodeRICActionNotAdmittedItem decodeRICActionNotAdmittedItem not_admitted_wf.
Proof.
  intros [i c] rest [Hi Hc]; simpl in *. subst c.
  unfold encodeRICActionNotAdmittedItem, decodeRICActionNotAdmittedItem. wire_steps.
  by rewrite (rd_bind_wire encodeCause decodeCause cause_wf) by (by split).
Qed.

(** ** The round trip, message by message *)

Lemma encode_node_ok id : node_wf id ->
  exists b, encodeGlobalE2NodeID id = Ok b /\
    forall rest, decodeGlobalE2NodeID (b ++ rest) = (Ok id, rest).
Proof.
  destruct id as [p t n e]. intros (Hp & Ht & Hn & He); simpl in *. subst e.
  eexists. split.
  { unfold encodeGlobalE2NodeID; simpl.
    assert (t = 0 \/ t = 1 \/ t = 2 \/ t = 3) as [-> | [-> | [-> | ->]]] by lia; reflexivity. }
  intros rest. unfold decodeGlobalE2NodeID. rewrite <- !(assoc_L (++)).
  rewrite step_uint8 by (unfold fits8; lia). rewrite step_plmn.
  assert (t = 0 \/ t = 1 \/ t = 2 \/ t = 3) as [-> | [-> | [-> | ->]]] by lia;
    cbn; unfold decodeGNBID, decodeENBID, decodeNgENBID, decodeEnGNBID,
      encodeGNBID, encodeENBID, encodeNgENBID, encodeEnGNBID;
    rewrite step_octets, decode_encode_PLMN by done; done.
Qed.

Lemma decode_setup_request m : setup_request_wf m ->
  exists b, encodeE2SetupRequest m = Ok b /\ decodeE2SetupRequest b = (Ok m, []).
Proof.
  destruct m as [id fs cs]. intros (Hid & Hfs & Hcs); simpl in *.
  destruct (encode_node_ok id Hid) as (b & Hb & Hdec).
  eexists. split; [unfold encodeE2SetupRequest; simpl; by rewrite Hb |].
  unfold decodeE2SetupRequest. rewrite (rd_bind_ok _ _ _ _ _ (Hdec _)).
  unfold encodeRANFunctionsList, decodeRANFunctionsList.
  rewrite (step_list _ _ ran_function_wf) by done.
  destruct cs as [| c cs]; [done |].
  unfold encodeE2NodeComponentConfigList, decodeE2NodeComponentConfigList.
  rewrite <- (app_nil_r (encodeList _ _)), step_more_list.
  by rewrite (step_list _ _ config_item_wf).
Qed.

Lemma rejected_items rs : Forall rejected_wf rs ->
  ((fun i => mkRANFunctionIDCause (fci_RANFunctionID i) zeroE2APCause) <$>
    ((fun r => mkRANFunctionIDCauseItem (fc_RANFunctionID r) (mkE2Cause E2CauseTypeRIC 0)) <$> rs)) = rs /\
  Forall cause_item_wf
    ((fun r => mkRANFunctionIDCauseItem (fc_RANFunctionID r) (mkE2Cause E2CauseTypeRIC 0)) <$> rs).
Proof.
  induction 1 as [| [i c] rs [Hi Hc] _ [IH1 IH2]]; [done |].
  rewrite !fmap_cons. simpl in *. subst c. split; [by f_equal |].
  constructor; [| done]. done.
Qed.

Lemma decode_setup_response m : setup_response_wf m ->
  decodeE2SetupResponse (encodeE2SetupResponse m) = (Ok m, []).
Proof.
  destruct m as [id fs rs cs]. intros (Hid & Hfs & [Hlen Hrs] & Hne & Hcs); simpl in *. subst cs.
  unfold encodeE2SetupResponse, decodeE2SetupResponse; cbn -[encodeGlobalRICID fmap].
  rewrite (rd_bind_wire encodeGlobalRICID decodeGlobalRICID ric_id_wf) by done.
  destruct fs as [| f fs]; [by rewrite Hne |].
  unfold encodeRANFunctionIDList, decodeRANFunctionIDList.
  rewrite step_more_list, (step_try_list _ _ function_id_wf) by done.
  destruct (rejected_items rs Hrs) as [Hmap Hwf].
  destruct rs as [| r rs]; [done |].
  unfold encodeRANFunctionIDCauseList, decodeRANFunctionIDCauseList.
  rewrite <- (app_nil_r (encodeList _ (_ <$> _))), step_more_list.
  rewrite (step_try_list _ _ cause_item_wf).
  - unfold rd_ret. by rewrite Hmap.
  - split; [| done]. unfold zlen in *. by rewrite length_fmap.
Qed.

Lemma decode_subscription_request m : subscription_request_wf m ->
  decodeRICSubscriptionRequest (encodeRICSubscriptionRequest m) = (Ok m, []).
Proof.
  destruct m as [id f [t l]]. intros (Hid & Hf & Ht & Hl); simpl in *.
  unfold encodeRICSubscriptionRequest, decodeRICSubscriptionRequest; cbn -[encodeRICRequestID].
  rewrite (rd_bind_wire encodeRICRequestID decodeRICRequestID request_id_wf) by done.
  rewrite step_uint16, step_octets by done.
  unfold encodeRICActionsList, decodeRICActionsList.
  rewrite <- (app_nil_r (encodeList _ _)). by rewrite (step_list _ _ action_wf).
Qed.

Lemma decode_subscription_response m : subscription_response_wf m ->
  decodeRICSubscriptionResponse (encodeRICSubscriptionResponse m) = (Ok m, []).
Proof.
  destruct m as [id f l n]. intros (Hid & Hf & Hl & Hn); simpl in *.
  unfold encodeRICSubscriptionResponse, decodeRICSubscriptionResponse; cbn -[encodeRICRequestID].
  rewrite (rd_bind_wire encodeRICRequestID decodeRICRequestID request_id_wf) by done.
  rewrite step_uint16 by done.
  unfold encodeRICActionAdmittedList, decodeRICActionAdmittedList.
  rewrite (step_list _ _ fits16) by done.
  destruct n as [| i n]; [done |].
  unfold encodeRICActionNotAdmittedList, decodeRICActionNotAdmittedList.
  rewrite <- (app_nil_r (encodeList _ _)), step_more_list.
  by rewrite (step_try_list _ _ not_admitted_wf).
Qed.

Lemma decode_control_request m : control_request_wf m ->
  decodeRICControlRequest (encodeRICControlRequest m) = (Ok m, []).
Proof.
  destruct m as [id f cp h msg ack]. intros (Hid & Hf & (d & Hcp & Hd & Hd') & Hh & Hm & Ha); simpl in *.
  subst cp.
  destruct d as [| b d]; [done |].
  unfold encodeRICControlRequest, decodeRICControlRequest; cbn -[encodeRICRequestID].
  rewrite (rd_bind_wire encodeRICRequestID decodeRICRequestID request_id_wf) by done.
  rewrite step_uint16, step_try_octets, !step_octets by done.
  rewrite <- (app_nil_r (put_uint8 _)).
  destruct ack as [a |]; simpl.
  - rewrite step_uint8 by (unfold fits8; lia). destruct (Z.eqb_spec a 0); [lia | done].
  - by rewrite step_uint8.
Qed.

Lemma decode_control_ack m : control_ack_wf m ->
  decodeRICControlAcknowledge (encodeRICControlAcknowledge m) = (Ok m, []).
Proof.
  destruct m as [id f cp o]. intros (Hid & Hf & Ho & Hc); simpl in *.
  unfold encodeRICControlAcknowledge, decodeRICControlAcknowledge; cbn -[encodeRICRequestID].
  rewrite (rd_bind_wire encodeRICRequestID decodeRICRequestID request_id_wf) by done.
  rewrite step_uint16 by done.
  destruct cp as [[| b d] |]; [by destruct Hc | | by subst o].
  unfold encodeOptionalOctets. rewrite step_more_octets, step_try_octets by apply Hc.
  destruct o as [| c o]; [done |].
  rewrite <- (app_nil_r (encodeOctetString (c :: o))), step_more_octets.
  by rewrite step_try_octets.
Qed.

Lemma decode_indication m : indication_wf m ->
  decodeRICIndication (encodeRICIndication m) = (Ok m, []).
Proof.
  destruct m as [id f act sn t h msg cp].
  intros (Hid & Hf & Hact & (n & Hsn & Hn) & Ht & Hh & Hm & Hc); simpl in *. subst sn.
  unfold encodeRICIndication, decodeRICIndication; cbn -[encodeRICRequestID].
  rewrite (rd_bind_wire encodeRICRequestID decodeRICRequestID request_id_wf) by done.
  rewrite !step_uint16 by done.
  destruct (Z.ltb_spec 0 n); [| lia].
  rewrite step_more_uint32, step_try_uint32 by (unfold fits32; lia).
  unfold encodeIndicationType, decodeIndicationType.
  rewrite step_uint8, !step_octets by done.
  assert (int32_of_uint32 n = n) as Hint
    by (unfold int32_of_uint32; destruct (Z.ltb_spec n 2147483648); [done | lia]).
  destruct cp as [[| b d] |]; [by destruct Hc | | by unfold rd_ret; cbn; rewrite Hint].
  unfold encodeOptionalOctets. rewrite <- (app_nil_r (encodeOctetString (b :: d))), step_more_octets.
  rewrite step_try_octets by apply Hc. unfold rd_ret. by rewrite Hint.
Qed.

(** ** Message envelope *)

Lemma payload_roundtrip t p : payload_wf t p ->
  exists b, encodePayload t p = Ok b /\ decodePayload t b = Ok p.
Proof.
  destruct p as [m | m | m | m | m | m | m |]; simpl; [.. | done]; intros [-> Hm];
    unfold encodePayload, decodePayload, runPayload; simpl.
  - destruct (decode_setup_request m Hm) as (b & Hb & Hd). exists b. by rewrite Hd.
  - eexists; split; [done |]. by rewrite decode_setup_response.
  - eexists; split; [done |]. by rewrite decode_subscription_request.
  - eexists; split; [done |]. by rewrite decode_subscription_response.
  - eexists; split; [done |]. by rewrite decode_indication.
  - eexists; split; [done |]. by rewrite decode_control_request.
  - eexists; split; [done |]. by rewrite decode_control_ack.
Qed.

(** The header reads back with every field reduced to its width. *)
Lemma decode_header msg n rest :
  decodeHeader (encodeHeader msg n ++ rest)
  = (Ok (ProcedureCode msg mod 65536, Z.land (Criticality msg) 3, TransactionID msg mod 256,
         n mod 4294967296), rest).
Proof.
  unfold encodeHeader, decodeHeader. rewrite <- !(assoc_L (++)).
  rewrite (rd_bind_ok _ _ _ _ _ (readUint16_put _ _)).
  rewrite (rd_bind_ok _ _ _ _ _ (readUint8_put (Z.shiftl (Z.land (Criticality msg) 3) 6) _)).
  rewrite (rd_bind_ok _ _ _ _ _ (readUint8_put _ _)), (rd_bind_ok _ _ _ _ _ (readUint32_put _ _)).
  unfold rd_ret. rewrite (Z.mod_small (Z.shiftl (Z.land (Criticality msg) 3) 6)).
  - by rewrite Z.shiftr_shiftl_l, Z.shiftl_0_r by lia.
  - rewrite Z.shiftl_mul_pow2 by lia. change 3 with (Z.ones 2). rewrite Z.land_ones by lia.
    pose proof (Z.mod_pos_bound (Criticality msg) (2 ^ 2)). lia.
Qed.

Lemma length_encodeHeader msg n : zlen (encodeHeader msg n) = 8.
Proof. done. Qed.

Lemma zlen_app {A} (l k : list A) : zlen (l ++ k) = zlen l + zlen k.
Proof. unfold zlen. rewrite length_app. lia. Qed.

(** Decoding the envelope of an encoded payload. *)
Lemma decode_envelope_any msg p extra :
  zlen p < 4294967296 ->
  DecodeE2APMessage ((encodeHeader msg (zlen p) ++ p) ++ extra)
  = let msgType := getMessageTypeFromProcedureCode (ProcedureCode msg mod 65536) in
    match decodePayload msgType p with
    | Err e => Err e
    | Ok payload =>
        Ok (mkE2APMessage msgType (TransactionID msg mod 256) (ProcedureCode msg mod 65536)
              (Z.land (Criticality msg) 3) payload 0 "")
    end.
Proof.
  intros Hn. unfold DecodeE2APMessage.
  pose proof (zlen_nonneg p). pose proof (zlen_nonneg extra).
  destruct (Z.ltb_spec (zlen ((encodeHeader msg (zlen p) ++ p) ++ extra)) 8) as [Hlt |].
  { rewrite !zlen_app, length_encodeHeader in Hlt. lia. }
  rewrite <- (assoc_L (++)), decode_header, (Z.mod_small (zlen p)) by lia.
  unfold zlen at 1. by rewrite readFull_app.
Qed.

Lemma decode_envelope msg p extra :
  fits16 (ProcedureCode msg) -> 0 <= Criticality msg < 4 -> fits8 (TransactionID msg) ->
  zlen p < 4294967296 ->
  DecodeE2APMessage ((encodeHeader msg (zlen p) ++ p) ++ extra)
  = let msgType := getMessageTypeFromProcedureCode (ProcedureCode msg) in
    match decodePayload msgType p with
    | Err e => Err e
    | Ok payload =>
        Ok (mkE2APMessage msgType (TransactionID msg) (ProcedureCode msg) (Criticality msg) payload 0 "")
    end.
Proof.
  intros Hp Hc Ht Hn. rewrite decode_envelope_any by done. change 3 with (Z.ones 2).
  by rewrite Z.land_ones, !(Z.mod_small _ _) by (done || lia).
Qed.

(** C5 - Every well-formed E2AP message encodes, and decoding the encoding,
    whatever bytes follow it in the buffer, gives the message back: header
    fields, message type and payload, for the seven message types of the
    codec. *)
Theorem codec_roundtrip msg (H : message_wf msg) :
  exists b, EncodeE2APMessage msg = Ok b /\
    forall extra, DecodeE2APMessage (b ++ extra) = Ok msg.
Proof.
  destruct H as (Hp & Hc & Ht & Hty & Hpay & Hlen & Hts & Hcor).
  destruct (payload_roundtrip _ _ Hpay) as (b & Hb & Hd).
  eexists. split; [unfold EncodeE2APMessage; by rewrite Hb |].
  intros extra. rewrite decode_envelope by auto. rewrite Hty in Hd. simpl. rewrite Hd.
  rewrite <- Hty, <- Hts, <- Hcor. by destruct msg.
Qed.

(** C38 - Framing: every strict prefix of an encoded message is rejected by the
    decoder, so a truncated transmission is never taken for a message. *)
Theorem codec_rejects_truncation msg b n
  (Henc : EncodeE2APMessage msg = Ok b) (Hfit : zlen b < 4294967296)
  (Hn : (n < length b)%nat) :
  exists e, DecodeE2APMessage (take n b) = Err e.
Proof.
  unfold EncodeE2APMessage in Henc.
  destruct (encodePayload (MessageType msg) (Payload msg)) as [p |] eqn:Hp; [| done].
  simpl in Henc. injection Henc as <-. rewrite zlen_app, length_encodeHeader in Hfit.
  unfold DecodeE2APMessage. destruct (Z.ltb_spec (zlen (take n (encodeHeader msg (zlen p) ++ p))) 8) as [| H8].
  { by eexists. }
  set (h := encodeHeader msg (zlen p)) in *.
  assert (length h = 8%nat) as Hh by done.
  unfold zlen in H8. rewrite length_take in H8. rewrite length_app in Hn.
  rewrite take_app, take_ge by lia.
  unfold h. rewrite decode_header, (Z.mod_small (zlen p)) by (pose proof (zlen_nonneg p); lia).
  destruct (readFull_short (zlen p) (take (n - length (encodeHeader msg (zlen p))) p)) as [e ->]; [| by eexists].
  fold h. unfold zlen. rewrite length_take. lia.
Qed.

(** ** What the decoder can return *)

#[local] Transparent put_uint8 put_uint16 put_uint32 encodeLength encodeOctetString encodeList
  readUint8 readUint16 readUint32 decodeLength decodeOctetString decodeList.

(** The information every decoded payload lacks: the decoder never produces
    it, whatever the bytes. *)
Definition payload_image (t : E2APMessageType) (p : E2APPayload) : Prop :=
  match p with
  | PSetupRequest m => t = E2APMessageTypeSetupRequest /\ gn_E2NodeID (sq_GlobalE2NodeID m) = zeroE2NodeID
  | PSetupResponse m =>
      t = E2APMessageTypeSetupResponse /\ sr_ConfigurationList m = [] /\
      Forall (fun r => fc_Cause r = zeroE2APCause) (RANFunctionsRejected m)
  | PSubscriptionRequest m =>
      t = E2APMessageTypeRICSubscriptionRequest /\
      Forall (fun a => ra_RICSubsequentAction a = None)
        (RICActionToBeSetupList (bq_RICSubscriptionDetails m))
  | PSubscriptionResponse m =>
      t = E2APMessageTypeRICSubscriptionResponse /\
      Forall (fun i => na_Cause i = zeroE2APCause) (RICActionNotAdmittedList m)
  | PIndication m => t = E2APMessageTypeRICIndication /\ is_Some (RICIndicationSN m)
  | PControlRequest m => t = E2APMessageTypeRICControlRequest /\ RICControlAckRequest m <> Some 0
  | PControlAcknowledge m => t = E2APMessageTypeRICControlAcknowledge
  | POther => False
  end.

(** Inversion of a successful read. *)
Lemma rd_bind_inv {A B} (m : Reader A) (k : A -> Reader B) r b r' :
  rd_bind m k r = (Ok b, r') -> exists a s, m r = (Ok a, s) /\ k a s = (Ok b, r').
Proof. unfold rd_bind. destruct (m r) as [[a | e] s]; [by eauto | done]. Qed.

Lemma rd_try_inv {A} (m : Reader A) r x r' : rd_try m r = (Ok x, r') -> m r = (x, r').
Proof. unfold rd_try. destruct (m r) as [y s]. by intros [= <- <-]. Qed.

Lemma readCount_Forall {A} (dec : Reader A) (P : A -> Prop) n r l r' :
  (forall r a r', dec r = (Ok a, r') -> P a) -> readCount dec n r = (Ok l, r') -> Forall P l.
Proof.
  intros HP. revert r l r'. induction n as [| n IH]; intros r l r'; cbn [readCount].
  - by intros [= <- _].
  - intros (a & s & Ha & H)%rd_bind_inv. apply rd_bind_inv in H as (xs & s' & Hxs & H).
    injection H as <- _. constructor; eauto.
Qed.

Lemma decodeList_Forall {A} (dec : Reader A) (P : A -> Prop) r l r' :
  (forall r a r', dec r = (Ok a, r') -> P a) -> decodeList dec r = (Ok l, r') -> Forall P l.
Proof.
  unfold decodeList. intros HP (n & s & _ & H)%rd_bind_inv. by eapply readCount_Forall.
Qed.

(** [goal_match]: case analysis on what the goal scrutinises. *)
Ltac goal_match := match goal with |- context [match ?x with _ => _ end] => destruct x end.

(** [rd_inv H]: the reads of a successful decoding, one by one. *)
Ltac rd_inv H :=
  repeat (apply rd_bind_inv in H as (? & ? & ? & H)); injection H as <- ?.

Lemma decodeRICAction_image r a r' : decodeRICAction r = (Ok a, r') -> ra_RICSubsequentAction a = None.
Proof. intros H. by rd_inv H. Qed.

Lemma decodeNotAdmitted_image r a r' :
  decodeRICActionNotAdmittedItem r = (Ok a, r') -> na_Cause a = zeroE2APCause.
Proof. intros H. by rd_inv H. Qed.

Lemma decode_indication_sn r m r' : decodeRICIndication r = (Ok m, r') -> is_Some (RICIndicationSN m).
Proof.
  intros H. unfold decodeRICIndication in H. 
  apply rd_bind_inv in H as (? & ? & _ & H). apply rd_bind_inv in H as (? & ? & _ & H).
  apply rd_bind_inv in H as (? & ? & _ & H). apply rd_bind_inv in H as (more & s & Hmore & H).
  apply rd_bind_inv in H as (sn & s' & Hsn & H). apply rd_bind_inv in H as (? & ? & Ht & H).
  rd_inv H. simpl. destruct sn as [n | e]; [by eexists | exfalso].
  assert (s' = []) as ->.
  - destruct more.
    + apply rd_try_inv in Hsn. by eapply (readUint_err 4).
    + injection Hsn as _ <-. unfold rd_more in Hmore. by destruct x4; simplify_eq.
  - pose proof (readUint_nil 1 ltac:(done)). unfold decodeIndicationType in *. 
    unfold readUint8 in *. congruence.
Qed.

Lemma decode_node_image r id r' : decodeGlobalE2NodeID r = (Ok id, r') -> gn_E2NodeID id = zeroE2NodeID.
Proof. intros H. by rd_inv H. Qed.

Lemma decodePayload_image t data p : decodePayload t data = Ok p -> payload_image t p.
Proof.
  unfold decodePayload, runPayload.
  repeat match goal with |- context [if ?t =? ?c then _ else _] => destruct (Z.eqb_spec t c) as [-> |] end;
    [.. | done]; match goal with |- context [fst (?d ?r)] => destruct (d r) as [[m |] r'] eqn:H end;
    try done; intros [= <-]; simpl; (split || idtac); try done.
  - unfold decodeE2SetupRequest in H. apply rd_bind_inv in H as (? & ? & ? & H). rd_inv H.
    by eapply decode_node_image.
  - split.
    + by rd_inv H.
    + rd_inv H. simpl. goal_match; [by apply Forall_fmap, Forall_true | constructor].
  - rd_inv H. simpl. by eapply decodeList_Forall; [apply decodeRICAction_image |].
  - rd_inv H. simpl. goal_match; [| constructor].
    match goal with H : (if ?b then _ else _) _ = _ |- _ => destruct b end.
    + match goal with H : rd_try _ _ = _ |- _ => apply rd_try_inv in H end.
      by eapply decodeList_Forall; [apply decodeNotAdmitted_image |].
    + match goal with H : rd_ret (Ok []) _ = _ |- _ => by injection H as <- _ end.
  - by eapply decode_indication_sn.
  - rd_inv H. simpl.
    match goal with |- context [?a =? 0] => destruct (Z.eqb_spec a 0) end; congruence.
Qed.

(** C35 - Whatever bytes arrive, a successful decoding gives a message whose
    header fields fit their widths, whose type is the one of its procedure code
    and whose payload is of that type, and the payload lacks what the decoder
    drops: indications always carry a sequence number, actions never a
    subsequent action, rejections no cause, setup responses no configuration. *)
Theorem decoder_image data msg (H : DecodeE2APMessage data = Ok msg) :
  fits16 (ProcedureCode msg) /\ 0 <= Criticality msg < 4 /\ fits8 (TransactionID msg) /\
  MessageType msg = getMessageTypeFromProcedureCode (ProcedureCode msg) /\
  payload_image (MessageType msg) (Payload msg).
Proof.
  unfold DecodeE2APMessage in H. destruct (zlen data <? 8); [done |].
  destruct (decodeHeader data) as [[[[[p c] t] n] | e] rest] eqn:Hh; [| done].
  destruct (readFull n rest) as [[b |] rest'] eqn:Hb; [| done].
  destruct (decodePayload _ b) as [payload |] eqn:Hp; [| done].
  injection H as <-; simpl. apply decodePayload_image in Hp.
  unfold decodeHeader in Hh. rd_inv Hh.
  repeat match goal with H : readUint8 _ = _ |- _ => apply (readUint_range 1) in H; [| done]
    | H : readUint16 _ = _ |- _ => apply (readUint_range 2) in H; [| done] end.
  unfold fits16, fits8. subst. change (2 ^ (8 * 1)) with 256 in *.
  rewrite Z.shiftr_div_pow2 by lia.
  split_and!; try done; try lia; [apply Z.div_pos | apply Z.div_lt_upper_bound]; simpl; lia.
Qed.

(** ** Messages the codec cannot carry *)

Lemma decodeOctetString_one a : 0 <= a < 128 ->
  exists r, decodeOctetString [byte_of_Z a] = (r, []) /\ (a = 0 -> r = Ok []) /\ (0 < a -> r = Err EOF).
Proof.
  intros H. unfold decodeOctetString, decodeLength.
  rewrite (rd_bind_ok _ _ [byte_of_Z a] a []).
  - unfold readFull. destruct (Z.leb_spec a 0); [exists (Ok []); split; [done | split; [done | lia]] |].
    change (Z.of_nat (length [])) with 0. destruct (Z.ltb_spec 0 a); [| lia]. exists (Err EOF). split; [done | split; [lia | done]].
  - assert (readUint8 [byte_of_Z a] = (Ok a, [])) as Hr.
    { apply (wire_roundtrip (enc := put_uint8) a []). unfold fits8. lia. }
    rewrite (rd_bind_ok _ _ _ _ _ Hr). by destruct (Z.ltb_spec a 128); [| lia].
Qed.

(** A control request without a call process identifier is encoded but
    never decoded: the optional field has no presence flag, so the decoder
    takes the control header for the identifier and runs off the end. *)
Theorem control_request_without_process_id_rejected msg m
  (Hm : Payload msg = PControlRequest m)
  (Hmsg : MessageType msg = E2APMessageTypeRICControlRequest) (Hpc : ProcedureCode msg = 3)
  (Hcp : cq_RICCallProcessID m = None)
  (Hid : request_id_wf (cq_RICRequestID m)) (Hf : fits16 (cq_RANFunctionID m))
  (Hh : octets_wf (RICControlHeader m)) (Hb : octets_wf (RICControlMessage m))
  (Hack : match RICControlAckRequest m with Some a => 0 <= a < 128 | None => True end)
  (Hfit : zlen (encodeRICControlRequest m) < 4294967296) :
  exists b, EncodeE2APMessage msg = Ok b /\
    exists e, DecodeE2APMessage b = Err (PayloadDecodeError e).
Proof.
  unfold EncodeE2APMessage, encodePayload. rewrite Hm, Hmsg.
  exists (encodeHeader msg (zlen (encodeRICControlRequest m)) ++ encodeRICControlRequest m).
  split; [done |]. rewrite <- (app_nil_r (_ ++ encodeRICControlRequest m)).
  rewrite decode_envelope_any, Hpc by done.
  change (getMessageTypeFromProcedureCode (3 mod 65536)) with E2APMessageTypeRICControlRequest.
  unfold decodePayload, runPayload. cbn -[decodeRICControlRequest encodeRICControlRequest].
  assert (exists e r, decodeRICControlRequest (encodeRICControlRequest m) = (Err e, r)) as (e & r & ->);
    [| by exists e].
  destruct m as [id f cp h mm ack]; simpl in *; subst cp.
  unfold encodeRICControlRequest, decodeRICControlRequest; cbn -[encodeRICRequestID put_uint8 put_uint16].
  rewrite (rd_bind_wire encodeRICRequestID decodeRICRequestID request_id_wf) by done.
  rewrite step_uint16, step_try_octets, step_octets by done.
  destruct (decodeOctetString_one (default 0 ack)) as (x & Hx & H0 & H1); [by destruct ack; simpl |].
  change (put_uint8 (default 0 ack)) with [byte_of_Z (Z.shiftr (default 0 ack) 0)].
  rewrite Z.shiftr_0_r. unfold rd_bind at 1. rewrite Hx.
  destruct (Z.eq_dec (default 0 ack) 0) as [Ha | Ha].
  - rewrite H0 by done. by eexists _, _.
  - rewrite H1; [by eexists _, _ |]. destruct ack; simpl in *; lia.
Qed.

(** ** The theorems at concrete messages *)

Definition sampleNode : GlobalE2NodeID :=
  mkGlobalE2NodeID (mkPLMNIdentity [byte_of_Z 51; byte_of_Z 49; byte_of_Z 48] [byte_of_Z 52; byte_of_Z 49])
    E2NodeTypegNB [byte_of_Z 1; byte_of_Z 2] zeroE2NodeID.

Definition sampleSetup : E2SetupRequest :=
  mkE2SetupRequest sampleNode
    [mkRANFunctionItem 1 [byte_of_Z 7] 2 (Some [byte_of_Z 9])]
    [mkE2NodeComponentConfigurationItem 0
       (mkE2NodeComponentID (Some [byte_of_Z 65]) None None None None None None)
       (mkE2NodeComponentConfiguration [byte_of_Z 1] [])].

Definition sampleMessage : E2APMessage :=
  mkE2APMessage E2APMessageTypeSetupRequest 5 1 0 (PSetupRequest sampleSetup) 0 "".

Definition sampleControl (cp : option bytes) : E2APMessage :=
  mkE2APMessage E2APMessageTypeRICControlRequest 5 3 0
    (PControlRequest (mkRICControlRequest (mkRICRequestID 1 2) 3 cp [byte_of_Z 8] [byte_of_Z 9] (Some 1))) 0 "".

Lemma codec_roundtrip_witness :
  exists b, EncodeE2APMessage sampleMessage = Ok b /\
    forall extra, DecodeE2APMessage (b ++ extra) = Ok sampleMessage.
Proof.
  apply codec_roundtrip. repeat split; simpl; try lia; try (by left); try done;
    try (repeat constructor; done).
  intros b [= <-]. by vm_compute.
Defined.

Lemma codec_rejects_truncation_witness :
  exists e, DecodeE2APMessage (take 20 (match EncodeE2APMessage sampleMessage with Ok b => b | Err _ => [] end)) = Err e.
Proof.
  apply (codec_rejects_truncation sampleMessage); [done | by vm_compute | vm_compute; lia].
Defined.

Lemma decoder_image_witness :
  let b := match EncodeE2APMessage sampleMessage with Ok b => b | Err _ => [] end in
  payload_image (MessageType sampleMessage) (Payload sampleMessage) /\
  MessageType sampleMessage = getMessageTypeFromProcedureCode 1.
Proof.
  intros b. assert (DecodeE2APMessage b = Ok sampleMessage) as H by (by vm_compute).
  destruct (decoder_image b sampleMessage H) as (_ & _ & _ & Ht & Hp). by split.
Defined.

Lemma control_request_without_process_id_rejected_witness :
  exists b, EncodeE2APMessage (sampleControl None) = Ok b /\
    exists e, DecodeE2APMessage b = Err (PayloadDecodeError e).
Proof.
  by eapply (control_request_without_process_id_rejected (sampleControl None)).
Defined.
