(* ===== verification/CircuitBreaker.v ===== *)
(** * CircuitBreaker: the LLM circuit breaker and its resilience wrapper

    Module [CircuitBreaker] follows pkg/llm/circuit_breaker.go: the breaker
    with its counters and metrics, [canExecute] split at its lock
    boundaries, [recordResult], the state transitions, [Execute], the manual
    operations, the health check and the manager.  The calls of
    [time.Now()] are arguments, read from a [Clock]; the outcome of the
    protected operation is an input.  A system of a breaker and any number
    of concurrent [Execute] calls is a step relation whose steps are the
    critical sections of the code.

    Module [Resilience] follows pkg/resilience/circuit_breaker.go. *)

From S2P Require Import Prelude GoFloat.
Local Open Scope Z_scope.

Module CircuitBreaker.

(** ** Data *)

Inductive CircuitState := StateClosed | StateOpen | StateHalfOpen.

#[export] Instance CircuitState_eq_dec : EqDecision CircuitState.
Proof. solve_decision. Defined.

Definition String (s : CircuitState) : string :=
  match s with
  | StateClosed => "closed"
  | StateOpen => "open"
  | StateHalfOpen => "half-open"
  end.

Record CircuitBreakerConfig := mkConfig {
  FailureThreshold : Z;
  FailureRate : float64;
  MinimumRequestCount : Z;
  Timeout : Duration;
  HalfOpenTimeout : Duration;
  SuccessThreshold : Z;
  HalfOpenMaxRequests : Z;
  ResetTimeout : Duration;
  SlidingWindowSize : Z;
  EnableHealthCheck : bool;
  HealthCheckInterval : Duration;
  HealthCheckTimeout : Duration;
  MaxConcurrentRequests : Z;
  EnableAdaptiveTimeout : bool
}.

Record CircuitMetrics := mkMetrics {
  TotalRequests : Z;
  SuccessfulRequests : Z;
  FailedRequests : Z;
  RejectedRequests : Z;
  TimeoutRequests : Z;
  StateTransitions : Z;
  CurrentState : string;
  LastStateChange : Time;
  m_FailureRate : float64;
  AverageLatency : Duration;
  LastUpdated : Time
}.

(** [onStateChange] says whether a callback is installed; [notifications]
    lists the callbacks that were launched, the latest first. *)
Record CircuitBreaker := mkCircuitBreaker {
  name : string;
  config : CircuitBreakerConfig;
  state : CircuitState;
  failureCount : Z;
  successCount : Z;
  requestCount : Z;
  lastFailureTime : Time;
  lastSuccessTime : Time;
  stateChangeTime : Time;
  halfOpenRequests : Z;
  metrics : CircuitMetrics;
  onStateChange : bool;
  notifications : list (CircuitState * CircuitState)
}.

(** The outcome of the select in [executeWithTimeout]: which channel was
    chosen.  When several are ready the runtime picks any of them. *)
Inductive Outcome := OpResult | OpError | OpPanic | CtxDone.

Inductive ExecError :=
| ErrOperation
| ErrPanicked
| ErrTimeout
| ErrCircuitBreaker (st : CircuitState).

(** The instants one critical section reads: [now_event] for
    [lastFailureTime]/[lastSuccessTime], [now_change] for [stateChangeTime],
    [now_updated] for [LastUpdated]. *)
Record Clock := mkClock {
  now_event : Time;
  now_change : Time;
  now_updated : Time
}.

(** ** Construction *)

Definition getDefaultCircuitBreakerConfig : CircuitBreakerConfig :=
  mkConfig 5 (f64_ratio 1 2) 10 (30 * Second) (60 * Second) 3 5 (60 * Second) 100 false
    (30 * Second) (10 * Second) 0 false.

(** The zero values [NewCircuitBreaker] fills in, in the caller's struct. *)
Definition fillDefaults (c : CircuitBreakerConfig) : CircuitBreakerConfig :=
  mkConfig
    (if FailureThreshold c =? 0 then 5 else FailureThreshold c)
    (FailureRate c) (MinimumRequestCount c)
    (if Timeout c =? 0 then 30 * Second else Timeout c)
    (HalfOpenTimeout c)
    (if SuccessThreshold c =? 0 then 1 else SuccessThreshold c)
    (if HalfOpenMaxRequests c =? 0 then 5 else HalfOpenMaxRequests c)
    (ResetTimeout c) (SlidingWindowSize c) (EnableHealthCheck c) (HealthCheckInterval c)
    (HealthCheckTimeout c) (MaxConcurrentRequests c) (EnableAdaptiveTimeout c).

(** The zero [time.Time]. *)

Definition NewCircuitBreaker (nm : string) (c : option CircuitBreakerConfig) (k : Clock)
  : CircuitBreaker :=
  let c := fillDefaults (default getDefaultCircuitBreakerConfig c) in
  mkCircuitBreaker nm c StateClosed 0 0 0 zeroTime zeroTime (now_event k) 0
    (mkMetrics 0 0 0 0 0 0 (String StateClosed) (now_change k) f64_zero 0 (now_updated k))
    false [].

(** ** Metrics *)

Definition updateMetrics (cb : CircuitBreaker) (updater : CircuitMetrics -> CircuitMetrics)
  : CircuitBreaker :=
  mkCircuitBreaker (name cb) (config cb) (state cb) (failureCount cb) (successCount cb)
    (requestCount cb) (lastFailureTime cb) (lastSuccessTime cb) (stateChangeTime cb)
    (halfOpenRequests cb) (updater (metrics cb)) (onStateChange cb) (notifications cb).

Definition countRejected (m : CircuitMetrics) : CircuitMetrics :=
  mkMetrics (TotalRequests m + 1) (SuccessfulRequests m) (FailedRequests m)
    (RejectedRequests m + 1) (TimeoutRequests m) (StateTransitions m) (CurrentState m)
    (LastStateChange m) (m_FailureRate m) (AverageLatency m) (LastUpdated m).

Definition countTimeout (m : CircuitMetrics) : CircuitMetrics :=
  mkMetrics (TotalRequests m) (SuccessfulRequests m) (FailedRequests m)
    (RejectedRequests m) (TimeoutRequests m + 1) (StateTransitions m) (CurrentState m)
    (LastStateChange m) (m_FailureRate m) (AverageLatency m) (LastUpdated m).

Definition countFailed (m : CircuitMetrics) : CircuitMetrics :=
  mkMetrics (TotalRequests m + 1) (SuccessfulRequests m) (FailedRequests m + 1)
    (RejectedRequests m) (TimeoutRequests m) (StateTransitions m) (CurrentState m)
    (LastStateChange m) (m_FailureRate m) (AverageLatency m) (LastUpdated m).

(** The running average, in [int64] arithmetic with truncated division. *)
Definition countSuccessful (latency : Duration) (m : CircuitMetrics) : CircuitMetrics :=
  let n := SuccessfulRequests m + 1 in
  let totalLatency := wrap64 (AverageLatency m * (n - 1)) in
  mkMetrics (TotalRequests m + 1) n (FailedRequests m) (RejectedRequests m)
    (TimeoutRequests m) (StateTransitions m) (CurrentState m) (LastStateChange m)
    (m_FailureRate m) (Z.quot (wrap64 (totalLatency + latency)) n) (LastUpdated m).

Definition setFailureRate (r : float64) (m : CircuitMetrics) : CircuitMetrics :=
  mkMetrics (TotalRequests m) (SuccessfulRequests m) (FailedRequests m) (RejectedRequests m)
    (TimeoutRequests m) (StateTransitions m) (CurrentState m) (LastStateChange m) r
    (AverageLatency m) (LastUpdated m).

(** The metrics of a state change; [rate] is [Some 0] where the code resets
    the failure rate. *)
Definition countTransition (st : CircuitState) (rate : option float64) (k : Clock)
  (m : CircuitMetrics) : CircuitMetrics :=
  mkMetrics (TotalRequests m) (SuccessfulRequests m) (FailedRequests m) (RejectedRequests m)
    (TimeoutRequests m) (StateTransitions m + 1) (String st) (now_change k)
    (default (m_FailureRate m) rate) (AverageLatency m) (now_updated k).

(** [if cb.onStateChange != nil { go cb.onStateChange(...) }] *)
Definition notify (cb : CircuitBreaker) (old new : CircuitState) : list (CircuitState * CircuitState) :=
  if onStateChange cb then (old, new) :: notifications cb else notifications cb.

(** ** Transitions *)

Definition transitionToOpen (k : Clock) (cb : CircuitBreaker) : CircuitBreaker :=
  mkCircuitBreaker (name cb) (config cb) StateOpen (failureCount cb) (successCount cb)
    (requestCount cb) (lastFailureTime cb) (lastSuccessTime cb) (now_change k) 0
    (countTransition StateOpen None k (metrics cb)) (onStateChange cb)
    (notify cb (state cb) StateOpen).

Definition transitionToHalfOpen (k : Clock) (cb : CircuitBreaker) : CircuitBreaker :=
  mkCircuitBreaker (name cb) (config cb) StateHalfOpen 0 0
    (requestCount cb) (lastFailureTime cb) (lastSuccessTime cb) (now_change k) 0
    (countTransition StateHalfOpen None k (metrics cb)) (onStateChange cb)
    (notify cb (state cb) StateHalfOpen).

Definition transitionToClosed (k : Clock) (cb : CircuitBreaker) : CircuitBreaker :=
  mkCircuitBreaker (name cb) (config cb) StateClosed 0 (successCount cb) 0
    (lastFailureTime cb) (lastSuccessTime cb) (now_change k) 0
    (countTransition StateClosed (Some f64_zero) k (metrics cb)) (onStateChange cb)
    (notify cb (state cb) StateClosed).

Definition Reset (k : Clock) (cb : CircuitBreaker) : CircuitBreaker :=
  mkCircuitBreaker (name cb) (config cb) StateClosed 0 0 0
    (lastFailureTime cb) (lastSuccessTime cb) (now_change k) 0
    (countTransition StateClosed (Some f64_zero) k (metrics cb)) (onStateChange cb)
    (notify cb (state cb) StateClosed).

Definition ForceOpen (k : Clock) (cb : CircuitBreaker) : CircuitBreaker :=
  if decide (state cb = StateOpen) then cb else transitionToOpen k cb.

Definition SetStateChangeCallback (installed : bool) (cb : CircuitBreaker) : CircuitBreaker :=
  mkCircuitBreaker (name cb) (config cb) (state cb) (failureCount cb) (successCount cb)
    (requestCount cb) (lastFailureTime cb) (lastSuccessTime cb) (stateChangeTime cb)
    (halfOpenRequests cb) (metrics cb) installed (notifications cb).

Definition IsOpen (cb : CircuitBreaker) : bool := bool_decide (state cb = StateOpen).
Definition IsClosed (cb : CircuitBreaker) : bool := bool_decide (state cb = StateClosed).
Definition IsHalfOpen (cb : CircuitBreaker) : bool := bool_decide (state cb = StateHalfOpen).

(** ** Admission

    [canExecute] reads a snapshot under the read lock, decides on it, and
    takes the write lock only when the snapshot is open and timed out. *)

Record Snapshot := mkSnapshot {
  sn_state : CircuitState;
  sn_stateChangeTime : Time;
  sn_halfOpenRequests : Z
}.

Definition takeSnapshot (cb : CircuitBreaker) : Snapshot :=
  mkSnapshot (state cb) (stateChangeTime cb) (halfOpenRequests cb).

Inductive Admission := Admit | Refuse | NeedLock.

Definition canExecute_check (c : CircuitBreakerConfig) (s : Snapshot) (now : Time) : Admission :=
  match sn_state s with
  | StateClosed => Admit
  | StateOpen => if ResetTimeout c <=? time_Sub now (sn_stateChangeTime s) then NeedLock else Refuse
  | StateHalfOpen => if sn_halfOpenRequests s <? HalfOpenMaxRequests c then Admit else Refuse
  end.

(** The double-check under the write lock. *)
Definition canExecute_locked (now : Time) (k : Clock) (cb : CircuitBreaker) : CircuitBreaker * bool :=
  if decide (state cb = StateOpen) then
    if ResetTimeout (config cb) <=? time_Sub now (stateChangeTime cb)
    then (transitionToHalfOpen k cb, true)
    else (cb, false)
  else (cb, true).

Definition canExecute (now now' : Time) (k : Clock) (cb : CircuitBreaker) : CircuitBreaker * bool :=
  match canExecute_check (config cb) (takeSnapshot cb) now with
  | Admit => (cb, true)
  | Refuse => (cb, false)
  | NeedLock => canExecute_locked now' k cb
  end.

(** ** Recording *)

Definition shouldOpenCircuit (cb : CircuitBreaker) : bool :=
  let c := config cb in
  if negb (bool_decide (state cb = StateClosed)) then false
  else if FailureThreshold c <=? failureCount cb then true
  else if (0 <? MinimumRequestCount c) && f64_gtb (FailureRate c) f64_zero then
    (MinimumRequestCount c <=? requestCount cb)
    && f64_geb (f64_ratio (failureCount cb) (requestCount cb)) (FailureRate c)
  else false.

Definition getRecentSuccesses (cb : CircuitBreaker) : Z :=
  if decide (state cb = StateHalfOpen) then successCount cb else 0.

Definition shouldCloseCircuit (cb : CircuitBreaker) : bool :=
  if negb (bool_decide (state cb = StateHalfOpen)) then false
  else if SuccessThreshold (config cb) <=? 1 then true
  else SuccessThreshold (config cb) <=? getRecentSuccesses cb.

(** The counters and metrics of a failure, before the state is judged. *)
Definition noteFailure (k : Clock) (cb : CircuitBreaker) : CircuitBreaker :=
  mkCircuitBreaker (name cb) (config cb) (state cb) (failureCount cb + 1) (successCount cb)
    (requestCount cb + 1) (now_event k) (lastSuccessTime cb) (stateChangeTime cb)
    (halfOpenRequests cb) (countFailed (metrics cb)) (onStateChange cb) (notifications cb).

Definition noteSuccess (latency : Duration) (k : Clock) (cb : CircuitBreaker) : CircuitBreaker :=
  mkCircuitBreaker (name cb) (config cb) (state cb) (failureCount cb) (successCount cb + 1)
    (requestCount cb + 1) (lastFailureTime cb) (now_event k) (stateChangeTime cb)
    (halfOpenRequests cb) (countSuccessful latency (metrics cb)) (onStateChange cb)
    (notifications cb).

(** The tail of [recordResult]: failure rate, then the half-open count. *)
Definition updateFailureRate (cb : CircuitBreaker) : CircuitBreaker :=
  if MinimumRequestCount (config cb) <=? requestCount cb
  then updateMetrics cb (setFailureRate (f64_ratio (failureCount cb) (requestCount cb)))
  else cb.

Definition countHalfOpen (cb : CircuitBreaker) : CircuitBreaker :=
  if decide (state cb = StateHalfOpen) then
    mkCircuitBreaker (name cb) (config cb) (state cb) (failureCount cb) (successCount cb)
      (requestCount cb) (lastFailureTime cb) (lastSuccessTime cb) (stateChangeTime cb)
      (halfOpenRequests cb + 1) (metrics cb) (onStateChange cb) (notifications cb)
  else cb.

Definition judgeFailure (k : Clock) (cb : CircuitBreaker) : CircuitBreaker :=
  if decide (state cb = StateHalfOpen) then transitionToOpen k cb
  else if shouldOpenCircuit cb then transitionToOpen k cb
  else cb.

Definition judgeSuccess (k : Clock) (cb : CircuitBreaker) : CircuitBreaker :=
  if bool_decide (state cb = StateHalfOpen) && shouldCloseCircuit cb
  then transitionToClosed k cb else cb.

Definition recordResult (failed : bool) (latency : Duration) (k : Clock) (cb : CircuitBreaker)
  : CircuitBreaker :=
  let cb := if failed then judgeFailure k (noteFailure k cb)
            else judgeSuccess k (noteSuccess latency k cb) in
  countHalfOpen (updateFailureRate cb).

(** ** Execution *)

Definition outcome_result (o : Outcome) : result ExecError unit :=
  match o with
  | OpResult => Ok tt
  | OpError => Err ErrOperation
  | OpPanic => Err ErrPanicked
  | CtxDone => Err ErrTimeout
  end.

(** The metrics [executeWithTimeout] touches. *)
Definition executeWithTimeout (o : Outcome) (cb : CircuitBreaker) : CircuitBreaker * result ExecError unit :=
  (match o with CtxDone => updateMetrics cb countTimeout | _ => cb end, outcome_result o).

(** One call, alone: [now] and [now'] are the instants [canExecute] reads,
    [ka] and [kr] those of its transition and of [recordResult]. *)
Definition Execute (now now' : Time) (ka kr : Clock) (o : Outcome) (latency : Duration)
  (cb : CircuitBreaker) : CircuitBreaker * result ExecError unit :=
  let '(cb, admitted) := canExecute now now' ka cb in
  if admitted : bool then
    let '(cb, r) := executeWithTimeout o cb in
    (recordResult (negb (is_ok r)) latency kr cb, r)
  else
    let cb := updateMetrics cb countRejected in
    (cb, Err (ErrCircuitBreaker (state cb))).

(** ** Concurrent calls

    A thread is one [Execute] call, at the point where it last left a
    critical section. *)
Inductive Thread :=
| TStart
| TSnapshot (s : Snapshot)
| TNeedLock
| TRunning
| TTimedOut
| TRefused
| TCounted
| TDone (r : result ExecError unit).

(** One critical section of a call, at the instants [now] and [k]. *)
Inductive thread_step (now : Time) (k : Clock) (cb : CircuitBreaker) :
    Thread -> CircuitBreaker -> Thread -> Prop :=
| ts_snapshot : thread_step now k cb TStart cb (TSnapshot (takeSnapshot cb))
| ts_admit s :
    canExecute_check (config cb) s now = Admit -> thread_step now k cb (TSnapshot s) cb TRunning
| ts_refuse s :
    canExecute_check (config cb) s now = Refuse -> thread_step now k cb (TSnapshot s) cb TRefused
| ts_need_lock s :
    canExecute_check (config cb) s now = NeedLock -> thread_step now k cb (TSnapshot s) cb TNeedLock
| ts_locked cb' (b : bool) :
    canExecute_locked now k cb = (cb', b) ->
    thread_step now k cb TNeedLock cb' (if b then TRunning else TRefused)
| ts_timeout : thread_step now k cb TRunning (updateMetrics cb countTimeout) TTimedOut
| ts_record o latency :
    o <> CtxDone ->
    thread_step now k cb TRunning
      (recordResult (negb (is_ok (outcome_result o))) latency k cb) (TDone (outcome_result o))
| ts_record_timeout latency :
    thread_step now k cb TTimedOut (recordResult true latency k cb) (TDone (Err ErrTimeout))
| ts_count_refused : thread_step now k cb TRefused (updateMetrics cb countRejected) TCounted
| ts_report_refused : thread_step now k cb TCounted cb (TDone (Err (ErrCircuitBreaker (state cb)))).

(** The breaker, its calls, the health-check goroutine (is it probing?) and
    the wall clock. *)
Record System := mkSystem {
  breaker : CircuitBreaker;
  threads : list Thread;
  probing : bool;
  clock : Time
}.

(** The readings of a section lie between its start and its end. *)
Definition readings (lo hi now : Time) (k : Clock) : Prop :=
  lo <= now <= hi /\ lo <= now_event k <= hi /\ lo <= now_change k <= hi /\ lo <= now_updated k <= hi.

Inductive sys_step : System -> System -> Prop :=
| sys_call cb ts p t : sys_step (mkSystem cb ts p t) (mkSystem cb (ts ++ [TStart]) p t)
| sys_thread cb ts p t i th th' cb' now k t' :
    ts !! i = Some th -> readings t t' now k -> thread_step now k cb th cb' th' ->
    sys_step (mkSystem cb ts p t) (mkSystem cb' (<[i := th']> ts) p t')
| sys_reset cb ts p t now k t' :
    readings t t' now k -> sys_step (mkSystem cb ts p t) (mkSystem (Reset k cb) ts p t')
| sys_force_open cb ts p t now k t' :
    readings t t' now k -> sys_step (mkSystem cb ts p t) (mkSystem (ForceOpen k cb) ts p t')
| sys_callback cb ts p t b :
    sys_step (mkSystem cb ts p t) (mkSystem (SetStateChangeCallback b cb) ts p t)
| sys_probe cb ts t :
    EnableHealthCheck (config cb) = true -> state cb = StateOpen ->
    sys_step (mkSystem cb ts false t) (mkSystem cb ts true t)
| sys_probe_failed cb ts t : sys_step (mkSystem cb ts true t) (mkSystem cb ts false t)
| sys_probe_ok cb ts t now k t' :
    readings t t' now k ->
    sys_step (mkSystem cb ts true t) (mkSystem (transitionToHalfOpen k cb) ts false t').

Definition initial (nm : string) (c : option CircuitBreakerConfig) (k : Clock) (t : Time) : System :=
  mkSystem (NewCircuitBreaker nm c k) [] false t.

(** ** The manager

    Breakers are shared objects: the manager maps names to references into
    a store of breakers, and so do the callers. *)
Record Manager := mkManager {
  circuitBreakers : gmap string nat;
  defaultConfig : CircuitBreakerConfig;
  store : list CircuitBreaker
}.

Definition NewCircuitBreakerManager (c : option CircuitBreakerConfig) : Manager :=
  mkManager ∅ (default getDefaultCircuitBreakerConfig c) [].

(** A [nil] config means the shared default config, which
    [NewCircuitBreaker] completes in place. *)
Definition GetOrCreate (nm : string) (c : option CircuitBreakerConfig) (k : Clock) (m : Manager)
  : Manager * nat :=
  match circuitBreakers m !! nm with
  | Some r => (m, r)
  | None =>
      let cfg := default (defaultConfig m) c in
      let r := length (store m) in
      (mkManager (<[nm := r]> (circuitBreakers m))
         (match c with None => fillDefaults cfg | Some _ => defaultConfig m end)
         (store m ++ [NewCircuitBreaker nm (Some cfg) k]), r)
  end.

Definition Get (nm : string) (m : Manager) : option nat := circuitBreakers m !! nm.

Definition Remove (nm : string) (m : Manager) : Manager :=
  mkManager (delete nm (circuitBreakers m)) (defaultConfig m) (store m).

Definition Shutdown (m : Manager) : Manager := mkManager ∅ (defaultConfig m) (store m).

(** The references are collected under the lock, then every breaker is
    reset, in whatever order the map is ranged over. *)
Definition ResetAll (order : list (string * nat)) (k : Clock) (m : Manager) : Manager :=
  mkManager (circuitBreakers m) (defaultConfig m)
    (foldl (fun st r => alter (Reset k) (snd r) st) (store m) order).

(** ** Invariant of the breaker *)

Record breaker_inv (cb : CircuitBreaker) : Prop := {
  inv_state : CurrentState (metrics cb) = String (state cb);
  inv_change : 0 < StateTransitions (metrics cb) -> LastStateChange (metrics cb) = stateChangeTime cb;
  inv_failures : 0 <= failureCount cb <= requestCount cb;
  inv_successes : 0 <= successCount cb;
  inv_half_open : 0 <= halfOpenRequests cb;
  inv_half_open_only : state cb <> StateHalfOpen -> halfOpenRequests cb = 0;
  inv_half_open_clean : state cb = StateHalfOpen -> failureCount cb = 0;
  inv_closed : state cb = StateClosed ->
    failureCount cb = 0 \/ failureCount cb < FailureThreshold (config cb);
  inv_metrics : 0 <= SuccessfulRequests (metrics cb) /\ 0 <= FailedRequests (metrics cb) /\
                0 <= RejectedRequests (metrics cb) /\ 0 <= StateTransitions (metrics cb) /\
                TotalRequests (metrics cb) =
                SuccessfulRequests (metrics cb) + FailedRequests (metrics cb)
                + RejectedRequests (metrics cb)
}.

(** What a call has been counted as. *)
Definition done_ok (t : Thread) : bool := match t with TDone (Ok _) => true | _ => false end.
Definition done_failed (t : Thread) : bool :=
  match t with TDone (Err (ErrOperation | ErrPanicked | ErrTimeout)) => true | _ => false end.
Definition refused (t : Thread) : bool :=
  match t with TCounted | TDone (Err (ErrCircuitBreaker _)) => true | _ => false end.
Definition timed_out (t : Thread) : bool :=
  match t with TTimedOut | TDone (Err ErrTimeout) => true | _ => false end.

(** Every counter of the metrics is the number of calls it stands for. *)
Definition accounted (m : CircuitMetrics) (ts : list Thread) : Prop :=
  SuccessfulRequests m = countb done_ok ts /\ FailedRequests m = countb done_failed ts /\
  RejectedRequests m = countb refused ts /\ TimeoutRequests m = countb timed_out ts /\
  TotalRequests m = countb done_ok ts + countb done_failed ts + countb refused ts.

(** ** Lemmas *)

(** The five request counters. *)
Definition counters (cb : CircuitBreaker) : Z * Z * Z * Z * Z :=
  let m := metrics cb in
  (SuccessfulRequests m, FailedRequests m, RejectedRequests m, TimeoutRequests m, TotalRequests m).

Lemma judgeFailure_cases k cb :
  judgeFailure k cb = transitionToOpen k cb /\
    (state cb = StateHalfOpen \/ shouldOpenCircuit cb = true) \/
  judgeFailure k cb = cb /\ state cb <> StateHalfOpen /\ shouldOpenCircuit cb = false.
Proof. unfold judgeFailure. case_decide; [auto |]. destruct (shouldOpenCircuit cb); auto. Qed.

Lemma judgeSuccess_cases k cb :
  judgeSuccess k cb = transitionToClosed k cb /\ state cb = StateHalfOpen /\ shouldCloseCircuit cb = true \/
  judgeSuccess k cb = cb /\ (state cb <> StateHalfOpen \/ shouldCloseCircuit cb = false).
Proof.
  unfold judgeSuccess. case_bool_decide; simpl; [| auto]. destruct (shouldCloseCircuit cb); auto.
Qed.

(** The tail of [recordResult] moves only the half-open count and the
    reported failure rate. *)
Lemma tail_counters cb : counters (countHalfOpen (updateFailureRate cb)) = counters cb.
Proof. unfold countHalfOpen, updateFailureRate. by case_decide; case_match. Qed.

Lemma tail_state cb : state (countHalfOpen (updateFailureRate cb)) = state cb.
Proof. unfold countHalfOpen, updateFailureRate. by case_decide; case_match. Qed.

Lemma tail_config cb : config (countHalfOpen (updateFailureRate cb)) = config cb.
Proof. unfold countHalfOpen, updateFailureRate. by case_decide; case_match. Qed.

Lemma tail_core cb :
  let cb' := countHalfOpen (updateFailureRate cb) in
  failureCount cb' = failureCount cb /\ successCount cb' = successCount cb /\
  requestCount cb' = requestCount cb /\ stateChangeTime cb' = stateChangeTime cb /\
  CurrentState (metrics cb') = CurrentState (metrics cb) /\
  LastStateChange (metrics cb') = LastStateChange (metrics cb) /\
  StateTransitions (metrics cb') = StateTransitions (metrics cb) /\
  AverageLatency (metrics cb') = AverageLatency (metrics cb) /\
  halfOpenRequests cb' =
    halfOpenRequests cb + (if decide (state cb = StateHalfOpen) then 1 else 0).
Proof.
  unfold countHalfOpen, updateFailureRate, updateMetrics.
  destruct (MinimumRequestCount (config cb) <=? requestCount cb); simpl;
    destruct (decide (state cb = StateHalfOpen)); simpl; repeat split; lia.
Qed.

(** Only the counters of the outcome move. *)
Lemma recordResult_counters failed latency k cb :
  counters (recordResult failed latency k cb) =
  let '(s, f, r, t, n) := counters cb in
  if failed then (s, f + 1, r, t, n + 1) else (s + 1, f, r, t, n + 1).
Proof.
  unfold recordResult. rewrite tail_counters. destruct failed.
  - by destruct (judgeFailure_cases k (noteFailure k cb)) as [[-> _] | [-> _]].
  - by destruct (judgeSuccess_cases k (noteSuccess latency k cb)) as [[-> _] | [-> _]].
Qed.

Lemma recordResult_config failed latency k cb : config (recordResult failed latency k cb) = config cb.
Proof.
  unfold recordResult. rewrite tail_config. destruct failed.
  - by destruct (judgeFailure_cases k (noteFailure k cb)) as [[-> _] | [-> _]].
  - by destruct (judgeSuccess_cases k (noteSuccess latency k cb)) as [[-> _] | [-> _]].
Qed.

(** The operations that only change the state keep the request counters. *)
Lemma canExecute_locked_counters now k cb cb' b :
  canExecute_locked now k cb = (cb', b) -> counters cb' = counters cb /\ config cb' = config cb.
Proof. unfold canExecute_locked. intros H. repeat case_match; by simplify_eq. Qed.

Lemma ForceOpen_counters k cb : counters (ForceOpen k cb) = counters cb.
Proof. unfold ForceOpen. by case_decide. Qed.

(** *** The breaker's invariant *)

Ltac inv_start H :=
  destruct H as [Hst Hch Hfa Hsu Hho Hhoo Hhoc Hcl (Hm1 & Hm2 & Hm3 & Hm4 & Hm5)].

Lemma inv_new nm c k : breaker_inv (NewCircuitBreaker nm c k).
Proof. unfold NewCircuitBreaker. constructor; simpl; auto with lia. Qed.

Lemma inv_transitionToOpen k cb : breaker_inv cb -> breaker_inv (transitionToOpen k cb).
Proof. intros H. inv_start H. constructor; simpl; (auto with lia || done). Qed.

Lemma inv_transitionToHalfOpen k cb : breaker_inv cb -> breaker_inv (transitionToHalfOpen k cb).
Proof. intros H. inv_start H. constructor; simpl; (auto with lia || done). Qed.

Lemma inv_Reset k cb : breaker_inv cb -> breaker_inv (Reset k cb).
Proof. intros H. inv_start H. constructor; simpl; (auto with lia || done). Qed.

Lemma inv_ForceOpen k cb : breaker_inv cb -> breaker_inv (ForceOpen k cb).
Proof. unfold ForceOpen. case_decide; [done | apply inv_transitionToOpen]. Qed.

Lemma inv_callback b cb : breaker_inv cb -> breaker_inv (SetStateChangeCallback b cb).
Proof. intros H. inv_start H. constructor; simpl; auto. Qed.

Lemma inv_count f cb :
  f = countRejected \/ f = countTimeout -> breaker_inv cb -> breaker_inv (updateMetrics cb f).
Proof. intros [-> | ->] H; inv_start H; constructor; simpl; (auto with lia || lia). Qed.

Lemma inv_locked now k cb cb' b :
  canExecute_locked now k cb = (cb', b) -> breaker_inv cb -> breaker_inv cb'.
Proof.
  unfold canExecute_locked. intros H Hi. repeat case_match; simplify_eq; auto using inv_transitionToHalfOpen.
Qed.

Lemma shouldOpen_false_threshold cb :
  state cb = StateClosed -> shouldOpenCircuit cb = false -> failureCount cb < FailureThreshold (config cb).
Proof.
  unfold shouldOpenCircuit. intros ->. simpl.
  destruct (Z.leb_spec (FailureThreshold (config cb)) (failureCount cb)); [done | lia].
Qed.

Lemma inv_tail cb : breaker_inv cb -> breaker_inv (countHalfOpen (updateFailureRate cb)).
Proof.
  intros H. inv_start H. pose proof (tail_core cb) as Ht. cbv zeta in Ht.
  destruct Ht as (E1 & E2 & E3 & E4 & E5 & E6 & E7 & E8 & E9).
  pose proof (tail_counters cb) as Ec. unfold counters in Ec. injection Ec as C1 C2 C3 C4 C5.
  constructor; rewrite ?tail_state, ?tail_config, ?E1, ?E2, ?E3, ?E4, ?E5, ?E6, ?E7; auto.
  - rewrite E9. case_decide; lia.
  - rewrite E9. intros Hn. case_decide; [done |]. rewrite Hhoo by done. lia.
  - lia.
Qed.

Lemma inv_recordResult failed latency k cb :
  breaker_inv cb -> breaker_inv (recordResult failed latency k cb).
Proof.
  intros H. unfold recordResult. apply inv_tail. inv_start H.
  destruct failed.
  - destruct (judgeFailure_cases k (noteFailure k cb)) as [[-> _] | (-> & Hnh & Hs)].
    + constructor; simpl; (auto with lia || done).
    + simpl in Hnh. constructor; simpl; (auto with lia || lia || done || idtac).
      intros Hc. right. by apply (shouldOpen_false_threshold (noteFailure k cb)).
  - destruct (judgeSuccess_cases k (noteSuccess latency k cb)) as [(-> & Hh & _) | [-> _]].
    + constructor; simpl; (auto with lia || done).
    + constructor; simpl; (auto with lia || lia || done).
Qed.

Lemma counters_accounted cb ts :
  accounted (metrics cb) ts <->
  counters cb = (countb done_ok ts, countb done_failed ts, countb refused ts, countb timed_out ts,
                 countb done_ok ts + countb done_failed ts + countb refused ts).
Proof. unfold accounted, counters. split; [by intros (-> & -> & -> & -> & ->) | by intros [= -> -> -> -> ->]]. Qed.

(** One section of a call moves its counters and no other call's. *)
Lemma thread_step_accounted now k cb th cb' th' ts i :
  ts !! i = Some th -> thread_step now k cb th cb' th' ->
  accounted (metrics cb) ts -> accounted (metrics cb') (<[i := th']> ts).
Proof.
  intros Hi Hstep. rewrite !counters_accounted, !(countb_insert _ _ _ _ _ Hi).
  destruct Hstep as [| | | | cb' b Hl | | o latency Ho | latency | | ]; intros Hc;
    rewrite ?recordResult_counters, ?Hc; simpl.
  - pairs_lia.
  - pairs_lia.
  - pairs_lia.
  - pairs_lia.
  - apply canExecute_locked_counters in Hl as [-> _]. rewrite Hc. destruct b; simpl; pairs_lia.
  - unfold counters in *; simpl. injection Hc as -> -> -> -> ->. pairs_lia.
  - destruct o; simpl; try done; pairs_lia.
  - pairs_lia.
  - unfold counters in *; simpl. injection Hc as -> -> -> -> ->. pairs_lia.
  - pairs_lia.
Qed.

Lemma sys_step_inv s s' :
  sys_step s s' -> breaker_inv (breaker s) /\ accounted (metrics (breaker s)) (threads s) ->
  breaker_inv (breaker s') /\ accounted (metrics (breaker s')) (threads s').
Proof.
  intros Hstep [Hi Ha]. destruct Hstep as [| cb ts p t i th th' cb' now k t' Hl Hr Hs | | | | | |]; simpl in *.
  - split; [done |]. unfold accounted in *. rewrite !countb_app. simpl. lia.
  - split; [| by eapply thread_step_accounted].
    destruct Hs; eauto using inv_locked, inv_recordResult; apply inv_count; auto.
  - split; [by apply inv_Reset | done].
  - split; [by apply inv_ForceOpen |]. by rewrite counters_accounted, ForceOpen_counters, <- counters_accounted.
  - split; [by apply inv_callback | done].
  - done.
  - done.
  - split; [by apply inv_transitionToHalfOpen | done].
Qed.



(** *** Rejection while open *)

(** The breaker has been open since [T] and its reset timeout has not
    elapsed. *)
Definition open_window (T : Time) (s : System) : Prop :=
  state (breaker s) = StateOpen /\ stateChangeTime (breaker s) = T /\
  clock s < T + ResetTimeout (config (breaker s)).

Definition step_in_window (T : Time) (s s' : System) : Prop :=
  sys_step s s' /\ open_window T s /\ open_window T s'.

(** A call that runs, or has run, its operation. *)
Definition operation_ran (t : Thread) : bool :=
  match t with
  | TRunning | TTimedOut | TDone (Ok _) | TDone (Err (ErrOperation | ErrPanicked | ErrTimeout)) => true
  | _ => false
  end.

(** Where a call that started in the window can be. *)
Definition turned_away (T : Time) (t : Thread) : Prop :=
  match t with
  | TStart | TRefused | TCounted | TDone (Err (ErrCircuitBreaker _)) => True
  | TSnapshot sn => sn_state sn = StateOpen /\ sn_stateChangeTime sn = T
  | _ => False
  end.

Lemma turned_away_step T now k cb th cb' th' hi :
  state cb = StateOpen -> stateChangeTime cb = T -> now <= hi -> hi < T + ResetTimeout (config cb') ->
  config cb' = config cb ->
  thread_step now k cb th cb' th' -> turned_away T th -> turned_away T th'.
Proof.
  intros Hs HT Hn Hhi Hcfg Hstep. destruct Hstep; simpl; try done.
  all: intros [Hsn HsT]; unfold canExecute_check, time_Sub in *; rewrite Hsn, HsT in *.
  - by destruct (Z.leb_spec (ResetTimeout (config cb)) (now - T)).
  - destruct (Z.leb_spec (ResetTimeout (config cb)) (now - T)); [lia | done].
Qed.

Lemma thread_step_config now k cb th cb' th' : thread_step now k cb th cb' th' -> config cb' = config cb.
Proof.
  intros H. destruct H; try done; auto using recordResult_config.
  by eapply canExecute_locked_counters.
Qed.

Lemma turned_away_sys T n s s' :
  step_in_window T s s' -> (n <= length (threads s))%nat ->
  (forall i th, (n <= i)%nat -> threads s !! i = Some th -> turned_away T th) ->
  (n <= length (threads s'))%nat /\
  (forall i th, (n <= i)%nat -> threads s' !! i = Some th -> turned_away T th).
Proof.
  intros (Hstep & (Hs & HT & _) & (_ & _ & Hc')) Hlen IH.
  destruct Hstep as [| cb ts p t j th th' cb' now k t' Hl Hr Hts | | | | | |]; simpl in *; try done.
  - rewrite length_app. split; [lia |]. intros i th Hi.
    rewrite lookup_app_Some. intros [H | [_ H]]; [eauto |].
    apply list_lookup_singleton_Some in H as [_ <-]. done.
  - rewrite length_insert. split; [done |]. intros i th2 Hi.
    rewrite list_lookup_insert_Some. intros [(-> & <- & _) | [_ H]]; [| eauto].
    destruct Hr as [Hr _]. pose proof (thread_step_config _ _ _ _ _ _ Hts).
    eapply turned_away_step; eauto. lia.
Qed.

(** While the breaker stays open and its reset timeout has not elapsed,
    no call that starts in that window runs its operation, however calls
    interleave: it is refused, or still on its way to be. *)
Theorem open_window_rejects T s s' (H : rtc (step_in_window T) s s') i th
  (Hi : (length (threads s) <= i)%nat) (Hth : threads s' !! i = Some th) :
  operation_ran th = false.
Proof.
  assert (turned_away T th) as Ht; [| by destruct th as [| | | | | | | [|[]]]].
  set (n := length (threads s)) in *.
  assert ((n <= length (threads s))%nat /\
    (forall i th, (n <= i)%nat -> threads s !! i = Some th -> turned_away T th)) as H0.
  { split; [lia |]. intros j u Hj Hu. apply lookup_lt_Some in Hu. lia. }
  clearbody n. revert H0. induction H as [s | s1 s2 s3 Hs _ IH]; intros [Hlen H0]; [eauto |].
  apply IH; [done |]. eapply turned_away_sys; eauto.
Qed.

(** *** The edges of the state machine *)

(** What a recorded result does to the state. *)
Lemma recordResult_state failed latency k cb :
  state (recordResult failed latency k cb) =
  if failed then
    if bool_decide (state cb = StateHalfOpen) || shouldOpenCircuit (noteFailure k cb)
    then StateOpen else state cb
  else if shouldCloseCircuit (noteSuccess latency k cb) then StateClosed else state cb.
Proof.
  unfold recordResult. rewrite tail_state. destruct failed.
  - unfold judgeFailure; simpl. case_decide; simpl; [by rewrite bool_decide_true |].
    rewrite bool_decide_false by done. by destruct (shouldOpenCircuit _).
  - unfold judgeSuccess, shouldCloseCircuit; simpl. case_bool_decide; simpl; [| done]. by goal_if.
Qed.

Lemma recordResult_edges failed latency k cb :
  match state cb, state (recordResult failed latency k cb) with
  | StateOpen, (StateHalfOpen | StateClosed) | StateClosed, StateHalfOpen => False
  | _, _ => True
  end.
Proof.
  rewrite recordResult_state. unfold shouldOpenCircuit, shouldCloseCircuit; simpl.
  destruct (state cb); simpl; destruct failed; simpl; try done; repeat goal_if.
Qed.

(** A step changes the state only along the edges of the circuit-breaker
    protocol: open to half-open when the reset timeout has elapsed or a health
    probe is under way, half-open to closed or open, closed to open; only a
    reset closes an open breaker, and only a health probe moves a closed one to
    half-open. *)
Theorem state_edges s s' (H : sys_step s s') :
  match state (breaker s), state (breaker s') with
  | StateOpen, StateHalfOpen =>
      ResetTimeout (config (breaker s)) <= clock s' - stateChangeTime (breaker s) \/ probing s = true
  | StateOpen, StateClosed => exists k, breaker s' = Reset k (breaker s)
  | StateClosed, StateHalfOpen => probing s = true
  | _, _ => True
  end.
Proof.
  destruct H as [| cb ts p t i th th' cb' now k t' Hl Hr Hs | | | | | |]; simpl in *;
    try (by destruct (state cb)); try (by destruct (state cb); auto).
  - destruct Hs as [| | | | cb' b Hl' | | o latency Ho | latency | | ];
      try (by cbn [updateMetrics state]; destruct (state cb)).
    + unfold canExecute_locked in Hl'. repeat case_match; simplify_eq; simpl; try done; try congruence.
      left. unfold time_Sub in *. destruct Hr as [Hr _].
      match goal with H : (_ <=? _) = true |- _ => apply Z.leb_le in H; lia end.
    + pose proof (recordResult_edges (negb (is_ok (outcome_result o))) latency k cb) as He.
      match type of He with context [state (recordResult ?a ?b ?c ?d)] =>
        by destruct (state cb), (state (recordResult a b c d)) end.
    + pose proof (recordResult_edges true latency k cb) as He.
      match type of He with context [state (recordResult ?a ?b ?c ?d)] =>
        by destruct (state cb), (state (recordResult a b c d)) end.
  - destruct (state cb) eqn:E; eauto.
  - unfold ForceOpen. case_decide as E; [by rewrite E | by destruct (state cb)].
Qed.


(** *** Calls one after another *)

Record Call := mkCall {
  c_now : Time;
  c_now' : Time;
  c_admit : Clock;
  c_record : Clock;
  c_outcome : Outcome;
  c_latency : Duration
}.

Definition runCall (cb : CircuitBreaker) (c : Call) : CircuitBreaker :=
  fst (Execute (c_now c) (c_now' c) (c_admit c) (c_record c) (c_outcome c) (c_latency c) cb).

Definition runCalls (cb : CircuitBreaker) (cs : list Call) : CircuitBreaker := foldl runCall cb cs.

Definition succeeds (c : Call) : Prop := c_outcome c = OpResult.

(** The result of a call is a rejection. *)
Definition rejected (cb : CircuitBreaker) (c : Call) : Prop :=
  snd (Execute (c_now c) (c_now' c) (c_admit c) (c_record c) (c_outcome c) (c_latency c) cb)
  = Err (ErrCircuitBreaker StateHalfOpen).

(** A half-open breaker after [n] successful probes. *)
Definition probed (n : Z) (cb : CircuitBreaker) : Prop :=
  state cb = StateHalfOpen /\ successCount cb = n /\ halfOpenRequests cb = n.

Lemma shouldClose_half_open cb :
  state cb = StateHalfOpen ->
  shouldCloseCircuit cb = (SuccessThreshold (config cb) <=? Z.max 1 (successCount cb)).
Proof.
  intros Hs. unfold shouldCloseCircuit, getRecentSuccesses. rewrite bool_decide_true, decide_True by done.
  simpl. destruct (Z.leb_spec (SuccessThreshold (config cb)) 1);
    destruct (Z.leb_spec (SuccessThreshold (config cb)) (Z.max 1 (successCount cb)));
    (lia || apply Z.leb_le; lia || apply Z.leb_gt; lia).
Qed.

Lemma probe_success n cb c :
  probed n cb -> succeeds c -> n < HalfOpenMaxRequests (config cb) ->
  config (runCall cb c) = config cb /\
  if SuccessThreshold (config cb) <=? Z.max 1 (n + 1) then
    state (runCall cb c) = StateClosed /\ failureCount (runCall cb c) = 0 /\
    requestCount (runCall cb c) = 0
  else probed (n + 1) (runCall cb c).
Proof.
  intros (Hs & Hn & Hh) Hc Hmax. unfold runCall, Execute, canExecute, canExecute_check, takeSnapshot.
  cbn [sn_state sn_halfOpenRequests]. rewrite Hs, Hh, Hc.
  destruct (Z.ltb_spec n (HalfOpenMaxRequests (config cb))); [| lia].
  cbn [executeWithTimeout outcome_result fst is_ok negb]. split; [apply recordResult_config |].
  unfold recordResult.
  set (cb' := judgeSuccess _ _).
  pose proof (tail_core cb') as Ht. cbv zeta in Ht.
  destruct Ht as (E1 & E2 & E3 & _ & _ & _ & _ & _ & E9).
  unfold probed. rewrite E1, E2, E3, E9, tail_state.
  destruct (judgeSuccess_cases (c_record c) (noteSuccess (c_latency c) (c_record c) cb))
    as [(E & _ & Hclose) | (E & Hclose)]; fold cb' in E; rewrite E; clearbody cb'; clear cb' E E1 E2 E3 E9;
    rewrite shouldClose_half_open in Hclose by done; cbn in Hclose |- *; rewrite Hn in Hclose.
  - by rewrite Hclose.
  - destruct Hclose as [? | ->]; [done |]. rewrite decide_True by done. repeat split; (done || lia).
Qed.

(** A half-open breaker whose probes are used up refuses, whatever the time
    and the operation, and stays as it is. *)
Lemma probes_exhausted cb c :
  state cb = StateHalfOpen -> HalfOpenMaxRequests (config cb) <= halfOpenRequests cb ->
  rejected cb c /\ runCall cb c = updateMetrics cb countRejected.
Proof.
  intros Hs Hh. unfold rejected, runCall, Execute, canExecute, canExecute_check, takeSnapshot.
  cbn [sn_state sn_halfOpenRequests]. rewrite Hs.
  destruct (Z.ltb_spec (halfOpenRequests cb) (HalfOpenMaxRequests (config cb))); [lia |].
  cbn. by rewrite Hs.
Qed.

Lemma probes_exhausted_forever cb cs :
  state cb = StateHalfOpen -> HalfOpenMaxRequests (config cb) <= halfOpenRequests cb ->
  state (runCalls cb cs) = StateHalfOpen /\
  HalfOpenMaxRequests (config (runCalls cb cs)) <= halfOpenRequests (runCalls cb cs).
Proof.
  revert cb. induction cs as [| c cs IH]; intros cb Hs Hh; [done |].
  simpl. destruct (probes_exhausted cb c Hs Hh) as [_ ->]. by apply IH.
Qed.

(** Successful probes accumulate until the threshold or the allowance. *)
Lemma probes_accumulate n cb cs :
  probed n cb -> 0 <= n -> Forall succeeds cs ->
  n + Z.of_nat (length cs) <= HalfOpenMaxRequests (config cb) ->
  n + Z.of_nat (length cs) < Z.max 1 (SuccessThreshold (config cb)) ->
  probed (n + Z.of_nat (length cs)) (runCalls cb cs) /\ config (runCalls cb cs) = config cb.
Proof.
  revert n cb. induction cs as [| c cs IH]; intros n cb Hp Hn Hok Hmax Hthr.
  - simpl in *. by rewrite Z.add_0_r.
  - apply Forall_cons in Hok as [Hc Hok]. cbn [length] in *. simpl.
    destruct (probe_success n cb c Hp Hc ltac:(lia)) as [Hcfg Hnext].
    destruct (Z.leb_spec (SuccessThreshold (config cb)) (Z.max 1 (n + 1))); [lia |].
    rewrite <- Hcfg in *.
    destruct (IH (n + 1) (runCall cb c) Hnext ltac:(lia) Hok ltac:(lia) ltac:(lia)) as [Hp' Hc'].
    split; [| congruence].
    by replace (n + Z.of_nat (S (length cs))) with (n + 1 + Z.of_nat (length cs)) by lia.
Qed.

(** Recovery: a breaker that has just become half-open closes after
    [SuccessThreshold] successful calls, with its failure and request counts
    cleared, when its half-open allowance is at least that threshold. *)
Theorem half_open_recovers cb cs
  (Hp : probed 0 cb) (Hok : Forall succeeds cs)
  (Hlen : Z.of_nat (length cs) = Z.max 1 (SuccessThreshold (config cb)))
  (Hmax : Z.max 1 (SuccessThreshold (config cb)) <= HalfOpenMaxRequests (config cb)) :
  let cb' := runCalls cb cs in
  state cb' = StateClosed /\ failureCount cb' = 0 /\ requestCount cb' = 0.
Proof.
  destruct cs as [| c cs _] using rev_ind; [simpl in Hlen; lia |].
  rewrite length_app in Hlen. simpl in Hlen. apply Forall_app in Hok as [Hok Hc].
  rewrite Forall_singleton in Hc. unfold runCalls. rewrite foldl_app. simpl.
  destruct (probes_accumulate 0 cb cs Hp ltac:(lia) Hok ltac:(lia) ltac:(lia)) as [Hp' Hcfg].
  fold (runCalls cb cs). rewrite <- Hcfg in *.
  destruct (probe_success _ _ c Hp' Hc ltac:(lia)) as [_ Hend].
  destruct (Z.leb_spec (SuccessThreshold (config (runCalls cb cs)))
    (Z.max 1 (0 + Z.of_nat (length cs) + 1))); [done | lia].
Qed.

(** When the success threshold exceeds the half-open allowance the
    breaker never recovers by itself: after the allowed probes have all
    succeeded it is half-open for good, and every later call, at any time and
    whatever its operation would do, is rejected. *)
Theorem half_open_stuck cb probes later c
  (Hp : probed 0 cb) (Hok : Forall succeeds probes)
  (Hlen : Z.of_nat (length probes) = HalfOpenMaxRequests (config cb))
  (Hthr : Z.max 1 (HalfOpenMaxRequests (config cb)) < SuccessThreshold (config cb)) :
  let cb' := runCalls cb (probes ++ later) in
  state cb' = StateHalfOpen /\ rejected cb' c.
Proof.
  intros cb'. unfold cb', runCalls. rewrite foldl_app.
  destruct (probes_accumulate 0 cb probes Hp ltac:(lia) Hok ltac:(lia) ltac:(lia)) as [(Hs & _ & Hh) Hcfg].
  fold (runCalls cb probes). fold (runCalls (runCalls cb probes) later).
  destruct (probes_exhausted_forever (runCalls cb probes) later Hs) as [Hs' Hh'].
  { rewrite Hcfg, Hh. lia. }
  split; [done |]. by apply probes_exhausted.
Qed.


(** *** [Execute] is a run of the sections of one call *)

(** A call moving through its sections with nothing in between. *)
Inductive thread_run : CircuitBreaker * Thread -> CircuitBreaker * Thread -> Prop :=
| run_done x : thread_run x x
| run_section cb th now k cb' th' y :
    thread_step now k cb th cb' th' -> thread_run (cb', th') y -> thread_run (cb, th) y.

Lemma run_operation (ka : Clock) cb o latency kr :
  let '(cb', r) := executeWithTimeout o cb in
  thread_run (cb, TRunning) (recordResult (negb (is_ok r)) latency kr cb', TDone r).
Proof.
  destruct o; simpl.
  - eapply (run_section _ _ (now_event ka)); [by apply (ts_record _ kr _ OpResult) | constructor].
  - eapply (run_section _ _ (now_event ka)); [by apply (ts_record _ kr _ OpError) | constructor].
  - eapply (run_section _ _ (now_event ka)); [by apply (ts_record _ kr _ OpPanic) | constructor].
  - eapply (run_section _ _ (now_event ka) ka); [apply ts_timeout |].
    eapply (run_section _ _ (now_event ka) kr); [apply ts_record_timeout | constructor].
Qed.

Lemma run_refusal (now : Time) (k : Clock) cb :
  thread_run (cb, TRefused)
    (updateMetrics cb countRejected, TDone (Err (ErrCircuitBreaker (state (updateMetrics cb countRejected))))).
Proof.
  eapply (run_section _ _ now k); [apply ts_count_refused |].
  eapply (run_section _ _ now k); [apply ts_report_refused | constructor].
Qed.


(** *** The half-open allowance does not bound concurrent probes *)

Definition is_running (t : Thread) : bool := match t with TRunning => true | _ => false end.

Lemma countb_replicate {A} (f : A -> bool) a n : f a = true -> countb f (replicate n a) = Z.of_nat n.
Proof. intros Hf. induction n as [| n IH]; cbn [replicate countb foldr]; [done |]. fold (countb f (replicate n a)). rewrite Hf, IH. simpl. lia. Qed.

Definition instant (t : Time) : Clock := mkClock t t t.

Lemma instant_readings t : readings t t t (instant t).
Proof. unfold readings. simpl. lia. Qed.

Lemma sys_section cb ts p t i th th' cb' :
  ts !! i = Some th -> thread_step t (instant t) cb th cb' th' ->
  sys_step (mkSystem cb ts p t) (mkSystem cb' (<[i := th']> ts) p t).
Proof. intros Hi Hs. eapply sys_thread; eauto using instant_readings. Qed.

(** One more call is admitted while no admitted call has finished. *)
Lemma admit_one cb ts p t :
  state cb = StateHalfOpen -> halfOpenRequests cb < HalfOpenMaxRequests (config cb) ->
  rtc sys_step (mkSystem cb ts p t) (mkSystem cb (ts ++ [TRunning]) p t).
Proof.
  intros Hs Hh.
  eapply rtc_l; [apply sys_call |].
  eapply rtc_l.
  { eapply (sys_section _ _ _ _ (length ts)); [by apply list_lookup_middle | apply ts_snapshot]. }
  rewrite insert_middle.
  eapply rtc_l.
  { eapply (sys_section _ _ _ _ (length ts)); [by apply list_lookup_middle |].
    apply ts_admit. unfold canExecute_check. simpl. rewrite Hs.
    by destruct (Z.ltb_spec (halfOpenRequests cb) (HalfOpenMaxRequests (config cb))); [| lia]. }
  by rewrite insert_middle.
Qed.

Lemma admit_many n cb ts p t :
  state cb = StateHalfOpen -> halfOpenRequests cb < HalfOpenMaxRequests (config cb) ->
  rtc sys_step (mkSystem cb ts p t) (mkSystem cb (ts ++ replicate n TRunning) p t).
Proof.
  intros Hs Hh. revert ts. induction n as [| n IH]; intros ts; simpl; [by rewrite app_nil_r |].
  rewrite cons_middle, (assoc_L (++)). etrans; [by apply admit_one | apply IH].
Qed.

Definition unboundedConfig : CircuitBreakerConfig :=
  mkConfig 1 f64_zero 0 Second 0 1 1 0 0 false 0 0 0 false.

(** The half-open allowance counts finished probes, not admitted ones:
    with an allowance of one request, any number of operations can be running
    at once against the recovering service. *)
Theorem half_open_requests_unbounded nm (n : nat) :
  exists s, rtc sys_step (initial nm (Some unboundedConfig) (instant 0) 0) s /\
    HalfOpenMaxRequests (config (breaker s)) = 1 /\ state (breaker s) = StateHalfOpen /\
    Z.of_nat n < countb is_running (threads s).
Proof.
  set (cb := transitionToHalfOpen (instant 0)
    (ForceOpen (instant 0) (NewCircuitBreaker nm (Some unboundedConfig) (instant 0)))).
  exists (mkSystem cb ([TRunning] ++ replicate n TRunning) false 0). split_and!.
  - eapply rtc_l; [by apply (sys_force_open _ _ _ _ 0 (instant 0) 0), instant_readings |].
    eapply rtc_l; [apply sys_call |].
    eapply rtc_l; [by eapply (sys_section _ _ _ _ 0); [done | by apply ts_snapshot] |].
    eapply rtc_l; [by eapply (sys_section _ _ _ _ 0); [done | by apply ts_need_lock] |].
    eapply rtc_l; [by eapply (sys_section _ _ _ _ 0); [done | by apply ts_locked] |].
    by apply (admit_many n cb [TRunning]).
  - done.
  - done.
  - cbn [threads]. rewrite countb_app, countb_replicate by done. simpl. lia.
Qed.


(** *** Average latency *)

Lemma recordResult_latency failed latency k cb :
  AverageLatency (metrics (recordResult failed latency k cb)) =
  if failed then AverageLatency (metrics cb)
  else AverageLatency (countSuccessful latency (metrics cb)).
Proof.
  unfold recordResult.
  match goal with |- context [countHalfOpen (updateFailureRate ?c)] =>
    destruct (tail_core c) as (_ & _ & _ & _ & _ & _ & _ & -> & _) end.
  destruct failed.
  - by destruct (judgeFailure_cases k (noteFailure k cb)) as [[-> _] | [-> _]].
  - by destruct (judgeSuccess_cases k (noteSuccess latency k cb)) as [[-> _] | [-> _]].
Qed.

(** One step of the running mean stays between the bounds of the samples. *)
Lemma running_mean_bounds lo hi avg n latency :
  0 <= lo -> lo <= latency <= hi -> 0 <= n -> (n = 0 -> avg = 0) -> (0 < n -> lo <= avg <= hi) ->
  (n + 1) * hi < 2 ^ 63 ->
  lo <= Z.quot (wrap64 (wrap64 (avg * (n + 1 - 1)) + latency)) (n + 1) <= hi.
Proof.
  intros Hlo Hlat Hn H0 Hpos Hmax.
  assert (lo * n <= avg * n <= hi * n) as Hb.
  { destruct (Z.eq_dec n 0) as [-> |]; [lia |]. nia. }
  replace (avg * (n + 1 - 1)) with (avg * n) by lia.
  rewrite (wrap64_small (avg * n)), wrap64_small by nia.
  rewrite Z.quot_div_nonneg by nia. split.
  - apply Z.div_le_lower_bound; lia.
  - apply Z.div_le_upper_bound; lia.
Qed.

Record Sample := mkSample { sa_failed : bool; sa_latency : Duration; sa_clock : Clock }.

Definition recordAll (cb : CircuitBreaker) (rs : list Sample) : CircuitBreaker :=
  foldl (fun cb r => recordResult (sa_failed r) (sa_latency r) (sa_clock r) cb) cb rs.

(** The reported average latency of a breaker always lies between the
    smallest and the largest latency of its successful calls, as long as the
    total latency fits an [int64]. *)
Theorem average_latency_bounds nm c k lo hi rs
  (Hlo : 0 <= lo)
  (Hrs : Forall (fun r => sa_failed r = false -> lo <= sa_latency r <= hi) rs)
  (Hmax : Z.of_nat (length rs) * hi < 2 ^ 63) :
  let m := metrics (recordAll (NewCircuitBreaker nm c k) rs) in
  0 < SuccessfulRequests m -> lo <= AverageLatency m <= hi.
Proof.
  assert (let m := metrics (recordAll (NewCircuitBreaker nm c k) rs) in
    0 <= SuccessfulRequests m <= Z.of_nat (length rs) /\
    (SuccessfulRequests m = 0 -> AverageLatency m = 0) /\
    (0 < SuccessfulRequests m -> lo <= AverageLatency m <= hi)) as H; [| by apply H].
  induction rs as [| r rs IH] using rev_ind; [simpl; lia |].
  apply Forall_app in Hrs as [Hrs Hr]. rewrite Forall_singleton in Hr.
  rewrite length_app in *. cbn [length] in *.
  assert (hi < 0 \/ 0 <= hi) as Hhi by lia.
  specialize (IH Hrs). unfold recordAll in *. rewrite foldl_app. cbn [foldl].
  set (cb := foldl _ _ _) in *. cbv zeta in IH |- *.
  destruct IH as (Hn & H0 & Hb); [nia |].
  pose proof (recordResult_counters (sa_failed r) (sa_latency r) (sa_clock r) cb) as Hc.
  unfold counters in Hc. rewrite recordResult_latency.
  destruct (sa_failed r); injection Hc as -> _ _ _ _; [split_and!; auto; lia |].
  specialize (Hr eq_refl). split_and!; [lia.. |]. intros _. simpl.
  apply running_mean_bounds; auto with lia. nia.
Qed.

(** *** The manager *)

(** The names of a manager refer to breakers of the store. *)
Definition manager_wf (m : Manager) : Prop :=
  forall nm r, circuitBreakers m !! nm = Some r -> (r < length (store m))%nat /\
    forall cb, store m !! r = Some cb -> name cb = nm.

Lemma GetOrCreate_wf nm c k m : manager_wf m -> manager_wf (fst (GetOrCreate nm c k m)).
Proof.
  intros Hwf. unfold GetOrCreate. destruct (circuitBreakers m !! nm) as [r |] eqn:E; [done |].
  intros nm' r'. simpl. rewrite lookup_insert_Some. rewrite length_app. simpl.
  intros [[<- <-] | [_ H]].
  - split; [lia |]. intros cb. rewrite list_lookup_middle by done. by intros [= <-].
  - destruct (Hwf nm' r' H) as [Hlt Hname]. split; [lia |]. intros cb. rewrite lookup_app_l by done.
    apply Hname.
Qed.

Lemma ResetAll_lookup order k m r cb :
  NoDup (snd <$> order) -> store m !! r = Some cb ->
  store (ResetAll order k m) !! r
  = Some (if bool_decide (r ∈ (snd <$> order)) then Reset k cb else cb).
Proof.
  unfold ResetAll. simpl. generalize (store m). intros st Hnd. revert st cb.
  induction order as [| [nm r'] order IH]; intros st cb Hcb; [done |].
  simpl in *. apply NoDup_cons in Hnd as [Hnin Hnd]. destruct (decide (r = r')) as [-> | Hne].
  - rewrite (IH Hnd _ (Reset k cb)) by (by rewrite list_lookup_alter_eq, Hcb).
    rewrite bool_decide_false by done. rewrite bool_decide_true; [done |]. apply elem_of_cons; auto.
  - rewrite (IH Hnd _ cb) by (by rewrite list_lookup_alter_ne).
    case_bool_decide as H1; case_bool_decide as H2; try done; exfalso;
      [apply H2, elem_of_cons; auto |].
    apply elem_of_cons in H2 as [-> | ?]; auto.
Qed.

(** ** The theorems at concrete breakers *)

Definition sampleConfig (threshold allowance : Z) : CircuitBreakerConfig :=
  mkConfig 1 f64_zero 0 Second 0 threshold allowance Second 0 false 0 0 0 false.

Definition sampleCall (o : Outcome) (t : Time) : Call := mkCall t t (instant t) (instant t) o 5.

(** A breaker that has just become half-open. *)
Definition sampleHalfOpen (threshold allowance : Z) : CircuitBreaker :=
  transitionToHalfOpen (instant 0)
    (ForceOpen (instant 0) (NewCircuitBreaker "llm" (Some (sampleConfig threshold allowance)) (instant 0))).


Lemma open_window_rejects_witness :
  let cb := ForceOpen (instant 0) (NewCircuitBreaker "llm" None (instant 0)) in
  exists s', rtc (step_in_window 0) (mkSystem cb [] false 0) s' /\
    threads s' = [TStart] /\ operation_ran TStart = false.
Proof.
  exists (mkSystem (ForceOpen (instant 0) (NewCircuitBreaker "llm" None (instant 0))) [TStart] false 0).
  assert (rtc (step_in_window 0)
    (mkSystem (ForceOpen (instant 0) (NewCircuitBreaker "llm" None (instant 0))) [] false 0)
    (mkSystem (ForceOpen (instant 0) (NewCircuitBreaker "llm" None (instant 0))) [TStart] false 0)) as H.
  { apply rtc_once. split; [apply (sys_call _ []) | split; by vm_compute]. }
  split; [done |]. split; [done |].
  by apply (open_window_rejects 0 _ _ H 0).
Defined.

Lemma state_edges_witness :
  let cb := sampleHalfOpen 2 3 in
  exists k, Reset (instant 5) (ForceOpen (instant 1) cb) = Reset k (ForceOpen (instant 1) cb).
Proof.
  exact (state_edges (mkSystem (ForceOpen (instant 1) (sampleHalfOpen 2 3)) [] false 5)
    (mkSystem (Reset (instant 5) (ForceOpen (instant 1) (sampleHalfOpen 2 3))) [] false 5)
    (sys_reset _ _ _ _ 5 (instant 5) 5 (instant_readings 5))).
Defined.

Lemma half_open_recovers_witness :
  state (runCalls (sampleHalfOpen 2 3) [sampleCall OpResult 1; sampleCall OpResult 2]) = StateClosed.
Proof.
  apply (half_open_recovers (sampleHalfOpen 2 3)); [done | by repeat constructor | done | by vm_compute].
Defined.

Lemma half_open_stuck_witness :
  rejected (runCalls (sampleHalfOpen 3 1) ([sampleCall OpResult 1] ++ [sampleCall OpError 2]))
    (sampleCall OpResult (1000 * Second)).
Proof.
  apply (half_open_stuck (sampleHalfOpen 3 1)); [done | by repeat constructor | done | by vm_compute].
Defined.

Lemma average_latency_bounds_witness :
  10 <= AverageLatency (metrics (recordAll (NewCircuitBreaker "llm" None (instant 0))
          [mkSample false 10 (instant 1); mkSample false 21 (instant 2)])) <= 30.
Proof.
  apply (average_latency_bounds "llm" None (instant 0) 10 30); [done | | done | done].
  repeat constructor; simpl; lia.
Defined.

End CircuitBreaker.

Module Resilience.

Import CircuitBreaker.

(** ** The streamlined configuration and its translation *)

Record WrapperConfig := mkWrapperConfig {
  w_FailureThreshold : Z;
  RecoveryTimeout : Duration;
  w_SuccessThreshold : Z;
  RequestTimeout : Duration;
  w_HalfOpenMaxRequests : Z;
  MinimumRequests : Z;
  w_FailureRate : float64
}.

Definition DefaultCircuitBreakerConfig : WrapperConfig :=
  mkWrapperConfig 5 (60 * Second) 3 (30 * Second) 5 10 (f64_ratio 1 2).

Definition llmConfig (c : WrapperConfig) : CircuitBreakerConfig :=
  mkConfig (w_FailureThreshold c) (w_FailureRate c) (MinimumRequests c) (RequestTimeout c)
    (RecoveryTimeout c) (w_SuccessThreshold c) (w_HalfOpenMaxRequests c) (RecoveryTimeout c)
    100 false (30 * Second) (10 * Second) 0 false.

Record LLMCircuitBreaker := mkLLMCircuitBreaker {
  w_name : string;
  circuitBreaker : CircuitBreaker;
  w_config : WrapperConfig
}.

Definition NewLLMCircuitBreaker (nm : string) (c : option WrapperConfig) (k : Clock) : LLMCircuitBreaker :=
  let c := default DefaultCircuitBreakerConfig c in
  mkLLMCircuitBreaker nm (NewCircuitBreaker nm (Some (llmConfig c)) k) c.

(** The wrapper's own deadline is part of the context the operation runs
    under: it shows in the outcome, [CtxDone]. *)
Definition Execute (c : Call) (w : LLMCircuitBreaker) : LLMCircuitBreaker * result ExecError unit :=
  let '(cb, r) := CircuitBreaker.Execute (c_now c) (c_now' c) (c_admit c) (c_record c)
                    (c_outcome c) (c_latency c) (circuitBreaker w) in
  (mkLLMCircuitBreaker (w_name w) cb (w_config w), r).

Inductive FallbackResult :=
| Returned (r : result ExecError unit)
| FallbackCalled (e : ExecError)
| NoFallback (e : ExecError).

Definition ExecuteWithFallback (c : Call) (has_fallback : bool) (w : LLMCircuitBreaker)
  : LLMCircuitBreaker * FallbackResult :=
  let '(w, r) := Execute c w in
  match r with
  | Err e =>
      if IsOpen (circuitBreaker w)
      then (w, if has_fallback then FallbackCalled e else NoFallback e)
      else (w, Returned r)
  | Ok _ => (w, Returned r)
  end.

Definition GetState (w : LLMCircuitBreaker) : string :=
  if IsOpen (circuitBreaker w) then "open"
  else if IsHalfOpen (circuitBreaker w) then "half-open"
  else "closed".

Definition Reset (k : Clock) (w : LLMCircuitBreaker) : LLMCircuitBreaker :=
  mkLLMCircuitBreaker (w_name w) (CircuitBreaker.Reset k (circuitBreaker w)) (w_config w).

Definition ForceOpen (k : Clock) (w : LLMCircuitBreaker) : LLMCircuitBreaker :=
  mkLLMCircuitBreaker (w_name w) (CircuitBreaker.ForceOpen k (circuitBreaker w)) (w_config w).

Lemma GetState_String w : GetState w = String (state (circuitBreaker w)).
Proof. unfold GetState, IsOpen, IsHalfOpen. by destruct (state (circuitBreaker w)). Qed.

(** A refused call is refused in the state it reports. *)
Lemma Execute_refused c w w' st :
  Execute c w = (w', Err (ErrCircuitBreaker st)) ->
  st = state (circuitBreaker w') /\ st <> StateClosed /\ st = state (circuitBreaker w).
Proof.
  unfold Execute, CircuitBreaker.Execute, canExecute.
  destruct (canExecute_check _ _ _) eqn:E.
  - simpl. destruct (c_outcome c); by intros [=].
  - intros [= <- <-]. simpl. split_and!; [done | | done].
    intros Hs. unfold canExecute_check in E. simpl in E. by rewrite Hs in E.
  - unfold canExecute_locked. case_decide as Hs.
    + goal_if; [by destruct (c_outcome c) |]. intros [= <- <-]. simpl. by rewrite Hs.
    + by destruct (c_outcome c).
Qed.

(** A half-open breaker opens on the failure of an operation. *)
Lemma Execute_half_open_failure c w w' e :
  state (circuitBreaker w) = StateHalfOpen -> Execute c w = (w', Err e) ->
  (forall st, e <> ErrCircuitBreaker st) -> state (circuitBreaker w') = StateOpen.
Proof.
  intros Hs. unfold Execute, CircuitBreaker.Execute, canExecute, canExecute_check. simpl. rewrite Hs.
  goal_if.
  - assert (forall cb, state cb = StateHalfOpen ->
      state (recordResult true (c_latency c) (c_record c) cb) = StateOpen) as Hopen.
    { intros cb Hcb. rewrite recordResult_state. by rewrite bool_decide_true. }
    destruct (c_outcome c); simpl; intros [= <- _] _; simpl; by apply Hopen.
  - intros [= _ <-] He. by destruct (He (state (updateMetrics (circuitBreaker w) countRejected))).
Qed.

(** The fallback runs exactly when the call fails and the breaker is open
    afterwards: so a call refused by an open breaker gets it, a call refused by
    a half-open breaker does not, and a call whose own failure opens the
    breaker does although its operation ran. *)
Theorem fallback_runs_iff c w (has_fallback : bool) :
  let '(w1, r) := Execute c w in
  let '(w2, fr) := ExecuteWithFallback c has_fallback w in
  w2 = w1 /\
  (forall e, fr = FallbackCalled e <->
     has_fallback = true /\ r = Err e /\ state (circuitBreaker w1) = StateOpen) /\
  (r = Err (ErrCircuitBreaker StateHalfOpen) -> fr = Returned r) /\
  (state (circuitBreaker w) = StateHalfOpen -> forall e, r = Err e ->
     (forall st, e <> ErrCircuitBreaker st) -> has_fallback = true -> fr = FallbackCalled e).
Proof.
  unfold ExecuteWithFallback. destruct (Execute c w) as [w1 r] eqn:E.
  destruct r as [[] | e]; [by repeat split; try done; intros (? & ? & ?) |].
  unfold IsOpen. case_bool_decide as Ho; (split_and!; [done | | |]).
  - intros e'. destruct has_fallback; split; [intros [= ->]; done | intros (_ & [= ->] & _); done | done |].
    by intros [? _].
  - intros [= ->]. apply Execute_refused in E as (Hs & _). congruence.
  - intros _ e' [= <-] _ ->. done.
  - intros e'. split; [done | intros (_ & _ & ?); done].
  - done.
  - intros Hs e' [= <-] He _. destruct Ho. by eapply Execute_half_open_failure.
Qed.

End Resilience.
