(* ===== verification/LockManager.v ===== *)
(** * LockManager: keyed locks with expiry, waiting and renewal

    Follows pkg/shared/lock_manager.go.  The first part gives every
    operation as a function of the manager's state and of the instants it
    reads; operations that take the manager's mutex are bodies, and
    [with_mutex] runs a body unless the mutex is already held.  The second
    part is the system of any number of clients that run
    [LockWithContext] (acquire, critical section, release) against one
    manager, with the cleanup and renewal goroutines, as a step relation:
    one step is one critical section of the code. *)

From S2P Require Import Prelude.
Local Open Scope Z_scope.

Definition LockTypeExclusive : string := "exclusive".
Definition LockTypeShared : string := "shared".

(** [renewal] is the context of the lock's renewal goroutine. *)
Record Lock := mkLock {
  Key : string;
  Owner : string;
  LockType : string;
  AcquiredAt : Time;
  ExpiresAt : Time;
  Renewable : bool;
  Metadata : gmap string string;
  renewal : option nat
}.

Record LockOptions := mkLockOptions {
  o_Timeout : Duration;
  o_LockType : string;
  o_Renewable : bool;
  o_Owner : string;
  o_Metadata : gmap string string;
  RetryCount : nat;
  RetryBackoff : Duration
}.

Definition DefaultLockOptions : LockOptions :=
  mkLockOptions (30 * Second) LockTypeExclusive true "" ∅ 3 (1 * Second).

(** Wait channels have a buffer of one; [chans] says which buffers are full.
    [cancelled] says which renewal contexts are cancelled. *)
Record LockManager := mkLockManager {
  mutex : bool;
  locks : gmap string Lock;
  waitQueues : gmap string (list nat);
  defaultTimeout : Duration;
  renewalInterval : Duration;
  locksAcquired : Z;
  locksReleased : Z;
  lockTimeouts : Z;
  lockConflicts : Z;
  chans : list bool;
  cancelled : list bool
}.

Definition NewLockManager (timeout retryInterval : Duration) : LockManager :=
  mkLockManager false ∅ ∅ timeout retryInterval 0 0 0 0 [] [].

(** ** Field updates *)

Definition with_locks (f : gmap string Lock -> gmap string Lock) (lm : LockManager) : LockManager :=
  mkLockManager (mutex lm) (f (locks lm)) (waitQueues lm) (defaultTimeout lm) (renewalInterval lm)
    (locksAcquired lm) (locksReleased lm) (lockTimeouts lm) (lockConflicts lm) (chans lm) (cancelled lm).

Definition with_waiters (f : gmap string (list nat) -> gmap string (list nat))
  (g : list bool -> list bool) (lm : LockManager) : LockManager :=
  mkLockManager (mutex lm) (locks lm) (f (waitQueues lm)) (defaultTimeout lm) (renewalInterval lm)
    (locksAcquired lm) (locksReleased lm) (lockTimeouts lm) (lockConflicts lm) (g (chans lm)) (cancelled lm).

Definition with_stats (da dr dt dc : Z) (lm : LockManager) : LockManager :=
  mkLockManager (mutex lm) (locks lm) (waitQueues lm) (defaultTimeout lm) (renewalInterval lm)
    (locksAcquired lm + da) (locksReleased lm + dr) (lockTimeouts lm + dt) (lockConflicts lm + dc)
    (chans lm) (cancelled lm).

Definition with_contexts (f : list bool -> list bool) (lm : LockManager) : LockManager :=
  mkLockManager (mutex lm) (locks lm) (waitQueues lm) (defaultTimeout lm) (renewalInterval lm)
    (locksAcquired lm) (locksReleased lm) (lockTimeouts lm) (lockConflicts lm) (chans lm)
    (f (cancelled lm)).

Definition set_mutex (b : bool) (lm : LockManager) : LockManager :=
  mkLockManager b (locks lm) (waitQueues lm) (defaultTimeout lm) (renewalInterval lm)
    (locksAcquired lm) (locksReleased lm) (lockTimeouts lm) (lockConflicts lm) (chans lm) (cancelled lm).

(** [lm.mutex.Lock(); defer lm.mutex.Unlock(); body]: [None] when the mutex is
    held by the caller itself, which then waits for ever. *)
Definition with_mutex {A} (body : LockManager -> LockManager * A) (lm : LockManager)
  : option (LockManager * A) :=
  if mutex lm then None
  else let '(lm', a) := body (set_mutex true lm) in Some (set_mutex false lm', a).

(** ** Operations *)

(** [cancel()] of a context: idempotent. *)
Definition cancelContext (c : option nat) (lm : LockManager) : LockManager :=
  match c with
  | Some i => with_contexts (fun l => <[i := true]> l) lm
  | None => lm
  end.

(** A send that does not block: a full buffer drops the token. *)
Definition notifyAll (waiters : list nat) (cs : list bool) : list bool :=
  foldl (fun cs w => <[w := true]> cs) cs waiters.

Definition notifyWaiters (key : string) (lm : LockManager) : LockManager :=
  match waitQueues lm !! key with
  | None => lm
  | Some waiters => with_waiters (delete key) (notifyAll waiters) lm
  end.

(** Only the first occurrence is removed, and an empty queue is deleted. *)
Fixpoint removeFirst (w : nat) (l : list nat) : list nat :=
  match l with
  | [] => []
  | x :: l' => if decide (x = w) then l' else x :: removeFirst w l'
  end.

Definition removeFromWaitQueue (key : string) (target : nat) (lm : LockManager) : LockManager :=
  match waitQueues lm !! key with
  | None => lm
  | Some waiters =>
      let q := removeFirst target waiters in
      with_waiters (fun m => match q with [] => delete key m | _ => <[key := q]> m end) (fun cs => cs) lm
  end.

Inductive LockError :=
| ErrNotFound
| ErrNotRenewable
| ErrExpired
| ErrTimeoutWaiting
| ErrCancelledBackoff
| ErrAttemptsExhausted.

(** [ReleaseLock] has no caller identity: the owner is not checked. *)
Definition releaseBody (key : string) (lm : LockManager) : LockManager * result LockError unit :=
  match locks lm !! key with
  | None => (lm, Err ErrNotFound)
  | Some lock =>
      let lm := cancelContext (renewal lock) lm in
      let lm := with_locks (delete key) lm in
      let lm := with_stats 0 1 0 0 lm in
      (notifyWaiters key lm, Ok tt)
  end.

Definition ReleaseLock (key : string) : LockManager -> option (LockManager * result LockError unit) :=
  with_mutex (releaseBody key).

Definition IsLocked (key : string) (now : Time) (lm : LockManager) : bool :=
  match locks lm !! key with
  | None => false
  | Some lock => negb (time_After now (ExpiresAt lock))
  end.

Definition GetLock (key : string) (now : Time) (lm : LockManager) : option Lock :=
  match locks lm !! key with
  | None => None
  | Some lock => if time_After now (ExpiresAt lock) then None else Some lock
  end.

Definition ActiveLocks (lm : LockManager) : Z := Z.of_nat (size (locks lm)).

Definition ListLocks (now : Time) (lm : LockManager) : list Lock :=
  filter (fun l => time_Before now (ExpiresAt l) = true) (snd <$> map_to_list (locks lm)).

Definition renewed (now : Time) (d : Duration) (l : Lock) : Lock :=
  mkLock (Key l) (Owner l) (LockType l) (AcquiredAt l) (time_Add now d) (Renewable l) (Metadata l)
    (renewal l).

(** [now] is read for the expiry check, [now'] for the new expiry. *)
Definition renewBody (key : string) (d : Duration) (now now' : Time) (lm : LockManager)
  : LockManager * result LockError unit :=
  match locks lm !! key with
  | None => (lm, Err ErrNotFound)
  | Some lock =>
      if negb (Renewable lock) then (lm, Err ErrNotRenewable)
      else if time_After now (ExpiresAt lock) then (lm, Err ErrExpired)
      else (with_locks (<[key := renewed now' d lock]>) lm, Ok tt)
  end.

Definition RenewLock (key : string) (d : Duration) (now now' : Time)
  : LockManager -> option (LockManager * result LockError unit) :=
  with_mutex (renewBody key d now now').

(** The instants of [tryAcquireLock]: the expiry check, [AcquiredAt], and the
    base of [ExpiresAt]. *)
Record TryClock := mkTryClock { now_check : Time; now_acquired : Time; now_expires : Time }.

(** What is stored at the key, and the renewal context that is started. *)
Definition newLock (key : string) (opts : LockOptions) (k : TryClock) (lm : LockManager) : Lock :=
  mkLock key (o_Owner opts) (o_LockType opts) (now_acquired k)
    (time_Add (now_expires k) (o_Timeout opts)) (o_Renewable opts) (o_Metadata opts)
    (if o_Renewable opts then Some (length (cancelled lm)) else None).

Definition install (key : string) (opts : LockOptions) (k : TryClock) (lm : LockManager) : LockManager :=
  let lock := newLock key opts k lm in
  let lm := if o_Renewable opts then with_contexts (fun l => l ++ [false]) lm else lm in
  with_locks (<[key := lock]>) lm.

(** The Boolean says whether the lock is acquired, the context is the one of
    the renewal goroutine that was started, if any. *)
Definition tryAcquireBody (key : string) (opts : LockOptions) (k : TryClock) (lm : LockManager)
  : LockManager * (bool * option nat) :=
  match locks lm !! key with
  | Some existingLock =>
      if time_Before (now_check k) (ExpiresAt existingLock) then
        if bool_decide (o_LockType opts = LockTypeShared)
           && bool_decide (LockType existingLock = LockTypeShared)
        then (lm, (true, None))
        else (with_stats 0 0 0 1 lm, (false, None))
      else
        let lm := with_locks (delete key) lm in
        (install key opts k lm, (true, renewal (newLock key opts k lm)))
  | None => (install key opts k lm, (true, renewal (newLock key opts k lm)))
  end.

Definition tryAcquireLock (key : string) (opts : LockOptions) (k : TryClock)
  : LockManager -> option (LockManager * (bool * option nat)) :=
  with_mutex (tryAcquireBody key opts k).

(** The enqueueing section of [waitForLockRelease]. *)
Definition enqueueWaiter (key : string) (lm : LockManager) : LockManager * nat :=
  let ch := length (chans lm) in
  (with_waiters (fun m => <[key := default [] (m !! key) ++ [ch]]> m) (fun cs => cs ++ [false]) lm, ch).

(** One expired lock of the cleanup loop. *)
Definition cleanupOne (lm : LockManager) (key : string) : LockManager :=
  match locks lm !! key with
  | None => lm
  | Some lock => notifyWaiters key (with_locks (delete key) (cancelContext (renewal lock) lm))
  end.

Definition expiredKeys (now : Time) (lm : LockManager) : list string :=
  fst <$> filter (fun kl => time_After now (ExpiresAt (snd kl)) = true) (map_to_list (locks lm)).

Definition cleanupExpiredLocks (now : Time) (lm : LockManager) : LockManager :=
  foldl cleanupOne lm (expiredKeys now lm).

(** [Stop] ranges over the locks, in some order, holding the mutex. *)
Fixpoint releaseAll (keys : list string) (lm : LockManager) : option LockManager :=
  match keys with
  | [] => Some lm
  | key :: rest =>
      match ReleaseLock key lm with
      | None => None
      | Some (lm, _) => releaseAll rest lm
      end
  end.

Definition Stop (order : list string) (lm : LockManager) : option LockManager :=
  if mutex lm then None
  else
    match releaseAll order (set_mutex true lm) with
    | None => None
    | Some lm => Some (set_mutex false lm)
    end.

(** ** Clients

    A client runs [LockWithContext]: [AcquireLockWithOptions], the critical
    section, [ReleaseLock].  Its position is the critical section of the code
    it is about to run. *)
Inductive Position :=
| PTry (attempt : nat)
| PEnqueue (attempt : nat)
| PWaiting (attempt : nat) (ch : nat)
| PBackoff (attempt : nat) (until : Time)
| PGiveUp (e : LockError)
| PAcquired (since : Time)
| PInside (since : Time)
| PDone (r : result LockError unit).

(** [renewals]: the contexts of the renewals this call has started;
    [deadline]: the end of the call's context. *)
Record Client := mkClient {
  c_key : string;
  c_opts : LockOptions;
  c_deadline : Time;
  c_renewals : list nat;
  c_pos : Position
}.

Definition move (c : Client) (p : Position) : Client :=
  mkClient (c_key c) (c_opts c) (c_deadline c) (c_renewals c) p.

Definition started (c : Client) (r : option nat) (p : Position) : Client :=
  mkClient (c_key c) (c_opts c) (c_deadline c)
    (match r with Some i => i :: c_renewals c | None => c_renewals c end) p.

(** The call's context is done: its deadline has passed. *)
Definition ctx_done (c : Client) (now : Time) : Prop := c_deadline c <= now.

(** The deferred [cancel()] of the call's context: the contexts derived from
    it are cancelled with it. *)
Definition cancelCall (c : Client) (lm : LockManager) : LockManager :=
  foldl (fun lm i => cancelContext (Some i) lm) lm (c_renewals c).

(** One step of a client at the instant [now]; [readings] of the mutex section
    of [tryAcquireLock] do not precede it. *)
Inductive client_step (now : Time) (lm : LockManager) (c : Client) : LockManager -> Client -> Prop :=
| cs_acquired a k lm' r :
    c_pos c = PTry a -> tryAcquireBody (c_key c) (c_opts c) k lm = (lm', (true, r)) ->
    now_check k = now -> now_acquired k = now -> now_expires k = now ->
    client_step now lm c lm' (started c r (PAcquired now))
| cs_conflict a k lm' r :
    c_pos c = PTry a -> tryAcquireBody (c_key c) (c_opts c) k lm = (lm', (false, r)) ->
    now_check k = now -> now_acquired k = now -> now_expires k = now ->
    client_step now lm c lm'
      (move c (if decide (a < RetryCount (c_opts c))%nat then PEnqueue a
               else PGiveUp ErrAttemptsExhausted))
| cs_enqueue a lm' ch :
    c_pos c = PEnqueue a -> enqueueWaiter (c_key c) lm = (lm', ch) ->
    client_step now lm c lm' (move c (PWaiting a ch))
| cs_woken a ch :
    c_pos c = PWaiting a ch -> chans lm !! ch = Some true ->
    client_step now lm c (with_waiters (fun m => m) (fun cs => <[ch := false]> cs) lm)
      (move c (PBackoff (S a) (time_Add now (RetryBackoff (c_opts c)))))
| cs_wait_timeout a ch :
    c_pos c = PWaiting a ch -> ctx_done c now ->
    client_step now lm c (removeFromWaitQueue (c_key c) ch lm) (move c (PGiveUp ErrTimeoutWaiting))
| cs_backoff_over a t :
    c_pos c = PBackoff a t -> t <= now -> client_step now lm c lm (move c (PTry a))
| cs_backoff_cancelled a t :
    c_pos c = PBackoff a t -> ctx_done c now ->
    client_step now lm c (cancelCall c lm) (move c (PDone (Err ErrCancelledBackoff)))
| cs_give_up e :
    c_pos c = PGiveUp e ->
    client_step now lm c (cancelCall c (with_stats 0 0 1 0 lm)) (move c (PDone (Err e)))
| cs_enter t :
    c_pos c = PAcquired t ->
    client_step now lm c (cancelCall c (with_stats 1 0 0 0 lm)) (move c (PInside t))
| cs_leave t lm' r :
    c_pos c = PInside t -> releaseBody (c_key c) lm = (lm', r) ->
    client_step now lm c lm' (move c (PDone (Ok tt))).

(** The manager, its clients, the renewal goroutines (context and key) and the
    wall clock. *)
Record System := mkSystem {
  manager : LockManager;
  clients : list Client;
  renewers : list (nat * string);
  clock : Time
}.

(** The renewal goroutine a step starts. *)
Definition startedRenewer (c c' : Client) : list (nat * string) :=
  match c_renewals c' with
  | i :: rest => if decide (rest = c_renewals c) then [(i, c_key c)] else []
  | [] => []
  end.

Inductive sys_step : System -> System -> Prop :=
| sys_call lm cs rs t key opts parent :
    sys_step (mkSystem lm cs rs t)
      (mkSystem lm (cs ++ [mkClient key opts
         (Z.min parent (time_Add t (if o_Timeout opts =? 0 then defaultTimeout lm else o_Timeout opts)))
         [] (PTry 0)]) rs t)
| sys_client lm cs rs t i c lm' c' :
    cs !! i = Some c -> client_step t lm c lm' c' ->
    sys_step (mkSystem lm cs rs t)
      (mkSystem lm' (<[i := c']> cs) (startedRenewer c c' ++ rs) t)
| sys_clock lm cs rs t t' :
    t <= t' -> sys_step (mkSystem lm cs rs t) (mkSystem lm cs rs t')
| sys_cleanup lm cs rs t :
    sys_step (mkSystem lm cs rs t) (mkSystem (cleanupExpiredLocks t lm) cs rs t)
| sys_renew lm cs rs t i key lm' r :
    (i, key) ∈ rs -> renewBody key (renewalInterval lm * 3) t t lm = (lm', r) ->
    sys_step (mkSystem lm cs rs t) (mkSystem lm' cs rs t)
| sys_renewer_exits lm cs rs rs' t : rs' ⊆ rs ->
    sys_step (mkSystem lm cs rs t) (mkSystem lm cs rs' t).

Definition initial (timeout retryInterval : Duration) (t : Time) : System :=
  mkSystem (NewLockManager timeout retryInterval) [] [] t.

(** ** What the operations do to the locks *)

Lemma locks_cancelContext c lm : locks (cancelContext c lm) = locks lm.
Proof. by destruct c. Qed.

Lemma locks_cancelCall c lm : locks (cancelCall c lm) = locks lm.
Proof.
  unfold cancelCall. revert lm. induction (c_renewals c) as [| i l IH]; intros lm; [done |].
  simpl. by rewrite IH.
Qed.

Lemma locks_notifyWaiters key lm : locks (notifyWaiters key lm) = locks lm.
Proof. unfold notifyWaiters. by case_match. Qed.

Lemma locks_removeFromWaitQueue key ch lm : locks (removeFromWaitQueue key ch lm) = locks lm.
Proof. unfold removeFromWaitQueue. by case_match. Qed.

Lemma locks_releaseBody key lm lm' r : releaseBody key lm = (lm', r) -> locks lm' = delete key (locks lm).
Proof.
  unfold releaseBody. destruct (locks lm !! key) eqn:E; intros [= <- _].
  - rewrite locks_notifyWaiters. simpl. by rewrite locks_cancelContext.
  - by rewrite delete_id.
Qed.

Lemma locks_install key opts k lm :
  locks (install key opts k lm) = <[key := newLock key opts k lm]> (locks lm).
Proof. unfold install. by destruct (o_Renewable opts). Qed.

Lemma cleanupOne_lookup lm key k l :
  locks (cleanupOne lm key) !! k = Some l -> locks lm !! k = Some l /\ k <> key.
Proof.
  unfold cleanupOne. destruct (locks lm !! key) as [lock |] eqn:E.
  - rewrite locks_notifyWaiters. simpl. rewrite locks_cancelContext, lookup_delete_Some. by intros [? ?].
  - intros H. split; [done |]. congruence.
Qed.

Lemma cleanupOne_keeps lm key k : k <> key -> locks (cleanupOne lm key) !! k = locks lm !! k.
Proof.
  intros Hk. unfold cleanupOne. destruct (locks lm !! key) as [lock |]; [| done].
  rewrite locks_notifyWaiters. simpl. by rewrite locks_cancelContext, lookup_delete_ne.
Qed.

Lemma expiredKeys_spec now lm key :
  key ∈ expiredKeys now lm <-> exists l, locks lm !! key = Some l /\ ExpiresAt l < now.
Proof.
  unfold expiredKeys. rewrite list_elem_of_fmap. split.
  - intros ([k l] & -> & H). apply list_elem_of_filter in H as [Ht H].
    apply elem_of_map_to_list in H. apply time_After_spec in Ht. eauto.
  - intros (l & H & Ht). exists (key, l). split; [done |].
    apply list_elem_of_filter. split; [by apply time_After_spec | by apply elem_of_map_to_list].
Qed.

(** The cleanup deletes the expired locks and nothing else. *)
Lemma cleanup_lookup now lm k :
  locks (cleanupExpiredLocks now lm) !! k =
  match locks lm !! k with
  | Some l => if ExpiresAt l <? now then None else Some l
  | None => None
  end.
Proof.
  assert (forall keys lm, (k ∈ keys -> locks (foldl cleanupOne lm keys) !! k = None) /\
    (k ∉ keys -> locks (foldl cleanupOne lm keys) !! k = locks lm !! k)) as H.
  { intros keys. induction keys as [| key keys IH]; intros lm0.
    { split; [by intros ?%elem_of_nil | done]. }
    simpl. destruct (IH (cleanupOne lm0 key)) as [IH1 IH2]. split.
    - intros Hin. destruct (decide (k ∈ keys)); [auto |]. rewrite IH2 by done.
      apply elem_of_cons in Hin as [-> | ?]; [| done].
      apply eq_None_not_Some. intros [l Hl]. by apply cleanupOne_lookup in Hl as [_ ?].
    - rewrite not_elem_of_cons. intros [Hne Hnin]. rewrite IH2 by done. by apply cleanupOne_keeps. }
  destruct (H (expiredKeys now lm) lm) as [H1 H2]. unfold cleanupExpiredLocks.
  destruct (locks lm !! k) as [l |] eqn:E.
  - destruct (Z.ltb_spec (ExpiresAt l) now) as [Hlt | Hge].
    + apply H1, expiredKeys_spec. eauto.
    + rewrite H2; [done |]. rewrite expiredKeys_spec. intros (l' & Hl' & Hlt). simplify_eq. lia.
  - rewrite H2; [done |]. rewrite expiredKeys_spec. intros (l' & Hl' & _). congruence.
Qed.

(** Renewing keeps every lock, its type and its owner. *)
Lemma renewBody_lookup key d now now' lm lm' r k :
  renewBody key d now now' lm = (lm', r) ->
  LockType <$> locks lm' !! k = LockType <$> locks lm !! k.
Proof.
  unfold renewBody. destruct (locks lm !! key) as [lock |] eqn:E; [| by intros [= <- _]].
  destruct (negb (Renewable lock)); [by intros [= <- _] |].
  destruct (time_After now (ExpiresAt lock)); intros [= <- _]; [done |]. simpl.
  destruct (decide (key = k)) as [<- | Hne].
  - by rewrite lookup_insert_eq, E.
  - by rewrite lookup_insert_ne.
Qed.

(** ** Mutual exclusion of critical sections *)

(** The client holds its lock: it has acquired it and not released it. *)
Definition holding (p : Position) : bool :=
  match p with PAcquired _ | PInside _ => true | _ => false end.

(** No lock that a client holds expires during the step. *)
Definition timely (s s' : System) : Prop :=
  forall i c l, clients s !! i = Some c -> holding (c_pos c) = true ->
    locks (manager s) !! c_key c = Some l -> clock s' < ExpiresAt l.

Definition exclusive_calls (s : System) : Prop :=
  forall i c, clients s !! i = Some c -> o_LockType (c_opts c) <> LockTypeShared.

Definition timely_step (s s' : System) : Prop :=
  sys_step s s' /\ timely s s' /\ exclusive_calls s'.

(** The locks behind the clients that hold one. *)
Definition exclusion_inv (s : System) : Prop :=
  (forall i j ci cj, clients s !! i = Some ci -> clients s !! j = Some cj ->
     holding (c_pos ci) = true -> holding (c_pos cj) = true -> c_key ci = c_key cj -> i = j) /\
  (forall i c, clients s !! i = Some c -> holding (c_pos c) = true ->
     is_Some (locks (manager s) !! c_key c)) /\
  (forall k l, locks (manager s) !! k = Some l -> LockType l <> LockTypeShared).

(** A client step that acquires nothing and releases nothing. *)
Lemma client_step_cases now lm c lm' c' :
  client_step now lm c lm' c' ->
  c_key c' = c_key c /\ c_opts c' = c_opts c /\
  ((locks lm' = locks lm /\ (holding (c_pos c') = true -> holding (c_pos c) = true)) \/
   (locks lm' = delete (c_key c) (locks lm) /\ holding (c_pos c) = true /\ holding (c_pos c') = false) \/
   (holding (c_pos c') = true /\
    (exists l, locks lm' = <[c_key c := l]> (locks lm) /\ LockType l = o_LockType (c_opts c)) /\
    (forall l, locks lm !! c_key c = Some l -> ExpiresAt l <= now)) \/
   (exists l, locks lm !! c_key c = Some l /\ LockType l = LockTypeShared)).
Proof.
  intros H. destruct H as [a k lm' r Hp Ht Hk _ _ | a k lm' r Hp Ht _ _ _ | a lm' ch Hp He
    | a ch Hp Hc | a ch Hp Hc | a t Hp Ht | a t Hp Ht | e Hp | t Hp | t lm' r Hp Hr];
    (split; [done |]); (split; [done |]).
  - unfold tryAcquireBody in Ht. destruct (locks lm !! c_key c) as [l |] eqn:El.
    + destruct (time_Before (now_check k) (ExpiresAt l)) eqn:Eb.
      * destruct (bool_decide (o_LockType (c_opts c) = LockTypeShared)); simpl in Ht; [| done].
        case_bool_decide; [| done]. eauto 7.
      * injection Ht as <- _. do 2 right. left. split_and!; [done | |].
        -- eexists. rewrite locks_install. simpl. rewrite insert_delete_eq. done.
        -- intros l' [= <-]. apply time_Before_false in Eb. by rewrite Hk in Eb.
    + injection Ht as <- _. do 2 right. left. split_and!; [done | | done].
      eexists. by rewrite locks_install.
  - left. unfold tryAcquireBody in Ht. repeat case_match; simplify_eq; simpl; split; try done;
      by repeat case_match.
  - left. injection He as <- _. done.
  - by left.
  - left. by rewrite locks_removeFromWaitQueue.
  - by left.
  - left. by rewrite locks_cancelCall.
  - left. by rewrite locks_cancelCall.
  - left. rewrite locks_cancelCall. split; [done |]. by rewrite Hp.
  - right. left. apply locks_releaseBody in Hr. by rewrite Hp.
Qed.

Lemma exclusion_client lm cs rs t i c lm' c' rs' :
  cs !! i = Some c -> client_step t lm c lm' c' ->
  timely (mkSystem lm cs rs t) (mkSystem lm' (<[i := c']> cs) rs' t) ->
  exclusive_calls (mkSystem lm' (<[i := c']> cs) rs' t) ->
  exclusion_inv (mkSystem lm cs rs t) -> exclusion_inv (mkSystem lm' (<[i := c']> cs) rs' t).
Proof.
  intros Hi Hstep Htimely Hexcl (Huniq & Hheld & Hty). unfold timely, exclusive_calls, exclusion_inv in *.
  simpl in *. destruct (client_step_cases _ _ _ _ _ Hstep) as (Hkey & Hopts & Hcases).
  assert (o_LockType (c_opts c) <> LockTypeShared) as Hco.
  { rewrite <- Hopts. eapply Hexcl. apply list_lookup_insert_eq. by eapply lookup_lt_Some. }
  assert (forall j cj, <[i := c']> cs !! j = Some cj -> j = i /\ cj = c' \/ j <> i /\ cs !! j = Some cj) as Hcs.
  { intros j cj. rewrite list_lookup_insert_Some. naive_solver. }
  destruct Hcases as [[Hl Hh] | [(Hl & Hh & Hh') | [(Hh' & (l & Hl & Hlt) & Hexp) | (l & El & Els)]]].
  - rewrite Hl. split_and!; [| | done].
    + intros j1 j2 c1 c2 [[-> ->] | [Hn1 H1]]%Hcs [[-> ->] | [Hn2 H2]]%Hcs; try done; rewrite ?Hkey; eauto.
    + intros j c1 [[-> ->] | [Hn1 H1]]%Hcs; rewrite ?Hkey; eauto.
  - rewrite Hl. split_and!.
    + intros j1 j2 c1 c2 [[-> ->] | [Hn1 H1]]%Hcs [[-> ->] | [Hn2 H2]]%Hcs; try congruence; eauto.
    + intros j c1 [[-> ->] | [Hn1 H1]]%Hcs Hh1; [congruence |].
      rewrite lookup_delete_ne; [eauto |]. intros Hk. apply Hn1. eauto.
    + intros k l' H. apply lookup_delete_Some in H as [_ H]. eauto.
  - assert (forall j cj, cs !! j = Some cj -> holding (c_pos cj) = true -> c_key cj <> c_key c) as Hfree.
    { intros j cj Hj Hhj Hk. destruct (Hheld j cj Hj Hhj) as [l' Hl'].
      specialize (Htimely j cj l' Hj Hhj Hl'). rewrite Hk in Hl'. specialize (Hexp l' Hl'). lia. }
    rewrite Hl. split_and!.
    + intros j1 j2 c1 c2 [[-> ->] | [Hn1 H1]]%Hcs [[-> ->] | [Hn2 H2]]%Hcs; try done; rewrite ?Hkey;
        intros Ha Hb He; [| | eauto]; exfalso; [eapply Hfree | eapply Hfree]; [apply H2 | done | done | apply H1 | done | done].
    + intros j c1 [[-> ->] | [Hn1 H1]]%Hcs Hh1; rewrite ?Hkey; [rewrite lookup_insert_eq; eauto |].
      rewrite lookup_insert_ne; [eauto |]. intros Hk. by eapply Hfree.
    + intros k l'. rewrite lookup_insert_Some. intros [[<- <-] | [_ H]]; [congruence | eauto].
  - by destruct (Hty _ _ El).
Qed.

Lemma exclusion_step s s' : timely_step s s' -> exclusion_inv s -> exclusion_inv s'.
Proof.
  intros (Hstep & Htimely & Hexcl) Hinv.
  destruct Hstep as [| | | lm cs rs t | lm cs rs t i key lm' r Hr Hrenew |]; try done;
    [| by eapply exclusion_client | |]; destruct Hinv as (Huniq & Hheld & Hty);
    unfold timely, exclusion_inv in *; simpl in *.
  - match goal with |- context [cs ++ [?n]] => set (c := n) end.
    assert (forall j c', (cs ++ [c]) !! j = Some c' -> holding (c_pos c') = true -> cs !! j = Some c') as Hcs.
    { intros j c' [[_ H] | [_ <-]]%lookup_snoc_Some Hh; done. }
    split_and!; [| | done]; eauto.
  - split_and!; [done | |].
    + intros i c Hi Hh. destruct (Hheld i c Hi Hh) as [l Hl]. rewrite cleanup_lookup, Hl.
      specialize (Htimely i c l Hi Hh Hl). destruct (Z.ltb_spec (ExpiresAt l) t); [lia | eauto].
    + intros k l. rewrite cleanup_lookup. repeat case_match; try done. intros [= <-]. eauto.
  - assert (forall k, LockType <$> locks lm' !! k = LockType <$> locks lm !! k) as Hsame
      by (intros k; by eapply renewBody_lookup).
    split_and!; [done | |].
    + intros j c Hj Hh. specialize (Hsame (c_key c)). destruct (Hheld j c Hj Hh) as [l Hl].
      rewrite Hl in Hsame. destruct (locks lm' !! c_key c); [eauto | done].
    + intros k l Hl. specialize (Hsame k). rewrite Hl in Hsame.
      destruct (locks lm !! k) eqn:E; [| done]. injection Hsame as ->. eauto.
Qed.

(** C7 - Mutual exclusion: when every client asks for an exclusive lock and no
    lock expires while its client is in its critical section, two clients are
    never in the critical section of the same key, for any interleaving of
    acquisitions, waits, retries, releases, cleanups and renewals. *)
Theorem critical_sections_exclusive timeout retry t s
  (H : rtc timely_step (initial timeout retry t) s) i j ci cj
  (Hi : clients s !! i = Some ci) (Hj : clients s !! j = Some cj)
  (Hci : holding (c_pos ci) = true) (Hcj : holding (c_pos cj) = true) (Hkey : c_key ci = c_key cj) :
  i = j.
Proof.
  assert (exclusion_inv (initial timeout retry t)) as H0
    by (split_and!; simpl; intros *; by rewrite ?lookup_nil, ?lookup_empty).
  assert (exclusion_inv s) as (Huniq & _).
  { revert H0. induction H as [| s1 s2 s3 Hs _ IH]; eauto using exclusion_step. }
  by eapply Huniq.
Qed.

(** ** Waiters *)

(** A waiter on the channel [ch] of [key] is queued, or its token is there. *)
Definition covered (lm : LockManager) (key : string) (ch : nat) : Prop :=
  chans lm !! ch = Some true \/
  (chans lm !! ch = Some false /\ exists q, waitQueues lm !! key = Some q /\ ch ∈ q).

Lemma covered_lt lm key ch : covered lm key ch -> (ch < length (chans lm))%nat.
Proof. intros [H | [H _]]; by eapply lookup_lt_Some. Qed.

(** [covered] depends on the channels and the queues only. *)
Lemma covered_ext lm lm' key ch :
  chans lm' = chans lm -> waitQueues lm' = waitQueues lm -> covered lm key ch -> covered lm' key ch.
Proof. unfold covered. by intros -> ->. Qed.

Lemma queues_cancelContext c lm :
  chans (cancelContext c lm) = chans lm /\ waitQueues (cancelContext c lm) = waitQueues lm.
Proof. by destruct c. Qed.

Lemma queues_cancelCall c lm :
  chans (cancelCall c lm) = chans lm /\ waitQueues (cancelCall c lm) = waitQueues lm.
Proof.
  unfold cancelCall. revert lm. induction (c_renewals c) as [| i l IH]; intros lm; [done |].
  cbn [foldl]. destruct (IH (cancelContext (Some i) lm)) as [-> ->]. done.
Qed.

Lemma notifyAll_true ws cs ch : cs !! ch = Some true -> notifyAll ws cs !! ch = Some true.
Proof.
  unfold notifyAll. revert cs. induction ws as [| w ws IH]; intros cs H; [done |]. simpl. apply IH.
  destruct (decide (w = ch)) as [-> | Hn].
  - apply list_lookup_insert_eq. by eapply lookup_lt_Some.
  - by rewrite list_lookup_insert_ne.
Qed.

Lemma notifyAll_in ws cs ch :
  ch ∈ ws -> (ch < length cs)%nat -> notifyAll ws cs !! ch = Some true.
Proof.
  unfold notifyAll. revert cs. induction ws as [| w ws IH]; intros cs Hin Hlt; [by apply elem_of_nil in Hin |].
  simpl. apply elem_of_cons in Hin as [-> | Hin].
  - apply notifyAll_true, list_lookup_insert_eq. done.
  - apply IH; [done |]. by rewrite length_insert.
Qed.

Lemma notifyAll_notin ws cs ch : ch ∉ ws -> notifyAll ws cs !! ch = cs !! ch.
Proof.
  unfold notifyAll. revert cs. induction ws as [| w ws IH]; intros cs Hn; [done |].
  apply not_elem_of_cons in Hn as [Hne Hn]. simpl. rewrite IH by done. by rewrite list_lookup_insert_ne.
Qed.

Lemma length_notifyAll ws cs : length (notifyAll ws cs) = length cs.
Proof.
  unfold notifyAll. revert cs. induction ws as [| w ws IH]; intros cs; [done |]. simpl.
  by rewrite IH, length_insert.
Qed.

(** Notifying leaves no waiter behind. *)
Lemma covered_notify lm key key' ch : covered lm key ch -> covered (notifyWaiters key' lm) key ch.
Proof.
  intros Hc. pose proof (covered_lt _ _ _ Hc) as Hlt. unfold notifyWaiters.
  destruct (waitQueues lm !! key') as [ws |] eqn:E; [| done]. unfold covered; simpl.
  destruct Hc as [Hc | (Hc & q & Hq & Hin)]; [left; by apply notifyAll_true |].
  destruct (decide (ch ∈ ws)) as [Hw | Hw]; [left; by apply notifyAll_in |].
  right. rewrite notifyAll_notin by done. split; [done |]. exists q. split; [| done].
  rewrite lookup_delete_ne; [done |]. intros ->. congruence.
Qed.

Lemma covered_release lm key key' ch lm' r :
  releaseBody key' lm = (lm', r) -> covered lm key ch -> covered lm' key ch.
Proof.
  unfold releaseBody. destruct (locks lm !! key') as [lock |]; intros [= <- _]; [| done].
  intros H. apply covered_notify. revert H.
  destruct (queues_cancelContext (renewal lock) lm) as [E1 E2]. by apply covered_ext.
Qed.

Lemma covered_cleanup now lm key ch : covered lm key ch -> covered (cleanupExpiredLocks now lm) key ch.
Proof.
  unfold cleanupExpiredLocks. generalize (expiredKeys now lm). intros keys. revert lm.
  induction keys as [| k keys IH]; intros lm H; [done |]. simpl. apply IH. unfold cleanupOne.
  destruct (locks lm !! k) as [lock |]; [| done]. apply covered_notify. revert H.
  destruct (queues_cancelContext (renewal lock) lm) as [E1 E2]. by apply covered_ext.
Qed.

Lemma removeFirst_keep w x l : x <> w -> x ∈ l -> x ∈ removeFirst w l.
Proof.
  intros Hne. induction l as [| y l IH]; intros Hin; [done |]. simpl.
  apply elem_of_cons in Hin as [<- | Hin].
  - rewrite decide_False by done. apply elem_of_cons. auto.
  - case_decide; [done |]. apply elem_of_cons. auto.
Qed.

Lemma covered_remove lm key key' ch ch' :
  ch <> ch' -> covered lm key ch -> covered (removeFromWaitQueue key' ch' lm) key ch.
Proof.
  intros Hne Hc. unfold removeFromWaitQueue. destruct (waitQueues lm !! key') as [ws |] eqn:E; [| done].
  destruct Hc as [Hc | (Hc & q & Hq & Hin)]; [by left |]. right. split; [done |]. simpl.
  destruct (decide (key = key')) as [-> | Hk].
  - rewrite E in Hq. injection Hq as <-. pose proof (removeFirst_keep ch' ch ws Hne Hin) as Hin'.
    destruct (removeFirst ch' ws) as [| y l] eqn:Er; [by apply elem_of_nil in Hin' |].
    exists (y :: l). by rewrite lookup_insert_eq.
  - exists q. split; [| done]. case_match; by rewrite ?lookup_delete_ne, ?lookup_insert_ne.
Qed.

Lemma covered_enqueue lm key key' ch lm' ch' :
  enqueueWaiter key' lm = (lm', ch') -> covered lm key ch -> covered lm' key ch.
Proof.
  intros [= <- <-] Hc. pose proof (covered_lt _ _ _ Hc) as Hlt. unfold covered in *; simpl.
  rewrite lookup_app_l by done. destruct Hc as [Hc | (Hc & q & Hq & Hin)]; [by left |]. right.
  split; [done |]. destruct (decide (key = key')) as [-> | Hk].
  - exists (q ++ [length (chans lm)]). rewrite lookup_insert_eq, Hq. split; [done |].
    apply elem_of_app. auto.
  - exists q. by rewrite lookup_insert_ne.
Qed.

Lemma enqueue_covered lm key lm' ch :
  enqueueWaiter key lm = (lm', ch) -> covered lm' key ch /\ ch = length (chans lm).
Proof.
  intros [= <- <-]. split; [| done]. right. simpl.
  rewrite list_lookup_middle by done. split; [done |].
  eexists. rewrite lookup_insert_eq. split; [done |]. apply elem_of_app. right. by apply list_elem_of_singleton.
Qed.

Lemma tryAcquire_queues key opts k lm lm' x :
  tryAcquireBody key opts k lm = (lm', x) -> chans lm' = chans lm /\ waitQueues lm' = waitQueues lm.
Proof.
  unfold tryAcquireBody, install. intros H. destruct (o_Renewable opts);
    repeat case_match; by simplify_eq.
Qed.

Definition waiting_on (p : Position) : option nat :=
  match p with PWaiting _ ch => Some ch | _ => None end.

(** Channels of waiting clients are distinct, and each waiter is covered. *)
Definition waiters_inv (s : System) : Prop :=
  (forall i c ch, clients s !! i = Some c -> waiting_on (c_pos c) = Some ch ->
     covered (manager s) (c_key c) ch) /\
  (forall i j ci cj ch, clients s !! i = Some ci -> clients s !! j = Some cj ->
     waiting_on (c_pos ci) = Some ch -> waiting_on (c_pos cj) = Some ch -> i = j).

(** A client step keeps every other waiter covered. *)
Lemma client_step_covers now lm c lm' c' key ch :
  client_step now lm c lm' c' -> waiting_on (c_pos c) <> Some ch ->
  covered lm key ch -> covered lm' key ch.
Proof.
  intros H Hne. destruct H as [a k lm' r Hp Ht _ _ _ | a k lm' r Hp Ht _ _ _ | a lm' ch' Hp He
    | a ch' Hp Hc | a ch' Hp Hc | a t Hp Ht | a t Hp Ht | e Hp | t Hp | t lm' r Hp Hr].
  - apply tryAcquire_queues in Ht as [E1 E2]. by apply covered_ext.
  - apply tryAcquire_queues in Ht as [E1 E2]. by apply covered_ext.
  - by eapply covered_enqueue.
  - rewrite Hp in Hne. simpl in Hne. unfold covered; simpl.
    rewrite list_lookup_insert_ne by congruence. done.
  - rewrite Hp in Hne. simpl in Hne. apply covered_remove. congruence.
  - done.
  - destruct (queues_cancelCall c lm) as [E1 E2]. by apply covered_ext.
  - destruct (queues_cancelCall c (with_stats 0 0 1 0 lm)) as [E1 E2]. by apply covered_ext.
  - destruct (queues_cancelCall c (with_stats 1 0 0 0 lm)) as [E1 E2]. by apply covered_ext.
  - by eapply covered_release.
Qed.

(** A client starts to wait only by enqueueing a fresh channel. *)
Lemma client_step_waits now lm c lm' c' ch :
  client_step now lm c lm' c' -> waiting_on (c_pos c') = Some ch ->
  covered lm' (c_key c') ch /\ ch = length (chans lm).
Proof.
  intros H. destruct H; simpl; try done; [by case_decide |].
  intros [= <-]. by eapply enqueue_covered.
Qed.

Lemma waiters_step s s' : sys_step s s' -> waiters_inv s -> waiters_inv s'.
Proof.
  intros Hstep (Hcov & Huniq). destruct Hstep as [| lm cs rs t i c lm' c' Hi Hcs | | | lm cs rs t i key lm' r _ Hr |];
    unfold waiters_inv in *; simpl in *; try done.
  - split; [intros i c ch [[_ H] | [_ <-]]%lookup_snoc_Some Hw; [eauto | done] |].
    intros i j ci cj ch [[_ Hi] | [_ <-]]%lookup_snoc_Some [[_ Hj] | [_ <-]]%lookup_snoc_Some; try done.
    apply Huniq; done.
  - split.
    + intros j cj ch. rewrite list_lookup_insert_Some. intros [(<- & <- & _) | [Hne Hj]] Hw.
      * by eapply client_step_waits.
      * eapply client_step_covers; eauto.
    + assert (forall j cj ch, j <> i -> cs !! j = Some cj -> waiting_on (c_pos cj) = Some ch ->
        waiting_on (c_pos c') = Some ch -> False) as Hfresh.
      { intros j cj ch _ Hj Hw Hw'. apply (client_step_waits _ _ _ _ _ _ Hcs) in Hw' as [_ ->].
        specialize (Hcov _ _ _ Hj Hw). apply covered_lt in Hcov. lia. }
      intros j1 j2 c1 c2 ch. rewrite !list_lookup_insert_Some.
      intros [(<- & <- & _) | [Hn1 H1]] [(<- & <- & _) | [Hn2 H2]] Hw1 Hw2; eauto; exfalso; eauto.
  - split; [| done]. intros. by eapply covered_cleanup; eauto.
  - split; [| done]. intros j c ch Hj Hw. specialize (Hcov j c ch Hj Hw). revert Hcov.
    unfold renewBody in Hr. apply covered_ext; repeat case_match; by simplify_eq.
Qed.

(** No waiter is forgotten by the queues: in every reachable state a
    waiting client is still in the queue of its key or its wake-up token is in
    its channel, and releasing the key gives a token to every client that
    waits on it. *)
Theorem waiters_not_forgotten timeout retry t s
  (H : rtc sys_step (initial timeout retry t) s) i c ch
  (Hi : clients s !! i = Some c) (Hw : waiting_on (c_pos c) = Some ch) :
  covered (manager s) (c_key c) ch /\
  (is_Some (locks (manager s) !! c_key c) ->
   chans (fst (releaseBody (c_key c) (manager s))) !! ch = Some true).
Proof.
  assert (waiters_inv s) as [Hcov _].
  { assert (waiters_inv (initial timeout retry t)) as H0
      by (split; simpl; intros *; by rewrite ?lookup_nil).
    revert H0. induction H as [| s1 s2 s3 Hs _ IH]; eauto using waiters_step. }
  specialize (Hcov i c ch Hi Hw). split; [done |]. intros [lock Hlock]. unfold releaseBody.
  rewrite Hlock. simpl. set (lm := with_stats 0 1 0 0 _).
  assert (covered lm (c_key c) ch) as Hc.
  { revert Hcov. destruct (queues_cancelContext (renewal lock) (manager s)) as [E1 E2].
    by apply covered_ext. }
  pose proof (covered_lt _ _ _ Hc). unfold notifyWaiters.
  destruct Hc as [Hc | (Hc & q & Hq & Hin)]; [case_match; simpl; auto using notifyAll_true |].
  rewrite Hq. simpl. by apply notifyAll_in.
Qed.

(** ** Termination of [AcquireLockWithOptions] *)

(** Steps a client has left at most, before its call is over. *)
Definition remaining (c : Client) : nat :=
  let n := RetryCount (c_opts c) in
  match c_pos c with
  | PTry a => 4 * (n - a) + 4
  | PEnqueue a => 4 * (n - a) + 3
  | PWaiting a _ => 4 * (n - a) + 2
  | PBackoff a _ => 4 * (n - a) + 5
  | PGiveUp _ | PAcquired _ => 2
  | PInside _ => 1
  | PDone _ => 0
  end.

(** A client that waits has attempts left. *)
Definition attempts_inv (c : Client) : Prop :=
  match c_pos c with
  | PEnqueue a | PWaiting a _ => (a < RetryCount (c_opts c))%nat
  | PTry a | PBackoff a _ => (a <= RetryCount (c_opts c))%nat
  | _ => True
  end.

Lemma client_step_attempts now lm c lm' c' :
  client_step now lm c lm' c' -> attempts_inv c -> attempts_inv c' /\ (remaining c' < remaining c)%nat.
Proof.
  intros H. unfold attempts_inv, remaining.
  destruct H as [? ? ? ? Hp | ? ? ? ? Hp | ? ? ? Hp | ? ? Hp | ? ? Hp | ? ? Hp | ? ? Hp | ? Hp | ? Hp | ? ? ? Hp];
    rewrite Hp; simpl; intros Ha; try (split; [done | lia]); try lia.
  case_decide; simpl; [lia | split; [done | lia]].
Qed.

Lemma attempts_step s s' :
  sys_step s s' -> (forall i c, clients s !! i = Some c -> attempts_inv c) ->
  forall i c, clients s' !! i = Some c -> attempts_inv c.
Proof.
  intros Hstep Hinv. destruct Hstep as [| lm cs rs t i c lm' c' Hi Hcs | | | |]; simpl in *; try done.
  - intros i c [[_ H] | [_ <-]]%lookup_snoc_Some; [eauto | unfold attempts_inv; simpl; lia].
  - intros j cj. rewrite list_lookup_insert_Some. intros [(<- & <- & _) | [_ Hj]]; [| eauto].
    eapply client_step_attempts; eauto.
Qed.

(** An acquisition always comes to an end: each step of a client uses up
    a bounded number of steps, at most four per attempt, and a client whose
    context is done is never blocked: it has a step to take until its call is
    over. *)
Theorem acquisition_terminates timeout retry t s
  (H : rtc sys_step (initial timeout retry t) s) i c (Hi : clients s !! i = Some c) :
  (forall lm' c', client_step (clock s) (manager s) c lm' c' -> (remaining c' < remaining c)%nat) /\
  (remaining c <= 4 * RetryCount (c_opts c) + 5)%nat /\
  (ctx_done c (clock s) -> (forall r, c_pos c <> PDone r) ->
   exists lm' c', client_step (clock s) (manager s) c lm' c').
Proof.
  assert (attempts_inv c) as Hc.
  { assert (forall i c, clients (initial timeout retry t) !! i = Some c -> attempts_inv c) as H0
      by (simpl; intros *; by rewrite lookup_nil).
    revert i c Hi H0. induction H as [| s1 s2 s3 Hs _ IH]; intros i c Hi H0; [eauto |].
    eapply IH; eauto using attempts_step. }
  split_and!.
  - intros lm' c' Hs. by eapply client_step_attempts.
  - unfold remaining. destruct (c_pos c); lia.
  - intros Hdone Hnot. destruct (c_pos c) as [a | a | a ch | a u | e | u | u | r] eqn:Hp.
    + destruct (tryAcquireBody (c_key c) (c_opts c) (mkTryClock (clock s) (clock s) (clock s)) (manager s))
        as [lm' [[] r]] eqn:E; do 2 eexists; [by eapply cs_acquired | by eapply cs_conflict].
    + destruct (enqueueWaiter (c_key c) (manager s)) as [lm' ch] eqn:E. do 2 eexists. by eapply cs_enqueue.
    + do 2 eexists. by eapply cs_wait_timeout.
    + do 2 eexists. by eapply cs_backoff_cancelled.
    + do 2 eexists. by eapply cs_give_up.
    + do 2 eexists. by eapply cs_enter.
    + destruct (releaseBody (c_key c) (manager s)) as [lm' r] eqn:E. do 2 eexists. by eapply cs_leave.
    + by destruct (Hnot r).
Qed.

(** ** [Stop] *)

Lemma releaseAll_held keys lm :
  mutex lm = true -> keys <> [] -> releaseAll keys lm = None.
Proof. intros Hm Hk. destruct keys as [| k keys]; [done |]. simpl. unfold ReleaseLock, with_mutex. by rewrite Hm. Qed.

(** [Stop] takes the manager's mutex and then calls [ReleaseLock], which
    takes it again: it returns when no lock is held, and blocks for ever on its
    own mutex as soon as one is. *)
Theorem stop_blocks_iff_locks_held order lm
  (Hm : mutex lm = false) (Horder : forall k, k ∈ order <-> is_Some (locks lm !! k)) :
  Stop order lm = None <-> locks lm <> ∅.
Proof.
  unfold Stop. rewrite Hm. destruct order as [| k order].
  - simpl. split; [done |]. intros Hne. destruct Hne. apply map_eq. intros k. rewrite lookup_empty.
    apply eq_None_not_Some. rewrite <- Horder. apply not_elem_of_nil.
  - rewrite releaseAll_held by done. split; [| done]. intros _ He.
    destruct (proj1 (Horder k)) as [l Hl]; [apply elem_of_cons; auto |]. by rewrite He in Hl.
Qed.

(** ** When a held lock keeps others out *)

(** After an acquisition of a free key, a second attempt is refused
    exactly when it comes strictly before the acquisition time plus the
    options' [Timeout] and the two are not both shared; so options with a zero
    [Timeout] give a lock that excludes nobody, although the call itself falls
    back to the manager's default timeout. *)
Theorem acquired_lock_excludes key opts k lm lm' r opts2 k2 lm2 ok r2
  (Hfree : locks lm !! key = None)
  (Hfirst : tryAcquireBody key opts k lm = (lm', (true, r)))
  (Hsecond : tryAcquireBody key opts2 k2 lm' = (lm2, (ok, r2))) :
  (ok = false <->
   now_check k2 < now_expires k + o_Timeout opts /\
   ~ (o_LockType opts = LockTypeShared /\ o_LockType opts2 = LockTypeShared)) /\
  (o_Timeout opts = 0 -> now_expires k <= now_check k2 -> ok = true).
Proof.
  unfold tryAcquireBody in Hfirst. rewrite Hfree in Hfirst. injection Hfirst as <- <-.
  unfold tryAcquireBody in Hsecond. rewrite locks_install, lookup_insert_eq in Hsecond.
  unfold newLock at 1 2 in Hsecond. simpl in Hsecond.
  assert (ok = false <->
   now_check k2 < now_expires k + o_Timeout opts /\
   ~ (o_LockType opts = LockTypeShared /\ o_LockType opts2 = LockTypeShared)) as Hiff.
  { unfold time_Before, time_Add in Hsecond.
    destruct (Z.ltb_spec (now_check k2) (now_expires k + o_Timeout opts)) as [Hlt | Hge].
    - destruct (bool_decide_reflect (o_LockType opts2 = LockTypeShared)) as [H2 | H2];
        destruct (bool_decide_reflect (o_LockType opts = LockTypeShared)) as [H1 | H1];
        simpl in Hsecond; injection Hsecond as _ <- _; naive_solver.
    - injection Hsecond as _ <- _. split; [done | lia]. }
  split; [done |]. intros H0 Hle. destruct ok; [done |]. destruct (proj1 Hiff eq_refl) as [Hlt _]. lia.
Qed.

(** ** What can go wrong *)

Definition sampleOpts (timeout : Duration) : LockOptions :=
  mkLockOptions timeout LockTypeExclusive true "default" ∅ 3 (1 * Second).

(** A run of the system given as one choice per step, evaluated. *)
Inductive Choice := ChCall (key : string) (opts : LockOptions) | ChClient (i : nat) | ChClock (t : Time).

(** The step of a client at the current instant, the first rule that applies;
    a blocked client has none. *)
Definition stepClient (now : Time) (lm : LockManager) (c : Client) : option (LockManager * Client) :=
  match c_pos c with
  | PTry a =>
      let '(lm', (ok, r)) := tryAcquireBody (c_key c) (c_opts c) (mkTryClock now now now) lm in
      Some (lm', if ok : bool then started c r (PAcquired now)
                 else move c (if decide (a < RetryCount (c_opts c))%nat then PEnqueue a
                              else PGiveUp ErrAttemptsExhausted))
  | PEnqueue a =>
      let '(lm', ch) := enqueueWaiter (c_key c) lm in Some (lm', move c (PWaiting a ch))
  | PWaiting a ch =>
      if decide (chans lm !! ch = Some true)
      then Some (with_waiters (fun m => m) (fun cs => <[ch := false]> cs) lm,
                 move c (PBackoff (S a) (time_Add now (RetryBackoff (c_opts c)))))
      else if c_deadline c <=? now
      then Some (removeFromWaitQueue (c_key c) ch lm, move c (PGiveUp ErrTimeoutWaiting))
      else None
  | PBackoff a t =>
      if t <=? now then Some (lm, move c (PTry a))
      else if c_deadline c <=? now
      then Some (cancelCall c lm, move c (PDone (Err ErrCancelledBackoff)))
      else None
  | PGiveUp e => Some (cancelCall c (with_stats 0 0 1 0 lm), move c (PDone (Err e)))
  | PAcquired t => Some (cancelCall c (with_stats 1 0 0 0 lm), move c (PInside t))
  | PInside t => Some (fst (releaseBody (c_key c) lm), move c (PDone (Ok tt)))
  | PDone _ => None
  end.

Lemma stepClient_sound now lm c lm' c' :
  stepClient now lm c = Some (lm', c') -> client_step now lm c lm' c'.
Proof.
  unfold stepClient. destruct (c_pos c) as [a | a | a ch | a u | e | u | u | r] eqn:Hp.
  - destruct (tryAcquireBody _ _ _ _) as [lm1 [ok r]] eqn:E. destruct ok; intros [= <- <-];
      [by eapply cs_acquired | by eapply cs_conflict].
  - destruct (enqueueWaiter _ _) as [lm1 ch] eqn:E. intros [= <- <-]. by eapply cs_enqueue.
  - case_decide; [intros [= <- <-]; by eapply cs_woken |].
    destruct (Z.leb_spec (c_deadline c) now); [| done]. intros [= <- <-]. by eapply cs_wait_timeout.
  - destruct (Z.leb_spec u now); [intros [= <- <-]; by eapply cs_backoff_over |].
    destruct (Z.leb_spec (c_deadline c) now); [| done]. intros [= <- <-]. by eapply cs_backoff_cancelled.
  - intros [= <- <-]. by eapply cs_give_up.
  - intros [= <- <-]. by eapply cs_enter.
  - intros [= <- <-]. eapply cs_leave; [done | apply surjective_pairing].
  - done.
Qed.

Definition runChoice (ch : Choice) (s : System) : option System :=
  match ch with
  | ChCall key opts =>
      Some (mkSystem (manager s) (clients s ++ [mkClient key opts
        (Z.min (clock s + 1000 * Second) (time_Add (clock s)
           (if o_Timeout opts =? 0 then defaultTimeout (manager s) else o_Timeout opts))) [] (PTry 0)])
        (renewers s) (clock s))
  | ChClient i =>
      match clients s !! i with
      | None => None
      | Some c =>
          match stepClient (clock s) (manager s) c with
          | None => None
          | Some (lm', c') =>
              Some (mkSystem lm' (<[i := c']> (clients s)) (startedRenewer c c' ++ renewers s) (clock s))
          end
      end
  | ChClock t => if clock s <=? t then Some (mkSystem (manager s) (clients s) (renewers s) t) else None
  end.

Fixpoint runChoices (chs : list Choice) (s : System) : option System :=
  match chs with
  | [] => Some s
  | ch :: rest => match runChoice ch s with None => None | Some s' => runChoices rest s' end
  end.

Lemma runChoices_sound chs s s' : runChoices chs s = Some s' -> rtc sys_step s s'.
Proof.
  revert s. induction chs as [| ch chs IH]; intros s; simpl; [intros [= <-]; constructor |].
  destruct (runChoice ch s) as [s1 |] eqn:E; [| done]. intros H. apply rtc_l with s1; [| auto].
  destruct s as [lm cs rs t]. unfold runChoice in E; simpl in E. destruct ch as [key opts | i | t'].
  - injection E as <-. constructor.
  - destruct (cs !! i) as [c |] eqn:Ei; [| done].
    destruct (stepClient t lm c) as [[lm' c'] |] eqn:Es; [| done]. injection E as <-.
    apply sys_client; [done | by apply stepClient_sound].
  - destruct (Z.leb_spec t t'); [| done]. injection E as <-. by constructor.
Qed.

(** The first client holds the lock past its expiry; the second enters; the
    first one's release frees the second one's lock; the third enters. *)
Definition lateRelease : list Choice :=
  [ChCall "k" (sampleOpts (30 * Second)); ChClient 0; ChClient 0; ChClock (31 * Second);
   ChCall "k" (sampleOpts (30 * Second)); ChClient 1; ChClient 1;
   ChClient 0;
   ChCall "k" (sampleOpts (30 * Second)); ChClient 2; ChClient 2].

(** The second client fails its first attempt, the first one releases, and only
    then does the second enqueue itself. *)
Definition missedRelease : list Choice :=
  [ChCall "k" (sampleOpts (30 * Second)); ChClient 0; ChClient 0;
   ChCall "k" (sampleOpts (30 * Second)); ChClient 1;
   ChClient 0; ChClient 1].

Definition finalState (chs : list Choice) : System :=
  default (initial 0 0 0) (runChoices chs (initial (30 * Second) Second 0)).

Lemma finalState_reachable chs :
  is_Some (runChoices chs (initial (30 * Second) Second 0)) ->
  rtc sys_step (initial (30 * Second) Second 0) (finalState chs).
Proof. intros [s Hs]. apply (runChoices_sound chs). unfold finalState. by rewrite Hs. Qed.

Definition finalClient (chs : list Choice) (i : nat) : Client :=
  default (mkClient "" DefaultLockOptions 0 [] (PTry 0)) (clients (finalState chs) !! i).

(** One slow critical section breaks mutual exclusion for others: because
    [ReleaseLock] does not check the owner, a client that overran its lock
    frees the lock of its successor, and two clients that are both within
    their own time are in the critical section of the same key. *)
Theorem late_release_breaks_exclusion :
  exists s ci cj, rtc sys_step (initial (30 * Second) Second 0) s /\
    clients s !! 1%nat = Some ci /\ clients s !! 2%nat = Some cj /\ c_key ci = c_key cj /\
    c_pos ci = PInside (clock s) /\ c_pos cj = PInside (clock s) /\
    0 < o_Timeout (c_opts ci) /\ 0 < o_Timeout (c_opts cj).
Proof.
  exists (finalState lateRelease), (finalClient lateRelease 1), (finalClient lateRelease 2).
  split; [apply finalState_reachable; vm_compute; eauto |]. split_and!; by vm_compute.
Qed.

(** A waiter without a token and with time left has no step to take. *)
Lemma blocked_waiter now lm c a ch :
  c_pos c = PWaiting a ch -> chans lm !! ch = Some false -> now < c_deadline c ->
  forall lm' c', ~ client_step now lm c lm' c'.
Proof.
  intros Hpos Hch Hnow lm' c' H. unfold ctx_done in *.
  inversion H; unfold ctx_done in *; try congruence.
  replace ch0 with ch in * by congruence. lia.
Qed.

(** A wake-up can be lost: a client whose attempt fails just before the
    lock is released enqueues itself on a key nobody holds, has no step to take
    before its deadline, and then reports a timeout although the lock was
    free. *)
Theorem lost_wakeup :
  exists s c, rtc sys_step (initial (30 * Second) Second 0) s /\
    clients s !! 1%nat = Some c /\ is_Some (waiting_on (c_pos c)) /\
    locks (manager s) !! c_key c = None /\ clock s < c_deadline c /\
    (forall lm' c', ~ client_step (clock s) (manager s) c lm' c') /\
    (forall t, c_deadline c <= t -> exists lm',
       client_step t (manager s) c lm' (move c (PGiveUp ErrTimeoutWaiting))).
Proof.
  exists (finalState missedRelease), (finalClient missedRelease 1).
  split; [apply finalState_reachable; vm_compute; eauto |].
  split; [by vm_compute |]. split; [vm_compute; eauto |]. split; [by vm_compute |].
  split; [by vm_compute |].
  assert (c_pos (finalClient missedRelease 1) = PWaiting 0 0) as Hpos by (by vm_compute).
  split.
  - apply (blocked_waiter _ _ _ 0 0); [done | by vm_compute | by vm_compute].
  - intros t Ht. eexists. by apply (cs_wait_timeout _ _ _ 0 0).
Qed.

(** ** The theorems at concrete systems *)

Lemma critical_sections_exclusive_witness :
  exists s c, rtc timely_step (initial Second Second 0) s /\
    clients s !! 0%nat = Some c /\ holding (c_pos c) = true /\ 0%nat = 0%nat.
Proof.
  set (k := mkTryClock 0 0 0).
  set (o := sampleOpts Second).
  set (lm0 := NewLockManager Second Second).
  set (c0 := mkClient "k" o (Z.min Second (time_Add 0 Second)) [] (PTry 0)).
  set (c1 := started c0 (Some 0%nat) (PAcquired 0)).
  set (lm1 := install "k" o k lm0).
  assert (rtc timely_step (initial Second Second 0)
    (mkSystem lm1 [c1] (startedRenewer c0 c1 ++ []) 0)) as H.
  { eapply rtc_l; [| eapply rtc_once].
    - split; [apply (sys_call lm0 [] [] 0 "k" o Second) |]. split; [intros i c l Hi; done |].
      intros [|] c Hc; simplify_eq/=; done.
    - split; [apply (sys_client lm0 [c0] [] 0 0 c0 lm1 c1 eq_refl) |].
      + by apply (cs_acquired _ _ _ 0 k lm1 (Some 0%nat)).
      + split; [intros [|] c l Hi Hh; simplify_eq/=; done |].
        intros [|] c Hc; simplify_eq/=; done. }
  eexists _, c1. split; [exact H |]. split; [done |]. split; [done |].
  exact (critical_sections_exclusive Second Second 0 _ H 0 0 c1 c1 eq_refl eq_refl eq_refl eq_refl eq_refl).
Defined.

Lemma waiters_not_forgotten_witness :
  covered (manager (finalState missedRelease)) "k" 0.
Proof.
  apply (waiters_not_forgotten (30 * Second) Second 0 (finalState missedRelease)
    (finalState_reachable missedRelease ltac:(vm_compute; eauto)) 1
    (finalClient missedRelease 1) 0); by vm_compute.
Defined.

Lemma acquisition_terminates_witness :
  (remaining (finalClient missedRelease 1) <= 4 * 3 + 5)%nat.
Proof.
  apply (acquisition_terminates (30 * Second) Second 0 (finalState missedRelease)
    (finalState_reachable missedRelease ltac:(vm_compute; eauto)) 1
    (finalClient missedRelease 1)); by vm_compute.
Defined.

Lemma stop_blocks_iff_locks_held_witness :
  Stop ["k"] (install "k" (sampleOpts Second) (mkTryClock 0 0 0) (NewLockManager Second Second)) = None.
Proof.
  apply (stop_blocks_iff_locks_held ["k"]); [done | |].
  - intros k. rewrite list_elem_of_singleton, locks_install. simpl.
    rewrite lookup_insert_is_Some', lookup_empty. split; [auto |].
    intros [-> | [? ?]]; done.
  - rewrite locks_install. apply insert_non_empty.
Defined.

Lemma acquired_lock_excludes_witness :
  let lm := NewLockManager Second Second in
  let lm' := install "k" (sampleOpts 0) (mkTryClock 5 5 5) lm in
  fst (snd (tryAcquireBody "k" (sampleOpts Second) (mkTryClock 5 5 5) lm')) = true.
Proof.
  intros lm lm'. destruct (tryAcquireBody "k" (sampleOpts Second) (mkTryClock 5 5 5) lm') as [lm2 [ok r2]] eqn:E.
  exact (proj2 (acquired_lock_excludes "k" (sampleOpts 0) (mkTryClock 5 5 5) lm lm' (Some 0%nat)
    (sampleOpts Second) (mkTryClock 5 5 5) lm2 ok r2 eq_refl eq_refl E) eq_refl (Z.le_refl 5)).
Defined.
