(* ===== verification/GoHeap.v ===== *)
(** * GoHeap: the algorithms of the package container/heap

    [heap.Push], [heap.Pop] and [heap.Remove] over Go's [heap.Interface],
    which is the class [HeapInterface] here: a client gives [Less] and [Swap]
    on positions and [Push]/[Pop] at the end of its array.  [HeapLaws] is
    what the client promises; against it the operations keep the heap order
    and the collection of elements.  [up] and [down] recurse on fuel: a
    position for [up], the array's length for [down], which the proofs show
    to be enough. *)

From S2P Require Import Prelude.

(** ** The interface *)

Class HeapInterface (S A : Type) := {
  Len : S -> nat;
  Less : S -> nat -> nat -> bool;
  Swap : S -> nat -> nat -> S;
  Push : S -> A -> S;
  Pop : S -> S * option A
}.

(** ** The algorithms *)

Definition parent (j : nat) : nat := (j - 1) / 2.

Section algorithms.
Context {S A : Type} `{!HeapInterface S A}.

Fixpoint up (fuel : nat) (s : S) (j : nat) : S :=
  match fuel with
  | O => s
  | Datatypes.S fuel =>
      let i := parent j in
      if (i =? j)%nat || negb (Less s j i) then s
      else up fuel (Swap s i j) i
  end.

(** The Boolean of [down] says whether the element moved. *)
Fixpoint down (fuel : nat) (s : S) (i n : nat) : S * bool :=
  match fuel with
  | O => (s, false)
  | Datatypes.S fuel =>
      let j1 := (2 * i + 1)%nat in
      if (n <=? j1)%nat then (s, false)
      else
        let j2 := (j1 + 1)%nat in
        let j := if (j2 <? n)%nat && Less s j2 j1 then j2 else j1 in
        if negb (Less s j i) then (s, false)
        else (fst (down fuel (Swap s i j) j n), true)
  end.

Definition heap_Push (s : S) (x : A) : S :=
  let s := Push s x in
  up (Len s) s (Len s - 1).

(** [heap.Pop] returns the element of the final [Pop]. *)
Definition heap_Pop (s : S) : S * option A :=
  let n := (Len s - 1)%nat in
  let s := Swap s 0 n in
  Pop (fst (down (Len s) s 0 n)).

Definition heap_Remove (s : S) (i : nat) : S * option A :=
  let n := (Len s - 1)%nat in
  if (n =? i)%nat then Pop s
  else
    let s := Swap s i n in
    let '(s, moved) := down (Len s) s i n in
    Pop (if moved : bool then s else up (Len s) s i).

End algorithms.

(** ** What a client promises *)

(** [key s i] is what [Less] compares at position [i]; [elems s] the array. *)
Class HeapLaws (S A K : Type) `{!HeapInterface S A} := {
  elems : S -> list A;
  key : S -> nat -> K;
  ltk : K -> K -> bool;
  ltk_irrefl : forall a, ltk a a = false;
  ltk_trans : forall a b c, ltk a b = true -> ltk b c = true -> ltk a c = true;
  ltk_ntrans : forall a b c, ltk a b = false -> ltk b c = false -> ltk a c = false;
  Len_elems : forall s, Len s = length (elems s);
  Less_key : forall s i j, (i < Len s)%nat -> (j < Len s)%nat -> Less s i j = ltk (key s i) (key s j);
  Swap_key : forall s i j x, (i < Len s)%nat -> (j < Len s)%nat -> (x < Len s)%nat ->
    key (Swap s i j) x =
      if (x =? i)%nat then key s j else if (x =? j)%nat then key s i else key s x;
  Swap_elems : forall s i j, (i < Len s)%nat -> (j < Len s)%nat -> elems (Swap s i j) ≡ₚ elems s
}.

(** The heap order on the first [n] positions. *)
Definition heap_ok {S A K} `{HeapLaws S A K} (s : S) (n : nat) : Prop :=
  forall i, (0 < i < n)%nat -> ltk (key s i) (key s (parent i)) = false.

Lemma parent_lt j : (0 < j)%nat -> (parent j < j)%nat.
Proof. intros H. unfold parent. apply Nat.Div0.div_lt_upper_bound. lia. Qed.

Lemma parent_eq j : (parent j =? j)%nat = (j =? 0)%nat.
Proof.
  destruct (Nat.eqb_spec j 0) as [-> |]; [done |]. pose proof (parent_lt j ltac:(lia)).
  by apply Nat.eqb_neq; lia.
Qed.

Lemma parent_child c i : (0 < c)%nat -> parent c = i <-> c = (2 * i + 1)%nat \/ c = (2 * i + 2)%nat.
Proof.
  intros Hc. unfold parent. split.
  - intros <-. pose proof (Nat.div_mod_eq (c - 1) 2). pose proof (Nat.mod_upper_bound (c - 1) 2). lia.
  - intros [-> | ->].
    + replace (2 * i + 1 - 1)%nat with (i * 2)%nat by lia. by rewrite Nat.div_mul.
    + replace (2 * i + 2 - 1)%nat with (1 + i * 2)%nat by lia. by rewrite Nat.div_add.
Qed.

Section laws.
Context {S A K : Type} `{!HeapInterface S A} `{!HeapLaws S A K}.

Implicit Types s : S.

Lemma Len_Swap s i j : (i < Len s)%nat -> (j < Len s)%nat -> Len (Swap s i j) = Len s.
Proof. intros Hi Hj. rewrite !Len_elems. apply Permutation_length. by apply Swap_elems. Qed.

Lemma ltk_asym (a b : K) : ltk (S := S) a b = true -> ltk (S := S) b a = false.
Proof.
  intros H. destruct (ltk b a) eqn:E; [| done]. 
  pose proof (ltk_trans (S := S) a b a H E) as Ht. by rewrite (ltk_irrefl (S := S)) in Ht.
Qed.

(** *** Sequences of swaps

    [up] and [down] change the state by swaps only, so whatever swaps keep
    they keep. *)
Definition one_swap s s' : Prop := exists i j, (i < Len s)%nat /\ (j < Len s)%nat /\ s' = Swap s i j.
Definition swaps : S -> S -> Prop := rtc one_swap.

Lemma swaps_one s i j : (i < Len s)%nat -> (j < Len s)%nat -> swaps s (Swap s i j).
Proof. intros Hi Hj. apply rtc_once. by exists i, j. Qed.

Lemma swaps_Len s s' : swaps s s' -> Len s' = Len s.
Proof.
  induction 1 as [| s1 s2 s3 (i & j & Hi & Hj & ->) _ IH]; [done |]. rewrite IH. by apply Len_Swap.
Qed.

Lemma swaps_elems s s' : swaps s s' -> elems s' ≡ₚ elems s.
Proof.
  induction 1 as [| s1 s2 s3 (i & j & Hi & Hj & ->) _ IH]; [done |]. rewrite IH. by apply Swap_elems.
Qed.

Lemma swaps_keep (P : S -> Prop) s s' :
  (forall s i j, (i < Len s)%nat -> (j < Len s)%nat -> P s -> P (Swap s i j)) ->
  swaps s s' -> P s -> P s'.
Proof. intros HP. induction 1 as [| s1 s2 s3 (i & j & Hi & Hj & ->) _ IH]; auto. Qed.

Lemma up_swaps fuel s j : (j < Len s)%nat -> swaps s (up fuel s j).
Proof.
  revert s j. induction fuel as [| fuel IH]; intros s j Hj; [constructor |]. cbn [up].
  rewrite parent_eq. destruct (Nat.eqb_spec j 0); simpl; [constructor |].
  destruct (Less s j (parent j)); simpl; [| constructor]. pose proof (parent_lt j ltac:(lia)).
  etrans; [apply (swaps_one s (parent j) j); lia |]. apply IH. rewrite Len_Swap; lia.
Qed.

Lemma down_swaps fuel s i n : (i < n <= Len s)%nat -> swaps s (fst (down fuel s i n)).
Proof.
  revert s i. induction fuel as [| fuel IH]; intros s i Hn; [constructor |]. cbn [down].
  destruct (Nat.leb_spec n (2 * i + 1)); [constructor |].
  set (j := if _ && _ then _ else _).
  assert (i < j < n)%nat as Hj.
  { unfold j. destruct (Nat.ltb_spec (2 * i + 1 + 1) n); simpl; [destruct (Less s _ _) |]; lia. }
  destruct (Less s j i); simpl; [| constructor].
  etrans; [apply (swaps_one s i j); lia |]. apply IH. rewrite Len_Swap; lia.
Qed.

(** *** The root is a best element *)

Lemma heap_root s n i : heap_ok s n -> (i < n)%nat -> ltk (key s i) (key s 0) = false.
Proof.
  intros Hok. induction i as [i IH] using lt_wf_ind. intros Hi.
  destruct (decide (i = 0)%nat) as [-> |]; [apply ltk_irrefl |].
  eapply ltk_ntrans; [apply Hok; lia | apply IH]; pose proof (parent_lt i); lia.
Qed.

(** *** Sifting up *)

(** Heap order except at [j], whose children respect its parent. *)
Definition up_pre s n j : Prop :=
  (forall i, (0 < i < n)%nat -> i <> j -> ltk (key s i) (key s (parent i)) = false) /\
  (forall i, (0 < i < n)%nat -> parent i = j -> (0 < j)%nat ->
     ltk (key s i) (key s (parent j)) = false).

Lemma up_spec fuel s j n :
  (j < n <= Len s)%nat -> (j < fuel)%nat -> up_pre s n j ->
  heap_ok (up fuel s j) n /\ elems (up fuel s j) ≡ₚ elems s /\
  (forall x, (n <= x < Len s)%nat -> key (up fuel s j) x = key s x).
Proof.
  revert s j. induction fuel as [| fuel IH]; intros s j Hj Hfuel [Hother Hchild]; [lia |].
  cbn [up]. rewrite parent_eq. destruct (Nat.eqb_spec j 0) as [-> | Hj0]; simpl.
  { split; [| done]. intros i Hi. apply Hother; lia. }
  pose proof (parent_lt j ltac:(lia)) as Hp. rewrite Less_key by lia.
  destruct (ltk (key s j) (key s (parent j))) eqn:E; simpl.
  - set (p := parent j) in *. set (s' := Swap s p j).
    assert (Len s' = Len s) as Hlen by (apply Len_Swap; lia).
    assert (forall x, (x < Len s)%nat -> key s' x =
      if (x =? p)%nat then key s j else if (x =? j)%nat then key s p else key s x) as Hkey
      by (intros x Hx; apply Swap_key; lia).
    destruct (IH s' p) as (IH1 & IH2 & IH3); [lia | lia | |].
    + split.
      * intros i Hi Hip. pose proof (parent_lt i ltac:(lia)). rewrite !Hkey by lia.
        destruct (Nat.eqb_spec i p); [lia |].
        destruct (Nat.eqb_spec i j) as [-> | Hij].
        -- fold p. rewrite Nat.eqb_refl. by apply ltk_asym.
        -- destruct (Nat.eqb_spec (parent i) p) as [Epp | Hpp].
           ++ eapply ltk_ntrans; [apply Hother; [lia | done] |]. rewrite Epp. by apply ltk_asym.
           ++ destruct (Nat.eqb_spec (parent i) j) as [Epj | Hpj]; [by apply Hchild; [lia | | lia] |].
              by apply Hother.
      * intros i Hi Epi Hp0. pose proof (parent_lt p ltac:(lia)) as Hpp.
        assert (ltk (key s p) (key s (parent p)) = false) as Hpg by (apply Hother; lia).
        rewrite !Hkey by lia.
        destruct (Nat.eqb_spec (parent p) p); [lia |]. destruct (Nat.eqb_spec (parent p) j); [lia |].
        destruct (Nat.eqb_spec i p) as [-> | Hip]; [lia |].
        destruct (Nat.eqb_spec i j) as [-> | Hij]; [done |].
        eapply ltk_ntrans; [apply Hother; [lia | done] |]. by rewrite Epi.
    + split; [done |]. split; [rewrite IH2; apply Swap_elems; lia |].
      intros x Hx. rewrite IH3 by lia. rewrite Hkey by lia.
      destruct (Nat.eqb_spec x p); [lia |]. by destruct (Nat.eqb_spec x j); [lia |].
  - split; [| done]. intros i Hi. destruct (decide (i = j)) as [-> |]; [done | by apply Hother].
Qed.


(** *** Sifting down *)

(** Heap order except between [i] and its children, which respect its
    parent. *)
Definition down_pre s n i : Prop :=
  (forall c, (0 < c < n)%nat -> parent c <> i -> ltk (key s c) (key s (parent c)) = false) /\
  (forall c, (0 < c < n)%nat -> parent c = i -> (0 < i)%nat ->
     ltk (key s c) (key s (parent i)) = false).

(** The child [down] compares with: none of its siblings is better. *)
Definition best_child s i n : nat :=
  let j1 := (2 * i + 1)%nat in
  if (j1 + 1 <? n)%nat && Less s (j1 + 1) j1 then (j1 + 1)%nat else j1.

Lemma best_child_spec s i n :
  (2 * i + 1 < n)%nat -> (n <= Len s)%nat ->
  let j := best_child s i n in
  (i < j < n)%nat /\ parent j = i /\
  forall c, (0 < c < n)%nat -> parent c = i -> ltk (key s c) (key s j) = false.
Proof.
  intros Hi Hn j. unfold j, best_child.
  destruct (Nat.ltb_spec (2 * i + 1 + 1) n) as [Hlt | Hge]; simpl.
  - rewrite Less_key by lia. destruct (ltk _ _) eqn:E.
    + split_and!; [lia | lia | apply parent_child; lia |]. intros c Hc Hpc.
      apply parent_child in Hpc; [| lia]. destruct Hpc as [-> | ->].
      * by apply ltk_asym.
      * replace (2 * i + 2)%nat with (2 * i + 1 + 1)%nat by lia. apply ltk_irrefl.
    + split_and!; [lia | lia | apply parent_child; lia |]. intros c Hc Hpc.
      apply parent_child in Hpc; [| lia]. destruct Hpc as [-> | ->]; [apply ltk_irrefl |].
      by replace (2 * i + 2)%nat with (2 * i + 1 + 1)%nat by lia.
  - split_and!; [lia | lia | apply parent_child; lia |]. intros c Hc Hpc.
    apply parent_child in Hpc; [| lia]. destruct Hpc as [-> | ->]; [apply ltk_irrefl | lia].
Qed.

(** After one swap with the best child, the disorder is at the child. *)
Lemma down_pre_swap s n i :
  let j := best_child s i n in
  (2 * i + 1 < n)%nat -> (n <= Len s)%nat ->
  (forall c, (0 < c < n)%nat -> parent c <> i -> c <> i -> ltk (key s c) (key s (parent c)) = false) ->
  (forall c, (0 < c < n)%nat -> parent c = i -> (0 < i)%nat -> ltk (key s c) (key s (parent i)) = false) ->
  ltk (key s j) (key s i) = true ->
  down_pre (Swap s i j) n j.
Proof.
  intros j Hi Hn Hok Hgp Hlt. destruct (best_child_spec s i n Hi Hn) as (Hj & Hpj & Hbest).
  fold j in Hj, Hpj, Hbest.
  assert (forall x, (x < Len s)%nat -> key (Swap s i j) x =
    if (x =? i)%nat then key s j else if (x =? j)%nat then key s i else key s x) as Hkey
    by (intros x Hx; apply Swap_key; lia).
  split.
  - intros c Hc Hpc. pose proof (parent_lt c ltac:(lia)). rewrite !Hkey by lia.
    destruct (Nat.eqb_spec c i) as [-> | Hci].
    + destruct (Nat.eqb_spec (parent i) i); [lia |]. destruct (Nat.eqb_spec (parent i) j); [lia |].
      apply Hgp; [lia | done | lia].
    + destruct (Nat.eqb_spec c j) as [-> | Hcj].
      * rewrite Hpj, Nat.eqb_refl. by apply ltk_asym.
      * destruct (Nat.eqb_spec (parent c) i) as [Hpi | Hpi]; [by apply Hbest |].
        destruct (Nat.eqb_spec (parent c) j); [done |]. by apply Hok.
  - intros c Hc Hpc Hj0. rewrite Hpj. pose proof (parent_lt c ltac:(lia)). rewrite !Hkey by lia.
    rewrite Nat.eqb_refl.
    destruct (Nat.eqb_spec c i); [lia |]. destruct (Nat.eqb_spec c j); [lia |].
    rewrite <- Hpc. apply Hok; lia.
Qed.

Lemma down_step fuel s i n :
  down (Datatypes.S fuel) s i n =
  if (n <=? 2 * i + 1)%nat then (s, false)
  else if negb (Less s (best_child s i n) i) then (s, false)
  else (fst (down fuel (Swap s i (best_child s i n)) (best_child s i n) n), true).
Proof. done. Qed.

Lemma down_spec fuel s i n :
  (n <= Len s)%nat -> (n - i <= fuel)%nat -> down_pre s n i ->
  heap_ok (fst (down fuel s i n)) n /\ elems (fst (down fuel s i n)) ≡ₚ elems s /\
  (forall x, (n <= x < Len s)%nat -> key (fst (down fuel s i n)) x = key s x).
Proof.
  revert s i. induction fuel as [| fuel IH]; intros s i Hn Hfuel [Hok Hgp].
  { split; [| done]. intros c Hc. simpl. apply Hok; [lia |]. pose proof (parent_lt c). lia. }
  rewrite down_step. destruct (Nat.leb_spec n (2 * i + 1)) as [Hle | Hlt]; simpl.
  { split; [| done]. intros c Hc. apply Hok; [lia |]. intros Hpc. apply parent_child in Hpc; lia. }
  pose proof (best_child_spec s i n ltac:(lia) ltac:(lia)) as (Hj & Hpj & Hbest).
  pose proof (down_pre_swap s n i ltac:(lia) ltac:(lia)) as Hswap. cbv zeta in *.
  set (j := best_child s i n) in *.
  rewrite Less_key by lia. destruct (ltk (key s j) (key s i)) eqn:E; simpl.
  - assert (Len (Swap s i j) = Len s) as Hlen by (apply Len_Swap; lia).
    destruct (IH (Swap s i j) j) as (IH1 & IH2 & IH3); [lia | lia | |].
    { apply Hswap; [| | done]; intros c Hc; [intros Hpc _ | intros Hpc Hi0]; auto. }
    split; [done |]. split; [rewrite IH2; apply Swap_elems; lia |].
    intros x Hx. rewrite IH3, Swap_key by lia.
    destruct (Nat.eqb_spec x i); [lia |]. by destruct (Nat.eqb_spec x j); [lia |].
  - split; [| done]. intros c Hc. destruct (decide (parent c = i)) as [Hpc | Hpc]; [| by apply Hok].
    rewrite Hpc. eapply ltk_ntrans; [by apply Hbest | done].
Qed.

(** *** The operations *)

Lemma heap_ok_le s n m : (m <= n)%nat -> heap_ok s n -> heap_ok s m.
Proof. intros Hm H i Hi. apply H. lia. Qed.

(** [Remove] up to its final [Pop]: the removed position is last, and the
    rest is in heap order. *)
Lemma heap_Remove_spec s i :
  (i < Len s)%nat -> heap_ok s (Len s) ->
  exists s', heap_Remove s i = Pop s' /\ swaps s s' /\
    heap_ok s' (Len s - 1) /\ key s' (Len s - 1)%nat = key s i.
Proof.
  intros Hi Hok. unfold heap_Remove. set (n := (Len s - 1)%nat).
  destruct (Nat.eqb_spec n i) as [<- | Hne].
  { exists s. split_and!; try done. eapply heap_ok_le; [| done]. lia. }
  set (s1 := Swap s i n).
  assert (Len s1 = Len s) as Hlen by (apply Len_Swap; lia).
  assert (swaps s s1) as Hel by (apply swaps_one; lia).
  assert (forall x, (x < Len s)%nat -> key s1 x =
    if (x =? i)%nat then key s n else if (x =? n)%nat then key s i else key s x) as Hkey
    by (intros x Hx; apply Swap_key; lia).
  assert (forall c, (0 < c < n)%nat -> parent c <> i -> c <> i ->
    ltk (key s1 c) (key s1 (parent c)) = false) as H1.
  { intros c Hc Hpc Hci. pose proof (parent_lt c ltac:(lia)). rewrite !Hkey by lia.
    destruct (Nat.eqb_spec c i); [lia |]. destruct (Nat.eqb_spec c n); [lia |].
    destruct (Nat.eqb_spec (parent c) i); [lia |]. destruct (Nat.eqb_spec (parent c) n); [lia |].
    apply Hok. lia. }
  assert (forall c, (0 < c < n)%nat -> parent c = i -> (0 < i)%nat ->
    ltk (key s1 c) (key s1 (parent i)) = false) as H2.
  { intros c Hc Hpc Hi0. pose proof (parent_lt c ltac:(lia)). pose proof (parent_lt i Hi0).
    rewrite !Hkey by lia.
    destruct (Nat.eqb_spec c i); [lia |]. destruct (Nat.eqb_spec c n); [lia |].
    destruct (Nat.eqb_spec (parent i) i); [lia |]. destruct (Nat.eqb_spec (parent i) n); [lia |].
    eapply ltk_ntrans; [apply Hok; lia |]. rewrite Hpc. apply Hok. lia. }
  assert (key s1 n = key s i) as Hlast.
  { rewrite Hkey by lia. destruct (Nat.eqb_spec n i); [lia |]. by rewrite Nat.eqb_refl. }
  rewrite Hlen. destruct (Len s) as [| m] eqn:Em; [lia |].
  rewrite down_step.
  assert (up_pre s1 n i -> exists s', Pop (up (Len s1) s1 i) = Pop s' /\ swaps s s' /\
    heap_ok s' n /\ key s' n = key s i) as Hup.
  { intros Hpre. destruct (up_spec (Len s1) s1 i n) as (U1 & _ & U3); [lia | lia | done |].
    eexists. split; [done |]. split_and!; [| done | by rewrite U3 by lia].
    etrans; [done |]. apply up_swaps. lia. }
  destruct (Nat.leb_spec n (2 * i + 1)) as [Hle | Hlt].
  { replace (Datatypes.S m) with (Len s1) by lia. apply Hup. split; [| done].
    intros c Hc Hci. apply H1; [lia | | done]. intros Hpc. apply parent_child in Hpc; lia. }
  pose proof (best_child_spec s1 i n ltac:(lia) ltac:(lia)) as (Hj & Hpj & Hbest). cbv zeta in *.
  pose proof (down_pre_swap s1 n i ltac:(lia) ltac:(lia) H1 H2) as Hswap. cbv zeta in *.
  set (j := best_child s1 i n) in *. rewrite Less_key by lia.
  destruct (ltk (key s1 j) (key s1 i)) eqn:E; simpl.
  - specialize (Hswap eq_refl).
    assert (Len (Swap s1 i j) = Len s1) as Hlen' by (apply Len_Swap; lia).
    destruct (down_spec m (Swap s1 i j) j n) as (D1 & D2 & D3); [lia | lia | done |].
    eexists. split; [done |]. split_and!; [| done |].
    + etrans; [done |]. etrans; [apply (swaps_one s1 i j); lia |]. apply down_swaps. lia.
    + rewrite D3, Swap_key by lia. destruct (Nat.eqb_spec n i); [lia |].
      destruct (Nat.eqb_spec n j); [lia | done].
  - replace (Datatypes.S m) with (Len s1) by lia. apply Hup. split; [| done].
    intros c Hc Hci. destruct (decide (parent c = i)) as [Hpc | Hpc]; [| by apply H1].
    rewrite Hpc. eapply ltk_ntrans; [by apply Hbest | done].
Qed.

(** [Pop] of the root. *)
Lemma heap_Pop_spec s : (0 < Len s)%nat -> heap_ok s (Len s) ->
  exists s', heap_Pop s = Pop s' /\ swaps s s' /\
    heap_ok s' (Len s - 1) /\ key s' (Len s - 1)%nat = key s 0.
Proof.
  intros Hl Hok. unfold heap_Pop. set (n := (Len s - 1)%nat). set (s1 := Swap s 0 n).
  assert (Len s1 = Len s) as Hlen by (apply Len_Swap; lia).
  assert (forall x, (x < Len s)%nat -> key s1 x =
    if (x =? 0)%nat then key s n else if (x =? n)%nat then key s 0 else key s x) as Hkey
    by (intros x Hx; apply Swap_key; lia).
  destruct (down_spec (Len s1) s1 0 n) as (D1 & D2 & D3); [lia | lia | |].
  { split; [| lia]. intros c Hc Hpc. pose proof (parent_lt c ltac:(lia)). rewrite !Hkey by lia.
    destruct (Nat.eqb_spec c 0); [lia |]. destruct (Nat.eqb_spec c n); [lia |].
    destruct (Nat.eqb_spec (parent c) 0); [lia |]. destruct (Nat.eqb_spec (parent c) n); [lia |].
    apply Hok. lia. }
  eexists. split; [done |]. split_and!; [| done |].
  - etrans; [apply (swaps_one s 0 n); lia |]. fold s1.
    destruct (decide (n = 0)%nat) as [En |].
    + rewrite Hlen. destruct (Len s) as [| m]; [lia |]. rewrite down_step.
      destruct (Nat.leb_spec n (2 * 0 + 1)); [constructor | lia].
    + apply down_swaps. lia.
  - rewrite D3 by lia. rewrite Hkey by lia. destruct (Nat.eqb_spec n 0) as [E0 |]; [by rewrite E0 |].
    by rewrite Nat.eqb_refl.
Qed.

(** [heap.Push] on a client whose [Push] appends the new element. *)
Lemma heap_Push_spec s x :
  Len (Push s x) = Datatypes.S (Len s) ->
  (forall i, (i < Len s)%nat -> key (Push s x) i = key s i) ->
  heap_ok s (Len s) ->
  heap_ok (heap_Push s x) (Datatypes.S (Len s)) /\ swaps (Push s x) (heap_Push s x).
Proof.
  intros Hlen Hkey Hok. unfold heap_Push. rewrite Hlen.
  replace (Datatypes.S (Len s) - 1)%nat with (Len s) by lia.
  destruct (up_spec (Datatypes.S (Len s)) (Push s x) (Len s) (Datatypes.S (Len s))) as (U1 & _ & _);
    [lia | lia | | split; [done | apply up_swaps; lia]].
  split.
  - intros i Hi Hne. pose proof (parent_lt i ltac:(lia)). rewrite !Hkey by lia. apply Hok. lia.
  - intros i Hi Hpi. pose proof (parent_lt i ltac:(lia)). lia.
Qed.

End laws.
