(* ===== verification/ExecutionQueue.v ===== *)
(** * ExecutionQueue: the priority queue of execution tasks

    Follows pkg/shared/execution_queue.go.  Tasks are shared objects: the
    queue, its maps and its callers hold references into a store of tasks,
    and operations change the fields of the task they are given.  [TaskHeap]
    implements Go's [heap.Interface] with the index bookkeeping of its
    [Swap], [Push] and [Pop].  The order in which a map is ranged over is an
    argument of the operations it matters to. *)

From S2P Require Import Prelude GoHeap.
Local Open Scope Z_scope.

(** The JSON document in a task's context, as far as [CancelTask] looks at
    it: absent, [null], an object, or something that is no object. *)
Inductive RawContext :=
| NoContext
| NullContext
| ObjectContext (fields : gmap string string)
| OtherContext (raw : string).

Record ExecutionTask := mkTask {
  Namespace : string;
  Name : string;
  Phase : string;
  Priority : Z;
  Timestamp : Time;
  Context : RawContext;
  RetryCount : Z;
  MaxRetries : Z;
  Dependencies : list string;
  index : Z
}.

Definition set_index (i : Z) (t : ExecutionTask) : ExecutionTask :=
  mkTask (Namespace t) (Name t) (Phase t) (Priority t) (Timestamp t) (Context t) (RetryCount t)
    (MaxRetries t) (Dependencies t) i.

Definition set_context (c : RawContext) (t : ExecutionTask) : ExecutionTask :=
  mkTask (Namespace t) (Name t) (Phase t) (Priority t) (Timestamp t) c (RetryCount t)
    (MaxRetries t) (Dependencies t) (index t).

(** The fields of a task that is retried. *)
Definition set_retry (now : Time) (t : ExecutionTask) : ExecutionTask :=
  mkTask (Namespace t) (Name t) (Phase t) (Priority t + 10) now (Context t) (RetryCount t + 1)
    (MaxRetries t) (Dependencies t) (index t).

Definition zeroTask : ExecutionTask := mkTask "" "" "" 0 0 NoContext 0 0 [] 0.

(** ** The heap of tasks *)

Record TaskHeap := mkTaskHeap {
  tasks : list ExecutionTask;
  arr : list nat
}.

Definition task (h : TaskHeap) (r : nat) : ExecutionTask := default zeroTask (tasks h !! r).
Definition at_ (h : TaskHeap) (i : nat) : ExecutionTask := from_option (task h) zeroTask (arr h !! i).

Definition less_task (a b : ExecutionTask) : bool :=
  if negb (Priority a =? Priority b) then Priority b <? Priority a
  else time_Before (Timestamp a) (Timestamp b).

Definition TaskHeap_Less (h : TaskHeap) (i j : nat) : bool := less_task (at_ h i) (at_ h j).

(** Writing a task into a position of the array, and its index with it. *)
Definition place (h : TaskHeap) (i : nat) (r : nat) : TaskHeap :=
  mkTaskHeap (alter (set_index (Z.of_nat i)) r (tasks h)) (<[i := r]> (arr h)).

Definition TaskHeap_Swap (h : TaskHeap) (i j : nat) : TaskHeap :=
  match arr h !! i, arr h !! j with
  | Some a, Some b => place (place h i b) j a
  | _, _ => h
  end.

Definition TaskHeap_Push (h : TaskHeap) (r : nat) : TaskHeap :=
  mkTaskHeap (alter (set_index (Z.of_nat (length (arr h)))) r (tasks h)) (arr h ++ [r]).

Definition TaskHeap_Pop (h : TaskHeap) : TaskHeap * option nat :=
  match last (arr h) with
  | None => (h, None)
  | Some r => (mkTaskHeap (alter (set_index (-1)) r (tasks h)) (take (length (arr h) - 1) (arr h)), Some r)
  end.

#[export] Instance TaskHeap_interface : HeapInterface TaskHeap nat := {
  Len h := length (arr h);
  Less := TaskHeap_Less;
  Swap := TaskHeap_Swap;
  Push := TaskHeap_Push;
  Pop := TaskHeap_Pop
}.

(** ** The queue *)

Record ExecutionQueue := mkQueue {
  heap : TaskHeap;
  channel : list nat;
  capacity : nat;
  activeTasks : gmap string nat;
  pendingTasks : gmap string nat;
  completedTasks : gmap string nat;
  enqueuedCount : Z;
  dequeuedCount : Z;
  droppedCount : Z;
  maxPendingTasks : nat;
  taskTimeout : Duration
}.

Definition NewExecutionQueue (cap : nat) : ExecutionQueue :=
  mkQueue (mkTaskHeap [] []) [] cap ∅ ∅ ∅ 0 0 0 (cap * 2) (30 * Minute).

Definition with_heap (h : TaskHeap) (eq : ExecutionQueue) : ExecutionQueue :=
  mkQueue h (channel eq) (capacity eq) (activeTasks eq) (pendingTasks eq) (completedTasks eq)
    (enqueuedCount eq) (dequeuedCount eq) (droppedCount eq) (maxPendingTasks eq) (taskTimeout eq).

Definition with_maps (a p c : gmap string nat) (eq : ExecutionQueue) : ExecutionQueue :=
  mkQueue (heap eq) (channel eq) (capacity eq) a p c
    (enqueuedCount eq) (dequeuedCount eq) (droppedCount eq) (maxPendingTasks eq) (taskTimeout eq).

Definition with_counts (de dd dr : Z) (eq : ExecutionQueue) : ExecutionQueue :=
  mkQueue (heap eq) (channel eq) (capacity eq) (activeTasks eq) (pendingTasks eq) (completedTasks eq)
    (enqueuedCount eq + de) (dequeuedCount eq + dd) (droppedCount eq + dr) (maxPendingTasks eq)
    (taskTimeout eq).

Definition with_channel (ch : list nat) (eq : ExecutionQueue) : ExecutionQueue :=
  mkQueue (heap eq) ch (capacity eq) (activeTasks eq) (pendingTasks eq) (completedTasks eq)
    (enqueuedCount eq) (dequeuedCount eq) (droppedCount eq) (maxPendingTasks eq) (taskTimeout eq).

Definition taskKey (ns nm ph : string) : string :=
  String.append ns (String.append "/" (String.append nm (String.append ":" ph))).

Definition getTaskKey (t : ExecutionTask) : string := taskKey (Namespace t) (Name t) (Phase t).

Definition keyOf (eq : ExecutionQueue) (r : nat) : string := getTaskKey (task (heap eq) r).

(** A caller allocates the task it is about to enqueue. *)
Definition newTask (t : ExecutionTask) (eq : ExecutionQueue) : ExecutionQueue * nat :=
  (with_heap (mkTaskHeap (tasks (heap eq) ++ [t]) (arr (heap eq))) eq, length (tasks (heap eq))).

Inductive QueueError :=
| TaskAlreadyActive
| TaskAlreadyPending
| QueueAtCapacity
| QueueEmpty
| TaskFailedAfterRetries
| TaskNotFound
| PanicNilMap.

Definition Enqueue (r : nat) (eq : ExecutionQueue) : ExecutionQueue * result QueueError unit :=
  let k := keyOf eq r in
  match activeTasks eq !! k with
  | Some _ => (eq, Err TaskAlreadyActive)
  | None =>
      match pendingTasks eq !! k with
      | Some _ => (eq, Err TaskAlreadyPending)
      | None =>
          if (maxPendingTasks eq <=? size (pendingTasks eq))%nat
          then (with_counts 0 0 1 eq, Err QueueAtCapacity)
          else
            let eq := with_maps (activeTasks eq) (<[k := r]> (pendingTasks eq)) (completedTasks eq) eq in
            let eq := with_heap (heap_Push (heap eq) r) eq in
            (with_counts 1 0 0 eq, Ok tt)
      end
  end.

Definition Dequeue (eq : ExecutionQueue) : ExecutionQueue * result QueueError nat :=
  if (Len (heap eq) =? 0)%nat then (eq, Err QueueEmpty)
  else
    match heap_Pop (heap eq) with
    | (h, Some r) =>
        let eq := with_heap h eq in
        let k := keyOf eq r in
        let eq := with_maps (<[k := r]> (activeTasks eq)) (delete k (pendingTasks eq))
                    (completedTasks eq) eq in
        (with_counts 0 1 0 eq, Ok r)
    | (h, None) => (with_heap h eq, Err QueueEmpty)
    end.

(** Above 1000 completed tasks, the first 100 keys of the range go. *)
Definition evictCompleted (order : list string) (c : gmap string nat) : gmap string nat :=
  if (1000 <? size c)%nat then foldl (fun c k => delete k c) c (take 100 order) else c.

Definition CompleteTask (r : nat) (order : list string) (eq : ExecutionQueue) : ExecutionQueue :=
  let k := keyOf eq r in
  match activeTasks eq !! k with
  | None => eq
  | Some _ =>
      with_maps (delete k (activeTasks eq)) (pendingTasks eq)
        (evictCompleted order (<[k := r]> (completedTasks eq))) eq
  end.

Definition FailTask (r : nat) (now : Time) (eq : ExecutionQueue)
  : ExecutionQueue * result QueueError unit :=
  let k := keyOf eq r in
  let eq := with_maps (delete k (activeTasks eq)) (pendingTasks eq) (completedTasks eq) eq in
  let t := task (heap eq) r in
  if RetryCount t <? MaxRetries t then
    let eq := with_heap (mkTaskHeap (alter (set_retry now) r (tasks (heap eq))) (arr (heap eq))) eq in
    let eq := with_maps (activeTasks eq) (<[k := r]> (pendingTasks eq)) (completedTasks eq) eq in
    (with_heap (heap_Push (heap eq) r) eq, Ok tt)
  else
    (with_maps (activeTasks eq) (pendingTasks eq) (<[k := r]> (completedTasks eq)) eq,
     Err TaskFailedAfterRetries).

Definition GetPendingCount (eq : ExecutionQueue) : nat := size (pendingTasks eq).
Definition GetActiveCount (eq : ExecutionQueue) : nat := size (activeTasks eq).

(** A task whose index is out of range is not in the heap. *)
Definition removeFromHeap (r : nat) (eq : ExecutionQueue) : ExecutionQueue :=
  let i := index (task (heap eq) r) in
  if (i <? 0) || (Z.of_nat (Len (heap eq)) <=? i) then eq
  else with_heap (fst (heap_Remove (heap eq) (Z.to_nat i))) eq.

(** The context with the cancellation flag: [None] is the panic of a write
    into the nil map that [null] unmarshals to. *)
Definition cancelledContext (c : RawContext) : option RawContext :=
  match c with
  | NoContext => Some (ObjectContext {["cancelled" := "true"]})
  | NullContext => None
  | ObjectContext m => Some (ObjectContext (<["cancelled" := "true"]> m))
  | OtherContext _ => Some (ObjectContext {["cancelled" := "true"]})
  end.

Definition CancelTask (ns nm ph : string) (eq : ExecutionQueue) : ExecutionQueue * result QueueError unit :=
  let k := taskKey ns nm ph in
  match pendingTasks eq !! k with
  | Some r =>
      let eq := removeFromHeap r eq in
      (with_maps (activeTasks eq) (delete k (pendingTasks eq)) (completedTasks eq) eq, Ok tt)
  | None =>
      match activeTasks eq !! k with
      | Some r =>
          match cancelledContext (Context (task (heap eq) r)) with
          | Some c =>
              (with_heap (mkTaskHeap (alter (set_context c) r (tasks (heap eq))) (arr (heap eq))) eq, Ok tt)
          | None => (eq, Err PanicNilMap)
          end
      | None => (eq, Err TaskNotFound)
      end
  end.

(** The range over the pending tasks: expired ones leave the map and are
    collected. *)
Definition expirePending (cutoff : Time) (acc : ExecutionQueue * list nat) (k : string)
  : ExecutionQueue * list nat :=
  let '(eq, expired) := acc in
  match pendingTasks eq !! k with
  | Some r =>
      if time_Before (Timestamp (task (heap eq) r)) cutoff
      then (with_maps (activeTasks eq) (delete k (pendingTasks eq)) (completedTasks eq) eq, expired ++ [r])
      else acc
  | None => acc
  end.

Definition expireActive (cutoff : Time) (eq : ExecutionQueue) : ExecutionQueue :=
  with_maps (filter (fun kr => time_Before (Timestamp (task (heap eq) (snd kr))) cutoff = false)
               (activeTasks eq))
    (pendingTasks eq) (completedTasks eq) eq.

Definition CleanupExpiredTasks (now : Time) (order : list string) (eq : ExecutionQueue)
  : ExecutionQueue * Z :=
  let cutoff := time_Add now (- taskTimeout eq) in
  let n := size (activeTasks eq) in
  let eq := expireActive cutoff eq in
  let gone := (n - size (activeTasks eq))%nat in
  let '(eq, expired) := foldl (expirePending cutoff) (eq, []) order in
  (foldl (fun eq r => removeFromHeap r eq) eq expired, Z.of_nat (gone + length expired)).

Definition checkTaskDependencies (r : nat) (eq : ExecutionQueue) : bool :=
  forallb (fun dep => bool_decide (is_Some (completedTasks eq !! dep))) (Dependencies (task (heap eq) r)).

(** The section that puts a dequeued task back. *)
Definition requeue (r : nat) (eq : ExecutionQueue) : ExecutionQueue :=
  let k := keyOf eq r in
  let eq := with_maps (delete k (activeTasks eq)) (<[k := r]> (pendingTasks eq)) (completedTasks eq) eq in
  with_heap (heap_Push (heap eq) r) eq.

Definition processQueue (eq : ExecutionQueue) : ExecutionQueue :=
  if (capacity eq <=? length (channel eq))%nat then eq
  else
    match Dequeue eq with
    | (eq, Err _) => eq
    | (eq, Ok r) =>
        if negb (checkTaskDependencies r eq) then requeue r eq
        else if (length (channel eq) <? capacity eq)%nat
        then with_channel (channel eq ++ [r]) eq
        else requeue r eq
    end.

(** A worker of pkg/shared/coordination_manager.go takes the next task. *)
Definition receive (eq : ExecutionQueue) : ExecutionQueue * option nat :=
  match channel eq with
  | [] => (eq, None)
  | r :: rest => (with_channel rest eq, Some r)
  end.

(** ** Filters *)

Record TaskFilter := mkFilter {
  IntentNamespace : string;
  IntentName : string;
  f_Phase : string;
  MinPriority : option Z;
  MaxPriority : option Z;
  CreatedAfter : option Time;
  CreatedBefore : option Time
}.

Definition matchesFilter (t : ExecutionTask) (f : TaskFilter) : bool :=
  if negb (bool_decide (IntentNamespace f = "")) && negb (bool_decide (Namespace t = IntentNamespace f))
  then false
  else if negb (bool_decide (IntentName f = "")) && negb (bool_decide (Name t = IntentName f)) then false
  else if negb (bool_decide (f_Phase f = "")) && negb (bool_decide (Phase t = f_Phase f)) then false
  else if from_option (fun p => Priority t <? p) false (MinPriority f) then false
  else if from_option (fun p => p <? Priority t) false (MaxPriority f) then false
  else if from_option (fun c => time_Before (Timestamp t) c) false (CreatedAfter f) then false
  else if from_option (fun c => time_After (Timestamp t) c) false (CreatedBefore f) then false
  else true.

Definition FilterTasks (f : TaskFilter) (includeActive includePending includeCompleted : bool)
  (eq : ExecutionQueue) : list nat :=
  let refs (b : bool) (m : gmap string nat) := if b then snd <$> map_to_list m else [] in
  filter (fun r => matchesFilter (task (heap eq) r) f = true)
    (refs includeActive (activeTasks eq) ++ refs includePending (pendingTasks eq)
     ++ refs includeCompleted (completedTasks eq)).

(** ** The heap keeps Go's heap contract *)

(** What a position holds: the task's priority and time, and the task. *)
Definition rank (t : ExecutionTask) (r : nat) : Z * Z * nat := (Priority t, Timestamp t, r).
Definition entry (h : TaskHeap) (i : nat) : Z * Z * nat := rank (at_ h i) (default 0%nat (arr h !! i)).

Definition ltr (a b : Z * Z * nat) : bool :=
  let '(p, t, _) := a in let '(q, u, _) := b in
  if negb (p =? q) then q <? p else t <? u.

(** Two heaps with the same tasks up to their indices. *)
Definition same_tasks (h h' : TaskHeap) : Prop :=
  length (tasks h') = length (tasks h) /\
  forall r, set_index 0 (task h' r) = set_index 0 (task h r).

#[export] Instance same_tasks_equiv : Equivalence same_tasks.
Proof.
  split.
  - by intros h.
  - intros h1 h2 [H1 H2]. by split.
  - intros h1 h2 h3 [H1 H2] [H3 H4]. split; [congruence |]. intros r. by rewrite H4.
Qed.

Lemma task_alter h f r r' :
  (forall t, set_index 0 (f t) = set_index 0 t) ->
  forall a, set_index 0 (task (mkTaskHeap (alter f r (tasks h)) a) r') = set_index 0 (task h r').
Proof.
  intros Hf a. unfold task; simpl. destruct (decide (r = r')) as [-> | Hne].
  - rewrite list_lookup_alter_eq. destruct (tasks h !! r'); simpl; auto.
  - by rewrite list_lookup_alter_ne.
Qed.

Lemma same_tasks_place h i r : same_tasks h (place h i r).
Proof. split; [apply length_alter |]. intros r'. by apply task_alter. Qed.

Lemma same_tasks_Swap h i j : same_tasks h (TaskHeap_Swap h i j).
Proof.
  unfold TaskHeap_Swap. repeat case_match; try reflexivity. etrans; apply same_tasks_place.
Qed.

Lemma same_tasks_Push h r : same_tasks h (TaskHeap_Push h r).
Proof. split; [apply length_alter |]. intros r'. by apply task_alter. Qed.

Lemma same_tasks_Pop h : same_tasks h (fst (TaskHeap_Pop h)).
Proof.
  unfold TaskHeap_Pop. destruct (last (arr h)); [| reflexivity].
  split; [apply length_alter |]. intros r'. by apply task_alter.
Qed.

(** What two tasks equal up to their index agree on. *)
Lemma same_task_fields a b : set_index 0 a = set_index 0 b ->
  Priority a = Priority b /\ Timestamp a = Timestamp b /\ getTaskKey a = getTaskKey b /\
  Dependencies a = Dependencies b /\ RetryCount a = RetryCount b /\ MaxRetries a = MaxRetries b.
Proof. unfold set_index, getTaskKey. by intros [= -> -> -> -> -> _ -> -> ->]. Qed.

Lemma same_tasks_rank h h' r : same_tasks h h' -> rank (task h' r) r = rank (task h r) r.
Proof. intros [_ H]. unfold rank. by destruct (same_task_fields _ _ (H r)) as (-> & -> & _). Qed.

Lemma entry_lookup h i r : arr h !! i = Some r -> entry h i = rank (task h r) r.
Proof. unfold entry, at_. by intros ->. Qed.

Lemma arr_Swap h i j a b :
  arr h !! i = Some a -> arr h !! j = Some b -> arr (TaskHeap_Swap h i j) = <[j := a]> (<[i := b]> (arr h)).
Proof. unfold TaskHeap_Swap. by intros -> ->. Qed.

Lemma less_task_ltr a b r r' : less_task a b = ltr (rank a r) (rank b r').
Proof. done. Qed.

#[export] Program Instance TaskHeap_laws : HeapLaws TaskHeap nat (Z * Z * nat) := {
  elems := arr;
  key := entry;
  ltk := ltr
}.
Next Obligation.
  intros [[p t] r]. simpl. rewrite Z.eqb_refl. simpl. apply Z.ltb_irrefl.
Qed.
Next Obligation.
  intros [[p1 t1] r1] [[p2 t2] r2] [[p3 t3] r3]. simpl.
  destruct (Z.eqb_spec p1 p2), (Z.eqb_spec p2 p3), (Z.eqb_spec p1 p3); simpl; rewrite !Z.ltb_lt; lia.
Qed.
Next Obligation.
  intros [[p1 t1] r1] [[p2 t2] r2] [[p3 t3] r3]. simpl.
  destruct (Z.eqb_spec p1 p2), (Z.eqb_spec p2 p3), (Z.eqb_spec p1 p3); simpl; rewrite !Z.ltb_ge; lia.
Qed.
Next Obligation. done. Qed.
Next Obligation. done. Qed.
Next Obligation.
  intros h i j x Hi Hj Hx. simpl in *.
  destruct (lookup_lt_is_Some_2 _ _ Hi) as [a Ha]. destruct (lookup_lt_is_Some_2 _ _ Hj) as [b Hb].
  destruct (lookup_lt_is_Some_2 _ _ Hx) as [c Hc].
  pose proof (same_tasks_Swap h i j) as Hsame. pose proof (arr_Swap h i j a b Ha Hb) as Harr.
  rewrite (entry_lookup h i a), (entry_lookup h j b), (entry_lookup h x c) by done.
  destruct (Nat.eqb_spec x i) as [-> | Hxi]; [| destruct (Nat.eqb_spec x j) as [-> | Hxj]].
  - destruct (decide (i = j)) as [<- | Hij].
    + simplify_eq. rewrite <- (same_tasks_rank h (TaskHeap_Swap h i i)) by done.
      apply entry_lookup. rewrite Harr. apply list_lookup_insert_eq. by rewrite length_insert.
    + rewrite <- (same_tasks_rank h (TaskHeap_Swap h i j)) by done. apply entry_lookup.
      rewrite Harr, list_lookup_insert_ne by done. by apply list_lookup_insert_eq.
  - rewrite <- (same_tasks_rank h (TaskHeap_Swap h i j)) by done. apply entry_lookup.
    rewrite Harr. apply list_lookup_insert_eq. by rewrite length_insert.
  - rewrite <- (same_tasks_rank h (TaskHeap_Swap h i j)) by done. apply entry_lookup.
    by rewrite Harr, !list_lookup_insert_ne.
Qed.
Next Obligation.
  intros h i j Hi Hj. simpl in *.
  destruct (lookup_lt_is_Some_2 _ _ Hi) as [a Ha]. destruct (lookup_lt_is_Some_2 _ _ Hj) as [b Hb].
  rewrite (arr_Swap h i j a b) by done. by apply Permutation_insert_swap.
Qed.

(** ** Invariant of the heap *)

Record idx_inv (h : TaskHeap) : Prop := {
  idx_nodup : NoDup (arr h);
  idx_range : forall r, r ∈ arr h -> (r < length (tasks h))%nat;
  idx_index : forall i r, arr h !! i = Some r -> index (task h r) = Z.of_nat i
}.

Lemma heap_ok_entry h n :
  heap_ok h n <-> (forall i, (0 < i < n)%nat -> ltr (entry h i) (entry h (parent i)) = false).
Proof. done. Qed.

Definition heap_inv (h : TaskHeap) : Prop := idx_inv h /\ heap_ok h (length (arr h)).

Lemma index_alter h r i a :
  (r < length (tasks h))%nat ->
  forall r', index (task (mkTaskHeap (alter (set_index i) r (tasks h)) a) r')
             = if decide (r' = r) then i else index (task h r').
Proof.
  intros Hr r'. unfold task; simpl. case_decide as Hd.
  - subst. rewrite list_lookup_alter_eq. by destruct (lookup_lt_is_Some_2 _ _ Hr) as [t ->].
  - by rewrite list_lookup_alter_ne.
Qed.

Lemma idx_Swap h i j :
  (i < length (arr h))%nat -> (j < length (arr h))%nat -> idx_inv h -> idx_inv (TaskHeap_Swap h i j).
Proof.
  intros Hi Hj [Hnd Hrange Hidx].
  destruct (lookup_lt_is_Some_2 _ _ Hi) as [a Ha]. destruct (lookup_lt_is_Some_2 _ _ Hj) as [b Hb].
  pose proof (Permutation_insert_swap (arr h) i j a b Ha Hb) as Hperm.
  pose proof (arr_Swap h i j a b Ha Hb) as Harr.
  constructor.
  - by rewrite Harr, Hperm.
  - intros r. rewrite Harr, Hperm. destruct (same_tasks_Swap h i j) as [-> _]. auto.
  - intros x r. rewrite Harr.
    assert (forall r, index (task (TaskHeap_Swap h i j) r)
      = if decide (r = a) then Z.of_nat j else if decide (r = b) then Z.of_nat i else index (task h r)) as Hnew.
    { intros r'. unfold TaskHeap_Swap. rewrite Ha, Hb. unfold place at 1.
      rewrite index_alter by (rewrite (proj1 (same_tasks_place h i b)); apply Hrange, list_elem_of_lookup; eauto).
      case_decide; [done |]. unfold place.
      by rewrite index_alter by (apply Hrange, list_elem_of_lookup; eauto). }
    rewrite Hnew, !list_lookup_insert_Some. rewrite length_insert.
    intros [(<- & <- & _) | [Hxj [(<- & <- & _) | [Hxi H]]]].
    + by rewrite decide_True.
    + destruct (decide (b = a)) as [-> |]; [| by rewrite decide_True].
      exfalso. apply Hxj. by eapply NoDup_lookup.
    + rewrite !decide_False; [by apply Hidx | |]; intros ->;
        [apply Hxj | apply Hxi]; by eapply NoDup_lookup.
Qed.

Lemma swaps_same h h' : swaps h h' -> same_tasks h h'.
Proof.
  induction 1 as [| h1 h2 h3 (i & j & Hi & Hj & ->) _ IH]; [done |].
  etrans; [apply same_tasks_Swap | done].
Qed.

Lemma swaps_idx h h' : swaps h h' -> idx_inv h -> idx_inv h'.
Proof. apply swaps_keep. intros h0 i j. apply idx_Swap. Qed.

Lemma heap_ok_push h r : heap_ok h (length (arr h)) ->
  heap_ok (heap_Push h r) (S (length (arr h))) /\ swaps (TaskHeap_Push h r) (heap_Push h r).
Proof.
  intros Hok. pose proof (heap_Push_spec (K := Z * Z * nat) h r) as Hpush.
  apply Hpush; [simpl; rewrite length_app; simpl; lia | | done].
  intros i Hi. simpl in *. destruct (lookup_lt_is_Some_2 _ _ Hi) as [c Hc].
  rewrite (entry_lookup h i c), <- (same_tasks_rank h (TaskHeap_Push h r)) by (done || apply same_tasks_Push).
  apply entry_lookup. simpl. by apply lookup_app_l_Some.
Qed.

(** [heap.Push] of a task that is not in the heap. *)
Lemma push_spec h r :
  heap_inv h -> r ∉ arr h -> (r < length (tasks h))%nat ->
  heap_inv (heap_Push h r) /\ arr (heap_Push h r) ≡ₚ r :: arr h /\ same_tasks h (heap_Push h r).
Proof.
  intros [[Hnd Hrange Hidx] Hok] Hnin Hr. destruct (heap_ok_push h r Hok) as [Hok' Hsw].
  pose proof (swaps_elems _ _ Hsw) as Hel. simpl in Hel.
  assert (arr (heap_Push h r) ≡ₚ r :: arr h) as Hperm
    by (etrans; [exact Hel | symmetry; apply Permutation_cons_append]).
  split_and!; [| done | etrans; [apply same_tasks_Push | by apply swaps_same]].
  split; [| rewrite (Permutation_length Hperm); done].
  apply (swaps_idx _ _ Hsw). constructor; simpl.
  - apply NoDup_app. split_and!; [done | | apply NoDup_singleton].
    intros x Hx ->%list_elem_of_singleton. done.
  - intros x. rewrite length_alter, elem_of_app, list_elem_of_singleton. intros [? | ->]; auto.
  - unfold TaskHeap_Push. intros i x [[Hi H] | [-> <-]]%lookup_snoc_Some; rewrite index_alter by done.
    + rewrite decide_False; [by apply Hidx |]. intros ->. apply Hnin, list_elem_of_lookup. eauto.
    + by rewrite decide_True.
Qed.

(** The final [Pop] of an operation that put the task [r] last. *)
Lemma pop_last h r n :
  idx_inv h -> heap_ok h n -> length (arr h) = S n -> entry h n = rank (task h r) r ->
  exists h', TaskHeap_Pop h = (h', Some r) /\ heap_inv h' /\ arr h ≡ₚ r :: arr h' /\ same_tasks h h'.
Proof.
  intros [Hnd Hrange Hidx] Hok Hlen Hent. unfold TaskHeap_Pop. rewrite last_lookup, Hlen. simpl.
  destruct (lookup_lt_is_Some_2 (arr h) n ltac:(lia)) as [r' Hr'].
  rewrite (entry_lookup h n r' Hr') in Hent. injection Hent as _ _ <-. rewrite Hr'.
  eexists. split; [done |]. rewrite Nat.sub_0_r.
  assert (arr h = take n (arr h) ++ [r']) as Hsplit.
  { rewrite <- (take_S_r _ _ _ Hr'). rewrite take_ge by lia. done. }
  assert (r' ∉ take n (arr h)) as Hnin.
  { intros Hin. rewrite Hsplit in Hnd. apply NoDup_app in Hnd as (_ & Hd & _).
    by apply (Hd r' Hin), list_elem_of_singleton. }
  assert (r' < length (tasks h))%nat as Hr by (apply Hrange, list_elem_of_lookup; eauto).
  split_and!.
  - split.
    + constructor; simpl.
      * rewrite Hsplit in Hnd. by apply NoDup_app in Hnd as [? _].
      * intros x Hx. rewrite length_alter. apply Hrange. rewrite Hsplit. apply elem_of_app. auto.
      * intros i x Hx. rewrite index_alter by done. rewrite decide_False.
        -- apply Hidx. apply lookup_take_Some in Hx as [? _]. done.
        -- intros ->. apply Hnin, list_elem_of_lookup. eauto.
    + simpl. rewrite length_take, Hlen, Nat.min_l by lia.
      assert (forall i, (i < n)%nat ->
        entry (mkTaskHeap (alter (set_index (-1)) r' (tasks h)) (take n (arr h))) i = entry h i) as He.
      { intros i Hi. destruct (lookup_lt_is_Some_2 (arr h) i ltac:(lia)) as [c Hc].
        rewrite (entry_lookup h i c Hc).
        rewrite (entry_lookup _ i c) by (by apply lookup_take_Some).
        apply same_tasks_rank. split; [apply length_alter |]. intros x. by apply task_alter. }
      apply heap_ok_entry. intros i Hi. pose proof (parent_lt i ltac:(lia)). rewrite !He by lia.
      apply heap_ok_entry with n; [done | lia].
  - simpl. rewrite Hsplit at 1. symmetry. apply Permutation_cons_append.
  - split; [apply length_alter |]. intros x. by apply task_alter.
Qed.

(** [heap.Remove] removes exactly the task at the position. *)
Lemma remove_spec h i r :
  heap_inv h -> arr h !! i = Some r ->
  exists h', heap_Remove h i = (h', Some r) /\ heap_inv h' /\ arr h ≡ₚ r :: arr h' /\ same_tasks h h'.
Proof.
  intros [Hidx Hok] Hi. pose proof (lookup_lt_Some _ _ _ Hi) as Hlt.
  pose proof (heap_Remove_spec (K := Z * Z * nat) h i) as Hspec.
  destruct (Hspec Hlt Hok) as (s' & -> & Hsw & Hok' & Hlast). simpl in *.
  assert (length (arr s') = length (arr h)) as Hlen by (apply (swaps_Len _ _ Hsw)).
  destruct (pop_last s' r (length (arr h) - 1)) as (h' & Hpop & Hinv & Hperm & Hsame).
  - by eapply swaps_idx.
  - done.
  - lia.
  - rewrite Hlast, (entry_lookup h i r Hi). symmetry. apply same_tasks_rank. by apply swaps_same.
  - exists h'. split_and!; [done | done | | etrans; [by apply swaps_same | done]].
    pose proof (swaps_elems _ _ Hsw) as Hel. simpl in Hel. by rewrite <- Hel.
Qed.

(** [heap.Pop] removes a task that no task of the heap precedes. *)
Lemma pop_spec h :
  heap_inv h -> arr h <> [] ->
  exists h' r, heap_Pop h = (h', Some r) /\ heap_inv h' /\ arr h ≡ₚ r :: arr h' /\ same_tasks h h' /\
    forall r', r' ∈ arr h -> less_task (task h r') (task h r) = false.
Proof.
  intros [Hidx Hok] Hne. destruct (arr h) as [| r0 rest] eqn:E; [done |]. rewrite <- E in *.
  assert (arr h !! 0%nat = Some r0) as H0 by (by rewrite E).
  pose proof (lookup_lt_Some _ _ _ H0) as Hlt.
  pose proof (heap_Pop_spec (K := Z * Z * nat) h) as Hspec.
  destruct (Hspec Hlt Hok) as (s' & -> & Hsw & Hok' & Hlast). simpl in *.
  assert (length (arr s') = length (arr h)) as Hlen by (apply (swaps_Len _ _ Hsw)).
  destruct (pop_last s' r0 (length (arr h) - 1)) as (h' & Hpop & Hinv & Hperm & Hsame).
  - by eapply swaps_idx.
  - done.
  - lia.
  - rewrite Hlast, (entry_lookup h 0 r0 H0). symmetry. apply same_tasks_rank. by apply swaps_same.
  - exists h', r0. split_and!; [done | done | | etrans; [by apply swaps_same | done] |].
    + pose proof (swaps_elems _ _ Hsw) as Hel. simpl in Hel. by rewrite <- Hel.
    + intros r' [i Hi]%list_elem_of_lookup. pose proof (lookup_lt_Some _ _ _ Hi).
      rewrite (less_task_ltr _ _ r' r0). rewrite <- (entry_lookup h i r' Hi), <- (entry_lookup h 0 r0 H0).
      pose proof (heap_root (K := Z * Z * nat) h (length (arr h)) i) as Hroot. by apply Hroot.
Qed.

(** ** Invariant of the queue *)

Definition refKey (h : TaskHeap) (r : nat) : string := getTaskKey (task h r).

(** [a], [p]: active and pending tasks; [extra]: tasks still in the heap that
    have left the pending map. *)
Record core_inv (a p : gmap string nat) (extra : list nat) (h : TaskHeap) : Prop := {
  ci_heap : heap_inv h;
  ci_pending : forall k r, p !! k = Some r -> r ∈ arr h /\ refKey h r = k;
  ci_arr : forall r, r ∈ arr h -> p !! refKey h r = Some r \/ r ∈ extra;
  ci_extra : forall r, r ∈ extra -> r ∈ arr h /\ p !! refKey h r <> Some r;
  ci_extra_nodup : NoDup extra;
  ci_disjoint : forall k, is_Some (a !! k) -> p !! k = None;
  ci_active : forall k r, a !! k = Some r -> (r < length (tasks h))%nat /\ refKey h r = k
}.

Definition queue_inv (eq : ExecutionQueue) : Prop :=
  core_inv (activeTasks eq) (pendingTasks eq) [] (heap eq).

Lemma same_tasks_refKey h h' r : same_tasks h h' -> refKey h' r = refKey h r.
Proof. intros [_ H]. unfold refKey. by destruct (same_task_fields _ _ (H r)) as (_ & _ & -> & _). Qed.

Lemma heap_inv_range h r : heap_inv h -> r ∈ arr h -> (r < length (tasks h))%nat.
Proof. intros [[_ H _] _]. apply H. Qed.

(** A task joins the heap and the pending map and leaves the active one. *)
Lemma inv_push a p h r :
  core_inv a p [] h -> r ∉ arr h -> (r < length (tasks h))%nat -> p !! refKey h r = None ->
  core_inv (delete (refKey h r) a) (<[refKey h r := r]> p) [] (heap_Push h r).
Proof.
  intros [Hh Hp Ha He Hn Hd Hac] Hnin Hr Hk.
  destruct (push_spec h r Hh Hnin Hr) as (Hh' & Hperm & Hsame).
  assert (forall x, refKey (heap_Push h r) x = refKey h x) as Hkey
    by (intros x; by apply same_tasks_refKey).
  constructor; [done | | | | done | |].
  - intros k x. rewrite lookup_insert_Some, Hperm, elem_of_cons, Hkey.
    intros [[<- <-] | [_ H]]; [auto |]. destruct (Hp k x H). auto.
  - intros x. rewrite Hperm, elem_of_cons, Hkey. intros [-> | Hx]; left; [by rewrite lookup_insert_eq |].
    destruct (Ha x Hx) as [H | H]; [| by apply elem_of_nil in H].
    rewrite lookup_insert_ne; [done |]. intros Heq. congruence.
  - intros x H. by apply elem_of_nil in H.
  - intros k [x Hx]. apply lookup_delete_Some in Hx as [Hne Hx]. rewrite lookup_insert_ne by done.
    apply Hd. eauto.
  - intros k x Hx. apply lookup_delete_Some in Hx as [_ Hx]. destruct Hsame as [-> _]. rewrite Hkey. auto.
Qed.

(** A task leaves the heap and the pending map and becomes active. *)
Lemma inv_pop a p h :
  core_inv a p [] h -> arr h <> [] ->
  exists h' r, heap_Pop h = (h', Some r) /\ same_tasks h h' /\ arr h ≡ₚ r :: arr h' /\
    p !! refKey h r = Some r /\
    core_inv (<[refKey h r := r]> a) (delete (refKey h r) p) [] h' /\
    forall r', r' ∈ arr h -> less_task (task h r') (task h r) = false.
Proof.
  intros [Hh Hp Ha He Hn Hd Hac] Hne. destruct (pop_spec h Hh Hne) as (h' & r & Hpop & Hh' & Hperm & Hsame & Hbest).
  assert (forall x, refKey h' x = refKey h x) as Hkey by (intros x; by apply same_tasks_refKey).
  assert (r ∈ arr h) as Hr by (rewrite Hperm; apply elem_of_cons; auto).
  assert (p !! refKey h r = Some r) as Hpr by (destruct (Ha r Hr) as [H | H]; [done | by apply elem_of_nil in H]).
  assert (NoDup (r :: arr h')) as Hnd by (rewrite <- Hperm; apply Hh).
  apply NoDup_cons in Hnd as [Hnin Hnd].
  exists h', r. split_and!; try done. constructor; [done | | | | done | |].
  - intros k x. rewrite lookup_delete_Some, Hkey. intros [Hk Hx]. destruct (Hp k x Hx) as [Hin Hxk].
    rewrite Hperm, elem_of_cons in Hin. destruct Hin as [-> | ?]; [congruence | done].
  - intros x Hx. left. rewrite Hkey.
    assert (x ∈ arr h) as Hxh by (rewrite Hperm; apply elem_of_cons; auto).
    destruct (Ha x Hxh) as [H | H]; [| by apply elem_of_nil in H].
    rewrite lookup_delete_ne; [done |]. intros Heq. rewrite <- Heq, Hpr in H. congruence.
  - intros x H. by apply elem_of_nil in H.
  - intros k [x Hx]. rewrite lookup_delete_None. apply lookup_insert_Some in Hx as [[<- _] | [_ Hx]]; [auto |].
    right. apply Hd. eauto.
  - intros k x. rewrite lookup_insert_Some, Hkey. destruct Hsame as [-> _].
    intros [[<- <-] | [_ Hx]]; [| auto]. split; [by apply (heap_inv_range h) | done].
Qed.

(** An entry that has left the pending map leaves the heap. *)
Lemma inv_remove a p h r extra :
  core_inv a p (r :: extra) h ->
  exists h', heap_Remove h (Z.to_nat (index (task h r))) = (h', Some r) /\ same_tasks h h' /\
    0 <= index (task h r) < Z.of_nat (length (arr h)) /\ core_inv a p extra h'.
Proof.
  intros [Hh Hp Ha He Hn Hd Hac].
  destruct (He r) as [Hr Hpr]; [apply elem_of_cons; auto |].
  pose proof Hr as [i Hi]%list_elem_of_lookup. pose proof (lookup_lt_Some _ _ _ Hi) as Hlt.
  assert (index (task h r) = Z.of_nat i) as Hidx by (by apply Hh).
  destruct (remove_spec h i r Hh Hi) as (h' & Hrem & Hh' & Hperm & Hsame).
  assert (forall x, refKey h' x = refKey h x) as Hkey by (intros x; by apply same_tasks_refKey).
  assert (NoDup (r :: arr h')) as Hnd by (rewrite <- Hperm; apply Hh).
  apply NoDup_cons in Hnd as [Hnin Hnd]. apply NoDup_cons in Hn as [Hnr Hn].
  exists h'. rewrite Hidx, Nat2Z.id. split_and!; try done; [lia | lia |].
  constructor; [done | | | | done | done |].
  - intros k x Hx. rewrite Hkey. destruct (Hp k x Hx) as [Hin Hxk].
    rewrite Hperm, elem_of_cons in Hin. destruct Hin as [-> | ?]; [congruence | done].
  - intros x Hx. rewrite Hkey.
    assert (x ∈ arr h) as Hxh by (rewrite Hperm; apply elem_of_cons; auto).
    destruct (Ha x Hxh) as [H | H]; [auto |]. apply elem_of_cons in H as [-> | H]; [done | auto].
  - intros x Hx. rewrite Hkey. destruct (He x) as [Hin Hpx]; [apply elem_of_cons; auto |].
    rewrite Hperm, elem_of_cons in Hin. destruct Hin as [-> | ?]; done.
  - intros k x Hx. rewrite Hkey. destruct Hsame as [-> _]. auto.
Qed.

(** A task that is not in the heap may change its fields, except its key. *)
Lemma inv_update a p extra h r f :
  (forall t, getTaskKey (f t) = getTaskKey t) -> r ∉ arr h ->
  core_inv a p extra h -> core_inv a p extra (mkTaskHeap (alter f r (tasks h)) (arr h)).
Proof.
  intros Hf Hnin [Hh Hp Ha He Hn Hd Hac]. set (h' := mkTaskHeap _ _).
  assert (forall x, refKey h' x = refKey h x) as Hkey.
  { intros x. unfold refKey, task, h'; simpl. destruct (decide (r = x)) as [<- |].
    - rewrite list_lookup_alter_eq. destruct (tasks h !! r); simpl; auto.
    - by rewrite list_lookup_alter_ne. }
  assert (forall x, x <> r -> task h' x = task h x) as Htask.
  { intros x Hx. unfold task, h'; simpl. by rewrite list_lookup_alter_ne. }
  assert (length (tasks h') = length (tasks h)) as Hlen by apply length_alter.
  constructor; try done.
  - destruct Hh as [[Hnd Hrange Hidx] Hok]. split.
    + constructor; [done | by intros x Hx; rewrite Hlen; auto |].
      intros i x Hx. rewrite Htask; [by apply Hidx |]. intros ->. apply Hnin, list_elem_of_lookup. eauto.
    + apply heap_ok_entry. intros i Hi. pose proof (parent_lt i ltac:(lia)).
      assert (forall j, (j < length (arr h))%nat -> entry h' j = entry h j) as Hentry.
      { intros j Hj. destruct (lookup_lt_is_Some_2 (arr h) j Hj) as [c Hc].
        rewrite (entry_lookup h j c Hc), (entry_lookup h' j c Hc). rewrite Htask; [done |].
        intros ->. apply Hnin, list_elem_of_lookup. eauto. }
      rewrite !Hentry by (simpl in Hi; lia). apply heap_ok_entry with (length (arr h)); done.
  - intros k x Hx. rewrite Hkey. auto.
  - intros x Hx. rewrite Hkey. auto.
  - intros x Hx. rewrite Hkey. auto.
  - intros k x Hx. rewrite Hkey, Hlen. auto.
Qed.

(** Removing an active task keeps the invariant. *)
Lemma inv_drop_active a a' p extra h :
  a' ⊆ a -> core_inv a p extra h -> core_inv a' p extra h.
Proof.
  intros Hsub [Hh Hp Ha He Hn Hd Hac]. constructor; try done.
  - intros k [x Hx]. apply Hd. exists x. by eapply lookup_weaken.
  - intros k x Hx. apply Hac. by eapply lookup_weaken.
Qed.

Lemma inv_active_notin a p h k r : core_inv a p [] h -> a !! k = Some r -> r ∉ arr h.
Proof.
  intros [Hh Hp Ha He Hn Hd Hac] Hk Hin. destruct (Hac k r Hk) as [_ <-].
  destruct (Ha r Hin) as [H | H]; [| by apply elem_of_nil in H].
  specialize (Hd (refKey h r) ltac:(eauto)). congruence.
Qed.

(** ** Operations and their discipline *)

Inductive QueueOp :=
| OpNew (t : ExecutionTask)
| OpEnqueue (r : nat)
| OpDequeue
| OpComplete (r : nat) (order : list string)
| OpFail (r : nat) (now : Time)
| OpCancel (ns nm ph : string)
| OpCleanup (now : Time) (order : list string)
| OpProcess
| OpReceive.

Definition runOp (o : QueueOp) (eq : ExecutionQueue) : ExecutionQueue :=
  match o with
  | OpNew t => fst (newTask t eq)
  | OpEnqueue r => fst (Enqueue r eq)
  | OpDequeue => fst (Dequeue eq)
  | OpComplete r order => CompleteTask r order eq
  | OpFail r now => fst (FailTask r now eq)
  | OpCancel ns nm ph => fst (CancelTask ns nm ph eq)
  | OpCleanup now order => fst (CleanupExpiredTasks now order eq)
  | OpProcess => processQueue eq
  | OpReceive => fst (receive eq)
  end.

(** Callers enqueue tasks that exist, and fail tasks that are active. *)
Definition allowed (o : QueueOp) (eq : ExecutionQueue) : Prop :=
  match o with
  | OpEnqueue r => (r < length (tasks (heap eq)))%nat
  | OpFail r _ => activeTasks eq !! keyOf eq r = Some r
  | _ => True
  end.

Inductive run : list QueueOp -> ExecutionQueue -> ExecutionQueue -> Prop :=
| run_nil eq : run [] eq eq
| run_cons o os eq eq' : allowed o eq -> run os (runOp o eq) eq' -> run (o :: os) eq eq'.

Lemma Dequeue_inv eq : queue_inv eq ->
  (arr (heap eq) = [] /\ Dequeue eq = (eq, Err QueueEmpty)) \/
  exists eq' r, Dequeue eq = (eq', Ok r) /\ queue_inv eq' /\
    same_tasks (heap eq) (heap eq') /\ arr (heap eq) ≡ₚ r :: arr (heap eq') /\
    pendingTasks eq !! keyOf eq r = Some r /\
    pendingTasks eq' = delete (keyOf eq r) (pendingTasks eq) /\
    activeTasks eq' = <[keyOf eq r := r]> (activeTasks eq) /\
    completedTasks eq' = completedTasks eq /\ channel eq' = channel eq /\ capacity eq' = capacity eq /\
    forall r', r' ∈ arr (heap eq) -> less_task (task (heap eq) r') (task (heap eq) r) = false.
Proof.
  intros Hinv. unfold Dequeue. destruct (arr (heap eq)) as [| r0 rest] eqn:E.
  { left. split; [done |]. change (Len (heap eq)) with (length (arr (heap eq))). by rewrite E. }
  right. assert (arr (heap eq) <> []) as Hne by (by rewrite E). rewrite <- E in *.
  destruct (inv_pop _ _ _ Hinv Hne) as (h' & r & Hpop & Hsame & Hperm & Hp & Hinv' & Hbest).
  change (Len (heap eq)) with (length (arr (heap eq))).
  destruct (Nat.eqb_spec (length (arr (heap eq))) 0) as [El |]; [by apply nil_length_inv in El |].
  rewrite Hpop. assert (keyOf (with_heap h' eq) r = keyOf eq r) as Hk by (by apply same_tasks_refKey).
  rewrite Hk. eexists _, r. split; [done |]. split; [exact Hinv' |]. by split_and!.
Qed.

Lemma requeue_inv eq r :
  queue_inv eq -> activeTasks eq !! keyOf eq r = Some r ->
  queue_inv (requeue r eq) /\ arr (heap (requeue r eq)) ≡ₚ r :: arr (heap eq) /\
  same_tasks (heap eq) (heap (requeue r eq)).
Proof.
  intros Hinv Ha. pose proof (inv_active_notin _ _ _ _ _ Hinv Ha) as Hnin.
  destruct (ci_active _ _ _ _ Hinv _ _ Ha) as [Hr _].
  split.
  - apply inv_push; [done | done | done |]. apply (ci_disjoint _ _ _ _ Hinv). by exists r.
  - by apply push_spec; [apply (ci_heap _ _ _ _ Hinv) | |].
Qed.

Lemma processQueue_inv eq : queue_inv eq -> queue_inv (processQueue eq).
Proof.
  intros Hinv. unfold processQueue. goal_if.
  destruct (Dequeue_inv eq Hinv) as [[_ ->] | (eq' & r & -> & Hinv' & Hsame & _ & _ & _ & Hact & _)]; [done |].
  assert (activeTasks eq' !! keyOf eq' r = Some r) as Ha.
  { unfold keyOf. change (getTaskKey (task (heap eq') r)) with (refKey (heap eq') r).
    rewrite (same_tasks_refKey _ _ _ Hsame), Hact. apply lookup_insert_eq. }
  repeat goal_if; by apply requeue_inv.
Qed.

Lemma expirePending_inv cutoff eq expired k :
  core_inv (activeTasks eq) (pendingTasks eq) expired (heap eq) ->
  let '(eq', expired') := expirePending cutoff (eq, expired) k in
  core_inv (activeTasks eq') (pendingTasks eq') expired' (heap eq').
Proof.
  intros Hinv. unfold expirePending. destruct (pendingTasks eq !! k) as [r |] eqn:Ek; [| done].
  goal_if. destruct Hinv as [Hh Hp Ha He Hn Hd Hac].
  destruct (Hp k r Ek) as [Hr Hkr].
  assert (r ∉ expired) as Hnr by (intros H; destruct (He r H) as [_ Hx]; apply Hx; by rewrite Hkr).
  constructor; simpl; try done.
  - intros k' x. rewrite lookup_delete_Some. intros [_ H]. auto.
  - intros x Hx. destruct (Ha x Hx) as [H | H]; [| right; apply elem_of_app; auto].
    destruct (decide (refKey (heap eq) x = k)) as [<- | Hne].
    + right. apply elem_of_app. right. rewrite Ek in H. injection H as ->. by apply list_elem_of_singleton.
    + left. by rewrite lookup_delete_ne.
  - intros x. rewrite elem_of_app, list_elem_of_singleton. intros [Hx | ->].
    + destruct (He x Hx) as [H1 H2]. split; [done |]. rewrite lookup_delete_Some. by intros [_ ?].
    + split; [done |]. rewrite Hkr, lookup_delete_eq. done.
  - apply NoDup_app. split_and!; [done | | apply NoDup_singleton].
    intros x Hx ->%list_elem_of_singleton. done.
  - intros k' Hk'. rewrite lookup_delete_None. auto.
Qed.

Lemma expirePending_all_inv cutoff order eq expired :
  core_inv (activeTasks eq) (pendingTasks eq) expired (heap eq) ->
  let '(eq', expired') := foldl (expirePending cutoff) (eq, expired) order in
  core_inv (activeTasks eq') (pendingTasks eq') expired' (heap eq').
Proof.
  revert eq expired. induction order as [| k order IH]; intros eq expired Hinv; [done |].
  cbn [foldl]. pose proof (expirePending_inv cutoff eq expired k Hinv) as Hk.
  destruct (expirePending cutoff (eq, expired) k) as [eq1 ex1]. by apply IH.
Qed.

Lemma removeAll_inv expired eq :
  core_inv (activeTasks eq) (pendingTasks eq) expired (heap eq) ->
  queue_inv (foldl (fun eq r => removeFromHeap r eq) eq expired).
Proof.
  revert eq. induction expired as [| r expired IH]; intros eq Hinv; [done |].
  cbn [foldl]. apply IH.
  destruct (inv_remove _ _ _ _ _ Hinv) as (h' & Hrem & Hsame & Hidx & Hinv').
  unfold removeFromHeap. change (Len (heap eq)) with (length (arr (heap eq))).
  destruct (Z.ltb_spec (index (task (heap eq) r)) 0); [lia |].
  destruct (Z.leb_spec (Z.of_nat (length (arr (heap eq)))) (index (task (heap eq) r))); [lia |].
  simpl. by rewrite Hrem.
Qed.

Lemma inv_newTask t eq : queue_inv eq -> queue_inv (fst (newTask t eq)).
Proof.
  intros [[[Hnd Hrange Hidx] Hok] Hp Ha He Hn Hd Hac]. unfold queue_inv; simpl.
  set (h' := mkTaskHeap _ _).
  assert (forall r, (r < length (tasks (heap eq)))%nat -> task h' r = task (heap eq) r) as Htask.
  { intros r Hr. unfold task, h'; simpl. by rewrite lookup_app_l. }
  assert (forall r, r ∈ arr (heap eq) -> task h' r = task (heap eq) r) as Htask' by eauto.
  assert (forall i r, arr (heap eq) !! i = Some r -> task h' r = task (heap eq) r) as Htask''.
  { intros i r Hi. apply Htask', list_elem_of_lookup. eauto. }
  constructor; simpl; try done.
  - split.
    + constructor; [done | |].
      * intros r Hr. simpl. rewrite length_app. specialize (Hrange r Hr). lia.
      * intros i r Hi. rewrite (Htask'' i) by done. by apply Hidx.
    + apply heap_ok_entry. intros i Hi. simpl in Hi. pose proof (parent_lt i ltac:(lia)).
      assert (forall j, (j < length (arr (heap eq)))%nat -> entry h' j = entry (heap eq) j) as Hentry.
      { intros j Hj. destruct (lookup_lt_is_Some_2 (arr (heap eq)) j Hj) as [c Hc].
        rewrite (entry_lookup (heap eq) j c Hc), (entry_lookup h' j c Hc). by rewrite (Htask'' j). }
      rewrite !Hentry by lia. by apply heap_ok_entry with (length (arr (heap eq))).
  - intros k r Hk. destruct (Hp k r Hk) as [Hr <-]. split; [done |]. unfold refKey. by rewrite Htask'.
  - intros r Hr. unfold refKey. rewrite Htask' by done. by apply Ha.
  - intros r H. by apply elem_of_nil in H.
  - intros k r Hk. destruct (Hac k r Hk) as [Hr <-]. rewrite length_app. split; [lia |].
    unfold refKey. by rewrite Htask.
Qed.

Lemma runOp_inv o eq : queue_inv eq -> allowed o eq -> queue_inv (runOp o eq).
Proof.
  intros Hinv Hall. destruct o as [t | r | | r order | r now | ns nm ph | now order | |]; simpl in *.
  - by apply inv_newTask.
  - unfold Enqueue. destruct (activeTasks eq !! keyOf eq r) eqn:Ea; [done |].
    destruct (pendingTasks eq !! keyOf eq r) eqn:Ep; [done |]. goal_if.
    assert (r ∉ arr (heap eq)) as Hnin.
    { intros Hin. destruct (ci_arr _ _ _ _ Hinv r Hin) as [H | H]; [| by apply elem_of_nil in H].
      change (refKey (heap eq) r) with (keyOf eq r) in H. congruence. }
    pose proof (inv_push _ _ _ r Hinv Hnin Hall Ep) as H.
    change (refKey (heap eq) r) with (keyOf eq r) in H. by rewrite delete_id in H.
  - destruct (Dequeue_inv eq Hinv) as [[_ ->] | (eq' & r & -> & Hinv' & _)]; done.
  - unfold CompleteTask. destruct (activeTasks eq !! keyOf eq r); [| done].
    apply (inv_drop_active (activeTasks eq)); [apply delete_subseteq | done].
  - unfold FailTask. set (eq1 := with_maps _ _ _ _).
    assert (queue_inv eq1) as Hinv1
      by (apply (inv_drop_active (activeTasks eq)); [apply delete_subseteq | done]).
    goal_if.
    pose proof (inv_active_notin _ _ _ _ _ Hinv Hall) as Hnin.
    destruct (ci_active _ _ _ _ Hinv _ _ Hall) as [Hr _].
    set (h := mkTaskHeap (alter (set_retry now) r (tasks (heap eq1))) (arr (heap eq1))).
    assert (core_inv (delete (keyOf eq r) (activeTasks eq)) (pendingTasks eq) [] h) as Hinv2
      by (by apply inv_update).
    assert (refKey h r = keyOf eq r) as Hk.
    { unfold refKey, task, h; simpl. rewrite list_lookup_alter_eq. unfold keyOf, task.
      by destruct (lookup_lt_is_Some_2 _ _ Hr) as [t ->]. }
    pose proof (inv_push _ _ h r Hinv2 Hnin) as H. rewrite Hk in H. simpl.
    assert (delete (keyOf eq r) (delete (keyOf eq r) (activeTasks eq))
      = delete (keyOf eq r) (activeTasks eq)) as Hdd by (apply delete_id, lookup_delete_eq).
    rewrite Hdd in H. apply H.
    + unfold h; simpl. by rewrite length_alter.
    + apply (ci_disjoint _ _ _ _ Hinv). by exists r.
  - unfold CancelTask. set (k := taskKey ns nm ph).
    destruct (pendingTasks eq !! k) as [r |] eqn:Ek.
    + pose proof (expirePending_inv (Timestamp (task (heap eq) r) + 1) eq [] k Hinv) as H.
      unfold expirePending in H. rewrite Ek in H.
      assert (time_Before (Timestamp (task (heap eq) r)) (Timestamp (task (heap eq) r) + 1) = true) as Ht
        by (apply time_Before_spec; lia).
      rewrite Ht in H. apply removeAll_inv in H. simpl in H |- *.
      unfold queue_inv, removeFromHeap in *. simpl in *. by goal_if.
    + destruct (activeTasks eq !! k) as [r |] eqn:Ea; [| done].
      destruct (cancelledContext _) as [c |]; [| done].
      apply inv_update; [done | by eapply inv_active_notin | done].
  - unfold CleanupExpiredTasks. set (cutoff := time_Add _ _).
    pose proof (expirePending_all_inv cutoff order (expireActive cutoff eq) []) as H.
    destruct (foldl (expirePending cutoff) (expireActive cutoff eq, []) order) as [eq1 expired].
    simpl. apply removeAll_inv, H.
    apply (inv_drop_active (activeTasks eq)); [apply map_filter_subseteq | done].
  - by apply processQueue_inv.
  - unfold receive. by destruct (channel eq).
Qed.

Lemma queue_inv_new cap : queue_inv (NewExecutionQueue cap).
Proof.
  constructor; simpl.
  - split; [constructor; simpl |].
    + constructor.
    + intros r H. by apply elem_of_nil in H.
    + intros i r. by rewrite lookup_nil.
    + apply heap_ok_entry. intros i Hi. simpl in Hi. lia.
  - intros k r. by rewrite lookup_empty.
  - intros r H. by apply elem_of_nil in H.
  - intros r H. by apply elem_of_nil in H.
  - constructor.
  - intros k _. apply lookup_empty.
  - intros k r. by rewrite lookup_empty.
Qed.

Lemma run_inv os eq eq' : run os eq eq' -> queue_inv eq -> queue_inv eq'.
Proof. induction 1 as [| o os eq1 eq2 Hall _ IH]; eauto using runOp_inv. Qed.

(** C8 - Under any sequence of operations of callers that enqueue existing
    tasks and fail only active ones, the queue keeps its invariant: the array
    is in heap order with correct indices and no duplicate, its tasks are
    exactly the pending ones under their keys, and no key is both pending and
    active. *)
Theorem queue_invariant cap os eq (H : run os (NewExecutionQueue cap) eq) : queue_inv eq.
Proof.
  exact (run_inv _ _ _ H (queue_inv_new cap)).
Qed.

(** [Dequeue] on a reachable queue fails exactly when nothing is pending;
    otherwise it makes one pending task active, no pending task has a higher
    priority or, at the same priority, an older timestamp, and every other
    pending task stays pending. *)
Theorem dequeue_takes_first cap os eq (H : run os (NewExecutionQueue cap) eq) :
  match snd (Dequeue eq) with
  | Err e => e = QueueEmpty /\ pendingTasks eq = ∅ /\ fst (Dequeue eq) = eq
  | Ok r =>
      let eq' := fst (Dequeue eq) in
      let t := task (heap eq) r in
      pendingTasks eq !! getTaskKey t = Some r /\
      pendingTasks eq' = delete (getTaskKey t) (pendingTasks eq) /\
      activeTasks eq' = <[getTaskKey t := r]> (activeTasks eq) /\
      forall k r', pendingTasks eq !! k = Some r' ->
        let t' := task (heap eq) r' in
        Priority t' < Priority t \/ (Priority t' = Priority t /\ Timestamp t <= Timestamp t')
  end.
Proof.
  pose proof (run_inv _ _ _ H (queue_inv_new cap)) as Hinv.
  destruct (Dequeue_inv eq Hinv) as [[Harr ->] | (eq' & r & -> & _ & _ & _ & Hp & Hp' & Ha' & _ & _ & _ & Hbest)]; simpl.
  - split_and!; [done | | done]. apply map_eq. intros k. rewrite lookup_empty.
    destruct (pendingTasks eq !! k) as [r |] eqn:E; [| done].
    destruct (ci_pending _ _ _ _ Hinv k r E) as [Hin _]. rewrite Harr in Hin. by apply elem_of_nil in Hin.
  - split_and!; try done. intros k r' Hk. destruct (ci_pending _ _ _ _ Hinv k r' Hk) as [Hin _].
    specialize (Hbest r' Hin). unfold less_task in Hbest.
    destruct (Z.eqb_spec (Priority (task (heap eq) r')) (Priority (task (heap eq) r))); simpl in Hbest.
    + right. split; [done |]. by apply time_Before_false in Hbest.
    + left. apply Z.ltb_ge in Hbest. lia.
Qed.

(** ** Head-of-line blocking *)

(** The pending task every other one comes after. *)
Definition strictly_first (eq : ExecutionQueue) (r : nat) : Prop :=
  r ∈ arr (heap eq) /\
  forall r', r' ∈ arr (heap eq) -> r' <> r -> less_task (task (heap eq) r) (task (heap eq) r') = true.

Lemma less_task_asym a b : less_task a b = true -> less_task b a = false.
Proof.
  unfold less_task, time_Before. destruct (Z.eqb_spec (Priority a) (Priority b)),
    (Z.eqb_spec (Priority b) (Priority a)); simpl; rewrite ?Z.ltb_lt, ?Z.ltb_ge; lia.
Qed.

Lemma less_task_same a a' b b' :
  set_index 0 a = set_index 0 a' -> set_index 0 b = set_index 0 b' -> less_task a b = less_task a' b'.
Proof.
  intros Ha Hb. destruct (same_task_fields _ _ Ha) as (E1 & E2 & _).
  destruct (same_task_fields _ _ Hb) as (E3 & E4 & _). unfold less_task. by rewrite E1, E2, E3, E4.
Qed.

Lemma checkTaskDependencies_same eq eq' r :
  same_tasks (heap eq) (heap eq') -> completedTasks eq' = completedTasks eq ->
  checkTaskDependencies r eq' = checkTaskDependencies r eq.
Proof.
  intros [_ Hsame] Hc. unfold checkTaskDependencies. rewrite Hc.
  by destruct (same_task_fields _ _ (Hsame r)) as (_ & _ & _ & -> & _).
Qed.

(** One tick of the processor puts a blocked first task back. *)
Lemma processQueue_blocked eq r :
  queue_inv eq -> strictly_first eq r -> checkTaskDependencies r eq = false ->
  let eq' := processQueue eq in
  queue_inv eq' /\ strictly_first eq' r /\ checkTaskDependencies r eq' = false /\
  channel eq' = channel eq /\ pendingTasks eq' = pendingTasks eq /\
  activeTasks eq' = activeTasks eq /\ completedTasks eq' = completedTasks eq.
Proof.
  intros Hinv [Hr Hfirst] Hdep. cbv zeta. pose proof (processQueue_inv eq Hinv) as Hinv'.
  split; [done |]. clear Hinv'. unfold processQueue. destruct (_ <=? _)%nat; [done |].
  destruct (Dequeue_inv eq Hinv) as [[Harr _] | (eq1 & r1 & -> & Hinv1 & Hsame & Hperm & Hp & Hp' & Ha' & Hc & Hch & Hcap & Hbest)].
  { rewrite Harr in Hr. by apply elem_of_nil in Hr. }
  assert (r1 = r) as ->.
  { destruct (decide (r1 = r)) as [| Hne]; [done |]. specialize (Hbest r Hr).
    assert (r1 ∈ arr (heap eq)) as Hr1 by (rewrite Hperm; apply elem_of_cons; auto).
    rewrite (Hfirst r1 Hr1 Hne) in Hbest. done. }
  rewrite (checkTaskDependencies_same eq eq1) by done. rewrite Hdep. cbn [negb].
  assert (keyOf eq1 r = keyOf eq r) as Hk by (by apply same_tasks_refKey).
  destruct (requeue_inv eq1 r Hinv1) as (_ & Hperm' & Hsame').
  { rewrite Hk, Ha'. apply lookup_insert_eq. }
  assert (same_tasks (heap eq) (heap (requeue r eq1))) as Hsame2 by (by etrans).
  split_and!.
  - split; [rewrite Hperm'; apply elem_of_cons; auto |].
    intros r'. rewrite Hperm', <- Hperm. intros Hr' Hne. rewrite <- (Hfirst r' Hr' Hne).
    apply less_task_same; apply Hsame2.
  - rewrite <- Hdep. by apply checkTaskDependencies_same.
  - done.
  - simpl. rewrite Hk, Hp'. by rewrite insert_delete_id.
  - simpl. rewrite Hk, Ha'. rewrite delete_insert_eq. apply delete_id.
    destruct (activeTasks eq !! keyOf eq r) eqn:E; [| done].
    pose proof (ci_disjoint _ _ _ _ Hinv (keyOf eq r) ltac:(eauto)). congruence.
  - done.
Qed.

(** Head-of-line blocking: when the first task of a reachable queue has a
    dependency that is not completed, the background processor never sends
    anything: after any number of ticks the channel and the pending, active and
    completed tasks are the same, even when the dependency itself is waiting
    behind that task. *)
Theorem head_of_line_blocks cap os eq r n
  (H : run os (NewExecutionQueue cap) eq) (Hfirst : strictly_first eq r)
  (Hdep : checkTaskDependencies r eq = false) :
  let eq' := Nat.iter n processQueue eq in
  channel eq' = channel eq /\ pendingTasks eq' = pendingTasks eq /\
  activeTasks eq' = activeTasks eq /\ completedTasks eq' = completedTasks eq.
Proof.
  pose proof (run_inv _ _ _ H (queue_inv_new cap)) as Hinv.
  assert (let eq' := Nat.iter n processQueue eq in
    queue_inv eq' /\ strictly_first eq' r /\ checkTaskDependencies r eq' = false /\
    channel eq' = channel eq /\ pendingTasks eq' = pendingTasks eq /\
    activeTasks eq' = activeTasks eq /\ completedTasks eq' = completedTasks eq) as Hn.
  { induction n as [| n IH]; [done |]. cbv zeta in *. simpl.
    destruct IH as (I1 & I2 & I3 & I4 & I5 & I6 & I7).
    destruct (processQueue_blocked _ r I1 I2 I3) as (J1 & J2 & J3 & J4 & J5 & J6 & J7).
    split_and!; try done; congruence. }
  apply Hn.
Qed.

(** ** The queue under the coordination manager

    pkg/shared/coordination_manager.go enqueues tasks and its workers receive
    them; it never calls [CompleteTask] or [FailTask]. *)
Definition coordination_op (o : QueueOp) : Prop :=
  match o with OpNew _ | OpEnqueue _ | OpProcess | OpReceive => True | _ => False end.

(** A tick changes nothing but the heap's order, or sends one pending task. *)
Lemma processQueue_sends eq : queue_inv eq -> let eq' := processQueue eq in
  same_tasks (heap eq) (heap eq') /\
  ((channel eq' = channel eq /\ activeTasks eq' = activeTasks eq) \/
   exists r, channel eq' = channel eq ++ [r] /\ activeTasks eq' = <[keyOf eq r := r]> (activeTasks eq) /\
     activeTasks eq !! keyOf eq r = None).
Proof.
  intros Hinv. cbv zeta. unfold processQueue. destruct (_ <=? _)%nat; [split; [reflexivity | by left] |].
  destruct (Dequeue_inv eq Hinv) as [[_ ->] | (eq1 & r & -> & Hinv1 & Hsame & _ & Hp & _ & Ha & _ & Hch & _)];
    [split; [reflexivity | by left] |].
  assert (keyOf eq1 r = keyOf eq r) as Hk by (by apply same_tasks_refKey).
  assert (activeTasks eq !! keyOf eq r = None) as Hn.
  { destruct (activeTasks eq !! keyOf eq r) eqn:E; [| done].
    pose proof (ci_disjoint _ _ _ _ Hinv (keyOf eq r) ltac:(eauto)). congruence. }
  assert (same_tasks (heap eq) (heap (requeue r eq1)) /\ channel (requeue r eq1) = channel eq /\
    activeTasks (requeue r eq1) = activeTasks eq) as Hre.
  { destruct (requeue_inv eq1 r Hinv1) as (_ & _ & Hsame'); [rewrite Hk, Ha; apply lookup_insert_eq |].
    split; [by etrans |]. split; [done |]. cbn. rewrite Hk, Ha, delete_insert_eq. by apply delete_id. }
  destruct (checkTaskDependencies r eq1); cbn [negb]; [destruct (_ <? _)%nat |]; [| by destruct Hre as (? & ? & ?); split; [| left] ..].
  split; [done |]. right. exists r. by rewrite <- Hch.
Qed.

(** A new task joins the pending ones, or is refused; others keep their fields. *)
Lemma enqueue_new t eq : queue_inv eq ->
  let '(eq1, r) := newTask t eq in let eq' := fst (Enqueue r eq1) in
  queue_inv eq' /\ channel eq' = channel eq /\ activeTasks eq' = activeTasks eq /\ same_tasks (heap eq1) (heap eq') /\
  tasks (heap eq1) = tasks (heap eq) ++ [t].
Proof.
  intros Hinv. pose proof (inv_newTask t eq Hinv) as Hinv1. cbn in *.
  set (r := length (tasks (heap eq))) in *. set (eq1 := with_heap _ eq) in *.
  split; [exact (runOp_inv (OpEnqueue r) eq1 Hinv1 ltac:(cbn; rewrite length_app; cbn; lia)) |].
  unfold Enqueue. destruct (activeTasks eq1 !! _); [by split_and! |]. destruct (pendingTasks eq1 !! _) eqn:Ep; [by split_and! |].
  destruct (_ <=? _)%nat; [by split_and! |]. cbn [fst with_counts with_heap channel activeTasks heap with_maps].
  split_and!; [done .. | | done]. apply push_spec; [apply (ci_heap _ _ _ _ Hinv1) | | cbn; rewrite length_app; cbn; lia].
  intros Hin. destruct (ci_arr _ _ _ _ Hinv1 r Hin) as [E | E]; [| by apply elem_of_nil in E]. unfold keyOf in Ep. unfold refKey in E. congruence.
Qed.

Lemma processQueue_active eq k r :
  queue_inv eq -> activeTasks eq !! k = Some r ->
  activeTasks (processQueue eq) !! k = Some r /\ completedTasks (processQueue eq) = completedTasks eq.
Proof.
  intros Hinv Hk. unfold processQueue. destruct (_ <=? _)%nat; [done |].
  destruct (Dequeue_inv eq Hinv) as [[_ ->] | (eq1 & r1 & -> & _ & Hsame & _ & Hp & _ & Ha' & Hc & _)]; [done |].
  assert (keyOf eq1 r1 = keyOf eq r1) as Hk1 by (by apply same_tasks_refKey).
  assert (k <> keyOf eq r1) as Hne.
  { intros ->. pose proof (ci_disjoint _ _ _ _ Hinv _ (ex_intro _ r Hk)). congruence. }
  assert (activeTasks eq1 !! k = Some r) as Hk' by (rewrite Ha'; by rewrite lookup_insert_ne).
  repeat case_match; simpl; rewrite ?Hk1, ?lookup_delete_ne by done; done.
Qed.

Lemma coordination_step o eq k r :
  queue_inv eq -> coordination_op o -> activeTasks eq !! k = Some r ->
  activeTasks (runOp o eq) !! k = Some r.
Proof.
  intros Hinv Ho Hk. destruct o; simpl in *; try done.
  - unfold Enqueue. by repeat case_match.
  - by apply processQueue_active.
  - unfold receive. by destruct (channel eq).
Qed.

(** Tasks handed to the coordination manager's workers are never
    finished: a task stays active for ever, so the same intent and phase can
    never be enqueued again. *)
Theorem delivered_tasks_stay_active cap os eq os' eq' k r r'
  (H : run os (NewExecutionQueue cap) eq) (Hactive : activeTasks eq !! k = Some r)
  (H' : run os' eq eq') (Hops : Forall coordination_op os')
  (Hr' : getTaskKey (task (heap eq') r') = k) :
  activeTasks eq' !! k = Some r /\ Enqueue r' eq' = (eq', Err TaskAlreadyActive).
Proof.
  pose proof (run_inv _ _ _ H (queue_inv_new cap)) as Hinv. clear H.
  assert (activeTasks eq' !! k = Some r) as Ha.
  { clear Hr'. induction H' as [| o os1 eq1 eq2 Hall _ IH]; [done |].
    apply Forall_cons in Hops as [Ho Hops].
    apply IH; [by apply coordination_step | done | by apply runOp_inv]. }
  split; [done |]. unfold Enqueue, keyOf. by rewrite Hr', Ha.
Qed.

(** ** A late failure duplicates a key *)

Definition sampleTask (prio : Z) (nm : string) (deps : list string) : ExecutionTask :=
  mkTask "ns" nm "LLMProcessing" prio 0 NoContext 0 3 deps 0.

(** A task is dequeued, expires, is replaced by a new task of the same key,
    and only then reported as failed. *)
Definition lateFailure : list QueueOp :=
  [OpNew (sampleTask 5 "a" []); OpEnqueue 0; OpDequeue;
   OpCleanup (31 * Minute) [];
   OpNew (sampleTask 5 "a" []); OpEnqueue 1;
   OpFail 0 (31 * Minute)].

Definition runAll (os : list QueueOp) (eq : ExecutionQueue) : ExecutionQueue := foldl (fun eq o => runOp o eq) eq os.

(** [FailTask] does not check that the task is still active: after a late
    failure report two tasks of the same key are in the heap while one is
    pending, and both are dequeued. *)
Theorem late_failure_duplicates :
  let eq := runAll lateFailure (NewExecutionQueue 4) in
  keyOf eq 0 = keyOf eq 1 /\ GetPendingCount eq = 1%nat /\ Len (heap eq) = 2%nat /\
  let '(eq1, r1) := Dequeue eq in let '(eq2, r2) := Dequeue eq1 in
  r1 = Ok 0%nat /\ r2 = Ok 1%nat /\ activeTasks eq2 !! keyOf eq 0 = Some 1%nat.
Proof. by vm_compute. Qed.

(** ** The theorems at concrete queues *)

(** The first task waits for the second one. *)
Definition blockedOps : list QueueOp :=
  [OpNew (sampleTask 10 "a" ["ns/b:LLMProcessing"]); OpEnqueue 0;
   OpNew (sampleTask 1 "b" []); OpEnqueue 1].

Lemma run_runAll os eq :
  (fix ok (os : list QueueOp) (eq : ExecutionQueue) : Prop :=
     match os with [] => True | o :: os => allowed o eq /\ ok os (runOp o eq) end) os eq ->
  run os eq (runAll os eq).
Proof.
  revert eq. induction os as [| o os IH]; intros eq; simpl; [constructor |].
  intros [Ho Hos]. constructor; auto.
Qed.

Lemma blockedOps_run : run blockedOps (NewExecutionQueue 4) (runAll blockedOps (NewExecutionQueue 4)).
Proof. apply run_runAll. vm_compute. repeat split; lia. Qed.

Lemma queue_invariant_witness : queue_inv (runAll blockedOps (NewExecutionQueue 4)).
Proof. apply (queue_invariant 4 blockedOps). apply blockedOps_run. Defined.

Lemma dequeue_takes_first_witness :
  pendingTasks (runAll blockedOps (NewExecutionQueue 4)) !! "ns/a:LLMProcessing" = Some 0%nat /\
  snd (Dequeue (runAll blockedOps (NewExecutionQueue 4))) = Ok 0%nat.
Proof.
  pose proof (dequeue_takes_first 4 blockedOps _ blockedOps_run) as H.
  assert (snd (Dequeue (runAll blockedOps (NewExecutionQueue 4))) = Ok 0%nat) as E by (by vm_compute).
  rewrite E in H. split; [apply H | done].
Defined.

Lemma head_of_line_blocks_witness :
  channel (Nat.iter 100 processQueue (runAll blockedOps (NewExecutionQueue 4))) = [].
Proof.
  apply (head_of_line_blocks 4 blockedOps _ 0 100 blockedOps_run); [| by vm_compute].
  split; [apply list_elem_of_In; vm_compute; auto |].
  intros r' Hr Hne. apply list_elem_of_In in Hr. vm_compute in Hr.
  destruct Hr as [<- | [<- | []]]; [done | by vm_compute].
Defined.

Definition deliveredOps : list QueueOp := [OpNew (sampleTask 1 "b" []); OpEnqueue 0; OpProcess].

Lemma delivered_tasks_stay_active_witness :
  activeTasks (runAll [OpReceive] (runAll deliveredOps (NewExecutionQueue 4))) !! "ns/b:LLMProcessing" = Some 0%nat.
Proof.
  apply (delivered_tasks_stay_active 4 deliveredOps (runAll deliveredOps (NewExecutionQueue 4))
    [OpReceive] _ "ns/b:LLMProcessing" 0 0); try (by vm_compute).
  - apply run_runAll. vm_compute. repeat split; lia.
  - by apply run_runAll.
  - repeat constructor.
Defined.
