(* ===== verification/StateCache.v ===== *)
(** * StateCache: the LRU cache of intent states

    Follows pkg/shared/state_cache.go.  Entries are shared objects: the map
    of the cache, its eviction list and a [Get] that has released the lock
    hold references into a store of entries.  The eviction list is a
    [container/list.List]; an element is created once per entry and is named
    by the entry's reference, so that an element taken off the list (or left
    in a list the cache has replaced) is one that is not in [evictionList],
    on which [Remove] and [MoveToFront] do nothing.

    [Get] releases the lock between its sections: [get_step] is its sequence
    of sections, [Get] their composition when nothing interferes. *)

From S2P Require Import Prelude GoFloat.
Local Open Scope Z_scope.

(** An [interface{}] value: [None] is [nil]. *)
Abbreviation Any := (option string).

Record CacheEntry := mkEntry {
  Key : string;
  Value : Any;
  ExpiresAt : Time;
  AccessCount : Z;
  LastAccess : Time;
  CreatedAt : Time;
  Size_ : Z;
  element : option nat
}.

Definition zeroEntry : CacheEntry := mkEntry "" None 0 0 0 0 0 None.

Record StateCache := mkCache {
  store : list CacheEntry;
  entries : gmap string nat;
  evictionList : list nat;
  maxSize : Z;
  defaultTTL : Duration;
  hits : Z;
  misses : Z;
  evictions : Z;
  currentSize : Z
}.

Definition NewStateCache (maxSize : Z) (defaultTTL : Duration) : StateCache :=
  mkCache [] ∅ [] maxSize defaultTTL 0 0 0 0.

Definition entry (c : StateCache) (r : nat) : CacheEntry := default zeroEntry (store c !! r).

Definition with_store (s : list CacheEntry) (c : StateCache) : StateCache :=
  mkCache s (entries c) (evictionList c) (maxSize c) (defaultTTL c) (hits c) (misses c)
    (evictions c) (currentSize c).

Definition with_list (l : list nat) (c : StateCache) : StateCache :=
  mkCache (store c) (entries c) l (maxSize c) (defaultTTL c) (hits c) (misses c)
    (evictions c) (currentSize c).

Definition with_entries (m : gmap string nat) (l : list nat) (n : Z) (c : StateCache) : StateCache :=
  mkCache (store c) m l (maxSize c) (defaultTTL c) (hits c) (misses c) (evictions c) n.

Definition count (dh dm de : Z) (c : StateCache) : StateCache :=
  mkCache (store c) (entries c) (evictionList c) (maxSize c) (defaultTTL c) (hits c + dh)
    (misses c + dm) (evictions c + de) (currentSize c).

(** ** container/list *)

Definition list_Remove (e : nat) (l : list nat) : list nat := filter (λ x, x ≠ e) l.

Definition list_MoveToFront (e : nat) (l : list nat) : list nat :=
  if bool_decide (e ∈ l) then e :: list_Remove e l else l.

(** ** Internal methods *)

Definition removeEntry (key : string) (c : StateCache) : StateCache :=
  match entries c !! key with
  | None => c
  | Some r =>
      let l := match element (entry c r) with
               | Some e => list_Remove e (evictionList c)
               | None => evictionList c
               end in
      with_entries (delete key (entries c)) l (currentSize c - 1) c
  end.

Definition moveToFront (r : nat) (c : StateCache) : StateCache :=
  match element (entry c r) with
  | Some e => with_list (list_MoveToFront e (evictionList c)) c
  | None => c
  end.

Definition evictOldest (c : StateCache) : StateCache :=
  match last (evictionList c) with
  | None => c
  | Some r => count 0 0 1 (removeEntry (Key (entry c r)) c)
  end.

(** The eviction loop; [None] when [fuel] rounds do not end it. *)
Fixpoint evictLoop (fuel : nat) (c : StateCache) : option StateCache :=
  match fuel with
  | O => None
  | S fuel => if maxSize c <? Z.of_nat (size (entries c)) then evictLoop fuel (evictOldest c) else Some c
  end.

(** A round more than there are elements: then the list is empty, and
    [evictOldest] no longer changes the cache. *)
Definition evictIfNecessary (c : StateCache) : option StateCache :=
  evictLoop (S (length (evictionList c))) c.

Definition calculateSize (value : Any) : Z := 1.

(** ** Operations *)

Definition touched (now : Time) (e : CacheEntry) : CacheEntry :=
  mkEntry (Key e) (Value e) (ExpiresAt e) (AccessCount e + 1) now (CreatedAt e) (Size_ e) (element e).

Definition updated (value : Any) (expiresAt now : Time) (e : CacheEntry) : CacheEntry :=
  mkEntry (Key e) value expiresAt (AccessCount e + 1) now (CreatedAt e) (Size_ e) (element e).

(** The three locked sections of [Get] after the lookup. *)
Definition Get_miss (c : StateCache) : StateCache := count 0 1 0 c.

Definition Get_expired (key : string) (c : StateCache) : StateCache :=
  count 0 1 0 (removeEntry key c).

Definition Get_hit (r : nat) (now : Time) (c : StateCache) : StateCache :=
  count 1 0 0 (moveToFront r (with_store (alter (touched now) r (store c)) c)).

(** [Get] when nothing interferes; [t1] and [t2] are its clock readings. *)
Definition Get (key : string) (t1 t2 : Time) (c : StateCache) : StateCache * Any :=
  match entries c !! key with
  | None => (Get_miss c, None)
  | Some r =>
      if time_After t1 (ExpiresAt (entry c r)) then (Get_expired key c, None)
      else let c := Get_hit r t2 c in (c, Value (entry c r))
  end.

Record CacheEntryStats := mkEntryStats {
  es_AccessCount : Z;
  es_LastAccess : Time;
  es_CreatedAt : Time;
  es_Size : Z;
  es_TimeToExpiry : Duration
}.

(** [t3] is the clock reading of [time.Until]. *)
Definition GetWithStats (key : string) (t1 t2 t3 : Time) (c : StateCache)
  : StateCache * (Any * option CacheEntryStats) :=
  match entries c !! key with
  | None => (Get_miss c, (None, None))
  | Some r =>
      if time_After t1 (ExpiresAt (entry c r)) then (Get_expired key c, (None, None))
      else
        let c := Get_hit r t2 c in
        let e := entry c r in
        (c, (Value e, Some (mkEntryStats (AccessCount e) (LastAccess e) (CreatedAt e) (Size_ e)
                              (time_Sub (ExpiresAt e) t3))))
  end.

(** [None]: the eviction loop does not end. *)
Definition Set_ (key : string) (value : Any) (ttl : Duration) (now : Time) (c : StateCache)
  : option StateCache :=
  let ttl := if ttl =? 0 then defaultTTL c else ttl in
  let expiresAt := time_Add now ttl in
  match entries c !! key with
  | Some r => Some (moveToFront r (with_store (alter (updated value expiresAt now) r (store c)) c))
  | None =>
      let r := length (store c) in
      let e := mkEntry key value expiresAt 1 now now (calculateSize value) (Some r) in
      let c := with_store (store c ++ [e]) c in
      let c := with_entries (<[key := r]> (entries c)) (r :: evictionList c) (currentSize c + 1) c in
      evictIfNecessary c
  end.

Definition Delete (key : string) (c : StateCache) : StateCache * bool :=
  match entries c !! key with
  | None => (c, false)
  | Some r =>
      let c := removeEntry key c in
      (match element (entry c r) with
       | Some e => with_list (list_Remove e (evictionList c)) c
       | None => c
       end, true)
  end.

Definition Clear (c : StateCache) : StateCache := with_entries ∅ [] 0 c.

Definition Size (c : StateCache) : Z := Z.of_nat (size (entries c)).

(** The keys in the order the map is ranged over. *)
Definition rangeKeys (shuffle : list string -> list string) (c : StateCache) : list string :=
  shuffle (map_to_list (entries c)).*1.

Definition isExpired (now : Time) (c : StateCache) (key : string) : bool :=
  match entries c !! key with
  | Some r => time_After now (ExpiresAt (entry c r))
  | None => false
  end.

Definition Cleanup (shuffle : list string -> list string) (now : Time) (c : StateCache)
  : StateCache * Z :=
  let expired := filter (λ k, isExpired now c k = true) (rangeKeys shuffle c) in
  (foldl (λ c k, removeEntry k c) c expired, Z.of_nat (length expired)).

Definition Keys (shuffle : list string -> list string) (c : StateCache) : list string :=
  rangeKeys shuffle c.

Definition Contains (key : string) (now : Time) (c : StateCache) : bool :=
  match entries c !! key with
  | None => false
  | Some r => time_Before now (ExpiresAt (entry c r))
  end.

Fixpoint GetMultiple (keys : list (string * Time * Time)) (result : gmap string string)
  (c : StateCache) : StateCache * gmap string string :=
  match keys with
  | [] => (c, result)
  | (key, t1, t2) :: keys =>
      let '(c, value) := Get key t1 t2 c in
      GetMultiple keys (match value with Some v => <[key := v]> result | None => result end) c
  end.

(** The entries in range order, with the clock reading of each [Set]. *)
Fixpoint SetMultiple (es : list (string * Any * Time)) (ttl : Duration) (c : StateCache)
  : option StateCache :=
  match es with
  | [] => Some c
  | (key, value, now) :: es =>
      match Set_ key value ttl now c with
      | Some c => SetMultiple es ttl c
      | None => None
      end
  end.

Definition GetOldest (c : StateCache) : string * Any * bool :=
  match last (evictionList c) with
  | None => ("", None, false)
  | Some r => (Key (entry c r), Value (entry c r), true)
  end.

Definition GetMostRecent (c : StateCache) : string * Any * bool :=
  match head (evictionList c) with
  | None => ("", None, false)
  | Some r => (Key (entry c r), Value (entry c r), true)
  end.

Record CacheStats := mkStats {
  st_Hits : Z;
  st_Misses : Z;
  st_HitRate : float64;
  st_Evictions : Z;
  st_CurrentSize : Z;
  st_MaxSize : Z;
  st_EntryCount : Z
}.

Definition Stats (c : StateCache) : CacheStats :=
  let total := hits c + misses c in
  let hitRate := if 0 <? total then f64_ratio (hits c) total else f64_zero in
  mkStats (hits c) (misses c) hitRate (evictions c) (currentSize c) (maxSize c)
    (Z.of_nat (size (entries c))).

Record CacheConfig := mkConfig {
  cc_MaxSize : Z;
  cc_DefaultTTL : Duration;
  cc_CleanupInterval : Duration;
  cc_EvictionPolicy : string;
  cc_MaxMemoryMB : Z;
  cc_EnableStatistics : bool;
  cc_EnableMetrics : bool
}.

Definition DefaultCacheConfig : CacheConfig :=
  mkConfig 10000 (30 * Minute) (5 * Minute) "lru" 100 true true.

(** What the goroutine of [SetWithCallback] decides after its sleep. *)
Definition SetWithCallback_fires (key : string) (now : Time) (c : StateCache) : bool :=
  negb (Contains key now c).

(** ** Interleaving

    [Get] and [GetWithStats] as the sections other goroutines run between. *)
Inductive GetPC :=
| GetStart (key : string)
| GetMissed
| GetFound (key : string) (r : nat)
| GetExpired (key : string)
| GetFresh (r : nat)
| GetRead (r : nat)
| GetDone (v : Any).

Definition get_step (now : Time) (pc : GetPC) (c : StateCache) : GetPC * StateCache :=
  match pc with
  | GetStart key =>
      match entries c !! key with
      | None => (GetMissed, c)
      | Some r => (GetFound key r, c)
      end
  | GetMissed => (GetDone None, Get_miss c)
  | GetFound key r =>
      if time_After now (ExpiresAt (entry c r)) then (GetExpired key, c) else (GetFresh r, c)
  | GetExpired key => (GetDone None, Get_expired key c)
  | GetFresh r => (GetRead r, Get_hit r now c)
  | GetRead r => (GetDone (Value (entry c r)), c)
  | GetDone v => (GetDone v, c)
  end.

(** The goroutine of [runCleanup]. *)
Inductive Janitor :=
| NotStarted
| Running
| Exited.

Record System := mkSystem {
  cache : StateCache;
  gets : list GetPC;
  janitor : Janitor;
  cleanupRunning : bool
}.

Definition with_cache (c : StateCache) (s : System) : System :=
  mkSystem c (gets s) (janitor s) (cleanupRunning s).

Definition start (maxSize : Z) (defaultTTL : Duration) : System :=
  mkSystem (NewStateCache maxSize defaultTTL) [] NotStarted false.

(** [Stop] sends to the goroutine when it has seen the flag, and returns at
    once when it has not. *)
Definition Stop (s : System) : System :=
  if cleanupRunning s then mkSystem (cache s) (gets s) Exited false else s.

Inductive step : System -> System -> Prop :=
| step_get key s :
    step s (mkSystem (cache s) (gets s ++ [GetStart key]) (janitor s) (cleanupRunning s))
| step_section i pc now s :
    gets s !! i = Some pc ->
    step s (mkSystem (get_step now pc (cache s)).2 (<[i := (get_step now pc (cache s)).1]> (gets s))
              (janitor s) (cleanupRunning s))
| step_set key value ttl now c' s :
    Set_ key value ttl now (cache s) = Some c' -> step s (with_cache c' s)
| step_delete key s : step s (with_cache (Delete key (cache s)).1 s)
| step_clear s : step s (with_cache (Clear (cache s)) s)
| step_cleanup shuffle now s :
    (forall l, shuffle l ≡ₚ l) -> step s (with_cache (Cleanup shuffle now (cache s)).1 s)
| step_janitor_start s :
    janitor s = NotStarted -> step s (mkSystem (cache s) (gets s) Running true)
| step_janitor_tick shuffle now s :
    janitor s = Running -> (forall l, shuffle l ≡ₚ l) ->
    step s (with_cache (Cleanup shuffle now (cache s)).1 s)
| step_stop s :
    (cleanupRunning s = true -> janitor s = Running) -> step s (Stop s).

Inductive reachable (m : Z) (ttl : Duration) : System -> Prop :=
| reach_start : reachable m ttl (start m ttl)
| reach_step s s' : reachable m ttl s -> step s s' -> reachable m ttl s'.

(** A [Get] whose counter update has been made. *)
Definition counted (pc : GetPC) : bool :=
  match pc with GetRead _ | GetDone _ => true | _ => false end.

(** ** Specification: a list of keys, values and expiry times, most recently
    used first *)
Module Spec.

Abbreviation Item := (string * (Any * Time))%type.

Definition lookup (k : string) (l : list Item) : option (Any * Time) :=
  option_map snd (find (λ p, bool_decide (p.1 = k)) l).

Definition remove (k : string) (l : list Item) : list Item := filter (λ p, p.1 ≠ k) l.

Definition get (k : string) (t : Time) (l : list Item) : list Item * Any :=
  match lookup k l with
  | None => (l, None)
  | Some (v, e) => if e <? t then (remove k l, None) else ((k, (v, e)) :: remove k l, v)
  end.

(** At most [m] items are kept, unless the key was there. *)
Definition set (m : nat) (k : string) (v : Any) (e : Time) (l : list Item) : list Item :=
  match lookup k l with
  | Some _ => (k, (v, e)) :: remove k l
  | None => take m ((k, (v, e)) :: l)
  end.

Definition live (t : Time) (p : Item) : Prop := t <= p.2.2.
#[global] Instance live_dec t p : Decision (live t p) := Z_le_dec t p.2.2.

End Spec.

(** The operations of a goroutine, and what they return. *)
Inductive Op :=
| OGet (key : string) (t1 t2 : Time)
| OSet (key : string) (value : Any) (ttl : Duration) (now : Time)
| ODelete (key : string)
| OClear
| OCleanup (shuffle : list string -> list string) (now : Time)
| OContains (key : string) (now : Time)
| OSize
| OOldest
| OMostRecent.

Inductive Out :=
| OutUnit
| OutValue (v : Any)
| OutBool (b : bool)
| OutInt (n : Z)
| OutEntry (e : string * Any * bool).

Definition exec (op : Op) (c : StateCache) : option (StateCache * Out) :=
  match op with
  | OGet key t1 t2 => let '(c, v) := Get key t1 t2 c in Some (c, OutValue v)
  | OSet key value ttl now => option_map (λ c, (c, OutUnit)) (Set_ key value ttl now c)
  | ODelete key => let '(c, b) := Delete key c in Some (c, OutBool b)
  | OClear => Some (Clear c, OutUnit)
  | OCleanup shuffle now => let '(c, n) := Cleanup shuffle now c in Some (c, OutInt n)
  | OContains key now => Some (c, OutBool (Contains key now c))
  | OSize => Some (c, OutInt (Size c))
  | OOldest => Some (c, OutEntry (GetOldest c))
  | OMostRecent => Some (c, OutEntry (GetMostRecent c))
  end.

Fixpoint exec_all (ops : list Op) (c : StateCache) : option (StateCache * list Out) :=
  match ops with
  | [] => Some (c, [])
  | op :: ops =>
      match exec op c with
      | Some (c, o) => option_map (λ p, (p.1, o :: p.2)) (exec_all ops c)
      | None => None
      end
  end.

Definition item_out (p : option Spec.Item) : Out :=
  match p with
  | Some (k, (v, _)) => OutEntry (k, v, true)
  | None => OutEntry ("", None, false)
  end.

(** The specification of the operations, for a bound [m] and a default
    time to live. *)
Definition spec (m : nat) (dttl : Duration) (op : Op) (l : list Spec.Item) : list Spec.Item * Out :=
  match op with
  | OGet key t1 _ => let '(l, v) := Spec.get key t1 l in (l, OutValue v)
  | OSet key value ttl now =>
      (Spec.set m key value (now + (if ttl =? 0 then dttl else ttl)) l, OutUnit)
  | ODelete key => (Spec.remove key l, OutBool (bool_decide (is_Some (Spec.lookup key l))))
  | OClear => ([], OutUnit)
  | OCleanup _ now =>
      (filter (Spec.live now) l, OutInt (Z.of_nat (length l - length (filter (Spec.live now) l))))
  | OContains key now =>
      (l, OutBool (match Spec.lookup key l with Some (_, e) => now <? e | None => false end))
  | OSize => (l, OutInt (Z.of_nat (length l)))
  | OOldest => (l, item_out (last l))
  | OMostRecent => (l, item_out (head l))
  end.

Fixpoint spec_all (m : nat) (dttl : Duration) (ops : list Op) (l : list Spec.Item)
  : list Spec.Item * list Out :=
  match ops with
  | [] => (l, [])
  | op :: ops =>
      let '(l, o) := spec m dttl op l in
      let '(l, os) := spec_all m dttl ops l in
      (l, o :: os)
  end.

(** A range visits every key once. *)
Definition op_ok (op : Op) : Prop :=
  match op with
  | OCleanup shuffle _ => forall l, shuffle l ≡ₚ l
  | _ => True
  end.

(** The specification's view of a cache. *)
Definition item (c : StateCache) (r : nat) : Spec.Item :=
  (Key (entry c r), (Value (entry c r), ExpiresAt (entry c r))).
Definition items (c : StateCache) : list Spec.Item := item c <$> evictionList c.

(** ** The invariant: the list holds the mapped entries, each once *)
Record Inv (c : StateCache) : Prop := {
  inv_nodup : NoDup (evictionList c);
  inv_list : forall r, r ∈ evictionList c ->
    entries c !! Key (entry c r) = Some r /\ (r < length (store c))%nat /\ element (entry c r) = Some r;
  inv_elem : forall r e, element (entry c r) = Some e -> e = r;
  inv_map : forall k r, entries c !! k = Some r -> r ∈ evictionList c /\ Key (entry c r) = k;
  inv_size : currentSize c = Z.of_nat (size (entries c))
}.

(** ** Lemmas: lists *)

Lemma filter_fmap_agree {A B} (f : A -> B) (P : B -> Prop) (Q : A -> Prop)
  `{forall x, Decision (P x), forall x, Decision (Q x)} (l : list A) :
  (forall x, x ∈ l -> (P (f x) <-> Q x)) -> filter P (f <$> l) = f <$> filter Q l.
Proof.
  induction l as [| a l IH]; intros H1; [done |].
  rewrite fmap_cons, !filter_cons, IH by (intros x Hx; apply H1; by constructor).
  pose proof (H1 a ltac:(constructor)). by repeat case_decide; try tauto.
Qed.

Lemma filter_all {A} (P : A -> Prop) `{forall x, Decision (P x)} (l : list A) :
  (forall x, x ∈ l -> P x) -> filter P l = l.
Proof.
  induction l as [| a l IH]; intros Hl; [done |].
  rewrite filter_cons_True, IH; [done | |]; intros; apply Hl; by constructor.
Qed.

Lemma list_Remove_notin e l : e ∉ l -> list_Remove e l = l.
Proof. intros He. apply filter_all. intros x Hx ->. done. Qed.

Lemma elem_of_list_Remove x e l : x ∈ list_Remove e l <-> x ≠ e /\ x ∈ l.
Proof. unfold list_Remove. by rewrite list_elem_of_filter. Qed.

Lemma elem_of_MoveToFront x e l : x ∈ list_MoveToFront e l <-> x ∈ l.
Proof.
  unfold list_MoveToFront. case_bool_decide as He; [| done].
  rewrite elem_of_cons, elem_of_list_Remove. destruct (decide (x = e)) as [-> |]; tauto.
Qed.

Lemma NoDup_MoveToFront e l : NoDup l -> NoDup (list_MoveToFront e l).
Proof.
  intros Hl. unfold list_MoveToFront. case_bool_decide; [| done].
  constructor; [rewrite elem_of_list_Remove; tauto | by apply NoDup_filter].
Qed.

Lemma length_filter_compl {A} (P Q : A -> Prop)
  `{forall x, Decision (P x), forall x, Decision (Q x)} (l : list A) :
  (forall x, x ∈ l -> (P x <-> ~ Q x)) -> (length (filter P l) + length (filter Q l) = length l)%nat.
Proof.
  induction l as [| a l IH]; intros H1; [done |]. rewrite !filter_cons. simpl.
  rewrite <- IH by (intros x Hx; apply H1; by constructor).
  pose proof (H1 a ltac:(constructor)). repeat case_decide; simpl; try tauto; lia.
Qed.

(** ** Lemmas: the store *)

Lemma entry_alter g r c r' :
  entry (with_store (alter g r (store c)) c) r' =
  (if bool_decide (r' = r /\ (r < length (store c))%nat) then g (entry c r') else entry c r').
Proof.
  unfold entry. simpl. case_bool_decide as H.
  - destruct H as [-> H]. rewrite list_lookup_alter_eq.
    by destruct (lookup_lt_is_Some_2 _ _ H) as [e ->].
  - destruct (decide (r' = r)) as [-> | Hr].
    + rewrite list_lookup_alter_eq, lookup_ge_None_2; [done |]. lia.
    + by rewrite list_lookup_alter_ne.
Qed.

(** A change of an entry's fields other than its key and element. *)
Definition field_change (g : CacheEntry -> CacheEntry) : Prop :=
  forall e, Key (g e) = Key e /\ element (g e) = element e.

Lemma entry_alter_fields g r c r' :
  field_change g ->
  Key (entry (with_store (alter g r (store c)) c) r') = Key (entry c r') /\
  element (entry (with_store (alter g r (store c)) c) r') = element (entry c r').
Proof. intros Hg. rewrite entry_alter. case_bool_decide; auto. Qed.

Lemma touched_fields now : field_change (touched now).
Proof. done. Qed.
Lemma updated_fields v e now : field_change (updated v e now).
Proof. done. Qed.

(** ** Lemmas: the invariant *)

Lemma map_list_perm c :
  Inv c -> map_to_list (entries c) ≡ₚ (λ r, (Key (entry c r), r)) <$> evictionList c.
Proof.
  intros [Hn Hl _ Hm _]. apply NoDup_Permutation.
  - apply NoDup_map_to_list.
  - apply NoDup_fmap_2; [intros ? ?; by inversion 1 | done].
  - intros [k r]. rewrite elem_of_map_to_list, list_elem_of_fmap. split.
    + intros H. apply Hm in H as [Hr <-]. by exists r.
    + intros (r' & E & Hr). simplify_eq. by apply Hl.
Qed.

Lemma list_is_map c : Inv c -> length (evictionList c) = size (entries c).
Proof.
  intros HI. rewrite <- length_map_to_list.
  by rewrite (Permutation_length (map_list_perm c HI)), length_fmap.
Qed.

Lemma cache_inv_new m ttl : Inv (NewStateCache m ttl).
Proof.
  split; simpl; try done.
  - constructor.
  - intros r Hr. by apply not_elem_of_nil in Hr.
Qed.

Lemma cache_inv_count dh dm de c : Inv c -> Inv (count dh dm de c).
Proof. intros [? ? ? ? ?]. by split. Qed.

Lemma inv_removeEntry k c : Inv c -> Inv (removeEntry k c).
Proof.
  intros HI. unfold removeEntry. destruct (entries c !! k) as [r |] eqn:Hk; [| done].
  destruct HI as [Hn Hl He Hm Hs]. destruct (Hm _ _ Hk) as [Hr Hkey].
  destruct (Hl r Hr) as (_ & Hlt & ->). split; simpl.
  - by apply NoDup_filter.
  - intros r' (Hne & Hr')%elem_of_list_Remove. destruct (Hl r' Hr') as (E & ? & ?).
    split; [| done]. rewrite lookup_delete_ne; [done |]. intros Ek.
    unfold entry in *; simpl in *. apply Hne. congruence.
  - done.
  - intros k' r' Hk'. apply lookup_delete_Some in Hk' as [Hne Hk'].
    destruct (Hm _ _ Hk') as [Hr' <-]. split; [| done].
    apply elem_of_list_Remove. split; [| done]. intros ->. by apply Hne.
  - rewrite Hs, map_size_delete, Hk.
    assert (size (entries c) ≠ 0)%nat; [| simpl; lia].
    intros H0%map_size_empty_iff. by rewrite H0, lookup_empty in Hk.
Qed.

Lemma inv_move g r c :
  field_change g -> Inv c -> Inv (moveToFront r (with_store (alter g r (store c)) c)).
Proof.
  intros Hg [Hn Hl He Hm Hs].
  pose proof (λ r', entry_alter_fields g r c r' Hg) as Hf. remember (with_store _ c) as d eqn:Hd.
  assert (entries d = entries c /\ evictionList d = evictionList c /\ currentSize d = currentSize c /\
          length (store d) = length (store c)) as (E1 & E2 & E3 & E4)
    by (subst d; simpl; by rewrite length_alter).
  assert (Inv d) as [Hn' Hl' He' Hm' Hs'].
  { split; rewrite ?E1, ?E2, ?E3, ?E4; try done; intros x y; [| | intros Hr; destruct (Hf y) as [-> _]; auto].
    all: destruct (Hf x) as [F1 F2]; rewrite ?F1, F2; eauto. }
  unfold moveToFront. destruct (element (entry d r)) as [e |] eqn:Ee; [| by split].
  split; simpl; [by apply NoDup_MoveToFront | | done | | done].
  - intros r' Hr%elem_of_MoveToFront. by apply Hl'.
  - intros k r' Hk. rewrite elem_of_MoveToFront. by apply Hm'.
Qed.

(** The list a section has left behind is the map's: what is no longer
    mapped is not moved. *)
Lemma inv_get_step now pc c : Inv c -> Inv (get_step now pc c).2.
Proof.
  intros HI. destruct pc; simpl; try done.
  - by destruct (entries c !! key).
  - by apply cache_inv_count.
  - by destruct (time_After _ _).
  - by apply cache_inv_count, inv_removeEntry.
  - apply cache_inv_count, inv_move; [apply touched_fields | done].
Qed.

(** ** Lemmas: what the operations do to the items *)

Lemma items_count dh dm de c : items (count dh dm de c) = items c.
Proof. done. Qed.

Lemma key_unique c r r' :
  Inv c -> r ∈ evictionList c -> r' ∈ evictionList c -> Key (entry c r) = Key (entry c r') -> r = r'.
Proof.
  intros HI Hr Hr' E. destruct (inv_list c HI r Hr) as [H1 _].
  destruct (inv_list c HI r' Hr') as [H2 _]. rewrite E in H1. congruence.
Qed.

(** Removing a key from the items is removing its entry from the list. *)
Lemma remove_items c r :
  Inv c -> r ∈ evictionList c ->
  Spec.remove (Key (entry c r)) (items c) = item c <$> list_Remove r (evictionList c).
Proof.
  intros HI Hr. apply filter_fmap_agree. intros x Hx. simpl. split; intros Hne E; apply Hne.
  - by rewrite E.
  - by apply (key_unique c x r).
Qed.

Lemma remove_notin k c : Inv c -> entries c !! k = None -> Spec.remove k (items c) = items c.
Proof.
  intros HI Hk. apply filter_all. intros p (r & -> & Hr)%list_elem_of_fmap <-.
  destruct (inv_list c HI r Hr) as [E _]. simpl in Hk. congruence.
Qed.

Lemma items_removeEntry k c : Inv c -> items (removeEntry k c) = Spec.remove k (items c).
Proof.
  intros HI. unfold removeEntry. destruct (entries c !! k) as [r |] eqn:Hk.
  - destruct (inv_map c HI _ _ Hk) as [Hr <-]. rewrite remove_items by done.
    by destruct (inv_list c HI r Hr) as (_ & _ & ->).
  - by rewrite remove_notin.
Qed.

Lemma lookup_items k c :
  Inv c -> Spec.lookup k (items c) = (item c <$> entries c !! k) ≫= (λ p, Some p.2).
Proof.
  intros HI. unfold Spec.lookup, items. destruct (entries c !! k) as [r |] eqn:Hk; simpl.
  - destruct (inv_map c HI _ _ Hk) as [Hr Hkey].
    assert (Hin : forall x, x ∈ evictionList c -> Key (entry c x) = k -> x = r).
    { intros x Hx E. apply (key_unique c); [done .. |]. congruence. }
    clear Hk. induction (evictionList c) as [| a l IH]; [by apply not_elem_of_nil in Hr |].
    simpl. case_bool_decide as E; simpl.
    + rewrite (Hin a); [done | by constructor | done].
    + apply IH; [| intros x Hx; apply Hin; by constructor].
      apply elem_of_cons in Hr as [<- |]; done.
  - assert (Hin : forall x, x ∈ evictionList c -> Key (entry c x) ≠ k).
    { intros x Hx <-. destruct (inv_list c HI x Hx) as [E _]. congruence. }
    induction (evictionList c) as [| a l IH]; [done |].
    simpl. rewrite bool_decide_false by (apply Hin; by constructor).
    apply IH. intros x Hx. apply Hin. by constructor.
Qed.

(** Touching a mapped entry brings its item to the front. *)
Lemma items_move g r c :
  field_change g -> Inv c -> r ∈ evictionList c ->
  items (moveToFront r (with_store (alter g r (store c)) c)) =
  (Key (entry c r), (Value (g (entry c r)), ExpiresAt (g (entry c r))))
    :: Spec.remove (Key (entry c r)) (items c).
Proof.
  intros Hg HI Hr. destruct (inv_list c HI r Hr) as (_ & Hlt & Hel).
  destruct (entry_alter_fields g r c r Hg) as [F1 F2]. unfold moveToFront. rewrite F2, Hel.
  unfold list_MoveToFront. simpl. rewrite bool_decide_true by done.
  rewrite remove_items by done. unfold items. simpl. f_equal.
  - unfold item. change (entry (with_list ?l ?d) ?x) with (entry d x).
    rewrite F1, entry_alter, bool_decide_true by done. done.
  - apply list_fmap_ext. intros i x (Hne & _)%list_elem_of_lookup_2%elem_of_list_Remove.
    unfold item. change (entry (with_list ?l ?d) ?x) with (entry d x).
    by rewrite entry_alter, bool_decide_false by tauto.
Qed.

(** ** Lemmas: eviction *)

Lemma evictOldest_spec c :
  Inv c -> evictionList c ≠ [] ->
  Inv (evictOldest c) /\ items (evictOldest c) = take (length (items c) - 1) (items c) /\
  evictionList (evictOldest c) = take (length (evictionList c) - 1) (evictionList c) /\
  maxSize (evictOldest c) = maxSize c /\ defaultTTL (evictOldest c) = defaultTTL c /\
  hits (evictOldest c) = hits c /\ misses (evictOldest c) = misses c.
Proof.
  intros HI Hne. unfold evictOldest. destruct (last (evictionList c)) as [r |] eqn:Hl;
    [| by apply last_None in Hl].
  apply last_Some in Hl as [l E].
  assert (r ∈ evictionList c) as Hr by (rewrite E; apply elem_of_app; right; by constructor).
  split; [by apply cache_inv_count, inv_removeEntry |].
  rewrite items_count, items_removeEntry, remove_items by done.
  destruct (inv_list c HI r Hr) as (Hk & _ & Hel).
  assert (list_Remove r (evictionList c) = l) as ER.
  { pose proof (inv_nodup c HI) as Hn. rewrite E in Hn |- *.
    apply NoDup_app in Hn as (_ & Hn & _). unfold list_Remove.
    rewrite filter_app, filter_cons_False, filter_nil, app_nil_r by (intros Hrr; by apply Hrr).
    apply list_Remove_notin. intros Hin. apply (Hn r Hin). by constructor. }
  unfold items. rewrite length_fmap, <- fmap_take, ER.
  assert (take (length (evictionList c) - 1) (evictionList c) = l) as ->.
  { rewrite E, length_app. simpl. rewrite Nat.add_sub. by apply take_app_length. }
  unfold removeEntry. rewrite Hk, Hel. simpl. rewrite ER, !Z.add_0_r. done.
Qed.

Lemma take_take_1 {A} (m : nat) (l : list A) :
  (m < length l)%nat -> take m (take (length l - 1) l) = take m l.
Proof. intros H. rewrite take_take. f_equal. lia. Qed.

(** Enough rounds: one for each element, and the last test. *)
Lemma evictLoop_spec fuel c :
  Inv c -> 0 <= maxSize c -> (length (evictionList c) < fuel)%nat ->
  exists c', evictLoop fuel c = Some c' /\ Inv c' /\
    items c' = take (Z.to_nat (maxSize c)) (items c) /\
    maxSize c' = maxSize c /\ defaultTTL c' = defaultTTL c /\
    hits c' = hits c /\ misses c' = misses c /\
    Z.of_nat (size (entries c')) <= maxSize c.
Proof.
  revert c. induction fuel as [| fuel IH]; intros c HI Hm Hf; [lia |].
  assert (length (items c) = length (evictionList c)) as EL by apply length_fmap.
  simpl. rewrite <- (list_is_map c HI). destruct (Z.ltb_spec (maxSize c) (Z.of_nat (length (evictionList c)))).
  - destruct (evictOldest_spec c HI) as (HI' & E1 & E2 & E3 & E4 & E5 & E6).
    { intros E. rewrite E in *. simpl in *. lia. }
    destruct (IH (evictOldest c) HI') as (c' & -> & HI2 & I2 & F1 & F2 & F3 & F4 & F5).
    + lia.
    + rewrite E2, length_take. lia.
    + exists c'. rewrite I2, F1, F2, F3, F4, E1, E3, E4, E5, E6, take_take_1 by lia.
      rewrite E3 in F5. done.
  - exists c. rewrite take_ge by lia. rewrite <- (list_is_map c HI). done.
Qed.

(** ** Lemmas: the operations *)

(** What holds of the cache before and after an operation of the list [l']
    of items it leaves. *)
Record After (c : StateCache) (l' : list Spec.Item) (c' : StateCache) : Prop := {
  after_inv : Inv c';
  after_items : items c' = l';
  after_max : maxSize c' = maxSize c;
  after_ttl : defaultTTL c' = defaultTTL c
}.

Lemma after_removeEntry k c : Inv c -> After c (Spec.remove k (items c)) (removeEntry k c).
Proof.
  intros HI. split; [by apply inv_removeEntry | by apply items_removeEntry | ..];
    unfold removeEntry; by destruct (entries c !! k).
Qed.

Lemma after_count dh dm de c l c' : After c l c' -> After c l (count dh dm de c').
Proof. intros [? <- ? ?]. split; [by apply cache_inv_count | done ..]. Qed.

Lemma after_trans c l c' l' c'' : After c l c' -> After c' l' c'' -> After c l' c''.
Proof. intros [? ? ? ?] [? ? ? ?]. split; congruence. Qed.

Lemma after_refl c : Inv c -> After c (items c) c.
Proof. done. Qed.

Lemma after_move g r c :
  field_change g -> Inv c -> r ∈ evictionList c ->
  After c ((Key (entry c r), (Value (g (entry c r)), ExpiresAt (g (entry c r))))
             :: Spec.remove (Key (entry c r)) (items c))
    (moveToFront r (with_store (alter g r (store c)) c)).
Proof.
  intros Hg HI Hr. split; [by apply inv_move | by apply items_move | ..];
    unfold moveToFront; by destruct (element _).
Qed.

Lemma move_entry g r c :
  (r < length (store c))%nat ->
  entry (moveToFront r (with_store (alter g r (store c)) c)) r = g (entry c r).
Proof.
  intros Hr. transitivity (entry (with_store (alter g r (store c)) c) r).
  - unfold moveToFront. by destruct (element _).
  - by rewrite entry_alter, bool_decide_true.
Qed.

Lemma get_after k t1 t2 c :
  Inv c ->
  After c (Spec.get k t1 (items c)).1 (Get k t1 t2 c).1 /\
  (Get k t1 t2 c).2 = (Spec.get k t1 (items c)).2.
Proof.
  intros HI. unfold Get, Spec.get. rewrite lookup_items by done.
  destruct (entries c !! k) as [r |] eqn:Hk; simpl; [| by split; [apply after_count |]].
  destruct (inv_map c HI _ _ Hk) as [Hr Hkey]. destruct (inv_list c HI r Hr) as (_ & Hlt & _).
  change (ExpiresAt (entry c r) <? t1) with (time_After t1 (ExpiresAt (entry c r))).
  goal_if; simpl.
  - split; [by apply after_count, after_removeEntry | done].
  - split.
    + rewrite <- Hkey. by apply after_count, (after_move (touched t2)).
    + unfold Get_hit. change (entry (count _ _ _ ?d) r) with (entry d r). by rewrite move_entry.
Qed.

Lemma delete_after k c :
  Inv c ->
  After c (Spec.remove k (items c)) (Delete k c).1 /\
  (Delete k c).2 = bool_decide (is_Some (Spec.lookup k (items c))).
Proof.
  intros HI. unfold Delete. rewrite lookup_items by done.
  destruct (entries c !! k) as [r |] eqn:Hk; simpl.
  - split; [| done].
    pose proof (after_removeEntry k c HI) as HA.
    destruct (inv_map c HI _ _ Hk) as [Hr Hkey]. destruct (inv_list c HI r Hr) as (_ & _ & Hel).
    assert (entry (removeEntry k c) r = entry c r) as ->
      by (unfold removeEntry; by destruct (entries c !! k)).
    rewrite Hel, list_Remove_notin; [by destruct (removeEntry k c) |].
    unfold removeEntry. rewrite Hk, Hel. simpl. rewrite elem_of_list_Remove. tauto.
  - split; [by rewrite remove_notin | done].
Qed.

Lemma after_new_entry key e c :
  Inv c -> entries c !! key = None ->
  Key e = key -> element e = Some (length (store c)) ->
  After c ((key, (Value e, ExpiresAt e)) :: items c)
    (with_entries (<[key := length (store c)]> (entries c)) (length (store c) :: evictionList c)
       (currentSize c + 1) (with_store (store c ++ [e]) c)).
Proof.
  intros HI Hk He Hel. set (c' := with_entries _ _ _ _).
  assert (En : entry c' (length (store c)) = e).
  { unfold entry, c'. simpl. by rewrite list_lookup_middle. }
  assert (Eo : forall r, (r < length (store c))%nat -> entry c' r = entry c r).
  { intros r Hr. unfold entry, c'. simpl. by rewrite lookup_app_l. }
  destruct HI as [Hn Hl Hel' Hm Hs].
  assert (Hlt : forall r, r ∈ evictionList c -> (r < length (store c))%nat) by (intros r Hr; by apply Hl).
  split; [| | done | done].
  - split.
    + constructor; [intros H%Hlt; lia | done].
    + intros r [-> | Hr]%elem_of_cons.
      * rewrite En, He. simpl. rewrite lookup_insert_eq, length_app. simpl. split_and!; [done | lia | done].
      * rewrite Eo by auto. destruct (Hl r Hr) as (E & ? & ?). simpl.
        rewrite length_app, lookup_insert_ne by congruence. split_and!; [done | simpl; lia | done].
    + intros r x. destruct (lt_eq_lt_dec r (length (store c))) as [[Hr | ->] | Hr].
      * rewrite Eo by done. apply Hel'.
      * rewrite En. congruence.
      * unfold entry, c'. simpl. rewrite lookup_ge_None_2; [done |]. rewrite length_app. simpl. lia.
    + intros k r. simpl. rewrite lookup_insert_Some. intros [[<- <-] | [Hne Hk']].
      * split; [by constructor | by rewrite En].
      * destruct (Hm _ _ Hk') as [Hr <-]. rewrite Eo by auto. split; [by constructor | done].
    + simpl. rewrite map_size_insert, Hk, Hs. lia.
  - unfold items. simpl. f_equal; [unfold item; by rewrite En, He |].
    apply list_fmap_ext. intros i r Hr%list_elem_of_lookup_2. unfold item. by rewrite Eo by auto.
Qed.

Lemma set_after k v ttl now c :
  Inv c -> 0 <= maxSize c ->
  exists c', Set_ k v ttl now c = Some c' /\
    After c (Spec.set (Z.to_nat (maxSize c)) k v (now + (if ttl =? 0 then defaultTTL c else ttl)) (items c)) c'.
Proof.
  intros HI Hm. unfold Set_, Spec.set, time_Add. set (ex := now + _). rewrite lookup_items by done.
  destruct (entries c !! k) as [r |] eqn:Hk; cbn [fmap option_fmap option_map mbind option_bind].
  - destruct (inv_map c HI _ _ Hk) as [Hr <-]. eexists. split; [done |].
    by apply (after_move (updated v ex now)).
  - set (e := mkEntry k v ex 1 now now (calculateSize v) (Some (length (store c)))).
    destruct (after_new_entry k e c HI Hk) as [HI' EI E1 E2]; [done .. |].
    change (ExpiresAt e) with ex in EI. change (Value e) with v in EI. rewrite <- EI, <- E1.
    set (d := with_entries _ _ _ _) in *. unfold evictIfNecessary.
    destruct (evictLoop_spec (S (length (evictionList d))) d HI') as (c' & Hc & HI2 & I2 & F1 & F2 & _);
      [by rewrite E1 | lia |].
    exists c'. split; [done |]. split; [done | done | congruence ..].
Qed.

Lemma fold_remove_after ks c :
  Inv c ->
  After c (filter (λ p, p.1 ∉ ks) (items c)) (foldl (λ c k, removeEntry k c) c ks).
Proof.
  revert c. induction ks as [| k ks IH]; intros c HI; simpl.
  - rewrite filter_all by (intros p _; apply not_elem_of_nil). by apply after_refl.
  - pose proof (after_removeEntry k c HI) as HA. eapply after_trans; [exact HA |].
    pose proof (IH _ (after_inv _ _ _ HA)) as H2. rewrite (after_items _ _ _ HA) in H2.
    unfold Spec.remove in H2. rewrite list_filter_filter in H2.
    erewrite (list_filter_iff (λ p : Spec.Item, p.1 ∉ k :: ks)); [exact H2 |].
    intros p. rewrite not_elem_of_cons. tauto.
Qed.

(** An expired entry's item is one that is not live. *)
Lemma expired_live now c r :
  Inv c -> r ∈ evictionList c ->
  (isExpired now c (Key (entry c r)) = true <-> ~ Spec.live now (item c r)).
Proof.
  intros HI Hr. unfold isExpired. destruct (inv_list c HI r Hr) as (-> & _).
  unfold Spec.live, item. simpl. time_lia.
Qed.

Lemma cleanup_after shuffle now c :
  Inv c -> (forall l, shuffle l ≡ₚ l) ->
  After c (filter (Spec.live now) (items c)) (Cleanup shuffle now c).1 /\
  (Cleanup shuffle now c).2 = Z.of_nat (length (items c) - length (filter (Spec.live now) (items c))).
Proof.
  intros HI Hs. unfold Cleanup, rangeKeys. cbn [fst snd].
  assert (HP : shuffle (map_to_list (entries c)).*1 ≡ₚ (λ r, Key (entry c r)) <$> evictionList c).
  { rewrite Hs, (map_list_perm c HI), <- list_fmap_compose. done. }
  remember (shuffle _) as ks eqn:Hks. clear Hks Hs. split.
  - pose proof (fold_remove_after (filter (λ k, isExpired now c k = true) ks) c HI) as HA.
    enough (filter (Spec.live now) (items c) =
            filter (λ p, p.1 ∉ filter (λ k, isExpired now c k = true) ks) (items c)) as ->; [done |].
    unfold items. rewrite (filter_fmap_agree (item c) (Spec.live now) (λ r, Spec.live now (item c r))) by done.
    rewrite (filter_fmap_agree (item c) _ (λ r, Spec.live now (item c r))); [done |].
    intros r Hr. cbn [item fst]. rewrite list_elem_of_filter, (expired_live now c r HI Hr), HP.
    assert (Key (entry c r) ∈ (λ r, Key (entry c r)) <$> evictionList c) by (by apply list_elem_of_fmap; exists r).
    destruct (decide (Spec.live now (item c r))); tauto.
  - rewrite HP. unfold items.
    rewrite (filter_fmap_agree _ (λ k, isExpired now c k = true) (λ r, ~ Spec.live now (item c r)))
      by (intros r Hr; by apply expired_live).
    rewrite (filter_fmap_agree (item c) _ (λ r, Spec.live now (item c r))) by done.
    rewrite !length_fmap.
    rewrite <- (length_filter_compl (λ r, ~ Spec.live now (item c r)) (λ r, Spec.live now (item c r)) (evictionList c)); [lia |].
    done.
Qed.

(** *** One operation, and any number *)

Lemma spec_bounded m dttl op l :
  (length l <= m)%nat -> (length (spec m dttl op l).1 <= m)%nat.
Proof.
  intros Hl. assert (Hr : forall k, (length (Spec.remove k l) <= length l)%nat)
    by (intros; apply length_filter).
  assert (Hk : forall k x, Spec.lookup k l = Some x -> (length (Spec.remove k l) < length l)%nat).
  { intros k x. unfold Spec.lookup. destruct (find _ l) as [p |] eqn:Hf; [| done]. intros _.
    apply find_some in Hf as [Hin%list_elem_of_In Hp%bool_decide_eq_true].
    apply (length_filter_lt _ _ p); [done |]. naive_solver. }
  destruct op; simpl; try done.
  - unfold Spec.get. destruct (Spec.lookup key l) as [[v e] |] eqn:E; [| done].
    goal_if; simpl; [specialize (Hr key) | specialize (Hk key _ E)]; lia.
  - unfold Spec.set. destruct (Spec.lookup key l) as [[v e] |] eqn:E.
    + specialize (Hk key _ E). simpl. lia.
    + rewrite length_take. lia.
  - specialize (Hr key). lia.
  - lia.
  - etrans; [apply length_filter | done].
Qed.

Lemma exec_simulates op c :
  Inv c -> 0 <= maxSize c -> op_ok op ->
  exists c', exec op c = Some (c', (spec (Z.to_nat (maxSize c)) (defaultTTL c) op (items c)).2) /\
    After c (spec (Z.to_nat (maxSize c)) (defaultTTL c) op (items c)).1 c'.
Proof.
  intros HI Hm Hop. destruct op; cbn [exec spec].
  - destruct (get_after key t1 t2 c HI) as [HA E].
    destruct (Get key t1 t2 c), (Spec.get key t1 (items c)). simpl in *. subst. eauto.
  - destruct (set_after key value ttl now c HI Hm) as (c' & -> & HA). simpl. eauto.
  - destruct (delete_after key c HI) as [HA E]. destruct (Delete key c). simpl in *. subst. eauto.
  - exists (Clear c). split; [done |]. split; [split; simpl; try done | done ..].
    + constructor.
    + intros r Hr. by apply not_elem_of_nil in Hr.
    + intros r e. apply (inv_elem c HI).
  - destruct (cleanup_after shuffle now c HI Hop) as [HA E].
    destruct (Cleanup shuffle now c). simpl in *. subst. eauto.
  - exists c. split; [| by apply after_refl]. unfold Contains. rewrite lookup_items by done.
    by destruct (entries c !! key).
  - exists c. split; [| by apply after_refl]. unfold Size, items. by rewrite length_fmap, list_is_map.
  - exists c. split; [| by apply after_refl]. unfold GetOldest, items. rewrite fmap_last.
    by destruct (last (evictionList c)).
  - exists c. split; [| by apply after_refl]. unfold GetMostRecent, items.
    by destruct (evictionList c).
Qed.

Lemma exec_all_simulates ops c m dttl :
  Inv c -> 0 <= m -> maxSize c = m -> defaultTTL c = dttl -> Forall op_ok ops ->
  (length (items c) <= Z.to_nat m)%nat ->
  exists c', exec_all ops c = Some (c', (spec_all (Z.to_nat m) dttl ops (items c)).2) /\
    After c (spec_all (Z.to_nat m) dttl ops (items c)).1 c' /\
    (length (items c') <= Z.to_nat m)%nat.
Proof.
  revert c. induction ops as [| op ops IH]; intros c HI Hm E1 E2 Hops Hl; simpl; [eauto using after_refl |].
  apply Forall_cons in Hops as [Hop Hops]. subst.
  destruct (exec_simulates op c HI Hm Hop) as (c1 & -> & HA).
  pose proof (spec_bounded (Z.to_nat (maxSize c)) (defaultTTL c) op (items c) Hl) as Hb.
  destruct (spec _ _ op (items c)) as [l o]. simpl in *. pose proof HA as [HI1 <- F1 F2].
  destruct (IH c1 HI1 Hm F1 F2 Hops Hb) as (c2 & -> & HA2 & Hl2).
  destruct (spec_all _ _ ops (items c1)) as [l2 os]. simpl in *.
  exists c2. split; [done |]. split; [by eapply after_trans | done].
Qed.

(** *** The invariant under interleaving *)

(** [Good m n c]: the invariant, the bound [m] and [n] counted accesses. *)
Record Good (m n : Z) (c : StateCache) : Prop := {
  good_inv : Inv c;
  good_max : maxSize c = m;
  good_bound : Z.of_nat (size (entries c)) <= m;
  good_stats : hits c + misses c = n
}.

Lemma good_count m n dh dm de c : Good m n c -> Good m (n + dh + dm) (count dh dm de c).
Proof. intros [? ? ? ?]. split; [by apply cache_inv_count | done .. | simpl; lia]. Qed.

Lemma good_removeEntry m n k c : Good m n c -> Good m n (removeEntry k c).
Proof.
  intros [HI ? Hb ?]. split; [by apply inv_removeEntry | ..]; unfold removeEntry;
    destruct (entries c !! k) eqn:Hk; simpl; try done.
  rewrite map_size_delete, Hk. simpl. lia.
Qed.

Lemma good_move m n g r c :
  field_change g -> Good m n c -> Good m n (moveToFront r (with_store (alter g r (store c)) c)).
Proof.
  intros Hg [HI ? Hb ?]. split; [by apply inv_move | ..]; unfold moveToFront; by destruct (element _).
Qed.

Lemma evictLoop_keeps fuel c c' :
  evictLoop fuel c = Some c' ->
  maxSize c' = maxSize c /\ hits c' = hits c /\ misses c' = misses c /\
  Z.of_nat (size (entries c')) <= maxSize c'.
Proof.
  revert c. induction fuel as [| fuel IH]; intros c; simpl; [done |].
  destruct (Z.ltb_spec (maxSize c) (Z.of_nat (size (entries c)))) as [Hlt | Hge].
  - intros (-> & -> & -> & Hb)%IH. unfold evictOldest, removeEntry in *.
    destruct (last _) as [r |]; [| done]. destruct (entries c !! _); simpl in *; lia.
  - intros [= <-]. done.
Qed.

Lemma good_set m n k v ttl now c c' :
  0 <= m -> Good m n c -> Set_ k v ttl now c = Some c' -> Good m n c'.
Proof.
  intros Hm HG HS. pose proof HG as [HI Hmax Hb Hst].
  destruct (set_after k v ttl now c HI) as (c2 & E & HA); [by rewrite Hmax |].
  rewrite HS in E. injection E as <-. unfold Set_ in HS. destruct (entries c !! k) as [r |].
  - injection HS as <-. by apply good_move; [apply updated_fields |].
  - apply evictLoop_keeps in HS as (E1 & E2 & E3 & E4). simpl in *.
    split; [apply HA | ..]; congruence || lia.
Qed.

Lemma good_fold m n ks c : Good m n c -> Good m n (foldl (λ c k, removeEntry k c) c ks).
Proof. revert c. induction ks as [| k ks IH]; intros c HG; [done |]. by apply IH, good_removeEntry. Qed.

Lemma good_delete m n k c : Good m n c -> Good m n (Delete k c).1.
Proof.
  intros HG. pose proof HG as [HI ? ? ?]. destruct (delete_after k c HI) as [[HI' _ _ _] _].
  pose proof (good_removeEntry m n k c HG) as [_ ? ? ?]. revert HI'.
  unfold Delete. destruct (entries c !! k) as [r |]; [| done]. simpl.
  destruct (element _); by split.
Qed.

Lemma good_clear m n c : 0 <= m -> Good m n c -> Good m n (Clear c).
Proof.
  intros Hm [HI ? ? ?]. split; [| done | by simpl | done].
  destruct (exec_simulates OClear c HI) as (c' & E & HA); [lia | done |].
  simpl in E. injection E as <-. apply HA.
Qed.

Lemma good_section m n now pc c :
  Good m n c ->
  Good m (n - Z.b2z (counted pc) + Z.b2z (counted (get_step now pc c).1)) (get_step now pc c).2.
Proof.
  intros HG. assert (Hn : forall n', n' = n -> Good m n' c) by (by intros ? ->).
  destruct pc; simpl.
  - destruct (entries c !! key); apply Hn; simpl; lia.
  - replace (n - 0 + 1) with (n + 0 + 1) by lia. by apply good_count.
  - goal_if; apply Hn; simpl; lia.
  - replace (n - 0 + 1) with (n + 0 + 1) by lia. by apply good_count, good_removeEntry.
  - replace (n - 0 + 1) with (n + 1 + 0) by lia. apply good_count, good_move; [apply touched_fields | done].
  - apply Hn. lia.
  - apply Hn. lia.
Qed.

Lemma reachable_good m ttl s :
  0 <= m -> reachable m ttl s ->
  Good m (countb counted (gets s)) (cache s) /\ (cleanupRunning s = true <-> janitor s = Running).
Proof.
  intros Hm. induction 1 as [| s s' _ [HG HJ] Hstep].
  { split; [| done]. split; simpl; [apply cache_inv_new | done .. | done]. }
  destruct Hstep as [key s | i pc now s Hpc | k v tl now c' s HS | k s | s | sh now s Hs | s HN
                    | sh now s HR Hs | s HC]; simpl in *.
  - split; [| done]. rewrite countb_app. simpl. by rewrite !Z.add_0_r.
  - split; [| done]. rewrite (countb_insert _ _ _ _ _ Hpc). by apply good_section.
  - split; [| done]. by eapply good_set.
  - split; [| done]. by apply good_delete.
  - split; [| done]. by apply good_clear.
  - split; [| done]. by apply good_fold.
  - split; [done |]. done.
  - split; [| done]. by apply good_fold.
  - unfold Stop. destruct (cleanupRunning s) eqn:E; [| by rewrite E]. done.
Qed.

(** ** Properties *)

(** C9 - the cache is a least-recently-used map with expiry: whatever the
    operations, each returns what the specification returns, the entries are
    the specification's items in its order, and at most [m] are kept; in
    particular no [Set] on a cache built with [m >= 0] loops. *)
Theorem cache_refines_lru (m : Z) (ttl : Duration) (ops : list Op) :
  0 <= m -> Forall op_ok ops ->
  exists c, exec_all ops (NewStateCache m ttl) = Some (c, (spec_all (Z.to_nat m) ttl ops []).2) /\
    items c = (spec_all (Z.to_nat m) ttl ops []).1 /\
    (length (items c) <= Z.to_nat m)%nat.
Proof.
  intros Hm Hops.
  destruct (exec_all_simulates ops (NewStateCache m ttl) m ttl) as (c & E & [_ EI _ _] & Hb);
    [apply cache_inv_new | done .. | simpl; lia |].
  by exists c.
Qed.

Lemma cache_refines_lru_witness :
  let ops := [OSet "a" (Some "1") 0 0; OSet "b" (Some "2") 5 0; OGet "a" 1 1; OSet "c" (Some "3") 0 2;
              OGet "b" 3 3; OOldest; OCleanup reverse 50; OSize] in
  Forall op_ok ops /\
  exists c, exec_all ops (NewStateCache 2 30) = Some (c,
      [OutUnit; OutUnit; OutValue (Some "1"); OutUnit; OutValue None; OutEntry ("a", Some "1", true);
       OutInt 2; OutInt 0]) /\ items c = [] /\ (length (items c) <= 2)%nat.
Proof.
  assert (H : Forall op_ok
    [OSet "a" (Some "1") 0 0; OSet "b" (Some "2") 5 0; OGet "a" 1 1; OSet "c" (Some "3") 0 2;
     OGet "b" 3 3; OOldest; OCleanup reverse 50; OSize])
    by (rewrite !Forall_cons, Forall_nil; split_and!; try done; intros l; apply reverse_Permutation).
  split; [exact H |]. exact (cache_refines_lru 2 30 _ ltac:(lia) H).
Defined.

(** Under any interleaving of goroutines (sections of [Get] between the
    other operations, the cleanup goroutine included) the eviction list holds
    exactly the mapped entries, each once, the size counter and the bound
    hold, and hits and misses count the accesses made. *)
Theorem cache_invariant (m : Z) (ttl : Duration) (s : System) :
  0 <= m -> reachable m ttl s ->
  Inv (cache s) /\ Z.of_nat (length (evictionList (cache s))) = currentSize (cache s) /\
  0 <= currentSize (cache s) <= m /\
  hits (cache s) + misses (cache s) = countb counted (gets s).
Proof.
  intros Hm Hr. destruct (reachable_good m ttl s Hm Hr) as [[HI _ Hb Hst] _].
  rewrite (list_is_map _ HI), (inv_size _ HI). split_and!; [done | done | lia | done | done].
Qed.

(** A [Get] that has found its entry expired, before it takes the lock. *)
Definition paused_get : System :=
  mkSystem (default (NewStateCache 2 30) (Set_ "k" (Some "old") 10 0 (NewStateCache 2 30)))
    [GetExpired "k"] NotStarted false.

Lemma paused_get_reachable : reachable 2 30 paused_get.
Proof.
  eapply reach_step; [eapply reach_step; [eapply reach_step; [eapply reach_step; [apply reach_start |] |] |] |].
  - by apply (step_set "k" (Some "old") 10 0).
  - apply (step_get "k").
  - by apply (step_section 0 (GetStart "k") 20).
  - by apply (step_section 0 (GetFound "k" 0) 20).
Qed.

Lemma cache_invariant_witness :
  reachable 2 30 paused_get /\ Inv (cache paused_get) /\
  Z.of_nat (length (evictionList (cache paused_get))) = currentSize (cache paused_get) /\
  0 <= currentSize (cache paused_get) <= 2 /\
  hits (cache paused_get) + misses (cache paused_get) = countb counted (gets paused_get).
Proof.
  split; [exact paused_get_reachable |].
  exact (cache_invariant 2 30 paused_get ltac:(lia) paused_get_reachable).
Defined.

(** The eviction loop ends exactly when the configured size is not
    negative, and then within one round per element and a last test; with a
    negative [maxSize] the first [Set] of a new key never returns. *)
Theorem eviction_terminates_iff (c : StateCache) :
  Inv c ->
  ((exists fuel c', evictLoop fuel c = Some c') <-> 0 <= maxSize c) /\
  (0 <= maxSize c -> exists c', evictIfNecessary c = Some c' /\ Inv c' /\
     items c' = take (Z.to_nat (maxSize c)) (items c)).
Proof.
  intros HI. assert (Hok : 0 <= maxSize c -> exists c', evictIfNecessary c = Some c' /\ Inv c' /\
     items c' = take (Z.to_nat (maxSize c)) (items c)).
  { intros Hm. unfold evictIfNecessary.
    destruct (evictLoop_spec (S (length (evictionList c))) c HI Hm) as (c' & ? & ? & ? & _); [lia |].
    by exists c'. }
  split; [| done]. split.
  - intros (fuel & c' & H). apply evictLoop_keeps in H as (E & _ & _ & Hb). lia.
  - intros Hm. destruct (Hok Hm) as (c' & H & _). by exists (S (length (evictionList c))), c'.
Qed.

Lemma eviction_terminates_iff_witness :
  ~ (exists fuel c', evictLoop fuel (NewStateCache (-1) 30) = Some c') /\
  exists c', evictIfNecessary (NewStateCache 2 30) = Some c'.
Proof.
  split.
  - intros H. apply (proj1 (eviction_terminates_iff _ (cache_inv_new (-1) 30))) in H. simpl in H. lia.
  - destruct (proj2 (eviction_terminates_iff _ (cache_inv_new 2 30)) ltac:(simpl; lia)) as (c' & H & _).
    by exists c'.
Defined.

(** What a completed [Set] has stored. *)
Lemma set_stored k v ttl now c c' :
  Inv c -> 1 <= maxSize c -> Set_ k v ttl now c = Some c' ->
  exists r, entries c' !! k = Some r /\ Value (entry c' r) = v /\
    ExpiresAt (entry c' r) = now + (if ttl =? 0 then defaultTTL c else ttl).
Proof.
  intros HI Hm HS. destruct (set_after k v ttl now c HI) as (c2 & E & [HI' EI _ _]); [lia |].
  rewrite HS in E. injection E as <-. pose proof (lookup_items k c' HI') as EL. rewrite EI in EL.
  assert (forall ex l, Spec.lookup k (Spec.set (Z.to_nat (maxSize c)) k v ex l) = Some (v, ex)) as ES.
  { intros ex l. unfold Spec.set. destruct (Z.to_nat (maxSize c)) as [| n] eqn:En; [lia |].
    destruct (Spec.lookup k l); unfold Spec.lookup; simpl; by rewrite bool_decide_true. }
  rewrite ES in EL. destruct (entries c' !! k) as [r |]; [| done].
  exists r. injection EL as -> ->. done.
Qed.

(** A [Get] that found an expired entry and has not yet taken the lock
    removes whatever is stored under its key by then: a [Set] that completed
    in between is lost, although its value has not expired. *)
Theorem expired_get_drops_fresh_value (m : Z) (ttl : Duration) (s : System) (i : nat) (key : string)
    (v : Any) (d : Duration) (now : Time) :
  1 <= m -> 0 < d -> reachable m ttl s -> gets s !! i = Some (GetExpired key) ->
  exists s1 s2, step s s1 /\ step s1 s2 /\
    Set_ key v d now (cache s) = Some (cache s1) /\
    Contains key now (cache s1) = true /\ (Get key now now (cache s1)).2 = v /\
    Contains key now (cache s2) = false /\ (Get key now now (cache s2)).2 = None.
Proof.
  intros Hm Hd Hr Hi. assert (0 <= m) as Hm0 by lia.
  destruct (reachable_good m ttl s Hm0 Hr) as [[HI Hmax _ _] _].
  destruct (set_after key v d now (cache s) HI) as (c' & HS & HA); [lia |].
  destruct (set_stored key v d now (cache s) c' HI) as (r & Hk & HV & HE); [lia | done |].
  rewrite (proj2 (Z.eqb_neq d 0)) in HE by lia.
  assert (entries (Get_expired key c') !! key = None) as Hnone.
  { unfold Get_expired, removeEntry. rewrite Hk. simpl. apply lookup_delete_eq. }
  exists (with_cache c' s).
  exists (mkSystem (Get_expired key c') (<[i := GetDone None]> (gets s)) (janitor s) (cleanupRunning s)).
  split; [by apply (step_set key v d now) |].
  split; [by apply (step_section i (GetExpired key) now (with_cache c' s)) |].
  destruct (inv_map c' (after_inv _ _ _ HA) _ _ Hk) as [Hrl _].
  destruct (inv_list c' (after_inv _ _ _ HA) _ Hrl) as (_ & Hlt & _).
  unfold Contains, Get. cbn [cache with_cache]. rewrite Hk, Hnone, HE. split_and!; [done | | | done | done].
  - time_lia.
  - rewrite (proj2 (time_After_false _ _)) by time_lia. unfold Get_hit. cbn [snd].
    change (entry (count _ _ _ ?d) r) with (entry d r). by rewrite move_entry.
Qed.

Lemma expired_get_drops_fresh_value_witness :
  exists s1 s2, step paused_get s1 /\ step s1 s2 /\
    Set_ "k" (Some "new") 100 21 (cache paused_get) = Some (cache s1) /\
    Contains "k" 21 (cache s1) = true /\ (Get "k" 21 21 (cache s1)).2 = Some "new" /\
    Contains "k" 21 (cache s2) = false /\ (Get "k" 21 21 (cache s2)).2 = None.
Proof.
  exact (expired_get_drops_fresh_value 2 30 paused_get 0 "k" (Some "new") 100 21
    ltac:(lia) ltac:(lia) paused_get_reachable eq_refl).
Defined.

(** At the instant of expiry [Get] still returns the value and [Contains]
    already says that it is gone. *)
Lemma expiry_boundary key r c t2 :
  entries c !! key = Some r -> (r < length (store c))%nat ->
  (Get key (ExpiresAt (entry c r)) t2 c).2 = Value (entry c r) /\
  Contains key (ExpiresAt (entry c r)) c = false.
Proof.
  intros Hk Hlt. unfold Get, Contains. rewrite Hk. split.
  - rewrite (proj2 (time_After_false _ _)) by time_lia. unfold Get_hit. cbn [snd].
    change (entry (count _ _ _ ?d) r) with (entry d r). by rewrite move_entry.
  - time_lia.
Qed.
