(* ===== verification/StateManager.v ===== *)
(** * StateManager: the states of the intents

    Follows pkg/shared/state_manager.go with phase_conversion.go and the types of
    state_types.go.  The manager keeps the state of an intent as an object that
    the cache, the callers and the recovery manager share: objects live in a heap
    and are named by references, and what the cache stores is a reference.

    The cache is used through the interface [Memo], of which [StateCache] is an
    instance; the Kubernetes API is the class [KubeAPI]; the manager's lock is
    taken or refused for each update as the caller says, its exclusion being the
    subject of [LockManager].  A [json.RawMessage] is the value it encodes.  Maps
    that may be nil are maps: the source reads nil maps and empty maps alike.
    Fields of [IntentState] that the manager never touches are left out. *)

From S2P Require Import Prelude GoFloat.
From S2P Require Import GoStrings Orchestration.
From S2P Require StateCache.
From stdpp Require Import pretty.
From Stdlib Require Import Ascii.
Local Open Scope Z_scope.

(** ** Data *)

(** [types.NamespacedName] *)
Record NamespacedName := mkName { Namespace : string; Name : string }.

#[export] Instance name_eq_dec : EqDecision NamespacedName.
Proof. solve_decision. Defined.

#[export] Instance name_countable : Countable NamespacedName.
Proof.
  by refine (inj_countable' (λ n, (Namespace n, Name n)) (λ p, mkName p.1 p.2) _); intros [].
Defined.

Definition String_ (n : NamespacedName) : string := Namespace n +:+ "/" +:+ Name n.

Record PhaseTransition := mkTransition {
  FromPhase : ProcessingPhase;
  ToPhase : ProcessingPhase;
  tr_Timestamp : Time;
  tr_Metadata : any
}.

Record StateCondition := mkStateCondition {
  Type_ : string;
  Status_ : string;
  LastTransitionTime : Time;
  Reason : string;
  Message : string
}.

Record IntentDependency := mkDependency {
  Intent : string;
  Phase : ProcessingPhase;
  dep_Timestamp : Time
}.

Record IntentState := mkState {
  NamespacedName_ : NamespacedName;
  Version : string;
  CreationTime : Time;
  LastModified : Time;
  CurrentPhase : ProcessingPhase;
  PhaseStartTime : Time;
  PhaseTransitions : list PhaseTransition;
  PhaseData : gmap string any;
  PhaseErrors : gmap string (list string);
  Conditions : list StateCondition;
  Dependencies : list IntentDependency;
  LastError : string;
  LastErrorTime : Time;
  RetryCount : Z;
  Metadata : any
}.

(** The NetworkIntent of the API, as far as it is read and written here. *)
Record NetworkIntent := mkIntent {
  ObjectName : NamespacedName;
  ResourceVersion : string;
  CreationTimestamp : Time;
  Annotations : gmap string string;
  StatusPhase : string;
  LastMessage : string;
  LastUpdateTime : Time
}.

Record StateChangeEvent := mkChange {
  IntentName : NamespacedName;
  NewPhase : ProcessingPhase;
  ev_Version : string;
  ev_Timestamp : Time;
  ev_Metadata : any
}.

(** ** Phases of the API (phase_conversion.go) *)

(** The constants of the API package, which is not part of the repository. *)
Record NetworkIntentPhases := mkPhases {
  Pending : string; Processing : string; Deploying : string; Active : string;
  Ready : string; Deployed : string; Failed : string
}.

Definition phases_distinct (P : NetworkIntentPhases) : Prop :=
  NoDup [Pending P; Processing P; Deploying P; Active P; Ready P; Deployed P; Failed P].

Section conversion.
Context (P : NetworkIntentPhases).

Definition ProcessingPhaseToNetworkIntentPhase (phase : ProcessingPhase) : string :=
  if String.eqb phase PhaseIntentReceived || String.eqb phase PhaseReceived then Pending P
  else if String.eqb phase PhaseLLMProcessing then Processing P
  else if String.eqb phase PhaseResourcePlanning || String.eqb phase PhaseManifestGeneration then Deploying P
  else if String.eqb phase PhaseGitOpsCommit then Deploying P
  else if String.eqb phase PhaseDeploymentVerification then Active P
  else if String.eqb phase PhaseCompleted then Deployed P
  else if String.eqb phase PhaseFailed then Failed P
  else Pending P.

Definition NetworkIntentPhaseToProcessingPhase (phase : string) : ProcessingPhase :=
  if String.eqb phase (Pending P) then PhaseIntentReceived
  else if String.eqb phase (Processing P) then PhaseLLMProcessing
  else if String.eqb phase (Deploying P) then PhaseResourcePlanning
  else if String.eqb phase (Active P) then PhaseDeploymentVerification
  else if String.eqb phase (Ready P) || String.eqb phase (Deployed P) then PhaseCompleted
  else if String.eqb phase (Failed P) then PhaseFailed
  else PhaseIntentReceived.

Definition StringToNetworkIntentPhase (phase : string) : string :=
  if String.eqb phase "Pending" then Pending P
  else if String.eqb phase "Processing" then Processing P
  else if String.eqb phase "Deploying" then Deploying P
  else if String.eqb phase "Active" then Active P
  else if String.eqb phase "Ready" then Ready P
  else if String.eqb phase "Deployed" then Deployed P
  else if String.eqb phase "Failed" then Failed P
  else Pending P.
End conversion.

(** ** The interface of the cache

    What the manager asks of a cache: it may forget at any time, but what it
    returns is what was stored last.  [memory] is what it may still return. *)
Class Memo (C : Type) := {
  memo_wf : C -> Prop;
  memory : C -> string -> option nat;
  memo_Get : string -> Time -> Time -> C -> C * option nat;
  memo_Set : string -> nat -> Duration -> Time -> C -> C;
  memo_get_spec : forall k t1 t2 c, memo_wf c ->
    let '(c', v) := memo_Get k t1 t2 c in
    memo_wf c' /\ (forall k' r, memory c' k' = Some r -> memory c k' = Some r) /\
    (forall r, v = Some r -> memory c k = Some r);
  memo_set_spec : forall k r ttl now c, memo_wf c ->
    let c' := memo_Set k r ttl now c in
    memo_wf c' /\ (forall k' r', memory c' k' = Some r' -> (k' = k /\ r' = r) \/ (k' <> k /\ memory c k' = Some r'))
}.

Section state_cache.
Import StateCache.

(** A reference as a cached value. *)
Fixpoint ref_name (r : nat) : string := match r with O => "" | S r => String "*"%char (ref_name r) end.

Lemma length_ref_name r : String.length (ref_name r) = r.
Proof. induction r as [| r IH]; [done |]. cbn. by rewrite IH. Qed.

Definition deref (v : Any) : option nat := option_map String.length v.

Lemma lookup_remove k k' l v : Spec.lookup k' (Spec.remove k l) = Some v -> Spec.lookup k' l = Some v /\ k' <> k.
Proof.
  unfold Spec.lookup, Spec.remove. induction l as [| p l IH]; [done |]. rewrite filter_cons. cbn [find].
  case_decide as Hp; cbn [find].
  - case_bool_decide; [| done]. cbn. intros E. split; [done | congruence].
  - intros E. destruct (IH E) as [E' Hne]. split; [| done].
    rewrite bool_decide_eq_false_2 by congruence. done.
Qed.

Lemma lookup_take m k l v : Spec.lookup k (take m l) = Some v -> Spec.lookup k l = Some v.
Proof.
  unfold Spec.lookup. revert m. induction l as [| p l IH]; intros [| m]; [done .. |]. cbn. by case_bool_decide; [| apply IH].
Qed.

#[export] Instance memo_state_cache : Memo StateCache.
Proof.
  refine {|
    memo_wf c := Inv c /\ 0 <= maxSize c;
    memory c k := Spec.lookup k (items c) ≫= λ p, deref p.1;
    memo_Get k t1 t2 c := let '(c', v) := Get k t1 t2 c in (c', deref v);
    memo_Set k r ttl now c := default c (Set_ k (Some (ref_name r)) ttl now c)
  |}.
  - intros k t1 t2 c [HI Hm]. destruct (exec_simulates (OGet k t1 t2) c HI Hm I) as (c' & E & HA).
    cbn in E, HA. destruct (Get k t1 t2 c) as [c1 v]. injection E as -> E.
    destruct HA as [HI' Hit F1 F2]. unfold Spec.get in *.
    assert (memo : forall k' p, Spec.lookup k' (items c') = Some p -> Spec.lookup k' (items c) = Some p).
    { intros k' p. rewrite Hit. destruct (Spec.lookup k (items c)) as [[v0 e] |] eqn:El; [| done].
      destruct (e <? t1); cbn [fst]; [by intros [? _]%lookup_remove |].
      unfold Spec.lookup at 1. cbn. case_bool_decide as Hk; [intros [= <-]; by rewrite <- Hk |].
      intros Hr. by apply lookup_remove in Hr as [? _]. }
    split_and!; [done | by rewrite F1 | ..].
    + intros k' r. destruct (Spec.lookup k' (items c')) as [p |] eqn:El; [| done]. by rewrite (memo k' p El).
    + intros r Hr. destruct (Spec.lookup k (items c)) as [[v0 e] |]; [destruct (e <? t1) |]; cbn in *;
        simplify_eq; done.
  - intros k r ttl now c [HI Hm]. destruct (exec_simulates (OSet k (Some (ref_name r)) ttl now) c HI Hm I) as (c' & E & HA).
    cbn in E, HA. destruct (Set_ k (Some (ref_name r)) ttl now c) as [c1 |]; [| done]. injection E as ->. cbn.
    destruct HA as [HI' Hit F1 F2]. split; [by rewrite F1 |]. intros k' r' Hr'.
    destruct (Spec.lookup k' (items c')) as [p |] eqn:El; [| done]. cbn in Hr'.
    rewrite Hit in El. unfold Spec.set in El.
    assert (H : p = (Some (ref_name r), now + (if ttl =? 0 then defaultTTL c else ttl)) /\ k' = k \/ k' <> k /\ Spec.lookup k' (items c) = Some p).
    { destruct (Spec.lookup k (items c)) eqn:Ek.
      - unfold Spec.lookup in El. cbn in El. case_bool_decide as Hk; [injection El as <-; by left |].
        right. split; [done |]. by apply lookup_remove in El as [? _].
      - apply lookup_take in El. unfold Spec.lookup in El. cbn in El.
        case_bool_decide as Hk; [injection El as <-; by left | right; by split]. }
    destruct H as [[-> ->] | [Hne El']]; [left | right; by rewrite El'].
    cbn in Hr'. rewrite length_ref_name in Hr'. by injection Hr'.
Defined.
End state_cache.

(** ** The Kubernetes API

    [stored] is what the server holds.  A call may fail; one that fails has
    changed nothing, and a status update that succeeds stores the status. *)
Class KubeAPI (A : Type) := {
  stored : A -> NamespacedName -> option NetworkIntent;
  client_Get : NamespacedName -> A -> A * result string NetworkIntent;
  client_List : string -> gmap string string -> A -> A * result string (list NetworkIntent);
  client_UpdateStatus : NetworkIntent -> A -> A * result string unit;
  client_get_spec : forall n a, let '(a', r) := client_Get n a in
    stored a' = stored a /\ (forall i, r = Ok i -> stored a n = Some i /\ ObjectName i = n);
  client_update_spec : forall i a, let '(a', r) := client_UpdateStatus i a in
    (forall n, n <> ObjectName i -> stored a' n = stored a n) /\
    match r with
    | Ok _ => exists i', stored a' (ObjectName i) = Some i' /\ StatusPhase i' = StatusPhase i /\
        LastMessage i' = LastMessage i /\ LastUpdateTime i' = LastUpdateTime i
    | Err _ => stored a' (ObjectName i) = stored a (ObjectName i)
    end
}.

(** ** The manager *)

Inductive StateError :=
| LockRefused (why : string)
| GetFailed (why : string)
| UpdateFailed (why : string)
| EmptyPhase
| EmptyVersion
| PhaseMismatch
| EmptyDependency
| KubeFailed (why : string).

Record StateManagerConfig := mkManagerConfig {
  CacheSize : Z;
  CacheTTL : Duration;
  StateValidationEnabled : bool
}.
Definition DefaultStateManagerConfig : StateManagerConfig := mkManagerConfig 10000 (30 * Minute) true.

(** Draws of the clock during a call. *)
Record Ticks := mkTicks { t_get : Time; t_touch : Time; t_convert : Time; t_set : Time; t_modify : Time; t_set' : Time; t_publish : Time }.

Section manager.
Context {A C : Type} `{KubeAPI A} `{Memo C} (P : NetworkIntentPhases).

(** [events]: what was given to [eventBus.PublishStateChange]. *)
Record StateManager := mkManager {
  heap : list IntentState;
  cache : C;
  api : A;
  events : list StateChangeEvent;
  config : StateManagerConfig
}.

Definition with_heap (h : list IntentState) (sm : StateManager) : StateManager := mkManager h (cache sm) (api sm) (events sm) (config sm).
Definition with_cache (c : C) (sm : StateManager) : StateManager := mkManager (heap sm) c (api sm) (events sm) (config sm).
Definition with_api (a : A) (sm : StateManager) : StateManager := mkManager (heap sm) (cache sm) a (events sm) (config sm).
Definition with_events (e : list StateChangeEvent) (sm : StateManager) : StateManager := mkManager (heap sm) (cache sm) (api sm) e (config sm).

(** The constructor takes its own default configuration. *)
Definition NewStateManager (c : C) (a : A) : StateManager := mkManager [] c a [] DefaultStateManagerConfig.

Definition convertToIntentState (now : Time) (intent : NetworkIntent) : IntentState :=
  mkState (ObjectName intent) (ResourceVersion intent) (CreationTimestamp intent) now (StatusPhase intent)
    (if IsZero (LastUpdateTime intent) then zeroTime else LastUpdateTime intent) [] ∅ ∅
    (if String.eqb (StatusPhase intent) "" then []
     else [mkStateCondition "Ready" "True" (LastUpdateTime intent) "PhaseSet" (LastMessage intent)])
    [] "" zeroTime 0
    (AnyMap match Annotations intent !! "nephoran.io/dependencies" with
            | Some v => [("dependencies", AnyString v)]
            | None => []
            end).

Definition GetIntentState (k : Ticks) (name : NamespacedName) (sm : StateManager) : StateManager * result StateError nat :=
  let '(c, v) := memo_Get (String_ name) (t_get k) (t_touch k) (cache sm) in
  let sm := with_cache c sm in
  match v with
  | Some r => (sm, Ok r)
  | None =>
      let '(a, i) := client_Get name (api sm) in
      let sm := with_api a sm in
      match i with
      | Err e => (sm, Err (GetFailed e))
      | Ok intent =>
          let r := length (heap sm) in
          let sm := with_heap (heap sm ++ [convertToIntentState (t_convert k) intent]) sm in
          (with_cache (memo_Set (String_ name) r (CacheTTL (config sm)) (t_set k) (cache sm)) sm, Ok r)
      end
  end.

Definition with_version (v : string) (s : IntentState) : IntentState :=
  mkState (NamespacedName_ s) v (CreationTime s) (LastModified s) (CurrentPhase s) (PhaseStartTime s) (PhaseTransitions s)
    (PhaseData s) (PhaseErrors s) (Conditions s) (Dependencies s) (LastError s) (LastErrorTime s) (RetryCount s) (Metadata s).

Definition with_modified (t : Time) (s : IntentState) : IntentState :=
  mkState (NamespacedName_ s) (Version s) (CreationTime s) t (CurrentPhase s) (PhaseStartTime s) (PhaseTransitions s)
    (PhaseData s) (PhaseErrors s) (Conditions s) (Dependencies s) (LastError s) (LastErrorTime s) (RetryCount s) (Metadata s).

Definition nextVersion (v : string) : string :=
  let version := if String.eqb v "" then 1 else match Atoi v with Some n => wrap64 (n + 1) | None => 1 end in
  pretty version.

Definition validateState (s : IntentState) : result StateError unit :=
  if String.eqb (CurrentPhase s) "" then Err EmptyPhase
  else if String.eqb (Version s) "" then Err EmptyVersion
  else match last (PhaseTransitions s) with
       | Some t =>
           if negb (String.eqb (ToPhase t) (CurrentPhase s)) then Err PhaseMismatch
           else if existsb (λ d, String.eqb (Intent d) "") (Dependencies s) then Err EmptyDependency else Ok tt
       | None => if existsb (λ d, String.eqb (Intent d) "") (Dependencies s) then Err EmptyDependency else Ok tt
       end.

Definition updateKubernetesState (name : NamespacedName) (s : IntentState) (a : A) : A * result string unit :=
  let '(a, i) := client_Get name a in
  match i with
  | Err e => (a, Err e)
  | Ok intent =>
      let message := match Conditions s with c :: _ => Message c | [] => LastMessage intent end in
      let t := if IsZero (PhaseStartTime s) then LastUpdateTime intent else PhaseStartTime s in
      let t := if negb (String.eqb (LastError s) "") && negb (IsZero (LastErrorTime s)) then LastErrorTime s else t in
      client_UpdateStatus (mkIntent (ObjectName intent) (ResourceVersion intent) (CreationTimestamp intent) (Annotations intent)
        (ProcessingPhaseToNetworkIntentPhase P (CurrentPhase s)) message t) a
  end.

Definition publishStateChangeEvent (now : Time) (name : NamespacedName) (s : IntentState) (sm : StateManager) : StateManager :=
  with_events (events sm ++ [mkChange name (CurrentPhase s) (Version s) now (Metadata s)]) sm.

(** [updateFn] changes the object behind the pointer, also when it then fails. *)
Definition UpdateIntentState (lock : result string unit) (k : Ticks) (name : NamespacedName)
  (updateFn : IntentState -> IntentState * result string unit) (sm : StateManager) : StateManager * result StateError unit :=
  match lock with
  | Err e => (sm, Err (LockRefused e))
  | Ok _ =>
      let '(sm, got) := GetIntentState k name sm in
      match got with
      | Err e => (sm, Err e)
      | Ok r =>
          match heap sm !! r with
          | None => (sm, Err (GetFailed "nil"))
          | Some state =>
              let oldVersion := Version state in
              let '(state, updated) := updateFn state in
              let sm := with_heap (<[r := state]> (heap sm)) sm in
              match updated with
              | Err e => (sm, Err (UpdateFailed e))
              | Ok _ =>
                  let state := with_modified (t_modify k) (with_version (nextVersion (Version state)) state) in
                  let sm := with_heap (<[r := state]> (heap sm)) sm in
                  match (if StateValidationEnabled (config sm) then validateState state else Ok tt) with
                  | Err e => (sm, Err e)
                  | Ok _ =>
                      let '(a, written) := updateKubernetesState name state (api sm) in
                      let sm := with_api a sm in
                      match written with
                      | Err e => (with_heap (<[r := with_version oldVersion state]> (heap sm)) sm, Err (KubeFailed e))
                      | Ok _ =>
                          let sm := with_cache (memo_Set (String_ name) r (CacheTTL (config sm)) (t_set' k) (cache sm)) sm in
                          (publishStateChangeEvent (t_publish k) name state sm, Ok tt)
                      end
                  end
              end
          end
      end
  end.

(** *** The updates of the interface *)

Definition transition (now now' : Time) (newPhase : ProcessingPhase) (metadata : option (list (string * any))) (s : IntentState)
  : IntentState * result string unit :=
  let t := mkTransition (CurrentPhase s) newPhase now (AnyMap (default [] metadata)) in
  (mkState (NamespacedName_ s) (Version s) (CreationTime s) (LastModified s) newPhase now' (PhaseTransitions s ++ [t])
    (match metadata with Some m => <[newPhase := AnyMap m]> (PhaseData s) | None => PhaseData s end)
    (PhaseErrors s) (Conditions s) (Dependencies s) (LastError s) (LastErrorTime s) (RetryCount s) (Metadata s), Ok tt).

Definition TransitionPhase (lock : result string unit) (k : Ticks) (now now' : Time) (name : NamespacedName)
  (newPhase : ProcessingPhase) (metadata : option (list (string * any))) : StateManager -> StateManager * result StateError unit :=
  UpdateIntentState lock k name (transition now now' newPhase metadata).

Definition addError (now : Time) (phase : ProcessingPhase) (err : string) (s : IntentState) : IntentState * result string unit :=
  (mkState (NamespacedName_ s) (Version s) (CreationTime s) (LastModified s) (CurrentPhase s) (PhaseStartTime s) (PhaseTransitions s)
    (PhaseData s) (<[phase := default [] (PhaseErrors s !! phase) ++ [err]]> (PhaseErrors s)) (Conditions s) (Dependencies s)
    err now (RetryCount s) (Metadata s), Ok tt).

Definition SetPhaseError (lock : result string unit) (k : Ticks) (now : Time) (name : NamespacedName) (phase : ProcessingPhase)
  (err : string) : StateManager -> StateManager * result StateError unit :=
  UpdateIntentState lock k name (addError now phase err).

Definition setData (phase : ProcessingPhase) (data : any) (s : IntentState) : IntentState * result string unit :=
  (mkState (NamespacedName_ s) (Version s) (CreationTime s) (LastModified s) (CurrentPhase s) (PhaseStartTime s) (PhaseTransitions s)
    (<[phase := data]> (PhaseData s)) (PhaseErrors s) (Conditions s) (Dependencies s) (LastError s) (LastErrorTime s) (RetryCount s) (Metadata s), Ok tt).

Definition SetPhaseData (lock : result string unit) (k : Ticks) (name : NamespacedName) (phase : ProcessingPhase) (data : any)
  : StateManager -> StateManager * result StateError unit :=
  UpdateIntentState lock k name (setData phase data).

Definition GetPhaseData (k : Ticks) (name : NamespacedName) (phase : ProcessingPhase) (sm : StateManager)
  : StateManager * result StateError any :=
  let '(sm, got) := GetIntentState k name sm in
  (sm, match got with
       | Err e => Err e
       | Ok r => Ok (default AnyNil (heap sm !! r ≫= λ s, PhaseData s !! phase))
       end).

Definition depend (now : Time) (dependsOn : NamespacedName) (s : IntentState) : IntentState * result string unit :=
  (if existsb (λ d, String.eqb (Intent d) (String_ dependsOn)) (Dependencies s) then s
   else mkState (NamespacedName_ s) (Version s) (CreationTime s) (LastModified s) (CurrentPhase s) (PhaseStartTime s) (PhaseTransitions s)
     (PhaseData s) (PhaseErrors s) (Conditions s) (Dependencies s ++ [mkDependency (String_ dependsOn) PhaseCompleted now])
     (LastError s) (LastErrorTime s) (RetryCount s) (Metadata s), Ok tt).

Definition AddDependency (lock : result string unit) (k : Ticks) (now : Time) (intentName dependsOn : NamespacedName)
  : StateManager -> StateManager * result StateError unit :=
  UpdateIntentState lock k intentName (depend now dependsOn).

(** *** Dependencies *)

Definition phaseOrder : list ProcessingPhase :=
  [PhaseIntentReceived; PhaseLLMProcessing; PhaseResourcePlanning; PhaseManifestGeneration; PhaseGitOpsCommit;
   PhaseDeploymentVerification; PhaseCompleted].

(** The index, or -1. *)
Definition phaseIndex (phase : ProcessingPhase) : Z :=
  match list_find (λ p, p = phase) phaseOrder with Some (i, _) => Z.of_nat i | None => -1 end.

Definition isPhaseSatisfied (s : IntentState) (requiredPhase : ProcessingPhase) : bool :=
  phaseIndex requiredPhase <=? phaseIndex (CurrentPhase s).

(** [parts] is made with two empty strings, and never filled. *)
Definition parseNamespacedName (nameStr : string) : result unit NamespacedName :=
  let parts := ["" ; ""] in
  if negb (length parts =? 2)%nat then Err tt
  else Ok (mkName (default "" (parts !! 0%nat)) (default "" (parts !! 1%nat))).

Fixpoint checkEach (ks : nat -> Ticks) (deps : list IntentDependency) (unsatisfied : list string) (sm : StateManager)
  : StateManager * list string :=
  match deps with
  | [] => (sm, unsatisfied)
  | dep :: deps =>
      match parseNamespacedName (Intent dep) with
      | Err _ => checkEach ks deps (unsatisfied ++ ["invalid dependency: " +:+ Intent dep]) sm
      | Ok nn =>
          let '(sm, got) := GetIntentState (ks (length deps)) nn sm in
          match got with
          | Err _ => checkEach ks deps (unsatisfied ++ ["dependency not found: " +:+ Intent dep]) sm
          | Ok r =>
              if match heap sm !! r with Some s => isPhaseSatisfied s (Phase dep) | None => false end
              then checkEach ks deps unsatisfied sm
              else checkEach ks deps (unsatisfied ++ ["dependency " +:+ Intent dep +:+ " not at required phase " +:+ Phase dep]) sm
          end
      end
  end.

Definition CheckDependencies (k : Ticks) (ks : nat -> Ticks) (name : NamespacedName) (sm : StateManager)
  : StateManager * result StateError (bool * list string) :=
  let '(sm, got) := GetIntentState k name sm in
  match got with
  | Err e => (sm, Err e)
  | Ok r =>
      let '(sm, unsatisfied) := checkEach ks (match heap sm !! r with Some s => Dependencies s | None => [] end) [] sm in
      (sm, Ok ((length unsatisfied =? 0)%nat, unsatisfied))
  end.

(** States made for the caller, which are in no cache. *)
Definition ListStates (now : Time) (namespace : string) (labelSelector : gmap string string) (sm : StateManager)
  : StateManager * result StateError (list IntentState) :=
  let '(a, r) := client_List namespace labelSelector (api sm) in
  (with_api a sm, match r with Err e => Err (GetFailed e) | Ok l => Ok (convertToIntentState now <$> l) end).
End manager.

(** ** Properties *)

Section properties.
Context {A C : Type} `{KubeAPI A} `{Memo C} (P : NetworkIntentPhases).

#[local] Abbreviation manager := (StateManager (A := A) (C := C)).

(** The phases of a state form a chain that ends in its current phase, and its
    dependencies differ. *)
Record linked (s : IntentState) : Prop := {
  linked_chain : forall i t u, PhaseTransitions s !! i = Some t -> PhaseTransitions s !! S i = Some u -> ToPhase t = FromPhase u;
  linked_last : forall t, last (PhaseTransitions s) = Some t -> ToPhase t = CurrentPhase s;
  linked_deps : NoDup (Intent <$> Dependencies s)
}.

(** The last event about an intent. *)
Definition lastEvent (n : NamespacedName) (l : list StateChangeEvent) : option StateChangeEvent :=
  last (filter (λ e, IntentName e = n) l).

Record Inv (sm : manager) : Prop := {
  inv_cache : memo_wf (cache sm);
  inv_refs : forall k r, memory (cache sm) k = Some r -> exists s, heap sm !! r = Some s /\ String_ (NamespacedName_ s) = k;
  inv_linked : Forall linked (heap sm);
  inv_named : Forall (λ s, is_Some (stored (api sm) (NamespacedName_ s))) (heap sm);
  inv_server : forall n e, lastEvent n (events sm) = Some e ->
    exists i, stored (api sm) n = Some i /\ StatusPhase i = ProcessingPhaseToNetworkIntentPhase P (NewPhase e)
}.

Lemma inv_forget sm c : Inv sm -> memo_wf c -> (forall k r, memory c k = Some r -> memory (cache sm) k = Some r) ->
  Inv (with_cache c sm).
Proof. intros [Hc Hr Hl Hn Hs] Hwf Hm. split; [done | | done ..]. intros k r E. apply Hr, Hm, E. Qed.

Lemma inv_api sm a : Inv sm ->
  (forall n i, stored (api sm) n = Some i -> exists i', stored a n = Some i' /\ StatusPhase i' = StatusPhase i) -> Inv (with_api a sm).
Proof.
  intros [Hc Hr Hl Hn Hs] Ha. split; [done .. | |].
  { eapply Forall_impl; [exact Hn |]. cbn. intros s [i Hi]. destruct (Ha _ _ Hi) as (i' & -> & _). by eexists. }
  intros n e E. destruct (Hs n e E) as (i & Ei & Ep).
  destruct (Ha n i Ei) as (i' & Ei' & Ep'). exists i'. split; [done | congruence].
Qed.

Lemma inv_remember sm k r s ttl t : Inv sm -> heap sm !! r = Some s -> String_ (NamespacedName_ s) = k ->
  Inv (with_cache (memo_Set k r ttl t (cache sm)) sm).
Proof.
  intros [Hc Hr Hl Hn Hs] E Hk. destruct (memo_set_spec k r ttl t (cache sm) Hc) as [Hwf Hm]. split; [done | | done ..].
  intros k' r' Hk'. destruct (Hm k' r' Hk') as [[-> ->] | [_ Hold]]; [by exists s | by apply Hr].
Qed.

(** An object is replaced by one of the same name. *)
Lemma inv_write sm r s s' : Inv sm -> heap sm !! r = Some s -> NamespacedName_ s' = NamespacedName_ s -> linked s' ->
  Inv (with_heap (<[r := s']> (heap sm)) sm).
Proof.
  intros [Hc Hr Hl Hnm Hs] E Hn Hls.
  split; [done | | by apply Forall_insert | apply Forall_insert; [done |]; rewrite Hn; by apply (Forall_lookup_1 _ _ _ _ Hnm E) | done].
  intros k r' Hm. destruct (Hr k r' Hm) as (s0 & E0 & Hk). destruct (decide (r' = r)) as [-> | Hne].
  - exists s'. cbn [heap with_heap]. rewrite list_lookup_insert_eq by (by eapply lookup_lt_Some). split; [done |]. congruence.
  - exists s0. cbn [heap with_heap]. by rewrite list_lookup_insert_ne.
Qed.

Lemma manager_inv_new sm s : Inv sm -> linked s -> is_Some (stored (api sm) (NamespacedName_ s)) -> Inv (with_heap (heap sm ++ [s]) sm).
Proof.
  intros [Hc Hr Hl Hnm Hs] Hls Hst. split; [done | | apply Forall_app; split; [done | by apply Forall_singleton] .. | done].
  intros k r Hm. destruct (Hr k r Hm) as (s0 & E0 & Hk). exists s0. split; [| done]. cbn. by apply lookup_app_l_Some.
Qed.

Lemma converted_linked now i : linked (convertToIntentState now i).
Proof. split; [done | done | constructor]. Qed.

Lemma stored_Get n (a a' : A) r : client_Get n a = (a', r) -> stored a' = stored a /\ (forall i, r = Ok i -> stored a n = Some i /\ ObjectName i = n).
Proof. intros E. pose proof (client_get_spec n a) as Hg. by rewrite E in Hg. Qed.

(** What reading a state does. *)
Lemma GetIntentState_spec k n sm : Inv sm -> let '(sm', got) := GetIntentState k n sm in
  Inv sm' /\ events sm' = events sm /\ config sm' = config sm /\ stored (api sm') = stored (api sm) /\ heap sm `prefix_of` heap sm' /\
  match got with
  | Ok r => exists s, heap sm' !! r = Some s /\ String_ (NamespacedName_ s) = String_ n /\
      (heap sm' = heap sm \/ exists i, stored (api sm) n = Some i /\ s = convertToIntentState (t_convert k) i)
  | Err _ => heap sm' = heap sm
  end.
Proof.
  intros HI. unfold GetIntentState. pose proof (memo_get_spec (String_ n) (t_get k) (t_touch k) (cache sm) (inv_cache _ HI)) as Hg.
  destruct (memo_Get _ _ _ (cache sm)) as [c v]. destruct Hg as (Hwf & Hm & Hv).
  pose proof (inv_forget sm c HI Hwf Hm) as HI1. destruct v as [r |].
  - split_and!; [done .. |]. destruct (inv_refs _ HI _ _ (Hv r eq_refl)) as (s & E & Hk). exists s. split_and!; [done .. | by left].
  - cbn [api with_cache]. destruct (client_Get n (api sm)) as [a i] eqn:Ea. destruct (stored_Get _ _ _ _ Ea) as [Hst Hi].
    assert (Inv (with_api a (with_cache c sm))) as HI2 by (apply inv_api; [done |]; intros n' i'; cbn; rewrite Hst; by exists i').
    destruct i as [intent | e]; [| by split_and!].
    destruct (Hi _ eq_refl) as [Est Hnm]. set (s := convertToIntentState (t_convert k) intent).
    assert ((heap sm ++ [s]) !! length (heap sm) = Some s) as Es by (by rewrite lookup_app_r, Nat.sub_diag).
    split_and!; [| done | done | done | by apply prefix_app_r | ].
    + eapply (inv_remember (with_heap (heap sm ++ [s]) _)); [apply (manager_inv_new (with_api a (with_cache c sm)) s); [done | apply converted_linked | cbn; rewrite Hst, Hnm; by exists intent] | exact Es | by cbn; rewrite Hnm].
    + exists s. split_and!; [exact Es | cbn; by rewrite Hnm | right; by exists intent].
Qed.

Lemma updateKubernetesState_spec n s (a : A) : let '(a', r) := updateKubernetesState P n s a in
  match r with
  | Err _ => forall m, stored a' m = stored a m
  | Ok _ => (forall m, m <> n -> stored a' m = stored a m) /\
      exists i, stored a' n = Some i /\ StatusPhase i = ProcessingPhaseToNetworkIntentPhase P (CurrentPhase s)
  end.
Proof.
  unfold updateKubernetesState. destruct (client_Get n a) as [a1 i] eqn:E1. destruct (stored_Get _ _ _ _ E1) as [Hst Hi].
  destruct i as [intent | e]; [| by rewrite Hst]. destruct (Hi _ eq_refl) as [_ Hnm].
  match goal with |- context [client_UpdateStatus ?i a1] => pose proof (client_update_spec i a1) as Hu; destruct (client_UpdateStatus i a1) as [a2 r] end.
  cbn in Hu. rewrite Hnm in Hu. destruct Hu as [Ho Hr]. destruct r as [u | e].
  - destruct Hr as (i & Ei & Ep & _). split; [| by exists i]. intros m Hm. by rewrite (Ho m Hm), Hst.
  - intros m. destruct (decide (m = n)) as [-> | Hm]; [by rewrite Hr, Hst | by rewrite (Ho m Hm), Hst].
Qed.

(** The functions that update a state keep its name and the chain of its phases. *)
Definition keeps (f : IntentState -> IntentState * result string unit) : Prop :=
  forall s, linked s -> linked (f s).1 /\ NamespacedName_ (f s).1 = NamespacedName_ s.

Lemma same_parts s s' : linked s -> CurrentPhase s' = CurrentPhase s -> PhaseTransitions s' = PhaseTransitions s ->
  Dependencies s' = Dependencies s -> linked s'.
Proof. intros [H1 H2 H3] E1 E2 E3. split; rewrite ?E1, ?E2, ?E3; done. Qed.

Lemma transition_keeps now now' phase md : keeps (transition now now' phase md).
Proof.
  intros s [H1 H2 H3]. split; [| done]. split; cbn; [| | done].
  - intros i t u Ht Hu. apply lookup_app_Some in Hu as [Hu | [Hlen Hu]].
    + rewrite lookup_app_l in Ht by (apply lookup_lt_Some in Hu; lia). by eapply H1.
    + apply list_lookup_singleton_Some in Hu as [Hi <-]. cbn.
      rewrite lookup_app_l in Ht by lia. apply H2. rewrite last_lookup. by replace (pred _) with i by lia.
  - intros t. rewrite last_snoc. by intros [= <-].
Qed.

Lemma addError_keeps now phase err : keeps (addError now phase err).
Proof. intros s Hl. split; [by apply (same_parts s) | done]. Qed.

Lemma setData_keeps phase data : keeps (setData phase data).
Proof. intros s Hl. split; [by apply (same_parts s) | done]. Qed.

Lemma depend_keeps now n : keeps (depend now n).
Proof.
  intros s Hl. unfold depend. destruct (existsb _ _) eqn:E; [done |]. split; [| done].
  destruct Hl as [H1 H2 H3]. split; [done .. |]. cbn. rewrite fmap_app. apply NoDup_app. split; [done |].
  split; [| by apply NoDup_singleton]. intros x Hx Hn. apply list_elem_of_singleton in Hn as ->.
  apply list_elem_of_fmap in Hx as (d & Ed & Hd). apply not_true_iff_false in E. apply E, existsb_exists.
  exists d. split; [by apply list_elem_of_In | by apply String.eqb_eq].
Qed.

(** What an update does, given what reading the state gave. *)
Lemma UpdateIntentState_spec k n f sm : Inv sm -> keeps f ->
  let '(sm1, got) := GetIntentState k n sm in
  let '(sm', res) := UpdateIntentState P (Ok tt) k n f sm in
  Inv sm' /\
  match got with
  | Err e => sm' = sm1 /\ res = Err e
  | Ok r => exists s, heap sm1 !! r = Some s /\
      let s1 := (f s).1 in
      match res with
      | Ok _ =>
          let s' := with_modified (t_modify k) (with_version (nextVersion (Version s1)) s1) in
          heap sm' = <[r := s']> (heap sm1) /\
          events sm' = events sm1 ++ [mkChange n (CurrentPhase s1) (nextVersion (Version s1)) (t_publish k) (Metadata s1)] /\
          exists i, stored (api sm') n = Some i /\ StatusPhase i = ProcessingPhaseToNetworkIntentPhase P (CurrentPhase s1)
      | Err _ =>
          (exists t v, heap sm' = <[r := with_modified t (with_version v s1)]> (heap sm1)) /\
          events sm' = events sm1 /\ forall m, stored (api sm') m = stored (api sm1) m
      end
  end.
Proof.
  intros HI Hf. pose proof (GetIntentState_spec k n sm HI) as Hg. unfold UpdateIntentState.
  destruct (GetIntentState k n sm) as [sm1 got]. destruct Hg as (HI1 & _ & Hcfg & _ & _ & Hg).
  destruct got as [r | e]; [| done]. destruct Hg as (s & Es & Hk & _). rewrite Es.
  pose proof (lookup_lt_Some _ _ _ Es) as Hlt. pose proof (proj1 (Forall_lookup _ _) (inv_linked _ HI1) r s Es) as Hls.
  destruct (Hf s Hls) as [Hl1 Hn1]. destruct (f s) as [s1 u] eqn:Ef. cbn [fst] in *.
  assert (HI2 : forall v t, Inv (with_heap (<[r := with_modified t (with_version v s1)]> (heap sm1)) sm1)).
  { intros v t. apply (inv_write _ _ _ _ HI1 Es); [done | by apply (same_parts s1)]. }
  assert (Hid : s1 = with_modified (LastModified s1) (with_version (Version s1) s1)) by (by destruct s1).
  destruct u as [[] | e].
  2:{ split; [rewrite Hid; apply HI2 |]. exists s. split; [done |]. rewrite Ef. cbn. split_and!; [| done ..].
      exists (LastModified s1), (Version s1). by rewrite <- Hid. }
  cbn [with_heap heap config api cache]. rewrite list_insert_insert_eq.
  set (s' := with_modified (t_modify k) (with_version (nextVersion (Version s1)) s1)).
  destruct (if StateValidationEnabled (config sm1) then validateState s' else Ok tt) as [[] | e].
  2:{ split; [apply HI2 |]. exists s. split; [done |]. rewrite Ef. cbn. split_and!; [| done ..]. by eexists _, _. }
  pose proof (updateKubernetesState_spec n s' (api sm1)) as Hu. destruct (updateKubernetesState P n s' (api sm1)) as [a w].
  destruct w as [[] | e].
  2:{ cbn [with_api with_heap heap]. rewrite list_insert_insert_eq. split; [| exists s; split; [done |]; rewrite Ef; cbn; split_and!; [| done ..]].
      - apply (inv_api (with_heap (<[r := with_modified (t_modify k) (with_version (Version s) s1)]> (heap sm1)) sm1)); [apply HI2 |].
        intros m i Hm. exists i. by rewrite Hu.
      - by eexists (t_modify k), (Version s). }
  destruct Hu as [Ho Hi]. split; [| exists s; split; [done |]; rewrite Ef; done].
  destruct (HI2 (nextVersion (Version s1)) (t_modify k)) as [Hc Hr Hl Hnm Hs].
  pose proof (memo_set_spec (String_ n) r (CacheTTL (config sm1)) (t_set' k) (cache sm1) Hc) as [Hwf Hm].
  split; cbn [cache heap events api publishStateChangeEvent with_events with_cache with_api with_heap] in *; [done | | done | |].
  - intros k' r' Hk'. destruct (Hm k' r' Hk') as [[-> ->] | [_ Hold]]; [| by apply Hr].
    exists s'. rewrite list_lookup_insert_eq by done. split; [done |]. rewrite <- Hk. cbn. by rewrite Hn1.
  - eapply Forall_impl; [exact Hnm |]. cbn. intros x Hx. destruct (decide (NamespacedName_ x = n)) as [-> |]; [| by rewrite Ho].
    destruct Hi as (i & -> & _). by eexists.
  - intros m e He. unfold lastEvent in He. rewrite filter_app, filter_cons, filter_nil in He. cbn in He.
    case_decide as Hm'.
    + rewrite last_snoc in He. injection He as <-. subst m. exact Hi.
    + rewrite app_nil_r in He. rewrite Ho by congruence. by apply Hs.
Qed.

(** *** Runs

    The operations, in any order and with any outcome of locks and calls, while
    the cache may forget (expiry, eviction) and other clients may create intents
    and change what is not the phase. *)
Inductive step : manager -> manager -> Prop :=
| step_read k n sm : step sm (GetIntentState k n sm).1
| step_transition lock k now now' n phase md sm : step sm (TransitionPhase P lock k now now' n phase md sm).1
| step_error lock k now n phase err sm : step sm (SetPhaseError P lock k now n phase err sm).1
| step_data lock k n phase data sm : step sm (SetPhaseData P lock k n phase data sm).1
| step_depend lock k now n m sm : step sm (AddDependency P lock k now n m sm).1
| step_check k ks n sm : step sm (CheckDependencies k ks n sm).1
| step_list now ns labels sm a r : client_List ns labels (api sm) = (a, r) ->
    (forall n, stored a n = stored (api sm) n) -> step sm (ListStates now ns labels sm).1
| step_forget c sm : memo_wf c -> (forall k r, memory c k = Some r -> memory (cache sm) k = Some r) -> step sm (with_cache c sm)
| step_server a sm : (forall n i, stored (api sm) n = Some i -> exists i', stored a n = Some i' /\ StatusPhase i' = StatusPhase i) ->
    step sm (with_api a sm).

Lemma update_inv lock k n f sm : Inv sm -> keeps f -> Inv (UpdateIntentState P lock k n f sm).1.
Proof.
  intros HI Hf. destruct lock as [[] |]; [| done]. pose proof (UpdateIntentState_spec k n f sm HI Hf) as Hu.
  destruct (GetIntentState k n sm) as [sm1 got]. destruct (UpdateIntentState P (Ok tt) k n f sm) as [sm' res]. apply Hu.
Qed.

Lemma read_inv k n sm : Inv sm -> Inv (GetIntentState k n sm).1.
Proof. intros HI. pose proof (GetIntentState_spec k n sm HI) as Hg. destruct (GetIntentState k n sm). apply Hg. Qed.

Lemma checkEach_inv ks deps u sm : Inv sm -> Inv (checkEach ks deps u sm).1.
Proof.
  revert u sm. induction deps as [| d deps IH]; intros u sm HI; [done |]. cbn. rewrite (surjective_pairing (GetIntentState _ _ sm)).
  pose proof (read_inv (ks (length deps)) (mkName "" "") sm HI) as HI1.
  destruct (GetIntentState (ks (length deps)) (mkName "" "") sm).2; [case_match |]; by apply IH.
Qed.

Lemma step_inv sm sm' : step sm sm' -> Inv sm -> Inv sm'.
Proof.
  destruct 1; intros HI; [by apply read_inv | by apply update_inv, transition_keeps | by apply update_inv, addError_keeps |
    by apply update_inv, setData_keeps | by apply update_inv, depend_keeps | | | by apply inv_forget | by apply inv_api].
  - unfold CheckDependencies. rewrite (surjective_pairing (GetIntentState k n sm)). pose proof (read_inv k n sm HI) as HI1.
    destruct (GetIntentState k n sm).2 as [r |]; [| done].
    match goal with |- context [checkEach ?ks ?d ?u ?s] => rewrite (surjective_pairing (checkEach ks d u s)) end. by apply checkEach_inv.
  - match goal with E : client_List _ _ _ = _, Hst : forall n, stored _ n = _ |- _ => unfold ListStates; rewrite E;
      apply inv_api; [done |]; intros m i Hi; exists i; by rewrite Hst end.
Qed.

Definition reachable (sm : manager) : Prop :=
  exists c a, memo_wf c /\ (forall k, memory c k = None) /\ rtc step (NewStateManager c a) sm.

Lemma reachable_manager_inv sm : reachable sm -> Inv sm.
Proof.
  intros (c & a & Hwf & Hempty & Hr). assert (Inv (NewStateManager c a)) as HI.
  { split; [done | | done ..]. intros k r. cbn. by rewrite Hempty. }
  clear Hwf Hempty. induction Hr as [| x y z Hs _ IH]; [done |]. by apply IH, (step_inv x).
Qed.


(** An update that succeeds has written the phase to the server, published one
    event with it and raised the version; one that fails after the update function
    ran has published nothing and changed nothing on the server, but the object,
    which the cache and every earlier reader hold, keeps what the function did. *)
Theorem update_outcome sm k n f : reachable sm -> keeps f ->
  let '(sm1, got) := GetIntentState k n sm in
  let '(sm', res) := UpdateIntentState P (Ok tt) k n f sm in
  match got with
  | Err e => sm' = sm1 /\ res = Err e
  | Ok r => exists s s', heap sm1 !! r = Some s /\ heap sm' = <[r := s']> (heap sm1) /\
      CurrentPhase s' = CurrentPhase (f s).1 /\ PhaseTransitions s' = PhaseTransitions (f s).1 /\
      PhaseData s' = PhaseData (f s).1 /\ PhaseErrors s' = PhaseErrors (f s).1 /\ Dependencies s' = Dependencies (f s).1 /\
      match res with
      | Ok _ =>
          Version s' = nextVersion (Version (f s).1) /\
          events sm' = events sm1 ++ [mkChange n (CurrentPhase s') (Version s') (t_publish k) (Metadata s')] /\
          exists i, stored (api sm') n = Some i /\ StatusPhase i = ProcessingPhaseToNetworkIntentPhase P (CurrentPhase s')
      | Err _ => events sm' = events sm1 /\ forall m, stored (api sm') m = stored (api sm1) m
      end
  end.
Proof.
  intros HI%reachable_manager_inv Hf. pose proof (UpdateIntentState_spec k n f sm HI Hf) as Hu.
  destruct (GetIntentState k n sm) as [sm1 got]. destruct (UpdateIntentState P (Ok tt) k n f sm) as [sm' res].
  destruct Hu as [_ Hu]. destruct got as [r | e]; [| done]. destruct Hu as (s & Es & Hu). destruct res as [u | e].
  - destruct Hu as (Eh & Ee & Hi). eexists s, _. by split_and!.
  - destruct Hu as ((t & v & Eh) & Ee & Hst). eexists s, _. by split_and!.
Qed.

Lemma checkEach_unsatisfied ks deps u sm : Inv sm -> (forall sm', Inv sm' -> stored (api sm') = stored (api sm) ->
    forall k, exists e, (GetIntentState k (mkName "" "") sm').2 = Err e) ->
  (checkEach ks deps u sm).2 = u ++ ((λ d, "dependency not found: " +:+ Intent d) <$> deps).
Proof.
  revert u sm. induction deps as [| d deps IH]; intros u sm HI Hg; [by rewrite app_nil_r |]. cbn.
  pose proof (GetIntentState_spec (ks (length deps)) (mkName "" "") sm HI) as Hs.
  destruct (Hg sm HI eq_refl (ks (length deps))) as [e Ee]. destruct (GetIntentState _ _ sm) as [sm1 got]. cbn in Ee. subst got.
  destruct Hs as (HI1 & _ & _ & Hst & _). rewrite IH; [by rewrite <- app_assoc | done |]. intros sm' HI' Hst'. apply Hg; [done | congruence].
Qed.

Lemma unnamed_missing sm k : Inv sm -> stored (api sm) (mkName "" "") = None -> exists e, (GetIntentState k (mkName "" "") sm).2 = Err e.
Proof.
  intros HI Hn. pose proof (GetIntentState_spec k (mkName "" "") sm HI) as Hg. destruct (GetIntentState k (mkName "" "") sm) as [sm' got].
  destruct Hg as (HI' & _ & _ & Hst & _ & Hg). destruct got as [r | e]; [| by eexists]. destruct Hg as (s & Es & Hk & _).
  destruct (Forall_lookup_1 _ _ _ _ (inv_named _ HI') Es) as [i Hi]. cbn in Hi. rewrite Hst in Hi.
  destruct (NamespacedName_ s) as [ns nm]. unfold String_ in Hk. cbn in Hk.
  destruct ns as [| c ns].
  - assert (String "/"%char nm = "/") as E by exact Hk. injection E as ->. congruence.
  - assert (String c (String.append ns (String "/"%char nm)) = "/") as E by exact Hk. injection E as _ E. by destruct ns.
Qed.

(** An intent with dependencies is never ready: the name of a dependency is
    parsed into two empty strings, which name no intent, so that each dependency is
    reported as not found whatever its state; an intent without any is ready. *)
Theorem dependencies_never_satisfied sm k ks n : reachable sm -> stored (api sm) (mkName "" "") = None ->
  let '(sm1, got) := GetIntentState k n sm in
  (CheckDependencies k ks n sm).2 =
  match got with
  | Err e => Err e
  | Ok r =>
      let deps := match heap sm1 !! r with Some s => Dependencies s | None => [] end in
      Ok (bool_decide (deps = []), (λ d, "dependency not found: " +:+ Intent d) <$> deps)
  end.
Proof.
  intros HI%reachable_manager_inv Hn. pose proof (GetIntentState_spec k n sm HI) as Hg. unfold CheckDependencies.
  destruct (GetIntentState k n sm) as [sm1 got]. destruct Hg as (HI1 & _ & _ & Hst & _ & _). destruct got as [r | e]; [| done].
  set (deps := match heap sm1 !! r with Some s => Dependencies s | None => [] end).
  rewrite (surjective_pairing (checkEach ks deps [] sm1)). cbn. rewrite checkEach_unsatisfied; [| done |].
  - cbn. rewrite length_fmap. by destruct deps.
  - intros sm' HI' Hst'. intros k'. apply unnamed_missing; [done |]. by rewrite Hst', Hst.
Qed.
End properties.

(** ** A server, and the properties on it *)

(** A server in memory; the list says which of the next status updates fail. *)
Definition Server : Type := gmap NamespacedName NetworkIntent * list bool.

#[export] Instance server_api : KubeAPI Server.
Proof.
  refine {|
    stored s n := match s.1 !! n with Some i => if decide (ObjectName i = n) then Some i else None | None => None end;
    client_Get n s := (s, match s.1 !! n with Some i => if decide (ObjectName i = n) then Ok i else Err "not found" | None => Err "not found" end);
    client_List ns labels s := (s, Ok (filter (λ i, Namespace (ObjectName i) = ns) (map_to_list s.1).*2));
    client_UpdateStatus i s :=
      match s.2 with
      | true :: rest => ((s.1, rest), Err "conflict")
      | _ => match s.1 !! ObjectName i with
             | Some _ => ((<[ObjectName i := i]> s.1, tail s.2), Ok tt)
             | None => (s, Err "not found")
             end
      end
  |}.
  - intros n s. split; [done |]. intros i. destruct (s.1 !! n) as [j |]; [| done]. case_decide; [| done]. by intros [= <-].
  - intros i [m script]. cbn. destruct script as [| [] rest]; cbn.
    + destruct (m !! ObjectName i) as [j |] eqn:E; [| split; [done |]; cbn; by rewrite E]. cbn. split; [intros n Hn; by rewrite lookup_insert_ne |].
      rewrite lookup_insert_eq, decide_True by done. by exists i.
    + done.
    + destruct (m !! ObjectName i) as [j |] eqn:E; [| split; [done |]; cbn; by rewrite E]. cbn. split; [intros n Hn; by rewrite lookup_insert_ne |].
      rewrite lookup_insert_eq, decide_True by done. by exists i.
Defined.

Definition demo_phases : NetworkIntentPhases :=
  mkPhases "Pending" "Processing" "Deploying" "Active" "Ready" "Deployed" "Failed".
Definition demo_name : NamespacedName := mkName "default" "slice".
Definition demo_server (fails : list bool) : Server :=
  ({[demo_name := mkIntent demo_name "7" 5 ∅ "" "" 0; mkName "default" "core" := mkIntent (mkName "default" "core") "3" 5 ∅ "Deployed" "" 0]}, fails).
Definition demo_manager (fails : list bool) : StateManager (A := Server) (C := StateCache.StateCache) :=
  NewStateManager (StateCache.NewStateCache 10000 (30 * Minute)) (demo_server fails).
Definition ticks (t : Time) : Ticks := mkTicks t t t t t t t.

Lemma demo_reachable fails sm : rtc (step demo_phases) (demo_manager fails) sm -> reachable demo_phases sm.
Proof.
  intros Hr. exists (StateCache.NewStateCache 10000 (30 * Minute)), (demo_server fails). split; [| by split].
  split; [apply StateCache.cache_inv_new | done].
Qed.

(** A transition that is written, and one whose write fails. *)
Definition demo_run : StateManager (A := Server) (C := StateCache.StateCache) :=
  (TransitionPhase demo_phases (Ok tt) (ticks 20) 20 20 demo_name PhaseResourcePlanning None
    (TransitionPhase demo_phases (Ok tt) (ticks 10) 10 10 demo_name PhaseLLMProcessing None (demo_manager [false; true])).1).1.

Lemma demo_run_reachable : rtc (step demo_phases) (demo_manager [false; true]) demo_run.
Proof. eapply rtc_l; [apply step_transition |]. eapply rtc_once, step_transition. Qed.


(** The failed transition of [demo_run], by itself: the caller learns of the
    failure, and a reader of the cache sees the phase that was not reached. *)
Lemma update_outcome_witness :
  let sm := (TransitionPhase demo_phases (Ok tt) (ticks 10) 10 10 demo_name PhaseLLMProcessing None (demo_manager [false; true])).1 in
  let f := transition 20 20 PhaseResourcePlanning None in
  reachable demo_phases sm /\ keeps f /\
  (UpdateIntentState demo_phases (Ok tt) (ticks 20) demo_name f sm).2 = Err (KubeFailed "conflict") /\
  exists s', heap demo_run !! 0%nat = Some s' /\ CurrentPhase s' = PhaseResourcePlanning /\ events demo_run = events sm.
Proof.
  set (f := transition 20 20 PhaseResourcePlanning None). intros sm f'.
  assert (reachable demo_phases sm) as Hr by (apply (demo_reachable [false; true]); eapply rtc_once, step_transition).
  pose proof (update_outcome demo_phases sm (ticks 20) demo_name f Hr (transition_keeps _ _ _ _)) as Ho.
  split; [exact Hr |]. split; [apply transition_keeps |]. split; [by vm_compute |].
  assert (Eg : (GetIntentState (ticks 20) demo_name sm).2 = Ok 0%nat) by (by vm_compute).
  assert (Er : (UpdateIntentState demo_phases (Ok tt) (ticks 20) demo_name f sm).2 = Err (KubeFailed "conflict")) by (by vm_compute).
  assert (Es : (UpdateIntentState demo_phases (Ok tt) (ticks 20) demo_name f sm).1 = demo_run) by reflexivity.
  assert (Ev : events (GetIntentState (ticks 20) demo_name sm).1 = events sm) by (by vm_compute).
  destruct (GetIntentState (ticks 20) demo_name sm) as [sm1 got]. cbn in Eg, Ev. subst got.
  destruct (UpdateIntentState demo_phases (Ok tt) (ticks 20) demo_name f sm) as [sm' res]. cbn in Er, Es. subst res sm'.
  destruct Ho as (s & s' & E0 & Eh & Ep & _ & _ & _ & _ & Ee & _). exists s'. rewrite Eh, Ee, Ev. split; [| split; [exact Ep | done]].
  rewrite list_lookup_insert_eq; [done | by eapply lookup_lt_Some].
Defined.

(** An intent waits for one that is deployed, and is not ready. *)
Lemma dependencies_never_satisfied_witness :
  let sm := (AddDependency demo_phases (Ok tt) (ticks 10) 10 demo_name (mkName "default" "core")
    (TransitionPhase demo_phases (Ok tt) (ticks 9) 9 9 demo_name PhaseLLMProcessing None (demo_manager [])).1).1 in
  reachable demo_phases sm /\ stored (api sm) (mkName "" "") = None /\
  (CheckDependencies (ticks 11) (λ _, ticks 11) demo_name sm).2 = Ok (false, ["dependency not found: default/core"]).
Proof.
  intros sm. assert (reachable demo_phases sm) as Hr.
  { apply (demo_reachable []). eapply rtc_l; [apply step_transition | eapply rtc_once, step_depend]. }
  assert (stored (api sm) (mkName "" "") = None) as Hn by (by vm_compute). split; [exact Hr |]. split; [exact Hn |].
  pose proof (dependencies_never_satisfied demo_phases sm (ticks 11) (λ _, ticks 11) demo_name Hr Hn) as Hd.
  assert (Eg : (GetIntentState (ticks 11) demo_name sm).2 = Ok 0%nat) by (by vm_compute).
  assert (Es : (heap (GetIntentState (ticks 11) demo_name sm).1 !! 0%nat) ≫= (λ s, Some (Dependencies s)) =
    Some [mkDependency "default/core" PhaseCompleted 10]) by (by vm_compute).
  destruct (GetIntentState (ticks 11) demo_name sm) as [sm1 got]. cbn in Eg, Es. subst got.
  rewrite Hd. destruct (heap sm1 !! 0%nat) as [s |]; [| done]. cbn in Es. injection Es as Es. cbn zeta. by rewrite Es.
Defined.

(** ** Phases of the API *)

(** A phase survives its way to the server and back exactly when it is none of the
    two that share a phase of the API with an earlier one, nor the alias. *)
Lemma phase_roundtrip (P : NetworkIntentPhases) phase : phases_distinct P ->
  phase ∈ [PhaseIntentReceived; PhaseReceived; PhaseLLMProcessing; PhaseResourcePlanning; PhaseManifestGeneration; PhaseGitOpsCommit;
    PhaseDeploymentVerification; PhaseCompleted; PhaseFailed] ->
  NetworkIntentPhaseToProcessingPhase P (ProcessingPhaseToNetworkIntentPhase P phase) = phase <->
  phase ∉ [PhaseReceived; PhaseManifestGeneration; PhaseGitOpsCommit].
Proof.
  intros Hd Hin. unfold phases_distinct in Hd. rewrite !NoDup_cons, !not_elem_of_cons in Hd. destruct_and!.
  unfold NetworkIntentPhaseToProcessingPhase. in_cases Hin; cbn;
    repeat match goal with |- context [String.eqb ?a ?b] => first [rewrite (String.eqb_refl a) | destruct (String.eqb_spec a b); [congruence |]] end;
    rewrite !not_elem_of_cons; cbn; split; intros Hx; try done; try (by split_and!; [.. | apply not_elem_of_nil]);
    destruct_and!; congruence.
Qed.

(** When the cache has forgotten an intent, its state is made from the server: the
    phase is the API's and no processing phase, and the history is gone. *)
Example evicted_state_forgets :
  let sm := (TransitionPhase demo_phases (Ok tt) (ticks 10) 10 10 demo_name PhaseLLMProcessing None (demo_manager [])).1 in
  let sm := with_cache (StateCache.Clear (cache sm)) sm in
  let '(sm, got) := GetIntentState (ticks 20) demo_name sm in
  exists r s, got = Ok r /\ heap sm !! r = Some s /\ CurrentPhase s = "Processing" /\ PhaseTransitions s = [] /\
    isPhaseSatisfied s PhaseIntentReceived = false.
Proof. vm_compute. by eexists _, _. Qed.

(** A reader that fetched the intent before an update stores what it fetched after
    it: the cache goes back, and the next update starts from the old state. *)
Example late_fill_reverts :
  let sm := demo_manager [] in
  let '(_, fetched) := client_Get demo_name (api sm) in
  let sm := (TransitionPhase demo_phases (Ok tt) (ticks 10) 10 10 demo_name PhaseLLMProcessing None sm).1 in
  match fetched with
  | Ok intent =>
      let r := length (heap sm) in
      let sm := with_heap (heap sm ++ [convertToIntentState 11 intent]) sm in
      let sm := with_cache (memo_Set (String_ demo_name) r (CacheTTL (config sm)) 11 (cache sm)) sm in
      let '(sm, got) := GetIntentState (ticks 12) demo_name sm in
      exists r s, got = Ok r /\ heap sm !! r = Some s /\ CurrentPhase s = "" /\ PhaseTransitions s = []
  | Err _ => False
  end.
Proof. vm_compute. by eexists _, _. Qed.
