(* ===== verification/SharedEventBus.v ===== *)
(** * SharedEventBus: the event bus between the phase controllers

    Follows pkg/shared/enhanced_event_bus.go and event_components.go: the retry
    policy, the dead letter queue, the partitions, the log of events in files, the
    processing of an event, and the bus itself with its publishers, its workers and
    its [Stop].

    The raw data of an event are the JSON object they encode ([Publish] takes what
    is no object for an empty one).  The encoding of a whole event to a line is a
    class of parameters, [EventCodec]. *)

From S2P Require Import Prelude GoFloat.
From S2P Require Import GoStrings.
From stdpp Require Import pretty.
From Stdlib Require Import Ascii.
Local Open Scope Z_scope.

Record ProcessingEvent := mkProcessing {
  Type_ : string;
  Source : string;
  IntentID : string;
  Phase : string;
  Success : bool;
  Data : gmap string any;
  Timestamp : Z;
  CorrelationID : string;
  Metadata : gmap string string
}.

Definition with_sequence (n : Z) (e : ProcessingEvent) : ProcessingEvent :=
  mkProcessing (Type_ e) (Source e) (IntentID e) (Phase e) (Success e) (<["sequenceNumber" := AnyInt n]> (Data e)) (Timestamp e)
    (CorrelationID e) (Metadata e).

Definition sequence (e : ProcessingEvent) : option Z :=
  match Data e !! "sequenceNumber" with Some (AnyInt n) => Some n | _ => None end.

(** ** Retries *)

Record RetryPolicy := mkRetry {
  MaxRetries : Z;
  BackoffBase : Duration;
  BackoffMax : Duration;
  BackoffJitter : bool;
  RetryableErrors : list string
}.

(** [nanos] is the clock's reading in nanoseconds. *)
Definition calculateBackoff (rp : RetryPolicy) (attempt nanos : Z) : Duration :=
  let backoff := wrap64 (f64_to_int (f64_of_int (2 ^ attempt)) * BackoffBase rp) in
  let backoff := if BackoffMax rp <? backoff then BackoffMax rp else backoff in
  if BackoffJitter rp && (0 <? attempt)
  then wrap64 (backoff + f64_to_int (f64_mul (f64_mul (f64_of_int backoff) (f64_ratio 1 10))
         (f64_sub (f64_div (f64_mul (f64_of_int 2) (f64_of_int (Z.rem nanos 100))) (f64_of_int 100)) f64_one)))
  else backoff.

Definition isRetryableError (rp : RetryPolicy) (err : string) : bool :=
  (length (RetryableErrors rp) =? 0)%nat || existsb (String.eqb err) (RetryableErrors rp).

Inductive RetryError :=
| NotRetryable (err : string)
| Exhausted (attempts : Z) (err : option string).

(** Tries that are left; [fn] acts on the state of the program. *)
Fixpoint tries {W} (rp : RetryPolicy) (fn : W -> W * result string unit) (left_ : nat) (lastErr : option string) (w : W)
  : W * result RetryError unit :=
  match left_ with
  | O => (w, Err (Exhausted (MaxRetries rp + 1) lastErr))
  | S n =>
      let '(w, r) := fn w in
      match r with
      | Ok _ => (w, Ok tt)
      | Err e => if negb (isRetryableError rp e) then (w, Err (NotRetryable e)) else tries rp fn n (Some e) w
      end
  end.

Definition Execute {W} (rp : RetryPolicy) (fn : W -> W * result string unit) (w : W) : W * result RetryError unit :=
  tries rp fn (Z.to_nat (MaxRetries rp + 1)) None w.

(** The tries of a call: those before the last failed and could be retried. *)
Inductive tried {W} (rp : RetryPolicy) (fn : W -> W * result string unit) : nat -> W -> W -> result string unit -> Prop :=
| tried_last w w' r : fn w = (w', r) -> tried rp fn 1 w w' r
| tried_again n w w1 w' e r : fn w = (w1, Err e) -> isRetryableError rp e = true -> tried rp fn n w1 w' r -> tried rp fn (S n) w w' r.

Lemma tries_spec {W} rp (fn : W -> W * result string unit) n last w : let '(w', r) := tries rp fn (S n) last w in
  exists k x, (k <= S n)%nat /\ tried rp fn k w w' x /\
    match r with
    | Ok _ => x = Ok tt
    | Err (NotRetryable e) => x = Err e /\ isRetryableError rp e = false
    | Err (Exhausted a e) => exists e0, x = Err e0 /\ e = Some e0 /\ isRetryableError rp e0 = true /\ k = S n /\ a = MaxRetries rp + 1
    end.
Proof.
  revert last w. induction n as [| n IH]; intros last w; cbn; destruct (fn w) as [w1 r] eqn:E; destruct r as [[] | e].
  - exists 1%nat, (Ok tt). split_and!; [lia | by constructor | done].
  - destruct (isRetryableError rp e) eqn:Er; cbn.
    + exists 1%nat, (Err e). split_and!; [lia | by constructor | by exists e].
    + exists 1%nat, (Err e). split_and!; [lia | by constructor | done..].
  - exists 1%nat, (Ok tt). split_and!; [lia | by constructor | done].
  - destruct (isRetryableError rp e) eqn:Er; cbn [negb].
    + specialize (IH (Some e) w1). cbn in IH. destruct (fn w1) as [w2 r2].
      match goal with |- let '(w', r) := ?t in _ => destruct t as [w' r] end.
      destruct IH as (k & x & Hk & Ht & Hr). exists (S k), x. split_and!; [lia | by eapply tried_again |].
      destruct r as [| [|]]; [done .. |]. destruct Hr as (e0 & ? & ? & ? & ? & ?). exists e0. split_and!; [done .. | lia | done].
    + exists 1%nat, (Err e). split_and!; [lia | by constructor | done..].
Qed.

(** With the policy of the bus and its default configuration a pause is within a
    tenth of its nominal length, 2, 4 and 8 seconds, whatever the clock says. *)
Definition defaultPolicy : RetryPolicy := mkRetry 3 (1 * Second) (30 * Second) true [].

Lemma default_backoff nanos attempt : 0 <= nanos -> 1 <= attempt <= 3 ->
  9 * (2 ^ attempt * Second) <= 10 * calculateBackoff defaultPolicy attempt nanos <= 11 * (2 ^ attempt * Second).
Proof.
  intros Hn Ha.
  assert (H : forallb (λ a, forallb (λ n, let b := calculateBackoff defaultPolicy (Z.of_nat a) (Z.of_nat n) in
    (9 * (2 ^ Z.of_nat a * Second) <=? 10 * b) && (10 * b <=? 11 * (2 ^ Z.of_nat a * Second))) (seq 0 100)) [1%nat; 2%nat; 3%nat] = true)
    by (by vm_compute).
  rewrite forallb_forall in H. specialize (H (Z.to_nat attempt)). cbv beta in H. rewrite forallb_forall in H.
  specialize (H ltac:(cbn; lia) (Z.to_nat (Z.rem nanos 100))). pose proof (Z.rem_bound_pos nanos 100 Hn).
  specialize (H ltac:(apply in_seq; lia)). rewrite !Z2Nat.id in H by lia.
  replace (calculateBackoff defaultPolicy attempt (Z.rem nanos 100)) with (calculateBackoff defaultPolicy attempt nanos) in H.
  - apply andb_true_iff in H as [H1 H2]. lia.
  - unfold calculateBackoff. by rewrite Z.rem_rem.
Qed.

(** ** Bounded histories

    Dead letters, partitions and processing times are kept in lists from which the
    oldest are dropped when they have grown too long. *)
Definition appendBounded {X} (maxSize dropped : nat) (x : X) (l : list X) : list X :=
  let l := l ++ [x] in
  if (maxSize <? length l)%nat then drop dropped l else l.

Lemma appendBounded_spec {X} (maxSize dropped : nat) (xs l : list X) : (0 < dropped)%nat -> (length l <= maxSize)%nat ->
  let l' := foldl (λ l x, appendBounded maxSize dropped x l) l xs in
  (length l' <= maxSize)%nat /\ l' `suffix_of` l ++ xs.
Proof.
  intros Hd. revert l. induction xs as [| x xs IH]; intros l Hl; cbn [foldl]; [split; [done | by rewrite app_nil_r] |].
  assert ((length (appendBounded maxSize dropped x l) <= maxSize)%nat /\ appendBounded maxSize dropped x l `suffix_of` l ++ [x]) as [Hb [p E]].
  { unfold appendBounded. destruct (maxSize <? length (l ++ [x]))%nat eqn:Eb.
    - split; [rewrite length_drop, length_app; cbn; lia |]. exists (take dropped (l ++ [x])). by rewrite take_drop.
    - apply Nat.ltb_ge in Eb. by split. }
  destruct (IH _ Hb) as [Hl' [p' E']]. split; [done |]. exists (p ++ p'). by rewrite <- app_assoc, <- E', app_assoc, <- E, <- app_assoc.
Qed.

(** *** Dead letters *)

Record DeadLetterEvent := mkDead { Event : ProcessingEvent; Error : RetryError; dead_Timestamp : Time; AttemptCount : Z; LastAttempt : Time }.
Record DeadLetterQueue := mkDeadLetters { enabled : bool; dead : list DeadLetterEvent; dlq_maxSize : nat }.

Definition NewDeadLetterQueue (enabled : bool) : DeadLetterQueue := mkDeadLetters enabled [] 1000.

(** The number of attempts is always 1. *)
Definition Add (event : ProcessingEvent) (err : RetryError) (now now' : Time) (dlq : DeadLetterQueue) : DeadLetterQueue :=
  if negb (enabled dlq) then dlq
  else mkDeadLetters (enabled dlq)
    (appendBounded (dlq_maxSize dlq) (dlq_maxSize dlq / 10) (mkDead event err now 1 now') (dead dlq)) (dlq_maxSize dlq).

Definition Clear (dlq : DeadLetterQueue) : DeadLetterQueue := mkDeadLetters (enabled dlq) [] (dlq_maxSize dlq).

(** *** Partitions *)

Record EventPartition := mkPartition { id : string; part : list ProcessingEvent; part_maxSize : nat; lastSeq : Z }.

Definition NewEventPartition (id : string) (maxSize : nat) : EventPartition := mkPartition id [] maxSize 0.

Definition AddEvent (event : ProcessingEvent) (ep : EventPartition) : EventPartition :=
  mkPartition (id ep) (appendBounded (part_maxSize ep) (part_maxSize ep / 10) event (part ep)) (part_maxSize ep) (lastSeq ep + 1).

(** *** Metrics *)

Record EventBusMetrics := mkMetrics {
  totalEventsPublished : Z;
  totalEventsProcessed : Z;
  failedHandlers : Z;
  processingTimes : list Duration
}.

Definition RecordEventPublished (m : EventBusMetrics) : EventBusMetrics :=
  mkMetrics (wrap64 (totalEventsPublished m + 1)) (totalEventsProcessed m) (failedHandlers m) (processingTimes m).
Definition RecordEventProcessed (d : Duration) (m : EventBusMetrics) : EventBusMetrics :=
  mkMetrics (totalEventsPublished m) (wrap64 (totalEventsProcessed m + 1)) (failedHandlers m) (appendBounded 1000 100 d (processingTimes m)).
Definition RecordHandlerFailure (m : EventBusMetrics) : EventBusMetrics :=
  mkMetrics (totalEventsPublished m) (totalEventsProcessed m) (wrap64 (failedHandlers m + 1)) (processingTimes m).

(** In milliseconds. *)
Definition GetAverageProcessingTime (m : EventBusMetrics) : Z :=
  if (length (processingTimes m) =? 0)%nat then 0
  else Z.quot (Z.quot (foldl (λ t d, wrap64 (t + d)) 0 (processingTimes m)) (Z.of_nat (length (processingTimes m)))) 1000000.

(** ** The log of events *)

Definition newline : ascii := ascii_of_nat 10.

(** [acc] is the line that has been begun. *)
Fixpoint splitFrom (acc s : string) : list string :=
  match s with
  | EmptyString => if String.eqb acc "" then [] else [acc]
  | String c s =>
      if Ascii.eqb c newline then (if String.eqb acc "" then [] else [acc]) ++ splitFrom "" s
      else splitFrom (acc +:+ String c "") s
  end.
Definition splitLines (data : string) : list string := splitFrom "" data.

Class EventCodec := {
  Marshal : ProcessingEvent -> string;
  Unmarshal : string -> option ProcessingEvent
}.

(** JSON has no raw line break and is never empty; an event is read back when its
    strings are valid text and its numbers are exact. *)
Class EventCodecLaws `{EventCodec} := {
  encodable : ProcessingEvent -> Prop;
  marshal_line : forall e, encodable e -> has_byte newline (Marshal e) = false;
  marshal_nonempty : forall e, Marshal e <> "";
  unmarshal_marshal : forall e, encodable e -> Unmarshal (Marshal e) = Some e
}.

(** A directory, whose entries [os.ReadDir] lists by name. *)
Record File := mkFile { content : string; modTime : Time }.
Abbreviation Dir := (list (string * File)).

Record EventLog := mkLog {
  dir : Dir;
  rotationSize : Z;
  retentionDays : Z;
  currentFile : option (string * bool);
  currentSize : Z
}.
(** The flag of the current file says that it was closed. *)
Definition NewEventLog (dir : Dir) (rotationSize retentionDays : Z) : EventLog := mkLog dir rotationSize retentionDays None 0.

(** [O_CREATE]: an existing file stays as it is. *)
Fixpoint create (name : string) (now : Time) (d : Dir) : Dir :=
  match d with
  | [] => [(name, mkFile "" now)]
  | (n, f) :: d' =>
      if String.eqb n name then d
      else if String.leb name n then (name, mkFile "" now) :: d else (n, f) :: create name now d'
  end.

Definition findFile (name : string) (d : Dir) : option File := option_map snd (find (λ p, String.eqb p.1 name) d).

(** [O_APPEND] *)
Definition appendTo (name text : string) (now : Time) (d : Dir) : Dir :=
  (λ p, if String.eqb p.1 name then (p.1, mkFile (content p.2 +:+ text) now) else p) <$> d.

Definition filename (now : Time) : string := "events-" +:+ pretty ((now - unixEpoch) / Second) +:+ ".log".

(** The outcomes of the calls to the file system during an operation. *)
Record IO := mkIO { io_now : Time; io_open : bool; io_write : bool; io_cleanup : Time; io_rotate : Time; io_reopen : bool }.

Definition openCurrentFile (now : Time) (ok : bool) (el : EventLog) : EventLog * bool :=
  if ok
  then let d := create (filename now) now (dir el) in
       (mkLog d (rotationSize el) (retentionDays el) (Some (filename now, false))
          (match findFile (filename now) d with Some f => Z.of_nat (String.length (content f)) | None => 0 end), true)
  else (el, false).

Definition isLog (p : string * File) : bool := HasSuffix p.1 ".log".

Definition getLogFiles (d : Dir) : list string := merge_sort String.le (filter (λ p, isLog p = true) d).*1.

(** [AddDate(0, 0, -n)]: [n] days of 24 hours. *)
Definition cleanupOldFiles (now : Time) (el : EventLog) : EventLog :=
  let cutoff := now - retentionDays el * (24 * (60 * Minute)) in
  mkLog (filter (λ p, negb (isLog p && time_Before (modTime p.2) cutoff) = true) (dir el)) (rotationSize el) (retentionDays el)
    (currentFile el) (currentSize el).

Definition rotate (k : IO) (el : EventLog) : EventLog * bool :=
  let el := match currentFile el with Some _ => mkLog (dir el) (rotationSize el) (retentionDays el) None 0 | None => el end in
  openCurrentFile (io_rotate k) (io_reopen k) (cleanupOldFiles (io_cleanup k) el).

Section log.
Context `{EventCodec}.

Definition WriteEvent (k : IO) (event : ProcessingEvent) (el : EventLog) : EventLog * result string unit :=
  let '(el, opened) := match currentFile el with Some _ => (el, true) | None => openCurrentFile (io_now k) (io_open k) el end in
  if negb opened then (el, Err "failed to open log file")
  else
    match currentFile el with
    | Some (name, false) =>
        if negb (io_write k) then (el, Err "failed to write event")
        else
          let line := Marshal event +:+ String newline "" in
          let el := mkLog (appendTo name line (io_now k) (dir el)) (rotationSize el) (retentionDays el) (currentFile el)
                      (currentSize el + Z.of_nat (String.length line)) in
          (if rotationSize el <=? currentSize el then (rotate k el).1 else el, Ok tt)
    | _ => (el, Err "failed to write event")
    end.

Definition readEventsFromFile (d : Dir) (name : string) (p : ProcessingEvent -> bool) : list ProcessingEvent :=
  match findFile name d with
  | Some f => filter (λ e, p e = true) (omap Unmarshal (splitLines (content f)))
  | None => []
  end.

Definition GetEventsByIntentID (intentID : string) (el : EventLog) : list ProcessingEvent :=
  foldl (λ events name, events ++ readEventsFromFile (dir el) name (λ e, String.eqb (IntentID e) intentID)) [] (getLogFiles (dir el)).

(** The newest file first; [limit] is tested before each file. *)
Definition GetEventsByType (eventType : string) (limit : Z) (el : EventLog) : list ProcessingEvent :=
  foldl (λ events name,
    if Z.of_nat (length events) <? limit
    then let events := events ++ readEventsFromFile (dir el) name (λ e, String.eqb (Type_ e) eventType) in
         if limit <? Z.of_nat (length events) then take (Z.to_nat limit) events else events
    else events) [] (rev (getLogFiles (dir el))).

(** A file that is closed stays the current file. *)
Definition CloseLog (el : EventLog) : EventLog :=
  mkLog (dir el) (rotationSize el) (retentionDays el) (option_map (λ f, (f.1, true)) (currentFile el)) (currentSize el).
End log.

(** *** Reading back what was written *)

Lemma sapp_nil a : a +:+ "" = a.
Proof. induction a as [| x a IH]; [done |]. exact (f_equal (String x) IH). Qed.

Lemma splitFrom_line acc line rest : has_byte newline line = false ->
  splitFrom acc (line +:+ String newline rest) =
  (if String.eqb (acc +:+ line) "" then [] else [acc +:+ line]) ++ splitFrom "" rest.
Proof.
  revert acc. induction line as [| c line IH]; intros acc Hl.
  - rewrite sapp_nil. change ("" +:+ String newline rest) with (String newline rest). cbn [splitFrom]. by rewrite Ascii.eqb_refl.
  - change (String c line +:+ String newline rest) with (String c (line +:+ String newline rest)). cbn [splitFrom has_byte] in *.
    apply orb_false_iff in Hl as [Hc Hl]. rewrite Hc, IH by done. by rewrite append_assoc.
Qed.

Section readback.
Context `{EventCodecLaws}.

Definition text (l : list ProcessingEvent) : string := foldr (λ e s, Marshal e +:+ String newline s) "" l.

Lemma text_snoc l e : text (l ++ [e]) = text l +:+ (Marshal e +:+ String newline "").
Proof. induction l as [| x l IH]; [done |]. cbn [text foldr app]. fold (text (l ++ [e])). rewrite IH, append_assoc. done. Qed.

Lemma split_text l : Forall encodable l -> omap Unmarshal (splitLines (text l)) = l.
Proof.
  unfold splitLines. induction 1 as [| e l He _ IH]; [done |]. cbn [text foldr]. fold (text l).
  rewrite splitFrom_line by (by apply marshal_line). change ("" +:+ Marshal e) with (Marshal e).
  rewrite (proj2 (String.eqb_neq _ _) (marshal_nonempty e)). cbn. by rewrite unmarshal_marshal, IH by done.
Qed.

Lemma created_files name now d : Forall (λ p, String.leb p.1 name = true) d ->
  create name now d = if decide (name ∈ d.*1) then d else d ++ [(name, mkFile "" now)].
Proof.
  induction 1 as [| [n f] d Hn Hd IH]; [by rewrite decide_False by apply not_elem_of_nil |]. cbn in Hn. cbn [create].
  destruct (String.eqb_spec n name) as [-> | Hne]; [by rewrite decide_True by (cbn; left) |].
  destruct (String.leb name n) eqn:E; [exfalso; by apply Hne, String.leb_antisym |]. rewrite IH.
  destruct (decide (name ∈ d.*1)) as [Hin | Hin].
  - by rewrite decide_True by (cbn; by right).
  - rewrite decide_False; [done |]. cbn. intros [|]%elem_of_cons; [by subst | done].
Qed.

Lemma appendTo_last name t now d f : name ∉ d.*1 ->
  appendTo name t now (d ++ [(name, f)]) = d ++ [(name, mkFile (content f +:+ t) now)].
Proof.
  intros Hn. unfold appendTo. rewrite fmap_app. cbn. rewrite String.eqb_refl. f_equal.
  induction d as [| [n g] d IH]; [done |]. cbn in *. apply not_elem_of_cons in Hn as [Hne Hn]. rewrite IH by done.
  by rewrite (proj2 (String.eqb_neq _ _)) by done.
Qed.

Lemma findFile_In name f d : NoDup d.*1 -> (name, f) ∈ d -> findFile name d = Some f.
Proof.
  unfold findFile. induction d as [| [n g] d IH]; [by intros _ ?%not_elem_of_nil |]. cbn. rewrite NoDup_cons. intros [Hn Hd].
  intros [[= -> ->] | Hin]%elem_of_cons; [by rewrite String.eqb_refl |].
  destruct (String.eqb_spec n name) as [-> |]; [| by apply IH]. exfalso. apply Hn, list_elem_of_fmap. by exists (name, f).
Qed.

(** The log holds [l]: its files in the order of their names. *)
Record logged (t0 : Time) (el : EventLog) (l : list ProcessingEvent) : Prop := {
  log_sorted : StronglySorted String.le (dir el).*1;
  log_nodup : NoDup (dir el).*1;
  log_files : Forall (λ p, isLog p = true /\ t0 <= modTime p.2) (dir el);
  log_content : exists ls, Forall2 (λ p l, content p.2 = text l) (dir el) ls /\ concat ls = l;
  log_current : match currentFile el with
                | Some (n, c) => c = false /\ last (dir el).*1 = Some n
                | None => True
                end
}.

(** Names of files that are not later than the name of a time. *)
Definition notLater (t : Time) (el : EventLog) : Prop := Forall (λ p, String.leb p.1 (filename t) = true) (dir el).

Lemma isLog_filename t (f : File) : isLog (filename t, f) = true.
Proof. apply HasSuffix_spec. exists ("events-" +:+ pretty ((t - unixEpoch) / Second)). unfold filename. by rewrite <- append_assoc. Qed.

Lemma open_logged t0 t el l : t0 <= t -> logged t0 el l -> notLater t el ->
  let '(el', ok) := openCurrentFile t true el in
  ok = true /\ logged t0 el' l /\ notLater t el' /\ (exists n, currentFile el' = Some (n, false)) /\
  rotationSize el' = rotationSize el /\ retentionDays el' = retentionDays el.
Proof.
  intros Ht [H1 H2 H3 (ls & H4 & H5) H6] Hn. unfold openCurrentFile. rewrite created_files by done.
  destruct (decide (filename t ∈ (dir el).*1)) as [Hin | Hin]; (split; [done | split; [| split; [| split; [by eexists | done]]]]).
  - split; [done .. | by exists ls |]. cbn. split; [done |].
    assert (dir el <> []) as Hne by (intros E; rewrite E in Hin; by apply not_elem_of_nil in Hin).
    destruct (exists_last Hne) as (d & [n f] & E). rewrite E, fmap_app, last_app. cbn. f_equal.
    destruct (decide (n = filename t)) as [| Hne']; [done | exfalso]. rewrite E, fmap_app in Hin, H1. cbn in *.
    apply elem_of_app in Hin as [Hin | Hin%list_elem_of_singleton]; [| congruence].
    unfold notLater in Hn. rewrite E, Forall_app, Forall_singleton in Hn. destruct Hn as [_ Hn]. apply Hne'.
    apply String.leb_antisym; [done |]. apply Is_true_true.
    apply (StronglySorted_app_1_elem_of String.le _ _ _ _ H1); [done | by apply list_elem_of_singleton].
  - done.
  - split; cbn [dir currentFile].
    + rewrite fmap_app. apply StronglySorted_app_2; [| done | by repeat constructor].
      intros x y Hx Hy%list_elem_of_singleton. cbn in Hy. subst y. apply list_elem_of_fmap in Hx as (p & -> & Hp).
      apply Is_true_true. by apply (proj1 (Forall_forall _ _) Hn).
    + rewrite fmap_app. apply NoDup_app. split; [done |]. split; [| by apply NoDup_singleton].
      intros x Hx Hy%list_elem_of_singleton. by subst x.
    + apply Forall_app. split; [done |]. apply Forall_singleton. split; [apply isLog_filename | done].
    + exists (ls ++ [[]]). split; [by apply Forall2_app; [| repeat constructor] |]. rewrite concat_app. cbn. by rewrite app_nil_r.
    + split; [done |]. by rewrite fmap_app, last_app.
  - apply Forall_app. split; [done |]. apply Forall_singleton. cbn.
    apply Is_true_true. change (String.le (filename t) (filename t)). reflexivity.
Qed.

(** Writing at time [t], when the calls to the file system succeed. *)
Definition io_at (t : Time) : IO := mkIO t true true t t true.

Lemma write_logged t0 t e el l : t0 <= t -> t - retentionDays el * (24 * (60 * Minute)) <= t0 -> logged t0 el l -> notLater t el ->
  let '(el', r) := WriteEvent (io_at t) e el in
  r = Ok tt /\ logged t0 el' (l ++ [e]) /\ notLater t el' /\ retentionDays el' = retentionDays el.
Proof.
  intros Ht Hret Hl Hn. unfold WriteEvent.
  assert (exists el1, (match currentFile el with Some _ => (el, true) | None => openCurrentFile (io_now (io_at t)) (io_open (io_at t)) el end) = (el1, true) /\
    logged t0 el1 l /\ notLater t el1 /\ (exists n, currentFile el1 = Some (n, false)) /\ retentionDays el1 = retentionDays el)
    as (el1 & -> & Hl1 & Hn1 & [n Ec] & Er).
  { destruct (currentFile el) as [[n c] |] eqn:Ec.
    - exists el. split_and!; try done. pose proof (log_current _ _ _ Hl) as Hc. rewrite Ec in Hc. destruct Hc as [-> _]. by exists n.
    - pose proof (open_logged t0 t el l Ht Hl Hn) as Ho. cbn [io_now io_open io_at]. destruct (openCurrentFile t true el) as [el1 ok].
      destruct Ho as (-> & ? & ? & ? & ? & ?). exists el1. by split_and!. }
  cbn [negb]. rewrite Ec. cbn [io_write io_at negb io_now].
  set (line := Marshal e +:+ String newline "").
  set (el2 := mkLog (appendTo n line t (dir el1)) (rotationSize el1) (retentionDays el1) (Some (n, false))
    (currentSize el1 + Z.of_nat (String.length line))).
  assert (logged t0 el2 (l ++ [e]) /\ notLater t el2) as [Hl2 Hn2].
  { destruct Hl1 as [H1 H2 H3 (ls & H4 & H5) H6]. rewrite Ec in H6. destruct H6 as [_ H6].
    destruct (decide (dir el1 = [])) as [E | Hne]; [by rewrite E in H6 |].
    destruct (exists_last Hne) as (d & [m f] & E). rewrite E, fmap_app, last_app in H6. injection H6 as ->.
    unfold notLater in Hn1 |- *. rewrite E in H1, H2, H3, H4, Hn1. rewrite fmap_app in H1, H2.
    assert (n ∉ d.*1) as Hnin by (apply NoDup_app in H2 as (_ & Hd & _); intros Hx; apply (Hd n Hx); by apply list_elem_of_singleton).
    assert (dir el2 = d ++ [(n, mkFile (content f +:+ line) t)]) as Ed by (cbn; rewrite E; by apply appendTo_last).
    apply Forall_app in H3 as [H3 H3']. apply Forall_app in Hn1 as [Hn1 Hn1']. rewrite Forall_singleton in H3', Hn1'.
    apply Forall2_app_inv_l in H4 as (ls1 & ls2 & H4 & H4' & ->). inversion H4' as [| ? lf ? ? Hf Hnil]; subst. inversion Hnil; subst.
    split; [split |]; rewrite ?Ed, ?fmap_app.
    - done.
    - done.
    - apply Forall_app. split; [done |]. apply Forall_singleton. destruct H3' as [? _]. by split.
    - exists (ls1 ++ [lf ++ [e]]). split.
      + apply Forall2_app; [done |]. constructor; [| constructor]. cbn in *. by rewrite text_snoc, Hf.
      + rewrite !concat_app. cbn. by rewrite !app_nil_r, app_assoc.
    - cbn [currentFile el2]. by rewrite last_app.
    - apply Forall_app. split; [done |]. by apply Forall_singleton. }
  destruct (rotationSize el2 <=? currentSize el2); [| by split_and!]. split; [done |].
  set (el3 := mkLog (dir el2) (rotationSize el2) (retentionDays el2) None 0).
  assert (cleanupOldFiles t el3 = el3) as Ecl.
  { unfold cleanupOldFiles, el3. cbn [dir]. f_equal. apply filter_Forall. eapply Forall_impl; [exact (log_files _ _ _ Hl2) |].
    intros p [_ Hp]. apply negb_true_iff, andb_false_iff. right. apply time_Before_false. cbn. rewrite Er. lia. }
  assert (rotate (io_at t) el2 = openCurrentFile t true el3) as Ero.
  { unfold rotate. replace (currentFile el2) with (Some (n, false)) by done. cbn [io_rotate io_reopen io_cleanup io_at].
    fold el3. by rewrite Ecl. }
  assert (logged t0 el3 (l ++ [e])) as Hl3 by (destruct Hl2 as [H1 H2 H3 H4 H6]; by split).
  rewrite Ero. pose proof (open_logged t0 t el3 _ Ht Hl3 Hn2) as Ho. destruct (openCurrentFile t true el3) as [el4 ok].
  destruct Ho as (_ & ? & ? & _ & _ & Hr4). cbn [fst]. split_and!; [done .. |]. by rewrite Hr4.
Qed.

Definition writeAll (ws : list (Time * ProcessingEvent)) (el : EventLog) : EventLog * list (result string unit) :=
  foldl (λ p w, let '(el, r) := WriteEvent (io_at w.1) w.2 p.1 in (el, p.2 ++ [r])) (el, []) ws.

Lemma writeAll_logged t0 ws el l rs : logged t0 el l ->
  StronglySorted String.le (filename <$> ws.*1) -> (forall t, t ∈ ws.*1 -> notLater t el) ->
  Forall (λ t, t0 <= t <= t0 + retentionDays el * (24 * (60 * Minute))) ws.*1 ->
  let '(el', rs') := foldl (λ p w, let '(el, r) := WriteEvent (io_at w.1) w.2 p.1 in (el, p.2 ++ [r])) (el, rs) ws in
  logged t0 el' (l ++ ws.*2) /\ rs' = rs ++ replicate (length ws) (Ok tt).
Proof.
  revert el l rs. induction ws as [| [t e] ws IH]; intros el l rs Hl Hs Hn Ht; cbn [foldl]; [by rewrite !app_nil_r |].
  cbn in Hs, Hn, Ht |- *. inversion Hs as [| ? ? Hs' Hle]; subst. inversion Ht as [| ? ? [H1 H2] Ht']; subst.
  pose proof (write_logged t0 t e el l H1 ltac:(lia) Hl (Hn t ltac:(by left))) as Hw.
  destruct (WriteEvent (io_at t) e el) as [el1 r]. destruct Hw as (-> & Hl1 & Hn1 & Hr1). cbn [fst snd].
  specialize (IH el1 (l ++ [e]) (rs ++ [Ok tt]) Hl1 Hs').
  destruct (foldl _ (el1, rs ++ [Ok tt]) ws) as [el' rs']. rewrite <- !app_assoc in IH. apply IH; [| by rewrite Hr1].
  intros t' Ht'in. eapply Forall_impl; [exact Hn1 |]. cbn. intros p Hp. apply Is_true_true.
  change (String.le p.1 (filename t')). transitivity (filename t); [by apply Is_true_true |].
  apply (proj1 (Forall_forall _ _) Hle). apply list_elem_of_fmap. by exists t'.
Qed.

(** The files in the order of their names, all of them. *)
Lemma getLogFiles_logged t0 el l : logged t0 el l -> getLogFiles (dir el) = (dir el).*1.
Proof.
  intros [H1 _ H3 _ _]. unfold getLogFiles. rewrite filter_Forall by (eapply Forall_impl; [exact H3 |]; by intros p [? _]).
  apply (StronglySorted_unique String.le); [apply StronglySorted_merge_sort; apply _ | done | apply merge_sort_Permutation].
Qed.

Lemma read_logged t0 el l p : Forall encodable l -> logged t0 el l ->
  exists ls, concat ls = l /\ (λ name, readEventsFromFile (dir el) name p) <$> (dir el).*1 = filter (λ e, p e = true) <$> ls.
Proof.
  intros He [_ H2 _ (ls & H4 & H5) _]. exists ls. split; [done |].
  assert (Forall (Forall encodable) ls) as Hls by (apply Forall_concat; by rewrite H5). clear H5 He.
  assert (forall d ls', Forall2 (λ p l, content p.2 = text l) d ls' -> Forall (Forall encodable) ls' -> (forall x, x ∈ d -> findFile x.1 (dir el) = Some x.2) ->
    (λ name, readEventsFromFile (dir el) name p) <$> d.*1 = filter (λ e, p e = true) <$> ls') as Hfs.
  { induction 1 as [| [n f] l0 d' ls' Hf _ IH]; intros Hls' Hd; [done |]. inversion Hls'; subst. cbn.
    rewrite IH by (done || (intros x Hx; apply Hd; by right)). f_equal.
    unfold readEventsFromFile. pose proof (Hd (n, f) ltac:(by left)) as Hfile. cbn in Hfile, Hf. by rewrite Hfile, Hf, split_text by done. }
  apply Hfs; [done .. |]. intros [n f] Hx. by apply findFile_In.
Qed.

Lemma foldl_append {X Y} (f : X -> list Y) l acc : foldl (λ events x, events ++ f x) acc l = acc ++ concat (f <$> l).
Proof. revert acc. induction l as [| x l IH]; intros acc; cbn; [by rewrite app_nil_r |]. by rewrite IH, <- app_assoc. Qed.

Lemma filter_concat {X} (p : X -> bool) ls : concat (filter (λ e, p e = true) <$> ls) = filter (λ e, p e = true) (concat ls).
Proof. induction ls as [| l ls IH]; [done |]. cbn. by rewrite filter_app, IH. Qed.

(** C39 - the log is read back as it was written, over all rotations: when the names
    of the files grow with the time, nothing is older than the retention and the
    file system does its work, every write succeeds and the history of an intent is
    the events of the intent that were written, in the order of writing. *)
Theorem history_roundtrip t0 rot ret ws intentID :
  StronglySorted String.le (filename <$> ws.*1) -> Forall (λ t, t0 <= t <= t0 + ret * (24 * (60 * Minute))) ws.*1 ->
  Forall encodable ws.*2 ->
  let '(el, rs) := writeAll ws (NewEventLog [] rot ret) in
  Forall (eq (Ok tt)) rs /\
  GetEventsByIntentID intentID el = filter (λ e, String.eqb (IntentID e) intentID = true) ws.*2.
Proof.
  intros Hs Ht He. assert (logged t0 (NewEventLog [] rot ret) []) as Hnew.
  { split; [constructor .. | | done]. exists []. by split. }
  pose proof (writeAll_logged t0 ws (NewEventLog [] rot ret) [] [] Hnew Hs ltac:(intros; constructor) Ht) as Hw.
  unfold writeAll. destruct (foldl _ (NewEventLog [] rot ret, []) ws) as [el rs]. destruct Hw as [Hl ->].
  split; [by apply Forall_replicate |]. unfold GetEventsByIntentID. rewrite (getLogFiles_logged t0 el _ Hl), foldl_append.
  destruct (read_logged t0 el _ (λ e, String.eqb (IntentID e) intentID) He Hl) as (ls & Els & Er). cbn in *.
  by rewrite Er, filter_concat, Els.
Qed.
End readback.

(** A codec for events that have an intent only. *)
Definition plain (intentID : string) : ProcessingEvent := mkProcessing "phase.done" "test" intentID "" true ∅ 0 "" ∅.

#[local] Instance plain_codec : EventCodec := {|
  Marshal e := String "{"%char (IntentID e);
  Unmarshal s := match s with String _ i => Some (plain i) | EmptyString => None end
|}.

#[local] Instance plain_laws : EventCodecLaws.
Proof.
  refine {| encodable e := e = plain (IntentID e) /\ has_byte newline (IntentID e) = false |}.
  - intros e [_ He]. exact He.
  - done.
  - intros e [He _]. cbn. by rewrite <- He.
Defined.

(** Three files: every write reaches the rotation size, two in one second. *)
Lemma history_roundtrip_witness :
  let t := (unixEpoch + 1700000000 * Second)%Z in
  let ws := [(t, plain "a"); (t + 5, plain "b"); (t + Second, plain "a"); (t + 3 * Second, plain "a")] in
  StronglySorted String.le (filename <$> ws.*1) /\ Forall (λ u, t <= u <= t + 7 * (24 * (60 * Minute))) ws.*1 /\
  Forall encodable ws.*2 /\
  exists el rs, writeAll ws (NewEventLog [] 1 7) = (el, rs) /\ length (dir el) = 3%nat /\
    GetEventsByIntentID "a" el = [plain "a"; plain "a"; plain "a"].
Proof.
  intros t ws.
  assert (Hs : StronglySorted String.le (filename <$> ws.*1)) by (apply Sorted_StronglySorted; [apply _ | by apply (bool_decide_unpack _); vm_compute]).
  assert (Ht : Forall (λ u, t <= u <= t + 7 * (24 * (60 * Minute))) ws.*1) by (repeat constructor; by vm_compute).
  assert (He : Forall encodable ws.*2) by (repeat constructor).
  split; [exact Hs |]. split; [exact Ht |]. split; [exact He |].
  pose proof (history_roundtrip t 1 7 ws "a" Hs Ht He) as Hh. destruct (writeAll ws (NewEventLog [] 1 7)) as [el rs] eqn:E.
  exists el, rs. split; [done |]. destruct Hh as [_ ->]. split; [| done].
  assert (el = (writeAll ws (NewEventLog [] 1 7)).1) as -> by (by rewrite E). by vm_compute.
Defined.

(** By type the newest file is read first, but from its start: with a limit the
    events that are returned need not be the newest. *)
Example limit_takes_oldest :
  let t := (unixEpoch + 1700000000 * Second)%Z in
  let '(el, _) := writeAll [(t, plain "old"); (t, plain "new")] (NewEventLog [] 1000 7) in
  IntentID <$> GetEventsByType "phase.done" 1 el = ["old"].
Proof. by vm_compute. Qed.

(** ** Handling an event *)

(** What a handler does to the program, a parameter. *)
Section handling.
Context {W : Type}.

Definition EventHandler : Type := ProcessingEvent -> W -> W * result string unit.

Record SimpleEventFilter := mkFilter { AllowedSources : list string; AllowedPhases : list string; MinTimestamp : Z }.

Definition ShouldProcess (f : SimpleEventFilter) (event : ProcessingEvent) : bool :=
  if (0 <? length (AllowedSources f))%nat && negb (existsb (String.eqb (Source event)) (AllowedSources f)) then false
  else if (0 <? length (AllowedPhases f))%nat && negb (existsb (String.eqb (Phase event)) (AllowedPhases f)) then false
  else negb ((0 <? MinTimestamp f) && (Timestamp event <? MinTimestamp f)).

Record Handlers := mkHandlers {
  subscribers : gmap string (list EventHandler);
  eventFilters : gmap string (ProcessingEvent -> bool);
  retryPolicy : RetryPolicy
}.

Definition Subscribe (eventType : string) (handler : EventHandler) (h : Handlers) : Handlers :=
  mkHandlers (<[eventType := default [] (subscribers h !! eventType) ++ [handler]]> (subscribers h)) (eventFilters h) (retryPolicy h).
Definition Unsubscribe (eventType : string) (h : Handlers) : Handlers :=
  mkHandlers (delete eventType (subscribers h)) (eventFilters h) (retryPolicy h).
Definition AddEventFilter (eventType : string) (p : ProcessingEvent -> bool) (h : Handlers) : Handlers :=
  mkHandlers (subscribers h) (<[eventType := p]> (eventFilters h)) (retryPolicy h).

(** The subscribers of the type, then those of every type. *)
Definition handlersOf (event : ProcessingEvent) (h : Handlers) : list EventHandler :=
  default [] (subscribers h !! Type_ event) ++ default [] (subscribers h !! "*").

(** The queue of dead letters and the metrics, if they are kept, with the program. *)
Record Effects := mkEffects { program : W; letters : DeadLetterQueue; metrics : option EventBusMetrics }.

(** The number of handlers that did their work. *)
Fixpoint runHandlers (now : Time) (rp : RetryPolicy) (hs : list EventHandler) (event : ProcessingEvent) (successCount : nat) (x : Effects)
  : Effects * nat :=
  match hs with
  | [] => (x, successCount)
  | h :: hs =>
      let '(w, r) := Execute rp (h event) (program x) in
      match r with
      | Err err => runHandlers now rp hs event successCount (mkEffects w (Add event err now now (letters x)) (metrics x))
      | Ok _ => runHandlers now rp hs event (S successCount) (mkEffects w (letters x) (metrics x))
      end
  end.

Definition processEvent (start now : Time) (h : Handlers) (event : ProcessingEvent) (x : Effects) : Effects :=
  if match eventFilters h !! Type_ event with Some p => negb (p event) | None => false end then x
  else
    let hs := handlersOf event h in
    if (length hs =? 0)%nat then x
    else
      let '(x, successCount) := runHandlers now (retryPolicy h) hs event 0 x in
      mkEffects (program x) (letters x)
        (option_map (λ m, let m := RecordEventProcessed (now - start) m in
                          if (successCount <? length hs)%nat then RecordHandlerFailure m else m) (metrics x)).

(** Each handler in turn gets the event until it succeeds or gives up; those that
    give up leave their error. *)
Inductive handled (rp : RetryPolicy) (event : ProcessingEvent) : list EventHandler -> W -> W -> list RetryError -> Prop :=
| handled_nil w : handled rp event [] w w []
| handled_ok h hs k w w1 w' errs : (Z.of_nat k <= MaxRetries rp + 1) -> tried rp (h event) k w w1 (Ok tt) ->
    handled rp event hs w1 w' errs -> handled rp event (h :: hs) w w' errs
| handled_refused h hs k e w w1 w' errs : (Z.of_nat k <= MaxRetries rp + 1) -> tried rp (h event) k w w1 (Err e) -> isRetryableError rp e = false ->
    handled rp event hs w1 w' errs -> handled rp event (h :: hs) w w' (NotRetryable e :: errs)
| handled_exhausted h hs e w w1 w' errs : tried rp (h event) (Z.to_nat (MaxRetries rp + 1)) w w1 (Err e) -> isRetryableError rp e = true ->
    handled rp event hs w1 w' errs -> handled rp event (h :: hs) w w' (Exhausted (MaxRetries rp + 1) (Some e) :: errs).

Definition deadLetters (event : ProcessingEvent) (now : Time) (errs : list RetryError) (dlq : DeadLetterQueue) : DeadLetterQueue :=
  foldl (λ q err, Add event err now now q) dlq errs.

Lemma runShared_spec now rp hs event n x : 0 <= MaxRetries rp -> let '(x', n') := runHandlers now rp hs event n x in
  exists errs, handled rp event hs (program x) (program x') errs /\ letters x' = deadLetters event now errs (letters x) /\
    metrics x' = metrics x /\ (n' + length errs = n + length hs)%nat.
Proof.
  intros Hm. revert n x. induction hs as [| h hs IH]; intros n x; cbn; [exists []; split_and!; [constructor | done | done | cbn; lia] |].
  unfold Execute. destruct (Z.to_nat (MaxRetries rp + 1)) as [| m] eqn:Em; [lia |].
  pose proof (tries_spec rp (h event) m None (program x)) as Ht. destruct (tries rp (h event) (S m) None (program x)) as [w r].
  destruct Ht as (k & y & Hk & Ht & Hy). destruct r as [u | err].
  - specialize (IH (S n) (mkEffects w (letters x) (metrics x))). destruct (runHandlers _ _ _ _ _ _) as [x' n'].
    destruct IH as (errs & Hh & Hl & Hmt & Hn). exists errs. subst y. split_and!; [eapply handled_ok; [| done | done]; lia | done | done | cbn; lia].
  - specialize (IH n (mkEffects w (Add event err now now (letters x)) (metrics x))). destruct (runHandlers _ _ _ _ _ _) as [x' n'].
    destruct IH as (errs & Hh & Hl & Hmt & Hn). exists (err :: errs). split_and!; [| done | done | cbn; lia].
    destruct err as [e | a e].
    + destruct Hy as [-> Hr]. eapply handled_refused; [| done ..]. lia.
    + destruct Hy as (e0 & -> & -> & Hr & -> & ->). eapply handled_exhausted; [by rewrite Em | done ..].
Qed.

(** What happens to an event: a filter of its type may stop it; otherwise the
    handlers of its type and then those of every type get it one after the other,
    each until it succeeds, fails for good or has been tried [MaxRetries + 1] times,
    whatever happened to the ones before; every handler that gives up leaves one
    dead letter with its error, of which the last thousand or fewer are kept. *)
Theorem event_reaches_every_handler start now h event x :
  0 <= MaxRetries (retryPolicy h) -> (length (dead (letters x)) <= dlq_maxSize (letters x))%nat -> (10 <= dlq_maxSize (letters x))%nat ->
  let x' := processEvent start now h event x in
  (exists p, eventFilters h !! Type_ event = Some p /\ p event = false /\ x' = x) \/
  exists errs, handled (retryPolicy h) event (handlersOf event h) (program x) (program x') errs /\
    letters x' = deadLetters event now errs (letters x) /\
    (length errs <= length (handlersOf event h))%nat /\
    (length (dead (letters x')) <= dlq_maxSize (letters x))%nat /\
    dead (letters x') `suffix_of` dead (letters x) ++ (if enabled (letters x) then (λ e, mkDead event e now 1 now) <$> errs else []).
Proof.
  intros Hm Hd Hmax x'.
  assert (Hletters : forall errs q, (length (dead q) <= dlq_maxSize q)%nat -> (10 <= dlq_maxSize q)%nat ->
    (length (dead (deadLetters event now errs q)) <= dlq_maxSize q)%nat /\
    dead (deadLetters event now errs q) `suffix_of` dead q ++ (if enabled q then (λ e, mkDead event e now 1 now) <$> errs else [])).
  { intros errs q Hq H10. destruct (enabled q) eqn:Een.
    - assert (deadLetters event now errs q = mkDeadLetters (enabled q)
        (foldl (λ l y, appendBounded (dlq_maxSize q) (dlq_maxSize q / 10) y l) (dead q) ((λ e, mkDead event e now 1 now) <$> errs)) (dlq_maxSize q)) as ->.
      { unfold deadLetters. clear Hq. revert q Een H10. induction errs as [| e errs IH]; intros q Een H10; cbn; [by destruct q |].
        unfold Add at 2. rewrite Een. cbn [negb]. rewrite IH by (cbn; done). cbn. done. }
      apply (appendBounded_spec (dlq_maxSize q) (dlq_maxSize q / 10)); [| done]. apply Nat.div_str_pos. lia.
    - assert (deadLetters event now errs q = q) as ->; [| by rewrite app_nil_r].
      unfold deadLetters. induction errs as [| e errs IH]; [done |]. cbn. unfold Add at 2. rewrite Een. exact IH. }
  subst x'. unfold processEvent. destruct (eventFilters h !! Type_ event) as [p |] eqn:Ef; [destruct (p event) eqn:Ep; cbn [negb] |];
    [right | left; by exists p | right];
    (destruct (handlersOf event h) as [| h0 hs] eqn:Eh; cbn [length Nat.eqb];
     [exists []; destruct (Hletters [] (letters x) Hd Hmax); split_and!; [constructor | done ..] |];
     pose proof (runShared_spec now (retryPolicy h) (h0 :: hs) event 0 x Hm) as Hr;
     destruct (runHandlers now (retryPolicy h) (h0 :: hs) event 0 x) as [x1 n]; destruct Hr as (errs & Hh & Hl & _ & Hn);
     exists errs; cbn [program letters]; rewrite Hl; destruct (Hletters errs (letters x) Hd Hmax); split_and!; [done | done | cbn in *; lia | done | done]).
Qed.
End handling.

(** A handler that fails twice and then succeeds, and one that never does. *)
Lemma event_reaches_every_handler_witness :
  let flaky : EventHandler (W := nat) := λ _ n, (S n, if (n <? 2)%nat then Err "busy" else Ok tt) in
  let broken : EventHandler (W := nat) := λ _ n, (n, Err "down") in
  let h := Subscribe "*" flaky (Subscribe "phase.done" broken (mkHandlers ∅ ∅ defaultPolicy)) in
  let x := mkEffects 0%nat (NewDeadLetterQueue true) None in
  let x' := processEvent 0 9 h (plain "a") x in
  program x' = 3%nat /\ (length (dead (letters x')) <= 1000)%nat /\
  exists errs, handled (retryPolicy h) (plain "a") (handlersOf (plain "a") h) 0%nat 3%nat errs /\ letters x' = deadLetters (plain "a") 9 errs (letters x).
Proof.
  intros flaky broken h x x'. assert (program x' = 3%nat) as Ep by (by vm_compute). split; [exact Ep |].
  destruct (event_reaches_every_handler 0 9 h (plain "a") x) as [(p & Hp & _) | (errs & Hh & Hl & _ & Hb & _)];
    [by vm_compute | cbn; lia | cbn; lia | done |].
  fold x' in Hh, Hl, Hb. rewrite Ep in Hh. split; [exact Hb |]. by exists errs.
Defined.

(** ** The bus

    Publishers, workers and [Stop], as critical sections of the code in any
    interleaving, with partitions and the log in use and writes to the log that
    succeed.  What handling an event does is above: here it ends some time. *)
Module Bus.

Inductive Publisher :=
| Begun (e : ProcessingEvent)
| Sequenced (e : ProcessingEvent)
| Partitioned (e : ProcessingEvent)
| Logged (e : ProcessingEvent)
| Returned (sent : bool).

(** A worker that holds an event waits for the read lock. *)
Inductive Worker := Idle | Holding (e : ProcessingEvent) | Handling (e : ProcessingEvent) | Exited.

Record EnhancedEventBus := mkBus {
  started : bool;
  stopping : bool;                        (* [Stop] holds the mutex *)
  stopClosed : bool;
  ctxDone : bool;
  crashed : bool;
  sequenceNumber : Z;
  partitions : gmap string EventPartition;
  log : list ProcessingEvent;
  buffer : list ProcessingEvent;
  bufferSize : nat;
  publishers : list Publisher;
  workers : list Worker;
  checker : bool;                         (* the goroutine of the health checker *)
  helpers : bool;                         (* those of batches and metrics *)
  refused : list ProcessingEvent;
  processed : list ProcessingEvent;
  stops : list bool                       (* whether each [Stop] saw all goroutines end *)
}.

Definition NewEnhancedEventBus (bufferSize : nat) : EnhancedEventBus :=
  mkBus false false false false false 0 ∅ [] [] bufferSize [] [] false false [] [] [].

Definition with_publishers (p : list Publisher) (b : EnhancedEventBus) : EnhancedEventBus :=
  mkBus (started b) (stopping b) (stopClosed b) (ctxDone b) (crashed b) (sequenceNumber b) (partitions b) (log b) (buffer b) (bufferSize b)
    p (workers b) (checker b) (helpers b) (refused b) (processed b) (stops b).
Definition with_workers (w : list Worker) (b : EnhancedEventBus) : EnhancedEventBus :=
  mkBus (started b) (stopping b) (stopClosed b) (ctxDone b) (crashed b) (sequenceNumber b) (partitions b) (log b) (buffer b) (bufferSize b)
    (publishers b) w (checker b) (helpers b) (refused b) (processed b) (stops b).
Definition with_buffer (l : list ProcessingEvent) (b : EnhancedEventBus) : EnhancedEventBus :=
  mkBus (started b) (stopping b) (stopClosed b) (ctxDone b) (crashed b) (sequenceNumber b) (partitions b) (log b) l (bufferSize b)
    (publishers b) (workers b) (checker b) (helpers b) (refused b) (processed b) (stops b).
Definition with_outcome (r p : list ProcessingEvent) (b : EnhancedEventBus) : EnhancedEventBus :=
  mkBus (started b) (stopping b) (stopClosed b) (ctxDone b) (crashed b) (sequenceNumber b) (partitions b) (log b) (buffer b) (bufferSize b)
    (publishers b) (workers b) (checker b) (helpers b) r p (stops b).
Definition with_records (n : Z) (ps : gmap string EventPartition) (l : list ProcessingEvent) (b : EnhancedEventBus) : EnhancedEventBus :=
  mkBus (started b) (stopping b) (stopClosed b) (ctxDone b) (crashed b) n ps l (buffer b) (bufferSize b)
    (publishers b) (workers b) (checker b) (helpers b) (refused b) (processed b) (stops b).
Definition with_life (st sp cl ctx cr ch he : bool) (ss : list bool) (b : EnhancedEventBus) : EnhancedEventBus :=
  mkBus st sp cl ctx cr (sequenceNumber b) (partitions b) (log b) (buffer b) (bufferSize b)
    (publishers b) (workers b) ch he (refused b) (processed b) ss.

(** [getOrCreatePartition] and [AddEvent]. *)
Definition addToPartition (e : ProcessingEvent) (ps : gmap string EventPartition) : gmap string EventPartition :=
  <[IntentID e := AddEvent e (default (NewEventPartition (IntentID e) 1000) (ps !! IntentID e))]> ps.

Inductive step : EnhancedEventBus -> EnhancedEventBus -> Prop :=
(** *** [Publish] *)
| step_publish e b : started b = true -> step b (with_publishers (publishers b ++ [Begun e]) b)
| step_sequence i e b : publishers b !! i = Some (Begun e) -> stopping b = false ->
    step b (with_publishers (<[i := Sequenced (with_sequence (sequenceNumber b + 1) e)]> (publishers b))
             (with_records (sequenceNumber b + 1) (partitions b) (log b) b))
| step_partition i e b : publishers b !! i = Some (Sequenced e) -> stopping b = false ->
    step b (with_publishers (<[i := Partitioned e]> (publishers b)) (with_records (sequenceNumber b) (addToPartition e (partitions b)) (log b) b))
| step_log i e b : publishers b !! i = Some (Partitioned e) ->
    step b (with_publishers (<[i := Logged e]> (publishers b)) (with_records (sequenceNumber b) (partitions b) (log b ++ [e]) b))
| step_send i e b : publishers b !! i = Some (Logged e) -> (length (buffer b) < bufferSize b)%nat ->
    step b (with_publishers (<[i := Returned true]> (publishers b)) (with_buffer (buffer b ++ [e]) b))
| step_full i e b : publishers b !! i = Some (Logged e) -> (bufferSize b <= length (buffer b))%nat ->
    step b (with_publishers (<[i := Returned false]> (publishers b)) (with_outcome (refused b ++ [e]) (processed b) b))
| step_cancelled i e b : publishers b !! i = Some (Logged e) ->
    step b (with_publishers (<[i := Returned false]> (publishers b)) (with_outcome (refused b ++ [e]) (processed b) b))
(** *** [eventWorker] *)
| step_receive i e rest b : workers b !! i = Some Idle -> buffer b = e :: rest ->
    step b (with_workers (<[i := Holding e]> (workers b)) (with_buffer rest b))
| step_lookup i e b : workers b !! i = Some (Holding e) -> stopping b = false ->
    step b (with_workers (<[i := Handling e]> (workers b)) b)
| step_handled i e b : workers b !! i = Some (Handling e) ->
    step b (with_workers (<[i := Idle]> (workers b)) (with_outcome (refused b) (processed b ++ [e]) b))
| step_exit i b : workers b !! i = Some Idle -> stopClosed b || ctxDone b = true -> step b (with_workers (<[i := Exited]> (workers b)) b)
(** *** Start, stop, and the other goroutines *)
| step_start n b : started b = false -> stopping b = false ->
    step b (with_workers (workers b ++ replicate n Idle)
             (with_life true false (stopClosed b) (ctxDone b) (crashed b) true true (stops b) b))
| step_cancel b : step b (with_life (started b) (stopping b) (stopClosed b) true (crashed b) (checker b) (helpers b) (stops b) b)
| step_checker b : ctxDone b = true ->
    step b (with_life (started b) (stopping b) (stopClosed b) (ctxDone b) (crashed b) false (helpers b) (stops b) b)
| step_helpers b : stopClosed b || ctxDone b = true ->
    step b (with_life (started b) (stopping b) (stopClosed b) (ctxDone b) (crashed b) (checker b) false (stops b) b)
| step_stop b : started b = true -> stopping b = false ->                     (* closing a closed channel panics *)
    step b (with_life (started b) true true (ctxDone b) (crashed b || stopClosed b) (checker b) (helpers b) (stops b) b)
| step_stopped b : stopping b = true -> Forall (eq Exited) (workers b) -> checker b = false -> helpers b = false ->
    step b (with_life false false (stopClosed b) (ctxDone b) (crashed b) (checker b) (helpers b) (stops b ++ [true]) b)
| step_timeout b : stopping b = true ->
    step b (with_life false false (stopClosed b) (ctxDone b) (crashed b) (checker b) (helpers b) (stops b ++ [false]) b).

(** *** Where the events are *)

Definition beforeLog (p : Publisher) : list ProcessingEvent := match p with Sequenced e | Partitioned e => [e] | _ => [] end.
Definition afterLog (p : Publisher) : list ProcessingEvent := match p with Logged e => [e] | _ => [] end.
Definition inWorker (w : Worker) : list ProcessingEvent := match w with Holding e | Handling e => [e] | _ => [] end.

(** The events that have been logged are somewhere. *)
Definition beyond (b : EnhancedEventBus) : list ProcessingEvent :=
  (publishers b ≫= afterLog) ++ refused b ++ buffer b ++ (workers b ≫= inWorker) ++ processed b.

Record Inv (b : EnhancedEventBus) : Prop := {
  inv_log : log b ≡ₚ beyond b;
  inv_numbers : omap sequence ((publishers b ≫= beforeLog) ++ log b) ≡ₚ Z.of_nat <$> seq 1 (Z.to_nat (sequenceNumber b));
  inv_nonneg : 0 <= sequenceNumber b;
  inv_buffer : (length (buffer b) <= bufferSize b)%nat;
  inv_checker : started b = true -> checker b = false -> ctxDone b = true;
  inv_stopping : stopping b = true -> started b = true;
  inv_stops : true ∈ stops b -> ctxDone b = true
}.

Lemma sequence_with n e : sequence (with_sequence n e) = Some n.
Proof. unfold sequence, with_sequence. cbn. by rewrite lookup_insert_eq. Qed.

(** One publisher moves: what it held before and after the log is exchanged. *)
Lemma publisher_moves ps i p p' : ps !! i = Some p ->
  exists l1 l2, (ps ≫= beforeLog) ≡ₚ beforeLog p ++ l1 /\ (<[i := p']> ps ≫= beforeLog) ≡ₚ beforeLog p' ++ l1 /\
    (ps ≫= afterLog) ≡ₚ afterLog p ++ l2 /\ (<[i := p']> ps ≫= afterLog) ≡ₚ afterLog p' ++ l2.
Proof.
  intros Hp. destruct (bind_insert beforeLog ps i p p' Hp) as (l1 & E1 & E2).
  destruct (bind_insert afterLog ps i p p' Hp) as (l2 & E3 & E4). by exists l1, l2.
Qed.

Lemma shared_worker_moves ws i w w' : ws !! i = Some w ->
  exists l, (ws ≫= inWorker) ≡ₚ inWorker w ++ l /\ (<[i := w']> ws ≫= inWorker) ≡ₚ inWorker w' ++ l.
Proof. apply bind_insert. Qed.

Ltac bus_cbn := cbn [started stopping stopClosed ctxDone crashed sequenceNumber partitions log buffer bufferSize publishers workers checker
  helpers refused processed stops with_publishers with_workers with_buffer with_outcome with_records with_life beyond] in *.

Lemma shared_step b b' : step b b' -> Inv b -> Inv b'.
Proof.
  intros Hs [Hl Hn H0 Hb Hc Hst Hss]. unfold beyond in Hl.
  destruct Hs; split; unfold beyond; bus_cbn; try done;
    repeat match goal with
    | Hp : publishers _ !! _ = Some ?p |- context [<[_ := ?p']> (publishers _)] =>
        destruct (publisher_moves _ _ p p' Hp) as (l1 & l2 & E1 & E2 & E3 & E4); cbn [beforeLog afterLog app] in E1, E2, E3, E4; clear Hp
    | Hw : workers _ !! _ = Some ?w |- context [<[_ := ?w']> (workers _)] =>
        destruct (shared_worker_moves _ _ w w' Hw) as (l3 & E5 & E6); cbn [inWorker app] in E5, E6; clear Hw
    end;
    rewrite ?bind_app; try (by intros; intuition (eauto || congruence || lia)).
  all: try (cbn; rewrite ?app_nil_r; done).
  all: try (rewrite ?E4, ?E6; rewrite ?E3, ?E5 in Hl; rewrite Hl; try (match goal with Hb : buffer _ = _ |- _ => rewrite Hb end); solve_Permutation).
  all: try (rewrite E2, <- E1; exact Hn).
  - assert (Z.to_nat (sequenceNumber b + 1) = S (Z.to_nat (sequenceNumber b))) as -> by lia.
    rewrite seq_S, fmap_app, <- Hn, E2, E1. cbn [omap list_omap app]. rewrite sequence_with. cbn [fmap list_fmap].
    replace (Z.of_nat (1 + Z.to_nat (sequenceNumber b))) with (sequenceNumber b + 1) by lia. solve_Permutation.
  - rewrite <- Hn, E2, E1. apply omap_Permutation. solve_Permutation.
  - rewrite length_app. cbn. lia.
  - match goal with E : buffer b = _ |- _ => rewrite E in Hb end. cbn in Hb. lia.
  - rewrite Hl. assert (replicate n Idle ≫= inWorker = []) as -> by (clear; induction n; done). by rewrite app_nil_r.
  - intros [Ht | Ht%list_elem_of_singleton]%elem_of_app; [by apply Hss | done].
Qed.

Lemma bus_inv n b : rtc step (NewEnhancedEventBus n) b -> Inv b.
Proof.
  intros Hr. assert (Inv (NewEnhancedEventBus n)) as HI.
  { split; cbn; try done; [lia |]. by intros ?%not_elem_of_nil. }
  induction Hr as [| x y z Hs _ IH]; [done |]. by apply IH, (shared_step x).
Qed.

(** C23 - the events of the bus: whatever publishers, workers and stops interleave,
    the sequence numbers given so far are those of the events on their way to the
    log and of the events in the log, each once; every event in the log is refused
    to its publisher, on its way to the buffer, in the buffer, with a worker or
    processed, exactly once; the buffer keeps to its size; and no [Stop] sees its
    goroutines end unless the context has been cancelled, because the goroutine of
    the health checker waits for that alone. *)
Theorem bus_accounts_for_events n b : rtc step (NewEnhancedEventBus n) b ->
  omap sequence ((publishers b ≫= beforeLog) ++ log b) ≡ₚ Z.of_nat <$> seq 1 (Z.to_nat (sequenceNumber b)) /\
  log b ≡ₚ (publishers b ≫= afterLog) ++ refused b ++ buffer b ++ (workers b ≫= inWorker) ++ processed b /\
  (length (buffer b) <= n)%nat /\
  (true ∈ stops b -> ctxDone b = true).
Proof.
  intros Hr. pose proof (bus_inv n b Hr) as [Hl Hn _ Hb _ _ Hs]. split_and!; [done .. | | done].
  assert (bufferSize b = n) as <-; [| done]. clear -Hr. remember (NewEnhancedEventBus n) as b0 eqn:E.
  assert (bufferSize b0 = n) as <- by (by subst). clear E. induction Hr as [| x y z Hs _ IH]; [done |]. rewrite IH. by destruct Hs.
Qed.

(** *** What goes wrong *)

(** A step of a concrete run, whose state is computed. *)
Lemma rtc_computed b b1 b2 b' : step b b1 -> b1 = b2 -> rtc step b2 b' -> rtc step b b'.
Proof. intros Hs -> Hr. by eapply rtc_l. Qed.

Ltac run tac :=
  eapply rtc_computed;
  [tac; first [done | cbn; lia]
  | match goal with |- ?b = ?e => let b' := eval vm_compute in b in unify e b' end; vm_compute; reflexivity |].

Definition ev (i : string) : ProcessingEvent := plain i.

(** Two publishers: the second overtakes the first between number and partition. *)
Lemma partition_out_of_order : exists b, rtc step (NewEnhancedEventBus 4) b /\
  (λ p, omap sequence (part p)) <$> partitions b !! "a" = Some [2; 1].
Proof.
  eexists. split.
  - run ltac:(apply (step_start 1)). run ltac:(apply (step_publish (ev "a"))).
    run ltac:(apply (step_publish (ev "a"))). run ltac:(apply (step_sequence 0)).
    run ltac:(apply (step_sequence 1)). run ltac:(apply (step_partition 1)).
    run ltac:(apply (step_partition 0)). apply rtc_refl.
  - by vm_compute.
Qed.

(** While [Stop] holds the mutex a worker with an event cannot go on, so that [Stop]
    waits until its time-out even when the context is cancelled. *)
Lemma stop_blocks_worker b b' i e : stopping b = true -> workers b !! i = Some (Holding e) -> step b b' ->
  (stopping b' = true /\ workers b' !! i = Some (Holding e)) \/ (stops b' = stops b ++ [false] /\ workers b' !! i = Some (Holding e)).
Proof.
  intros Hst Hw Hs. destruct Hs; cbn [stopping workers stops with_publishers with_workers with_buffer with_outcome with_records with_life];
    try congruence; try (left; by split); try (by right);
    try match goal with Hj : workers _ !! ?j = Some _ |- context [<[?j := _]> _] =>
      left; split; [done |]; rewrite list_lookup_insert_ne; [done |]; congruence end.
  match goal with H : Forall _ _ |- _ => pose proof (Forall_lookup_1 _ _ _ _ H Hw) end. done.
Qed.

(** Events in the buffer stay there when the workers have left, and a bus that is
    started again crashes when it is stopped again. *)
Lemma stop_leaves_events : exists b, rtc step (NewEnhancedEventBus 4) b /\
  started b = false /\ stops b = [false] /\ length (buffer b) = 1%nat /\ workers b = [Exited].
Proof.
  eexists. split.
  - run ltac:(apply (step_start 1)). run ltac:(apply (step_publish (ev "a"))).
    run ltac:(apply (step_sequence 0)). run ltac:(apply (step_partition 0)).
    run ltac:(apply (step_log 0)). run ltac:(apply (step_send 0)).
    run ltac:(apply step_stop). run ltac:(apply (step_exit 0)).
    run ltac:(apply step_timeout). apply rtc_refl.
  - by vm_compute.
Qed.

Lemma second_stop_crashes : exists b, rtc step (NewEnhancedEventBus 4) b /\ crashed b = true.
Proof.
  eexists. split.
  - run ltac:(apply (step_start 1)). run ltac:(apply step_stop). run ltac:(apply step_timeout).
    run ltac:(apply (step_start 1)). run ltac:(apply step_stop). apply rtc_refl.
  - done.
Qed.

(** A run with one event in the buffer and one that was refused. *)
Definition busy : EnhancedEventBus :=
  let e i n := with_sequence n (ev i) in
  mkBus true false false false false 2 (addToPartition (e "b" 2) (addToPartition (e "a" 1) ∅))
    [e "a" 1; e "b" 2] [e "a" 1] 1 [Returned true; Returned false] [Idle] true true [e "b" 2] [] [].

Lemma busy_reachable : rtc step (NewEnhancedEventBus 1) busy.
Proof.
  run ltac:(apply (step_start 1)). run ltac:(apply (step_publish (ev "a"))). run ltac:(apply (step_sequence 0)).
  run ltac:(apply (step_partition 0)). run ltac:(apply (step_log 0)). run ltac:(apply (step_send 0)).
  run ltac:(apply (step_publish (ev "b"))). run ltac:(apply (step_sequence 1)).
  run ltac:(apply (step_partition 1)). run ltac:(apply (step_log 1)). run ltac:(apply (step_full 1)).
  apply rtc_refl.
Qed.

Lemma bus_accounts_for_events_witness : rtc step (NewEnhancedEventBus 1) busy /\
  omap sequence (log busy) ≡ₚ [1; 2] /\ log busy ≡ₚ refused busy ++ buffer busy.
Proof.
  split; [exact busy_reachable |]. destruct (bus_accounts_for_events 1 busy busy_reachable) as (Hn & Hl & _). by split.
Defined.
End Bus.
