(* ===== verification/RecoveryManager.v ===== *)
(** * RecoveryManager: recovery of failed intents

    Follows pkg/shared/recovery_manager.go.  The manager works on the states of
    [StateManager], through its interface, and is called by the event bus of
    [SharedEventBus], whose retries make up for a handler that fails.  States
    before and after a recovery are references into the heap of the state manager.
    The intervals and back-off times of the strategies are never read and are left
    out, as are the placeholders for corrupted states. *)

From S2P Require Import Prelude.
From S2P Require Import Orchestration StateManager.
From S2P Require SharedEventBus.
From stdpp Require Import pretty.
Local Open Scope Z_scope.

(** [Value] is [Some] when the value of the condition is a duration. *)
Record RecoveryCondition := mkRecoveryCondition { cond_Type : string; cond_Value : option Duration }.

Inductive RecoveryError :=
| NotAllowed
| StateFailed (e : StateError)
| NoPreviousPhase
| NoHandler
| UnknownStrategy (type : string)
| PostConditionsNotMet
| CustomFailed (why : string).

Section recovery.
Context {A C : Type} `{KubeAPI A} `{Memo C} (P : NetworkIntentPhases).

#[local] Abbreviation manager := (StateManager (A := A) (C := C)).

Record RecoveryStrategy := mkStrategy {
  st_Type : string;
  MaxAttempts : Z;
  PreConditions : list RecoveryCondition;
  PostConditions : list RecoveryCondition;
  CustomHandler : option (manager -> manager * result string unit)
}.

Record RecoveryAction := mkAction { ac_Type : string; ac_Success : bool; ac_Error : option RecoveryError }.

Inductive Status := Running | Succeeded | Failed_.

Record RecoveryAttempt := mkAttempt {
  IntentName_ : NamespacedName;
  at_Phase : ProcessingPhase;
  Strategy : RecoveryStrategy;
  AttemptNumber : Z;
  at_Status : Status;
  at_Error : option RecoveryError;
  RecoveryActions : list RecoveryAction;
  StateBeforeRecovery : option nat;
  StateAfterRecovery : option nat
}.

Record RecoveryConfig := mkRecoveryConfig {
  MaxRecoveryAttempts : Z;
  MaxConcurrentRecoveries : Z;
  DefaultStrategy : string;
  EnableAutoRecovery : bool
}.
Definition DefaultRecoveryConfig : RecoveryConfig := mkRecoveryConfig 3 5 "restart" true.

Record RecoveryManager := mkRecovery {
  strategies : gmap string RecoveryStrategy;
  recoveryAttempts : gmap string RecoveryAttempt;
  rc_config : RecoveryConfig
}.

Definition with_attempts (m : gmap string RecoveryAttempt) (rm : RecoveryManager) : RecoveryManager :=
  mkRecovery (strategies rm) m (rc_config rm).

Definition initializeDefaultStrategies (m : gmap string RecoveryStrategy) : gmap string RecoveryStrategy :=
  let restartStrategy := mkStrategy "restart" 3 [] [] None in
  let phases := [PhaseLLMProcessing; PhaseResourcePlanning; PhaseManifestGeneration; PhaseGitOpsCommit; PhaseDeploymentVerification] in
  let m := foldl (λ m phase, <[phase := restartStrategy]> m) m phases in
  <[PhaseDeploymentVerification := mkStrategy "rollback" 2 [] [] None]> m.

Definition NewRecoveryManager : RecoveryManager := mkRecovery (initializeDefaultStrategies ∅) ∅ DefaultRecoveryConfig.

Definition RegisterRecoveryStrategy (phase : ProcessingPhase) (s : RecoveryStrategy) (rm : RecoveryManager) : RecoveryManager :=
  mkRecovery (<[phase := s]> (strategies rm)) (recoveryAttempts rm) (rc_config rm).

Definition getRecoveryStrategy (phase : ProcessingPhase) (rm : RecoveryManager) : RecoveryStrategy :=
  match strategies rm !! phase with
  | Some s => s
  | None => mkStrategy (DefaultStrategy (rc_config rm)) (MaxRecoveryAttempts (rc_config rm)) [] [] None
  end.

(** *** May a recovery be attempted? *)

Definition attemptsOf (rm : RecoveryManager) : list RecoveryAttempt := (map_to_list (recoveryAttempts rm)).*2.

Definition isAttempt (intentName : NamespacedName) (phase : ProcessingPhase) (a : RecoveryAttempt) : bool :=
  bool_decide (IntentName_ a = intentName) && String.eqb (at_Phase a) phase.

Definition getAttemptNumber (intentName : NamespacedName) (phase : ProcessingPhase) (rm : RecoveryManager) : Z :=
  countb (isAttempt intentName phase) (attemptsOf rm).

Definition isRunning (a : RecoveryAttempt) : bool := match at_Status a with Running => true | _ => false end.

Definition getRunningRecoveryCount (rm : RecoveryManager) : Z := countb isRunning (attemptsOf rm).

(** [elapsed]: the time between two readings of the clock, one after the other. *)
Definition evaluateCondition (elapsed : Duration) (c : RecoveryCondition) : bool :=
  if String.eqb (cond_Type c) "time_threshold" then
    match cond_Value c with Some threshold => threshold <? elapsed | None => false end
  else String.eqb (cond_Type c) "state_field" || String.eqb (cond_Type c) "resource_exists" || String.eqb (cond_Type c) "custom".

Definition checkRecoveryConditions (elapsed : Duration) (cs : list RecoveryCondition) : bool := forallb (evaluateCondition elapsed) cs.

Definition shouldAttemptRecovery (elapsed : Duration) (intentName : NamespacedName) (phase : ProcessingPhase) (s : RecoveryStrategy)
  (rm : RecoveryManager) : bool :=
  if MaxAttempts s <=? getAttemptNumber intentName phase rm then false
  else if MaxConcurrentRecoveries (rc_config rm) <=? getRunningRecoveryCount rm then false
  else checkRecoveryConditions elapsed (PreConditions s).

(** *** The strategies *)

Definition getPreviousPhase (currentPhase : ProcessingPhase) : ProcessingPhase :=
  if String.eqb currentPhase PhaseResourcePlanning then PhaseLLMProcessing
  else if String.eqb currentPhase PhaseManifestGeneration then PhaseResourcePlanning
  else if String.eqb currentPhase PhaseGitOpsCommit then PhaseManifestGeneration
  else if String.eqb currentPhase PhaseDeploymentVerification then PhaseGitOpsCommit
  else "".

Definition getNextPhase (currentPhase : ProcessingPhase) : ProcessingPhase :=
  if String.eqb currentPhase PhaseLLMProcessing then PhaseResourcePlanning
  else if String.eqb currentPhase PhaseResourcePlanning then PhaseManifestGeneration
  else if String.eqb currentPhase PhaseManifestGeneration then PhaseGitOpsCommit
  else if String.eqb currentPhase PhaseGitOpsCommit then PhaseDeploymentVerification
  else if String.eqb currentPhase PhaseDeploymentVerification then PhaseCompleted
  else "".

(** What a recovery draws: the identifier of the attempt, the time between two
    readings of the clock, and what the calls of the state manager draw. *)
Record Draws := mkDraws { dr_id : string; elapsed : Duration; lock1 : result string unit; lock2 : result string unit; tick : Time }.

Definition ticksAt (t : Time) : Ticks := mkTicks t t t t t t t.

Definition transitionTo (lock : result string unit) (k : Draws) (name : NamespacedName) (phase : ProcessingPhase) (sm : manager)
  : manager * result StateError unit :=
  TransitionPhase P lock (ticksAt (tick k)) (tick k) (tick k) name phase (Some []) sm.

(** The actions that are recorded, and the outcome. *)
Definition executeRestartRecovery (k : Draws) (name : NamespacedName) (phase : ProcessingPhase) (sm : manager)
  : manager * list RecoveryAction * result RecoveryError unit :=
  let first := mkAction "restart" true None in
  let '(sm, r) := SetPhaseData P (lock1 k) (ticksAt (tick k)) name phase AnyNil sm in
  match r with
  | Err e => (sm, [first; mkAction "reset_phase_data" false (Some (StateFailed e))], Err (StateFailed e))
  | Ok _ =>
      let '(sm, r) := transitionTo (lock2 k) k name phase sm in
      match r with
      | Err e => (sm, [first; mkAction "restart_phase" false (Some (StateFailed e))], Err (StateFailed e))
      | Ok _ => (sm, [first; mkAction "restart_phase" true None], Ok tt)
      end
  end.

Definition executeRollbackRecovery (k : Draws) (name : NamespacedName) (phase : ProcessingPhase) (sm : manager)
  : manager * list RecoveryAction * result RecoveryError unit :=
  let first := mkAction "rollback" true None in
  let previousPhase := getPreviousPhase phase in
  if String.eqb previousPhase "" then
    (sm, [first; mkAction "determine_previous_phase" false (Some NoPreviousPhase)], Err NoPreviousPhase)
  else
    let '(sm, r) := transitionTo (lock1 k) k name previousPhase sm in
    match r with
    | Err e => (sm, [first; mkAction "rollback_phase" false (Some (StateFailed e))], Err (StateFailed e))
    | Ok _ => (sm, [first; mkAction "rollback_phase" true None], Ok tt)
    end.

Definition executeSkipRecovery (k : Draws) (name : NamespacedName) (phase : ProcessingPhase) (sm : manager)
  : manager * list RecoveryAction * result RecoveryError unit :=
  let first := mkAction "skip" true None in
  let nextPhase := if String.eqb (getNextPhase phase) "" then PhaseCompleted else getNextPhase phase in
  let '(sm, r) := transitionTo (lock1 k) k name nextPhase sm in
  match r with
  | Err e => (sm, [first; mkAction "skip_phase" false (Some (StateFailed e))], Err (StateFailed e))
  | Ok _ => (sm, [first; mkAction "skip_phase" true None], Ok tt)
  end.

Definition executeStrategy (k : Draws) (name : NamespacedName) (phase : ProcessingPhase) (s : RecoveryStrategy) (sm : manager)
  : manager * list RecoveryAction * result RecoveryError unit :=
  if String.eqb (st_Type s) "restart" then executeRestartRecovery k name phase sm
  else if String.eqb (st_Type s) "rollback" then executeRollbackRecovery k name phase sm
  else if String.eqb (st_Type s) "skip" then executeSkipRecovery k name phase sm
  else if String.eqb (st_Type s) "custom" then
    match CustomHandler s with
    | Some handler => let '(sm, r) := handler sm in (sm, [], match r with Ok _ => Ok tt | Err e => Err (CustomFailed e) end)
    | None => (sm, [], Err NoHandler)
    end
  else (sm, [], Err (UnknownStrategy (st_Type s))).

(** [executeRecovery], with the attempt it completes. *)
Definition executeRecovery (k : Draws) (a : RecoveryAttempt) (sm : manager) : manager * RecoveryAttempt * result RecoveryError unit :=
  let '(sm, actions, err) := executeStrategy k (IntentName_ a) (at_Phase a) (Strategy a) sm in
  let finish status error after :=
    mkAttempt (IntentName_ a) (at_Phase a) (Strategy a) (AttemptNumber a) status error (RecoveryActions a ++ actions)
      (StateBeforeRecovery a) after in
  match err with
  | Err e => (sm, finish Failed_ (Some e) (StateAfterRecovery a), Err e)
  | Ok _ =>
      let '(sm, got) := GetIntentState (ticksAt (tick k)) (IntentName_ a) sm in
      let after := match got with Ok r => Some r | Err _ => StateAfterRecovery a end in
      if checkRecoveryConditions (elapsed k) (PostConditions (Strategy a))
      then (sm, finish Succeeded None after, Ok tt)
      else (sm, finish Failed_ (Some PostConditionsNotMet) after, Err PostConditionsNotMet)
  end.

(** *** [RecoverIntent] in its sections: the tests, the record, the work *)

Definition newAttempt (intentName : NamespacedName) (phase : ProcessingPhase) (s : RecoveryStrategy) (rm : RecoveryManager) : RecoveryAttempt :=
  mkAttempt intentName phase s (getAttemptNumber intentName phase rm + 1) Running None [] None None.

Definition with_before (r : nat) (a : RecoveryAttempt) : RecoveryAttempt :=
  mkAttempt (IntentName_ a) (at_Phase a) (Strategy a) (AttemptNumber a) (at_Status a) (at_Error a) (RecoveryActions a) (Some r) (StateAfterRecovery a).

Definition RecoverIntent (k : Draws) (intentName : NamespacedName) (phase : ProcessingPhase) (w : RecoveryManager * manager)
  : RecoveryManager * manager * result RecoveryError unit :=
  let '(rm, sm) := w in
  let s := getRecoveryStrategy phase rm in
  if negb (shouldAttemptRecovery (elapsed k) intentName phase s rm) then (rm, sm, Err NotAllowed)
  else
    let a := newAttempt intentName phase s rm in
    let rm := with_attempts (<[dr_id k := a]> (recoveryAttempts rm)) rm in
    let '(sm, got) := GetIntentState (ticksAt (tick k)) intentName sm in
    let a := match got with Ok r => with_before r a | Err _ => a end in
    let '(sm, a, r) := executeRecovery k a sm in
    (with_attempts (<[dr_id k := a]> (recoveryAttempts rm)) rm, sm, r).

(** *** Events *)

Definition parseIntentName (intentID : string) : NamespacedName := mkName "default" intentID.

Definition handleFailureEvent (k : Draws) (e : SharedEventBus.ProcessingEvent) (w : RecoveryManager * manager)
  : RecoveryManager * manager * result RecoveryError unit :=
  if negb (EnableAutoRecovery (rc_config w.1)) then (w, Ok tt)
  else RecoverIntent k (parseIntentName (SharedEventBus.IntentID e)) (SharedEventBus.Phase e) w.

(** *** Reports *)

Definition GetRecoveryHistory (intentName : NamespacedName) (rm : RecoveryManager) : list RecoveryAttempt :=
  filter (λ a, IntentName_ a = intentName) (attemptsOf rm).

Record RecoveryStats := mkRecoveryStats { TotalAttempts : Z; SuccessfulAttempts : Z; FailedAttempts : Z; RunningAttempts : Z }.

Definition GetRecoveryStats (rm : RecoveryManager) : RecoveryStats :=
  foldl (λ st a, mkRecoveryStats (TotalAttempts st + 1)
    (SuccessfulAttempts st + match at_Status a with Succeeded => 1 | _ => 0 end)
    (FailedAttempts st + match at_Status a with Failed_ => 1 | _ => 0 end)
    (RunningAttempts st + match at_Status a with Running => 1 | _ => 0 end)) (mkRecoveryStats 0 0 0 0) (attemptsOf rm).
End recovery.

(** ** How many recoveries *)

Section limits.
Context {A C : Type} `{KubeAPI A} `{Memo C} (P : NetworkIntentPhases).

#[local] Abbreviation manager := (StateManager (A := A) (C := C)).
#[local] Abbreviation recovery := (RecoveryManager (A := A) (C := C)).

Lemma countb_Permutation {X} (f : X -> bool) l k : l ≡ₚ k -> countb f l = countb f k.
Proof. unfold countb. induction 1; cbn [foldr]; lia. Qed.

Lemma countb_new (f : RecoveryAttempt (A := A) (C := C) -> bool) i a (rm : recovery) : recoveryAttempts rm !! i = None ->
  countb f (attemptsOf (with_attempts (<[i := a]> (recoveryAttempts rm)) rm)) = Z.b2z (f a) + countb f (attemptsOf rm).
Proof.
  intros Hi. unfold attemptsOf. cbn [recoveryAttempts with_attempts].
  rewrite (countb_Permutation f _ (a :: (map_to_list (recoveryAttempts rm)).*2)); [done |]. by rewrite map_to_list_insert.
Qed.

Lemma executeStrategy_error k n phase s (sm : manager) : (executeStrategy P k n phase s sm).2 <> Err NotAllowed.
Proof.
  unfold executeStrategy, executeRestartRecovery, executeRollbackRecovery, executeSkipRecovery. repeat case_match; done.
Qed.

(** What a call does to the records. *)
Lemma RecoverIntent_records k n phase (rm : recovery) (sm : manager) : let '(rm', sm', r) := RecoverIntent P k n phase (rm, sm) in
  let s := getRecoveryStrategy phase rm in
  if shouldAttemptRecovery (elapsed k) n phase s rm
  then exists a, rm' = with_attempts (<[dr_id k := a]> (recoveryAttempts rm)) rm /\ IntentName_ a = n /\ at_Phase a = phase /\
         Strategy a = s /\ AttemptNumber a = getAttemptNumber n phase rm + 1 /\ r <> Err NotAllowed /\
         at_Status a = match r with Ok _ => Succeeded | Err _ => Failed_ end /\ at_Error a = match r with Ok _ => None | Err e => Some e end
  else rm' = rm /\ sm' = sm /\ r = Err NotAllowed.
Proof.
  unfold RecoverIntent. cbn zeta. destruct (shouldAttemptRecovery _ n phase _ rm); cbn [negb]; [| done].
  destruct (GetIntentState (ticksAt (tick k)) n sm) as [sm1 got]. set (a := newAttempt n phase (getRecoveryStrategy phase rm) rm).
  set (b := match got with Ok r => with_before r a | Err _ => a end).
  assert (IntentName_ b = n /\ at_Phase b = phase /\ Strategy b = getRecoveryStrategy phase rm /\
    AttemptNumber b = getAttemptNumber n phase rm + 1) as (E1 & E2 & E3 & E4) by (by destruct got).
  unfold executeRecovery. pose proof (executeStrategy_error k (IntentName_ b) (at_Phase b) (Strategy b) sm1) as Hne.
  destruct (executeStrategy P k (IntentName_ b) (at_Phase b) (Strategy b) sm1) as [[sm2 actions] [u | e]]; cbn in Hne;
    [destruct (GetIntentState (ticksAt (tick k)) (IntentName_ b) sm2) as [sm3 after]; destruct (checkRecoveryConditions _ _) |];
    (eexists; split; [unfold with_attempts; cbn; by rewrite insert_insert_eq |]; done).
Qed.

(** Calls that follow each other, whatever else happens to the states. *)
Inductive calls : recovery -> recovery -> Prop :=
| call k n phase rm sm : recoveryAttempts rm !! dr_id k = None -> calls rm (RecoverIntent P k n phase (rm, sm)).1.1.

Lemma calls_limited (rm rm' : recovery) : calls rm rm' ->
  (forall n phase, getAttemptNumber n phase rm <= Z.max 0 (MaxAttempts (getRecoveryStrategy phase rm))) /\ getRunningRecoveryCount rm = 0 ->
  (forall n phase, getAttemptNumber n phase rm' <= Z.max 0 (MaxAttempts (getRecoveryStrategy phase rm'))) /\ getRunningRecoveryCount rm' = 0 /\
  rc_config rm' = rc_config rm.
Proof.
  intros Hc. destruct Hc as [k n phase rm sm Hid]. intros [Hm Hr]. pose proof (RecoverIntent_records k n phase rm sm) as Hrec.
  destruct (RecoverIntent P k n phase (rm, sm)) as [[rm1 sm1] r]. cbn [fst snd].
  cbn zeta in Hrec. destruct (shouldAttemptRecovery (elapsed k) n phase (getRecoveryStrategy phase rm) rm) eqn:Es; [| by destruct Hrec as (-> & _ & _)].
  destruct Hrec as (a & -> & En & Ep & _ & _ & _ & Est & _). unfold getAttemptNumber, getRunningRecoveryCount in *. split; [| split; [| done]].
  - intros n' phase'. rewrite countb_new by done. specialize (Hm n' phase').
    change (getRecoveryStrategy phase' (with_attempts _ rm)) with (getRecoveryStrategy phase' rm). unfold isAttempt at 1. rewrite En, Ep.
    destruct (bool_decide_reflect (n = n')) as [<- |]; cbn [andb]; [| cbn; lia].
    destruct (String.eqb_spec phase phase') as [<- |]; cbn [Z.b2z]; [| lia].
    unfold shouldAttemptRecovery, getAttemptNumber in Es. destruct (MaxAttempts (getRecoveryStrategy phase rm) <=? _) eqn:E; [done |]. lia.
  - rewrite countb_new, Hr by done. unfold isRunning. rewrite Est. by destruct r.
Qed.

(** As long as calls follow each other, a phase of an intent is recovered at
    most as often as the strategy of the phase allows, whether the recoveries
    succeed or fail; no attempt is left running, so that the limit of concurrent
    recoveries plays no part; and a call is refused exactly when the phase has used
    up its attempts or a condition does not hold. *)
Theorem recoveries_are_limited strategies config (rm : recovery) : rtc calls (mkRecovery strategies ∅ config) rm ->
  0 < MaxConcurrentRecoveries config ->
  (forall n phase, getAttemptNumber n phase rm <= Z.max 0 (MaxAttempts (getRecoveryStrategy phase rm))) /\
  getRunningRecoveryCount rm = 0 /\
  (forall k n phase sm, (RecoverIntent P k n phase (rm, sm)).2 = Err NotAllowed <->
    MaxAttempts (getRecoveryStrategy phase rm) <= getAttemptNumber n phase rm \/
    checkRecoveryConditions (elapsed k) (PreConditions (getRecoveryStrategy phase rm)) = false).
Proof.
  intros Hc Hmax.
  assert ((forall n phase, getAttemptNumber n phase rm <= Z.max 0 (MaxAttempts (getRecoveryStrategy phase rm))) /\
    getRunningRecoveryCount rm = 0 /\ rc_config rm = config) as (Hm & Hr & Hcfg).
  { remember (mkRecovery strategies ∅ config) as rm0 eqn:E0.
    assert ((forall n phase, getAttemptNumber n phase rm0 <= Z.max 0 (MaxAttempts (getRecoveryStrategy phase rm0))) /\
      getRunningRecoveryCount rm0 = 0 /\ rc_config rm0 = config) as H0'.
    { subst. split; [| done]. intros n phase. unfold getAttemptNumber, attemptsOf. cbn. rewrite map_to_list_empty. cbn. lia. }
    clear E0. induction Hc as [| x y z Hs _ IH]; [done |]. apply IH. destruct H0' as (H1 & H2 & H3).
    destruct (calls_limited x y Hs (conj H1 H2)) as (? & ? & ->). by split_and!. }
  split; [done |]. split; [done |]. intros k n phase sm. pose proof (RecoverIntent_records k n phase rm sm) as Hrec.
  destruct (RecoverIntent P k n phase (rm, sm)) as [[rm1 sm1] r]. cbn [fst snd].
  unfold shouldAttemptRecovery in Hrec. rewrite Hr, Hcfg in Hrec.
  destruct (MaxAttempts (getRecoveryStrategy phase rm) <=? getAttemptNumber n phase rm) eqn:E1.
  { destruct Hrec as (_ & _ & ->). split; [intros _; left; lia | done]. }
  destruct (MaxConcurrentRecoveries config <=? 0) eqn:E2; [lia |].
  destruct (checkRecoveryConditions _ _) eqn:E3.
  - destruct Hrec as (a & _ & _ & _ & _ & _ & Hne & _). split; [done |]. intros [|]; [lia | done].
  - destruct Hrec as (_ & _ & ->). split; [by right | done].
Qed.
End limits.

(** ** One event *)

Section events.
Context {A C : Type} `{KubeAPI A} `{Memo C} (P : NetworkIntentPhases).

#[local] Abbreviation manager := (StateManager (A := A) (C := C)).
#[local] Abbreviation recovery := (RecoveryManager (A := A) (C := C)).

(** [handleFailureEvent] as a handler of the bus; [ks] gives the draws of its calls. *)
Definition recoveryHandler (ks : nat -> Draws) : SharedEventBus.EventHandler (W := recovery * manager * nat) := λ e w,
  let '(rm, sm, r) := handleFailureEvent P (ks w.2) e w.1 in
  ((rm, sm, S w.2), match r with Ok _ => Ok tt | Err _ => Err "recovery failed" end).

(** Neither the server nor the cache has an intent under the key of [n]. *)
Definition unknown (n : NamespacedName) (sm : manager) : Prop :=
  Inv P sm /\ forall m, String_ m = String_ n -> stored (api sm) m = None.

Lemma unknown_get k n sm : unknown n sm -> let '(sm', got) := GetIntentState k n sm in
  unknown n sm' /\ exists e, got = Err e.
Proof.
  intros [HI Hn]. pose proof (GetIntentState_spec P k n sm HI) as Hg. destruct (GetIntentState k n sm) as [sm' got].
  destruct Hg as (HI' & _ & _ & Hst & _ & Hg). split; [split; [done | by rewrite Hst] |]. destruct got as [r | e]; [| by exists e].
  destruct Hg as (s & Es & Hk & _). destruct (Forall_lookup_1 _ _ _ _ (inv_named _ _ HI') Es) as [i Hi]. cbn in Hi.
  by rewrite Hst, (Hn _ Hk) in Hi.
Qed.

Lemma unknown_update lock k n f sm : unknown n sm -> keeps f -> let '(sm', r) := UpdateIntentState P lock k n f sm in
  unknown n sm' /\ exists e, r = Err e.
Proof.
  intros Hu Hf. destruct lock as [[] | e]; [| split; [done | by eexists]].
  pose proof (UpdateIntentState_spec P k n f sm (proj1 Hu) Hf) as Hs. pose proof (unknown_get k n sm Hu) as Hg.
  destruct (GetIntentState k n sm) as [sm1 got]. destruct (UpdateIntentState P (Ok tt) k n f sm) as [sm' r].
  destruct Hg as [Hu1 [e ->]]. destruct Hs as (_ & -> & ->). split; [done | by eexists].
Qed.

Lemma unknown_strategy k n phase s sm : unknown n sm -> st_Type s <> "custom" ->
  let '(sm', _, r) := executeStrategy P k n phase s sm in unknown n sm' /\ exists e, r = Err e.
Proof.
  intros Hu Hc. unfold executeStrategy. rewrite (proj2 (String.eqb_neq _ _) Hc).
  assert (forall lock p, let '(sm', r) := transitionTo P lock k n p sm in unknown n sm' /\ exists e, r = Err e) as Ht
    by (intros lock p; apply unknown_update; [done | apply transition_keeps]).
  destruct (String.eqb (st_Type s) "restart"); [| destruct (String.eqb (st_Type s) "rollback"); [| destruct (String.eqb (st_Type s) "skip")]];
    [unfold executeRestartRecovery | unfold executeRollbackRecovery | unfold executeSkipRecovery | split; [done | by eexists]].
  - pose proof (unknown_update (lock1 k) (ticksAt (tick k)) n (setData phase AnyNil) sm Hu (setData_keeps _ _)) as Hd.
    unfold SetPhaseData. destruct (UpdateIntentState P _ _ n _ sm) as [sm1 r1]. destruct Hd as [? [e ->]]. split; [done | by eexists].
  - destruct (String.eqb (getPreviousPhase phase) ""); [split; [done | by eexists] |].
    specialize (Ht (lock1 k) (getPreviousPhase phase)). destruct (transitionTo P _ k n _ sm) as [sm1 r1]. destruct Ht as [? [e ->]].
    split; [done | by eexists].
  - match goal with |- context [transitionTo P ?l k n ?p sm] => specialize (Ht l p); destruct (transitionTo P l k n p sm) as [sm1 r1] end.
    destruct Ht as [? [e ->]]. split; [done | by eexists].
Qed.

Lemma unknown_recover k n phase rm sm : unknown n sm -> st_Type (getRecoveryStrategy phase rm) <> "custom" ->
  let '(rm', sm', r) := RecoverIntent P k n phase (rm, sm) in unknown n sm' /\ exists e, r = Err e.
Proof.
  intros Hu Hc. unfold RecoverIntent. destruct (negb _); [split; [done | by eexists] |].
  pose proof (unknown_get (ticksAt (tick k)) n sm Hu) as Hg. destruct (GetIntentState (ticksAt (tick k)) n sm) as [sm1 got].
  destruct Hg as [Hu1 [e ->]]. unfold executeRecovery. cbn [IntentName_ at_Phase Strategy newAttempt].
  pose proof (unknown_strategy k n phase (getRecoveryStrategy phase rm) sm1 Hu1 Hc) as Hs.
  destruct (executeStrategy P k n phase (getRecoveryStrategy phase rm) sm1) as [[sm2 acts] r]. destruct Hs as [Hu2 [e' ->]].
  split; [done | by eexists].
Qed.

Section exhaustion.
Context (ks : nat -> Draws) (e : SharedEventBus.ProcessingEvent) (rp : SharedEventBus.RetryPolicy) (rm0 : recovery).
#[local] Abbreviation name := (parseIntentName (SharedEventBus.IntentID e)).
#[local] Abbreviation phase := (SharedEventBus.Phase e).
#[local] Abbreviation strategy := (getRecoveryStrategy phase rm0).

Hypothesis ids_differ : forall i j, dr_id (ks i) = dr_id (ks j) -> i = j.
Hypothesis auto : EnableAutoRecovery (rc_config rm0) = true.
Hypothesis room : 0 < MaxConcurrentRecoveries (rc_config rm0).
Hypothesis not_custom : st_Type strategy <> "custom".
Hypothesis unconditional : PreConditions strategy = [].
Hypothesis limited : 0 <= MaxAttempts strategy.

(** After [i] calls of the handler. *)
Record called (i : nat) (rm : recovery) (sm : manager) : Prop := {
  called_number : getAttemptNumber name phase rm = Z.min (Z.of_nat i) (MaxAttempts strategy);
  called_running : getRunningRecoveryCount rm = 0;
  called_same : strategies rm = strategies rm0 /\ rc_config rm = rc_config rm0;
  called_fresh : forall j, (i <= j)%nat -> recoveryAttempts rm !! dr_id (ks j) = None;
  called_unknown : unknown name sm
}.

Lemma called_step i rm sm : called i rm sm -> let '(rm', sm', i', r) := recoveryHandler ks e (rm, sm, i) in
  r = Err "recovery failed" /\ i' = S i /\ called (S i) rm' sm'.
Proof using ids_differ auto room not_custom unconditional limited.
  intros [Hn Hr [Hs Hc] Hf Hu]. unfold recoveryHandler, handleFailureEvent. cbn [fst snd]. rewrite Hc, auto. cbn [negb].
  assert (getRecoveryStrategy phase rm = strategy) as Est by (unfold getRecoveryStrategy; by rewrite Hs, Hc).
  pose proof (RecoverIntent_records P (ks i) name phase rm sm) as Hrec.
  pose proof (unknown_recover (ks i) name phase rm sm Hu ltac:(by rewrite Est)) as Hfail.
  destruct (RecoverIntent P (ks i) name phase (rm, sm)) as [[rm1 sm1] r]. destruct Hfail as [Hu1 [x ->]].
  split; [done |]. split; [done |]. cbn zeta in Hrec. rewrite Est in Hrec. unfold shouldAttemptRecovery in Hrec.
  rewrite Hn, Hr, Hc, unconditional in Hrec.
  destruct (MaxAttempts strategy <=? Z.min (Z.of_nat i) (MaxAttempts strategy)) eqn:E1.
  { destruct Hrec as (-> & _ & _). split; [rewrite Hn; lia | done | by split | intros j Hj; apply Hf; lia | done]. }
  destruct (MaxConcurrentRecoveries (rc_config rm0) <=? 0) eqn:E2; [lia |]. cbn in Hrec.
  destruct Hrec as (a & -> & En & Ep & _ & _ & _ & Est' & _).
  assert (recoveryAttempts rm !! dr_id (ks i) = None) as Hi by (by apply Hf). split.
  - unfold getAttemptNumber. rewrite countb_new by done. unfold getAttemptNumber in Hn. rewrite Hn. unfold isAttempt.
    rewrite En, Ep, bool_decide_eq_true_2, String.eqb_refl by done. cbn. lia.
  - unfold getRunningRecoveryCount. rewrite countb_new by done. unfold getRunningRecoveryCount in Hr. rewrite Hr. unfold isRunning. by rewrite Est'.
  - done.
  - intros j Hj. cbn. rewrite lookup_insert_ne; [apply Hf; lia |]. intros E. apply ids_differ in E. lia.
  - done.
Qed.

Lemma called_tries m last i rm sm : SharedEventBus.RetryableErrors rp = [] -> called i rm sm ->
  let '((rm', sm', i'), r) := SharedEventBus.tries rp (recoveryHandler ks e) m last (rm, sm, i) in
  called (i + m) rm' sm' /\ exists err, r = Err (SharedEventBus.Exhausted (SharedEventBus.MaxRetries rp + 1) err).
Proof using ids_differ auto room not_custom unconditional limited.
  intros Hrt. revert last i rm sm. induction m as [| m IH]; intros last i rm sm Hc; cbn [SharedEventBus.tries].
  - rewrite Nat.add_0_r. split; [done | by eexists].
  - pose proof (called_step i rm sm Hc) as Hs. destruct (recoveryHandler ks e (rm, sm, i)) as [[[rm1 sm1] i1] r].
    destruct Hs as (-> & -> & Hc1). unfold SharedEventBus.isRetryableError. rewrite Hrt. cbn [length Nat.eqb orb negb].
    specialize (IH (Some "recovery failed") (S i) rm1 sm1 Hc1). destruct (SharedEventBus.tries rp _ m _ _) as [[[rm2 sm2] i2] r2].
    by rewrite Nat.add_succ_comm in IH.
Qed.
End exhaustion.

(** C24 - one failure event can use up the recoveries of a phase: the bus calls the
    handler again whenever it fails, and every failed call is an attempt.  When the
    state of the intent cannot be read (for the parsed name there is no intent) and
    the bus tries at least as often as the strategy allows attempts, then after one
    event all attempts are spent, and every later recovery of the phase is refused,
    whatever the state has become by then. *)
Theorem one_event_exhausts_attempts ks e rp (rm : recovery) (sm : manager) :
  let n := parseIntentName (SharedEventBus.IntentID e) in
  let s := getRecoveryStrategy (SharedEventBus.Phase e) rm in
  (forall i j, dr_id (ks i) = dr_id (ks j) -> i = j) -> EnableAutoRecovery (rc_config rm) = true ->
  0 < MaxConcurrentRecoveries (rc_config rm) -> st_Type s <> "custom" -> PreConditions s = [] ->
  0 <= MaxAttempts s <= SharedEventBus.MaxRetries rp + 1 -> SharedEventBus.RetryableErrors rp = [] ->
  recoveryAttempts rm = ∅ -> reachable P sm -> (forall m, String_ m = String_ n -> stored (api sm) m = None) ->
  let '((rm', _, _), r) := SharedEventBus.Execute rp (recoveryHandler ks e) (rm, sm, 0%nat) in
  (exists err, r = Err (SharedEventBus.Exhausted (SharedEventBus.MaxRetries rp + 1) err)) /\
  getAttemptNumber n (SharedEventBus.Phase e) rm' = MaxAttempts s /\
  forall k sm', (RecoverIntent P k n (SharedEventBus.Phase e) (rm', sm')).2 = Err NotAllowed.
Proof.
  intros n s Hids Hauto Hroom Hcustom Hpre Hmax Hrt Hempty Hr%reachable_manager_inv Hn.
  assert (called ks e rm 0 rm sm) as Hc.
  { split; [| | done | intros; by rewrite Hempty | done]; unfold getAttemptNumber, getRunningRecoveryCount, attemptsOf;
      rewrite Hempty, map_to_list_empty; cbn; [fold s; lia | done]. }
  unfold SharedEventBus.Execute.
  pose proof (called_tries ks e rp rm Hids Hauto Hroom Hcustom Hpre (proj1 Hmax) (Z.to_nat (SharedEventBus.MaxRetries rp + 1)) None 0 rm sm Hrt Hc) as Ht.
  destruct (SharedEventBus.tries rp _ _ _ _) as [[[rm' sm'] i'] r]. destruct Ht as [[Hnum Hrun [Hst Hcfg] _ _] Herr].
  split; [done |]. fold n s in Hnum. assert (getAttemptNumber n (SharedEventBus.Phase e) rm' = MaxAttempts s) as En by (rewrite Hnum; lia).
  split; [done |]. intros k sm''. unfold RecoverIntent.
  assert (getRecoveryStrategy (SharedEventBus.Phase e) rm' = s) as -> by (unfold getRecoveryStrategy; by rewrite Hst, Hcfg).
  unfold shouldAttemptRecovery. rewrite En, Z.leb_refl. done.
Qed.
End events.

(** ** The properties on the server of [StateManager] *)

#[local] Abbreviation demo_recovery := (RecoveryManager (A := Server) (C := StateCache.StateCache)).

Definition demo_draws (i : nat) : Draws := mkDraws ("attempt-" +:+ pretty i) 0 (Ok tt) (Ok tt) 100.

Lemma demo_draws_differ i j : dr_id (demo_draws i) = dr_id (demo_draws j) -> i = j.
Proof. intros E. apply (inj (String.append "attempt-")) in E. by apply (inj pretty) in E. Qed.

(** Three recoveries of a phase, and no fourth. *)
Definition demo_call (i : nat) (rm : demo_recovery) : demo_recovery :=
  (RecoverIntent demo_phases (demo_draws i) demo_name PhaseLLMProcessing (rm, demo_manager [])).1.1.

Definition demo_calls : demo_recovery := demo_call 2 (demo_call 1 (demo_call 0 NewRecoveryManager)).

Lemma demo_call_step i (rm : demo_recovery) : bool_decide (recoveryAttempts rm !! dr_id (demo_draws i) = None) = true ->
  calls demo_phases rm (demo_call i rm).
Proof. intros Hi. exact (call demo_phases (demo_draws i) _ _ rm (demo_manager []) (bool_decide_eq_true_1 _ Hi)). Qed.

Lemma demo_calls_run : rtc (calls demo_phases) NewRecoveryManager demo_calls.
Proof.
  apply (rtc_l _ _ (demo_call 0 NewRecoveryManager)); [apply demo_call_step; by vm_compute |].
  apply (rtc_l _ _ (demo_call 1 (demo_call 0 NewRecoveryManager))); [apply demo_call_step; by vm_compute |].
  apply rtc_once, demo_call_step. by vm_compute.
Qed.

Lemma recoveries_are_limited_witness : rtc (calls demo_phases) NewRecoveryManager demo_calls /\ 0 < MaxConcurrentRecoveries DefaultRecoveryConfig /\
  getAttemptNumber demo_name PhaseLLMProcessing demo_calls = 3 /\ getRunningRecoveryCount demo_calls = 0 /\
  (RecoverIntent demo_phases (demo_draws 3) demo_name PhaseLLMProcessing (demo_calls, demo_manager [])).2 = Err NotAllowed.
Proof.
  assert (Hr : rtc (calls demo_phases) NewRecoveryManager demo_calls) by exact demo_calls_run.
  assert (Hc : 0 < MaxConcurrentRecoveries DefaultRecoveryConfig) by done.
  destruct (recoveries_are_limited demo_phases _ _ demo_calls Hr Hc) as (_ & Hrun & Hiff).
  assert (Hn : getAttemptNumber demo_name PhaseLLMProcessing demo_calls = 3) by (by vm_compute).
  split; [exact Hr |]. split; [exact Hc |]. split; [exact Hn |]. split; [exact Hrun |].
  apply Hiff. left. rewrite Hn. vm_compute. discriminate.
Defined.

(** The failure of an intent of the namespace [default], which the bus names
    [default/slice]. *)
Definition demo_failure : SharedEventBus.ProcessingEvent :=
  SharedEventBus.mkProcessing "llm.processing.failed" "llm" (String_ demo_name) PhaseLLMProcessing false ∅ 0 "" ∅.

Lemma demo_unnamed m : String_ m = String_ (parseIntentName (String_ demo_name)) -> stored (demo_server []) m = None.
Proof.
  intros E. cbn. destruct (decide (m = demo_name)) as [-> |]; [by vm_compute in E |].
  destruct (decide (m = mkName "default" "core")) as [-> |]; [by vm_compute in E |].
  by rewrite lookup_insert_ne, lookup_singleton_ne by done.
Qed.

Lemma one_event_exhausts_attempts_witness :
  let sm := demo_manager [] in let n := parseIntentName (SharedEventBus.IntentID demo_failure) in
  reachable demo_phases sm /\ (forall m, String_ m = String_ n -> stored (api sm) m = None) /\
  exists rm' sm' i r, SharedEventBus.Execute SharedEventBus.defaultPolicy (recoveryHandler demo_phases demo_draws demo_failure)
      (NewRecoveryManager, sm, 0%nat) = ((rm', sm', i), r) /\
    getAttemptNumber n PhaseLLMProcessing rm' = 3 /\
    (RecoverIntent demo_phases (demo_draws 9) n PhaseLLMProcessing (rm', sm')).2 = Err NotAllowed.
Proof.
  intros sm n. assert (Hr : reachable demo_phases sm) by apply (demo_reachable []), rtc_refl.
  assert (Hn : forall m, String_ m = String_ n -> stored (api sm) m = None) by exact demo_unnamed.
  pose proof (one_event_exhausts_attempts demo_phases demo_draws demo_failure SharedEventBus.defaultPolicy NewRecoveryManager sm
    demo_draws_differ eq_refl ltac:(done) ltac:(done) eq_refl ltac:(done) eq_refl eq_refl Hr Hn) as H.
  split; [exact Hr |]. split; [exact Hn |].
  destruct (SharedEventBus.Execute _ _ _) as [[[rm' sm'] i] r]. destruct H as (_ & H1 & H2).
  exists rm', sm', i, r. split; [done |]. split; [exact H1 | apply H2].
Defined.

(** The states before and after a recovery are one object when the cache has kept
    it: the attempt does not show what the recovery changed. *)
Example before_is_after :
  let sm := (TransitionPhase demo_phases (Ok tt) (ticks 10) 10 10 demo_name PhaseLLMProcessing None (demo_manager [])).1 in
  let '(rm, sm, r) := RecoverIntent demo_phases (demo_draws 0) demo_name PhaseGitOpsCommit (NewRecoveryManager (A := Server), sm) in
  r = Ok tt /\ (λ a, (StateBeforeRecovery a, StateAfterRecovery a)) <$> recoveryAttempts rm !! "attempt-0" = Some (Some 0%nat, Some 0%nat).
Proof. by vm_compute. Qed.

(** The tests and the record are separate sections: calls that test before any of
    them records are all allowed, here four where three are. *)
Example concurrent_recoveries_exceed :
  let record i (rm : demo_recovery) := with_attempts
    (<[dr_id (demo_draws i) := newAttempt demo_name PhaseLLMProcessing (getRecoveryStrategy PhaseLLMProcessing rm) rm]> (recoveryAttempts rm)) rm in
  let rm := NewRecoveryManager in
  shouldAttemptRecovery 0 demo_name PhaseLLMProcessing (getRecoveryStrategy PhaseLLMProcessing rm) rm = true /\
  getAttemptNumber demo_name PhaseLLMProcessing (record 3%nat (record 2%nat (record 1%nat (record 0%nat rm)))) = 4.
Proof. by vm_compute. Qed.

(** A threshold of time is compared with the time since just now. *)
Lemma threshold_never_met elapsed threshold : 0 <= elapsed <= threshold -> evaluateCondition elapsed (mkRecoveryCondition "time_threshold" (Some threshold)) = false.
Proof. intros ?. cbn. lia. Qed.
