(* ===== verification/Coordination.v ===== *)
(** * Coordination: the coordination manager and what it makes of an intent

    Follows pkg/shared/coordination_manager.go, over the state manager
    ([StateManager]), the execution queue ([ExecutionQueue]) and the events of the
    bus ([SharedEventBus]).  The controllers and their executors are other
    components: what an executor validates is a function, and what it does takes
    effect through the state manager.  The tables of phases are made by the
    constructor and never change.  Parallel groups and limits, batches, back-offs
    and notifications are configured and never read; health checks only log. *)

From S2P Require Import Prelude GoFloat.
From S2P Require Import Orchestration StateManager.
From S2P Require ExecutionQueue SharedEventBus StateCache.
Local Open Scope Z_scope.

(** ** Tables *)

Abbreviation PhaseTable := (gmap ProcessingPhase (list ProcessingPhase)).

Definition initializeDependencies (m : PhaseTable) : PhaseTable :=
  <[PhaseDeploymentVerification := [PhaseGitOpsCommit]]> (<[PhaseGitOpsCommit := [PhaseManifestGeneration]]>
  (<[PhaseManifestGeneration := [PhaseResourcePlanning]]> (<[PhaseResourcePlanning := [PhaseLLMProcessing]]>
  (<[PhaseLLMProcessing := []]> m)))).

Definition initializeTransitions (m : PhaseTable) : PhaseTable :=
  <[PhaseFailed := []]> (<[PhaseCompleted := []]>
  (<[PhaseDeploymentVerification := [PhaseCompleted; PhaseFailed]]> (<[PhaseGitOpsCommit := [PhaseDeploymentVerification; PhaseFailed]]>
  (<[PhaseManifestGeneration := [PhaseGitOpsCommit; PhaseFailed]]> (<[PhaseResourcePlanning := [PhaseManifestGeneration; PhaseFailed]]>
  (<[PhaseLLMProcessing := [PhaseResourcePlanning; PhaseFailed]]> (<[PhaseIntentReceived := [PhaseLLMProcessing]]> m))))))).

Definition initializeTimeouts (m : gmap ProcessingPhase Duration) : gmap ProcessingPhase Duration :=
  <[PhaseDeploymentVerification := 5 * Minute]> (<[PhaseGitOpsCommit := 1 * Minute]> (<[PhaseManifestGeneration := 30 * Second]>
  (<[PhaseResourcePlanning := 1 * Minute]> (<[PhaseLLMProcessing := 2 * Minute]> m)))).

Definition transitions : PhaseTable := initializeTransitions ∅.
Definition dependencies : PhaseTable := initializeDependencies ∅.
Definition phaseTimeouts : gmap ProcessingPhase Duration := initializeTimeouts ∅.

Definition getNextPhase (currentPhase : ProcessingPhase) : ProcessingPhase :=
  match default [] (transitions !! currentPhase) with p :: _ => p | [] => "" end.

Definition isValidTransition (from to : ProcessingPhase) : bool :=
  match transitions !! from with None => false | Some l => existsb (λ p, String.eqb p to) l end.

(** [""]: the intent is complete or has failed. *)
Definition determineNextPhase (s : IntentState) : ProcessingPhase :=
  if String.eqb (CurrentPhase s) PhaseCompleted || String.eqb (CurrentPhase s) PhaseFailed then ""
  else match transitions !! CurrentPhase s with
       | None | Some [] => PhaseFailed
       | Some (p :: _) => p
       end.

(** ** Configuration *)

Record ErrorStrategy := mkErrorStrategy { es_Type : string; es_MaxRetries : Z }.
Definition zeroStrategy : ErrorStrategy := mkErrorStrategy "" 0.

Record CoordinationConfig := mkCoordinationConfig {
  DefaultPhaseTimeout : Duration;
  WorkerPoolSize : nat;
  QueueCapacity : nat;
  ErrorStrategies : gmap ProcessingPhase ErrorStrategy
}.
Definition DefaultCoordinationConfig : CoordinationConfig := mkCoordinationConfig (5 * Minute) 10 1000 ∅.

Definition initializeErrorStrategies (m : gmap ProcessingPhase ErrorStrategy) : gmap ProcessingPhase ErrorStrategy :=
  foldl (λ m phase, match m !! phase with Some _ => m | None => <[phase := mkErrorStrategy "retry" 3]> m end) m
    [PhaseLLMProcessing; PhaseResourcePlanning; PhaseManifestGeneration; PhaseGitOpsCommit; PhaseDeploymentVerification].

Definition getPhaseTimeout (c : CoordinationConfig) (phase : ProcessingPhase) : Duration :=
  default (DefaultPhaseTimeout c) (phaseTimeouts !! phase).

(** [time.Since], which saturates, and [Duration.Minutes]. *)
Definition Since (now t : Time) : Duration := Z.max (- 2 ^ 63) (Z.min (2 ^ 63 - 1) (now - t)).
Definition Minutes (d : Duration) : float64 :=
  f64_add (f64_of_int (Z.quot d Minute)) (f64_div (f64_of_int (Z.rem d Minute)) (f64_of_int 60000000000)).

Definition calculatePriority (now : Time) (s : IntentState) : Z :=
  wrap64 (f64_to_int (Minutes (Since now (CreationTime s))) + RetryCount s * 10).

Definition parseIntentName (intentID : string) : NamespacedName := mkName "default" intentID.

Inductive CoordinationError :=
| InState (e : StateError)
| InQueue (e : ExecutionQueue.QueueError)
| InvalidTransition
| DependencyNotSatisfied (phase : ProcessingPhase)
| NoExecutor
| InvalidData (why : string)
| ExecutionFailed (why : string).

(** What a call of the state manager draws: its lock and the clock. *)
Record Call := mkCall { c_lock : result string unit; c_ticks : Ticks; c_now : Time; c_now' : Time }.

Section coordination.
Context {A C : Type} `{KubeAPI A} `{Memo C} (P : NetworkIntentPhases).

#[local] Abbreviation manager := (StateManager (A := A) (C := C)).

Definition update (k : Call) (n : NamespacedName) (f : IntentState -> IntentState * result string unit) (sm : manager)
  : manager * result CoordinationError unit :=
  let '(sm, r) := UpdateIntentState P (c_lock k) (c_ticks k) n f sm in
  (sm, match r with Ok _ => Ok tt | Err e => Err (InState e) end).

(** [TransitionPhase] of the state manager, with empty metadata. *)
Definition moveTo (k : Call) (n : NamespacedName) (phase : ProcessingPhase) : manager -> manager * result CoordinationError unit :=
  update k n (transition (c_now k) (c_now' k) phase (Some [])).

Definition readState (k : Call) (n : NamespacedName) (sm : manager) : manager * result CoordinationError IntentState :=
  let '(sm, got) := GetIntentState (c_ticks k) n sm in
  match got with
  | Err e => (sm, Err (InState e))
  | Ok r => (sm, match heap sm !! r with Some s => Ok s | None => Err (InState (GetFailed "nil")) end)
  end.

(** *** [ProcessIntent]: a plan, and a task for the queue *)

Definition planTask (k : Call) (n : NamespacedName) (sm : manager)
  : manager * result CoordinationError (option ExecutionQueue.ExecutionTask) :=
  let '(sm, got) := readState k n sm in
  (sm, match got with
       | Err e => Err e
       | Ok s =>
           let nextPhase := determineNextPhase s in
           if String.eqb nextPhase "" then Ok None
           else Ok (Some (ExecutionQueue.mkTask (Namespace n) (Name n) nextPhase (calculatePriority (c_now k) s) (c_now' k)
                            (ExecutionQueue.ObjectContext ∅) 0 0 [] 0))
       end).

Definition enqueueTask (t : ExecutionQueue.ExecutionTask) (eq : ExecutionQueue.ExecutionQueue)
  : ExecutionQueue.ExecutionQueue * result CoordinationError unit :=
  let '(eq, r) := ExecutionQueue.newTask t eq in
  let '(eq, res) := ExecutionQueue.Enqueue r eq in
  (eq, match res with Ok _ => Ok tt | Err e => Err (InQueue e) end).

(** *** Errors: what to do, and doing it *)

Inductive ErrorAction := Retry | MoveTo (phase : ProcessingPhase).

Definition retryPhase (k : Call) (n : NamespacedName) (s : ErrorStrategy) (sm : manager)
  : manager * result CoordinationError ErrorAction :=
  let '(sm, got) := readState k n sm in
  (sm, match got with
       | Err e => Err e
       | Ok st => Ok (if es_MaxRetries s <=? RetryCount st then MoveTo PhaseFailed else Retry)
       end).

Definition skipPhase (phase : ProcessingPhase) : ErrorAction :=
  MoveTo (if String.eqb (getNextPhase phase) "" then PhaseFailed else getNextPhase phase).

Definition decideError (k : Call) (n : NamespacedName) (phase : ProcessingPhase) (s : ErrorStrategy) (sm : manager)
  : manager * result CoordinationError ErrorAction :=
  if String.eqb (es_Type s) "retry" then retryPhase k n s sm
  else if String.eqb (es_Type s) "skip" then (sm, Ok (skipPhase phase))
  else (sm, Ok (MoveTo PhaseFailed)).

Definition countRetry (s : IntentState) : IntentState * result string unit :=
  (mkState (NamespacedName_ s) (Version s) (CreationTime s) (LastModified s) (CurrentPhase s) (PhaseStartTime s) (PhaseTransitions s)
    (PhaseData s) (PhaseErrors s) (Conditions s) (Dependencies s) (LastError s) (LastErrorTime s) (wrap64 (RetryCount s + 1)) (Metadata s), Ok tt).

Definition doAction (k : Call) (n : NamespacedName) (a : ErrorAction) (sm : manager) : manager * result CoordinationError unit :=
  match a with
  | Retry => update k n countRetry sm
  | MoveTo phase => moveTo k n phase sm
  end.

Definition handlePhaseError (k1 k2 : Call) (n : NamespacedName) (phase : ProcessingPhase) (s : ErrorStrategy) (sm : manager)
  : manager * result CoordinationError unit :=
  let '(sm, a) := decideError k1 n phase s sm in
  match a with Err e => (sm, Err e) | Ok a => doAction k2 n a sm end.

(** *** Moving an intent by hand *)

Definition isPhaseSatisfied (s : IntentState) (phase : ProcessingPhase) : bool :=
  existsb (λ c, String.eqb (Type_ c) phase && String.eqb (Status_ c) "True") (Conditions s).

Definition checkPhaseDependencies (k : Call) (n : NamespacedName) (phase : ProcessingPhase) (sm : manager)
  : manager * result CoordinationError unit :=
  match default [] (dependencies !! phase) with
  | [] => (sm, Ok tt)
  | deps =>
      let '(sm, got) := readState k n sm in
      (sm, match got with
           | Err e => Err e
           | Ok s => match find (λ d, negb (isPhaseSatisfied s d)) deps with
                     | Some d => Err (DependencyNotSatisfied d)
                     | None => Ok tt
                     end
           end)
  end.

Definition TransitionPhase (k1 k2 : Call) (n : NamespacedName) (fromPhase toPhase : ProcessingPhase) (sm : manager)
  : manager * result CoordinationError unit :=
  if negb (isValidTransition fromPhase toPhase) then (sm, Err InvalidTransition)
  else
    let '(sm, r) := checkPhaseDependencies k1 n toPhase sm in
    match r with Err e => (sm, Err e) | Ok _ => moveTo k2 n toPhase sm end.

(** *** The manager *)

Record PhaseExecutor := mkExecutor {
  Validate : ProcessingPhase -> any -> result string unit;
  Execute : NamespacedName -> ProcessingPhase -> any -> manager -> manager * result string unit
}.

(** [timers]: those that may still go off. *)
Record CoordinationManager := mkCoordination {
  stateManager : manager;
  executionQueue : ExecutionQueue.ExecutionQueue;
  phaseExecutors : gmap ProcessingPhase PhaseExecutor;
  activeTimeouts : gmap string nat;
  timers : list (option (string * ProcessingPhase));
  errorStrategies : gmap ProcessingPhase ErrorStrategy;
  cm_config : CoordinationConfig
}.

Definition NewCoordinationManager (config : CoordinationConfig) (sm : manager) : CoordinationManager :=
  mkCoordination sm (ExecutionQueue.NewExecutionQueue (QueueCapacity config)) ∅ ∅ [] (initializeErrorStrategies (ErrorStrategies config)) config.

Definition with_states (sm : manager) (cm : CoordinationManager) : CoordinationManager :=
  mkCoordination sm (executionQueue cm) (phaseExecutors cm) (activeTimeouts cm) (timers cm) (errorStrategies cm) (cm_config cm).
Definition with_queue (eq : ExecutionQueue.ExecutionQueue) (cm : CoordinationManager) : CoordinationManager :=
  mkCoordination (stateManager cm) eq (phaseExecutors cm) (activeTimeouts cm) (timers cm) (errorStrategies cm) (cm_config cm).
Definition with_timers (m : gmap string nat) (l : list (option (string * ProcessingPhase))) (cm : CoordinationManager) : CoordinationManager :=
  mkCoordination (stateManager cm) (executionQueue cm) (phaseExecutors cm) m l (errorStrategies cm) (cm_config cm).

Definition RegisterPhaseExecutor (phase : ProcessingPhase) (ex : PhaseExecutor) (cm : CoordinationManager) : CoordinationManager :=
  mkCoordination (stateManager cm) (executionQueue cm) (<[phase := ex]> (phaseExecutors cm)) (activeTimeouts cm) (timers cm)
    (errorStrategies cm) (cm_config cm).

Definition ProcessIntent (k : Call) (n : NamespacedName) (cm : CoordinationManager) : CoordinationManager * result CoordinationError unit :=
  let '(sm, plan) := planTask k n (stateManager cm) in
  let cm := with_states sm cm in
  match plan with
  | Err e => (cm, Err e)
  | Ok None => (cm, Ok tt)
  | Ok (Some t) => let '(eq, r) := enqueueTask t (executionQueue cm) in (with_queue eq cm, r)
  end.

Definition setupPhaseTimeout (intentID : string) (phase : ProcessingPhase) (cm : CoordinationManager) : CoordinationManager :=
  with_timers (<[intentID := length (timers cm)]> (activeTimeouts cm)) (timers cm ++ [Some (intentID, phase)]) cm.

Definition cancelPhaseTimeout (intentID : string) (cm : CoordinationManager) : CoordinationManager :=
  match activeTimeouts cm !! intentID with
  | None => cm
  | Some j => with_timers (delete intentID (activeTimeouts cm)) (<[j := None]> (timers cm)) cm
  end.

Definition strategyOf (cm : CoordinationManager) (phase : ProcessingPhase) : ErrorStrategy := default zeroStrategy (errorStrategies cm !! phase).

(** *** Tasks

    The parts of [executePhase]: before the executor works, and after. *)
Definition preparePhase (k : Call) (n : NamespacedName) (phase : ProcessingPhase) (cm : CoordinationManager)
  : CoordinationManager * result CoordinationError (PhaseExecutor * any) :=
  match phaseExecutors cm !! phase with
  | None => (cm, Err NoExecutor)
  | Some ex =>
      let '(sm, got) := GetPhaseData (c_ticks k) n phase (stateManager cm) in
      (with_states sm cm,
       match got with
       | Err e => Err (InState e)
       | Ok data => match Validate ex phase data with Err e => Err (InvalidData e) | Ok _ => Ok (ex, data) end
       end)
  end.

Definition advance (k : Call) (n : NamespacedName) (phase : ProcessingPhase) (sm : manager) : manager * result CoordinationError unit :=
  if String.eqb (getNextPhase phase) "" then (sm, Ok tt) else moveTo k n (getNextPhase phase) sm.

Definition executePhase (k1 k2 : Call) (n : NamespacedName) (phase : ProcessingPhase) (cm : CoordinationManager)
  : CoordinationManager * result CoordinationError unit :=
  let '(cm, prepared) := preparePhase k1 n phase cm in
  match prepared with
  | Err e => (cm, Err e)
  | Ok (ex, data) =>
      let '(sm, r) := Execute ex n phase data (stateManager cm) in
      match r with
      | Err e => (with_states sm cm, Err (ExecutionFailed e))
      | Ok _ => let '(sm, r) := advance k2 n phase sm in (with_states sm cm, r)
      end
  end.

(** [ks]: the draws of the calls, in their order. *)
Definition executeTask (ks : nat -> Call) (n : NamespacedName) (phase : ProcessingPhase) (cm : CoordinationManager) : CoordinationManager :=
  let cm := setupPhaseTimeout (String_ n) phase cm in
  let '(cm, r) := executePhase (ks 0%nat) (ks 1%nat) n phase cm in
  let cm := cancelPhaseTimeout (String_ n) cm in
  match r with
  | Ok _ => cm
  | Err _ => with_states (handlePhaseError (ks 2%nat) (ks 3%nat) n phase (strategyOf cm phase) (stateManager cm)).1 cm
  end.

(** *** Events *)

Definition handleStateChangeEvent (k : Call) (e : SharedEventBus.ProcessingEvent) (cm : CoordinationManager)
  : CoordinationManager * result CoordinationError unit :=
  ProcessIntent k (parseIntentName (SharedEventBus.IntentID e)) cm.

Definition handlePhaseCompletionEvent (k : Call) (e : SharedEventBus.ProcessingEvent) (cm : CoordinationManager)
  : CoordinationManager * result CoordinationError unit :=
  ProcessIntent k (parseIntentName (SharedEventBus.IntentID e)) (cancelPhaseTimeout (SharedEventBus.IntentID e) cm).

Definition handlePhaseErrorEvent (k1 k2 : Call) (e : SharedEventBus.ProcessingEvent) (cm : CoordinationManager)
  : CoordinationManager * result CoordinationError unit :=
  let cm := cancelPhaseTimeout (SharedEventBus.IntentID e) cm in
  let '(sm, r) := handlePhaseError k1 k2 (parseIntentName (SharedEventBus.IntentID e)) (SharedEventBus.Phase e)
                    (strategyOf cm (SharedEventBus.Phase e)) (stateManager cm) in
  (with_states sm cm, r).

Definition handlePhaseTimeout (k1 k2 : Call) (intentID : string) (phase : ProcessingPhase) (cm : CoordinationManager) : CoordinationManager :=
  with_states (handlePhaseError k1 k2 (parseIntentName intentID) phase (strategyOf cm phase) (stateManager cm)).1 cm.

(** ** Goroutines

    Workers, timers that went off, handlers of events and callers of
    [ProcessIntent] and [TransitionPhase] run side by side.  A step is a call of
    the state manager, of the queue, or a section under the manager's mutex; while
    an executor works, anything else may happen.  A goroutine that is not a worker
    is gone when it returns. *)
Inductive Goroutine :=
| Idle                                                            (* a worker waits *)
| Taken (r : nat)
| Timed (r : nat)                                                 (* its timer is set *)
| Executing (r : nat)
| Executed (r : nat)
| Finishing (r : nat) (failed : bool)                             (* the timer is to be cancelled *)
| Erring (n : NamespacedName) (phase : ProcessingPhase) (worker : bool)
| Acting (n : NamespacedName) (a : ErrorAction) (worker : bool)
| Planning (n : NamespacedName)
| Enqueuing (t : ExecutionQueue.ExecutionTask)
| Gone.

Record World := mkWorld {
  cm : CoordinationManager;
  goroutines : list Goroutine;
  executed : list nat                                             (* the tasks whose executor was called *)
}.

Definition with_cm (c : CoordinationManager) (w : World) : World := mkWorld c (goroutines w) (executed w).
Definition with_states_of (sm : manager) (w : World) : World := with_cm (with_states sm (cm w)) w.
Definition set_goroutine (i : nat) (g : Goroutine) (w : World) : World := mkWorld (cm w) (<[i := g]> (goroutines w)) (executed w).
Definition spawn (g : Goroutine) (w : World) : World := mkWorld (cm w) (goroutines w ++ [g]) (executed w).
Definition note_executed (r : nat) (w : World) : World := mkWorld (cm w) (goroutines w) (executed w ++ [r]).

Definition home (worker : bool) : Goroutine := if worker then Idle else Gone.
Definition taskOf (w : World) (r : nat) : ExecutionQueue.ExecutionTask := ExecutionQueue.task (ExecutionQueue.heap (executionQueue (cm w))) r.
Definition nameOf (w : World) (r : nat) : NamespacedName := mkName (ExecutionQueue.Namespace (taskOf w r)) (ExecutionQueue.Name (taskOf w r)).
Definition phaseOf (w : World) (r : nat) : ProcessingPhase := ExecutionQueue.Phase (taskOf w r).

(** What other components do to the states: they read and annotate them, the cache
    forgets, and clients change the server, where phases stay among [served]. *)
Inductive others (served : string -> Prop) : manager -> manager -> Prop :=
| other_read k n sm : others served sm (GetIntentState k n sm).1
| other_error lock k now n phase err sm : others served sm (SetPhaseError P lock k now n phase err sm).1
| other_data lock k n phase data sm : others served sm (SetPhaseData P lock k n phase data sm).1
| other_depend lock k now n m sm : others served sm (AddDependency P lock k now n m sm).1
| other_cache c sm : others served sm (with_cache c sm)
| other_server a sm : (forall n i, stored a n = Some i -> served (StatusPhase i)) -> others served sm (with_api a sm).

Inductive step (served : string -> Prop) : World -> World -> Prop :=
| step_others sm w : others served (stateManager (cm w)) sm -> step served w (with_states_of sm w)
| step_register phase ex w : step served w (with_cm (RegisterPhaseExecutor phase ex (cm w)) w)
(** *** [ProcessIntent], called or by an event *)
| step_process n w : step served w (spawn (Planning n) w)
| step_completed e w : step served w
    (spawn (Planning (parseIntentName (SharedEventBus.IntentID e))) (with_cm (cancelPhaseTimeout (SharedEventBus.IntentID e) (cm w)) w))
| step_plan i n k sm plan w : goroutines w !! i = Some (Planning n) -> planTask k n (stateManager (cm w)) = (sm, plan) ->
    step served w (set_goroutine i (match plan with Ok (Some t) => Enqueuing t | _ => Gone end) (with_states_of sm w))
| step_enqueue i t w : goroutines w !! i = Some (Enqueuing t) ->
    step served w (set_goroutine i Gone (with_cm (with_queue (enqueueTask t (executionQueue (cm w))).1 (cm w)) w))
(** *** The queue's processor and the workers *)
| step_queue w : step served w (with_cm (with_queue (ExecutionQueue.processQueue (executionQueue (cm w))) (cm w)) w)
| step_take i eq r w : goroutines w !! i = Some Idle -> ExecutionQueue.receive (executionQueue (cm w)) = (eq, Some r) ->
    step served w (set_goroutine i (Taken r) (with_cm (with_queue eq (cm w)) w))
| step_setup i r w : goroutines w !! i = Some (Taken r) ->
    step served w (set_goroutine i (Timed r) (with_cm (setupPhaseTimeout (String_ (nameOf w r)) (phaseOf w r) (cm w)) w))
| step_prepared i r k c x w : goroutines w !! i = Some (Timed r) -> preparePhase k (nameOf w r) (phaseOf w r) (cm w) = (c, Ok x) ->
    step served w (note_executed r (set_goroutine i (Executing r) (with_cm c w)))
| step_unprepared i r k c e w : goroutines w !! i = Some (Timed r) -> preparePhase k (nameOf w r) (phaseOf w r) (cm w) = (c, Err e) ->
    step served w (set_goroutine i (Finishing r true) (with_cm c w))
| step_executed i r (ok : bool) w : goroutines w !! i = Some (Executing r) ->
    step served w (set_goroutine i (if ok then Executed r else Finishing r true) w)
| step_advance i r k sm res w : goroutines w !! i = Some (Executed r) ->
    advance k (nameOf w r) (phaseOf w r) (stateManager (cm w)) = (sm, res) ->
    step served w (set_goroutine i (Finishing r (negb (is_ok res))) (with_states_of sm w))
| step_finish i r failed w : goroutines w !! i = Some (Finishing r failed) ->
    step served w (set_goroutine i (if failed then Erring (nameOf w r) (phaseOf w r) true else Idle)
                     (with_cm (cancelPhaseTimeout (String_ (nameOf w r)) (cm w)) w))
(** *** Errors, timers and transitions by hand *)
| step_failed e w : step served w
    (spawn (Erring (parseIntentName (SharedEventBus.IntentID e)) (SharedEventBus.Phase e) false)
       (with_cm (cancelPhaseTimeout (SharedEventBus.IntentID e) (cm w)) w))
| step_timer j id phase w : timers (cm w) !! j = Some (Some (id, phase)) ->
    step served w (spawn (Erring (parseIntentName id) phase false)
                     (with_cm (with_timers (activeTimeouts (cm w)) (<[j := None]> (timers (cm w))) (cm w)) w))
| step_decide i n phase b k sm a w : goroutines w !! i = Some (Erring n phase b) ->
    decideError k n phase (strategyOf (cm w) phase) (stateManager (cm w)) = (sm, a) ->
    step served w (set_goroutine i (match a with Ok a => Acting n a b | Err _ => home b end) (with_states_of sm w))
| step_act i n a b k w : goroutines w !! i = Some (Acting n a b) ->
    step served w (set_goroutine i (home b) (with_states_of (doAction k n a (stateManager (cm w))).1 w))
| step_transition n from to k sm r w : isValidTransition from to = true -> to <> PhaseLLMProcessing ->
    checkPhaseDependencies k n to (stateManager (cm w)) = (sm, r) ->
    step served w (spawn (if is_ok r then Acting n (MoveTo to) false else Gone) (with_states_of sm w)).

Definition NewWorld (config : CoordinationConfig) (c : C) (a : A) : World :=
  mkWorld (NewCoordinationManager config (NewStateManager c a)) (replicate (WorkerPoolSize config) Idle) [].

(** ** What the states can be

    [S]: phases of the states the manager holds; [Q]: phases of its tasks. *)
Section phases.
Context (served S Q : string -> Prop).

(** The phases are closed under what the manager does with them. *)
Record closed : Prop := {
  closed_api : forall phase, served (ProcessingPhaseToNetworkIntentPhase P phase);
  closed_served : forall x, served x -> S x;
  closed_ended : S PhaseFailed /\ S PhaseCompleted;
  closed_plan : forall s, S (CurrentPhase s) -> determineNextPhase s = "" \/ Q (determineNextPhase s);
  closed_advance : forall p, Q p -> getNextPhase p = "" \/ S (getNextPhase p)
}.

(** A state that came from the server has no condition but [Ready]. *)
Definition state_ok (s : IntentState) : Prop := S (CurrentPhase s) /\ Forall (λ c, Type_ c = "Ready") (Conditions s).

Definition states_ok (sm : manager) : Prop :=
  Forall state_ok (heap sm) /\ forall n i, stored (api sm) n = Some i -> served (StatusPhase i).

Context (Hclosed : closed).

Lemma converted_ok t i : served (StatusPhase i) -> state_ok (convertToIntentState t i).
Proof using Hclosed.
  intros Hi. split; [by apply (closed_served Hclosed) |]. cbn. destruct (String.eqb _ _); [constructor | by repeat constructor].
Qed.

Lemma get_ok k n sm : states_ok sm -> states_ok (GetIntentState k n sm).1.
Proof using Hclosed.
  intros [Hh Hs]. unfold GetIntentState. destruct (memo_Get _ _ _ (cache sm)) as [c [r |]]; [done |]. cbn [api with_cache].
  pose proof (client_get_spec n (api sm)) as Hg. destruct (client_Get n (api sm)) as [a i]. destruct Hg as [Hst Hi].
  assert (forall m j, stored a m = Some j -> served (StatusPhase j)) as Ha by (intros m j; rewrite Hst; apply Hs).
  destruct i as [i | e]; [| done]. split; [| done]. cbn. apply Forall_app. split; [done |]. apply Forall_singleton.
  apply converted_ok. apply (Hs n). by apply Hi.
Qed.

Lemma read_ok k n sm : states_ok sm -> let '(sm', got) := readState k n sm in
  states_ok sm' /\ forall s, got = Ok s -> state_ok s.
Proof using Hclosed.
  intros Hok. unfold readState. pose proof (get_ok (c_ticks k) n sm Hok) as Hg. destruct (GetIntentState (c_ticks k) n sm) as [sm1 [r | e]]; [| done].
  split; [done |]. destruct (heap sm1 !! r) as [s |] eqn:E; [| done]. intros s' [= <-]. by apply (Forall_lookup_1 _ _ _ _ (proj1 Hg) E).
Qed.

Definition good (f : IntentState -> IntentState * result string unit) : Prop := forall s, state_ok s -> state_ok (f s).1.

Lemma update_ok lock k n f sm : states_ok sm -> good f -> states_ok (UpdateIntentState P lock k n f sm).1.
Proof using Hclosed.
  intros Hok Hf. unfold UpdateIntentState. destruct lock as [[] | e]; [| done].
  pose proof (get_ok k n sm Hok) as Hg. destruct (GetIntentState k n sm) as [sm1 [r | e]]; [| done]. cbn [fst] in Hg.
  destruct Hg as [Hh Hs]. destruct (heap sm1 !! r) as [s |] eqn:E; [| done].
  pose proof (Hf s (Forall_lookup_1 _ _ _ _ Hh E)) as Hs1. destruct (f s) as [s1 u]. cbn [fst] in Hs1.
  assert (forall v t h, Forall state_ok h -> Forall state_ok (<[r := with_modified t (with_version v s1)]> h)) as Hins
    by (intros; by apply Forall_insert).
  destruct u as [[] |]; [| split; [by apply Forall_insert | done]]. cbn [with_heap heap config api].
  rewrite list_insert_insert_eq.
  destruct (if StateValidationEnabled (config sm1) then _ else Ok tt) as [[] |]; [| split; [by apply Hins | done]].
  set (s2 := with_modified (t_modify k) (with_version (nextVersion (Version s1)) s1)).
  pose proof (updateKubernetesState_spec P n s2 (api sm1)) as Hu. destruct (updateKubernetesState P n s2 (api sm1)) as [a [[] | e]].
  - split; [by apply Hins |]. cbn. destruct Hu as [Ho (i & Ei & Ep)]. intros m j Hj. destruct (decide (m = n)) as [-> | Hm].
    + rewrite Ei in Hj. injection Hj as <-. rewrite Ep. apply (closed_api Hclosed).
    + rewrite Ho in Hj by done. by apply (Hs m).
  - split; [cbn; apply (Hins (Version s) (t_modify k)); by apply Hins |]. cbn. intros m j. rewrite Hu. apply Hs.
Qed.

Lemma transition_good now now' p md : S p -> good (transition now now' p md).
Proof. by intros Hp s [_ Hc]. Qed.

Lemma same_good f : (forall s, CurrentPhase (f s).1 = CurrentPhase s /\ Conditions (f s).1 = Conditions s) -> good f.
Proof. intros Hf s [Hp Hc]. destruct (Hf s) as [E1 E2]. split; by rewrite ?E1, ?E2. Qed.

Lemma others_ok sm sm' : others served sm sm' -> states_ok sm -> states_ok sm'.
Proof using Hclosed.
  destruct 1; intros Hok; [by apply get_ok | by apply update_ok, same_good .. | apply update_ok, same_good | exact Hok | by destruct Hok].
  { done. }
  intros s. unfold depend. by destruct (existsb _ _).
Qed.

Lemma moveTo_ok k n p sm : S p -> states_ok sm -> states_ok (moveTo k n p sm).1.
Proof using Hclosed.
  intros Hp Hok. unfold moveTo, update.
  pose proof (update_ok (c_lock k) (c_ticks k) n _ sm Hok (transition_good (c_now k) (c_now' k) p (Some []) Hp)) as Hu.
  by destruct (UpdateIntentState P _ _ n _ sm).
Qed.

Lemma advance_ok k n p sm : Q p \/ p = "" -> states_ok sm -> states_ok (advance k n p sm).1.
Proof using Hclosed.
  intros Hp Hok. unfold advance. destruct (String.eqb_spec (getNextPhase p) ""); [done |]. apply moveTo_ok; [| done].
  destruct Hp as [Hp | ->]; [by destruct (closed_advance Hclosed p Hp) | done].
Qed.

Definition action_ok (a : ErrorAction) : Prop := match a with Retry => True | MoveTo p => S p end.

Lemma decide_ok k n p s sm : es_Type s <> "skip" -> states_ok sm -> let '(sm', a) := decideError k n p s sm in
  states_ok sm' /\ forall x, a = Ok x -> action_ok x.
Proof using Hclosed.
  intros Hskip Hok. destruct (closed_ended Hclosed) as [Hf _]. unfold decideError. destruct (String.eqb (es_Type s) "retry").
  - unfold retryPhase. pose proof (read_ok k n sm Hok) as Hr. destruct (readState k n sm) as [sm1 [st | e]]; (split; [apply Hr |]); [| done].
    intros x [= <-]. by destruct (_ <=? _).
  - rewrite (proj2 (String.eqb_neq _ _) Hskip). split; [done |]. by intros x [= <-].
Qed.

Lemma act_ok k n a sm : action_ok a -> states_ok sm -> states_ok (doAction k n a sm).1.
Proof using Hclosed.
  destruct a as [| p]; intros Ha Hok; [| by apply moveTo_ok]. unfold doAction, update.
  pose proof (update_ok (c_lock k) (c_ticks k) n countRetry sm Hok (same_good countRetry (λ s, conj eq_refl eq_refl))) as Hu.
  by destruct (UpdateIntentState P _ _ n _ sm).
Qed.

Lemma plan_ok k n sm : states_ok sm -> let '(sm', plan) := planTask k n sm in
  states_ok sm' /\ forall t, plan = Ok (Some t) -> Q (ExecutionQueue.Phase t).
Proof using Hclosed.
  intros Hok. unfold planTask. pose proof (read_ok k n sm Hok) as Hr. destruct (readState k n sm) as [sm1 [s | e]]; (split; [apply Hr |]); [| done].
  cbn zeta. destruct (String.eqb_spec (determineNextPhase s) ""); [done |]. intros t [= <-]. cbn.
  destruct (closed_plan Hclosed s (proj1 (proj2 Hr s eq_refl))); done.
Qed.

Lemma dependencies_named : map_Forall (λ _ l, head l <> Some "Ready") dependencies.
Proof. eapply bool_decide_eq_true_1. by vm_compute. Qed.

(** What can be moved to by hand without dependencies. *)
Lemma free_transitions from to : isValidTransition from to = true -> to <> PhaseLLMProcessing -> default [] (dependencies !! to) = [] ->
  to = PhaseFailed \/ to = PhaseCompleted.
Proof.
  assert (map_Forall (λ _ l, Forall (λ to, default [] (dependencies !! to) = [] -> to = PhaseLLMProcessing \/ to = PhaseFailed \/ to = PhaseCompleted) l)
    transitions) as Ht by (eapply bool_decide_eq_true_1; by vm_compute).
  intros Hv Hl Hd. unfold isValidTransition in Hv. destruct (transitions !! from) as [l |] eqn:E; [| done].
  apply existsb_exists in Hv as (x & Hx & Ex). apply String.eqb_eq in Ex as ->. specialize (Ht from l E). cbn in Ht.
  rewrite Forall_forall in Ht. destruct (Ht to (proj2 (list_elem_of_In _ _) Hx) Hd) as [| [|]]; [done | by left | by right].
Qed.

(** The dependencies of a phase are never met: no condition has the name of a phase. *)
Lemma dependencies_refused k n p sm : states_ok sm -> let '(sm', r) := checkPhaseDependencies k n p sm in
  states_ok sm' /\ (r = Ok tt -> default [] (dependencies !! p) = []).
Proof using Hclosed.
  intros Hok. unfold checkPhaseDependencies. destruct (default [] (dependencies !! p)) as [| d ds] eqn:Ed; [done |].
  pose proof (read_ok k n sm Hok) as Hr. destruct (readState k n sm) as [sm1 [s | e]]; (split; [apply Hr |]); [| done].
  destruct (proj2 Hr s eq_refl) as [_ Hc]. enough (isPhaseSatisfied s d = false) as E by (cbn; by rewrite E). apply not_true_iff_false.
  unfold isPhaseSatisfied. rewrite existsb_exists. intros (c & Hin & [E%String.eqb_eq _]%andb_true_iff).
  rewrite Forall_forall in Hc. rewrite (Hc c (proj2 (list_elem_of_In _ _) Hin)) in E. subst d.
  destruct (dependencies !! p) as [l |] eqn:El; [| done]. cbn in Ed. subst l.
  by apply (dependencies_named p _ El).
Qed.

(** ** The goroutines *)

Definition goroutine_ok (g : Goroutine) : Prop :=
  match g with Acting _ a _ => action_ok a | Enqueuing t => Q (ExecutionQueue.Phase t) | _ => True end.

(** Tasks that are delivered and wait for their executor. *)
Definition waiting (g : Goroutine) : list nat := match g with Taken r | Timed r => [r] | _ => [] end.

Definition delivered (w : World) : list nat :=
  executed w ++ ExecutionQueue.channel (executionQueue (cm w)) ++ (goroutines w ≫= waiting).

Abbreviation tasksOf w := (ExecutionQueue.tasks (ExecutionQueue.heap (executionQueue (cm w)))).

Record sound (w : World) : Prop := {
  sound_states : states_ok (stateManager (cm w));
  sound_strategies : forall p s, errorStrategies (cm w) !! p = Some s -> es_Type s <> "skip";
  sound_tasks : Forall (λ t, Q (ExecutionQueue.Phase t)) (tasksOf w);
  sound_goroutines : Forall goroutine_ok (goroutines w);
  sound_queue : ExecutionQueue.queue_inv (executionQueue (cm w));
  sound_once : NoDup (delivered w);
  sound_active : Forall (λ r, ExecutionQueue.activeTasks (executionQueue (cm w)) !! ExecutionQueue.getTaskKey (taskOf w r) = Some r) (delivered w)
}.

Lemma sound_phase w r : sound w -> Q (phaseOf w r) \/ phaseOf w r = "".
Proof.
  intros Hs. unfold phaseOf, taskOf, ExecutionQueue.task. destruct (tasksOf w !! r) as [t |] eqn:E; [left | by right].
  apply (Forall_lookup_1 _ _ _ _ (sound_tasks _ Hs) E).
Qed.

Lemma sound_strategy w p : sound w -> es_Type (strategyOf (cm w) p) <> "skip".
Proof. intros Hs. unfold strategyOf. destruct (_ !! p) eqn:E; [by apply (sound_strategies _ Hs p) | done]. Qed.

(** What leaves the queue, the executed tasks and the strategies alone. *)
Definition aside (w w' : World) : Prop :=
  executionQueue (cm w') = executionQueue (cm w) /\ executed w' = executed w /\ errorStrategies (cm w') = errorStrategies (cm w).

Lemma sound_aside w w' : sound w -> aside w w' -> states_ok (stateManager (cm w')) -> Forall goroutine_ok (goroutines w') ->
  (exists gone, (goroutines w ≫= waiting) ≡ₚ gone ++ (goroutines w' ≫= waiting)) -> sound w'.
Proof.
  intros [H1 H2 H3 H4 H5 H6 H7] (Eq & Ee & Es) Hst Hg [gone Hw]. unfold delivered, taskOf in *.
  split; unfold delivered, taskOf; rewrite ?Eq, ?Ee, ?Es; try done.
  - rewrite Hw in H6. eapply NoDup_app in H6 as (A1 & A2 & A3). apply NoDup_app in A3 as (B1 & B2 & B3).
    apply NoDup_app in B3 as (_ & _ & B3). apply NoDup_app. split; [done |]. split.
    + intros x Hx Hin. apply (A2 x Hx). rewrite !elem_of_app in *. tauto.
    + apply NoDup_app. split; [done |]. split; [| done]. intros x Hx Hin. apply (B2 x Hx). rewrite elem_of_app. by right.
  - rewrite Hw, !Forall_app in H7. rewrite !Forall_app. tauto.
Qed.

(** One goroutine moves on, or a new one starts. *)
Lemma sound_set w w' i g g' : sound w -> goroutines w !! i = Some g -> aside w w' -> states_ok (stateManager (cm w')) ->
  goroutines w' = <[i := g']> (goroutines w) -> goroutine_ok g' -> (waiting g' = waiting g \/ waiting g' = []) -> sound w'.
Proof.
  intros Hs Hi Ha Hst Eg Hg Hw. destruct (bind_insert waiting (goroutines w) i g g' Hi) as (l & E1 & E2).
  apply (sound_aside w w' Hs Ha Hst).
  - rewrite Eg. apply Forall_insert; [apply (sound_goroutines _ Hs) | done].
  - rewrite Eg. destruct Hw as [Hw | Hw]; [exists [] | exists (waiting g)]; by rewrite E1, E2, Hw.
Qed.

Lemma sound_spawn w w' g : sound w -> aside w w' -> states_ok (stateManager (cm w')) ->
  goroutines w' = goroutines w ++ [g] -> goroutine_ok g -> waiting g = [] -> sound w'.
Proof.
  intros Hs Ha Hst Eg Hg Hw. apply (sound_aside w w' Hs Ha Hst).
  - rewrite Eg. apply Forall_app. split; [apply (sound_goroutines _ Hs) | by apply Forall_singleton].
  - exists []. rewrite Eg, bind_app. cbn. by rewrite Hw, !app_nil_r.
Qed.

(** A change of the queue that keeps what is delivered, and the fields of tasks. *)
Lemma same_tasks_phase h h' : ExecutionQueue.same_tasks h h' ->
  Forall (λ t, Q (ExecutionQueue.Phase t)) (ExecutionQueue.tasks h) -> Forall (λ t, Q (ExecutionQueue.Phase t)) (ExecutionQueue.tasks h').
Proof.
  intros [Hl Hs] Hf. apply Forall_lookup. intros r t Et. destruct (lookup_lt_is_Some_2 (ExecutionQueue.tasks h) r) as [u Eu];
    [rewrite <- Hl; by eapply lookup_lt_Some |].
  pose proof (Forall_lookup_1 _ _ _ _ Hf Eu) as Hu. cbn in Hu. specialize (Hs r). unfold ExecutionQueue.task in Hs. rewrite Et, Eu in Hs. cbn in Hs.
  unfold ExecutionQueue.set_index in Hs. injection Hs as _ _ Ep _ _ _ _ _ _. by rewrite Ep.
Qed.

Abbreviation activeOf w := (ExecutionQueue.activeTasks (executionQueue (cm w))).
Abbreviation key w r := (ExecutionQueue.getTaskKey (taskOf w r)).

Lemma same_key (h h' : ExecutionQueue.TaskHeap) r : ExecutionQueue.same_tasks h h' ->
  ExecutionQueue.getTaskKey (ExecutionQueue.task h' r) = ExecutionQueue.getTaskKey (ExecutionQueue.task h r).
Proof. intros Hs. exact (ExecutionQueue.same_tasks_refKey h h' r Hs). Qed.

Lemma sound_tick w : sound w -> sound (with_cm (with_queue (ExecutionQueue.processQueue (executionQueue (cm w))) (cm w)) w).
Proof.
  intros [H1 H2 H3 H4 H5 H6 H7]. destruct (ExecutionQueue.processQueue_sends _ H5) as [Hsame Hch].
  pose proof (ExecutionQueue.processQueue_inv _ H5) as H5'. set (eq' := ExecutionQueue.processQueue (executionQueue (cm w))) in *.
  split; [done | done | by apply (same_tasks_phase (ExecutionQueue.heap (executionQueue (cm w)))) | done | done | |];
    unfold delivered, taskOf in *; cbn [cm with_cm with_queue executionQueue executed goroutines] in *.
  - destruct Hch as [[-> _] | (r & -> & _ & Hn)]; [done |]. rewrite <- !app_assoc. cbn [app]. rewrite <- !Permutation_middle.
    apply NoDup_cons. split; [| done]. intros Hin. pose proof (proj1 (Forall_forall _ _) H7 r Hin) as Hr. cbn in Hr.
    unfold ExecutionQueue.keyOf in Hn. congruence.
  - destruct Hch as [[-> ->] | (r & -> & -> & Hn)].
    + eapply Forall_impl; [exact H7 |]. cbn. intros r. by rewrite (same_key _ _ r Hsame).
    + rewrite <- !app_assoc. cbn [app]. rewrite <- !Permutation_middle. apply Forall_cons. rewrite (same_key _ _ r Hsame).
      split; [apply lookup_insert_eq |]. eapply Forall_impl; [exact H7 |]. cbn. intros r' Hr'. rewrite (same_key _ _ r' Hsame).
      rewrite lookup_insert_ne; [done |]. unfold ExecutionQueue.keyOf in *. intros E. congruence.
Qed.

Lemma sound_enqueue t w : Q (ExecutionQueue.Phase t) -> sound w ->
  sound (with_cm (with_queue (enqueueTask t (executionQueue (cm w))).1 (cm w)) w).
Proof.
  intros Ht [H1 H2 H3 H4 H5 H6 H7]. unfold enqueueTask. pose proof (ExecutionQueue.enqueue_new t _ H5) as He.
  destruct (ExecutionQueue.newTask t (executionQueue (cm w))) as [eq1 r] eqn:En. cbn zeta in He.
  destruct (ExecutionQueue.Enqueue r eq1) as [eq' res]. cbn [fst] in *. destruct He as (H5' & Hch & Hact & Hsame & Htasks).
  split; [done | done | | done | done | |]; unfold delivered, taskOf in *; cbn [cm with_cm with_queue executionQueue executed goroutines] in *.
  - apply (same_tasks_phase (ExecutionQueue.heap eq1)); [done |]. rewrite Htasks. apply Forall_app. split; [done | by apply Forall_singleton].
  - by rewrite Hch.
  - rewrite Hch, Hact. eapply Forall_impl; [exact H7 |]. cbn. intros r' Hr'. rewrite (same_key _ _ r' Hsame).
    destruct (ExecutionQueue.ci_active _ _ _ _ H5 _ _ Hr') as [Hlt _].
    assert (ExecutionQueue.task (ExecutionQueue.heap eq1) r' = ExecutionQueue.task (ExecutionQueue.heap (executionQueue (cm w))) r') as ->; [| done].
    unfold ExecutionQueue.task. by rewrite Htasks, lookup_app_l.
Qed.

(** A task goes from the channel to a worker, or from a worker to its executor. *)
Lemma sound_moves w w' : sound w -> ExecutionQueue.heap (executionQueue (cm w')) = ExecutionQueue.heap (executionQueue (cm w)) ->
  activeOf w' = activeOf w -> ExecutionQueue.pendingTasks (executionQueue (cm w')) = ExecutionQueue.pendingTasks (executionQueue (cm w)) ->
  errorStrategies (cm w') = errorStrategies (cm w) -> states_ok (stateManager (cm w')) -> Forall goroutine_ok (goroutines w') ->
  delivered w' ≡ₚ delivered w -> sound w'.
Proof.
  intros [H1 H2 H3 H4 H5 H6 H7] Eh Ea Ep Es Hst Hg Hd.
  split; [done | by rewrite Es | by rewrite Eh | done | unfold ExecutionQueue.queue_inv; by rewrite Eh, Ea, Ep | by rewrite Hd |].
  rewrite Hd, Ea. eapply Forall_impl; [exact H7 |]. intros r. cbn. unfold taskOf. by rewrite Eh.
Qed.

Lemma sound_new config c a : (forall p s, initializeErrorStrategies (ErrorStrategies config) !! p = Some s -> es_Type s <> "skip") ->
  (forall n i, stored a n = Some i -> served (StatusPhase i)) -> sound (NewWorld config c a).
Proof.
  intros Hskip Ha. split; [by split | done | constructor | | apply ExecutionQueue.queue_inv_new | |]; cbn.
  - by apply Forall_replicate.
  - assert (replicate (WorkerPoolSize config) Idle ≫= waiting = []) as E by (clear; induction (WorkerPoolSize config); done).
    unfold delivered. cbn. rewrite E. constructor.
  - assert (replicate (WorkerPoolSize config) Idle ≫= waiting = []) as E by (clear; induction (WorkerPoolSize config); done).
    unfold delivered. cbn. by rewrite E.
Qed.

Lemma prepare_ok k n p c : states_ok (stateManager c) -> let '(c', r) := preparePhase k n p c in
  exists sm, c' = with_states sm c /\ states_ok sm /\ (is_ok r = true -> is_Some (phaseExecutors c !! p)).
Proof using Hclosed.
  intros Hok. unfold preparePhase. destruct (phaseExecutors c !! p) as [ex |]; [| exists (stateManager c); by destruct c].
  unfold GetPhaseData. pose proof (get_ok (c_ticks k) n (stateManager c) Hok) as Hg.
  destruct (GetIntentState (c_ticks k) n (stateManager c)) as [sm [r | e]]; exists sm; [| by split_and!].
  split_and!; [done .. |]. by destruct (Validate _ _ _).
Qed.

Lemma cancel_aside id c : exists m l, cancelPhaseTimeout id c = with_timers m l c.
Proof. unfold cancelPhaseTimeout. destruct (_ !! id); [by eexists _, _ | exists (activeTimeouts c), (timers c); by destruct c]. Qed.

Ltac unchanged := first [done | by split_and! | by left | by right].

Lemma step_sound w w' : step served w w' -> sound w -> sound w'.
Proof using Hclosed.
  intros Hstep Hs. pose proof (sound_states _ Hs) as Hok. destruct Hstep.
  - apply (sound_aside w); [done | done | by eapply others_ok | apply (sound_goroutines _ Hs) | by exists []].
  - apply (sound_aside w); [done | done | done | apply (sound_goroutines _ Hs) | by exists []].
  - by apply (sound_spawn w _ (Planning n)).
  - destruct (cancel_aside (SharedEventBus.IntentID e) (cm w)) as (m & l & ->). by apply (sound_spawn w _ (Planning (parseIntentName (SharedEventBus.IntentID e)))).
  - pose proof (plan_ok k n (stateManager (cm w)) Hok) as Hp. rewrite H2 in Hp. destruct Hp as [Hsm Ht].
    eapply (sound_set w); [done | done | done | done | done | | right; by repeat case_match]. repeat case_match; try done. by apply Ht.
  - pose proof (Forall_lookup_1 _ _ _ _ (sound_goroutines _ Hs) H1) as Hq.
    apply (sound_set _ _ i (Enqueuing t) Gone (sound_enqueue t w Hq Hs)); unchanged.
  - by apply sound_tick.
  - unfold ExecutionQueue.receive in H2. destruct (ExecutionQueue.channel _) as [| r' rest] eqn:Ech; [done |]. simplify_eq.
    destruct (bind_insert waiting (goroutines w) i Idle (Taken r) H1) as (l & E1 & E2).
    apply (sound_moves w); try done; [apply Forall_insert; [apply (sound_goroutines _ Hs) | done] |].
    unfold delivered. cbn [cm with_cm set_goroutine with_queue executionQueue executed goroutines ExecutionQueue.channel ExecutionQueue.with_channel].
    rewrite Ech, E1, E2. cbn. solve_Permutation.
  - apply (sound_set w _ i (Taken r) (Timed r)); unchanged.
  - pose proof (prepare_ok k (nameOf w r) (phaseOf w r) (cm w) Hok) as Hp. rewrite H2 in Hp. destruct Hp as (sm & -> & Hsm & _).
    destruct (bind_insert waiting (goroutines w) i (Timed r) (Executing r) H1) as (l & E1 & E2).
    apply (sound_moves w); try done; [apply Forall_insert; [apply (sound_goroutines _ Hs) | done] |].
    unfold delivered. cbn [cm with_cm set_goroutine note_executed with_states executionQueue executed goroutines]. rewrite E1, E2. cbn. solve_Permutation.
  - pose proof (prepare_ok k (nameOf w r) (phaseOf w r) (cm w) Hok) as Hp. rewrite H2 in Hp. destruct Hp as (sm & -> & Hsm & _).
    apply (sound_set w _ i (Timed r) (Finishing r true)); unchanged.
  - apply (sound_set w _ i (Executing r) (if ok then Executed r else Finishing r true)); destruct ok; unchanged.
  - pose proof (advance_ok k (nameOf w r) (phaseOf w r) (stateManager (cm w)) (sound_phase w r Hs) Hok) as Ha. rewrite H2 in Ha.
    apply (sound_set w _ i (Executed r) (Finishing r (negb (is_ok res)))); unchanged.
  - destruct (cancel_aside (String_ (nameOf w r)) (cm w)) as (m & l & ->).
    apply (sound_set w _ i (Finishing r failed) (if failed then Erring (nameOf w r) (phaseOf w r) true else Idle)); destruct failed; unchanged.
  - destruct (cancel_aside (SharedEventBus.IntentID e) (cm w)) as (m & l & ->).
    by apply (sound_spawn w _ (Erring (parseIntentName (SharedEventBus.IntentID e)) (SharedEventBus.Phase e) false)).
  - by apply (sound_spawn w _ (Erring (parseIntentName id) phase false)).
  - pose proof (decide_ok k n phase (strategyOf (cm w) phase) (stateManager (cm w)) (sound_strategy w phase Hs) Hok) as Hd. rewrite H2 in Hd.
    destruct Hd as [Hsm Ha]. apply (sound_set w _ i (Erring n phase b) (match a with Ok a => Acting n a b | Err _ => home b end)); try unchanged.
    + destruct a; [by apply Ha | by destruct b].
    + right. destruct a; [done | by destruct b].
  - pose proof (Forall_lookup_1 _ _ _ _ (sound_goroutines _ Hs) H1) as Ha.
    apply (sound_set w _ i (Acting n a b) (home b)); try unchanged; [by apply act_ok | by destruct b | right; by destruct b].
  - pose proof (dependencies_refused k n to (stateManager (cm w)) Hok) as Hd. rewrite H3 in Hd. destruct Hd as [Hsm Hr].
    apply (sound_spawn w _ (if is_ok r then Acting n (MoveTo to) false else Gone)); try unchanged; [| by destruct (is_ok r)].
    destruct r as [[] |]; [| done]. cbn. destruct (closed_ended Hclosed) as [Hf Hcm]. specialize (Hr eq_refl).
    enough (to = PhaseFailed \/ to = PhaseCompleted) as [-> | ->]; [done .. |]. by apply (free_transitions from).
Qed.

Lemma steps_sound w w' : rtc (step served) w w' -> sound w -> sound w'.
Proof using Hclosed. induction 1 as [| x y z Hs _ IH]; [done |]. intros Hw. by apply IH, (step_sound x). Qed.
End phases.

(** ** What runs, and how often *)

(** Keys of executed tasks are under different names in the map of active tasks. *)
Lemma sound_executed served S Q w : sound served S Q w ->
  Forall (λ r, Q (phaseOf w r)) (executed w) /\ NoDup ((λ r, (nameOf w r, phaseOf w r)) <$> executed w).
Proof.
  intros Hs. pose proof (sound_once _ _ _ _ Hs) as Hn. pose proof (sound_active _ _ _ _ Hs) as Ha. unfold delivered in Hn, Ha.
  apply NoDup_app in Hn as (Hn & _ & _). apply Forall_app in Ha as [Ha _]. rewrite Forall_forall in Ha. split.
  - apply Forall_forall. intros r Hr. specialize (Ha r Hr). cbn in Ha.
    destruct (ExecutionQueue.ci_active _ _ _ _ (sound_queue _ _ _ _ Hs) _ _ Ha) as [Hlt _].
    destruct (lookup_lt_is_Some_2 _ _ Hlt) as [t Et]. pose proof (Forall_lookup_1 _ _ _ _ (sound_tasks _ _ _ _ Hs) Et) as Hq.
    unfold phaseOf, taskOf, ExecutionQueue.task. by rewrite Et.
  - apply NoDup_fmap_2_strong; [| done]. intros r r' Hr Hr' E. pose proof (Ha r Hr) as E1. pose proof (Ha r' Hr') as E2. cbn in E1, E2.
    unfold nameOf, phaseOf in E. injection E as En Em Ep. unfold ExecutionQueue.getTaskKey in E1, E2. rewrite En, Em, Ep in E1. congruence.
Qed.

Lemma no_skip config p s : (forall p s, ErrorStrategies config !! p = Some s -> es_Type s <> "skip") ->
  initializeErrorStrategies (ErrorStrategies config) !! p = Some s -> es_Type s <> "skip".
Proof.
  intros Hc. unfold initializeErrorStrategies. generalize (ErrorStrategies config), Hc.
  generalize [PhaseLLMProcessing; PhaseResourcePlanning; PhaseManifestGeneration; PhaseGitOpsCommit; PhaseDeploymentVerification].
  clear. induction l as [| x l IH]; intros m Hm; cbn; [apply Hm |]. apply IH. intros p' s'.
  destruct (m !! x) eqn:E; [apply Hm |]. intros [[_ <-] | [_ Hl]]%lookup_insert_Some; [done | by apply (Hm p')].
Qed.

(** What [determineNextPhase] answers. *)
Lemma determined s : determineNextPhase s = "" \/ determineNextPhase s = PhaseFailed \/
  (transitions !! CurrentPhase s = None -> determineNextPhase s = PhaseFailed) /\ determineNextPhase s = getNextPhase (CurrentPhase s).
Proof.
  unfold determineNextPhase, getNextPhase. destruct (_ || _); [by left |]. right.
  destruct (transitions !! CurrentPhase s) as [[| p l] |]; [by left | by right | by left].
Qed.

Definition steps_of_pipeline : list (ProcessingPhase * ProcessingPhase) :=
  [(PhaseIntentReceived, PhaseLLMProcessing); (PhaseLLMProcessing, PhaseResourcePlanning); (PhaseResourcePlanning, PhaseManifestGeneration);
   (PhaseManifestGeneration, PhaseGitOpsCommit); (PhaseGitOpsCommit, PhaseDeploymentVerification); (PhaseDeploymentVerification, PhaseCompleted)].

Lemma next_phases : map_Forall (λ p l, (p, default "" (head l)) ∈ steps_of_pipeline \/ head l = None) transitions.
Proof. eapply bool_decide_eq_true_1. by vm_compute. Qed.

Lemma next_of p : getNextPhase p = "" \/ (p, getNextPhase p) ∈ steps_of_pipeline.
Proof.
  unfold getNextPhase. destruct (transitions !! p) as [l |] eqn:E; [| by left]. pose proof (next_phases p _ E) as Hn. cbn in Hn |- *.
  destruct l as [| q l]; [by left | right]. by destruct Hn.
Qed.

Definition API_closed (served : string -> Prop) : Prop := forall phase, served (ProcessingPhaseToNetworkIntentPhase P phase).


(** Intents as the server has them: when the phases on the server are the
    API's, none of which is a phase of the pipeline, every task the manager makes is
    for the phase [Failed], so that no executor of the pipeline is ever called, and
    the only phases it gives to intents are [Failed] and, by hand, [Completed]. *)
Theorem served_intents_only_fail served config c a w : API_closed served ->
  (forall x, served x -> getNextPhase x = "") ->
  (forall p s, ErrorStrategies config !! p = Some s -> es_Type s <> "skip") ->
  (forall n i, stored a n = Some i -> served (StatusPhase i)) -> rtc (step served) (NewWorld config c a) w ->
  Forall (λ r, phaseOf w r = PhaseFailed) (executed w) /\
  Forall (λ t, ExecutionQueue.Phase t = PhaseFailed) (ExecutionQueue.tasks (ExecutionQueue.heap (executionQueue (cm w)))) /\
  Forall (λ s, served (CurrentPhase s) \/ CurrentPhase s = PhaseFailed \/ CurrentPhase s = PhaseCompleted) (heap (stateManager (cm w))).
Proof.
  intros Hapi Hx Hskip Ha Hr. set (Q p := p = PhaseFailed). set (S p := served p \/ p = PhaseFailed \/ p = PhaseCompleted).
  assert (closed served S Q) as Hcl.
  { split; [done | by left | unfold S; tauto | |].
    - intros s Hs. destruct (determined s) as [-> | [-> | [_ ->]]]; [by left | by right | left].
      destruct Hs as [Hs | [-> | ->]]; [by apply Hx | done | done].
    - intros p ->. by left. }
  pose proof (steps_sound served S Q Hcl _ _ Hr (sound_new served S Q config c a (λ p s, no_skip config p s Hskip) Ha)) as Hs.
  split_and!; [by apply (sound_executed served S Q w) | apply (sound_tasks _ _ _ _ Hs) |].
  eapply Forall_impl; [apply (sound_states _ _ _ _ Hs) |]. by intros s [? _].
Qed.

(** ** A task as a function

    [executeTask] is what a worker's steps do to a task when nothing else runs
    meanwhile but what the executor itself does to the states. *)
Section sequential.
Context (served : string -> Prop) (w : World) (i r : nat) (ks : nat -> Call).
Hypothesis taken : goroutines w !! i = Some (Taken r).

#[local] Abbreviation n := (nameOf w r).
#[local] Abbreviation p := (phaseOf w r).

Definition at_ (c : CoordinationManager) (g : Goroutine) (ex : list nat) : World := mkWorld c (<[i := g]> (goroutines w)) ex.

Lemma at_set c c' g g' ex : set_goroutine i g' (with_cm c' (at_ c g ex)) = at_ c' g' ex.
Proof. unfold set_goroutine, at_. cbn. by rewrite list_insert_insert_eq. Qed.

Lemma at_lookup c g ex : goroutines (at_ c g ex) !! i = Some g.
Proof using taken. cbn. apply list_lookup_insert_eq. by eapply lookup_lt_Some. Qed.

Lemma at_task c g ex : executionQueue c = executionQueue (cm w) -> nameOf (at_ c g ex) r = n /\ phaseOf (at_ c g ex) r = p.
Proof. intros E. unfold nameOf, phaseOf, taskOf. cbn. by rewrite E. Qed.

(** The end of a task: the timer, and the error if there is one. *)
Definition concluded (c : CoordinationManager) (res : result CoordinationError unit) : CoordinationManager :=
  let c := cancelPhaseTimeout (String_ n) c in
  match res with
  | Ok _ => c
  | Err _ => with_states (handlePhaseError (ks 2%nat) (ks 3%nat) n p (strategyOf c p) (stateManager c)).1 c
  end.

Lemma conclude_run c res ex : executionQueue c = executionQueue (cm w) ->
  rtc (step served) (at_ c (Finishing r (negb (is_ok res))) ex) (at_ (concluded c res) Idle ex).
Proof using taken.
  intros Eq. destruct (at_task c (Finishing r (negb (is_ok res))) ex Eq) as [En Ep].
  pose proof (step_finish served i r _ _ (at_lookup c (Finishing r (negb (is_ok res))) ex)) as Hf. rewrite En, Ep, at_set in Hf.
  eapply rtc_l; [exact Hf |]. cbn [cm at_]. unfold concluded. destruct res as [u | e]; cbn [is_ok negb]; [reflexivity |].
  set (c1 := cancelPhaseTimeout (String_ n) c). unfold handlePhaseError.
  destruct (decideError (ks 2%nat) n p (strategyOf c1 p) (stateManager c1)) as [sm a] eqn:Ed.
  pose proof (step_decide served i n p true (ks 2%nat) sm a _ (at_lookup c1 (Erring n p true) ex) Ed) as Hd.
  unfold with_states_of in Hd. rewrite at_set in Hd. eapply rtc_l; [exact Hd |]. destruct a as [a | e']; [| reflexivity].
  pose proof (step_act served i n a true (ks 3%nat) _ (at_lookup (with_states sm (cm (at_ c1 (Erring n p true) ex))) (Acting n a true) ex)) as Ha.
  unfold with_states_of in Ha. rewrite at_set in Ha. exact (rtc_once _ _ Ha).
Qed.

Lemma others_run c g ex sm : rtc (others served) (stateManager c) sm -> rtc (step served) (at_ c g ex) (at_ (with_states sm c) g ex).
Proof.
  intros Hr. remember (stateManager c) as sm0 eqn:E. revert c E. induction Hr as [| x y z Ho _ IH]; intros c E; subst; [by destruct c |].
  eapply rtc_l; [by apply (step_others served y (at_ c g ex)) |]. exact (IH (with_states y c) eq_refl).
Qed.

End sequential.

(** ** A scheduler

    Runs of chosen goroutines, as a function. *)
Inductive Choice :=
| Register (phase : ProcessingPhase) (ex : PhaseExecutor)
| Process (n : NamespacedName)
| Tick
| Run (i : nat) (k : Call).

Definition choose (ch : Choice) (w : World) : option World :=
  match ch with
  | Register phase ex => Some (with_cm (RegisterPhaseExecutor phase ex (cm w)) w)
  | Process n => Some (spawn (Planning n) w)
  | Tick => Some (with_cm (with_queue (ExecutionQueue.processQueue (executionQueue (cm w))) (cm w)) w)
  | Run i k =>
      match goroutines w !! i with
      | Some (Planning n) =>
          let '(sm, plan) := planTask k n (stateManager (cm w)) in
          Some (set_goroutine i (match plan with Ok (Some t) => Enqueuing t | _ => Gone end) (with_states_of sm w))
      | Some (Enqueuing t) => Some (set_goroutine i Gone (with_cm (with_queue (enqueueTask t (executionQueue (cm w))).1 (cm w)) w))
      | Some Idle =>
          match ExecutionQueue.receive (executionQueue (cm w)) with
          | (eq, Some r) => Some (set_goroutine i (Taken r) (with_cm (with_queue eq (cm w)) w))
          | _ => None
          end
      | Some (Taken r) => Some (set_goroutine i (Timed r) (with_cm (setupPhaseTimeout (String_ (nameOf w r)) (phaseOf w r) (cm w)) w))
      | Some (Timed r) =>
          match preparePhase k (nameOf w r) (phaseOf w r) (cm w) with
          | (c, Ok _) => Some (note_executed r (set_goroutine i (Executing r) (with_cm c w)))
          | (c, Err _) => Some (set_goroutine i (Finishing r true) (with_cm c w))
          end
      | Some (Executing r) => Some (set_goroutine i (Executed r) w)
      | Some (Executed r) =>
          let '(sm, res) := advance k (nameOf w r) (phaseOf w r) (stateManager (cm w)) in
          Some (set_goroutine i (Finishing r (negb (is_ok res))) (with_states_of sm w))
      | Some (Finishing r failed) =>
          Some (set_goroutine i (if failed then Erring (nameOf w r) (phaseOf w r) true else Idle)
                  (with_cm (cancelPhaseTimeout (String_ (nameOf w r)) (cm w)) w))
      | Some (Erring n phase b) =>
          let '(sm, a) := decideError k n phase (strategyOf (cm w) phase) (stateManager (cm w)) in
          Some (set_goroutine i (match a with Ok a => Acting n a b | Err _ => home b end) (with_states_of sm w))
      | Some (Acting n a b) => Some (set_goroutine i (home b) (with_states_of (doAction k n a (stateManager (cm w))).1 w))
      | _ => None
      end
  end.

Fixpoint schedule (l : list Choice) (w : World) : option World :=
  match l with [] => Some w | ch :: l => choose ch w ≫= schedule l end.

Lemma choose_step served ch w w' : choose ch w = Some w' -> step served w w'.
Proof.
  destruct ch as [phase ex | n | | i k]; cbn [choose]; [intros [= <-]; constructor .. |].
  destruct (goroutines w !! i) as [g |] eqn:E; [| done]. destruct g; try done.
  - destruct (ExecutionQueue.receive _) as [eq [r |]] eqn:Er; [| done]. intros [= <-]. by apply step_take.
  - intros [= <-]. by apply step_setup.
  - destruct (preparePhase _ _ _ _) as [c' [x | e]] eqn:Ep; intros [= <-]; [by eapply step_prepared | by eapply step_unprepared].
  - intros [= <-]. by apply (step_executed served i r true).
  - destruct (advance _ _ _ _) as [sm res] eqn:Ea. intros [= <-]. by eapply step_advance.
  - intros [= <-]. by apply step_finish.
  - destruct (decideError _ _ _ _ _) as [sm a] eqn:Ed. intros [= <-]. by eapply step_decide.
  - intros [= <-]. by eapply step_act.
  - destruct (planTask _ _ _) as [sm plan] eqn:Ep. intros [= <-]. by eapply step_plan.
  - intros [= <-]. by apply step_enqueue.
Qed.

Lemma schedule_steps served l w w' : schedule l w = Some w' -> rtc (step served) w w'.
Proof.
  revert w. induction l as [| ch l IH]; intros w; cbn [schedule]; [by intros [= <-] |].
  destruct (choose ch w) as [w1 |] eqn:E; [| done]. intros Hl. eapply rtc_l; [by eapply choose_step | by apply IH].
Qed.
End coordination.

(** ** The properties on the server of [StateManager] *)

#[local] Abbreviation DemoWorld := (World (A := Server) (C := StateCache.StateCache)).

Definition demo_call (t : Time) : Call := mkCall (Ok tt) (ticks t) t t.
Definition demo_executor : PhaseExecutor (A := Server) (C := StateCache.StateCache) :=
  mkExecutor (λ _ _, Ok tt) (λ _ _ _ sm, (sm, Ok tt)).
Definition one_worker : CoordinationConfig := mkCoordinationConfig (5 * Minute) 1 10 ∅.

(** An intent whose phase on the server is [x]; executors for all phases of the
    pipeline, which succeed; and rounds in which the intent is processed and the
    worker does what there is to do. *)
Definition demo_intent (x : string) : Server := ({[demo_name := mkIntent demo_name "7" 5 ∅ x "" 0]}, []).
Definition demo_world (x : string) : DemoWorld := NewWorld one_worker (StateCache.NewStateCache 10000 (30 * Minute)) (demo_intent x).

Definition registrations : list (Choice (A := Server) (C := StateCache.StateCache)) :=
  (λ p, Register p demo_executor) <$>
    [PhaseLLMProcessing; PhaseResourcePlanning; PhaseManifestGeneration; PhaseGitOpsCommit; PhaseDeploymentVerification].
Definition round (j : nat) (worker : nat) : list (Choice (A := Server) (C := StateCache.StateCache)) :=
  [Process demo_name; Run j (demo_call 10); Run j (demo_call 10); Tick] ++ replicate worker (Run 0 (demo_call 10)).

Definition pipeline : list (Choice (A := Server) (C := StateCache.StateCache)) := registrations ++ round 1 6 ++ round 2 6 ++ round 3 6.
Definition failing : list (Choice (A := Server) (C := StateCache.StateCache)) := registrations ++ round 1 6.

Definition finish (l : list (Choice (A := Server) (C := StateCache.StateCache))) (w : DemoWorld) : DemoWorld :=
  default w (schedule demo_phases l w).

Lemma finish_run served l w : is_Some (schedule demo_phases l w) -> rtc (step demo_phases served) w (finish l w).
Proof. intros [w' E]. unfold finish. rewrite E. by eapply schedule_steps. Qed.

Definition api_phase (x : string) : Prop := x ∈ ["Pending"; "Processing"; "Deploying"; "Active"; "Deployed"; "Failed"; ""].

Lemma demo_api : API_closed demo_phases api_phase.
Proof. intros phase. unfold ProcessingPhaseToNetworkIntentPhase, api_phase. repeat case_match; in_solve. Qed.

Lemma demo_served x n i : stored (demo_intent x) n = Some i -> StatusPhase i = x.
Proof.
  unfold stored, server_api, demo_intent. cbn [fst].
  destruct (decide (n = demo_name)) as [-> | Hn]; [| by rewrite lookup_singleton_ne by done].
  rewrite lookup_singleton_eq. cbn. case_decide; [| done]. by intros [= <-].
Qed.

Lemma no_strategies p s : ErrorStrategies one_worker !! p = Some s -> es_Type s <> "skip".
Proof. cbn. by rewrite lookup_empty. Qed.


(** From a fresh intent, whose phase is empty, the first round ends in [Failed]. *)
Lemma served_intents_only_fail_witness :
  let w := finish failing (demo_world "") in
  API_closed demo_phases api_phase /\ (forall x, api_phase x -> getNextPhase x = "") /\
  rtc (step demo_phases api_phase) (demo_world "") w /\
  Forall (λ r, phaseOf w r = PhaseFailed) (executed w) /\
  length (ExecutionQueue.tasks (ExecutionQueue.heap (executionQueue (cm w)))) = 1%nat /\
  CurrentPhase <$> heap (stateManager (cm w)) = [PhaseFailed].
Proof.
  intros w.
  assert (Hx : forall x, api_phase x -> getNextPhase x = "") by (intros x Hx; in_cases Hx; by vm_compute).
  assert (Hr : rtc (step demo_phases api_phase) (demo_world "") w) by (apply finish_run, is_Some_alt; by vm_compute).
  assert (Ha : forall n i, stored (demo_intent "") n = Some i -> api_phase (StatusPhase i))
    by (intros n i Hi; rewrite (demo_served _ _ _ Hi); unfold api_phase; in_solve).
  destruct (served_intents_only_fail demo_phases api_phase one_worker _ _ w demo_api Hx no_strategies Ha Hr) as (He & _).
  split; [exact demo_api |]. split; [exact Hx |]. split; [exact Hr |]. split; [exact He |]. split; by vm_compute.
Defined.

(** Timers are kept under the name of the intent: with two tasks of one intent, the
    end of the first stops the timer of the second, and the first one's goes off
    when its task is done. *)
Example wrong_timer_stopped :
  let c := NewCoordinationManager one_worker (demo_manager []) in
  let c := setupPhaseTimeout "default/slice" PhaseGitOpsCommit (setupPhaseTimeout "default/slice" PhaseLLMProcessing c) in
  timers (cancelPhaseTimeout "default/slice" (cancelPhaseTimeout "default/slice" c)) = [Some ("default/slice", PhaseLLMProcessing); None].
Proof. by vm_compute. Qed.

(** A retry counts, and nothing else: the task is not put into the queue again. *)
Example retry_only_counts :
  let c := (ProcessIntent (demo_call 10) demo_name (cm (demo_world PhaseIntentReceived))).1 in
  let c' := executeTask demo_phases (λ _, demo_call 10) demo_name PhaseLLMProcessing c in
  RetryCount <$> heap (stateManager c') = [1] /\ CurrentPhase <$> heap (stateManager c') = [PhaseIntentReceived] /\
  executionQueue c' = executionQueue c.
Proof. by vm_compute. Qed.

