(* ===== verification/Rbac.v ===== *)
(** * Rbac: role-based access control

    Follows pkg/auth/rbac.go (and the user data of
    pkg/auth/providers/interfaces.go it reads).  The manager's maps are
    [gmap]s, roles and permissions are values (callers are taken not to write
    to a role they have handed over or to a returned permission list), and
    operations take the instants [time.Now] returns.  The policies of the
    source are declared but never read: [evaluatePolicies] allows.  [RWMutex]
    at the end is the locking of [CheckAccess] alone. *)

From S2P Require Import Prelude GoStrings.
From Stdlib Require Import Ascii.
Local Open Scope Z_scope.

Record Role := mkRole {
  role_ID : string;
  role_Name : string;
  role_Description : string;
  role_Permissions : list string;
  role_CreatedAt : Time;
  role_UpdatedAt : Time;
  ParentRoles : list string;
  ChildRoles : list string
}.

Record Permission := mkPermission {
  perm_ID : string;
  perm_Name : string;
  perm_Description : string;
  Resource : string;
  Action : string;
  perm_CreatedAt : Time;
  perm_UpdatedAt : Time
}.

Record RBACCache := mkRBACCache {
  userPermissions : gmap string (list string);
  lastUpdated : Time
}.

Record RBACManager := mkManager {
  roles : gmap string Role;
  permissions : gmap string Permission;
  userRoles : gmap string (list string);
  cache : RBACCache;
  cacheTTL : Duration
}.

(** [time.Time{}], before any instant of the program. *)

(** ** Predefined roles and permissions; [now] is the start of the program *)

Definition defaultRole (now : Time) (id name desc : string) (ps : list string) : Role :=
  mkRole id name desc ps now now [] [].

Definition SystemAdminRole (now : Time) : Role :=
  defaultRole now "system-admin" "System Administrator" "Full system access with all privileges"
    ["system:*"; "intent:*"; "e2:*"; "auth:*"; "config:*"; "monitoring:*"; "user:*"; "rbac:*"].

Definition IntentOperatorRole (now : Time) : Role :=
  defaultRole now "intent-operator" "Intent Operator" "Manage network intents and deployments"
    ["intent:create"; "intent:read"; "intent:update"; "intent:delete"; "intent:deploy"; "e2:read";
     "config:read"; "monitoring:read"].

Definition E2ManagerRole (now : Time) : Role :=
  defaultRole now "e2-manager" "E2 Interface Manager"
    "Manage E2 interface connections and service models"
    ["e2:create"; "e2:read"; "e2:update"; "e2:delete"; "e2:subscribe"; "e2:control";
     "monitoring:read"].

Definition ReadOnlyRole (now : Time) : Role :=
  defaultRole now "read-only" "Read Only User" "Read-only access to system resources"
    ["intent:read"; "e2:read"; "config:read"; "monitoring:read"].

(** Identifier, name, resource and action. *)
Definition NephoranPermissions : list (string * string * string * string) :=
  [("system:admin", "System Administration", "system", "*");
   ("system:config", "System Configuration", "system", "config");
   ("intent:create", "Create Intent", "intent", "create");
   ("intent:read", "Read Intent", "intent", "read");
   ("intent:update", "Update Intent", "intent", "update");
   ("intent:delete", "Delete Intent", "intent", "delete");
   ("intent:deploy", "Deploy Intent", "intent", "deploy");
   ("e2:create", "Create E2 Connection", "e2", "create");
   ("e2:read", "Read E2 Data", "e2", "read");
   ("e2:update", "Update E2 Configuration", "e2", "update");
   ("e2:delete", "Delete E2 Connection", "e2", "delete");
   ("e2:subscribe", "Subscribe to E2 Events", "e2", "subscribe");
   ("e2:control", "Control E2 Functions", "e2", "control");
   ("config:read", "Read Configuration", "config", "read");
   ("config:write", "Write Configuration", "config", "write");
   ("monitoring:read", "Read Monitoring Data", "monitoring", "read");
   ("monitoring:write", "Write Monitoring Config", "monitoring", "write");
   ("auth:read", "Read Auth Configuration", "auth", "read");
   ("auth:write", "Write Auth Configuration", "auth", "write");
   ("auth:manage", "Manage Authentication", "auth", "manage");
   ("user:read", "Read User Data", "user", "read");
   ("user:write", "Write User Data", "user", "write");
   ("user:manage", "Manage Users", "user", "manage");
   ("rbac:read", "Read RBAC Configuration", "rbac", "read");
   ("rbac:write", "Write RBAC Configuration", "rbac", "write");
   ("rbac:manage", "Manage RBAC", "rbac", "manage")].

Definition defaultPermission (now : Time) (p : string * string * string * string) : Permission :=
  let '(id, name, res, act) := p in
  mkPermission id name ("Permission to " +:+ act +:+ " on " +:+ res) res act now now.

Definition initializeDefaults (now : Time) (r : RBACManager) : RBACManager :=
  mkManager
    (foldl (λ m ro, <[role_ID ro := ro]> m) (roles r)
       [SystemAdminRole now; IntentOperatorRole now; E2ManagerRole now; ReadOnlyRole now])
    (foldl (λ m p, <[perm_ID p := p]> m) (permissions r) (defaultPermission now <$> NephoranPermissions))
    (userRoles r) (cache r) (cacheTTL r).

Definition NewRBACManager (cacheTTL : option Duration) (now : Time) : RBACManager :=
  initializeDefaults now
    (mkManager ∅ ∅ ∅ (mkRBACCache ∅ zeroTime) (default (15 * Minute) cacheTTL)).

(** ** The cache *)

Definition with_cache (k : RBACCache) (r : RBACManager) : RBACManager :=
  mkManager (roles r) (permissions r) (userRoles r) k (cacheTTL r).

Definition with_roles (m : gmap string Role) (r : RBACManager) : RBACManager :=
  mkManager m (permissions r) (userRoles r) (cache r) (cacheTTL r).

Definition with_permissions (m : gmap string Permission) (r : RBACManager) : RBACManager :=
  mkManager (roles r) m (userRoles r) (cache r) (cacheTTL r).

Definition with_userRoles (m : gmap string (list string)) (r : RBACManager) : RBACManager :=
  mkManager (roles r) (permissions r) m (cache r) (cacheTTL r).

Definition invalidateUserCache (userID : string) (r : RBACManager) : RBACManager :=
  with_cache (mkRBACCache (delete userID (userPermissions (cache r))) (lastUpdated (cache r))) r.

Definition invalidateAllCache (r : RBACManager) : RBACManager :=
  with_cache (mkRBACCache ∅ zeroTime) r.

(** ** Roles of users *)

Inductive RBACError :=
| RoleDoesNotExist (id : string)
| RoleAlreadyExists (id : string)
| RoleIDEmpty
| PermissionDoesNotExist (id : string)
| PermissionAlreadyExists (id : string)
| PermissionIDEmpty
| UserDoesNotHaveRole (user role : string).

(** A user's roles; a missing entry reads as the nil slice. *)
Definition rolesOf (r : RBACManager) (userID : string) : list string :=
  default [] (userRoles r !! userID).

Definition GrantRoleToUser (userID roleID : string) (r : RBACManager)
  : RBACManager * result RBACError unit :=
  match roles r !! roleID with
  | None => (r, Err (RoleDoesNotExist roleID))
  | Some _ =>
      if bool_decide (roleID ∈ rolesOf r userID) then (r, Ok tt)
      else
        (invalidateUserCache userID
           (with_userRoles (<[userID := rolesOf r userID ++ [roleID]]> (userRoles r)) r), Ok tt)
  end.

(** The slice without the first occurrence of a role; [None] if there is
    none. *)
Fixpoint removeFirst (roleID : string) (l : list string) : option (list string) :=
  match l with
  | [] => None
  | x :: l =>
      if String.eqb x roleID then Some l else option_map (cons x) (removeFirst roleID l)
  end.

Definition RevokeRoleFromUser (userID roleID : string) (r : RBACManager)
  : RBACManager * result RBACError unit :=
  match removeFirst roleID (rolesOf r userID) with
  | Some l => (invalidateUserCache userID (with_userRoles (<[userID := l]> (userRoles r)) r), Ok tt)
  | None => (r, Err (UserDoesNotHaveRole userID roleID))
  end.

Definition GetUserRoles (userID : string) (r : RBACManager) : list string := rolesOf r userID.

(** ** Permissions of users *)

(** The permissions of a role that are not in the set yet, in order. *)
Fixpoint addPermissions (ps acc : list string) : list string :=
  match ps with
  | [] => acc
  | p :: ps => addPermissions ps (if bool_decide (p ∈ acc) then acc else acc ++ [p])
  end.

Fixpoint collectPermissions (m : gmap string Role) (rs acc : list string) : list string :=
  match rs with
  | [] => acc
  | id :: rs =>
      collectPermissions m rs
        (match m !! id with
         | Some role => addPermissions (role_Permissions role) acc
         | None => acc
         end)
  end.

Definition calculateUserPermissions (r : RBACManager) (userID : string) : list string :=
  merge_sort String.le (collectPermissions (roles r) (rolesOf r userID) []).

(** [t1] and [t2]: the clock when the cache is looked at and when the result
    is stored. *)
Definition GetUserPermissions (userID : string) (t1 t2 : Time) (r : RBACManager)
  : RBACManager * list string :=
  let calculate :=
    let ps := calculateUserPermissions r userID in
    (with_cache (mkRBACCache (<[userID := ps]> (userPermissions (cache r))) t2) r, ps) in
  match userPermissions (cache r) !! userID with
  | Some cached =>
      if time_Sub t1 (lastUpdated (cache r)) <? cacheTTL r then (r, cached) else calculate
  | None => calculate
  end.

Definition matchesPermission (granted required : string) : bool :=
  if String.eqb granted "*" || String.eqb granted required then true
  else if HasSuffix granted ":*" then
    let grantedResource := TrimSuffix granted ":*" in
    match SplitN2 ":" required with
    | [res; _] => String.eqb res grantedResource
    | _ => false
    end
  else false.

Definition CheckPermission (userID permission : string) (t1 t2 : Time) (r : RBACManager)
  : RBACManager * bool :=
  let '(r, ps) := GetUserPermissions userID t1 t2 r in
  (r, existsb (λ p, matchesPermission p permission) ps).

(** ** Access decisions *)

Record AccessRequest := mkRequest {
  UserID : string;
  req_Resource : string;
  req_Action : string
}.

Record AccessDecision := mkDecision {
  Allowed : bool;
  Reason : string;
  MissingPermissions : list string;
  EvaluatedAt : Time;
  Metadata : option (list string * string)
}.

Definition evaluatePolicies (d : AccessDecision) : AccessDecision :=
  mkDecision true "Permission granted by RBAC" (MissingPermissions d) (EvaluatedAt d) (Metadata d).

Definition requiredPermission (q : AccessRequest) : string :=
  req_Resource q +:+ ":" +:+ req_Action q.

(** [t0] is the time of the request; the metadata are the user's roles and
    the permission that was checked. *)
Definition CheckAccess (q : AccessRequest) (t0 t1 t2 : Time) (r : RBACManager)
  : RBACManager * AccessDecision :=
  let decision := mkDecision false "" [] t0 None in
  let '(r, ps) := GetUserPermissions (UserID q) t1 t2 r in
  let rs := GetUserRoles (UserID q) r in
  let required := requiredPermission q in
  if existsb (λ p, matchesPermission p required) ps then
    let d := evaluatePolicies decision in
    (r, mkDecision (Allowed d) (Reason d) (MissingPermissions d) (EvaluatedAt d) (Some (rs, required)))
  else
    (r, mkDecision false ("User lacks required permission: " +:+ required) [required] t0 None).

(** ** Roles and permissions *)

Definition stamp_role (created updated : Time) (role : Role) : Role :=
  mkRole (role_ID role) (role_Name role) (role_Description role) (role_Permissions role)
    created updated (ParentRoles role) (ChildRoles role).

(** The first permission of a role that is not registered. *)
Definition unknownPermission (r : RBACManager) (role : Role) : option string :=
  find (λ p, bool_decide (permissions r !! p = None)) (role_Permissions role).

Definition CreateRole (role : Role) (now : Time) (r : RBACManager)
  : RBACManager * result RBACError unit :=
  if String.eqb (role_ID role) "" then (r, Err RoleIDEmpty)
  else
    match roles r !! role_ID role with
    | Some _ => (r, Err (RoleAlreadyExists (role_ID role)))
    | None =>
        match unknownPermission r role with
        | Some p => (r, Err (PermissionDoesNotExist p))
        | None =>
            (invalidateAllCache
               (with_roles (<[role_ID role := stamp_role now now role]> (roles r)) r), Ok tt)
        end
    end.

Definition UpdateRole (role : Role) (now : Time) (r : RBACManager)
  : RBACManager * result RBACError unit :=
  match roles r !! role_ID role with
  | None => (r, Err (RoleDoesNotExist (role_ID role)))
  | Some _ =>
      match unknownPermission r role with
      | Some p => (r, Err (PermissionDoesNotExist p))
      | None =>
          (invalidateAllCache
             (with_roles (<[role_ID role := stamp_role (role_CreatedAt role) now role]> (roles r)) r), Ok tt)
      end
  end.

Definition DeleteRole (roleID : string) (r : RBACManager) : RBACManager * result RBACError unit :=
  match roles r !! roleID with
  | None => (r, Err (RoleDoesNotExist roleID))
  | Some _ =>
      let r := with_userRoles ((λ l, default l (removeFirst roleID l)) <$> userRoles r) r in
      (invalidateAllCache (with_roles (delete roleID (roles r)) r), Ok tt)
  end.

Definition GetRole (roleID : string) (r : RBACManager) : result RBACError Role :=
  match roles r !! roleID with
  | Some role => Ok role
  | None => Err (RoleDoesNotExist roleID)
  end.

Definition CreatePermission (perm : Permission) (now : Time) (r : RBACManager)
  : RBACManager * result RBACError unit :=
  if String.eqb (perm_ID perm) "" then (r, Err PermissionIDEmpty)
  else
    match permissions r !! perm_ID perm with
    | Some _ => (r, Err (PermissionAlreadyExists (perm_ID perm)))
    | None =>
        (invalidateAllCache
           (with_permissions
              (<[perm_ID perm := mkPermission (perm_ID perm) (perm_Name perm) (perm_Description perm)
                                   (Resource perm) (Action perm) now now]> (permissions r)) r), Ok tt)
    end.

(** ** Roles from claims *)

(** The attributes of a user: [None] when they are absent or no JSON
    object; a field that is no JSON string is [None]. *)
Record UserInfo := mkUserInfo {
  Subject : string;
  Groups : list string;
  UserRoles : list string;
  Organizations : list string;
  Provider : string;
  Attributes : option (gmap string (option string))
}.

Definition mapGitHubRoles (u : UserInfo) : list string :=
  (if existsb (λ org, Contains (ToLower org) "admin") (Organizations u)
   then ["system-admin"] else []) ++
  concat (map (λ g,
    if Contains g "/admin" || Contains g "/owners" then ["intent-operator"]
    else if Contains g "/developers" then ["e2-manager"] else []) (Groups u)).

Definition mapGoogleRoles (u : UserInfo) : list string :=
  match Attributes u with
  | Some attrs =>
      match attrs !! "hosted_domain" with
      | Some (Some d) =>
          if String.eqb d "nephoran.io" || String.eqb d "admin.nephoran.io"
          then ["intent-operator"] else []
      | _ => []
      end
  | None => []
  end.

Definition mapAzureADRoles (u : UserInfo) : list string :=
  concat (map (λ role,
    let role := ToLower role in
    if String.eqb role "global administrator" || String.eqb role "user administrator"
    then ["system-admin"]
    else if String.eqb role "application administrator" then ["intent-operator"]
    else if String.eqb role "directory readers" then ["read-only"] else []) (UserRoles u)) ++
  concat (map (λ g,
    if Contains (ToLower g) "admin" then ["intent-operator"]
    else if Contains (ToLower g) "operator" then ["e2-manager"] else []) (Groups u)).

Definition getRoleMappings (u : UserInfo) : list string :=
  let rs :=
    if String.eqb (Provider u) "github" then mapGitHubRoles u
    else if String.eqb (Provider u) "google" then mapGoogleRoles u
    else if String.eqb (Provider u) "azuread" then mapAzureADRoles u
    else [] in
  match rs with [] => ["read-only"] | _ => rs end.

(** The first section: the user's roles are cleared. *)
Definition clearRoles (userID : string) (r : RBACManager) : RBACManager :=
  with_userRoles (<[userID := []]> (userRoles r)) r.

(** Grants that fail are logged and skipped. *)
Definition AssignRolesFromClaims (u : UserInfo) (r : RBACManager) : RBACManager :=
  foldl (λ r id, (GrantRoleToUser (Subject u) id r).1) (clearRoles (Subject u) r) (getRoleMappings u).

(** ** Sequences of operations

    One operation is one section under the manager's lock; the two phases of
    [AssignRolesFromClaims] are [OpClear] and its [OpGrant]s. *)
Inductive RbacOp :=
| OpGrant (userID roleID : string)
| OpRevoke (userID roleID : string)
| OpPermissions (userID : string) (t1 t2 : Time)
| OpCheckPermission (userID permission : string) (t1 t2 : Time)
| OpCheckAccess (q : AccessRequest) (t0 t1 t2 : Time)
| OpCreateRole (role : Role) (now : Time)
| OpUpdateRole (role : Role) (now : Time)
| OpDeleteRole (roleID : string)
| OpCreatePermission (perm : Permission) (now : Time)
| OpClear (userID : string).

Definition run_op (r : RBACManager) (op : RbacOp) : RBACManager :=
  match op with
  | OpGrant u id => (GrantRoleToUser u id r).1
  | OpRevoke u id => (RevokeRoleFromUser u id r).1
  | OpPermissions u t1 t2 => (GetUserPermissions u t1 t2 r).1
  | OpCheckPermission u p t1 t2 => (CheckPermission u p t1 t2 r).1
  | OpCheckAccess q t0 t1 t2 => (CheckAccess q t0 t1 t2 r).1
  | OpCreateRole role now => (CreateRole role now r).1
  | OpUpdateRole role now => (UpdateRole role now r).1
  | OpDeleteRole id => (DeleteRole id r).1
  | OpCreatePermission p now => (CreatePermission p now r).1
  | OpClear u => clearRoles u r
  end.

Definition run (ops : list RbacOp) (r : RBACManager) : RBACManager := foldl run_op r ops.

(** What a granted permission covers: everything, itself, or, for
    ["res:*"], the permissions whose text up to the first colon is [res]. *)
Definition covers (granted required : string) : Prop :=
  granted = "*" \/ granted = required \/
  exists res rest, required = res +:+ String ":" rest /\ has_byte ":" res = false /\
    granted = res +:+ ":*".

(** A role of the user has a permission that covers the required one. *)
Definition granted_by_roles (r : RBACManager) (userID required : string) : Prop :=
  exists id role p, id ∈ rolesOf r userID /\ roles r !! id = Some role /\
    p ∈ role_Permissions role /\ covers p required.

(** ** Lemmas: permissions *)

Lemma matchesPermission_spec granted required :
  matchesPermission granted required = true <-> covers granted required.
Proof.
  unfold matchesPermission, covers.
  destruct (String.eqb_spec granted "*") as [-> | H1]; simpl; [tauto |].
  destruct (String.eqb_spec granted required) as [-> | H2]; [tauto |].
  destruct (HasSuffix granted ":*") eqn:Hs.
  - apply HasSuffix_spec in Hs as [g ->]. rewrite TrimSuffix_append. unfold SplitN2.
    destruct (cut ":" required) as [[a b] |] eqn:Hc.
    + apply cut_spec in Hc as [-> Ha]. rewrite String.eqb_eq. split.
      * intros ->. right; right. by exists g, b.
      * intros [? | [? | (res & rest & E & Hres & Eg)]]; [done .. |].
        apply append_inj_r in Eg as <-.
        assert (cut ":" (a +:+ String ":" b) = Some (g, rest)) as Hc by by apply cut_spec.
        assert (cut ":" (a +:+ String ":" b) = Some (a, b)) as Hc2 by by apply cut_spec.
        congruence.
    + split; [done |]. intros [? | [? | (res & rest & E & Hres & Eg)]]; [done .. |].
      by rewrite (proj2 (cut_spec ":" required res rest)) in Hc.
  - split; [done |]. intros [? | [? | (res & rest & E & Hres & ->)]]; [done .. |].
    rewrite <- Hs. apply HasSuffix_spec. by exists res.
Qed.

Lemma elem_of_addPermissions x ps acc : x ∈ addPermissions ps acc <-> x ∈ ps \/ x ∈ acc.
Proof.
  revert acc. induction ps as [| p ps IH]; intros acc; simpl.
  - rewrite elem_of_nil. tauto.
  - rewrite IH, elem_of_cons. case_bool_decide.
    + destruct (decide (x = p)) as [-> |]; tauto.
    + rewrite elem_of_app, list_elem_of_singleton. tauto.
Qed.

Lemma elem_of_collectPermissions x m rs acc :
  x ∈ collectPermissions m rs acc <->
  x ∈ acc \/ exists id role, id ∈ rs /\ m !! id = Some role /\ x ∈ role_Permissions role.
Proof.
  revert acc. induction rs as [| id rs IH]; intros acc; simpl.
  - split; [by left |]. intros [? | (? & ? & ?%elem_of_nil & _)]; done.
  - rewrite IH. split.
    + intros [H | (id' & role & Hid & Hm & Hx)].
      * destruct (m !! id) as [role |] eqn:E; [| by left].
        apply elem_of_addPermissions in H as [H | H]; [| by left].
        right. exists id, role. split; [by constructor | done].
      * right. exists id', role. split; [by constructor | done].
    + intros [H | (id' & role & [-> | Hid]%elem_of_cons & Hm & Hx)].
      * left. destruct (m !! id); [apply elem_of_addPermissions; by right | done].
      * left. rewrite Hm. apply elem_of_addPermissions. by left.
      * right. by exists id', role.
Qed.

Lemma elem_of_calculate x r u :
  x ∈ calculateUserPermissions r u <->
  exists id role, id ∈ rolesOf r u /\ roles r !! id = Some role /\ x ∈ role_Permissions role.
Proof.
  unfold calculateUserPermissions. rewrite merge_sort_Permutation, elem_of_collectPermissions, elem_of_nil.
  naive_solver.
Qed.

Lemma calculate_grants r u required :
  existsb (λ p, matchesPermission p required) (calculateUserPermissions r u) = true <->
  granted_by_roles r u required.
Proof.
  rewrite existsb_exists. unfold granted_by_roles. split.
  - intros (p & Hp%list_elem_of_In%elem_of_calculate & Hm%matchesPermission_spec).
    destruct Hp as (id & role & ? & ? & ?). by exists id, role, p.
  - intros (id & role & p & ? & ? & ? & Hm%matchesPermission_spec). exists p. split; [| done].
    apply list_elem_of_In, elem_of_calculate. by exists id, role.
Qed.

(** ** Lemmas: the invariant *)

Lemma removeFirst_spec id l :
  NoDup l ->
  match removeFirst id l with
  | Some l' => id ∈ l /\ NoDup l' /\ (forall x, x ∈ l' <-> x ∈ l /\ x ≠ id)
  | None => id ∉ l
  end.
Proof.
  induction l as [| y l IH]; intros Hl; simpl; [apply not_elem_of_nil |].
  apply NoDup_cons in Hl as [Hy Hl]. destruct (String.eqb_spec y id) as [<- | Hne].
  - split; [by constructor |]. split; [done |]. intros x. rewrite elem_of_cons.
    destruct (decide (x = y)) as [-> |]; tauto.
  - specialize (IH Hl). destruct (removeFirst id l) as [l' |]; simpl.
    + destruct IH as (Hin & Hn & Hx). split; [by constructor |]. split.
      * constructor; [rewrite Hx; tauto | done].
      * intros x. rewrite !elem_of_cons, Hx. destruct (decide (x = y)) as [-> |]; tauto.
    + rewrite not_elem_of_cons. done.
Qed.

(** The roles users hold exist and are held once; what is cached for a user
    is what the user's roles give, unless the user holds none. *)
Record Inv (r : RBACManager) : Prop := {
  inv_roles : forall u l, userRoles r !! u = Some l ->
    NoDup l /\ (forall id, id ∈ l -> is_Some (roles r !! id));
  inv_cache : forall u ps, userPermissions (cache r) !! u = Some ps ->
    ps = calculateUserPermissions r u \/ rolesOf r u = []
}.

Lemma inv_rolesOf r u :
  Inv r -> NoDup (rolesOf r u) /\ (forall id, id ∈ rolesOf r u -> is_Some (roles r !! id)).
Proof.
  intros [HR _]. unfold rolesOf. destruct (userRoles r !! u) as [l |] eqn:E; [by apply (HR u) |].
  split; [constructor |]. intros id H. by apply not_elem_of_nil in H.
Qed.

(** A user's permissions depend on the user's roles and what they are. *)
Lemma calculate_ext r r' u :
  roles r = roles r' -> rolesOf r u = rolesOf r' u ->
  calculateUserPermissions r u = calculateUserPermissions r' u.
Proof. unfold calculateUserPermissions. by intros -> ->. Qed.

Lemma inv_set_roles u l r :
  Inv r -> NoDup l -> (forall id, id ∈ l -> is_Some (roles r !! id)) ->
  Inv (invalidateUserCache u (with_userRoles (<[u := l]> (userRoles r)) r)).
Proof.
  intros [HR HC] Hn Hl. split; simpl.
  - intros u' l' [[<- <-] | [_ H]]%lookup_insert_Some; [done | by apply (HR u')].
  - intros u' ps [Hne H]%lookup_delete_Some. destruct (HC u' ps H) as [-> | E].
    + left. apply calculate_ext; [done |]. unfold rolesOf. simpl. by rewrite lookup_insert_ne.
    + right. unfold rolesOf in *. simpl. by rewrite lookup_insert_ne.
Qed.

Lemma inv_clearRoles u r : Inv r -> Inv (clearRoles u r).
Proof.
  intros [HR HC]. unfold clearRoles. split; simpl.
  - intros u' l' [[<- <-] | [_ H]]%lookup_insert_Some; [| by apply (HR u')].
    split; [constructor |]. intros id H. by apply not_elem_of_nil in H.
  - intros u' ps H. destruct (decide (u' = u)) as [-> | Hne].
    + right. unfold rolesOf. simpl. by rewrite lookup_insert_eq.
    + destruct (HC u' ps H) as [-> | E]; [left | right].
      * apply calculate_ext; [done |]. unfold rolesOf. simpl. by rewrite lookup_insert_ne.
      * unfold rolesOf in *. simpl. by rewrite lookup_insert_ne.
Qed.

Lemma inv_invalidateAll r :
  (forall u l, userRoles r !! u = Some l ->
     NoDup l /\ (forall id, id ∈ l -> is_Some (roles r !! id))) -> Inv (invalidateAllCache r).
Proof. intros HR. split; [done |]. simpl. intros u ps. by rewrite lookup_empty. Qed.

Lemma inv_GetUserPermissions u t1 t2 r : Inv r -> Inv (GetUserPermissions u t1 t2 r).1.
Proof.
  intros [HR HC]. unfold GetUserPermissions.
  assert (Inv (with_cache (mkRBACCache (<[u := calculateUserPermissions r u]>
                 (userPermissions (cache r))) t2) r)) as H.
  { split; [done |]. simpl. intros u' ps [[<- <-] | [_ H]]%lookup_insert_Some; [by left |].
    by apply HC. }
  destruct (userPermissions (cache r) !! u); [| done]. by goal_if.
Qed.

Lemma inv_add_role id role r :
  Inv r -> Inv (invalidateAllCache (with_roles (<[id := role]> (roles r)) r)).
Proof.
  intros [HR _]. apply inv_invalidateAll. simpl. intros u l H. destruct (HR u l H) as [Hn Hl].
  split; [done |]. intros x Hx. destruct (decide (x = id)) as [-> |];
    [rewrite lookup_insert_eq | rewrite lookup_insert_ne]; auto.
Qed.

Lemma inv_DeleteRole id r : Inv r -> Inv (DeleteRole id r).1.
Proof.
  intros HI. unfold DeleteRole. destruct (roles r !! id) eqn:E; [| done]. simpl.
  apply inv_invalidateAll. simpl. intros u l. rewrite lookup_fmap.
  destruct (userRoles r !! u) as [l0 |] eqn:E2; [| done]. simpl. intros [= <-].
  destruct (inv_roles r HI u l0 E2) as [Hn Hl]. pose proof (removeFirst_spec id l0 Hn) as HF.
  destruct (removeFirst id l0) as [l1 |]; simpl.
  - destruct HF as (_ & Hn1 & H1). split; [done |]. intros x [Hx Hne]%H1.
    rewrite lookup_delete_ne by done. by apply Hl.
  - split; [done |]. intros x Hx. rewrite lookup_delete_ne by (by intros <-). by apply Hl.
Qed.

Lemma inv_run_op op r : Inv r -> Inv (run_op r op).
Proof.
  intros HI. destruct op as [u id | u id | u t1 t2 | u p t1 t2 | q t0 t1 t2 | role now | role now | id | p now | u];
    cbn [run_op].
  - unfold GrantRoleToUser. destruct (roles r !! id) as [ro |] eqn:E; [| done].
    case_bool_decide as Hin; [done |]. destruct (inv_rolesOf r u HI) as [Hn Hl].
    apply inv_set_roles; [done | |].
    + apply NoDup_app. split; [done |]. split; [| apply NoDup_singleton].
      intros x Hx ->%list_elem_of_singleton. done.
    + intros x [Hx | ->%list_elem_of_singleton]%elem_of_app; [by apply Hl | by rewrite E].
  - unfold RevokeRoleFromUser. destruct (inv_rolesOf r u HI) as [Hn Hl].
    pose proof (removeFirst_spec id _ Hn) as HF. destruct (removeFirst id _) as [l |]; [| done].
    destruct HF as (_ & Hn1 & H1). apply inv_set_roles; [done | done |].
    intros x [Hx _]%H1. by apply Hl.
  - by apply inv_GetUserPermissions.
  - unfold CheckPermission. pose proof (inv_GetUserPermissions u t1 t2 r HI).
    by destruct (GetUserPermissions u t1 t2 r).
  - unfold CheckAccess. pose proof (inv_GetUserPermissions (UserID q) t1 t2 r HI).
    destruct (GetUserPermissions (UserID q) t1 t2 r). by goal_if.
  - unfold CreateRole. goal_if. destruct (roles r !! _); [done |].
    destruct (unknownPermission r role); [done |]. by apply inv_add_role.
  - unfold UpdateRole. destruct (roles r !! _); [| done].
    destruct (unknownPermission r role); [done |]. by apply inv_add_role.
  - by apply inv_DeleteRole.
  - unfold CreatePermission. goal_if. destruct (permissions r !! _); [done |].
    apply inv_invalidateAll. apply HI.
  - by apply inv_clearRoles.
Qed.

Lemma inv_run ops r : Inv r -> Inv (run ops r).
Proof. revert r. induction ops as [| op ops IH]; intros r HI; [done |]. by apply IH, inv_run_op. Qed.

Lemma inv_New ttl now : Inv (NewRBACManager ttl now).
Proof. split; simpl; intros ? ?; by rewrite lookup_empty. Qed.

(** [AssignRolesFromClaims] is its sections in a row. *)
Lemma AssignRolesFromClaims_run u r :
  AssignRolesFromClaims u r =
  run (OpClear (Subject u) :: map (OpGrant (Subject u)) (getRoleMappings u)) r.
Proof.
  unfold AssignRolesFromClaims, run. cbn [foldl run_op].
  generalize (clearRoles (Subject u) r) as r0. induction (getRoleMappings u) as [| id l IH]; intros r0; simpl; auto.
Qed.

(** The permissions a request is decided on. *)
Lemma permissions_current u t1 t2 r :
  Inv r -> rolesOf r u ≠ [] -> (GetUserPermissions u t1 t2 r).2 = calculateUserPermissions r u.
Proof.
  intros HI Hne. unfold GetUserPermissions.
  destruct (userPermissions (cache r) !! u) as [ps |] eqn:E; [| done].
  goal_if. by destruct (inv_cache r HI u ps E).
Qed.

Lemma CheckAccess_allowed q t0 t1 t2 r :
  Allowed (CheckAccess q t0 t1 t2 r).2 =
  existsb (λ p, matchesPermission p (requiredPermission q)) (GetUserPermissions (UserID q) t1 t2 r).2.
Proof. unfold CheckAccess. destruct (GetUserPermissions _ _ _ _). by goal_if. Qed.

(** *** A cached list outlives the roles it came from *)

(** Permission lookups of other users, each with its clock readings. *)
Definition lookups (others : list (string * Time * Time)) (r : RBACManager) : RBACManager :=
  run ((λ p, OpPermissions p.1.1 p.1.2 p.2) <$> others) r.

Lemma lookups_keep u others r ps :
  Forall (λ p, p.1.1 ≠ u) others ->
  userPermissions (cache r) !! u = Some ps ->
  userPermissions (cache (lookups others r)) !! u = Some ps /\
  cacheTTL (lookups others r) = cacheTTL r /\ rolesOf (lookups others r) u = rolesOf r u.
Proof.
  unfold lookups, run. revert r. induction others as [| [[v t1] t2] others IH]; intros r Hf Hu; [done |].
  apply Forall_cons in Hf as [Hv Hf]. simpl in Hv.
  cbn [fmap list_fmap foldl run_op fst snd].
  assert (userPermissions (cache (GetUserPermissions v t1 t2 r).1) !! u = Some ps /\
          cacheTTL (GetUserPermissions v t1 t2 r).1 = cacheTTL r /\
          rolesOf (GetUserPermissions v t1 t2 r).1 u = rolesOf r u) as (H1 & H2 & H3).
  { unfold GetUserPermissions. destruct (userPermissions (cache r) !! v); [goal_if |];
      simpl; rewrite ?lookup_insert_ne by done; done. }
  destruct (IH _ Hf H1) as (E1 & E2 & E3). by rewrite E1, E2, E3.
Qed.

(** Grants of roles that do not exist change nothing. *)
Lemma failed_grants u ids r :
  Forall (λ id, roles r !! id = None) ids ->
  foldl (λ r id, (GrantRoleToUser u id r).1) r ids = r.
Proof.
  induction 1 as [| id ids Hid _ IH]; [done |]. simpl. unfold GrantRoleToUser at 2. by rewrite Hid.
Qed.

(** ** The locking of CheckAccess *)
Module RWMutex.

(** [sync.RWMutex]: the read locks held, and whether a writer has called
    [Lock] (from then on to its [Unlock], new readers wait; the writer
    proceeds when no read lock is held). *)
Record RW := mkRW { readers : nat; writer : bool }.

(** The goroutines of [CheckAccess] (it holds a read lock and takes another
    in [GetUserPermissions] and in [GetUserRoles]) and of an operation that
    changes the manager. *)
Inductive PC :=
| C_Start
| C_Outer
| C_InPermissions
| C_Between
| C_InRoles
| C_Last
| C_Done
| W_Start
| W_Waiting
| W_Locked
| W_Done.

(** One step of a goroutine; [None] when it has to wait (or has ended). *)
Definition step1 (pc : PC) (m : RW) : option (PC * RW) :=
  let rlock pc' := if writer m then None else Some (pc', mkRW (S (readers m)) (writer m)) in
  let runlock pc' := Some (pc', mkRW (pred (readers m)) (writer m)) in
  match pc with
  | C_Start => rlock C_Outer
  | C_Outer => rlock C_InPermissions
  | C_InPermissions => runlock C_Between
  | C_Between => rlock C_InRoles
  | C_InRoles => runlock C_Last
  | C_Last => runlock C_Done
  | W_Start => if writer m then None else Some (W_Waiting, mkRW (readers m) true)
  | W_Waiting => if (readers m =? 0)%nat then Some (W_Locked, m) else None
  | W_Locked => Some (W_Done, mkRW (readers m) false)
  | C_Done | W_Done => None
  end.

Inductive step : RW * list PC -> RW * list PC -> Prop :=
| step_thread i pc pc' m m' ts :
    ts !! i = Some pc -> step1 pc m = Some (pc', m') -> step (m, ts) (m', <[i := pc']> ts).

(** The read locks a goroutine holds, and its part in [writer]. *)
Definition held (pc : PC) : Z :=
  match pc with
  | C_Outer | C_Between | C_Last => 1
  | C_InPermissions | C_InRoles => 2
  | _ => 0
  end.
Definition writing (pc : PC) : bool :=
  match pc with W_Waiting | W_Locked => true | _ => false end.

Fixpoint total (ts : list PC) : Z :=
  match ts with [] => 0 | pc :: ts => held pc + total ts end.

Record WF (s : RW * list PC) : Prop := {
  wf_readers : Z.of_nat (readers s.1) = total s.2;
  wf_writer : countb writing s.2 = Z.b2z (writer s.1)
}.

Lemma total_insert ts i pc pc' :
  ts !! i = Some pc -> total (<[i := pc']> ts) = total ts - held pc + held pc'.
Proof.
  revert i. induction ts as [| a ts IH]; intros [| i] H; simplify_eq/=; [lia |].
  rewrite (IH i H). lia.
Qed.

Lemma held_nonneg pc : 0 <= held pc.
Proof. destruct pc; simpl; lia. Qed.

Lemma held_le_total ts i pc : ts !! i = Some pc -> held pc <= total ts.
Proof.
  revert i. induction ts as [| a ts IH]; intros [| i] H; simplify_eq/=.
  - assert (0 <= total ts); [| lia]. clear. induction ts as [| b ts IH]; simpl; [done |].
    pose proof (held_nonneg b). lia.
  - pose proof (IH i H). pose proof (held_nonneg a). lia.
Qed.

Lemma wf_step s s' : WF s -> step s s' -> WF s'.
Proof.
  intros [HR HW] Hs. destruct Hs as [i pc pc' m m' ts Hi Hpc]. simpl in *.
  pose proof (held_le_total ts i pc Hi) as Hle.
  pose proof (countb_lookup writing ts i pc Hi) as Hc.
  split; simpl; rewrite ?(total_insert _ _ _ _ Hi), ?(countb_insert _ _ _ _ _ Hi).
  all: destruct m as [n w]; destruct pc; simpl in *; try specialize (Hc eq_refl); try destruct w;
    try destruct (Nat.eqb_spec n 0); simplify_eq/=; lia.
Qed.

(** The goroutine waits for an inner read lock under its outer one. *)
Definition nested (pc : PC) : Prop := pc = C_Outer \/ pc = C_Between.

(** Between the two, nothing moves the reader or the writer. *)
Lemma stuck_step s s' i j pc :
  WF s -> step s s' -> s.2 !! i = Some pc -> nested pc -> s.2 !! j = Some W_Waiting ->
  s'.2 !! i = Some pc /\ s'.2 !! j = Some W_Waiting.
Proof.
  intros [HR HW] Hs Hi Hn Hj. destruct Hs as [k pk pk' m m' ts Hk Hpk]. simpl in *.
  assert (writer m = true) as Ew.
  { destruct (writer m); [done |]. pose proof (countb_lookup writing ts j _ Hj eq_refl). simpl in HW. lia. }
  assert (1 <= Z.of_nat (readers m)) as Er.
  { pose proof (held_le_total ts i pc Hi). destruct Hn as [-> | ->]; simpl in *; lia. }
  assert (k ≠ i) as Hki.
  { intros ->. rewrite Hi in Hk. injection Hk as <-.
    destruct Hn as [-> | ->]; simpl in Hpk; by rewrite Ew in Hpk. }
  assert (k ≠ j) as Hkj.
  { intros ->. rewrite Hj in Hk. injection Hk as <-. simpl in Hpk.
    destruct (Nat.eqb_spec (readers m) 0); [lia | done]. }
  by rewrite !list_lookup_insert_ne.
Qed.

Lemma wf_start n k : WF (mkRW 0 false, replicate n C_Start ++ replicate k W_Start).
Proof.
  split; simpl.
  - induction n as [| n IH]; simpl; [| done]. induction k as [| k IH]; simpl; [done | lia].
  - induction n as [| n IH]; simpl; [| done]. induction k as [| k IH]; simpl; [done | lia].
Qed.

Lemma wf_steps s s' : WF s -> rtc step s s' -> WF s'.
Proof. intros HW. induction 1; [done |]. eauto using wf_step. Qed.

Lemma stuck_steps s s' i j pc :
  WF s -> rtc step s s' -> s.2 !! i = Some pc -> nested pc -> s.2 !! j = Some W_Waiting ->
  s'.2 !! i = Some pc /\ s'.2 !! j = Some W_Waiting.
Proof.
  intros HW Hs. revert HW. induction Hs as [s | s s1 s' H1 _ IH]; intros HW Hi Hn Hj; [done |].
  destruct (stuck_step s s1 i j pc HW H1 Hi Hn Hj) as [Hi1 Hj1]. apply IH; [| done ..].
  by eapply wf_step.
Qed.

End RWMutex.

(** ** Properties *)

(** The managers the operations lead to. *)
Definition reachable (ttl : option Duration) (now : Time) (r : RBACManager) : Prop :=
  exists ops, r = run ops (NewRBACManager ttl now).

Lemma reachable_inv ttl now r : reachable ttl now r -> Inv r.
Proof. intros [ops ->]. apply inv_run, inv_New. Qed.


Definition operator_session : RBACManager :=
  run [OpGrant "alice" "intent-operator"; OpPermissions "alice" 5 5; OpGrant "alice" "system-admin"]
    (NewRBACManager None 1).


(** No user ever holds a role twice or a role that does not exist; in
    particular a deleted role is gone from every user. *)
Theorem user_roles_exist (ttl : option Duration) (now : Time) (r : RBACManager) (u id : string) :
  reachable ttl now r ->
  NoDup (GetUserRoles u r) /\
  (forall x, x ∈ GetUserRoles u r -> exists role, GetRole x r = Ok role) /\
  ((DeleteRole id r).2 = Ok tt -> forall v, id ∉ GetUserRoles v (DeleteRole id r).1).
Proof.
  intros HI%reachable_inv. destruct (inv_rolesOf r u HI) as [Hn Hl]. split; [done |]. split.
  - intros x Hx. unfold GetRole. destruct (Hl x Hx) as [role ->]. by exists role.
  - intros Hok v Hv. destruct (inv_rolesOf _ v (inv_DeleteRole id r HI)) as [_ Hd].
    destruct (Hd id Hv) as [role Hr]. revert Hok Hr. unfold DeleteRole.
    destruct (roles r !! id); [| done]. simpl. by rewrite lookup_delete_eq.
Qed.

Lemma user_roles_exist_witness :
  reachable None 1 operator_session /\
  NoDup (GetUserRoles "alice" operator_session) /\
  (forall x, x ∈ GetUserRoles "alice" operator_session ->
     exists role, GetRole x operator_session = Ok role) /\
  ((DeleteRole "system-admin" operator_session).2 = Ok tt ->
   forall v, "system-admin" ∉ GetUserRoles v (DeleteRole "system-admin" operator_session).1).
Proof.
  assert (H1 : reachable None 1 operator_session) by (by eexists).
  split; [exact H1 |].
  exact (user_roles_exist None 1 operator_session "alice" "system-admin" H1).
Defined.

(** When none of the roles mapped from a user's claims exists,
    [AssignRolesFromClaims] takes every role away but leaves the cached
    permissions: requests they covered stay allowed while the cache is
    fresh, and lookups by other users, which renew its only timestamp, keep
    it fresh. *)
Theorem cleared_claims_still_allowed (r : RBACManager) (u : UserInfo) (q : AccessRequest)
    (ps : list string) (others : list (string * Time * Time)) (t0 t1 t2 : Time) :
  UserID q = Subject u ->
  userPermissions (cache r) !! Subject u = Some ps ->
  existsb (λ p, matchesPermission p (requiredPermission q)) ps = true ->
  Forall (λ id, roles r !! id = None) (getRoleMappings u) ->
  Forall (λ p, p.1.1 ≠ Subject u) others ->
  let r' := lookups others (AssignRolesFromClaims u r) in
  time_Sub t1 (lastUpdated (cache r')) < cacheTTL r ->
  GetUserRoles (Subject u) r' = [] /\ Allowed (CheckAccess q t0 t1 t2 r').2 = true.
Proof.
  intros Hq Hps Hm Hnone Ho r' Ht. subst r'.
  unfold AssignRolesFromClaims in *. rewrite failed_grants in * by done.
  destruct (lookups_keep (Subject u) others (clearRoles (Subject u) r) ps Ho Hps) as (E1 & E2 & E3).
  split.
  - unfold GetUserRoles. rewrite E3. unfold rolesOf. simpl. by rewrite lookup_insert_eq.
  - rewrite CheckAccess_allowed, Hq. unfold GetUserPermissions. rewrite E1, E2.
    apply Z.ltb_lt in Ht. simpl. by rewrite Ht.
Qed.

(** An administrator whose permissions are cached, after the role that
    claims default to has been removed. *)
Definition admin_session : RBACManager :=
  run [OpGrant "eve" "system-admin"; OpDeleteRole "read-only"; OpPermissions "eve" 5 5]
    (NewRBACManager None 1).

Definition eve : UserInfo := mkUserInfo "eve" [] [] [] "github" None.

(** Twenty minutes later, in a cache whose entries live for fifteen. *)
Lemma cleared_claims_still_allowed_witness :
  exists ps,
  userPermissions (cache admin_session) !! "eve" = Some ps /\
  let r' := lookups [("bob", 14 * Minute, 14 * Minute)] (AssignRolesFromClaims eve admin_session) in
  GetUserRoles "eve" r' = [] /\
  Allowed (CheckAccess (mkRequest "eve" "system" "config") (20 * Minute) (20 * Minute) (20 * Minute) r').2 = true.
Proof.
  exists ["auth:*"; "config:*"; "e2:*"; "intent:*"; "monitoring:*"; "rbac:*"; "system:*"; "user:*"].
  split; [by vm_compute |].
  apply (cleared_claims_still_allowed admin_session eve (mkRequest "eve" "system" "config")
    ["auth:*"; "config:*"; "e2:*"; "intent:*"; "monitoring:*"; "rbac:*"; "system:*"; "user:*"]
    [("bob", 14 * Minute, 14 * Minute)] (20 * Minute) (20 * Minute) (20 * Minute)).
  - reflexivity.
  - by vm_compute.
  - by vm_compute.
  - apply Forall_cons. split; [by vm_compute | by apply Forall_nil].
  - apply Forall_cons. split; [done | by apply Forall_nil].
  - by vm_compute.
Defined.

(** Once a writer has called [Lock] while a [CheckAccess] is between its
    outer and an inner read lock, neither of the two ever moves again,
    whatever the other goroutines do. *)
Theorem check_access_deadlocks (n k i j : nat) (pc : RWMutex.PC) (s s' : RWMutex.RW * list RWMutex.PC) :
  rtc RWMutex.step (RWMutex.mkRW 0 false, replicate n RWMutex.C_Start ++ replicate k RWMutex.W_Start) s ->
  s.2 !! i = Some pc -> RWMutex.nested pc -> s.2 !! j = Some RWMutex.W_Waiting ->
  rtc RWMutex.step s s' ->
  s'.2 !! i = Some pc /\ s'.2 !! j = Some RWMutex.W_Waiting.
Proof.
  intros Hr Hi Hn Hj Hs. apply (RWMutex.stuck_steps s s' i j pc); [| done ..].
  eapply RWMutex.wf_steps; [apply (RWMutex.wf_start n k) | done].
Qed.

Lemma check_access_deadlocks_witness :
  let s := (RWMutex.mkRW 1 true, [RWMutex.C_Outer; RWMutex.W_Waiting]) in
  rtc RWMutex.step (RWMutex.mkRW 0 false, [RWMutex.C_Start; RWMutex.W_Start]) s /\
  forall s', rtc RWMutex.step s s' ->
    s'.2 !! 0%nat = Some RWMutex.C_Outer /\ s'.2 !! 1%nat = Some RWMutex.W_Waiting.
Proof.
  assert (H : rtc RWMutex.step (RWMutex.mkRW 0 false, [RWMutex.C_Start; RWMutex.W_Start])
                (RWMutex.mkRW 1 true, [RWMutex.C_Outer; RWMutex.W_Waiting])).
  { eapply rtc_l; [by apply (RWMutex.step_thread 0 RWMutex.C_Start RWMutex.C_Outer _ (RWMutex.mkRW 1 false)) |].
    eapply rtc_l; [by apply (RWMutex.step_thread 1 RWMutex.W_Start RWMutex.W_Waiting _ (RWMutex.mkRW 1 true)) |].
    apply rtc_refl. }
  split; [exact H |]. intros s' Hs.
  exact (check_access_deadlocks 1 1 0 1 RWMutex.C_Outer _ s' H eq_refl (or_introl eq_refl) eq_refl Hs).
Defined.

(** The built-in administrator role cannot be updated: its permissions are
    no registered ones. *)
Lemma admin_role_not_updatable ttl now t :
  (UpdateRole (SystemAdminRole now) t (NewRBACManager ttl now)).2 =
  Err (PermissionDoesNotExist "system:*").
Proof. by vm_compute. Qed.
