(* ===== verification/JwtManager.v ===== *)
(** * JwtManager: tokens, their revocation and the keys that sign them

    Follows pkg/auth/jwt_manager.go and memory_stores.go.  Signing and reading a
    token is the work of golang-jwt: class [JWT], whose tokens are the strings of
    the source.  What keeps the tokens and the revoked ones are the source's
    interfaces [TokenStore] and [TokenBlacklist], with the instances of
    memory_stores.go.  Random bytes and new keys are arguments.  At the end, the
    manager's calls as goroutines over the locks of the manager and the stores. *)

From S2P Require Import Prelude GoCrypto.
From Stdlib Require Import HexadecimalString.
From stdpp Require Import relations.
Local Open Scope Z_scope.

Abbreviation RawMessage := string.

(** [jwt.NewNumericDate]: truncated to seconds. *)
Definition NewNumericDate (t : Time) : Time := t - t mod Second.

Record Organization := mkOrganization {
  org_ID : string;
  org_Name : string;
  org_DisplayName : string;
  org_Role : string;
  org_Permissions : list string
}.

(** The fields of the users of the providers that this package reads. *)
Record UserInfo := mkUserInfo {
  u_Subject : string;
  u_Email : string;
  u_EmailVerified : bool;
  u_Name : string;
  u_PreferredName : string;
  u_Picture : string;
  u_Username : string;
  u_Groups : list string;
  u_Roles : list string;
  u_Permissions : list string;
  u_Organizations : list Organization;
  u_Provider : string;
  u_ProviderID : string;
  u_Attributes : RawMessage
}.

Record NephoranJWTClaims := mkClaims {
  c_ID : string;
  c_Subject : string;
  c_Audience : list string;
  c_ExpiresAt : option Time;
  c_NotBefore : option Time;
  c_IssuedAt : option Time;
  c_Issuer : string;
  c_Email : string;
  c_EmailVerified : bool;
  c_Name : string;
  c_PreferredName : string;
  c_Picture : string;
  c_Groups : list string;
  c_Roles : list string;
  c_Permissions : list string;
  c_Organizations : list string;
  c_Provider : string;
  c_ProviderID : string;
  c_TenantID : string;
  c_SessionID : string;
  c_TokenType : string;
  c_Scope : string;
  c_IPAddress : string;
  c_UserAgent : string;
  c_Attributes : RawMessage
}.

Record TokenInfo := mkTokenInfo {
  t_TokenID : string;
  t_UserID : string;
  t_SessionID : string;
  t_TokenType : string;
  t_IssuedAt : Time;
  t_ExpiresAt : Time;
  t_Provider : string;
  t_Scope : string;
  t_IPAddress : string;
  t_UserAgent : string;
  t_Attributes : RawMessage;
  t_LastUsed : Time;
  t_UseCount : Z
}.

Record JWTConfig := mkJWTConfig {
  cfg_Issuer : string;
  SigningKeyPath : string;
  SigningKey : string;
  cfg_KeyRotationPeriod : Duration;
  cfg_DefaultTTL : Duration;
  cfg_RefreshTTL : Duration;
  cfg_RequireSecureCookies : bool;
  cfg_CookieDomain : string;
  cfg_CookiePath : string
}.

Record JWTMetrics := mkMetrics {
  TokensIssued : Z;
  TokensValidated : Z;
  TokensRevoked : Z;
  ValidationFailures : Z;
  KeyRotations : Z
}.

(** ** Token options *)

Record TokenOptions := mkOptions {
  TTL : Duration;
  opt_Scope : string;
  opt_IPAddress : string;
  opt_UserAgent : string
}.

Abbreviation TokenOption := (TokenOptions -> TokenOptions).

Definition WithTTL (ttl : Duration) : TokenOption :=
  λ o, mkOptions ttl (opt_Scope o) (opt_IPAddress o) (opt_UserAgent o).
Definition WithScope (scope : string) : TokenOption :=
  λ o, mkOptions (TTL o) scope (opt_IPAddress o) (opt_UserAgent o).
Definition WithIPAddress (ip : string) : TokenOption :=
  λ o, mkOptions (TTL o) (opt_Scope o) ip (opt_UserAgent o).
Definition WithUserAgent (ua : string) : TokenOption :=
  λ o, mkOptions (TTL o) (opt_Scope o) (opt_IPAddress o) ua.

Definition applyTokenOptions (options : list TokenOption) : TokenOptions :=
  foldl (λ o f, f o) (mkOptions 0 "" "" "") options.

(** ** Identifiers *)

(** What [fmt] prints for [%x] of an [int64]. *)
Definition format_x (z : Z) : string := NilEmpty.string_of_int (Z.to_hex_int z).

(** [b]: the bytes [rand.Read] fills in, or its failure. *)
Definition generateTokenID (b : option string) (now : Time) : string :=
  match b with None => format_x (UnixNano now) | Some b => hex b end.
Definition generateKeyID (b : option string) (now : Time) : string :=
  match b with None => "key-" +:+ format_x (UnixNano now) | Some b => hex b end.

Definition extractOrganizationNames (orgs : list Organization) : list string := org_Name <$> orgs.

(** ** Errors and interfaces *)

Inductive JWTError :=
| UserInfoNil
| SigningFailed (why : string)
| ParsingFailed (why : string)
| UnexpectedSigningMethod (alg : string)
| TokenBlacklisted
| NotRefreshToken
| StoreFailed (why : string)
| KeyGenerationFailed
| KeyParsingFailed (why : string)
| KeyLoadingNotImplemented
| PrivateKeyNil
| KeyIDEmpty
| KeyNotFound
| NilDereference.

(** The [alg] and [kid] fields of a token's header; no [kid] when it is absent or
    no string. *)
Record Header := mkHeader { h_alg : string; h_kid : option string }.

(** [jwt.SigningMethodRSA] stands for three algorithms. *)
Definition isRSA (alg : string) : bool :=
  String.eqb alg "RS256" || String.eqb alg "RS384" || String.eqb alg "RS512".

(** A claim of [jwt.MapClaims]. *)
Inductive Claim :=
| ClaimString (s : string)
| ClaimStrings (l : list string)
| ClaimBool (b : bool)
| ClaimInt (z : Z)
| ClaimJSON (raw : RawMessage).
Abbreviation MapClaims := (gmap string Claim).

(** golang-jwt.  [ParseWithClaims] reads the clock once and gives the key to
    verify with by a function of the token's header. *)
Class JWT (Key Pub Token : Type) := {
  PublicKey : Key -> Pub;
  SignedString : Key -> Header -> NephoranJWTClaims -> result string Token;
  SignedMap : Key -> Header -> MapClaims -> result string Token;
  ParseUnverified : Token -> result string NephoranJWTClaims;
  ParseMapUnverified : Token -> result string MapClaims;
  ParseWithClaims : Time -> Token -> (Header -> result JWTError Pub) -> result JWTError NephoranJWTClaims
}.

Class TokenStore (S : Type) := {
  StoreToken : string -> TokenInfo -> S -> S * result string unit;
  GetToken : string -> S -> result string (option TokenInfo);
  UpdateToken : string -> TokenInfo -> S -> S * result string unit;
  DeleteToken : string -> S -> S * result string unit;
  ListTokens : string -> S -> result string (list TokenInfo);
  CleanupTokens : Time -> S -> S * result string unit
}.

Class TokenBlacklist (B : Type) := {
  Blacklist : string -> Time -> B -> B * result string unit;
  IsBlacklisted : string -> B -> result string bool;
  CleanupBlacklisted : Time -> B -> B * result string unit
}.

(** ** memory_stores.go *)

Abbreviation MemoryTokenStore := (gmap string TokenInfo).
Abbreviation MemoryTokenBlacklist := (gmap string Time).

Definition NewMemoryTokenStore : MemoryTokenStore := ∅.
Definition NewMemoryTokenBlacklist : MemoryTokenBlacklist := ∅.

(** The source's order of a user's tokens is the map's, that is, any. *)
#[export] Instance memory_store : TokenStore MemoryTokenStore := {
  StoreToken id t s := (<[id := t]> s, Ok tt);
  GetToken id s := Ok (s !! id);
  UpdateToken id t s := match s !! id with None => (s, Ok tt) | Some _ => (<[id := t]> s, Ok tt) end;
  DeleteToken id s := (delete id s, Ok tt);
  ListTokens u s := Ok (List.filter (λ t, String.eqb (t_UserID t) u) (snd <$> map_to_list s));
  CleanupTokens now s := (filter (λ '(_, t), time_After now (t_ExpiresAt t) = false) s, Ok tt)
}.

#[export] Instance memory_blacklist : TokenBlacklist MemoryTokenBlacklist := {
  Blacklist id e b := (<[id := e]> b, Ok tt);
  IsBlacklisted id b := Ok (bool_decide (is_Some (b !! id)));
  CleanupBlacklisted now b := (filter (λ '(_, e), time_After now e = false) b, Ok tt)
}.

(** ** The manager *)

Definition Hour : Duration := 60 * Minute.

Section Manager.
  Context {Key Pub Token S B : Type} `{!JWT Key Pub Token} `{!TokenStore S} `{!TokenBlacklist B}.

Record JWTManager := mkJWTManager {
  signingKey : Key;
  verifyingKey : Pub;
  keyID : string;
  keyRotationPeriod : Duration;
  issuer : string;
  defaultTTL : Duration;
  refreshTTL : Duration;
  requireSecureCookies : bool;
  cookieDomain : string;
  cookiePath : string;
  tokenStore : S;
  blacklist : B;
  metrics : JWTMetrics
}.

Definition with_stores (s : S) (b : B) (m : JWTMetrics) (jm : JWTManager) : JWTManager :=
  mkJWTManager (signingKey jm) (verifyingKey jm) (keyID jm) (keyRotationPeriod jm) (issuer jm) (defaultTTL jm)
    (refreshTTL jm) (requireSecureCookies jm) (cookieDomain jm) (cookiePath jm) s b m.

Definition with_key (k : Key) (id : string) (m : JWTMetrics) (jm : JWTManager) : JWTManager :=
  mkJWTManager k (PublicKey k) id (keyRotationPeriod jm) (issuer jm) (defaultTTL jm)
    (refreshTTL jm) (requireSecureCookies jm) (cookieDomain jm) (cookiePath jm) (tokenStore jm) (blacklist jm) m.

Definition countIssued (m : JWTMetrics) : JWTMetrics :=
  mkMetrics (wrap64 (TokensIssued m + 1)) (TokensValidated m) (TokensRevoked m) (ValidationFailures m) (KeyRotations m).
Definition countValidated (m : JWTMetrics) : JWTMetrics :=
  mkMetrics (TokensIssued m) (wrap64 (TokensValidated m + 1)) (TokensRevoked m) (ValidationFailures m) (KeyRotations m).
Definition countRevoked (m : JWTMetrics) : JWTMetrics :=
  mkMetrics (TokensIssued m) (TokensValidated m) (wrap64 (TokensRevoked m + 1)) (ValidationFailures m) (KeyRotations m).
Definition countFailure (m : JWTMetrics) : JWTMetrics :=
  mkMetrics (TokensIssued m) (TokensValidated m) (TokensRevoked m) (wrap64 (ValidationFailures m + 1)) (KeyRotations m).
Definition countRotation (m : JWTMetrics) : JWTMetrics :=
  mkMetrics (TokensIssued m) (TokensValidated m) (TokensRevoked m) (ValidationFailures m) (wrap64 (KeyRotations m + 1)).

(** [parsed] and [generated]: what parsing the configured key and generating a
    new one give. *)
Definition initializeSigningKey (config : JWTConfig) (parsed generated : result JWTError Key) : result JWTError Key :=
  if negb (String.eqb (SigningKeyPath config) "") then Err KeyLoadingNotImplemented
  else if negb (String.eqb (SigningKey config) "") then parsed
  else generated.

Definition emptyConfig : JWTConfig := mkJWTConfig "" "" "" 0 0 0 false "" "".

Definition NewJWTManager (config : option JWTConfig) (s : S) (b : B)
  (parsed generated : result JWTError Key) (rnd : option string) (now : Time) : result JWTError JWTManager :=
  let config := default emptyConfig config in
  let? k := initializeSigningKey config parsed generated in
  Ok (mkJWTManager k (PublicKey k) (generateKeyID rnd now)
        (if cfg_KeyRotationPeriod config =? 0 then 7 * 24 * Hour else cfg_KeyRotationPeriod config)
        (if String.eqb (cfg_Issuer config) "" then "nephoran-intent-operator" else cfg_Issuer config)
        (if cfg_DefaultTTL config =? 0 then Hour else cfg_DefaultTTL config)
        (if cfg_RefreshTTL config =? 0 then 24 * Hour else cfg_RefreshTTL config)
        (cfg_RequireSecureCookies config) (cfg_CookieDomain config)
        (if String.eqb (cfg_CookiePath config) "" then "/" else cfg_CookiePath config) s b (mkMetrics 0 0 0 0 0)).

(** ** Issuing tokens *)

Definition expiry (now : Time) (ttl : Duration) (o : TokenOptions) : Time :=
  NewNumericDate (time_Add now (if 0 <? TTL o then TTL o else ttl)).

Definition accessClaims (jm : JWTManager) (u : UserInfo) (sessionID : string) (o : TokenOptions)
  (tokenID : string) (now : Time) : NephoranJWTClaims :=
  mkClaims tokenID (u_Subject u) [issuer jm] (Some (expiry now (defaultTTL jm) o)) (Some (NewNumericDate now))
    (Some (NewNumericDate now)) (issuer jm) (u_Email u) (u_EmailVerified u) (u_Name u) (u_PreferredName u) (u_Picture u)
    (u_Groups u) (u_Roles u) (u_Permissions u) (extractOrganizationNames (u_Organizations u)) (u_Provider u)
    (u_ProviderID u) "" sessionID "access" (opt_Scope o) (opt_IPAddress o) (opt_UserAgent o) (u_Attributes u).

Definition accessInfo (jm : JWTManager) (u : UserInfo) (sessionID : string) (o : TokenOptions)
  (tokenID : string) (now : Time) : TokenInfo :=
  mkTokenInfo tokenID (u_Subject u) sessionID "access" now (expiry now (defaultTTL jm) o) (u_Provider u)
    (opt_Scope o) (opt_IPAddress o) (opt_UserAgent o) (u_Attributes u) now 0.

Definition refreshClaims (jm : JWTManager) (u : UserInfo) (sessionID : string) (o : TokenOptions)
  (tokenID : string) (now : Time) : NephoranJWTClaims :=
  mkClaims tokenID (u_Subject u) [issuer jm] (Some (expiry now (refreshTTL jm) o)) (Some (NewNumericDate now))
    (Some (NewNumericDate now)) (issuer jm) (u_Email u) false (u_Name u) "" "" [] [] [] [] (u_Provider u)
    (u_ProviderID u) "" sessionID "refresh" "" (opt_IPAddress o) (opt_UserAgent o) "".

Definition refreshInfo (jm : JWTManager) (u : UserInfo) (sessionID : string) (o : TokenOptions)
  (tokenID : string) (now : Time) : TokenInfo :=
  mkTokenInfo tokenID (u_Subject u) sessionID "refresh" now (expiry now (refreshTTL jm) o) (u_Provider u)
    "" (opt_IPAddress o) (opt_UserAgent o) "" now 0.

Definition sign (jm : JWTManager) (c : NephoranJWTClaims) : result JWTError Token :=
  match SignedString (signingKey jm) (mkHeader "RS256" (Some (keyID jm))) c with
  | Ok tok => Ok tok
  | Err why => Err (SigningFailed why)
  end.

(** A token that cannot be stored is issued all the same. *)
Definition storeToken (t : TokenInfo) (jm : JWTManager) : JWTManager :=
  with_stores (StoreToken (t_TokenID t) t (tokenStore jm)).1 (blacklist jm) (countIssued (metrics jm)) jm.

(** [rnd], [t1]: for the identifier; [now]: the clock before it. *)
Definition GenerateAccessToken (u : option UserInfo) (sessionID : string) (options : list TokenOption)
  (now : Time) (rnd : option string) (t1 : Time) (jm : JWTManager) : JWTManager * result JWTError (Token * TokenInfo) :=
  match u with
  | None => (jm, Err UserInfoNil)
  | Some u =>
      let o := applyTokenOptions options in
      let tokenID := generateTokenID rnd t1 in
      match sign jm (accessClaims jm u sessionID o tokenID now) with
      | Err e => (jm, Err e)
      | Ok tok => let t := accessInfo jm u sessionID o tokenID now in (storeToken t jm, Ok (tok, t))
      end
  end.

Definition GenerateRefreshToken (u : option UserInfo) (sessionID : string) (options : list TokenOption)
  (now : Time) (rnd : option string) (t1 : Time) (jm : JWTManager) : JWTManager * result JWTError (Token * TokenInfo) :=
  match u with
  | None => (jm, Err UserInfoNil)
  | Some u =>
      let o := applyTokenOptions options in
      let tokenID := generateTokenID rnd t1 in
      match sign jm (refreshClaims jm u sessionID o tokenID now) with
      | Err e => (jm, Err e)
      | Ok tok => let t := refreshInfo jm u sessionID o tokenID now in (storeToken t jm, Ok (tok, t))
      end
  end.

(** Instants and random bytes of one call that issues a token. *)
Record Issue := mkIssue { at_ : Time; random : option string; id_at : Time }.

Definition GenerateTokenPair (u : option UserInfo) (sessionID : string) (options : list TokenOption)
  (i1 i2 : Issue) (jm : JWTManager) : JWTManager * result JWTError (Token * Token) :=
  match GenerateAccessToken u sessionID options (at_ i1) (random i1) (id_at i1) jm with
  | (jm, Err e) => (jm, Err e)
  | (jm, Ok (access, _)) =>
      match GenerateRefreshToken u sessionID options (at_ i2) (random i2) (id_at i2) jm with
      | (jm, Err e) => (jm, Err e)
      | (jm, Ok (refresh, _)) => (jm, Ok (access, refresh))
      end
  end.

(** ** Validating tokens *)

Definition verificationKey (jm : JWTManager) (h : Header) : result JWTError Pub :=
  if isRSA (h_alg h) then Ok (verifyingKey jm) else Err (UnexpectedSigningMethod (h_alg h)).

Definition parseToken (now : Time) (tok : Token) (jm : JWTManager) : result JWTError NephoranJWTClaims :=
  ParseWithClaims now tok (verificationKey jm).

(** A blacklist that fails lets the token through. *)
Definition checkBlacklist (jm : JWTManager) (c : NephoranJWTClaims) : result JWTError unit :=
  match IsBlacklisted (c_ID c) (blacklist jm) with Ok true => Err TokenBlacklisted | _ => Ok tt end.

Definition touch (used : Time) (t : TokenInfo) : TokenInfo :=
  mkTokenInfo (t_TokenID t) (t_UserID t) (t_SessionID t) (t_TokenType t) (t_IssuedAt t) (t_ExpiresAt t) (t_Provider t)
    (t_Scope t) (t_IPAddress t) (t_UserAgent t) (t_Attributes t) used (wrap64 (t_UseCount t + 1)).

Definition updateUsage (used : Time) (id : string) (s : S) : S :=
  match GetToken id s with Ok (Some t) => (UpdateToken id (touch used t) s).1 | _ => s end.

Definition ValidateToken (now used : Time) (tok : Token) (jm : JWTManager)
  : JWTManager * result JWTError NephoranJWTClaims :=
  match (let? c := parseToken now tok jm in let? _ := checkBlacklist jm c in Ok c) with
  | Err e => (with_stores (tokenStore jm) (blacklist jm) (countFailure (metrics jm)) jm, Err e)
  | Ok c => (with_stores (updateUsage used (c_ID c) (tokenStore jm)) (blacklist jm) (countValidated (metrics jm)) jm, Ok c)
  end.

Definition userOfClaims (c : NephoranJWTClaims) : UserInfo :=
  mkUserInfo (c_Subject c) (c_Email c) (c_EmailVerified c) (c_Name c) (c_PreferredName c) (c_Picture c) "" (c_Groups c)
    (c_Roles c) (c_Permissions c) [] (c_Provider c) (c_ProviderID c) (c_Attributes c).

Definition RefreshAccessToken (now used : Time) (tok : Token) (options : list TokenOption) (i : Issue) (jm : JWTManager)
  : JWTManager * result JWTError (Token * TokenInfo) :=
  match ValidateToken now used tok jm with
  | (jm, Err e) => (jm, Err e)
  | (jm, Ok c) =>
      if negb (String.eqb (c_TokenType c) "refresh") then (jm, Err NotRefreshToken)
      else GenerateAccessToken (Some (userOfClaims c)) (c_SessionID c) options (at_ i) (random i) (id_at i) jm
  end.

(** ** Revoking tokens *)

(** One token into the blacklist and out of the store. *)
Definition revoke (id : string) (expiresAt : Time) (jm : JWTManager) : JWTManager * result JWTError unit :=
  match Blacklist id expiresAt (blacklist jm) with
  | (b, Err why) => (with_stores (tokenStore jm) b (metrics jm) jm, Err (StoreFailed why))
  | (b, Ok _) => (with_stores (DeleteToken id (tokenStore jm)).1 b (countRevoked (metrics jm)) jm, Ok tt)
  end.

(** The signature is not looked at. *)
Definition RevokeToken (tok : Token) (jm : JWTManager) : JWTManager * result JWTError unit :=
  match ParseUnverified tok with
  | Err why => (jm, Err (ParsingFailed why))
  | Ok c =>
      match c_ExpiresAt c with
      | None => (jm, Err NilDereference)
      | Some e => revoke (c_ID c) e jm
      end
  end.

Definition revokeAll (l : list TokenInfo) (jm : JWTManager) : JWTManager :=
  foldl (λ jm t, (revoke (t_TokenID t) (t_ExpiresAt t) jm).1) jm l.

Definition RevokeUserTokens (userID : string) (jm : JWTManager) : JWTManager * result JWTError unit :=
  match ListTokens userID (tokenStore jm) with
  | Err why => (jm, Err (StoreFailed why))
  | Ok l => (revokeAll l jm, Ok tt)
  end.

Definition GetTokenInfo (tokenID : string) (jm : JWTManager) : result string (option TokenInfo) :=
  GetToken tokenID (tokenStore jm).
Definition ListUserTokens (userID : string) (jm : JWTManager) : result string (list TokenInfo) :=
  ListTokens userID (tokenStore jm).

Definition IsTokenBlacklisted (tok : Token) (jm : JWTManager) : result JWTError bool :=
  match ParseUnverified tok with
  | Err why => Err (ParsingFailed why)
  | Ok c => match IsBlacklisted (c_ID c) (blacklist jm) with Ok x => Ok x | Err why => Err (StoreFailed why) end
  end.

(** A round of [cleanupLoop]; [t1], [t2]: the clocks of the two stores. *)
Definition cleanup (t1 t2 : Time) (jm : JWTManager) : JWTManager :=
  with_stores (CleanupTokens t1 (tokenStore jm)).1 (CleanupBlacklisted t2 (blacklist jm)).1 (metrics jm) jm.

Definition CleanupBlacklist (now : Time) (jm : JWTManager) : JWTManager * result string unit :=
  let '(b, r) := CleanupBlacklisted now (blacklist jm) in (with_stores (tokenStore jm) b (metrics jm) jm, r).

(** ** Keys *)

Definition rotateSigningKey (newKey : result JWTError Key) (rnd : option string) (now : Time) (jm : JWTManager)
  : JWTManager * result JWTError unit :=
  match newKey with
  | Err e => (jm, Err e)
  | Ok k => (with_key k (generateKeyID rnd now) (countRotation (metrics jm)) jm, Ok tt)
  end.

Definition SetSigningKey (privateKey : option Key) (id : string) (jm : JWTManager) : JWTManager * result JWTError unit :=
  match privateKey with
  | None => (jm, Err PrivateKeyNil)
  | Some k => if String.eqb id "" then (jm, Err KeyIDEmpty) else (with_key k id (metrics jm) jm, Ok tt)
  end.

Definition GetPublicKey (id : string) (jm : JWTManager) : result JWTError Pub :=
  if String.eqb id "" then Err KeyIDEmpty
  else if negb (String.eqb id (keyID jm)) then Err KeyNotFound
  else Ok (verifyingKey jm).

Definition ExtractClaims (tok : Token) : result JWTError MapClaims :=
  match ParseMapUnverified tok with Ok m => Ok m | Err why => Err (ParsingFailed why) end.

(** ** Deprecated calls *)

Definition Unix (t : Time) : Z := (t - unixEpoch) / Second.

Definition legacyClaims (jm : JWTManager) (u : UserInfo) (customClaims : MapClaims) (ttl : Duration)
  (tokenID : string) (now : Time) : MapClaims :=
  customClaims ∪ list_to_map
    [("jti", ClaimString tokenID); ("sub", ClaimString (u_Subject u)); ("aud", ClaimString (issuer jm));
     ("iss", ClaimString (issuer jm)); ("iat", ClaimInt (Unix now)); ("nbf", ClaimInt (Unix now));
     ("email", ClaimString (u_Email u)); ("email_verified", ClaimBool (u_EmailVerified u)); ("name", ClaimString (u_Name u));
     ("preferred_username", ClaimString (u_Username u)); ("picture", ClaimString (u_Picture u));
     ("groups", ClaimStrings (u_Groups u)); ("roles", ClaimStrings (u_Roles u));
     ("permissions", ClaimStrings (u_Permissions u));
     ("organizations", ClaimStrings (extractOrganizationNames (u_Organizations u)));
     ("provider", ClaimString (u_Provider u)); ("provider_id", ClaimString (u_ProviderID u));
     ("session_id", ClaimString "legacy-session"); ("token_type", ClaimString "access");
     ("exp", ClaimInt (Unix (time_Add now (if 0 <? ttl then ttl else defaultTTL jm))))].

(** These tokens are not stored. *)
Definition generateLegacyToken (u : option UserInfo) (customClaims : MapClaims) (ttl : Duration)
  (now : Time) (rnd : option string) (t1 : Time) (jm : JWTManager) : JWTManager * result JWTError Token :=
  match u with
  | None => (jm, Err UserInfoNil)
  | Some u =>
      match SignedMap (signingKey jm) (mkHeader "RS256" (Some (keyID jm)))
              (legacyClaims jm u customClaims ttl (generateTokenID rnd t1) now) with
      | Err why => (with_stores (tokenStore jm) (blacklist jm) (countFailure (metrics jm)) jm, Err (SigningFailed why))
      | Ok tok => (with_stores (tokenStore jm) (blacklist jm) (countIssued (metrics jm)) jm, Ok tok)
      end
  end.

Definition RefreshToken (now used : Time) (tok : Token) (i : Issue) (jm : JWTManager)
  : JWTManager * result JWTError (Token * Token) :=
  match RefreshAccessToken now used tok [] i jm with
  | (jm, Err e) => (jm, Err e)
  | (jm, Ok (access, _)) => (jm, Ok (access, tok))
  end.

End Manager.
Arguments JWTManager : clear implicits.

(** ** Documented behaviour of the libraries and stores *)

Definition plain (s : string) : bool := forallb (λ a, (Z.of_N (Ascii.N_of_ascii a) <? 128)%Z) (String.list_ascii_of_string s).
Definition whole (t : option Time) : Prop := match t with Some t => t mod Second = 0 | None => True end.

(** What of the claims [c] the text of a token keeps: times in whole seconds and
    ASCII strings (JSON replaces bytes that are no UTF-8, and reformats the
    attributes). *)
Record carries (c c' : NephoranJWTClaims) : Prop := {
  carries_ExpiresAt : whole (c_ExpiresAt c) -> c_ExpiresAt c' = c_ExpiresAt c;
  carries_NotBefore : whole (c_NotBefore c) -> c_NotBefore c' = c_NotBefore c;
  carries_ID : plain (c_ID c) -> c_ID c' = c_ID c;
  carries_Subject : plain (c_Subject c) -> c_Subject c' = c_Subject c;
  carries_SessionID : plain (c_SessionID c) -> c_SessionID c' = c_SessionID c;
  carries_TokenType : plain (c_TokenType c) -> c_TokenType c' = c_TokenType c;
  carries_Roles : Forall plain (c_Roles c) -> c_Roles c' = c_Roles c;
  carries_Permissions : Forall plain (c_Permissions c) -> c_Permissions c' = c_Permissions c
}.

(** [exp] is optional and ends the token's life at its instant; [nbf] begins it.
    Issuer, audience and [iat] are checked on request only. *)
Definition in_window (now : Time) (c : NephoranJWTClaims) : Prop :=
  (forall e, c_ExpiresAt c = Some e -> now < e) /\ (forall n, c_NotBefore c = Some n -> n <= now).

Class JWTLaws (Key Pub Token : Type) `{!JWT Key Pub Token} : Prop := {
  parse_valid now tok kf c : ParseWithClaims now tok kf = Ok c -> ParseUnverified tok = Ok c /\ in_window now c;
  signed_parses k h c tok : SignedString k h c = Ok tok -> exists c', ParseUnverified tok = Ok c' /\ carries c c';
  signed_validates k h c c' tok now kf : SignedString k h c = Ok tok -> ParseUnverified tok = Ok c' ->
    kf h = Ok (PublicKey k) -> in_window now c' -> ParseWithClaims now tok kf = Ok c'
}.

(** A store of tokens: what is in it was put there, and the tokens of a user are
    listed completely. *)
Class StoreLaws (S : Type) `{!TokenStore S} := {
  stored : S -> gmap string TokenInfo;
  store_entries id t s i x : stored (StoreToken id t s).1 !! i = Some x -> (i = id /\ x = t) \/ stored s !! i = Some x;
  update_entries id t s i x : stored (UpdateToken id t s).1 !! i = Some x -> (i = id /\ x = t) \/ stored s !! i = Some x;
  delete_entries id s : stored (DeleteToken id s).1 ⊆ stored s;
  cleanup_entries now s : stored (CleanupTokens now s).1 ⊆ stored s;
  get_entry id s t : GetToken id s = Ok (Some t) -> stored s !! id = Some t;
  list_entries u s l t : ListTokens u s = Ok l -> t ∈ l <-> t_UserID t = u /\ exists id, stored s !! id = Some t
}.

(** A blacklist that does not fail: an entry is the last one made for its
    token, and stays until it has expired. *)
Class BlacklistLaws (B : Type) `{!TokenBlacklist B} := {
  listed : B -> gmap string Time;
  blacklist_entries id e b : exists b', Blacklist id e b = (b', Ok tt) /\ listed b' = <[id := e]> (listed b);
  blacklisted_iff id b : IsBlacklisted id b = Ok (bool_decide (is_Some (listed b !! id)));
  cleanup_keeps now b id e : listed b !! id = Some e -> now <= e -> listed (CleanupBlacklisted now b).1 !! id = Some e
}.

#[export] Program Instance memory_store_laws : StoreLaws MemoryTokenStore := {| stored := id |}.
Next Obligation. intros id t s i x. simpl. rewrite lookup_insert_Some. naive_solver. Qed.
Next Obligation.
  intros id t s i x. simpl. destruct (s !! id); simpl; [| by right]. rewrite lookup_insert_Some. naive_solver.
Qed.
Next Obligation. intros id s. apply delete_subseteq. Qed.
Next Obligation. intros now s. apply map_filter_subseteq. Qed.
Next Obligation. intros i s t E. by injection E. Qed.
Next Obligation.
  intros u s l t E. injection E as <-. rewrite list_elem_of_In, filter_In, <- list_elem_of_In, String.eqb_eq.
  unfold id. split.
  - intros [([i x] & -> & Hx)%list_elem_of_fmap <-]. split; [done |]. exists i. by apply elem_of_map_to_list in Hx.
  - intros [<- [i Hx]]. split; [| done]. apply list_elem_of_fmap. exists (i, t). split; [done |]. by apply elem_of_map_to_list.
Qed.

#[export] Program Instance memory_blacklist_laws : BlacklistLaws MemoryTokenBlacklist := {| listed := id |}.
Next Obligation. intros id e b. by eexists. Qed.
Next Obligation. done. Qed.
Next Obligation.
  intros now b id e E Hle. simpl. unfold Datatypes.id in *. apply map_lookup_filter_Some. split; [done |]. time_lia.
Qed.

Lemma NewNumericDate_whole t : whole (Some (NewNumericDate t)).
Proof. unfold whole, NewNumericDate, Second, Millisecond. div_lia. Qed.

Lemma plain_cons a s : plain (String a s) = (Z.of_N (Ascii.N_of_ascii a) <? 128) && plain s.
Proof. done. Qed.

Lemma plain_hex s : plain (hex s) = true.
Proof.
  assert (forall n, 0 <= n < 16 -> (Z.of_N (Ascii.N_of_ascii (hex_digit n)) <? 128) = true) as Hd.
  { intros n Hn. assert (Forall (λ n, (Z.of_N (Ascii.N_of_ascii (hex_digit n)) <? 128) = true) (seqZ 0 16)) as Hall
      by (vm_compute; repeat constructor).
    rewrite Forall_forall in Hall. apply Hall, elem_of_seqZ. lia. }
  induction s as [| a s IH]; [done |]. simpl hex. pose proof (byte_bound a). unfold is_byte in *.
  by rewrite !plain_cons, !Hd, IH by div_lia.
Qed.

Lemma plain_format_x z : plain (format_x z) = true.
Proof.
  assert (forall u, plain (NilEmpty.string_of_uint u) = true) as Hu by (induction u; by simpl; rewrite ?plain_cons, ?IHu).
  unfold format_x. destruct (Z.to_hex_int z); simpl; [| rewrite plain_cons]; apply Hu.
Qed.

Lemma plain_generateTokenID b now : plain (generateTokenID b now) = true.
Proof. destruct b; [apply plain_hex | apply plain_format_x]. Qed.

(** ** Calls as goroutines *)

Section System.
  Context {Key Pub Token S B : Type} `{!JWT Key Pub Token} `{!JWTLaws Key Pub Token}.
  Context `{!TokenStore S} `{!TokenBlacklist B} `{!StoreLaws S} `{!BlacklistLaws B}.
  Local Abbreviation JM := (JWTManager Key Pub S B).

(** Where a call stands between the sections of its locks.  The first four hold
    the manager's read lock. *)
Inductive Goroutine :=
| Idle
| Issuing (t : TokenInfo)
| Checking (c : NephoranJWTClaims)
| Looking (c : NephoranJWTClaims)
| Updating (c : NephoranJWTClaims) (t : option TokenInfo)
| Revoking (id : string)
| RevokingUser (userID : string) (all rest : list TokenInfo)
| Dropping (userID : string) (all : list TokenInfo) (t : TokenInfo) (rest : list TokenInfo).

Definition holdsReadLock (g : Goroutine) : bool :=
  match g with Issuing _ | Checking _ | Looking _ | Updating _ _ => true | _ => false end.

(** [issued] and [revoked] record the tokens that were made, and the tokens whose
    revocation has entered the blacklist, with their expiries. *)
Record World := mkWorld {
  clock : Time;
  manager : JM;
  goroutines : list Goroutine;
  issued : list (Token * TokenInfo);
  revoked : gmap string Time
}.

Definition at_pc (w : World) (i : nat) (g : Goroutine) : Prop := goroutines w !! i = Some g.
Definition set_pc (i : nat) (g : Goroutine) (jm : JM) (w : World) : World :=
  mkWorld (clock w) jm (<[i := g]> (goroutines w)) (issued w) (revoked w).
Definition with_store (s : S) (jm : JM) : JM := with_stores s (blacklist jm) (metrics jm) jm.
Definition with_blacklist (b : B) (jm : JM) : JM := with_stores (tokenStore jm) b (metrics jm) jm.
Definition with_metrics (m : JWTMetrics) (jm : JM) : JM := with_stores (tokenStore jm) (blacklist jm) m jm.

(** Identifiers are fresh: they are 128 random bits.  Tokens given to
    [RevokeToken] are tokens of this manager: forged ones are another matter
    (example [forgery_revives]).  The store lists a user's tokens in any order. *)
Inductive step (w : World) : World -> Prop :=
| step_tick t : clock w <= t -> step w (mkWorld t (manager w) (goroutines w) (issued w) (revoked w))
| step_sign i u sessionID o rnd t1 (refresh : bool) tok t : at_pc w i Idle ->
    let id := generateTokenID rnd t1 in
    id ∉ (t_TokenID ∘ snd) <$> issued w ->
    t = (if refresh then refreshInfo else accessInfo) (manager w) u sessionID o id (clock w) ->
    sign (manager w) ((if refresh then refreshClaims else accessClaims) (manager w) u sessionID o id (clock w)) = Ok tok ->
    step w (mkWorld (clock w) (manager w) (<[i := Issuing t]> (goroutines w)) ((tok, t) :: issued w) (revoked w))
| step_store i t : at_pc w i (Issuing t) -> step w (set_pc i Idle (storeToken t (manager w)) w)
| step_parse i tok c : at_pc w i Idle -> parseToken (clock w) tok (manager w) = Ok c ->
    step w (set_pc i (Checking c) (manager w) w)
| step_parse_fail i tok e : at_pc w i Idle -> parseToken (clock w) tok (manager w) = Err e ->
    step w (set_pc i Idle (with_metrics (countFailure (metrics (manager w))) (manager w)) w)
| step_check i c : at_pc w i (Checking c) -> checkBlacklist (manager w) c = Ok tt ->
    step w (set_pc i (Looking c) (manager w) w)
| step_check_fail i c e : at_pc w i (Checking c) -> checkBlacklist (manager w) c = Err e ->
    step w (set_pc i Idle (with_metrics (countFailure (metrics (manager w))) (manager w)) w)
| step_look i c : at_pc w i (Looking c) ->
    step w (set_pc i (Updating c (match GetToken (c_ID c) (tokenStore (manager w)) with
                                  | Ok (Some t) => Some (touch (clock w) t) | _ => None end)) (manager w) w)
| step_update i c t : at_pc w i (Updating c t) ->
    step w (set_pc i Idle (with_metrics (countValidated (metrics (manager w)))
             (match t with Some t => with_store (UpdateToken (c_ID c) t (tokenStore (manager w))).1 (manager w)
                         | None => manager w end)) w)
| step_revoke i tok t c e : at_pc w i Idle -> (tok, t) ∈ issued w ->
    ParseUnverified tok = Ok c -> c_ExpiresAt c = Some e ->
    step w (mkWorld (clock w) (with_blacklist (Blacklist (c_ID c) e (blacklist (manager w))).1 (manager w))
             (<[i := Revoking (c_ID c)]> (goroutines w)) (issued w) (<[c_ID c := e]> (revoked w)))
| step_revoke_delete i id : at_pc w i (Revoking id) ->
    step w (set_pc i Idle (with_metrics (countRevoked (metrics (manager w)))
             (with_store (DeleteToken id (tokenStore (manager w))).1 (manager w))) w)
| step_user_list i u l l' : at_pc w i Idle -> ListTokens u (tokenStore (manager w)) = Ok l -> l' ≡ₚ l ->
    step w (set_pc i (RevokingUser u l' l') (manager w) w)
| step_user_blacklist i u all t rest : at_pc w i (RevokingUser u all (t :: rest)) ->
    step w (mkWorld (clock w)
             (with_blacklist (Blacklist (t_TokenID t) (t_ExpiresAt t) (blacklist (manager w))).1 (manager w))
             (<[i := Dropping u all t rest]> (goroutines w)) (issued w) (<[t_TokenID t := t_ExpiresAt t]> (revoked w)))
| step_user_delete i u all t rest : at_pc w i (Dropping u all t rest) ->
    step w (set_pc i (RevokingUser u all rest) (with_metrics (countRevoked (metrics (manager w)))
             (with_store (DeleteToken (t_TokenID t) (tokenStore (manager w))).1 (manager w))) w)
| step_user_done i u all : at_pc w i (RevokingUser u all []) -> step w (set_pc i Idle (manager w) w)
| step_cleanup_tokens : step w (mkWorld (clock w)
    (with_store (CleanupTokens (clock w) (tokenStore (manager w))).1 (manager w)) (goroutines w) (issued w) (revoked w))
| step_cleanup_blacklist : step w (mkWorld (clock w)
    (with_blacklist (CleanupBlacklisted (clock w) (blacklist (manager w))).1 (manager w)) (goroutines w) (issued w) (revoked w))
| step_rotate k rnd t1 : Forall (λ g, holdsReadLock g = false) (goroutines w) ->
    step w (mkWorld (clock w) (rotateSigningKey (Ok k) rnd t1 (manager w)).1 (goroutines w) (issued w) (revoked w)).

(** The beginning: nothing stored, nothing revoked. *)
Record initial (w : World) : Prop := {
  initial_stored : stored (tokenStore (manager w)) = ∅;
  initial_idle : Forall (eq Idle) (goroutines w);
  initial_issued : issued w = [];
  initial_revoked : revoked w = ∅
}.

(** ** The invariant *)

(** A token of identifier [id] was issued, until [e]. *)
Definition known (w : World) (id : string) (e : Time) : Prop :=
  exists tok t, (tok, t) ∈ issued w /\ t_TokenID t = id /\ t_ExpiresAt t = e.

Definition info_known (w : World) (t : TokenInfo) : Prop := known w (t_TokenID t) (t_ExpiresAt t).

(** [t] was revoked, or is still to be. *)
Definition covered (w : World) (rest : list TokenInfo) (t : TokenInfo) : Prop :=
  t ∈ rest \/ revoked w !! t_TokenID t = Some (t_ExpiresAt t).

Definition goroutine_ok (w : World) (g : Goroutine) : Prop :=
  match g with
  | Issuing t => info_known w t
  | Updating c t => match t with Some t => t_TokenID t = c_ID c /\ info_known w t | None => True end
  | RevokingUser _ all rest => Forall (info_known w) all /\ rest ⊆ all /\ Forall (covered w rest) all
  | Dropping _ all t rest => Forall (info_known w) all /\ rest ⊆ all /\ Forall (covered w rest) all
  | _ => True
  end.

Record invariant (w : World) : Prop := {
  ids_unique : NoDup ((t_TokenID ∘ snd) <$> issued w);
  tokens_readable : forall tok t, (tok, t) ∈ issued w ->
    exists c, ParseUnverified tok = Ok c /\ c_ID c = t_TokenID t /\ c_ExpiresAt c = Some (t_ExpiresAt t);
  stored_known : forall id t, stored (tokenStore (manager w)) !! id = Some t -> t_TokenID t = id /\ info_known w t;
  goroutines_ok : Forall (goroutine_ok w) (goroutines w);
  revoked_known : forall id e, revoked w !! id = Some e -> known w id e;
  revoked_listed : forall id e, revoked w !! id = Some e ->
    listed (blacklist (manager w)) !! id = Some e \/ e < clock w
}.

Lemma known_unique w id e e' : invariant w -> known w id e -> known w id e' -> e = e'.
Proof.
  intros [Hnd _ _ _ _ _] (tok & t & Hin & Hid & He) (tok' & t' & Hin' & Hid' & He').
  apply list_elem_of_lookup in Hin as [n Hn]. apply list_elem_of_lookup in Hin' as [m Hm].
  assert (n = m) as ->.
  { eapply (NoDup_lookup ((t_TokenID ∘ snd) <$> issued w)); [done | |]; rewrite list_lookup_fmap.
    - by rewrite Hn; simpl; rewrite Hid.
    - by rewrite Hm; simpl; rewrite Hid'. }
  congruence.
Qed.

Lemma covered_mono w w' rest t : revoked w ⊆ revoked w' -> covered w rest t -> covered w' rest t.
Proof. intros Hr [? | Hc]; [by left | right; by eapply lookup_weaken]. Qed.

Lemma known_mono w w' id e : issued w ⊆ issued w' -> known w id e -> known w' id e.
Proof. intros Hi (tok & t & ? & ?). exists tok, t. split; [by apply Hi | done]. Qed.

Lemma goroutine_ok_mono w w' g : issued w ⊆ issued w' -> revoked w ⊆ revoked w' -> goroutine_ok w g -> goroutine_ok w' g.
Proof.
  intros Hi Hr. unfold info_known.
  assert (forall l, Forall (info_known w) l -> Forall (info_known w') l) as Hk.
  { intros l Hf. eapply Forall_impl; [exact Hf |]. intros t. by apply known_mono. }
  assert (forall rest l, Forall (covered w rest) l -> Forall (covered w' rest) l) as Hc.
  { intros rest l Hf. eapply Forall_impl; [exact Hf |]. intros t. by apply covered_mono. }
  destruct g as [| t | | | c [t|] | | u all rest | u all t rest]; simpl; try done.
  - by apply known_mono.
  - intros [? ?]. split; [done |]. by apply (known_mono w).
  - naive_solver.
  - naive_solver.
Qed.

(** A step that makes no token: what is left to show. *)
Lemma invariant_update w w' : invariant w -> issued w' = issued w -> clock w <= clock w' -> revoked w ⊆ revoked w' ->
  (forall id t, stored (tokenStore (manager w')) !! id = Some t ->
     stored (tokenStore (manager w)) !! id = Some t \/ (t_TokenID t = id /\ info_known w t)) ->
  (goroutines w' = goroutines w \/ exists i g, goroutines w' = <[i := g]> (goroutines w) /\ goroutine_ok w' g) ->
  (forall id e, revoked w' !! id = Some e ->
     known w id e /\ (listed (blacklist (manager w')) !! id = Some e \/ e < clock w')) ->
  invariant w'.
Proof.
  intros Hinv Hi Hc Hr Hs Hg Hrev.
  assert (forall id e, known w id e -> known w' id e) as Hk by (intros; eapply (known_mono w); [by rewrite Hi | done]).
  split.
  - rewrite Hi. apply ids_unique, Hinv.
  - rewrite Hi. apply tokens_readable, Hinv.
  - intros id t [Hx | [? ?]]%Hs; [| split; [done | by apply Hk]].
    apply (stored_known w Hinv) in Hx as [? ?]. split; [done | by apply Hk].
  - assert (Forall (goroutine_ok w') (goroutines w)) as Hf.
    { eapply Forall_impl; [apply (goroutines_ok w Hinv) |]. intros g. apply goroutine_ok_mono; [by rewrite Hi | done]. }
    destruct Hg as [-> | (i & g & -> & Hok)]; [done |]. by apply Forall_insert.
  - intros id e Hx. apply Hk. by apply Hrev.
  - intros id e Hx. by apply Hrev.
Qed.

(** The same with blacklist and revocations as they were. *)
Lemma invariant_pc w w' : invariant w -> issued w' = issued w -> clock w <= clock w' -> revoked w' = revoked w ->
  blacklist (manager w') = blacklist (manager w) ->
  (forall id t, stored (tokenStore (manager w')) !! id = Some t ->
     stored (tokenStore (manager w)) !! id = Some t \/ (t_TokenID t = id /\ info_known w t)) ->
  (goroutines w' = goroutines w \/ exists i g, goroutines w' = <[i := g]> (goroutines w) /\ goroutine_ok w' g) ->
  invariant w'.
Proof.
  intros Hinv Hi Hc Hr Hb Hs Hg. eapply invariant_update; try done; [by rewrite Hr |].
  intros id e Hx. rewrite Hr in Hx. rewrite Hb. split; [by apply revoked_known |].
  destruct (revoked_listed w Hinv id e Hx); [by left | right; lia].
Qed.

(** Entering a known token into the blacklist keeps the other revocations. *)
Lemma revocation_entered w w' id e : invariant w -> known w id e ->
  revoked w' = <[id := e]> (revoked w) -> clock w' = clock w ->
  blacklist (manager w') = (Blacklist id e (blacklist (manager w))).1 ->
  revoked w ⊆ revoked w' /\
  forall i x, revoked w' !! i = Some x ->
    known w i x /\ (listed (blacklist (manager w')) !! i = Some x \/ x < clock w').
Proof.
  intros Hinv Hk Hr Hc Hb. destruct (blacklist_entries id e (blacklist (manager w))) as (b' & E & Hl).
  rewrite Hb, E, Hr, Hc. cbn [fst]. rewrite Hl. split.
  - apply map_subseteq_spec. intros i x Hx. destruct (decide (i = id)) as [-> |].
    + rewrite lookup_insert_eq. f_equal. eapply (known_unique w id); [done | done | by apply revoked_known].
    + by rewrite lookup_insert_ne.
  - intros i x [[<- <-] | [Hne Hx]]%lookup_insert_Some.
    + split; [done | left]. by rewrite lookup_insert_eq.
    + split; [by apply revoked_known |]. rewrite lookup_insert_ne by done. by apply revoked_listed.
Qed.

Lemma sign_readable (jm : JM) c tok e : sign jm c = Ok tok -> plain (c_ID c) = true -> c_ExpiresAt c = Some e -> whole (Some e) ->
  exists c', ParseUnverified tok = Ok c' /\ c_ID c' = c_ID c /\ c_ExpiresAt c' = Some e.
Proof.
  unfold sign. destruct (SignedString _ _ _) as [x|] eqn:E; intros H1 Hid He Hw; [| done]. injection H1 as ->.
  apply signed_parses in E as (c' & Hp & Hc). exists c'. split; [done |]. split.
  - by apply (carries_ID _ _ Hc), Is_true_true.
  - rewrite (carries_ExpiresAt _ _ Hc); by rewrite He.
Qed.

Lemma invariant_sign w i tok t c : invariant w -> t_TokenID t ∉ (t_TokenID ∘ snd) <$> issued w ->
  ParseUnverified tok = Ok c -> c_ID c = t_TokenID t -> c_ExpiresAt c = Some (t_ExpiresAt t) ->
  invariant (mkWorld (clock w) (manager w) (<[i := Issuing t]> (goroutines w)) ((tok, t) :: issued w) (revoked w)).
Proof.
  intros Hinv Hf Hp Hid He. set (w' := mkWorld _ _ _ _ _).
  assert (forall id e, known w id e -> known w' id e) as Hk.
  { intros. eapply (known_mono w); [| done]. unfold w'. simpl. set_solver. }
  assert (info_known w' t) as Ht by (exists tok, t; split; [left | done]).
  split; simpl.
  - apply NoDup_cons. split; [done |]. apply ids_unique, Hinv.
  - intros tok' t' [[= -> ->] | Hin]%elem_of_cons; [by exists c | by apply (tokens_readable w)].
  - intros id x Hx. apply (stored_known w Hinv) in Hx as [? ?]. split; [done | by apply Hk].
  - apply Forall_insert; [| done]. eapply Forall_impl; [apply (goroutines_ok w Hinv) |].
    intros g. apply goroutine_ok_mono; [| done]. unfold w'. simpl. set_solver.
  - intros id e Hx. apply Hk. by apply (revoked_known w).
  - apply (revoked_listed w Hinv).
Qed.

Lemma at_pc_ok w i g : invariant w -> at_pc w i g -> goroutine_ok w g.
Proof. intros Hinv Hg. exact (Forall_lookup_1 _ _ _ _ (goroutines_ok w Hinv) Hg). Qed.

(** [inv_step w]: a step of [w] that leaves the blacklist as it is; left are the
    entries of the store and the next state of the goroutine. *)
Local Ltac inv_step w :=
  apply (invariant_pc w); simpl;
    [assumption | reflexivity | lia | reflexivity | reflexivity | try (intros; by left)
    | first [by left | right; eexists _, _; split; [reflexivity | simpl; try done]]].

Lemma revoke_invariant w i id e g : invariant w -> known w id e ->
  (forall w', issued w' = issued w -> revoked w' = <[id := e]> (revoked w) -> revoked w ⊆ revoked w' -> goroutine_ok w' g) ->
  invariant (mkWorld (clock w) (with_blacklist (Blacklist id e (blacklist (manager w))).1 (manager w))
    (<[i := g]> (goroutines w)) (issued w) (<[id := e]> (revoked w))).
Proof.
  intros Hinv Hk Hg. set (w' := mkWorld _ _ _ _ _).
  destruct (revocation_entered w w' id e Hinv Hk) as [Hr Hall]; try done.
  apply (invariant_update w); try done.
  - intros; by left.
  - right. exists i, g. split; [done |]. by apply Hg.
Qed.

Lemma issued_known w tok t c e : invariant w -> (tok, t) ∈ issued w -> ParseUnverified tok = Ok c ->
  c_ExpiresAt c = Some e -> known w (c_ID c) e.
Proof.
  intros Hinv Hin Hp He. destruct (tokens_readable w Hinv tok t Hin) as (c' & Hp' & Hid & He').
  assert (c' = c) as -> by congruence. exists tok, t. split; [done |]. split; congruence.
Qed.

Lemma touch_known w u t id : t_TokenID t = id /\ info_known w t -> t_TokenID (touch u t) = id /\ info_known w (touch u t).
Proof. done. Qed.

Lemma listed_known w u l : invariant w -> ListTokens u (tokenStore (manager w)) = Ok l -> Forall (info_known w) l.
Proof.
  intros Hinv Hl. apply Forall_forall. intros t Ht. apply (list_entries u _ l t Hl) in Ht as (_ & id & Hx).
  by apply (stored_known w Hinv) in Hx as [_ ?].
Qed.

Lemma step_invariant w w' : step w w' -> invariant w -> invariant w'.
Proof.
  intros Hstep Hinv.
  destruct Hstep as [t Hle | i u sid o rnd t1 refresh tok t Hg id Hf Et Hs | i t Hg | i tok c Hg Hp | i tok e Hg Hp
    | i c Hg Hb | i c e Hg Hb | i c Hg | i c t Hg | i tok t c e Hg Hin Hp He | i id Hg | i u l l' Hg Hl Hperm
    | i u all t rest Hg | i u all t rest Hg | i u all Hg | | | k rnd t1 Hall].
  all: try (pose proof (at_pc_ok w i _ Hinv Hg) as Hok; simpl in Hok).
  - inv_step w.
  - apply (sign_readable _ _ _ (t_ExpiresAt t)) in Hs as (c & Hp & Hid & He).
    + apply (invariant_sign w i tok t c); try done; subst t; by destruct refresh.
    + destruct refresh; apply plain_generateTokenID.
    + subst t. by destruct refresh.
    + subst t. destruct refresh; apply NewNumericDate_whole.
  - inv_step w. intros id x [[-> ->] | Hx]%store_entries; [by right | by left].
  - inv_step w.
  - inv_step w.
  - inv_step w.
  - inv_step w.
  - inv_step w. destruct (GetToken _ _) as [[t|] | ] eqn:E; try done.
    apply touch_known. apply get_entry in E. by apply (stored_known w Hinv) in E.
  - destruct t as [t|]; inv_step w. intros id x [[-> ->] | Hx]%update_entries; [by right | by left].
  - apply revoke_invariant; [done | by eapply issued_known | done].
  - inv_step w. intros j x Hx. left. by eapply lookup_weaken; [| apply delete_entries].
  - apply (listed_known w) in Hl; [| done]. rewrite <- Hperm in Hl.
    inv_step w. split; [exact Hl |]. split; [done |]. apply Forall_forall. intros t Ht. by left.
  - destruct Hok as (Hk & Hsub & Hc). assert (info_known w t) as Ht.
    { rewrite Forall_forall in Hk. apply Hk, Hsub. left. }
    apply revoke_invariant; [done | done |]. intros w' Hi Hr Hmono. simpl. split; [| split].
    + eapply Forall_impl; [exact Hk |]. intros x. unfold info_known, known. by rewrite Hi.
    + intros x Hx. apply Hsub. by right.
    + rewrite Forall_forall in Hc |- *. intros x Hx. destruct (Hc x Hx) as [[-> | Hin]%elem_of_cons | Hrev].
      * right. rewrite Hr. apply lookup_insert_eq.
      * by left.
      * right. by eapply lookup_weaken.
  - inv_step w. intros j x Hx. left. by eapply lookup_weaken; [| apply delete_entries].
  - inv_step w.
  - inv_step w. intros j x Hx. left. by eapply lookup_weaken; [| apply cleanup_entries].
  - apply (invariant_update w); simpl; try done; [by intros; left | by left |].
    intros id e Hx. split; [by apply revoked_known |]. destruct (revoked_listed w Hinv id e Hx) as [Hl |]; [| by right].
    destruct (decide (e < clock w)); [by right | left]. apply cleanup_keeps; [done | lia].
  - inv_step w.
Qed.

Lemma initial_invariant w : initial w -> invariant w.
Proof.
  intros [Hs Hg Hi Hr]. split; rewrite ?Hi, ?Hs, ?Hr; try done.
  - constructor.
  - by intros tok t ?%elem_of_nil.
  - eapply Forall_impl; [exact Hg |]. by intros g <-.
Qed.

Lemma reachable_invariant w0 w : initial w0 -> rtc step w0 w -> invariant w.
Proof.
  intros H0 Hw. apply initial_invariant in H0.
  induction Hw as [| w0 w1 w2 Hs _ IH]; [done |]. apply IH. by eapply step_invariant.
Qed.

Lemma step_revoked w w' : step w w' -> invariant w -> revoked w ⊆ revoked w'.
Proof.
  intros Hstep Hinv. destruct Hstep as [ | | | | | | | | | i tok t c e Hg Hin Hp He | | | i u all t rest Hg | | | | | ]; simpl; try done.
  - eapply (revocation_entered w (mkWorld (clock w) (with_blacklist (Blacklist (c_ID c) e (blacklist (manager w))).1 (manager w))
      [] [] _)); [done | by eapply issued_known | done..].
  - eapply (revocation_entered w (mkWorld (clock w)
      (with_blacklist (Blacklist (t_TokenID t) (t_ExpiresAt t) (blacklist (manager w))).1 (manager w)) [] [] _)); [done | | done..].
    pose proof (at_pc_ok w i _ Hinv Hg) as (Hk & Hsub & _). rewrite Forall_forall in Hk. apply Hk, Hsub. left.
Qed.

Lemma steps_revoked w w' : rtc step w w' -> invariant w -> revoked w ⊆ revoked w'.
Proof.
  induction 1 as [| w w1 w' Hs _ IH]; intros Hinv; [done |].
  transitivity (revoked w1); [by apply step_revoked |]. apply IH. by eapply step_invariant.
Qed.

Lemma checkBlacklist_spec (jm : JM) c :
  checkBlacklist jm c = if bool_decide (is_Some (listed (blacklist jm) !! c_ID c)) then Err TokenBlacklisted else Ok tt.
Proof. unfold checkBlacklist. rewrite blacklisted_iff. by case_bool_decide. Qed.

Lemma parseToken_valid now tok (jm : JM) c : parseToken now tok jm = Ok c ->
  ParseUnverified tok = Ok c /\ in_window now c.
Proof. apply parse_valid. Qed.

Lemma revoke_listed id e (jm : JM) : listed (blacklist (revoke id e jm).1) = <[id := e]> (listed (blacklist jm)).
Proof. unfold revoke. by destruct (blacklist_entries id e (blacklist jm)) as (b' & -> & <-). Qed.

Lemma revokeAll_listed l (jm : JM) id : is_Some (listed (blacklist (revokeAll l jm)) !! id) <->
  is_Some (listed (blacklist jm) !! id) \/ exists t, t ∈ l /\ t_TokenID t = id.
Proof.
  revert jm. induction l as [| t l IH]; intros jm; simpl.
  - split; [by left |]. by intros [? | (t & ?%elem_of_nil & _)].
  - rewrite IH, revoke_listed, lookup_insert_is_Some'. split.
    + intros [[? | ?] | (x & ? & ?)]; [right; exists t | by left | right; exists x]; split; try done; [by left | by right].
    + intros [? | (x & [-> | ?]%elem_of_cons & ?)]; [by left; right | by left; left | right; by exists x].
Qed.


(** Revoking a user's tokens is complete: when the call is about to return,
    every token it listed has been revoked, whatever ran in between; and run by
    itself it puts exactly the user's stored tokens among the blacklisted ones. *)
Theorem user_revocation_complete w0 w : initial w0 -> rtc step w0 w ->
  (forall i u all t, at_pc w i (RevokingUser u all []) -> t ∈ all -> revoked w !! t_TokenID t = Some (t_ExpiresAt t)) /\
  (forall u l, ListTokens u (tokenStore (manager w)) = Ok l ->
     let '(jm, r) := RevokeUserTokens u (manager w) in
     r = Ok tt /\
     forall c, checkBlacklist jm c = Err TokenBlacklisted <->
       checkBlacklist (manager w) c = Err TokenBlacklisted \/
       exists t, stored (tokenStore (manager w)) !! c_ID c = Some t /\ t_UserID t = u).
Proof.
  intros H0 Hw. pose proof (reachable_invariant w0 w H0 Hw) as Hinv. split.
  - intros i u all t Hg Ht. pose proof (at_pc_ok w i _ Hinv Hg) as (_ & _ & Hc). rewrite Forall_forall in Hc.
    by destruct (Hc t Ht) as [?%elem_of_nil | ?].
  - intros u l Hl. unfold RevokeUserTokens. rewrite Hl. split; [done |]. intros c. rewrite !checkBlacklist_spec.
    assert ((exists t, t ∈ l /\ t_TokenID t = c_ID c) <->
      exists t, stored (tokenStore (manager w)) !! c_ID c = Some t /\ t_UserID t = u) as Hiff.
    { split.
      - intros (t & (Hu & id & Hs)%(list_entries u _ l t Hl) & Hid). exists t. split; [| done].
        destruct (stored_known w Hinv id t Hs) as [Hid' _]. congruence.
      - intros (t & Hs & Hu). exists t. destruct (stored_known w Hinv _ t Hs) as [Hid _].
        split; [| done]. apply (list_entries u _ l t Hl). by eauto. }
    rewrite <- Hiff. clear Hiff. pose proof (revokeAll_listed l (manager w) (c_ID c)) as Ha.
    repeat case_bool_decide; naive_solver.
Qed.

(** C32 - An issued token is good until it expires: from its first second on, as
    long as the verifying key is the one it was signed for and its identifier is
    not blacklisted, validating it gives its claims. *)
Theorem issued_token_validates (jm jm1 jm2 : JM) u sessionID options now rnd t1 tok t t2 used :
  GenerateAccessToken (Some u) sessionID options now rnd t1 jm = (jm1, Ok (tok, t)) ->
  verifyingKey jm2 = PublicKey (signingKey jm) ->
  listed (blacklist jm2) !! t_TokenID t = None -> now <= t2 < t_ExpiresAt t ->
  exists c, (ValidateToken t2 used tok jm2).2 = Ok c /\
    carries (accessClaims jm u sessionID (applyTokenOptions options) (generateTokenID rnd t1) now) c.
Proof.
  unfold GenerateAccessToken, sign. set (o := applyTokenOptions options). set (id := generateTokenID rnd t1).
  destruct (SignedString _ _ _) as [x|] eqn:Es; intros [= <- -> <-] Hkey Hb [Hge Hlt].
  destruct (signed_parses _ _ _ _ Es) as (c & Hp & Hc). exists c.
  assert (c_ID c = id) as Hid by (apply (carries_ID _ _ Hc), Is_true_true, plain_generateTokenID).
  assert (c_ExpiresAt c = Some (expiry now (defaultTTL jm) o)) as He by apply (carries_ExpiresAt _ _ Hc), NewNumericDate_whole.
  assert (c_NotBefore c = Some (NewNumericDate now)) as Hn by apply (carries_NotBefore _ _ Hc), NewNumericDate_whole.
  assert (NewNumericDate now <= now) by (unfold NewNumericDate, Second, Millisecond; div_lia).
  unfold ValidateToken, parseToken. erewrite signed_validates; [| exact Es | exact Hp | |].
  - simpl. rewrite checkBlacklist_spec, Hid. simpl in Hb. rewrite Hb. rewrite bool_decide_false by (by intros [? ?]). done.
  - unfold verificationKey. simpl. by rewrite Hkey.
  - split; [intros e; rewrite He; intros [= <-]; done | intros n; rewrite Hn; intros [= <-]; lia].
Qed.

End System.

(** ** Concrete runs

    Tokens that show what they say: header, claims and the key that signed them,
    if any. *)
Module Sealed.

Definition Tok : Type := Header * NephoranJWTClaims * option nat.

Definition in_windowb (now : Time) (c : NephoranJWTClaims) : bool :=
  match c_ExpiresAt c with Some e => now <? e | None => true end &&
  match c_NotBefore c with Some n => n <=? now | None => true end.

Definition parse (now : Time) (tok : Tok) (kf : Header -> result JWTError nat) : result JWTError NephoranJWTClaims :=
  let '(h, c, k) := tok in
  let? p := kf h in
  if bool_decide (k = Some p) && in_windowb now c then Ok c else Err (ParsingFailed "token is unverifiable").

#[local] Instance sealed : JWT nat nat Tok := {
  PublicKey k := k;
  SignedString k h c := Ok (h, c, Some k);
  SignedMap k h m := Err "not used";
  ParseUnverified tok := Ok tok.1.2;
  ParseMapUnverified tok := Ok ∅;
  ParseWithClaims := parse
}.

Lemma in_windowb_spec now c : in_windowb now c = true <-> in_window now c.
Proof.
  unfold in_windowb, in_window. rewrite andb_true_iff. destruct (c_ExpiresAt c), (c_NotBefore c);
    rewrite ?Z.ltb_lt, ?Z.leb_le; naive_solver.
Qed.

#[local] Instance sealed_laws : JWTLaws nat nat Tok.
Proof.
  split.
  - intros now [[h c] k] kf c' E. simpl in *. destruct (kf h) as [p|]; [| done]. simpl in E.
    destruct (bool_decide _); [| done]. destruct (in_windowb now c) eqn:Ew; [| done].
    injection E as ->. split; [done |]. by apply in_windowb_spec.
  - intros k h c tok [= <-]. by exists c.
  - intros k h c c' tok now kf [= <-] [= ->] Hk Hw. simpl. rewrite Hk. simpl.
    apply in_windowb_spec in Hw. by rewrite bool_decide_true, Hw.
Qed.

Abbreviation Manager := (JWTManager nat nat MemoryTokenStore MemoryTokenBlacklist).

Definition jm0 : Manager :=
  mkJWTManager 7%nat 7%nat "k7" (24 * Hour) "nephoran" Hour (24 * Hour) true "" "/" ∅ ∅ (mkMetrics 0 0 0 0 0).

Definition eve : UserInfo := mkUserInfo "eve" "" false "" "" "" "" [] [] [] [] "github" "" "".
Definition start : Time := 100 * Second.
Definition expires : Time := 3700 * Second.
Definition rnd : option string := Some "0123456789abcdef".

Definition claims : NephoranJWTClaims := accessClaims jm0 eve "s1" (applyTokenOptions []) (generateTokenID rnd start) start.
Definition info : TokenInfo := accessInfo jm0 eve "s1" (applyTokenOptions []) (generateTokenID rnd start) start.
Definition token : Tok := (mkHeader "RS256" (Some "k7"), claims, Some 7%nat).

Abbreviation W := (@World nat nat Tok MemoryTokenStore MemoryTokenBlacklist).
Definition w0 : W := mkWorld start jm0 [Idle; Idle] [] ∅.
Definition jm1 : Manager := storeToken info jm0.
Definition jm2 : Manager := with_blacklist (Blacklist (c_ID claims) expires (blacklist jm1)).1 jm1.
Definition w_signed : W := mkWorld start jm0 [Issuing info; Idle] [(token, info)] ∅.
Definition w_issued : W := mkWorld start jm1 [Idle; Idle] [(token, info)] ∅.
Definition w_revoked : W := mkWorld start jm2 [Revoking (c_ID claims); Idle] [(token, info)] {[ c_ID claims := expires ]}.

Lemma sealed_initial : initial w0.
Proof. split; repeat constructor. Qed.

Lemma run_issued : rtc step w0 w_issued.
Proof.
  eapply (rtc_l _ _ w_signed).
  { apply (step_sign w0 0 eve "s1" (applyTokenOptions []) rnd start false token info); [done | by apply not_elem_of_nil | done | done]. }
  eapply rtc_l; [| apply rtc_refl]. by apply (step_store w_signed 0 info).
Qed.

Lemma run_revoked : rtc step w0 w_revoked.
Proof.
  eapply rtc_r; [apply run_issued |].
  by apply (step_revoke w_issued 0 token info claims expires); [| left | |].
Qed.

(** A validation that read the clock in time may look at the blacklist when a
    cleanup has dropped the expired entry: the bound of
    [revoked_tokens_rejected] is met. *)
Example late_check : exists w, rtc step w_revoked w /\ at_pc w 1 (Looking claims) /\ clock w = expires + 1.
Proof.
  eexists. split.
  - eapply rtc_l; [by apply (step_parse _ 1 token claims) |].
    eapply rtc_l; [by apply (step_tick _ (expires + 1)) |].
    eapply rtc_l; [by apply step_cleanup_blacklist |].
    eapply rtc_l; [by apply (step_check _ 1 claims) |]. apply rtc_refl.
  - done.
Qed.

(** A token nobody signed, with the identifier of [token] and an expiry long
    past, for [RevokeToken]. *)
Definition forged : Tok :=
  (mkHeader "none" None, mkClaims (c_ID claims) "" [] (Some 0) None None "" "" false "" "" "" [] [] [] [] "" "" "" "" "" "" "" "" "", None).

(** Revoked tokens can be made valid again by anyone who has read one. *)
Example forgery_revives :
  let later := start + Second in
  let revoked := (RevokeToken token jm1).1 in
  let revived := (CleanupBlacklist later (RevokeToken forged revoked).1).1 in
  (ValidateToken later later token revoked).2 = Err TokenBlacklisted /\
  (ValidateToken later later token revived).2 = Ok claims.
Proof. by vm_compute. Qed.

(** Refresh tokens pass where access tokens do; what is refreshed with them has
    no roles. *)
Example refreshed_without_roles :
  let admin := mkUserInfo "ann" "" false "" "" "" "" [] ["system-admin"] ["*"] [] "github" "" "" in
  match GenerateTokenPair (Some admin) "s1" [] (mkIssue start rnd start) (mkIssue start (Some "fedcba9876543210") start) jm0 with
  | (jm, Ok (access, refresh)) =>
      c_Roles <$> (match (ValidateToken start start access jm).2 with Ok c => Some c | Err _ => None end) = Some ["system-admin"] /\
      match RefreshAccessToken start start refresh [] (mkIssue start (Some "0000000000000000") start) jm with
      | (jm, Ok (access, _)) =>
          c_Roles <$> (match (ValidateToken start start access jm).2 with Ok c => Some c | Err _ => None end) = Some []
      | _ => False
      end
  | _ => False
  end.
Proof. by vm_compute. Qed.

(** Tokens of [GenerateToken] are not stored: revoking the user's tokens leaves
    them valid; and custom claims replace the manager's own. *)
Example legacy_claims_override :
  legacyClaims jm0 eve {[ "sub" := ClaimString "admin" ]} 0 "id" start !! "sub" = Some (ClaimString "admin").
Proof. by vm_compute. Qed.

(** After a rotation no older token is valid. *)
Example rotation_invalidates :
  let rotated := (rotateSigningKey (Ok 8%nat) rnd start jm1).1 in
  is_ok (ValidateToken start start token jm1).2 = true /\ is_ok (ValidateToken start start token rotated).2 = false.
Proof. by vm_compute. Qed.


Lemma user_revocation_complete_witness :
  checkBlacklist (RevokeUserTokens "eve" jm1).1 claims = Err TokenBlacklisted.
Proof.
  destruct (user_revocation_complete w0 w_issued sealed_initial run_issued) as [_ Hseq].
  apply (Hseq "eve" [info]); [reflexivity |]. right. by exists info.
Defined.

Lemma issued_token_validates_witness :
  exists c, (ValidateToken (start + Minute) start token jm1).2 = Ok c /\ carries claims c.
Proof.
  apply (issued_token_validates jm0 jm1 jm1 eve "s1" [] start rnd start token info (start + Minute) start);
    [reflexivity | reflexivity | reflexivity | by vm_compute].
Defined.

End Sealed.
