(* ===== verification/SessionManager.v ===== *)
(** * SessionManager: logins through providers and the sessions they make

    Follows pkg/auth/session_manager.go over the access control ([Rbac]) and the
    tokens ([JwtManager], behind the interface [UserTokens]).  The providers of
    pkg/auth/providers are its interface [OAuthProvider]: what they answer depends
    on what the outside world says in the call, an argument [E].  Sessions are
    values in the manager's map; a caller of [ValidateSession] reads the session
    it was given a pointer to, after a refresh it may have made. *)

From S2P Require Import Prelude GoFloat GoCrypto.
From S2P Require Import Rbac JwtManager.
From stdpp Require Import relations.
Local Open Scope Z_scope.

Record PKCEChallenge := mkPKCE { CodeVerifier : string; CodeChallenge : string; Method : string }.

(** The fields of a provider's answer that this package reads. *)
Record TokenResponse := mkTokenResponse { r_AccessToken : string; r_RefreshToken : string; r_IDToken : string }.

Class OAuthProvider (P E : Type) := {
  GetProviderName : P -> string;
  GetAuthorizationURL : P -> E -> string -> string -> bool -> gmap string string -> result string (string * option PKCEChallenge);
  ExchangeCodeForToken : P -> E -> string -> string -> option PKCEChallenge -> result string TokenResponse;
  ProviderRefreshToken : P -> E -> string -> result string TokenResponse;
  GetUserInfo : P -> E -> string -> result string UserInfo;
  SupportsTokenRevocation : P -> bool
}.

(** What the session manager asks of the tokens. *)
Class UserTokens (J : Type) := { revokeUserTokens : string -> J -> J }.

#[export] Instance jwt_user_tokens {Key Pub Token S B} `{!JWT Key Pub Token} `{!TokenStore S} `{!TokenBlacklist B}
  : UserTokens (JWTManager Key Pub S B) := {| revokeUserTokens u jm := (JwtManager.RevokeUserTokens u jm).1 |}.

(** encoding/json, reading attributes into an object of strings. *)
Class AttributesJSON := { parseAttributes : RawMessage -> option (gmap string (option string)) }.

(** What the access control reads of a user. *)
Definition rbacInfo `{!AttributesJSON} (u : UserInfo) : Rbac.UserInfo :=
  Rbac.mkUserInfo (u_Subject u) (u_Groups u) (u_Roles u) (extractOrganizationNames (u_Organizations u)) (u_Provider u)
    (parseAttributes (u_Attributes u)).

(** ** Data *)

Record UserSession := mkSession {
  s_ID : string;
  s_UserID : string;
  s_UserInfo : UserInfo;
  s_Provider : string;
  s_AccessToken : string;
  s_RefreshToken : string;
  s_IDToken : string;
  s_CreatedAt : Time;
  s_LastActivity : Time;
  s_ExpiresAt : Time;
  s_IPAddress : string;
  s_UserAgent : string;
  s_Roles : list string;
  s_Permissions : list string;
  s_Attributes : RawMessage;
  s_SSOEnabled : bool;
  s_CSRFToken : string;
  s_SecureContext : bool
}.

Record State := mkState {
  a_State : string;
  a_Provider : string;
  a_RedirectURI : string;
  a_PKCEChallenge : option PKCEChallenge;
  a_CreatedAt : Time;
  a_ExpiresAt : Time;
  a_IPAddress : string;
  a_UserAgent : string;
  a_CustomParams : gmap string string
}.

Record SessionConfig := mkSessionConfig {
  SessionTimeout : Duration;
  RefreshThreshold : Duration;
  MaxSessions : Z;
  SecureCookies : bool;
  SameSiteCookies : string;
  CookieDomain : string;
  CookiePath : string;
  EnableSSO : bool;
  EnableCSRF : bool;
  StateTimeout : Duration;
  RequireHTTPS : bool;
  CleanupInterval : Duration
}.

Record LoginRequest := mkLogin {
  l_Provider : string;
  l_RedirectURI : string;
  l_State : string;
  l_Options : gmap string string;
  l_IPAddress : string;
  l_UserAgent : string
}.

Record LoginResponse := mkLoginResponse { AuthURL : string; lr_State : string; PKCEChallengeText : string }.

Record CallbackRequest := mkCallback {
  q_Provider : string;
  q_Code : string;
  q_State : string;
  q_RedirectURI : string;
  q_IPAddress : string;
  q_UserAgent : string
}.

(** [CallbackResponse]: of a success the session and the user, or an error
    text. *)
Inductive CallbackResponse :=
| CallbackSuccess (session : UserSession) (u : UserInfo)
| CallbackFailure (text : string).

Record SessionInfo := mkSessionInfo {
  i_ID : string;
  i_UserID : string;
  i_Provider : string;
  i_CreatedAt : Time;
  i_LastActivity : Time;
  i_ExpiresAt : Time;
  i_IPAddress : string;
  i_UserAgent : string;
  i_Roles : list string;
  i_SSOEnabled : bool;
  i_UserInfo : option UserInfo
}.

Record SessionData := mkSessionData {
  d_UserID : string;
  d_Username : string;
  d_Email : string;
  d_DisplayName : string;
  d_Provider : string;
  d_Groups : list string;
  d_Roles : list string
}.

Inductive SessionError :=
| UnknownProvider (name : string)
| AuthorizationURLFailed (why : string)
| SessionNotFound
| SessionExpired
| ProviderNotAvailable
| TokenRefreshFailed (why : string)
| MaximumSessionsExceeded.

Definition DefaultSessionConfig : SessionConfig :=
  mkSessionConfig (24 * Hour) (15 * Minute) 10 true "Strict" "" "/" true true (10 * Minute) true (1 * Hour).

(** 16 or 32 random bytes in hexadecimal. *)
Definition generateSessionID (b : option string) (now : Time) : string := generateTokenID b now.
Definition generateState (b : option string) (now : Time) : string := generateTokenID b now.
Definition generateCSRFToken (b : option string) (now : Time) : string := generateTokenID b now.

(** A random identifier: the bytes, or the clock. *)
Record Random := mkRandom { bytes_of : option string; drawn_at : Time }.

Section Manager.
  Context {P E J : Type} `{!OAuthProvider P E} `{!UserTokens J} `{!AttributesJSON}.

Record SessionManager := mkSessionManager {
  sessions : gmap string UserSession;
  jwtManager : option J;
  rbacManager : option RBACManager;
  providers : gmap string P;
  config : SessionConfig;
  stateStore : gmap string State
}.

Definition NewSessionManager (c : option SessionConfig) (jm : option J) (rbac : option RBACManager) : SessionManager :=
  mkSessionManager ∅ jm rbac ∅ (default DefaultSessionConfig c) ∅.

(** [time.NewTicker] panics for intervals that are not positive; the cleanup's
    goroutine makes one at its start. *)
Definition cleanupLoop_panics (c : SessionConfig) : bool := CleanupInterval c <=? 0.

Definition with_sessions (m : gmap string UserSession) (sm : SessionManager) : SessionManager :=
  mkSessionManager m (jwtManager sm) (rbacManager sm) (providers sm) (config sm) (stateStore sm).
Definition with_states (m : gmap string State) (sm : SessionManager) : SessionManager :=
  mkSessionManager (sessions sm) (jwtManager sm) (rbacManager sm) (providers sm) (config sm) m.
Definition with_rbac (r : option RBACManager) (sm : SessionManager) : SessionManager :=
  mkSessionManager (sessions sm) (jwtManager sm) r (providers sm) (config sm) (stateStore sm).
Definition with_jwt (j : option J) (sm : SessionManager) : SessionManager :=
  mkSessionManager (sessions sm) j (rbacManager sm) (providers sm) (config sm) (stateStore sm).

Definition RegisterProvider (p : P) (sm : SessionManager) : SessionManager :=
  mkSessionManager (sessions sm) (jwtManager sm) (rbacManager sm) (<[GetProviderName (E := E) p := p]> (providers sm)) (config sm)
    (stateStore sm).

(** ** Logging in *)

(** [t1], [t2]: the instants of creation and expiry. *)
Definition InitiateLogin (q : LoginRequest) (e : E) (rnd : Random) (t1 t2 : Time) (sm : SessionManager)
  : SessionManager * result SessionError LoginResponse :=
  match providers sm !! l_Provider q with
  | None => (sm, Err (UnknownProvider (l_Provider q)))
  | Some p =>
      let state := if String.eqb (l_State q) "" then generateState (bytes_of rnd) (drawn_at rnd) else l_State q in
      match GetAuthorizationURL p e state (l_RedirectURI q) (EnableCSRF (config sm)) (l_Options q) with
      | Err why => (sm, Err (AuthorizationURLFailed why))
      | Ok (url, challenge) =>
          let a := mkState state (l_Provider q) (l_RedirectURI q) challenge t1 (time_Add t2 (StateTimeout (config sm)))
                     (l_IPAddress q) (l_UserAgent q) (l_Options q) in
          (with_states (<[state := a]> (stateStore sm)) sm,
           Ok (mkLoginResponse url state (from_option CodeChallenge "" challenge)))
      end
  end.

Definition belongs (userID : string) (s : UserSession) : bool := String.eqb (s_UserID s) userID.
Definition alive (now : Time) (s : UserSession) : bool := time_Before now (s_ExpiresAt s).

(** The user's sessions that have not expired. *)
Definition userSessionCount (userID : string) (now : Time) (m : gmap string UserSession) : Z :=
  Z.of_nat (size (filter (λ '(_, s), (belongs userID s && alive now s) = true) m)).

Definition enforceSessionLimits (userID : string) (now : Time) (sm : SessionManager) : result SessionError unit :=
  if MaxSessions (config sm) <=? 0 then Ok tt
  else if MaxSessions (config sm) <=? userSessionCount userID now (sessions sm) then Err MaximumSessionsExceeded
  else Ok tt.

(** The instants at which a callback reads the clock. *)
Record CallbackTimes := mkCallbackTimes {
  at_state : Time;
  at_cache : Time;
  at_stored : Time;
  at_created : Time;
  at_activity : Time;
  at_expiry : Time;
  at_limit : Time
}.

(** Roles are assigned from the claims of the provider, then looked up. *)
Definition assignRoles (u : UserInfo) (t : CallbackTimes) (sm : SessionManager)
  : SessionManager * list string * list string :=
  match rbacManager sm with
  | None => (sm, [], [])
  | Some r =>
      let r := AssignRolesFromClaims (rbacInfo u) r in
      let rs := GetUserRoles (u_Subject u) r in
      let '(r, ps) := GetUserPermissions (u_Subject u) (at_cache t) (at_stored t) r in
      (with_rbac (Some r) sm, rs, ps)
  end.

Definition createUserSession (u : UserInfo) (tr : TokenResponse) (q : CallbackRequest) (id csrf : Random)
  (t : CallbackTimes) (sm : SessionManager) : SessionManager * result SessionError UserSession :=
  let '(sm, rs, ps) := assignRoles u t sm in
  let sessionID := generateSessionID (bytes_of id) (drawn_at id) in
  let session :=
    mkSession sessionID (u_Subject u) u (u_Provider u) (r_AccessToken tr) (r_RefreshToken tr) (r_IDToken tr)
      (at_created t) (at_activity t) (time_Add (at_expiry t) (SessionTimeout (config sm))) (q_IPAddress q) (q_UserAgent q)
      rs ps (u_Attributes u) (EnableSSO (config sm)) (generateCSRFToken (bytes_of csrf) (drawn_at csrf))
      (RequireHTTPS (config sm)) in
  match enforceSessionLimits (u_Subject u) (at_limit t) sm with
  | Err e => (sm, Err e)
  | Ok _ => (with_sessions (<[sessionID := session]> (sessions sm)) sm, Ok session)
  end.

(** [e1], [e2]: the outside world during the exchange and the request for the
    user. *)
Definition HandleCallback (q : CallbackRequest) (e1 e2 : E) (id csrf : Random) (t : CallbackTimes) (sm : SessionManager)
  : SessionManager * CallbackResponse :=
  match stateStore sm !! q_State q with
  | None => (sm, CallbackFailure "Invalid or expired state parameter")
  | Some a =>
      if time_After (at_state t) (a_ExpiresAt a)
      then (with_states (delete (q_State q) (stateStore sm)) sm, CallbackFailure "Authorization state has expired")
      else if negb (String.eqb (a_Provider a) (q_Provider q)) then (sm, CallbackFailure "Provider mismatch in callback")
      else
        match providers sm !! q_Provider q with
        | None => (sm, CallbackFailure "Unknown provider")
        | Some p =>
            match ExchangeCodeForToken p e1 (q_Code q) (q_RedirectURI q) (a_PKCEChallenge a) with
            | Err _ => (sm, CallbackFailure "Failed to exchange authorization code")
            | Ok tr =>
                match GetUserInfo p e2 (r_AccessToken tr) with
                | Err _ => (sm, CallbackFailure "Failed to retrieve user information")
                | Ok u =>
                    match createUserSession u tr q id csrf t sm with
                    | (sm, Err _) => (sm, CallbackFailure "Failed to create user session")
                    | (sm, Ok s) => (with_states (delete (q_State q) (stateStore sm)) sm, CallbackSuccess s u)
                    end
                end
            end
        end
  end.

(** Sessions made for users of other kinds (LDAP), without a limit. *)
Definition CreateSession (d : SessionData) (id : Random) (now : Time) (sm : SessionManager) : SessionManager * UserSession :=
  let sessionID := generateSessionID (bytes_of id) (drawn_at id) in
  let u := mkUserInfo "" (d_Email d) false (d_DisplayName d) "" "" (d_Username d) (d_Groups d) (d_Roles d) [] [] "" "" "" in
  let session := mkSession sessionID (d_UserID d) u (d_Provider d) "" "" "" now now
                   (time_Add now (SessionTimeout (config sm))) "" "" (d_Roles d) [] "" false "" false in
  (with_sessions (<[sessionID := session]> (sessions sm)) sm, session).

(** ** Using a session *)

Definition set_LastActivity (t : Time) (s : UserSession) : UserSession :=
  mkSession (s_ID s) (s_UserID s) (s_UserInfo s) (s_Provider s) (s_AccessToken s) (s_RefreshToken s) (s_IDToken s)
    (s_CreatedAt s) t (s_ExpiresAt s) (s_IPAddress s) (s_UserAgent s) (s_Roles s) (s_Permissions s) (s_Attributes s)
    (s_SSOEnabled s) (s_CSRFToken s) (s_SecureContext s).

(** The first section of [GetSession]: [SessionExpired] when the session is to be
    deleted, under another lock. *)
Definition lookSession (sessionID : string) (t1 t2 : Time) (sm : SessionManager)
  : SessionManager * result SessionError UserSession :=
  match sessions sm !! sessionID with
  | None => (sm, Err SessionNotFound)
  | Some s =>
      if time_After t1 (s_ExpiresAt s) then (sm, Err SessionExpired)
      else let s := set_LastActivity t2 s in (with_sessions (<[sessionID := s]> (sessions sm)) sm, Ok s)
  end.

Definition dropSession (sessionID : string) (sm : SessionManager) : SessionManager :=
  with_sessions (delete sessionID (sessions sm)) sm.

Definition GetSession (sessionID : string) (t1 t2 : Time) (sm : SessionManager)
  : SessionManager * result SessionError UserSession :=
  match lookSession sessionID t1 t2 sm with
  | (sm, Err SessionExpired) => (dropSession sessionID sm, Err SessionExpired)
  | other => other
  end.

Definition refreshed (tr : TokenResponse) (expiresAt activity : Time) (s : UserSession) : UserSession :=
  mkSession (s_ID s) (s_UserID s) (s_UserInfo s) (s_Provider s) (r_AccessToken tr)
    (if String.eqb (r_RefreshToken tr) "" then s_RefreshToken s else r_RefreshToken tr)
    (if String.eqb (r_IDToken tr) "" then s_IDToken s else r_IDToken tr)
    (s_CreatedAt s) activity expiresAt (s_IPAddress s) (s_UserAgent s) (s_Roles s) (s_Permissions s) (s_Attributes s)
    (s_SSOEnabled s) (s_CSRFToken s) (s_SecureContext s).

(** [t1]: the clock at the test, [t2] and [t3] when the session is renewed.
    Whether it has expired is not asked. *)
Definition RefreshSession (sessionID : string) (e : E) (t1 t2 t3 : Time) (sm : SessionManager)
  : SessionManager * result SessionError unit :=
  match sessions sm !! sessionID with
  | None => (sm, Err SessionNotFound)
  | Some s =>
      if RefreshThreshold (config sm) <? time_Sub (s_ExpiresAt s) t1 then (sm, Ok tt)
      else
        match providers sm !! s_Provider s with
        | None => (sm, Err ProviderNotAvailable)
        | Some p =>
            match ProviderRefreshToken p e (s_RefreshToken s) with
            | Err why => (sm, Err (TokenRefreshFailed why))
            | Ok tr =>
                (with_sessions (<[sessionID := refreshed tr (time_Add t2 (SessionTimeout (config sm))) t3 s]> (sessions sm)) sm,
                 Ok tt)
            end
        end
  end.

Definition infoOf (u : option UserInfo) (s : UserSession) : SessionInfo :=
  mkSessionInfo (s_ID s) (s_UserID s) (s_Provider s) (s_CreatedAt s) (s_LastActivity s) (s_ExpiresAt s) (s_IPAddress s)
    (s_UserAgent s) (s_Roles s) (s_SSOEnabled s) u.

Record ValidateTimes := mkValidateTimes { v_look : Time; v_activity : Time; v_until : Time; v_refresh : Time; v_expiry : Time; v_renewed : Time }.

(** Uninterrupted: the pointer [GetSession] gave shows the session in the map. *)
Definition ValidateSession (sessionID : string) (e : E) (t : ValidateTimes) (sm : SessionManager)
  : SessionManager * result SessionError SessionInfo :=
  match GetSession sessionID (v_look t) (v_activity t) sm with
  | (sm, Err err) => (sm, Err err)
  | (sm, Ok s) =>
      let sm := if time_Sub (s_ExpiresAt s) (v_until t) <? RefreshThreshold (config sm)
                then (RefreshSession sessionID e (v_refresh t) (v_expiry t) (v_renewed t) sm).1 else sm in
      let s := default s (sessions sm !! sessionID) in
      (sm, Ok (infoOf (Some (s_UserInfo s)) s))
  end.

(** ** Ending sessions *)

Definition revokeTokens (userID : string) (sm : SessionManager) : SessionManager :=
  with_jwt (revokeUserTokens userID <$> jwtManager sm) sm.

(** Revoking the token at the provider changes nothing here. *)
Definition RevokeSession (sessionID : string) (sm : SessionManager) : SessionManager * result SessionError unit :=
  match sessions sm !! sessionID with
  | None => (sm, Err SessionNotFound)
  | Some s => (dropSession sessionID (revokeTokens (s_UserID s) sm), Ok tt)
  end.

Definition RevokeUserSessions (userID : string) (sm : SessionManager) : SessionManager :=
  revokeTokens userID (with_sessions (filter (λ '(_, s), belongs userID s = false) (sessions sm)) sm).

Definition InvalidateSession (sessionID : string) (sm : SessionManager) : SessionManager * result SessionError unit :=
  match sessions sm !! sessionID with
  | None => (sm, Err SessionNotFound)
  | Some _ => (dropSession sessionID sm, Ok tt)
  end.

(** In the map's order, that is, any. *)
Definition ListUserSessions (userID : string) (now : Time) (sm : SessionManager) : list SessionInfo :=
  infoOf None <$> List.filter (λ s, belongs userID s && alive now s) (snd <$> map_to_list (sessions sm)).

Definition cleanupExpiredSessions (now : Time) (sm : SessionManager) : SessionManager :=
  with_sessions (filter (λ '(_, s), time_After now (s_ExpiresAt s) = false) (sessions sm)) sm.

Definition cleanupExpiredStates (now : Time) (sm : SessionManager) : SessionManager :=
  with_states (filter (λ '(_, a), time_After now (a_ExpiresAt a) = false) (stateStore sm)) sm.

Record SessionMetrics := mkSessionMetrics { active_sessions : Z; expired_sessions : Z; total_sessions : Z; provider_counts : gmap string Z }.

Definition GetSessionMetrics (now : Time) (sm : SessionManager) : SessionMetrics :=
  let all := snd <$> map_to_list (sessions sm) in
  let live := List.filter (alive now) all in
  mkSessionMetrics (Z.of_nat (length live)) (Z.of_nat (length all - length live)) (Z.of_nat (size (sessions sm)))
    (foldr (λ s m, <[s_Provider s := default 0 (m !! s_Provider s) + 1]> m) ∅ live).

End Manager.
Arguments SessionManager : clear implicits.

(** The cookie of a session; [SameSite] is left to the browser for any other
    text of the configuration. *)
Inductive SameSite := SameSiteStrict | SameSiteLax | SameSiteNone | SameSiteUnset.

Definition sameSiteOf (c : SessionConfig) : SameSite :=
  if String.eqb (SameSiteCookies c) "Strict" then SameSiteStrict
  else if String.eqb (SameSiteCookies c) "Lax" then SameSiteLax
  else if String.eqb (SameSiteCookies c) "None" then SameSiteNone else SameSiteUnset.

Record Cookie := mkCookie { Value : string; Path : string; Domain : string; Secure : bool; HttpOnly : bool; MaxAge : Z; Site : SameSite }.

(** [int(d.Seconds())] *)
Definition Seconds (d : Duration) : Z :=
  f64_to_int (f64_add (f64_of_int (Z.quot d Second)) (f64_div (f64_of_int (Z.rem d Second)) (f64_of_int 1000000000))).

Definition SetSessionCookie (c : SessionConfig) (sessionID : string) : Cookie :=
  mkCookie sessionID (CookiePath c) (CookieDomain c) (SecureCookies c) true (Seconds (SessionTimeout c)) (sameSiteOf c).
Definition ClearSessionCookie (c : SessionConfig) : Cookie :=
  mkCookie "" (CookiePath c) (CookieDomain c) false true (-1) SameSiteUnset.

(** ** Interleaved calls *)

Section System.
  Context {P E J : Type} `{!OAuthProvider P E} `{!UserTokens J} `{!AttributesJSON}.
  Local Abbreviation SM := (SessionManager P J).

(** A caller of [GetSession] that has seen an expired session is without a lock
    until it deletes it. *)
Inductive Caller := Ready | Deleting (sessionID : string).

(** What happened: a login that was begun, and a session that a callback made. *)
Record Login := mkLoginEvent { g_state : string; g_provider : string; g_expires : Time }.
Record Created := mkCreated { k_session : string; k_state : string; k_provider : string; k_at : Time; k_user : UserInfo }.

(** [external]: sessions made by [CreateSession]; [revived]: sessions refreshed
    after their end. *)
Record World := mkWorld {
  now : Time;
  sm : SM;
  callers : list Caller;
  logins : list Login;
  created : list Created;
  external : gset string;
  revived : gset string
}.

Definition sm_step (t : Time) (s : SM) (w : World) : World :=
  mkWorld t s (callers w) (logins w) (created w) (external w) (revived w).

(** The instants of a call follow each other. *)
Definition increasing (t0 : Time) (t : CallbackTimes) : Prop :=
  t0 <= at_state t /\ at_state t <= at_created t /\ at_created t <= at_expiry t /\ at_expiry t <= at_limit t.

Definition created_by (q : CallbackRequest) (t : CallbackTimes) (r : CallbackResponse) : list Created :=
  match r with
  | CallbackSuccess s u => [mkCreated (s_ID s) (q_State q) (q_Provider q) (at_state t) u]
  | CallbackFailure _ => []
  end.

Definition revived_by (sessionID : string) (t : Time) (s : SM) : gset string :=
  match sessions s !! sessionID with
  | Some x => if alive t x then ∅ else {[ sessionID ]}
  | None => ∅
  end.

Inductive step (w : World) : World -> Prop :=
| step_tick t : now w <= t -> step w (sm_step t (sm w) w)
| step_login q e rnd t1 t2 sm' r : now w <= t1 -> t1 <= t2 -> InitiateLogin q e rnd t1 t2 (sm w) = (sm', Ok r) ->
    step w (mkWorld t2 sm' (callers w)
      (mkLoginEvent (lr_State r) (l_Provider q) (time_Add t2 (StateTimeout (config (sm w)))) :: logins w) (created w) (external w) (revived w))
| step_callback q e1 e2 id csrf t sm' r : increasing (now w) t -> HandleCallback q e1 e2 id csrf t (sm w) = (sm', r) ->
    step w (mkWorld (at_limit t) sm' (callers w) (logins w) (created_by q t r ++ created w) (external w) (revived w))
| step_create d id t : now w <= t ->
    step w (mkWorld t (CreateSession d id t (sm w)).1 (callers w) (logins w) (created w)
      ({[ s_ID (CreateSession d id t (sm w)).2 ]} ∪ external w) (revived w))
| step_look i id t1 t2 sm' r : callers w !! i = Some Ready -> now w <= t1 -> t1 <= t2 -> lookSession id t1 t2 (sm w) = (sm', r) ->
    step w (mkWorld t2 sm' (<[i := match r with Err SessionExpired => Deleting id | _ => Ready end]> (callers w))
      (logins w) (created w) (external w) (revived w))
| step_drop i id : callers w !! i = Some (Deleting id) ->
    step w (mkWorld (now w) (dropSession id (sm w)) (<[i := Ready]> (callers w)) (logins w) (created w) (external w) (revived w))
| step_refresh id e t1 t2 t3 : now w <= t1 -> t1 <= t2 -> t2 <= t3 ->
    step w (mkWorld t3 (RefreshSession id e t1 t2 t3 (sm w)).1 (callers w) (logins w) (created w) (external w)
      (revived_by id t1 (sm w) ∪ revived w))
| step_revoke id : step w (sm_step (now w) (RevokeSession id (sm w)).1 w)
| step_revoke_user u : step w (sm_step (now w) (RevokeUserSessions u (sm w)) w)
| step_invalidate id : step w (sm_step (now w) (InvalidateSession id (sm w)).1 w)
| step_cleanup_sessions : step w (sm_step (now w) (cleanupExpiredSessions (now w) (sm w)) w)
| step_cleanup_states : step w (sm_step (now w) (cleanupExpiredStates (now w) (sm w)) w)
| step_provider p : step w (sm_step (now w) (RegisterProvider (E := E) p (sm w)) w)
| step_rbac op : step w (sm_step (now w) (with_rbac ((λ r, run_op r op) <$> rbacManager (sm w)) (sm w)) w).

(** ** What a callback does *)

Lemma assignRoles_keeps u t (m : SM) : let m' := (assignRoles u t m).1.1 in
  sessions m' = sessions m /\ stateStore m' = stateStore m /\ config m' = config m /\ providers m' = providers m.
Proof. unfold assignRoles. destruct (rbacManager m) as [r|]; [| done]. by destruct (GetUserPermissions _ _ _ _). Qed.

(** A session is made of a login's state that is known and has not expired, for the
    provider of the login, and the user that provider names. *)
Record from_login (q : CallbackRequest) (e2 : E) (t : CallbackTimes) (m m' : SM) (s : UserSession) (u : UserInfo) : Prop := {
  fl_state : exists a, stateStore m !! q_State q = Some a /\ at_state t <= a_ExpiresAt a /\ a_Provider a = q_Provider q;
  fl_user : exists p tok, providers m !! q_Provider q = Some p /\ GetUserInfo p e2 tok = Ok u;
  fl_UserID : s_UserID s = u_Subject u;
  fl_sessions : sessions m' = <[s_ID s := s]> (sessions m);
  fl_stateStore : stateStore m' = delete (q_State q) (stateStore m);
  fl_config : config m' = config m;
  fl_limit : 0 < MaxSessions (config m) -> userSessionCount (u_Subject u) (at_limit t) (sessions m) < MaxSessions (config m)
}.

Lemma HandleCallback_cases q e1 e2 id csrf t (m m' : SM) r : HandleCallback q e1 e2 id csrf t m = (m', r) ->
  match r with
  | CallbackSuccess s u => from_login q e2 t m m' s u
  | CallbackFailure _ => sessions m' = sessions m /\ stateStore m' ⊆ stateStore m /\ config m' = config m
  end.
Proof.
  unfold HandleCallback. destruct (stateStore m !! q_State q) as [a|] eqn:Ea; [| by intros [= <- <-]].
  destruct (time_After _ _) eqn:Et; [intros [= <- <-]; split; [done | split; [apply delete_subseteq | done]] |].
  destruct (String.eqb_spec (a_Provider a) (q_Provider q)) as [Hp |]; simpl; [| by intros [= <- <-]].
  destruct (providers m !! q_Provider q) as [p|] eqn:Ep; [| by intros [= <- <-]].
  destruct (ExchangeCodeForToken _ _ _ _ _) as [tr|]; [| by intros [= <- <-]].
  destruct (GetUserInfo p e2 _) as [u|] eqn:Eu; [| by intros [= <- <-]].
  unfold createUserSession. pose proof (assignRoles_keeps u t m) as Hk.
  destruct (assignRoles u t m) as [[m1 rs] ps]. simpl in Hk. destruct Hk as (Hs & Hst & Hc & _).
  unfold enforceSessionLimits. rewrite Hs, Hc.
  assert (stateStore m1 ⊆ stateStore m) by by rewrite Hst.
  destruct (MaxSessions (config m) <=? 0) eqn:E0; [| destruct (MaxSessions (config m) <=? userSessionCount (u_Subject u) (at_limit t) (sessions m)) eqn:El].
  2: by intros [= <- <-].
  all: intros [= <- <-]; split; simpl; rewrite ?Hs, ?Hst, ?Hc; try done; try lia.
  all: try (exists a; split_and!; [done | by time_lia | done]).
  all: by eexists _, _.
Qed.

Lemma lookSession_cases id t1 t2 (m m' : SM) r : lookSession id t1 t2 m = (m', r) ->
  m' = m \/ exists s, sessions m !! id = Some s /\ m' = with_sessions (<[id := set_LastActivity t2 s]> (sessions m)) m.
Proof.
  unfold lookSession. destruct (sessions m !! id) as [s|]; [| by intros [= <- <-]; left].
  destruct (time_After _ _); intros [= <- <-]; [by left | right; by exists s].
Qed.

Lemma RefreshSession_cases id e t1 t2 t3 (m : SM) : let m' := (RefreshSession id e t1 t2 t3 m).1 in
  m' = m \/ exists s tr, sessions m !! id = Some s /\
    m' = with_sessions (<[id := refreshed tr (time_Add t2 (SessionTimeout (config m))) t3 s]> (sessions m)) m.
Proof.
  unfold RefreshSession. destruct (sessions m !! id) as [s|]; [| by left]. destruct (_ <? _); [by left |].
  destruct (providers m !! _); [| by left]. destruct (ProviderRefreshToken _ _ _) as [tr|]; [| by left].
  right. by exists s, tr.
Qed.

(** ** Where sessions come from *)

Definition of_state {A} (f : A -> string) (s : string) (x : A) : bool := String.eqb (f x) s.

(** A session that a callback made has its login, and its user was named by a
    provider. *)
Definition authentic (w : World) (k : Created) : Prop :=
  (exists l, l ∈ logins w /\ g_state l = k_state k /\ g_provider l = k_provider k /\ k_at k <= g_expires l) /\
  exists p e tok, GetUserInfo (P := P) (E := E) p e tok = Ok (k_user k).

Record provenance (w : World) : Prop := {
  states_begun : forall s a, stateStore (sm w) !! s = Some a -> mkLoginEvent s (a_Provider a) (a_ExpiresAt a) ∈ logins w;
  states_counted : forall s, countb (of_state k_state s) (created w) + Z.b2z (bool_decide (is_Some (stateStore (sm w) !! s)))
    <= countb (of_state g_state s) (logins w);
  created_authentic : Forall (authentic w) (created w);
  sessions_made : forall id s, sessions (sm w) !! id = Some s -> id ∈ external w \/
    exists k, k ∈ created w /\ k_session k = id /\ s_UserID s = u_Subject (k_user k)
}.

(** A step that begins no login and makes no session. *)
Lemma provenance_frame w w' : provenance w -> logins w' = logins w -> created w' = created w -> external w ⊆ external w' ->
  stateStore (sm w') ⊆ stateStore (sm w) ->
  (forall id s, sessions (sm w') !! id = Some s -> id ∈ external w' \/
     exists s0, sessions (sm w) !! id = Some s0 /\ s_UserID s = s_UserID s0) ->
  provenance w'.
Proof.
  intros [H1 H2 H3 H4] Hl Hc He Hst Hs. split.
  - intros s a Ha. rewrite Hl. apply H1. by eapply lookup_weaken.
  - intros s. rewrite Hl, Hc. specialize (H2 s). assert (Z.b2z (bool_decide (is_Some (stateStore (sm w') !! s))) <=
      Z.b2z (bool_decide (is_Some (stateStore (sm w) !! s)))); [| lia].
    destruct (bool_decide (is_Some (stateStore (sm w') !! s))) eqn:Hx; [| by destruct (bool_decide _)].
    apply bool_decide_eq_true in Hx as [a Ha]. rewrite bool_decide_true; [done |]. exists a. by eapply lookup_weaken.
  - rewrite Hc. eapply Forall_impl; [exact H3 |]. intros k [(l & ? & ?) ?]. split; [| done]. exists l. by rewrite Hl.
  - intros id s [? | (s0 & Hs0 & E0)]%Hs; [by left |]. apply H4 in Hs0 as [? | (k & ? & ? & ?)]; [left; by apply He |].
    right. exists k. rewrite Hc. split_and!; congruence.
Qed.

Lemma InitiateLogin_cases q e rnd t1 t2 (m m' : SM) r : InitiateLogin q e rnd t1 t2 m = (m', Ok r) ->
  exists a, m' = with_states (<[lr_State r := a]> (stateStore m)) m /\ a_Provider a = l_Provider q /\
    a_ExpiresAt a = time_Add t2 (StateTimeout (config m)).
Proof.
  unfold InitiateLogin. destruct (providers m !! l_Provider q) as [p|]; [| done].
  destruct (GetAuthorizationURL _ _ _ _ _ _) as [[url challenge]|]; [| done].
  intros [= <- <-]. simpl. by eexists.
Qed.

Lemma revoke_keeps u (m : SM) : sessions (revokeTokens u m) = sessions m /\ stateStore (revokeTokens u m) = stateStore m /\
  config (revokeTokens u m) = config m.
Proof. done. Qed.

Lemma RevokeSession_sessions id (m : SM) : sessions (RevokeSession id m).1 ⊆ sessions m /\
  stateStore (RevokeSession id m).1 = stateStore m /\ config (RevokeSession id m).1 = config m.
Proof. unfold RevokeSession. destruct (sessions m !! id); [| done]. split; [apply delete_subseteq | done]. Qed.

Lemma InvalidateSession_sessions id (m : SM) : sessions (InvalidateSession id m).1 ⊆ sessions m /\
  stateStore (InvalidateSession id m).1 = stateStore m /\ config (InvalidateSession id m).1 = config m.
Proof. unfold InvalidateSession. destruct (sessions m !! id); [| done]. split; [apply delete_subseteq | done]. Qed.

(** What a step does to the sessions: every one of afterwards was there before,
    for the same user, alive if it is alive; or it is new, external or
    revived. *)
Definition carried_over (w w' : World) : Prop :=
  forall id s, sessions (sm w') !! id = Some s ->
    exists s0, sessions (sm w) !! id = Some s0 /\ s_UserID s = s_UserID s0 /\
      (alive (now w') s = true -> alive (now w) s0 = true \/ id ∈ revived w').

Lemma carried_subset w w' : sessions (sm w') ⊆ sessions (sm w) -> now w <= now w' -> carried_over w w'.
Proof.
  intros Hs Ht id s Hx. exists s. split; [by eapply lookup_weaken | split; [done |]].
  unfold alive. intros Ha. left. time_lia.
Qed.

Lemma carried_insert w w' id s0 s : sessions (sm w) !! id = Some s0 -> sessions (sm w') = <[id := s]> (sessions (sm w)) ->
  s_UserID s = s_UserID s0 -> now w <= now w' -> (alive (now w') s = true -> alive (now w) s0 = true \/ id ∈ revived w') ->
  carried_over w w'.
Proof.
  intros H0 Hs Hu Ht Ha i x. rewrite Hs. intros [[<- <-] | [Hne Hx]]%lookup_insert_Some; [by exists s0 |].
  exists x. split; [done | split; [done |]]. unfold alive. intros ?. left. time_lia.
Qed.

(** A step that neither makes a session nor begins a login. *)
Record quiet (w w' : World) : Prop := {
  q_logins : logins w' = logins w;
  q_created : created w' = created w;
  q_external : external w' = external w;
  q_revived : revived w ⊆ revived w';
  q_states : stateStore (sm w') ⊆ stateStore (sm w);
  q_config : config (sm w') = config (sm w);
  q_now : now w <= now w';
  q_carried : carried_over w w'
}.

Inductive outcome (w w' : World) : Prop :=
| o_quiet : quiet w w' -> outcome w w'
| o_login s a : w' = mkWorld (now w') (with_states (<[s := a]> (stateStore (sm w))) (sm w)) (callers w)
    (mkLoginEvent s (a_Provider a) (a_ExpiresAt a) :: logins w) (created w) (external w) (revived w) ->
    now w <= now w' -> outcome w w'
| o_created q e2 t s u : from_login q e2 t (sm w) (sm w') s u -> increasing (now w) t ->
    w' = mkWorld (at_limit t) (sm w') (callers w) (logins w)
      (mkCreated (s_ID s) (q_State q) (q_Provider q) (at_state t) u :: created w) (external w) (revived w) -> outcome w w'
| o_external s : sessions (sm w') = <[s_ID s := s]> (sessions (sm w)) -> stateStore (sm w') = stateStore (sm w) ->
    config (sm w') = config (sm w) -> now w <= now w' ->
    w' = mkWorld (now w') (sm w') (callers w) (logins w) (created w) ({[ s_ID s ]} ∪ external w) (revived w) -> outcome w w'.

Lemma refresh_carried w id e t1 t2 t3 : now w <= t1 -> t1 <= t2 -> t2 <= t3 ->
  quiet w (mkWorld t3 (RefreshSession id e t1 t2 t3 (sm w)).1 (callers w) (logins w) (created w) (external w)
    (revived_by id t1 (sm w) ∪ revived w)).
Proof.
  intros H1 H2 H3. destruct (RefreshSession_cases id e t1 t2 t3 (sm w)) as [-> | (s & tr & Hs & ->)].
  - split; simpl; try done; [set_solver | lia |]. apply carried_subset; simpl; [done | lia].
  - split; simpl; try done; [set_solver | lia |].
    eapply carried_insert; [exact Hs | done | done | simpl; lia |]. simpl. intros _.
    destruct (alive t1 s) eqn:Ea.
    + left. revert Ea. unfold alive. intros Ea. time_lia.
    + right. unfold revived_by. rewrite Hs, Ea. set_solver.
Qed.

Lemma step_outcome w w' : step w w' -> outcome w w'.
Proof.
  intros Hs. destruct Hs as [t Ht | q e rnd t1 t2 m r H1 H2 E1 | q e1 e2 id csrf t m r Ht E1 | d id t Ht
    | i id t1 t2 m r Hc H1 H2 E1 | i id Hc | id e t1 t2 t3 H1 H2 H3 | id | u | id | | | p | op].
  - apply o_quiet. split; try done. by apply carried_subset.
  - apply InitiateLogin_cases in E1 as (a & -> & Hp & He). eapply (o_login _ _ (lr_State r) a); simpl; [| lia].
    by rewrite Hp, He.
  - apply HandleCallback_cases in E1. destruct r as [s u | text]; [by eapply o_created |].
    destruct E1 as (E1 & E2 & E3). apply o_quiet. split; simpl; try done; [destruct Ht; lia |].
    apply carried_subset; simpl; [by rewrite E1 | destruct Ht; lia].
  - by eapply (o_external _ _ (CreateSession d id t (sm w)).2).
  - apply o_quiet. destruct (lookSession_cases _ _ _ _ _ _ E1) as [-> | (s & Hs & ->)]; split; simpl; try done; try lia.
    + apply carried_subset; simpl; [done | lia].
    + eapply carried_insert; [exact Hs | done | done | simpl; lia |]. unfold alive. simpl. intros ?. left. time_lia.
  - apply o_quiet. split; simpl; try done. apply carried_subset; simpl; [apply delete_subseteq | lia].
  - apply o_quiet. by apply refresh_carried.
  - apply o_quiet. destruct (RevokeSession_sessions id (sm w)) as (? & Hst & ?).
    split; simpl; try done; [by rewrite Hst |]. apply carried_subset; simpl; [done | lia].
  - apply o_quiet. split; simpl; try done. apply carried_subset; simpl; [apply map_filter_subseteq | lia].
  - apply o_quiet. destruct (InvalidateSession_sessions id (sm w)) as (? & Hst & ?).
    split; simpl; try done; [by rewrite Hst |]. apply carried_subset; simpl; [done | lia].
  - apply o_quiet. split; simpl; try done. apply carried_subset; simpl; [apply map_filter_subseteq | lia].
  - apply o_quiet. split; simpl; try done; [apply map_filter_subseteq |]. apply carried_subset; simpl; [done | lia].
  - apply o_quiet. split; simpl; try done. apply carried_subset; simpl; [done | lia].
  - apply o_quiet. split; simpl; try done. apply carried_subset; simpl; [done | lia].
Qed.

Lemma of_state_refl {A} (f : A -> string) x : of_state f (f x) x = true.
Proof. apply String.eqb_refl. Qed.

Lemma authentic_mono w w' k : logins w ⊆ logins w' -> authentic w k -> authentic w' k.
Proof. intros Hl [(l & ? & ?) ?]. split; [| done]. exists l. split; [by apply Hl | done]. Qed.

Lemma login_provenance w s a t : provenance w ->
  provenance (mkWorld t (with_states (<[s := a]> (stateStore (sm w))) (sm w)) (callers w)
    (mkLoginEvent s (a_Provider a) (a_ExpiresAt a) :: logins w) (created w) (external w) (revived w)).
Proof.
  intros [H1 H2 H3 H4]. split; simpl.
  - intros s' a' [[<- <-] | [_ Ha]]%lookup_insert_Some; [by left | right; by apply H1].
  - intros s'. specialize (H2 s'). unfold of_state at 2. simpl. destruct (String.eqb_spec s s') as [<- | Hne].
    + rewrite lookup_insert_eq. rewrite bool_decide_true by done.
      destruct (bool_decide _); simpl in *; lia.
    + rewrite lookup_insert_ne by done. simpl. lia.
  - eapply Forall_impl; [exact H3 |]. intros k. apply authentic_mono. simpl. set_solver.
  - exact H4.
Qed.

Lemma created_provenance w m' q e2 t s u : provenance w -> from_login q e2 t (sm w) m' s u ->
  provenance (mkWorld (at_limit t) m' (callers w) (logins w)
    (mkCreated (s_ID s) (q_State q) (q_Provider q) (at_state t) u :: created w) (external w) (revived w)).
Proof.
  intros [H1 H2 H3 H4] [(a & Ha & Hexp & Hp) (p & tok & _ & Hu) HU Hs Hst _ _].
  split; simpl; rewrite ?Hs, ?Hst.
  - intros s' a' Hx. apply H1. eapply lookup_weaken; [exact Hx | apply delete_subseteq].
  - intros s'. specialize (H2 s'). unfold of_state at 1. simpl. destruct (String.eqb_spec (q_State q) s') as [<- | Hne].
    + rewrite lookup_delete_eq. rewrite bool_decide_true in H2 by done. rewrite bool_decide_false by (by intros [? ?]).
      simpl in *. lia.
    + rewrite lookup_delete_ne by done. simpl. lia.
  - constructor; [| done]. split; [| by exists p, e2, tok].
    eexists. split; [by apply H1 | done].
  - intros id x [[<- <-] | [_ Hx]]%lookup_insert_Some.
    + right. eexists. split; [by left | done].
    + apply H4 in Hx as [? | (k & ? & ?)]; [by left | right]. exists k. split; [by right | done].
Qed.

Lemma step_provenance w w' : step w w' -> provenance w -> provenance w'.
Proof.
  intros [Hq | s a Ew _ | q e2 t s u Hf _ Ew | s Hs Hst _ _ Ew]%step_outcome Hp.
  - destruct Hq. apply (provenance_frame w); try done; [set_solver |].
    intros id s Hx. right. destruct (q_carried0 id s Hx) as (s0 & ? & ? & _). by exists s0.
  - rewrite Ew. by apply login_provenance.
  - rewrite Ew. by eapply created_provenance.
  - rewrite Ew. apply (provenance_frame w); simpl; try done; [set_solver | by rewrite Hst |].
    intros id x. rewrite Hs. intros [[<- <-] | [_ Hx]]%lookup_insert_Some; [left; set_solver | right; by exists x].
Qed.

(** ** How many sessions a user has *)

(** The user's sessions that have not expired, made by callbacks and never
    refreshed after their end. *)
Definition counted (w : World) (u : string) : gmap string UserSession :=
  filter (λ '(id, s), (belongs u s && alive (now w) s) = true /\ (id ∉ external w) /\ (id ∉ revived w)) (sessions (sm w)).

Definition limited (w : World) : Prop :=
  0 < MaxSessions (config (sm w)) -> forall u, Z.of_nat (size (counted w u)) <= MaxSessions (config (sm w)).

Lemma counted_lookup w u id s : counted w u !! id = Some s <->
  sessions (sm w) !! id = Some s /\ s_UserID s = u /\ (alive (now w) s = true) /\ (id ∉ external w) /\ (id ∉ revived w).
Proof.
  unfold counted, belongs. rewrite map_lookup_filter_Some, andb_true_iff, String.eqb_eq. tauto.
Qed.

Lemma size_by_keys {A B} (m1 : gmap string A) (m2 : gmap string B) :
  (forall id x, m1 !! id = Some x -> is_Some (m2 !! id)) -> (size m1 <= size m2)%nat.
Proof.
  intros Hk. rewrite <- !size_dom. apply subseteq_size. intros id [x Hx]%elem_of_dom.
  apply elem_of_dom. by eapply Hk.
Qed.

Lemma counted_quiet w w' u : quiet w w' -> (size (counted w' u) <= size (counted w u))%nat.
Proof.
  intros Hq. destruct Hq. apply size_by_keys. intros id x (Hx & Hu & Ha & He & Hr)%counted_lookup.
  destruct (q_carried0 id x Hx) as (s0 & Hs & Hus & Hal). destruct (Hal Ha); [| done].
  exists s0. apply counted_lookup. split_and!; [done | congruence | done | by rewrite <- q_external0 | set_solver].
Qed.

(** With a session more: its owner's were below the limit. *)
Lemma counted_created w w' q e2 t s u v : from_login q e2 t (sm w) (sm w') s u -> increasing (now w) t ->
  now w' = at_limit t -> external w' = external w -> revived w' = revived w -> limited w ->
  0 < MaxSessions (config (sm w)) -> Z.of_nat (size (counted w' v)) <= MaxSessions (config (sm w)).
Proof.
  intros [_ _ HU Hs _ Hc Hl] (T1 & T2 & T3 & T4) Hn He Hr Hlim Hpos. destruct (decide (v = u_Subject u)) as [-> | Hv].
  - specialize (Hl Hpos). unfold userSessionCount in Hl. set (m := filter _ _) in Hl.
    assert (size (counted w' (u_Subject u)) <= size (<[s_ID s := s]> m))%nat.
    { apply size_by_keys. intros id x (Hx & Hu & Ha & _)%counted_lookup. rewrite lookup_insert_is_Some'.
      rewrite Hs in Hx. apply lookup_insert_Some in Hx as [[<- _] | [_ Hx]]; [by left | right].
      exists x. apply map_lookup_filter_Some. split; [done |]. rewrite <- Hn, Ha. unfold belongs.
      by rewrite (proj2 (String.eqb_eq _ _) Hu). }
    rewrite map_size_insert in *. destruct (m !! s_ID s); simpl in *; lia.
  - assert (size (counted w' v) <= size (counted w v))%nat; [| specialize (Hlim Hpos v); lia].
    apply size_by_keys. intros id x (Hx & Hu & Ha & He' & Hr')%counted_lookup. rewrite Hs in Hx.
    apply lookup_insert_Some in Hx as [[_ <-] | [_ Hx]]; [congruence |]. exists x. apply counted_lookup.
    split_and!; [done | done | | by rewrite <- He | by rewrite <- Hr]. revert Ha. unfold alive. rewrite Hn. intros Ha. time_lia.
Qed.

Lemma step_limited w w' : step w w' -> limited w -> limited w' /\ config (sm w') = config (sm w).
Proof.
  intros [Hq | s a Ew Ht | q e2 t s u Hf Ht Ew | s Hs Hst Hc Ht Ew]%step_outcome Hl.
  - split; [| apply Hq]. intros Hpos v. rewrite (q_config _ _ Hq) in *. specialize (Hl Hpos v).
    pose proof (counted_quiet w w' v Hq). lia.
  - rewrite Ew. split; [| done]. intros Hpos v. specialize (Hl Hpos v).
    assert (size (counted w' v) <= size (counted w v))%nat; [| rewrite Ew in *; simpl in *; lia].
    apply size_by_keys. intros id x (Hx & Hu & Ha & He & Hr)%counted_lookup. rewrite Ew in Hx, He, Hr. exists x.
    apply counted_lookup. split_and!; [done | done | | done | done]. revert Ha. unfold alive. intros Ha. time_lia.
  - split; [| apply Hf]. intros Hpos v. rewrite (fl_config _ _ _ _ _ _ _ Hf) in *.
    eapply counted_created; [exact Hf | exact Ht | by rewrite Ew..| done | done].
  - split; [| done]. intros Hpos v. rewrite Hc in *. specialize (Hl Hpos v).
    assert (size (counted w' v) <= size (counted w v))%nat; [| lia].
    apply size_by_keys. intros id x (Hx & Hu & Ha & He & Hr)%counted_lookup. rewrite Hs in Hx. rewrite Ew in He, Hr. simpl in He, Hr.
    apply lookup_insert_Some in Hx as [[<- _] | [_ Hx]]; [set_solver |]. exists x. apply counted_lookup.
    split_and!; [done | done | | set_solver | done]. revert Ha. unfold alive. intros Ha. time_lia.
Qed.

Record initial (w : World) : Prop := {
  initial_sessions : sessions (sm w) = ∅;
  initial_states : stateStore (sm w) = ∅;
  initial_created : created w = [];
}.

Lemma initial_provenance w : initial w -> provenance w.
Proof.
  intros [Hs Hst Hc]. split; rewrite ?Hs, ?Hst, ?Hc; try done.
  intros s. rewrite lookup_empty, bool_decide_false by (by intros [? ?]). apply countb_nonneg.
Qed.

Lemma reachable_provenance w0 w : initial w0 -> rtc step w0 w -> provenance w.
Proof.
  intros H0%initial_provenance Hw. induction Hw as [| w0 w1 w2 Hs _ IH]; [done |]. apply IH. by eapply step_provenance.
Qed.

Lemma reachable_limited w0 w : limited w0 -> rtc step w0 w -> limited w /\ config (sm w) = config (sm w0).
Proof.
  intros H0 Hw. induction Hw as [| w0 w1 w2 Hs _ IH]; [done |].
  destruct (step_limited _ _ Hs H0) as [H1 <-]. by apply IH.
Qed.

(** C14 - Sessions come from logins: in whatever order logins, callbacks, refreshes,
    revocations and cleanups happen, a session that was not made by
    [CreateSession] belongs to a user that a provider named, in a callback for a
    login with that provider that had not expired; and the callbacks with a state
    never make more sessions than logins were begun with it. *)
Theorem sessions_come_from_logins w0 w : initial w0 -> rtc step w0 w ->
  (forall id s, sessions (sm w) !! id = Some s -> id ∉ external w ->
     exists k l p e tok, k ∈ created w /\ k_session k = id /\ l ∈ logins w /\ g_state l = k_state k /\
       g_provider l = k_provider k /\ k_at k <= g_expires l /\
       GetUserInfo (P := P) (E := E) p e tok = Ok (k_user k) /\ s_UserID s = u_Subject (k_user k)) /\
  (forall s, countb (of_state k_state s) (created w) <= countb (of_state g_state s) (logins w)).
Proof.
  intros H0 Hw. destruct (reachable_provenance w0 w H0 Hw) as [_ H2 H3 H4]. split.
  - intros id s [? | (k & Hk & Hid & HU)]%H4 He; [done |]. rewrite Forall_forall in H3.
    destruct (H3 k Hk) as [(l & ? & ? & ? & ?) (p & e & tok & ?)]. by exists k, l, p, e, tok.
  - intros s. specialize (H2 s). assert (forall b, 0 <= Z.b2z b) as Hb by (by intros []).
    specialize (Hb (bool_decide (is_Some (stateStore (sm w) !! s)))). lia.
Qed.

(** C34 - The limit on sessions: with a positive limit, no user ever has more live
    sessions than it, of those that callbacks made and that were not refreshed
    after their end, however logins and refreshes interleave. *)
Theorem live_sessions_limited w0 w u : initial w0 -> rtc step w0 w -> 0 < MaxSessions (config (sm w0)) ->
  Z.of_nat (size (counted w u)) <= MaxSessions (config (sm w0)).
Proof.
  intros [Hs _ _] Hw Hpos. destruct (reachable_limited w0 w) as [Hl Hc]; [| done |].
  - intros _ v. assert (counted w0 v = ∅) as ->; [| rewrite map_size_empty; lia].
    unfold counted. by rewrite Hs, map_filter_empty.
  - rewrite <- Hc in *. by apply Hl.
Qed.

Lemma RevokeUserSessions_spec u (m : SM) :
  (forall id s, sessions (RevokeUserSessions u m) !! id = Some s <-> sessions m !! id = Some s /\ s_UserID s ≠ u) /\
  jwtManager (RevokeUserSessions u m) = revokeUserTokens u <$> jwtManager m.
Proof.
  split; [| done]. intros id s. simpl. rewrite map_lookup_filter_Some. unfold belongs. by rewrite String.eqb_neq.
Qed.

End System.

(** ** Concrete runs

    Providers that take the code for the name of the user. *)
Module Trusting.

#[local] Instance trusting : OAuthProvider string unit := {
  GetProviderName p := p;
  GetAuthorizationURL p _ state _ _ _ := Ok ("https://" +:+ p +:+ "/?state=" +:+ state, None);
  ExchangeCodeForToken _ _ code _ _ := Ok (mkTokenResponse code "refresh" "");
  ProviderRefreshToken _ _ tok := Ok (mkTokenResponse "renewed" "" "");
  GetUserInfo p _ tok := Ok (mkUserInfo tok "" false "" "" "" "" [] [] [] [] p "" "");
  SupportsTokenRevocation _ := false
}.

#[local] Instance no_tokens : UserTokens unit := {| revokeUserTokens _ j := j |}.
#[local] Instance no_attributes : AttributesJSON := {| parseAttributes _ := None |}.

Definition one_session : SessionConfig := mkSessionConfig Hour Minute 1 true "Strict" "" "/" true true (10 * Minute) true Hour.
Definition sm0 : SessionManager string unit :=
  RegisterProvider (E := unit) "github" (NewSessionManager (Some one_session) None (Some (NewRBACManager None 1))).

Abbreviation W := (@World string unit).
Definition w0 : W := mkWorld 0 sm0 [Ready] [] [] ∅ ∅.

Definition login (state : string) : LoginRequest := mkLogin "github" "/" state ∅ "10.0.0.1" "browser".
Definition back (state code : string) : CallbackRequest := mkCallback "github" code state "/" "10.9.9.9" "another browser".
Definition at_once (t : Time) : CallbackTimes := mkCallbackTimes t t t t t t t.

Definition begun (state : string) (t : Time) (w : W) : W :=
  match InitiateLogin (login state) tt (mkRandom None 0) t t (sm w) with
  | (m, Ok r) => mkWorld t m (callers w)
      (mkLoginEvent (lr_State r) "github" (time_Add t (StateTimeout (config (sm w)))) :: logins w) (created w) (external w) (revived w)
  | (_, Err _) => w
  end.

Definition called_back (state code id : string) (t : Time) (w : W) : W :=
  let '(m, r) := HandleCallback (back state code) tt tt (mkRandom (Some id) 0) (mkRandom (Some "csrf") 0) (at_once t) (sm w) in
  mkWorld t m (callers w) (logins w) (created_by (back state code) (at_once t) r ++ created w) (external w) (revived w).

Lemma begun_step state t w : now w <= t -> is_ok (InitiateLogin (login state) tt (mkRandom None 0) t t (sm w)).2 = true ->
  step (E := unit) w (begun state t w).
Proof.
  intros Ht Hok. unfold begun. destruct (InitiateLogin _ _ _ _ _ _) as [m [r | err]] eqn:Ei; [| done].
  by apply (step_login w _ _ _ t t m r Ht (Z.le_refl t)) in Ei.
Qed.

Lemma called_back_step state code id t w : now w <= t -> step (E := unit) w (called_back state code id t w).
Proof.
  intros Ht. unfold called_back. destruct (HandleCallback _ _ _ _ _ _ _) as [m r] eqn:Ei.
  apply (step_callback w (back state code) tt tt (mkRandom (Some id) 0) (mkRandom (Some "csrf") 0) (at_once t) m r); [| done].
  repeat split; simpl; lia.
Qed.

(** ann logs in, from one address, and comes back from another. *)
Definition w1 : W := called_back "state1" "ann" "session1" 5 (begun "state1" 1 w0).

Lemma run_w1 : rtc (step (E := unit)) w0 w1.
Proof.
  eapply rtc_l; [by apply (begun_step "state1" 1) |].
  apply rtc_once, (called_back_step "state1" "ann" "session1" 5 (begun "state1" 1 w0)). by vm_compute.
Qed.

Lemma trusting_initial : initial w0.
Proof. done. Qed.

Definition no_session : UserSession :=
  mkSession "" "" (mkUserInfo "" "" false "" "" "" "" [] [] [] [] "" "" "") "" "" "" "" 0 0 0 "" "" [] [] "" false "" false.

Lemma sessions_come_from_logins_witness :
  exists k l, k ∈ created w1 /\ l ∈ logins w1 /\ g_state l = k_state k /\ u_Subject (k_user k) = "ann".
Proof.
  destruct (sessions_come_from_logins (E := unit) w0 w1 trusting_initial run_w1) as [Hs _].
  destruct (Hs (hex "session1") (default no_session (sessions (sm w1) !! hex "session1")))
    as (k & l & p & e & tok & Hk & _ & Hl & Hst & _ & _ & _ & HU); [reflexivity | apply not_elem_of_empty |].
  exists k, l. split; [exact Hk |]. split; [exact Hl |]. split; [exact Hst |]. rewrite <- HU. reflexivity.
Defined.

Lemma live_sessions_limited_witness : Z.of_nat (size (counted w1 "ann")) <= 1.
Proof. apply (live_sessions_limited (E := unit) w0 w1 "ann" trusting_initial run_w1). reflexivity. Defined.

(** Two hours later she logs in again, and her first session, long over, is
    refreshed: two live sessions where one is allowed. *)
Definition w2 : W := called_back "state2" "ann" "session2" (7200 * Second) (begun "state2" (7200 * Second) w1).

Example refresh_exceeds_limit :
  let later := 7201 * Second in
  userSessionCount "ann" later (sessions (RefreshSession (hex "session1") tt later later later (sm w2)).1) = 2.
Proof. by vm_compute. Qed.

(** A caller that has seen a session end deletes it after its refresh. *)
Example late_delete_drops_refreshed :
  let later := 7201 * Second in
  let '(m1, r) := lookSession (hex "session1") later later (sm w1) in
  let m2 := (RefreshSession (hex "session1") tt later later later m1).1 in
  r = Err SessionExpired /\
  is_ok (lookSession (hex "session1") later later m2).2 = true /\
  sessions (dropSession (hex "session1") m2) !! hex "session1" = None.
Proof. by vm_compute. Qed.

(** Roles taken away stay in the session. *)
Example session_keeps_roles :
  let m := with_rbac ((λ r, run_op r (OpRevoke "ann" "read-only")) <$> rbacManager (sm w1)) (sm w1) in
  (GetUserRoles "ann" <$> rbacManager m) = Some [] /\ (s_Roles <$> sessions m !! hex "session1") = Some ["read-only"].
Proof. by vm_compute. Qed.

End Trusting.

(** manager.go: no interval for the cleanup, whose goroutine panics, and no life
    for states, which are expired when they are made. *)
Definition ManagerSessionConfig (tokenTTL : Duration) : SessionConfig :=
  mkSessionConfig tokenTTL 0 100 true "" "" "" false false 0 false 0.

Example manager_cleanup_panics ttl : cleanupLoop_panics (ManagerSessionConfig ttl) = true.
Proof. done. Qed.

(** oauth2_manager.go: the cookie's text is none of those that are looked for. *)
Definition OAuth2SessionConfig : SessionConfig :=
  mkSessionConfig (24 * Hour) (1 * Hour) 10000 true "strict" "" "/" false true (10 * Minute) true (1 * Hour).

Example oauth2_same_site_unset : Site (SetSessionCookie OAuth2SessionConfig "id") = SameSiteUnset.
Proof. done. Qed.
