(* ===== verification/AuthMiddleware.v ===== *)
(** * AuthMiddleware: who is let through

    Follows the authentication and authorisation middlewares of
    pkg/auth/middleware.go over the sessions, tokens and roles.  The managers the
    middleware is given are those its session manager was built with.  A
    middleware is a function of the request and, behind [AuthenticateMiddleware],
    of the context it puts into it; what is written to the response is its status
    and the CORS headers. *)

From S2P Require Import Prelude GoStrings.
From S2P Require Import Rbac JwtManager SessionManager.
From Stdlib Require Import Ascii.
Local Open Scope Z_scope.

Record MiddlewareConfig := mkMiddlewareConfig {
  SkipAuth : list string;
  EnableCORS : bool;
  AllowedOrigins : list string;
  AllowedMethods : list string;
  AllowedHeaders : list string;
  AllowCredentials : bool;
  CORSMaxAge : Z;
  EnableSecurityHeaders : bool;
  mw_EnableCSRF : bool;
  CSRFTokenHeader : string;
  CSRFSafeMethods : list string
}.

Definition DefaultMiddlewareConfig : MiddlewareConfig :=
  mkMiddlewareConfig
    ["/health"; "/metrics"; "/auth/login"; "/auth/callback"; "/auth/providers"; "/.well-known/"; "/favicon.ico"]
    true ["*"] ["GET"; "POST"; "PUT"; "DELETE"; "OPTIONS"]
    ["Authorization"; "Content-Type"; "X-Requested-With"; "X-CSRF-Token"] true 86400 true true "X-CSRF-Token"
    ["GET"; "HEAD"; "OPTIONS"; "TRACE"].

Record AuthContext := mkAuthContext {
  ctx_UserID : string;
  ctx_SessionID : string;
  ctx_Provider : string;
  ctx_Roles : list string;
  ctx_Permissions : list string;
  ctx_IsAdmin : bool
}.

(** What the middlewares read of a request: absent headers are empty. *)
Record Request := mkRequest {
  req_Path : string;
  req_Method : string;
  req_Cookie : option string;
  req_SessionHeader : string;
  req_Authorization : string;
  req_Origin : string;
  req_CSRFHeader : string;
  req_CSRFForm : string
}.

(** What a middleware does with a request: answer it, or call the next handler
    with the context there is. *)
Inductive Reply :=
| Respond (status : Z)
| Next (ctx : option AuthContext).

(** ** Strings *)

(** [strings.EqualFold] for a text of ASCII letters: the long s and the Kelvin
    sign, here in UTF-8, fold to s and k. *)
Fixpoint fold_ascii (s : string) : string :=
  match s with
  | String "197"%char (String "191"%char s) => String "s" (fold_ascii s)
  | String "226"%char (String "132"%char (String "170"%char s)) => String "k" (fold_ascii s)
  | String a s => String (lower_ascii a) (fold_ascii s)
  | EmptyString => EmptyString
  end.

Definition EqualFold (s t : string) : bool := String.eqb (fold_ascii s) (fold_ascii t).

Definition TrimPrefix (s pre : string) : string :=
  if HasPrefix s pre then String.substring (String.length pre) (String.length s - String.length pre) s else s.

(** ** Tests *)

Definition hasAdminRole (roles : list string) : bool :=
  existsb (λ role, existsb (EqualFold role) ["system-admin"; "admin"; "administrator"]) roles.

Definition shouldSkipAuth (c : MiddlewareConfig) (path : string) : bool := existsb (HasPrefix path) (SkipAuth c).

Definition isSafeMethod (c : MiddlewareConfig) (method : string) : bool := existsb (String.eqb method) (CSRFSafeMethods c).

Definition getSessionID (q : Request) : string :=
  match req_Cookie q with
  | Some v => if String.eqb v "" then req_SessionHeader q else v
  | None => req_SessionHeader q
  end.

(** The headers for requests of other origins: the origin that is let in, and
    whether with its credentials. *)
Record CORSHeaders := mkCORSHeaders { AllowOrigin : option string; AllowCreds : bool }.

Definition handleCORS (c : MiddlewareConfig) (q : Request) : CORSHeaders :=
  mkCORSHeaders (if existsb (λ o, String.eqb o "*" || String.eqb o (req_Origin q)) (AllowedOrigins c)
                 then Some (req_Origin q) else None) (AllowCredentials c).

(** ** The middlewares *)

(** Tokens as the texts they are sent in. *)
Class TokenText (Token : Type) := { token_of : string -> Token }.

(** The instants and answers of one authentication. *)
Record Moment (E : Type) := mkMoment {
  m_world : E;
  m_session : ValidateTimes;
  m_parse : Time;
  m_used : Time;
  m_cache : Time;
  m_stored : Time
}.
Arguments mkMoment {E} _ _ _ _ _ _.
Arguments m_world {E} _.
Arguments m_session {E} _.
Arguments m_parse {E} _.
Arguments m_used {E} _.
Arguments m_cache {E} _.
Arguments m_stored {E} _.

Inductive AuthError :=
| InvalidSession (e : SessionError)
| JWTNotAvailable
| InvalidJWT (e : JWTError)
| InvalidTokenType
| NoCredentials.

Section Middleware.
  Context {P E Key Pub Token S B : Type} `{!OAuthProvider P E} `{!AttributesJSON} `{!TokenText Token}.
  Context `{!JWT Key Pub Token} `{!TokenStore S} `{!TokenBlacklist B}.
  Local Abbreviation JM := (JWTManager Key Pub S B).
  Local Abbreviation SM := (SessionManager P JM).

(** The permissions the roles grant now. *)
Definition getUserPermissions (userID : string) (m : Moment E) (sm : SM) : SM * list string :=
  match rbacManager sm with
  | None => (sm, [])
  | Some r => let '(r, ps) := GetUserPermissions userID (m_cache m) (m_stored m) r in (with_rbac (Some r) sm, ps)
  end.

Definition authenticateWithSession (sessionID : string) (m : Moment E) (sm : SM) : SM * result AuthError AuthContext :=
  match ValidateSession sessionID (m_world m) (m_session m) sm with
  | (sm, Err e) => (sm, Err (InvalidSession e))
  | (sm, Ok i) =>
      let '(sm, ps) := getUserPermissions (i_UserID i) m sm in
      (sm, Ok (mkAuthContext (i_UserID i) (i_ID i) (i_Provider i) (i_Roles i) ps (hasAdminRole (i_Roles i))))
  end.

Definition authenticateWithJWT (tok : Token) (m : Moment E) (sm : SM) : SM * result AuthError AuthContext :=
  match jwtManager sm with
  | None => (sm, Err JWTNotAvailable)
  | Some jm =>
      let '(jm, r) := ValidateToken (m_parse m) (m_used m) tok jm in
      let sm := with_jwt (Some jm) sm in
      match r with
      | Err e => (sm, Err (InvalidJWT e))
      | Ok c =>
          if negb (String.eqb (c_TokenType c) "access") then (sm, Err InvalidTokenType)
          else (sm, Ok (mkAuthContext (c_Subject c) (c_SessionID c) (c_Provider c) (c_Roles c) (c_Permissions c)
                          (hasAdminRole (c_Roles c))))
      end
  end.

Definition authenticateRequest (q : Request) (m : Moment E) (sm : SM) : SM * result AuthError AuthContext :=
  if negb (String.eqb (getSessionID q) "") then authenticateWithSession (getSessionID q) m sm
  else if HasPrefix (req_Authorization q) "Bearer " then
    authenticateWithJWT (token_of (TrimPrefix (req_Authorization q) "Bearer ")) m sm
  else (sm, Err NoCredentials).

Definition AuthenticateMiddleware (c : MiddlewareConfig) (q : Request) (m : Moment E) (sm : SM) : SM * Reply :=
  if shouldSkipAuth c (req_Path q) then (sm, Next None)
  else if EnableCORS c && String.eqb (req_Method q) "OPTIONS" then (sm, Respond 200)
  else
    match authenticateRequest q m sm with
    | (sm, Err _) => (sm, Respond 401)
    | (sm, Ok ctx) => (sm, Next (Some ctx))
    end.

(** A handler that needs a context: 401 without one, 403 when the test fails. *)
Definition requireContext (test : AuthContext -> bool) (ctx : option AuthContext) : Reply :=
  match ctx with
  | None => Respond 401
  | Some a => if test a then Next ctx else Respond 403
  end.

Definition RequirePermissionMiddleware (permission : string) : option AuthContext -> Reply :=
  requireContext (λ a, existsb (λ g, matchesPermission g permission) (ctx_Permissions a)).

Definition RequireRoleMiddleware (role : string) : option AuthContext -> Reply :=
  requireContext (λ a, existsb (λ r, String.eqb r role) (ctx_Roles a)).

Definition RequireAdminMiddleware : option AuthContext -> Reply := requireContext ctx_IsAdmin.

Definition RequireOperator : option AuthContext -> Reply := RequireRoleMiddleware "operator".

Definition CSRFMiddleware (c : MiddlewareConfig) (q : Request) (t1 t2 : Time) (ctx : option AuthContext) (sm : SM) : SM * Reply :=
  if negb (mw_EnableCSRF c) || isSafeMethod c (req_Method q) then (sm, Next ctx)
  else if String.eqb (getSessionID q) "" then (sm, Respond 403)
  else
    match GetSession (getSessionID q) t1 t2 sm with
    | (sm, Err _) => (sm, Respond 403)
    | (sm, Ok s) =>
        let token := if String.eqb (req_CSRFHeader q) "" then req_CSRFForm q else req_CSRFHeader q in
        (sm, if String.eqb token (s_CSRFToken s) then Next ctx else Respond 403)
    end.

(** Authentication, then a guard. *)
Definition guarded (c : MiddlewareConfig) (guard : option AuthContext -> Reply) (q : Request) (m : Moment E) (sm : SM)
  : SM * Reply :=
  match AuthenticateMiddleware c q m sm with
  | (sm, Next ctx) => (sm, guard ctx)
  | answered => answered
  end.

Definition HasPermission (permission : string) (ctx : option AuthContext) : bool :=
  match ctx with None => false | Some a => existsb (λ g, matchesPermission g permission) (ctx_Permissions a) end.
Definition HasRole (role : string) (ctx : option AuthContext) : bool :=
  match ctx with None => false | Some a => existsb (λ r, String.eqb r role) (ctx_Roles a) end.
Definition IsAdmin (ctx : option AuthContext) : bool := match ctx with None => false | Some a => ctx_IsAdmin a end.

End Middleware.

(** ** What a passed guard shows *)

Section Guards.
  Context {P E Key Pub Token S B : Type} `{!OAuthProvider P E} `{!AttributesJSON} `{!TokenText Token}.
  Context `{!JWT Key Pub Token} `{!JWTLaws Key Pub Token} `{!TokenStore S} `{!TokenBlacklist B}.
  Local Abbreviation JM := (JWTManager Key Pub S B).
  Local Abbreviation SM := (SessionManager P JM).

Lemma GetSession_ok id t1 t2 (m m' : SM) s : GetSession id t1 t2 m = (m', Ok s) ->
  exists s0, sessions m !! id = Some s0 /\ t1 <= s_ExpiresAt s0 /\ s = set_LastActivity t2 s0 /\
    m' = with_sessions (<[id := s]> (sessions m)) m.
Proof.
  unfold GetSession, lookSession. destruct (sessions m !! id) as [s0|]; [| done].
  destruct (time_After t1 _) eqn:Et; [done |]. intros [= <- <-]. exists s0. split_and!; [done | by time_lia | done | done].
Qed.

Lemma ValidateSession_ok id e t (m m' : SM) i : ValidateSession id e t m = (m', Ok i) ->
  exists s, sessions m !! id = Some s /\ v_look t <= s_ExpiresAt s /\ i_UserID i = s_UserID s /\ i_Roles i = s_Roles s /\
    rbacManager m' = rbacManager m.
Proof.
  unfold ValidateSession. destruct (GetSession _ _ _ _) as [m1 [s|]] eqn:Eg; [| done].
  apply GetSession_ok in Eg as (s0 & Hs & Ht & -> & ->).
  set (m1 := with_sessions _ _). set (m2 := if _ : bool then _ else _). intros [= <- <-].
  assert (m2 = m1 \/ exists tr x, m2 = with_sessions (<[id := refreshed tr x (v_renewed t) (set_LastActivity (v_activity t) s0)]>
    (sessions m1)) m1) as Hm2.
  { unfold m2. destruct (_ <? _); [| by left].
    destruct (RefreshSession_cases id e (v_refresh t) (v_expiry t) (v_renewed t) m1) as [-> | (y & tr & Hy & ->)]; [by left |].
    right. unfold m1 in Hy. simpl in Hy. rewrite lookup_insert_eq in Hy. injection Hy as <-. by eexists _, _. }
  exists s0. destruct Hm2 as [-> | (tr & x & ->)]; simpl; by rewrite lookup_insert_eq.
Qed.

(** What a session shows of its user. *)
Lemma authenticateWithSession_ok id (m : Moment E) (sm sm' : SM) a : authenticateWithSession id m sm = (sm', Ok a) ->
  exists s, sessions sm !! id = Some s /\ v_look (m_session m) <= s_ExpiresAt s /\ ctx_UserID a = s_UserID s /\
    ctx_IsAdmin a = hasAdminRole (s_Roles s) /\
    forall r, rbacManager sm = Some r -> ctx_Permissions a = (GetUserPermissions (s_UserID s) (m_cache m) (m_stored m) r).2.
Proof.
  unfold authenticateWithSession. destruct (ValidateSession _ _ _ _) as [sm1 [i|]] eqn:Ev; [| done].
  apply ValidateSession_ok in Ev as (s & Hs & Ht & HU & HR & Hr). unfold getUserPermissions. rewrite Hr.
  destruct (rbacManager sm) as [r|].
  - rewrite HU. destruct (GetUserPermissions _ _ _ r) as [r' ps] eqn:Ep. intros [= <- <-]. exists s. simpl. rewrite HR.
    split_and!; try done. intros r0 [= <-]. by rewrite Ep.
  - intros [= <- <-]. exists s. simpl. rewrite HR. by split_and!.
Qed.

(** What a token shows of its bearer. *)
Lemma authenticateWithJWT_ok tok (m : Moment E) (sm sm' : SM) a : authenticateWithJWT tok m sm = (sm', Ok a) ->
  exists jm c, jwtManager sm = Some jm /\ ParseUnverified tok = Ok c /\ in_window (m_parse m) c /\
    checkBlacklist jm c = Ok tt /\ c_TokenType c = "access" /\ ctx_UserID a = c_Subject c /\ ctx_Permissions a = c_Permissions c.
Proof.
  unfold authenticateWithJWT. destruct (jwtManager sm) as [jm|]; [| done].
  unfold ValidateToken. destruct (parseToken _ _ _) as [c|] eqn:Ep; simpl; [| done].
  destruct (checkBlacklist jm c) as [[]|] eqn:Eb; simpl; [| done].
  destruct (String.eqb_spec (c_TokenType c) "access"); simpl; [| done]. intros [= <- <-].
  apply parseToken_valid in Ep as [Hp Hw]. by exists jm, c.
Qed.


End Guards.

(** ** Concrete requests *)
Module Requests.
Import SessionManager.Trusting JwtManager.Sealed.

#[local] Existing Instances trusting no_attributes sealed sealed_laws.
(** The only token there is. *)
#[local] Instance one_token : TokenText Tok := {| token_of _ := token |}.

Abbreviation SM := (SessionManager string Manager).

Definition operators : RBACManager := run [OpGrant "ann" "system-admin"] (NewRBACManager None 1).

Definition ann : UserInfo := mkUserInfo "ann" "" false "" "" "" "" [] [] [] [] "github" "" "".
Definition ann_session : UserSession :=
  mkSession "s1" "ann" ann "github" "" "" "" 0 0 Hour "" "" ["system-admin"] [] "" true "csrf" true.

Definition sm1 : SM := mkSessionManager {[ "s1" := ann_session ]} (Some jm1) (Some operators) ∅ one_session ∅.

Definition with_cookie (id : string) : Request := mkRequest "/api" "POST" (Some id) "" "" "https://evil.example" "" "".
Definition moment : Moment unit := mkMoment tt (mkValidateTimes 5 5 5 5 5 5) start start 5 5.

Definition answer : SM * Reply :=
  guarded DefaultMiddlewareConfig (RequirePermissionMiddleware "e2:control") (with_cookie "s1") moment sm1.

Definition ann_context : AuthContext :=
  mkAuthContext "ann" "s1" "github" ["system-admin"] (calculateUserPermissions operators "ann") true.

Lemma let_through : answer = (answer.1, Next (Some ann_context)).
Proof. rewrite (surjective_pairing answer) at 1. assert (answer.2 = Next (Some ann_context)) as -> by (by vm_compute). done. Qed.

Lemma ann_holds_roles : rolesOf operators "ann" ≠ [].
Proof. by vm_compute. Qed.


(** An administrator whose role is revoked remains one for as long as the session
    lives. *)
Example stale_admin :
  let revoked := with_rbac (Some (run_op operators (OpRevoke "ann" "system-admin"))) sm1 in
  GetUserRoles "ann" (run_op operators (OpRevoke "ann" "system-admin")) = [] /\
  match guarded DefaultMiddlewareConfig RequireAdminMiddleware (with_cookie "s1") moment revoked with
  | (_, Next (Some a)) => ctx_IsAdmin a = true /\ ctx_Permissions a = []
  | _ => False
  end.
Proof. by vm_compute. Qed.

(** The predefined roles do not name the one operators need. *)
Example no_predefined_operator :
  existsb (λ r, String.eqb (role_ID r) "operator")
    [SystemAdminRole 0; IntentOperatorRole 0; E2ManagerRole 0; ReadOnlyRole 0] = false.
Proof. done. Qed.

(** By default pages of any origin may send requests with the user's
    credentials. *)
Example any_origin_with_credentials :
  handleCORS DefaultMiddlewareConfig (with_cookie "s1") = mkCORSHeaders (Some "https://evil.example") true.
Proof. done. Qed.

(** Paths are skipped by prefix. *)
Example skipped_by_prefix : shouldSkipAuth DefaultMiddlewareConfig "/metrics-admin/reset" = true.
Proof. done. Qed.

(** Clients with tokens have no session, and fail the protection against forged
    requests. *)
Example tokens_fail_csrf :
  (CSRFMiddleware DefaultMiddlewareConfig (mkRequest "/api" "POST" None "" "Bearer t" "" "" "") 5 5 None sm1).2 = Respond 403.
Proof. done. Qed.

End Requests.
