(* ===== verification/AuthHandlers.v ===== *)
(** * AuthHandlers: what requests do to tokens and sessions

    Follows the handlers of pkg/auth/handlers.go that change tokens and sessions,
    and [RefreshTokens] of manager.go and auth_manager.go.  Requests are what the
    handlers read of them; a response is its kind and what it carries. *)

From S2P Require Import Prelude GoStrings.
From S2P Require Import Rbac JwtManager SessionManager AuthMiddleware.
Local Open Scope Z_scope.

Inductive HandlerError :=
| MethodNotAllowed
| NotSupported
| InvalidRequest
| InvalidGrant
| Unauthorized
| NotFound
| Forbidden
| ServerError
| RevocationFailed
| Panics.

(** The instants, random bytes and outside answers of one refresh. *)
Record RefreshTimes := mkRefreshTimes { rt_parse : Time; rt_used : Time; rt_access : Issue; rt_refresh : Issue }.

Section Handlers.
  Context {Key Pub Token S B : Type} `{!JWT Key Pub Token} `{!TokenStore S} `{!TokenBlacklist B}.
  Local Abbreviation JM := (JWTManager Key Pub S B).

(** [body]: the token of the request, if it can be read.  A token without an
    expiry is the end of the request: [RevokeToken] dereferences it. *)
Definition RefreshTokenHandler (enabled : bool) (body : option Token) (t : RefreshTimes) (jm : JM)
  : JM * result HandlerError (Token * Token) :=
  if negb enabled then (jm, Err NotSupported)
  else
    match body with
    | None => (jm, Err InvalidRequest)
    | Some tok =>
        match ValidateToken (rt_parse t) (rt_used t) tok jm with
        | (jm, Err _) => (jm, Err InvalidGrant)
        | (jm, Ok c) =>
            if negb (String.eqb (c_TokenType c) "refresh") then (jm, Err InvalidGrant)
            else
              match GenerateTokenPair (Some (userOfClaims c)) (c_SessionID c) [] (rt_access t) (rt_refresh t) jm with
              | (jm, Err _) => (jm, Err ServerError)
              | (jm, Ok ts) =>
                  match RevokeToken tok jm with
                  | (jm, Err NilDereference) => (jm, Err Panics)
                  | (jm, _) => (jm, Ok ts)
                  end
              end
        end
    end.

Definition RevokeTokenHandler (enabled : bool) (body : option Token) (jm : JM) : JM * result HandlerError unit :=
  if negb enabled then (jm, Err NotSupported)
  else
    match body with
    | None => (jm, Err InvalidRequest)
    | Some tok =>
        match RevokeToken tok jm with
        | (jm, Err NilDereference) => (jm, Err Panics)
        | (jm, Err _) => (jm, Err RevocationFailed)
        | (jm, Ok _) => (jm, Ok tt)
        end
    end.

(** manager.go: any valid token will do. *)
Definition Manager_RefreshTokens (tok : Token) (t : RefreshTimes) (jm : JM) : JM * result JWTError (Token * Token) :=
  match ValidateToken (rt_parse t) (rt_used t) tok jm with
  | (jm, Err e) => (jm, Err e)
  | (jm, Ok c) =>
      let u := mkUserInfo (c_Subject c) (c_Email c) false (c_Name c) (c_PreferredName c) "" "" [] (c_Roles c) [] [] (c_Provider c) "" "" in
      match GenerateTokenPair (Some u) ("session-" +:+ c_Subject c) [] (rt_access t) (rt_refresh t) jm with
      | (jm, Err e) => (jm, Err e)
      | (jm, Ok ts) =>
          match RevokeToken tok jm with
          | (jm, Err NilDereference) => (jm, Err NilDereference)
          | (jm, _) => (jm, Ok ts)
          end
      end
  end.

(** auth_manager.go: the old token stays. *)
Definition AuthManager_RefreshTokens (tok : Token) (t : RefreshTimes) (jm : JM) : JM * result JWTError (Token * Token) :=
  match ValidateToken (rt_parse t) (rt_used t) tok jm with
  | (jm, Err e) => (jm, Err e)
  | (jm, Ok c) =>
      if negb (String.eqb (c_TokenType c) "refresh") then (jm, Err NotRefreshToken)
      else
        let u := mkUserInfo (c_Subject c) (c_Subject c) false (c_Subject c) "" "" "" [] (c_Roles c) [] [] "" "" "" in
        GenerateTokenPair (Some u) (c_SessionID c) [] (rt_access t) (rt_refresh t) jm
  end.

End Handlers.

Section Sessions.
  Context {P E Key Pub Token S B : Type} `{!OAuthProvider P E} `{!AttributesJSON} `{!TokenText Token}.
  Context `{!JWT Key Pub Token} `{!TokenStore S} `{!TokenBlacklist B}.
  Local Abbreviation SM := (SessionManager P (JWTManager Key Pub S B)).

(** A bearer token of the request. *)
Definition bearer (q : Request) : option Token :=
  if HasPrefix (req_Authorization q) "Bearer " then Some (token_of (TrimPrefix (req_Authorization q) "Bearer ")) else None.

Definition nonempty (v : option string) : option string :=
  match v with Some x => if String.eqb x "" then None else Some x | None => None end.

(** The session a request names: in a cookie, the header, or its token. *)
Definition handlerSessionID (q : Request) (legacyCookie : option string) (t1 t2 : Time) (sm : SM) : SM * string :=
  match nonempty (req_Cookie q), nonempty legacyCookie, nonempty (Some (req_SessionHeader q)) with
  | Some v, _, _ | None, Some v, _ | None, None, Some v => (sm, v)
  | None, None, None =>
      match bearer q, jwtManager sm with
      | Some tok, Some jm =>
          let '(jm, r) := ValidateToken t1 t2 tok jm in
          (with_jwt (Some jm) sm, match r with Ok c => c_SessionID c | Err _ => "" end)
      | _, _ => (sm, "")
      end
  end.

(** The token of the request is revoked without being validated. *)
Definition LogoutHandler (q : Request) (legacyCookie : option string) (t1 t2 : Time) (sm : SM)
  : SM * result HandlerError unit :=
  if negb (String.eqb (req_Method q) "POST") then (sm, Err MethodNotAllowed)
  else
    let '(sm, sessionID) := handlerSessionID q legacyCookie t1 t2 sm in
    let '(sm, r) :=
      match bearer q, jwtManager sm with
      | Some tok, Some jm =>
          match RevokeToken tok jm with
          | (jm, Ok _) => (with_jwt (Some jm) sm, Ok tt)
          | (jm, Err NilDereference) => (with_jwt (Some jm) sm, Err Panics)
          | (jm, Err _) => (with_jwt (Some jm) sm, Err ServerError)
          end
      | _, _ => (sm, Ok tt)
      end in
    match r with
    | Err e => (sm, Err e)
    | Ok _ =>
        if String.eqb sessionID "" then (sm, Ok tt)
        else match RevokeSession sessionID sm with (sm, Ok _) => (sm, Ok tt) | (sm, Err _) => (sm, Err ServerError) end
    end.

(** Users end their own sessions, administrators any. *)
Definition RevokeSessionHandler (sessionID : string) (ctx : option AuthContext) (t1 t2 : Time) (sm : SM)
  : SM * result HandlerError unit :=
  match ctx with
  | None => (sm, Err Unauthorized)
  | Some a =>
      match GetSession sessionID t1 t2 sm with
      | (sm, Err _) => (sm, Err NotFound)
      | (sm, Ok s) =>
          if negb (String.eqb (s_UserID s) (ctx_UserID a)) && negb (ctx_IsAdmin a) then (sm, Err Forbidden)
          else match RevokeSession sessionID sm with (sm, Ok _) => (sm, Ok tt) | (sm, Err _) => (sm, Err ServerError) end
      end
  end.

(** Who a request is from, for a handler behind no middleware: the permissions of
    a session are its roles. *)
Definition resolveAuthContext (q : Request) (legacyCookie : option string) (e : E) (t : ValidateTimes) (t1 t2 t3 t4 : Time)
  (ctx : option AuthContext) (sm : SM) : SM * option AuthContext :=
  match ctx with
  | Some a => (sm, Some a)
  | None =>
      let '(sm, sessionID) := handlerSessionID q legacyCookie t1 t2 sm in
      let '(sm, found) :=
        if String.eqb sessionID "" then (sm, None)
        else match ValidateSession sessionID e t sm with
             | (sm, Ok i) => (sm, Some (mkAuthContext (i_UserID i) (i_ID i) (i_Provider i) (i_Roles i) (i_Roles i) false))
             | (sm, Err _) => (sm, None)
             end in
      match found with
      | Some a => (sm, Some a)
      | None =>
          match bearer q, jwtManager sm with
          | Some tok, Some jm =>
              let '(jm, r) := ValidateToken t3 t4 tok jm in
              (with_jwt (Some jm) sm,
               match r with
               | Ok c => if String.eqb (c_TokenType c) "access"
                         then Some (mkAuthContext (c_Subject c) (c_SessionID c) (c_Provider c) (c_Roles c) (c_Permissions c) false)
                         else None
               | Err _ => None
               end)
          | _, _ => (sm, None)
          end
      end
  end.

(** The token is made, stored and thrown away: the response is empty. *)
Definition GenerateTokenHandler (enabled : bool) (ctx : option AuthContext) (body : option (list TokenOption)) (t1 t2 : Time) (i : Issue)
  (sm : SM) : SM * result HandlerError unit :=
  if negb enabled then (sm, Err NotSupported)
  else
    match ctx, body with
    | None, _ => (sm, Err Unauthorized)
    | Some _, None => (sm, Err InvalidRequest)
    | Some a, Some options =>
        match GetSession (ctx_SessionID a) t1 t2 sm with
        | (sm, Err _) => (sm, Err ServerError)
        | (sm, Ok s) =>
            match jwtManager sm with
            | None => (sm, Err Panics)
            | Some jm =>
                let '(jm, r) := GenerateAccessToken (Some (s_UserInfo s)) (s_ID s) options (at_ i) (random i) (id_at i) jm in
                (with_jwt (Some jm) sm, match r with Ok _ => Ok tt | Err _ => Err ServerError end)
            end
        end
    end.

End Sessions.

(** ** Refreshing *)

Section Rotation.
  Context {Key Pub Token S B : Type} `{!JWT Key Pub Token} `{!JWTLaws Key Pub Token}.
  Context `{!TokenStore S} `{!TokenBlacklist B} `{!BlacklistLaws B}.
  Local Abbreviation JM := (JWTManager Key Pub S B).

(** The identifiers of the tokens that a sequence of requests has refreshed. *)
Fixpoint refreshes (reqs : list (option Token * RefreshTimes)) (jm : JM) : list string * JM :=
  match reqs with
  | [] => ([], jm)
  | (body, t) :: reqs =>
      let '(jm1, r) := RefreshTokenHandler true body t jm in
      let '(ids, jm2) := refreshes reqs jm1 in
      (match body, r with
       | Some tok, Ok _ => match ParseUnverified tok with Ok c => c_ID c :: ids | Err _ => ids end
       | _, _ => ids
       end, jm2)
  end.

Definition blacklisted (jm : JM) (id : string) : Prop := is_Some (listed (blacklist jm) !! id).

Lemma ValidateToken_blacklist now used tok (jm : JM) : blacklist (ValidateToken now used tok jm).1 = blacklist jm.
Proof. unfold ValidateToken. by destruct (let? c := _ in _). Qed.

Lemma GenerateTokenPair_blacklist u sid o i1 i2 (jm : JM) : blacklist (GenerateTokenPair u sid o i1 i2 jm).1 = blacklist jm.
Proof.
  unfold GenerateTokenPair, GenerateAccessToken, GenerateRefreshToken. destruct u as [u|]; [| done].
  destruct (sign jm _); [| done]. simpl. by destruct (sign _ _).
Qed.

Lemma RevokeToken_blacklist tok (jm : JM) id : blacklisted jm id -> blacklisted (RevokeToken tok jm).1 id.
Proof.
  unfold blacklisted, RevokeToken. destruct (ParseUnverified tok) as [c|]; [| done]. destruct (c_ExpiresAt c); [| done].
  rewrite revoke_listed, lookup_insert_is_Some'. tauto.
Qed.

(** A refresh that succeeds is of a token that was not blacklisted and now is. *)
Lemma refresh_blacklists tok t (jm jm' : JM) ts c : RefreshTokenHandler true (Some tok) t jm = (jm', Ok ts) ->
  ParseUnverified tok = Ok c -> ~ blacklisted jm (c_ID c) /\ blacklisted jm' (c_ID c).
Proof.
  unfold RefreshTokenHandler. simpl. intros Hh Hp.
  pose proof (ValidateToken_blacklist (rt_parse t) (rt_used t) tok jm) as Hb1. revert Hh Hb1.
  unfold ValidateToken at 1. destruct (parseToken _ tok jm) as [c'|] eqn:Ep; simpl; [| done].
  apply parseToken_valid in Ep as [Hp' _]. assert (c' = c) as -> by congruence.
  destruct (checkBlacklist jm c) as [[]|] eqn:Eb; simpl; [| done].
  destruct (negb _); [done |]. match goal with |- context [GenerateTokenPair ?u ?s ?o ?i ?j ?m] =>
    pose proof (GenerateTokenPair_blacklist u s o i j m) as Hb2; destruct (GenerateTokenPair u s o i j m) as [m2 [pr|]] eqn:Eg end; [| done].
  intros Hh _. split.
  - rewrite checkBlacklist_spec in Eb. by case_bool_decide.
  - unfold RevokeToken in Hh. rewrite Hp in Hh. destruct (c_ExpiresAt c) as [e|]; [| done].
    pose proof (revoke_listed (c_ID c) e m2) as Hl. destruct (revoke (c_ID c) e m2) as [m3 [[]|err]] eqn:Er; simpl in Hl.
    + injection Hh as <- _. unfold blacklisted. rewrite Hl, lookup_insert_eq. done.
    + assert (err ≠ NilDereference) as Hne.
      { revert Er. unfold revoke. destruct (Blacklist _ _ _) as [b [[]|why]]; by intros [= <- <-]. }
      destruct err; try done; injection Hh as <- _; unfold blacklisted; by rewrite Hl, lookup_insert_eq.
Qed.

Lemma refresh_keeps body t (jm : JM) id : blacklisted jm id -> blacklisted (RefreshTokenHandler true body t jm).1 id.
Proof.
  intros Hb. unfold RefreshTokenHandler. simpl. destruct body as [tok|]; [| done].
  assert (blacklisted (ValidateToken (rt_parse t) (rt_used t) tok jm).1 id) as H1
    by (unfold blacklisted; by rewrite ValidateToken_blacklist).
  destruct (ValidateToken _ _ _ _) as [m1 [c|]]; [| done]. simpl in H1. destruct (negb _); [done |].
  assert (blacklisted (GenerateTokenPair (Some (userOfClaims c)) (c_SessionID c) [] (rt_access t) (rt_refresh t) m1).1 id) as H2
    by (unfold blacklisted; by rewrite GenerateTokenPair_blacklist).
  destruct (GenerateTokenPair _ _ _ _ _ _) as [m2 [pr|]]; [| done]. simpl in H2.
  apply (RevokeToken_blacklist tok) in H2. destruct (RevokeToken tok m2) as [m3 [x|err]]; [done |]. by destruct err.
Qed.

Lemma refreshes_fresh reqs (jm : JM) : NoDup (refreshes reqs jm).1 /\ Forall (λ id, ~ blacklisted jm id) (refreshes reqs jm).1.
Proof.
  revert jm. induction reqs as [| [body t] reqs IH]; intros jm; simpl; [split; constructor |].
  pose proof (refresh_keeps body t jm) as Hk. destruct (RefreshTokenHandler true body t jm) as [jm1 r] eqn:Eh. simpl in Hk.
  destruct (IH jm1) as [Hn Hf]. destruct (refreshes reqs jm1) as [ids jm2]. simpl in *.
  assert (Forall (λ id, ~ blacklisted jm id) ids) as Hf' by (eapply Forall_impl; [exact Hf | naive_solver]).
  destruct body as [tok|]; [| done]. destruct r as [ts|]; [| done].
  destruct (ParseUnverified tok) as [c|] eqn:Ep; [| done]. destruct (refresh_blacklists _ _ _ _ _ _ Eh Ep) as [Hno Hyes].
  split; constructor; try done. intros Hin. rewrite Forall_forall in Hf. by apply (Hf _ Hin).
Qed.

(** C33 - Refresh tokens are used once: in any sequence of refresh requests that follow
    each other, no two that succeed present the same token, and none presents a
    token that was blacklisted at the start. *)
Theorem refresh_tokens_used_once (reqs : list (option Token * RefreshTimes)) (jm : JM) :
  NoDup (refreshes reqs jm).1 /\ Forall (λ id, ~ blacklisted jm id) (refreshes reqs jm).1.
Proof. apply refreshes_fresh. Qed.

End Rotation.

(** ** Concrete requests *)
Module Examples.
Import JwtManager.Sealed.
#[local] Existing Instances sealed sealed_laws.

Definition times (a b : string) : RefreshTimes := mkRefreshTimes start start (mkIssue start (Some a) start) (mkIssue start (Some b) start).

Definition refresh_token : Tok :=
  (mkHeader "RS256" (Some "k7"), refreshClaims jm0 eve "s1" (applyTokenOptions []) (generateTokenID rnd start) start, Some 7%nat).

(** The same token twice: the second request fails. *)
Example second_refresh_fails :
  length (refreshes [(Some refresh_token, times "a" "b"); (Some refresh_token, times "c" "d")] jm0).1 = 1%nat.
Proof. by vm_compute. Qed.

Lemma refresh_tokens_used_once_witness :
  NoDup (refreshes [(Some refresh_token, times "a" "b"); (Some refresh_token, times "c" "d")] jm0).1.
Proof.
  exact (proj1 (refresh_tokens_used_once [(Some refresh_token, times "a" "b"); (Some refresh_token, times "c" "d")] jm0)).
Defined.

(** Two requests that have both validated the token before one revokes it both
    get their pairs. *)
Example racing_refreshes :
  let '(m1, r1) := ValidateToken start start refresh_token jm0 in
  let '(m2, r2) := ValidateToken start start refresh_token m1 in
  is_ok r1 = true /\ is_ok r2 = true.
Proof. by vm_compute. Qed.

(** For [Manager.RefreshTokens] an access token is as good as a refresh token. *)
Example access_token_refreshes : is_ok (Manager_RefreshTokens token (times "a" "b") jm0).2 = true.
Proof. by vm_compute. Qed.

(** After [AuthManager.RefreshTokens] the old token is still valid. *)
Example old_token_stays :
  let '(jm, r) := AuthManager_RefreshTokens refresh_token (times "a" "b") jm0 in
  is_ok r = true /\ is_ok (ValidateToken start start refresh_token jm).2 = true.
Proof. by vm_compute. Qed.

(** An unsigned token without an expiry ends the handler that revokes it. *)
Example nil_expiry_panics :
  let tok : Tok := (mkHeader "none" None, mkClaims "x" "" [] None None None "" "" false "" "" "" [] [] [] [] "" "" "" "" "" "" "" "" "", None) in
  (RevokeTokenHandler true (Some tok) jm0).2 = Err Panics.
Proof. by vm_compute. Qed.

End Examples.
