(* ===== verification/SatSolver.v ===== *)
(** * SatSolver: the solver of package version requirements

    Follows pkg/nephio/porch/dependency_sat_solver.go, with the types of
    dependency_types.go and types.go it works on.  Variables and clauses are
    shared objects: clauses and the solver's map hold references into a store
    of variables, the reason of a variable is the index of a clause.  The
    semantic-version library is the class [Semver]; the orders in which Go
    ranges over the map of variables and the instants at which the context is
    done are an [Env].  The search runs on fuel, and [solve_terminates] shows
    how much is enough. *)

From S2P Require Import Prelude GoFloat GoStrings PorchTypes.
From stdpp Require Import pretty.
From Stdlib Require Import Ascii.
Local Open Scope Z_scope.

(** ** Types *)

Definition ConstraintOperatorEquals := "=".
Definition ConstraintOperatorGreaterThan := ">".
Definition ConstraintOperatorGreaterEquals := ">=".
Definition ConstraintOperatorLessThan := "<".
Definition ConstraintOperatorLessEquals := "<=".
Definition ConstraintOperatorTilde := "~".
Definition ConstraintOperatorCaret := "^".
Definition ConstraintOperatorNotEquals := "!=".

Record VersionConstraint := mkConstraint {
  Operator : string;
  con_Version : string
}.

Record VersionRequirement := mkRequirement {
  PackageRef : PackageReference;
  Constraints : list VersionConstraint
}.

Record SATVariable := mkVariable {
  var_ID : string;
  var_PackageRef : PackageReference;
  var_Version : string;
  Domain : list string;
  var_Constraints : list VersionConstraint;
  DecisionLevel : Z;
  Reason : option nat;
  var_Watched : list nat
}.

Record SATLiteral := mkLiteral {
  lit_Variable : nat;
  Positive : bool;
  lit_Version : string
}.

Record SATClause := mkClause {
  clause_ID : string;
  Literals : list SATLiteral;
  Satisfied : bool;
  Watched : Z * Z;
  Learned : bool;
  Activity : float64
}.

Record SATStatistics := mkStatistics {
  Variables : Z;
  Clauses : Z;
  Decisions : Z;
  Conflicts : Z;
  Propagations : Z;
  Backtracks : Z;
  LearnedClauses : Z;
  Restarts : Z
}.

Record SATSolverConfigImpl := mkSolverConfig {
  MaxDecisions : Z;
  MaxConflicts : Z;
  RestartThreshold : Z;
  Timeout : Duration;
  EnableLearning : bool;
  EnableVSIDS : bool
}.

Definition defaultConfig : SATSolverConfigImpl :=
  mkSolverConfig 10000 1000 100 (5 * Minute) true true.

(** The solver configuration of [NewVersionSolver]. *)
Record SATSolverConfig := mkOuterConfig {
  oc_MaxVariables : Z;
  oc_MaxConflicts : Z;
  oc_TimeoutMs : Z
}.

Definition versionSolverConfig (c : option SATSolverConfig) : SATSolverConfigImpl :=
  match c with
  | Some c => mkSolverConfig (oc_MaxVariables c) (oc_MaxConflicts c) 100
                (oc_TimeoutMs c * Millisecond) true true
  | None => defaultConfig
  end.

Record SATSolverImpl := mkSolver {
  store : list SATVariable;
  variables : gmap string nat;
  clauses : list SATClause;
  assignments : gmap string bool;
  statistics : SATStatistics;
  config : SATSolverConfigImpl
}.

Definition NewSATSolver (config : option SATSolverConfigImpl) : SATSolverImpl :=
  mkSolver [] ∅ [] ∅ (mkStatistics 0 0 0 0 0 0 0 0) (default defaultConfig config).

Inductive SolveError :=
| NoValidVersions (packageKey : string)
| SolverTimeout
| Unsatisfiable
| NoUnassignedVariables
| ExceededDecisions
| ExceededConflicts
| PanicDivideByZero.

(** What the solver uses of the semantic-version library. *)
Class Semver := {
  Version_ : Type;
  Constraint_ : Type;
  NewVersion : string -> option Version_;
  NewConstraint : string -> option Constraint_;
  Check_ : Constraint_ -> Version_ -> bool
}.

(** The run's choices: the order of the keys when a requirement's clauses are
    made (by the number of clauses so far) and when a variable is selected
    (by the number of decisions so far), and whether the context is done when
    the loop starts its [n]th round. *)
Record Env := mkEnv {
  clauseOrder : nat -> list string -> list string;
  pickOrder : Z -> list string -> list string;
  ctxDone : nat -> bool
}.

Definition env_ok (e : Env) : Prop :=
  (forall n l, clauseOrder e n l ≡ₚ l) /\ (forall n l, pickOrder e n l ≡ₚ l).

(** ** State access *)

Definition zeroVariable : SATVariable := mkVariable "" (mkPackageReference "" "" "") "" [] [] 0 None [].

Definition variable (s : SATSolverImpl) (r : nat) : SATVariable := default zeroVariable (store s !! r).
Definition idOf (s : SATSolverImpl) (r : nat) : string := var_ID (variable s r).

Definition with_store (st : list SATVariable) (s : SATSolverImpl) : SATSolverImpl :=
  mkSolver st (variables s) (clauses s) (assignments s) (statistics s) (config s).
Definition with_clauses (cs : list SATClause) (s : SATSolverImpl) : SATSolverImpl :=
  mkSolver (store s) (variables s) cs (assignments s) (statistics s) (config s).
Definition with_assignments (a : gmap string bool) (s : SATSolverImpl) : SATSolverImpl :=
  mkSolver (store s) (variables s) (clauses s) a (statistics s) (config s).
Definition with_statistics (st : SATStatistics) (s : SATSolverImpl) : SATSolverImpl :=
  mkSolver (store s) (variables s) (clauses s) (assignments s) st (config s).

(** Add to the counters of decisions, conflicts, propagations, backtracks,
    learned clauses and restarts. *)
Definition bump (d c p b l r : Z) (s : SATSolverImpl) : SATSolverImpl :=
  let t := statistics s in
  with_statistics (mkStatistics (Variables t) (Clauses t) (Decisions t + d) (Conflicts t + c)
    (Propagations t + p) (Backtracks t + b) (LearnedClauses t + l) (Restarts t + r)) s.

Definition set_level (level : Z) (reason : option nat) (v : SATVariable) : SATVariable :=
  mkVariable (var_ID v) (var_PackageRef v) (var_Version v) (Domain v) (var_Constraints v)
    level reason (var_Watched v).

Definition set_satisfied (b : bool) (c : SATClause) : SATClause :=
  mkClause (clause_ID c) (Literals c) b (Watched c) (Learned c) (Activity c).

Definition assign (r : nat) (value : bool) (level : Z) (reason : option nat) (s : SATSolverImpl)
  : SATSolverImpl :=
  with_store (alter (set_level level reason) r (store s))
    (with_assignments (<[idOf s r := value]> (assignments s)) s).

Definition getAssignment (r : nat) (s : SATSolverImpl) : option bool := assignments s !! idOf s r.

Definition allVariablesAssigned (s : SATSolverImpl) : bool :=
  (size (assignments s) =? size (variables s))%nat.

(** ** Setting up the problem *)

Section solver.
Context `{Semver}.

Definition constraintToSemver (c : VersionConstraint) : string :=
  let op := Operator c in
  if String.eqb op ConstraintOperatorEquals then "= " +:+ con_Version c
  else if String.eqb op ConstraintOperatorGreaterThan then "> " +:+ con_Version c
  else if String.eqb op ConstraintOperatorGreaterEquals then ">= " +:+ con_Version c
  else if String.eqb op ConstraintOperatorLessThan then "< " +:+ con_Version c
  else if String.eqb op ConstraintOperatorLessEquals then "<= " +:+ con_Version c
  else if String.eqb op ConstraintOperatorTilde then "~ " +:+ con_Version c
  else if String.eqb op ConstraintOperatorCaret then "^ " +:+ con_Version c
  else con_Version c.

Definition satisfiesConstraints (version : string) (cs : list VersionConstraint) : bool :=
  match NewVersion version with
  | None => false
  | Some v =>
      forallb (λ c, match NewConstraint (constraintToSemver c) with
                    | Some k => Check_ k v
                    | None => false
                    end) cs
  end.

Definition getAvailableVersions (pr : PackageReference) : list string :=
  ["1.0.0"; "1.1.0"; "1.2.0"; "2.0.0"; "2.1.0"].

Definition filterVersionsByConstraints (versions : list string) (cs : list VersionConstraint)
  : list string := filter (λ v, satisfiesConstraints v cs = true) versions.

Definition validVersions (req : VersionRequirement) : list string :=
  filterVersionsByConstraints (getAvailableVersions (PackageRef req)) (Constraints req).

Definition varID (packageKey version : string) : string := packageKey +:+ "@" +:+ version.

Definition addVariable (req : VersionRequirement) (valid : list string) (s : SATSolverImpl)
  (version : string) : SATSolverImpl :=
  let id := varID (GetPackageKey (PackageRef req)) version in
  let v := mkVariable id (PackageRef req) version valid (Constraints req) 0 None [] in
  mkSolver (store s ++ [v]) (<[id := length (store s)]> (variables s)) (clauses s) (assignments s)
    (statistics s) (config s).

Definition createVariables (req : VersionRequirement) (s : SATSolverImpl)
  : SATSolverImpl * result SolveError unit :=
  match validVersions req with
  | [] => (s, Err (NoValidVersions (GetPackageKey (PackageRef req))))
  | valid => (foldl (addVariable req valid) s valid, Ok tt)
  end.

Fixpoint createAllVariables (reqs : list VersionRequirement) (s : SATSolverImpl)
  : SATSolverImpl * result SolveError unit :=
  match reqs with
  | [] => (s, Ok tt)
  | req :: reqs =>
      match createVariables req s with
      | (s, Err e) => (s, Err e)
      | (s, Ok _) => createAllVariables reqs s
      end
  end.

(** The literals of the variables whose identifier has the package's prefix,
    in the order the map is ranged over. *)
Definition packageLiterals (e : Env) (packageKey : string) (s : SATSolverImpl) : list SATLiteral :=
  omap (λ id,
    if HasPrefix id (packageKey +:+ "@")
    then (λ r, mkLiteral r true (var_Version (variable s r))) <$> variables s !! id
    else None) (clauseOrder e (length (clauses s)) (map_to_list (variables s)).*1).

Definition negative (l : SATLiteral) : SATLiteral := mkLiteral (lit_Variable l) false (lit_Version l).

Definition newClause (id : string) (ls : list SATLiteral) (learned : bool) : SATClause :=
  mkClause id ls false (0, 0) learned f64_one.

Definition atLeastOne (packageKey : string) (ls : list SATLiteral) : SATClause :=
  newClause ("at-least-one-" +:+ packageKey) ls false.

(** The clauses that exclude two of the literals, the first of which is
    number [i]. *)
Fixpoint atMostOne (packageKey : string) (i : nat) (ls : list SATLiteral) : list SATClause :=
  match ls with
  | [] => []
  | l :: ls =>
      imap (λ k l', newClause ("at-most-one-" +:+ packageKey +:+ "-" +:+ pretty i +:+ "-" +:+
                               pretty (i + 1 + k)%nat) [negative l; negative l'] false) ls ++
      atMostOne packageKey (S i) ls
  end.

Definition createClauses (e : Env) (s : SATSolverImpl) (req : VersionRequirement) : SATSolverImpl :=
  let key := GetPackageKey (PackageRef req) in
  let ls := packageLiterals e key s in
  match ls with
  | [] => s
  | _ => with_clauses (clauses s ++ atLeastOne key ls :: atMostOne key 0 ls) s
  end.

Definition watchTwo (c : SATClause) : SATClause :=
  if (2 <=? length (Literals c))%nat
  then mkClause (clause_ID c) (Literals c) (Satisfied c) (0, 1) (Learned c) (Activity c)
  else c.

Definition initializeWatchedLiterals (s : SATSolverImpl) : SATSolverImpl :=
  with_clauses (watchTwo <$> clauses s) s.

Definition initialize (e : Env) (reqs : list VersionRequirement) (s : SATSolverImpl)
  : SATSolverImpl * result SolveError unit :=
  match createAllVariables reqs s with
  | (s, Err err) => (s, Err err)
  | (s, Ok _) =>
      let s := initializeWatchedLiterals (foldl (createClauses e) s reqs) in
      let t := statistics s in
      (with_statistics (mkStatistics (Z.of_nat (size (variables s))) (Z.of_nat (length (clauses s)))
         (Decisions t) (Conflicts t) (Propagations t) (Backtracks t) (LearnedClauses t) (Restarts t)) s,
       Ok tt)
  end.

(** ** Propagation *)

(** The unassigned literals of a clause; [None] when one is true. *)
Fixpoint scan (s : SATSolverImpl) (ls : list SATLiteral) : option (list SATLiteral) :=
  match ls with
  | [] => Some []
  | l :: ls =>
      match getAssignment (lit_Variable l) s with
      | None => option_map (cons l) (scan s ls)
      | Some value => if Bool.eqb (Positive l) value then None else scan s ls
      end
  end.

Inductive ClauseResult :=
| Unchanged (s : SATSolverImpl)
| Propagated (s : SATSolverImpl)
| Conflicting.

Definition processClause (level : Z) (i : nat) (s : SATSolverImpl) : ClauseResult :=
  match clauses s !! i with
  | None => Unchanged s
  | Some c =>
      if Satisfied c then Unchanged s
      else
        match scan s (Literals c) with
        | None => Unchanged (with_clauses (alter (set_satisfied true) i (clauses s)) s)
        | Some [] => Conflicting
        | Some [l] =>
            Propagated (bump 0 0 1 0 0 0 (assign (lit_Variable l) (Positive l) level (Some i) s))
        | Some _ => Unchanged s
        end
  end.

(** One pass over the clauses; a conflict ends it. *)
Fixpoint pass (idx : list nat) (level : Z) (changed : bool) (s : SATSolverImpl)
  : SATSolverImpl * bool * option nat :=
  match idx with
  | [] => (s, changed, None)
  | i :: idx =>
      match processClause level i s with
      | Unchanged s => pass idx level changed s
      | Propagated s => pass idx level true s
      | Conflicting => (s, changed, Some i)
      end
  end.

Fixpoint propagateLoop (fuel : nat) (level : Z) (s : SATSolverImpl)
  : option (SATSolverImpl * option nat) :=
  match fuel with
  | O => None
  | S fuel =>
      match pass (seq 0 (length (clauses s))) level false s with
      | (s, _, Some i) => Some (s, Some i)
      | (s, true, None) => propagateLoop fuel level s
      | (s, false, None) => Some (s, None)
      end
  end.

(** A round for each literal, and the last. *)
Definition unitPropagate (level : Z) (s : SATSolverImpl) : option (SATSolverImpl * option nat) :=
  propagateLoop (S (length (concat (Literals <$> clauses s)))) level s.

(** ** Decisions *)

Definition calculateVariableActivity (s : SATSolverImpl) (r : nat) : float64 :=
  foldl (λ a i, f64_add a (from_option Activity f64_zero (clauses s !! i))) f64_zero
    (var_Watched (variable s r)).

(** The unassigned variables in the order they are met. *)
Definition unassignedVariables (e : Env) (s : SATSolverImpl) : list nat :=
  omap (λ id,
    match variables s !! id with
    | Some r => match getAssignment r s with None => Some r | Some _ => None end
    | None => None
    end) (pickOrder e (Decisions (statistics s)) (map_to_list (variables s)).*1).

Definition better (s : SATSolverImpl) (best : option nat * float64) (r : nat) : option nat * float64 :=
  let activity := calculateVariableActivity s r in
  if f64_gtb activity best.2 then (Some r, activity) else best.

Definition selectVariable (e : Env) (s : SATSolverImpl) : option nat :=
  if negb (EnableVSIDS (config s)) then head (unassignedVariables e s)
  else (foldl (better s) (None, f64_zero) (unassignedVariables e s)).1.

(** ** Conflicts *)

(** The literals of lower levels, negated, and the highest of their levels. *)
Fixpoint learn (s : SATSolverImpl) (level : Z) (ls : list SATLiteral) (learned : list SATLiteral)
  (backtrackLevel : Z) : list SATLiteral * Z :=
  match ls with
  | [] => (learned, backtrackLevel)
  | l :: ls =>
      let vl := DecisionLevel (variable s (lit_Variable l)) in
      if vl =? level then learn s level ls learned backtrackLevel
      else if 0 <? vl then
        learn s level ls (learned ++ [mkLiteral (lit_Variable l) (negb (Positive l)) (lit_Version l)])
          (if backtrackLevel <? vl then vl else backtrackLevel)
      else learn s level ls learned backtrackLevel
  end.

Definition analyzeConflict (s : SATSolverImpl) (conflict : SATClause) (level : Z)
  : option SATClause * Z :=
  match learn s level (Literals conflict) [] 0 with
  | ([], _) => (None, level - 1)
  | (learned, bl) =>
      (Some (newClause ("learned-" +:+ pretty (LearnedClauses (statistics s))) learned true), bl)
  end.

(** Variables of the map that are above a level are unassigned. *)
Definition dropAbove (level : Z) (s : SATSolverImpl) (r : nat) : SATSolverImpl :=
  if level <? DecisionLevel (variable s r)
  then with_store (alter (set_level (-1) None) r (store s))
         (with_assignments (delete (idOf s r) (assignments s)) s)
  else s.

Definition clearLevel (s : SATSolverImpl) (r : nat) : SATSolverImpl :=
  with_store (alter (set_level (-1) None) r (store s)) s.

Definition resetClauses (s : SATSolverImpl) : SATSolverImpl :=
  with_clauses (set_satisfied false <$> clauses s) s.

Definition backtrack (level : Z) (s : SATSolverImpl) : SATSolverImpl :=
  resetClauses (foldl (dropAbove level) s (map_to_list (variables s)).*2).

Definition restart (s : SATSolverImpl) : SATSolverImpl :=
  resetClauses
    (with_assignments ∅ (foldl clearLevel s (map_to_list (variables s)).*2)).

(** ** The search *)

Inductive Round :=
| Continue (level : Z) (s : SATSolverImpl)
| Finished (s : SATSolverImpl) (r : result SolveError (gmap string bool)).

Definition onConflict (level : Z) (i : nat) (s : SATSolverImpl) : Round :=
  let s := bump 0 1 0 0 0 0 s in
  if level =? 0 then Finished s (Err Unsatisfiable)
  else
    let '(s, level) :=
      if EnableLearning (config s) then
        let '(learned, bl) :=
          match clauses s !! i with
          | Some c => analyzeConflict s c level
          | None => (None, level - 1)
          end in
        let s := match learned with
                 | Some c => bump 0 0 0 0 1 0 (with_clauses (clauses s ++ [c]) s)
                 | None => s
                 end in
        (bump 0 0 0 1 0 0 (backtrack bl s), bl)
      else (bump 0 0 0 1 0 0 (backtrack (level - 1) s), level - 1) in
    if 0 <? Conflicts (statistics s) then
      if RestartThreshold (config s) =? 0 then Finished s (Err PanicDivideByZero)
      else if Z.rem (Conflicts (statistics s)) (RestartThreshold (config s)) =? 0
      then Continue 0 (restart (bump 0 0 0 0 0 1 s))
      else Continue level s
    else Continue level s.

Definition onDecision (e : Env) (level : Z) (s : SATSolverImpl) : Round :=
  if allVariablesAssigned s then Finished s (Ok (assignments s))
  else
    match selectVariable e s with
    | None => Finished s (Err NoUnassignedVariables)
    | Some r =>
        let level := level + 1 in
        let s := assign r true level None (bump 1 0 0 0 0 0 s) in
        if MaxDecisions (config s) <? Decisions (statistics s) then Finished s (Err ExceededDecisions)
        else if MaxConflicts (config s) <? Conflicts (statistics s) then Finished s (Err ExceededConflicts)
        else Continue level s
    end.

(** [None]: propagation has run out of fuel. *)
Definition round (e : Env) (n : nat) (level : Z) (s : SATSolverImpl) : option Round :=
  if ctxDone e n then Some (Finished s (Err SolverTimeout))
  else
    match unitPropagate level s with
    | None => None
    | Some (s, Some i) => Some (onConflict level i s)
    | Some (s, None) => Some (onDecision e level s)
    end.

Fixpoint dpllWithCDCL (e : Env) (fuel n : nat) (level : Z) (s : SATSolverImpl)
  : option (SATSolverImpl * result SolveError (gmap string bool)) :=
  match fuel with
  | O => None
  | S fuel =>
      match round e n level s with
      | None => None
      | Some (Finished s r) => Some (s, r)
      | Some (Continue level s) => dpllWithCDCL e fuel (S n) level s
      end
  end.

(** ** The solution *)

Record VersionSelection := mkSelection {
  SelectedVersion : string;
  Alternatives : list string
}.

Record VersionSolution := mkSolution {
  Success : bool;
  Solutions : gmap string VersionSelection;
  sol_Statistics : SATStatistics
}.

Definition groupVersion (m : gmap string (list string)) (p : string * bool)
  : gmap string (list string) :=
  if p.2 then
    match Split "@" p.1 with
    | [packageKey; version] => <[packageKey := default [] (m !! packageKey) ++ [version]]> m
    | _ => m
    end
  else m.

Definition convertToVersionSolution (a : gmap string bool) (t : SATStatistics) : VersionSolution :=
  let packageVersions := foldl groupVersion ∅ (map_to_list a) in
  mkSolution true
    (omap (λ versions,
       match last (merge_sort String.le versions) with
       | Some v => Some (mkSelection v (merge_sort String.le versions))
       | None => None
       end) packageVersions) t.

Definition Solve (e : Env) (fuel : nat) (reqs : list VersionRequirement) (s : SATSolverImpl)
  : option (SATSolverImpl * result SolveError VersionSolution) :=
  match initialize e reqs s with
  | (s, Err err) => Some (s, Err err)
  | (s, Ok _) =>
      match dpllWithCDCL e fuel 0 0 s with
      | None => None
      | Some (s, Err err) => Some (s, Err err)
      | Some (s, Ok a) => Some (s, Ok (convertToVersionSolution a (statistics s)))
      end
  end.

(** ** Invariants *)

Definition litID (s : SATSolverImpl) (l : SATLiteral) : string := idOf s (lit_Variable l).

Definition lit_true (s : SATSolverImpl) (l : SATLiteral) : Prop :=
  getAssignment (lit_Variable l) s = Some (Positive l).

(** The variables of the map, literals that refer to them, assignments of
    variables, and clauses marked satisfied that are. *)
Record WF (s : SATSolverImpl) : Prop := {
  wf_vars : forall k r, variables s !! k = Some r -> (r < length (store s))%nat /\ idOf s r = k;
  wf_lits : forall c l, c ∈ clauses s -> l ∈ Literals c ->
    variables s !! litID s l = Some (lit_Variable l);
  wf_dom : forall k, is_Some (assignments s !! k) -> is_Some (variables s !! k);
  wf_sat : forall c, c ∈ clauses s -> Satisfied c = true -> Exists (lit_true s) (Literals c)
}.

(** What the search never changes; clauses are only added. *)
Record Frame (s s' : SATSolverImpl) : Prop := {
  fr_vars : variables s' = variables s;
  fr_config : config s' = config s;
  fr_len : length (store s') = length (store s);
  fr_id : forall r, idOf s' r = idOf s r;
  fr_watched : forall r, var_Watched (variable s' r) = var_Watched (variable s r);
  fr_lits : (Literals <$> clauses s) `prefix_of` (Literals <$> clauses s')
}.

(** Levels never exceed the level of the search. *)
Definition Levels (level : Z) (s : SATSolverImpl) : Prop :=
  forall k r, variables s !! k = Some r -> DecisionLevel (variable s r) <= level.

(** Propagation is through: every clause is true or has two unassigned
    literals. *)
Definition Stable (s : SATSolverImpl) : Prop :=
  forall c, c ∈ clauses s ->
    Exists (lit_true s) (Literals c) \/ exists a b us, scan s (Literals c) = Some (a :: b :: us).

(** ** Lemmas: frames *)

#[global] Instance Frame_preorder : PreOrder Frame.
Proof.
  split.
  - intros s. by split.
  - intros s s' s'' [] []. split; try congruence; [intros r; congruence .. | by etrans].
Qed.

Lemma variable_alter g r s r' :
  variable (with_store (alter g r (store s)) s) r' =
  (if bool_decide (r' = r /\ (r < length (store s))%nat) then g (variable s r') else variable s r').
Proof.
  unfold variable. simpl. case_bool_decide as E.
  - destruct E as [-> E]. rewrite list_lookup_alter_eq.
    by destruct (lookup_lt_is_Some_2 _ _ E) as [v ->].
  - destruct (decide (r' = r)) as [-> | Hr].
    + rewrite list_lookup_alter_eq, lookup_ge_None_2; [done |]. lia.
    + by rewrite list_lookup_alter_ne.
Qed.

Lemma set_level_frame lv reason r s :
  Frame s (with_store (alter (set_level lv reason) r (store s)) s).
Proof.
  split; simpl; try done; [by rewrite length_alter | ..]; intros r'; unfold idOf;
    rewrite variable_alter; by case_bool_decide.
Qed.

Lemma bump_frame d c p b l r s : Frame s (bump d c p b l r s).
Proof. by split. Qed.

Lemma assignments_frame a s : Frame s (with_assignments a s).
Proof. by split. Qed.

Lemma assign_frame r b lv reason s : Frame s (assign r b lv reason s).
Proof.
  etrans; [| exact (set_level_frame lv reason r (with_assignments (<[idOf s r := b]> (assignments s)) s))].
  apply assignments_frame.
Qed.

Lemma satisfied_frame f s :
  (forall c, Literals (f c) = Literals c) ->
  Frame s (with_clauses (f <$> clauses s) s).
Proof.
  intros Hf. split; simpl; try done. rewrite <- list_fmap_compose.
  erewrite list_fmap_ext; [reflexivity |]. intros i c _. simpl. by rewrite Hf.
Qed.

Lemma mark_frame i s : Frame s (with_clauses (alter (set_satisfied true) i (clauses s)) s).
Proof.
  split; simpl; try done.
  enough (Literals <$> alter (set_satisfied true) i (clauses s) = Literals <$> clauses s) as -> by done.
  apply list_eq. intros j. rewrite !list_lookup_fmap. destruct (decide (j = i)) as [-> | Hj].
  - rewrite list_lookup_alter_eq. by destruct (clauses s !! i).
  - by rewrite list_lookup_alter_ne.
Qed.

Lemma learned_frame c s : Frame s (with_clauses (clauses s ++ [c]) s).
Proof. split; simpl; try done. rewrite fmap_app. by apply prefix_app_r. Qed.

Lemma foldl_frame {A} (f : SATSolverImpl -> A -> SATSolverImpl) l s :
  (forall s a, Frame s (f s a)) -> Frame s (foldl f s l).
Proof. intros Hf. revert s. induction l as [| a l IH]; intros s; simpl; [done |]. etrans; [apply Hf | apply IH]. Qed.

Lemma dropAbove_frame lv s r : Frame s (dropAbove lv s r).
Proof.
  unfold dropAbove. goal_if.
  etrans; [| exact (set_level_frame (-1) None r (with_assignments (delete (idOf s r) (assignments s)) s))].
  apply assignments_frame.
Qed.

Lemma resetClauses_frame s : Frame s (resetClauses s).
Proof. by apply satisfied_frame. Qed.

Lemma backtrack_frame lv s : Frame s (backtrack lv s).
Proof.
  unfold backtrack. transitivity (foldl (dropAbove lv) s (map_to_list (variables s)).*2).
  - apply foldl_frame. intros. apply dropAbove_frame.
  - apply resetClauses_frame.
Qed.

Lemma restart_frame s : Frame s (restart s).
Proof.
  unfold restart. transitivity (foldl clearLevel s (map_to_list (variables s)).*2).
  - apply foldl_frame. intros. apply set_level_frame.
  - etrans; [apply (assignments_frame ∅) | apply resetClauses_frame].
Qed.

(** ** Lemmas: scanning *)

Lemma scan_None s ls : scan s ls = None <-> Exists (lit_true s) ls.
Proof.
  induction ls as [| l ls IH]; simpl.
  - split; [done |]. by intros ?%Exists_nil.
  - rewrite Exists_cons. unfold lit_true at 1.
    destruct (getAssignment (lit_Variable l) s) as [v |].
    + destruct (Bool.eqb (Positive l) v) eqn:E.
      * apply Bool.eqb_prop in E as ->. tauto.
      * rewrite IH. split; [tauto |]. intros [[= ->] | ?]; [| done].
        by rewrite Bool.eqb_reflx in E.
    + destruct (scan s ls) as [us |]; simpl.
      * split; [done |]. intros [[=] | E]. by apply IH in E.
      * split; [intros _; right; by apply IH | done].
Qed.

Lemma scan_ext s s' ls :
  (forall r, getAssignment r s' = getAssignment r s) -> scan s' ls = scan s ls.
Proof. intros E. induction ls as [| l ls IH]; simpl; [done |]. by rewrite E, IH. Qed.

(** The literals a scan returns are the unassigned ones; the others are
    false. *)
Lemma scan_Some s ls us l :
  scan s ls = Some us -> l ∈ ls ->
  (getAssignment (lit_Variable l) s = None /\ l ∈ us) \/
  getAssignment (lit_Variable l) s = Some (negb (Positive l)).
Proof.
  revert us. induction ls as [| l' ls IH]; intros us; simpl; [by intros _ ?%elem_of_nil |].
  destruct (getAssignment (lit_Variable l') s) as [v |] eqn:E.
  - destruct (Bool.eqb (Positive l') v) eqn:E2; [done |]. intros Hs [-> | Hl]%elem_of_cons.
    + right. rewrite E. f_equal. destruct (Positive l'), v; done.
    + by apply IH.
  - destruct (scan s ls) as [us' |]; [| done]. simpl. intros [= <-] [-> | Hl]%elem_of_cons.
    + left. split; [done | by constructor].
    + destruct (IH us' eq_refl Hl) as [[? ?] | ?]; [left | by right]. split; [done | by constructor].
Qed.

Lemma scan_sub s ls us l :
  scan s ls = Some us -> l ∈ us -> l ∈ ls /\ getAssignment (lit_Variable l) s = None.
Proof.
  revert us. induction ls as [| l' ls IH]; intros us; simpl; [by intros [= <-] ?%elem_of_nil |].
  destruct (getAssignment (lit_Variable l') s) as [v |] eqn:E.
  - goal_if. intros Hs Hl. destruct (IH us Hs Hl). split; [by constructor | done].
  - destruct (scan s ls) as [us' |]; [| done]. simpl. intros [= <-] [-> | Hl]%elem_of_cons.
    + split; [by constructor | done].
    + destruct (IH us' eq_refl Hl). split; [by constructor | done].
Qed.

(** What a clause's turn in a pass does. *)
Lemma processClause_spec level i s :
  match processClause level i s with
  | Unchanged s' =>
      (s' = s /\ forall c, clauses s !! i = Some c ->
         Satisfied c = true \/ exists a b us, scan s (Literals c) = Some (a :: b :: us)) \/
      (exists c, clauses s !! i = Some c /\ Exists (lit_true s) (Literals c) /\
         s' = with_clauses (alter (set_satisfied true) i (clauses s)) s)
  | Propagated s' =>
      exists c l, clauses s !! i = Some c /\ scan s (Literals c) = Some [l] /\
        s' = bump 0 0 1 0 0 0 (assign (lit_Variable l) (Positive l) level (Some i) s)
  | Conflicting => exists c, clauses s !! i = Some c /\ scan s (Literals c) = Some []
  end.
Proof.
  unfold processClause. destruct (clauses s !! i) as [c |] eqn:Hc; [| by left].
  destruct (Satisfied c) eqn:Hs; [left; split; [done |]; intros ? [= <-]; by left |].
  destruct (scan s (Literals c)) as [[| a [| b us]] |] eqn:E.
  - by exists c.
  - by exists c, a.
  - left. split; [done |]. intros ? [= <-]. right. by exists a, b, us.
  - right. exists c. split; [done |]. split; [by apply scan_None | done].
Qed.

(** A property of the state that each clause's turn keeps. *)
Lemma pass_ind (P : SATSolverImpl -> Prop) level :
  (forall i s, P s -> match processClause level i s with
                      | Unchanged s' | Propagated s' => P s'
                      | Conflicting => True
                      end) ->
  forall idx b s, P s -> P (pass idx level b s).1.1.
Proof.
  intros HP idx. induction idx as [| i idx IH]; intros b s Hs; simpl; [done |].
  specialize (HP i s Hs). destruct (processClause level i s); auto.
Qed.

Lemma propagateLoop_ind (P : SATSolverImpl -> Prop) level fuel s s' o :
  (forall i s, P s -> match processClause level i s with
                      | Unchanged s' | Propagated s' => P s'
                      | Conflicting => True
                      end) ->
  P s -> propagateLoop fuel level s = Some (s', o) -> P s'.
Proof.
  intros HP. revert s. induction fuel as [| fuel IH]; intros s Hs; simpl; [done |].
  pose proof (pass_ind P level HP (seq 0 (length (clauses s))) false s Hs) as H1.
  destruct (pass _ level false s) as [[s1 b] oj]; simpl in *.
  destruct b, oj; try (by intros [= <- <-]); by apply IH.
Qed.

(** *** Propagation keeps the invariants *)

Lemma literals_of s s' c :
  Frame s s' -> Literals <$> clauses s' = Literals <$> clauses s -> c ∈ clauses s' ->
  exists c', c' ∈ clauses s /\ Literals c' = Literals c.
Proof.
  intros _ E Hc. assert (Literals c ∈ Literals <$> clauses s') as Hin by (by apply list_elem_of_fmap_2).
  rewrite E in Hin. apply list_elem_of_fmap in Hin as (c' & -> & ?). eauto.
Qed.

(** The steps of propagation: same variables and literals, more assignments. *)
Record Extends (s s' : SATSolverImpl) : Prop := {
  ex_frame : Frame s s';
  ex_lits : Literals <$> clauses s' = Literals <$> clauses s;
  ex_assign : assignments s ⊆ assignments s'
}.

Lemma lit_true_extends s s' l : Extends s s' -> lit_true s l -> lit_true s' l.
Proof.
  intros [HF _ Ha]. unfold lit_true, getAssignment. rewrite (fr_id _ _ HF).
  intros E. by apply (lookup_weaken _ _ _ _ E).
Qed.

Lemma assign_extends r b lv reason s :
  assignments s !! idOf s r = None -> Extends s (assign r b lv reason s).
Proof.
  intros Hn. split; [apply assign_frame | done |]. simpl. by apply insert_subseteq.
Qed.

Lemma mark_extends i s : Extends s (with_clauses (alter (set_satisfied true) i (clauses s)) s).
Proof.
  pose proof (mark_frame i s) as HF. split; [done | | done].
  destruct (fr_lits _ _ HF) as [k E]. simpl in *.
  assert (k = []) as ->; [| by rewrite app_nil_r in E].
  apply (f_equal length) in E. rewrite length_app, !length_fmap, length_alter in E.
  destruct k; [done | simpl in E; lia].
Qed.

Lemma elem_of_mark i f (cs : list SATClause) c :
  c ∈ alter f i cs -> c ∈ cs \/ exists c0, cs !! i = Some c0 /\ c = f c0.
Proof.
  intros [j Hj]%list_elem_of_lookup. destruct (decide (j = i)) as [-> | Hne].
  - rewrite list_lookup_alter_eq in Hj. destruct (cs !! i) as [c0 |]; [| done].
    injection Hj as <-. right. eauto.
  - rewrite list_lookup_alter_ne in Hj by done. left. by apply list_elem_of_lookup_2 in Hj.
Qed.

Lemma wf_extends s s' :
  WF s -> Extends s s' ->
  (forall k, is_Some (assignments s' !! k) -> is_Some (variables s !! k)) ->
  (forall c, c ∈ clauses s' -> Satisfied c = true -> Exists (lit_true s') (Literals c)) -> WF s'.
Proof.
  intros HW HE Hd Hs. pose proof HE as [HF EL _]. split.
  - intros k r. rewrite (fr_vars _ _ HF), (fr_len _ _ HF), (fr_id _ _ HF). apply (wf_vars s HW).
  - intros c l Hc Hl. destruct (literals_of s s' c HF EL Hc) as (c' & Hc' & E).
    unfold litID. rewrite (fr_vars _ _ HF), (fr_id _ _ HF). apply (wf_lits s HW c'); [done | by rewrite E].
  - intros k Hk. rewrite (fr_vars _ _ HF). auto.
  - done.
Qed.

Lemma wf_assign r b lv reason s :
  WF s -> variables s !! idOf s r = Some r -> assignments s !! idOf s r = None ->
  WF (assign r b lv reason s).
Proof.
  intros HW Hr Hn. pose proof (assign_extends r b lv reason s Hn) as HE.
  apply (wf_extends s); [done | done | |].
  - intros k. simpl. intros [<- | [_ Hk]]%lookup_insert_is_Some; [by eexists |].
    by apply (wf_dom s HW).
  - intros c Hc Hs. eapply Exists_impl; [by apply (wf_sat s HW c) |].
    intros l. by apply lit_true_extends.
Qed.

Lemma wf_mark i s c :
  WF s -> clauses s !! i = Some c -> Exists (lit_true s) (Literals c) ->
  WF (with_clauses (alter (set_satisfied true) i (clauses s)) s).
Proof.
  intros HW Hc He. apply (wf_extends s); [done | apply mark_extends | apply (wf_dom s HW) |].
  simpl. intros c' [Hc' | (c0 & Hc0 & ->)]%elem_of_mark Hs; [by apply (wf_sat s HW) |].
  rewrite Hc in Hc0. by injection Hc0 as <-.
Qed.

Lemma bump_decisions d c p b l r s :
  Decisions (statistics (bump d c p b l r s)) = Decisions (statistics s) + d.
Proof. done. Qed.

Lemma bump_conflicts d c p b l r s :
  Conflicts (statistics (bump d c p b l r s)) = Conflicts (statistics s) + c.
Proof. done. Qed.

Lemma wf_bump d c p b l r s : WF s -> WF (bump d c p b l r s).
Proof. intros []. by split. Qed.

(** The literal a unit clause propagates. *)
Lemma unit_literal s c l :
  WF s -> c ∈ clauses s -> scan s (Literals c) = Some [l] ->
  l ∈ Literals c /\ variables s !! idOf s (lit_Variable l) = Some (lit_Variable l) /\
  assignments s !! idOf s (lit_Variable l) = None.
Proof.
  intros HW Hc Hs. destruct (scan_sub s _ _ l Hs) as [Hl Hn]; [by constructor |].
  split; [done |]. split; [by apply (wf_lits s HW c) | done].
Qed.

Lemma levels_assign r b lv reason s : Levels lv s -> Levels lv (assign r b lv reason s).
Proof.
  intros HL k r' Hr'. change (DecisionLevel (variable (with_store (alter (set_level lv reason) r (store s)) s) r') <= lv).
  rewrite variable_alter. case_bool_decide; [done | by apply (HL k)].
Qed.

Definition PropInv (level : Z) (s0 s : SATSolverImpl) : Prop :=
  WF s /\ Levels level s /\ Extends s0 s /\ Decisions (statistics s) = Decisions (statistics s0) /\
  Conflicts (statistics s) = Conflicts (statistics s0).

Lemma extends_trans s s' s'' : Extends s s' -> Extends s' s'' -> Extends s s''.
Proof. intros [? ? ?] [? ? ?]. split; [by etrans | congruence | by etrans]. Qed.

Lemma propagated_extends r b lv reason s :
  assignments s !! idOf s r = None -> Extends s (bump 0 0 1 0 0 0 (assign r b lv reason s)).
Proof.
  intros Hn. eapply extends_trans; [by apply assign_extends |].
  split; [apply bump_frame | done | done].
Qed.

Lemma PropInv_step level s0 i s :
  PropInv level s0 s ->
  match processClause level i s with
  | Unchanged s' | Propagated s' => PropInv level s0 s'
  | Conflicting => True
  end.
Proof.
  intros (HW & HL & HE & E1 & E2). pose proof (processClause_spec level i s) as HS.
  destruct (processClause level i s) as [s' | s' |]; [| | done].
  - destruct HS as [[-> _] | (c & Hc & He & ->)]; [done |].
    split; [by eapply wf_mark |]. split; [done |].
    split; [by eapply extends_trans, mark_extends | done].
  - destruct HS as (c & l & Hc & Hs & ->).
    destruct (unit_literal s c l HW (list_elem_of_lookup_2 _ _ _ Hc) Hs) as (Hl & Hv & Hn).
    split; [by apply wf_bump, wf_assign |]. split; [by apply levels_assign |].
    split; [eapply extends_trans; [done | by apply propagated_extends] |].
    unfold bump. simpl. rewrite !Z.add_0_r. done.
Qed.

Lemma unitPropagate_inv level s s' o :
  WF s -> Levels level s -> unitPropagate level s = Some (s', o) -> PropInv level s s'.
Proof.
  intros HW HL HP. eapply (propagateLoop_ind (PropInv level s) level); [| | exact HP].
  - intros i s1. apply PropInv_step.
  - split; [done |]. split; [done |]. by repeat split.
Qed.

(** *** Propagation ends *)

Definition unassigned (s : SATSolverImpl) (l : SATLiteral) : bool :=
  match getAssignment (lit_Variable l) s with None => true | Some _ => false end.

(** The unassigned literals of all clauses. *)
Definition open_literals (s : SATSolverImpl) : nat :=
  length (filter (λ l, unassigned s l = true) (concat (Literals <$> clauses s))).

Lemma length_filter_le {A} (P Q : A -> Prop)
  `{forall x, Decision (P x), forall x, Decision (Q x)} (l : list A) :
  (forall x, x ∈ l -> P x -> Q x) -> (length (filter P l) <= length (filter Q l))%nat.
Proof.
  induction l as [| a l IH]; intros HPQ; [done |]. rewrite !filter_cons.
  specialize (IH (λ x Hx, HPQ x (list_elem_of_further _ _ _ Hx))).
  specialize (HPQ a (list_elem_of_here _ _)). repeat case_decide; simpl; try lia. tauto.
Qed.

Lemma length_filter_lt2 {A} (P Q : A -> Prop)
  `{forall x, Decision (P x), forall x, Decision (Q x)} (l : list A) y :
  (forall x, x ∈ l -> P x -> Q x) -> y ∈ l -> Q y -> ~ P y ->
  (length (filter P l) < length (filter Q l))%nat.
Proof.
  intros HPQ Hy HQ HP. induction l as [| a l IH]; [by apply elem_of_nil in Hy |].
  assert (forall x, x ∈ l -> P x -> Q x) as Hl by (intros x Hx; apply HPQ; by constructor).
  apply elem_of_cons in Hy as [<- | Hy].
  - rewrite filter_cons_False, filter_cons_True by done. simpl. by apply le_n_S, length_filter_le.
  - specialize (IH Hl Hy). specialize (HPQ a (list_elem_of_here _ _)). rewrite !filter_cons.
    repeat case_decide; simpl; try lia. tauto.
Qed.

Lemma unassigned_extends s s' l : Extends s s' -> unassigned s' l = true -> unassigned s l = true.
Proof.
  intros [HF _ Ha]. unfold unassigned, getAssignment. rewrite (fr_id _ _ HF).
  destruct (assignments s !! idOf s (lit_Variable l)) as [b |] eqn:E; [| done].
  by rewrite (lookup_weaken _ _ _ _ E Ha).
Qed.

Lemma open_extends s s' : Extends s s' -> (open_literals s' <= open_literals s)%nat.
Proof.
  intros HE. unfold open_literals. rewrite (ex_lits _ _ HE).
  apply length_filter_le. intros l _. by apply unassigned_extends.
Qed.

Lemma open_assigned s s' l :
  Extends s s' -> l ∈ concat (Literals <$> clauses s) ->
  unassigned s l = true -> unassigned s' l = false -> (open_literals s' < open_literals s)%nat.
Proof.
  intros HE Hl H1 H2. unfold open_literals. rewrite (ex_lits _ _ HE).
  apply (length_filter_lt2 _ _ _ l); [intros x _; by apply unassigned_extends | done | done |].
  by rewrite H2.
Qed.

Lemma in_all_literals s i c l :
  clauses s !! i = Some c -> l ∈ Literals c -> l ∈ concat (Literals <$> clauses s).
Proof.
  intros Hc Hl. apply list_elem_of_In, in_concat. exists (Literals c).
  split; apply list_elem_of_In; [| done].
  apply list_elem_of_fmap. exists c. split; [done | by eapply list_elem_of_lookup_2].
Qed.

Lemma pass_open level idx b s s' b' o :
  WF s -> Levels level s -> pass idx level b s = (s', b', o) ->
  WF s' /\ Levels level s' /\ Extends s s' /\ ((b' = true /\ b = false) -> (open_literals s' < open_literals s)%nat).
Proof.
  revert b s. induction idx as [| i idx IH]; intros b s HW HL; simpl.
  { intros [= <- <- <-]. split; [done |]. split; [done |]. split; [by repeat split |].
    intros [-> ?]. done. }
  pose proof (PropInv_step level s i s) as HP. pose proof (processClause_spec level i s) as HS.
  assert (PropInv level s s) as H0 by (split; [done |]; split; [done |]; by repeat split).
  specialize (HP H0). destruct (processClause level i s) as [s1 | s1 |].
  - destruct HP as (HW1 & HL1 & HE1 & _). intros HP.
    destruct (IH b s1 HW1 HL1 HP) as (? & ? & HE2 & Hlt). split; [done |]. split; [done |].
    split; [by eapply extends_trans |]. intros Hb. specialize (Hlt Hb).
    pose proof (open_extends _ _ HE1). lia.
  - destruct HP as (HW1 & HL1 & HE1 & _). intros HP.
    destruct (IH true s1 HW1 HL1 HP) as (? & ? & HE2 & _). split; [done |]. split; [done |].
    split; [by eapply extends_trans |]. intros _. destruct HS as (c & l & Hc & Hs & ->).
    destruct (unit_literal s c l HW (list_elem_of_lookup_2 _ _ _ Hc) Hs) as (Hl & Hv & Hn).
    apply (Nat.le_lt_trans _ _ _ (open_extends _ _ HE2)).
    apply (open_assigned s _ l); [done | by eapply in_all_literals | |].
    + unfold unassigned, getAssignment. by rewrite Hn.
    + unfold unassigned, getAssignment. rewrite (fr_id _ _ (ex_frame _ _ HE1)). simpl.
      by rewrite lookup_insert_eq.
  - intros [= <- <- <-]. split; [done |]. split; [done |]. split; [by repeat split |].
    intros [-> ?]. done.
Qed.

Lemma unitPropagate_ends level s :
  WF s -> Levels level s -> exists s' o, unitPropagate level s = Some (s', o).
Proof.
  intros HW HL. unfold unitPropagate.
  assert (open_literals s < S (length (concat (Literals <$> clauses s))))%nat as Hf
    by (unfold open_literals; pose proof (length_filter (λ l, unassigned s l = true)
          (concat (Literals <$> clauses s))); lia).
  revert Hf. generalize (S (length (concat (Literals <$> clauses s)))) as fuel.
  intros fuel. revert s HW HL. induction fuel as [| fuel IH]; intros s HW HL Hf; [lia |]. simpl.
  destruct (pass _ level false s) as [[s1 b] o] eqn:HP.
  destruct (pass_open _ _ _ _ _ _ _ HW HL HP) as (HW1 & HL1 & _ & Hlt).
  destruct b, o as [j |]; eauto. apply IH; [done | done |]. specialize (Hlt (conj eq_refl eq_refl)). lia.
Qed.

(** *** What propagation establishes *)

Lemma pass_true level idx s s' b o : pass idx level true s = (s', b, o) -> b = true.
Proof.
  revert s. induction idx as [| i idx IH]; intros s; simpl; [by intros [= _ <- _] |].
  destruct (processClause level i s); eauto. by intros [= _ <- _].
Qed.

(** A pass without assignment and conflict has looked at every clause and
    changed marks only. *)
Lemma pass_quiet level idx s s' :
  WF s -> Levels level s -> pass idx level false s = (s', false, None) ->
  Extends s s' /\ assignments s' = assignments s /\
  forall i c, i ∈ idx -> clauses s !! i = Some c ->
    Exists (lit_true s) (Literals c) \/ exists a b us, scan s (Literals c) = Some (a :: b :: us).
Proof.
  revert s. induction idx as [| i idx IH]; intros s HW HL; simpl.
  { intros [= <-]. split; [by repeat split |]. split; [done |]. by intros ? ? ?%elem_of_nil. }
  pose proof (PropInv_step level s i s) as HP. pose proof (processClause_spec level i s) as HS.
  assert (PropInv level s s) as H0 by (split; [done |]; split; [done |]; by repeat split).
  specialize (HP H0). destruct (processClause level i s) as [s1 | s1 |]; [| | done].
  - destruct HP as (HW1 & HL1 & HE1 & _). intros HP.
    destruct (IH s1 HW1 HL1 HP) as (HE2 & EA & Hall).
    destruct HS as [[-> Hi] | (c0 & Hc0 & He & ->)].
    + split; [done |]. split; [done |]. intros j c [-> | Hj]%elem_of_cons Hc; [| by eapply Hall].
      destruct (Hi c Hc) as [Hs | ?]; [left | by right].
      apply (wf_sat s HW); [by eapply list_elem_of_lookup_2 | done].
    + split; [by eapply extends_trans |]. split; [done |].
      intros j c [-> | Hj]%elem_of_cons Hc; [left; by rewrite Hc0 in Hc; injection Hc as <- |].
      assert (exists c', clauses (with_clauses (alter (set_satisfied true) i (clauses s)) s) !! j = Some c'
                         /\ Literals c' = Literals c) as (c' & Hc' & <-).
      { simpl. destruct (decide (j = i)) as [-> | Hne].
        - rewrite list_lookup_alter_eq, Hc. by eexists.
        - rewrite list_lookup_alter_ne by done. eauto. }
      specialize (Hall j c' Hj Hc'). rewrite (scan_ext s) in Hall by done. exact Hall.
  - intros HP2%pass_true. done.
Qed.

Lemma unitPropagate_stable level s s' :
  WF s -> Levels level s -> unitPropagate level s = Some (s', None) -> Stable s'.
Proof.
  unfold unitPropagate. generalize (S (length (concat (Literals <$> clauses s)))) as fuel.
  intros fuel. revert s. induction fuel as [| fuel IH]; intros s HW HL; simpl; [done |].
  destruct (pass _ level false s) as [[s1 b] o] eqn:HP.
  destruct (pass_open _ _ _ _ _ _ _ HW HL HP) as (HW1 & HL1 & HE & _).
  destruct b, o as [j |]; try done; [by apply IH |]. intros [= <-].
  destruct (pass_quiet _ _ _ _ HW HL HP) as (_ & EA & Hall).
  intros c1 Hc1. destruct (literals_of s s1 c1 (ex_frame _ _ HE) (ex_lits _ _ HE) Hc1) as (c & Hc & E).
  apply list_elem_of_lookup in Hc as [i Hi].
  assert (forall l, getAssignment l s1 = getAssignment l s) as EG
    by (intros l; unfold getAssignment; by rewrite EA, (fr_id _ _ (ex_frame _ _ HE))).
  rewrite <- E, <- !scan_None, (scan_ext s) by done. rewrite scan_None. apply (Hall i c); [| done].
  apply elem_of_seq. apply lookup_lt_Some in Hi. lia.
Qed.

(** ** Lemmas: the search *)

(** The invariant of the search at a level, before a round. *)
Record SInv (level : Z) (s : SATSolverImpl) : Prop := {
  si_wf : WF s;
  si_levels : Levels level s;
  si_level : 0 <= level;
  si_decisions : 0 < level -> Decisions (statistics s) <= MaxDecisions (config s)
}.

(** What bounds the rounds: a decision costs one, and so does the level it
    adds, which a conflict takes back. *)
Definition measure (level : Z) (s : SATSolverImpl) : nat :=
  Z.to_nat (2 * (MaxDecisions (config s) + 1 - Decisions (statistics s)) + level).

Lemma wf_reset s s' :
  WF s -> Frame s s' -> clauses s' = clauses s -> assignments s' ⊆ assignments s ->
  WF (resetClauses s').
Proof.
  intros HW HF EC Ha. split.
  - intros k r. simpl. change (idOf (resetClauses s') r) with (idOf s' r).
    rewrite (fr_vars _ _ HF), (fr_len _ _ HF), (fr_id _ _ HF). apply (wf_vars s HW).
  - simpl. intros c l (c0 & -> & Hc)%list_elem_of_fmap Hl. simpl in Hl.
    unfold litID. change (idOf (resetClauses s') ?r) with (idOf s' r).
    rewrite (fr_vars _ _ HF), (fr_id _ _ HF). apply (wf_lits s HW c0); [by rewrite <- EC | done].
  - simpl. intros k [b Hb]. rewrite (fr_vars _ _ HF). apply (wf_dom s HW). exists b.
    by apply (lookup_weaken _ _ _ _ Hb).
  - simpl. by intros c (c0 & -> & Hc)%list_elem_of_fmap.
Qed.

Lemma dropAbove_spec lv s r0 :
  0 <= lv ->
  clauses (dropAbove lv s r0) = clauses s /\ assignments (dropAbove lv s r0) ⊆ assignments s /\
  statistics (dropAbove lv s r0) = statistics s /\
  forall r, r = r0 \/ DecisionLevel (variable s r) <= lv ->
    DecisionLevel (variable (dropAbove lv s r0) r) <= lv.
Proof.
  intros Hlv. unfold dropAbove. destruct (Z.ltb_spec lv (DecisionLevel (variable s r0))) as [Hlt | Hge].
  - split; [done |]. split; [apply delete_subseteq |]. split; [done |]. intros r Hr.
    change (DecisionLevel (variable (with_store (alter (set_level (-1) None) r0 (store s)) s) r) <= lv).
    rewrite variable_alter. case_bool_decide as E; simpl; [lia |].
    destruct Hr as [-> | Hr]; [| done]. unfold variable.
    rewrite lookup_ge_None_2 by (apply Nat.nlt_ge; tauto). simpl. lia.
  - split; [done |]. split; [done |]. split; [done |]. by intros r [-> | Hr].
Qed.

Lemma backtrack_spec lv s :
  WF s -> 0 <= lv ->
  WF (backtrack lv s) /\ Levels lv (backtrack lv s) /\ statistics (backtrack lv s) = statistics s.
Proof.
  intros HW Hlv. unfold backtrack.
  assert (forall rs s0,
    clauses (foldl (dropAbove lv) s0 rs) = clauses s0 /\
    assignments (foldl (dropAbove lv) s0 rs) ⊆ assignments s0 /\
    statistics (foldl (dropAbove lv) s0 rs) = statistics s0 /\
    forall r, r ∈ rs \/ DecisionLevel (variable s0 r) <= lv ->
      DecisionLevel (variable (foldl (dropAbove lv) s0 rs) r) <= lv) as HI.
  { intros rs. induction rs as [| r0 rs IH]; intros s0; simpl.
    - split; [done |]. split; [done |]. split; [done |]. by intros r [?%elem_of_nil | ?].
    - destruct (dropAbove_spec lv s0 r0 Hlv) as (E1 & E2 & E3 & E4).
      destruct (IH (dropAbove lv s0 r0)) as (F1 & F2 & F3 & F4). rewrite F1, E1, F3, E3.
      split; [done |]. split; [by etrans |]. split; [done |].
      intros r Hr. apply F4. rewrite elem_of_cons in Hr.
      destruct Hr as [[-> | ?] | ?]; [right; apply E4; by left | by left | right; apply E4; by right]. }
  destruct (HI (map_to_list (variables s)).*2 s) as (E1 & E2 & E3 & E4).
  assert (Frame s (foldl (dropAbove lv) s (map_to_list (variables s)).*2)) as HF
    by (apply foldl_frame; intros; apply dropAbove_frame).
  split; [by apply (wf_reset s) |]. split; [| done].
  intros k r. simpl. rewrite (fr_vars _ _ HF). intros Hk.
  apply E4. left. apply list_elem_of_fmap. exists (k, r). split; [done |]. by apply elem_of_map_to_list.
Qed.

Lemma restart_spec s :
  WF s -> WF (restart s) /\ Levels 0 (restart s) /\ statistics (restart s) = statistics s.
Proof.
  intros HW. unfold restart.
  assert (forall rs s0,
    clauses (foldl clearLevel s0 rs) = clauses s0 /\
    statistics (foldl clearLevel s0 rs) = statistics s0 /\
    forall r, r ∈ rs \/ DecisionLevel (variable s0 r) <= 0 ->
      DecisionLevel (variable (foldl clearLevel s0 rs) r) <= 0) as HI.
  { intros rs. induction rs as [| r0 rs IH]; intros s0; simpl.
    - split; [done |]. split; [done |]. by intros r [?%elem_of_nil | ?].
    - destruct (IH (clearLevel s0 r0)) as (F1 & F2 & F3). rewrite F1, F2.
      split; [done |]. split; [done |]. intros r Hr. apply F3. rewrite elem_of_cons in Hr.
      destruct Hr as [[-> | ?] | Hr]; [right | by left | right]; unfold clearLevel; rewrite variable_alter;
        case_bool_decide as E; simpl; try lia.
      unfold variable. rewrite lookup_ge_None_2 by (apply Nat.nlt_ge; tauto). simpl. lia. }
  destruct (HI (map_to_list (variables s)).*2 s) as (E1 & E2 & E3).
  assert (Frame s (foldl clearLevel s (map_to_list (variables s)).*2)) as HF
    by (apply foldl_frame; intros; apply set_level_frame).
  split; [| split; [| done]].
  - apply (wf_reset s); [done | | done | apply map_empty_subseteq].
    etrans; [exact HF | apply assignments_frame].
  - intros k r. simpl. rewrite (fr_vars _ _ HF). intros Hk.
    apply E3. left. apply list_elem_of_fmap. exists (k, r). split; [done |]. by apply elem_of_map_to_list.
Qed.

(** The learned literals are negations of literals of the conflict, and the
    level to go back to is below the current one. *)
Lemma learn_spec s level ls acc bl out bl' :
  (forall l, l ∈ ls -> DecisionLevel (variable s (lit_Variable l)) <= level) ->
  0 <= bl < level -> learn s level ls acc bl = (out, bl') ->
  0 <= bl' < level /\
  forall l, l ∈ out -> l ∈ acc \/ exists l0, l0 ∈ ls /\ lit_Variable l = lit_Variable l0.
Proof.
  revert acc bl. induction ls as [| l ls IH]; intros acc bl Hle Hbl; simpl.
  { intros [= <- <-]. split; [done |]. by left. }
  assert (forall l, l ∈ ls -> DecisionLevel (variable s (lit_Variable l)) <= level) as Hle'
    by (intros; apply Hle; by constructor).
  pose proof (Hle l (list_elem_of_here _ _)) as Hl.
  assert (forall acc' b, (forall x, x ∈ acc' -> x ∈ acc \/ lit_Variable x = lit_Variable l) -> 0 <= b < level ->
    learn s level ls acc' b = (out, bl') -> 0 <= bl' < level /\
    forall x, x ∈ out -> x ∈ acc \/ exists l0, l0 ∈ l :: ls /\ lit_Variable x = lit_Variable l0) as Hstep.
  { intros acc' b Hacc Hb Hrec. destruct (IH acc' b Hle' Hb Hrec) as [? Hout]. split; [done |].
    intros x Hx. destruct (Hout x Hx) as [Hx' | (l0 & ? & ?)].
    - destruct (Hacc x Hx') as [? | ?]; [by left |]. right. exists l. split; [by constructor | done].
    - right. exists l0. split; [by constructor | done]. }
  destruct (Z.eqb_spec (DecisionLevel (variable s (lit_Variable l))) level) as [E | Hne].
  { apply Hstep; [by left | done]. }
  destruct (Z.ltb_spec 0 (DecisionLevel (variable s (lit_Variable l)))) as [Hpos | _].
  - apply Hstep.
    + intros x [? | ->%list_elem_of_singleton]%elem_of_app; [by left | by right].
    + destruct (Z.ltb_spec bl (DecisionLevel (variable s (lit_Variable l)))); lia.
  - apply Hstep; [by left | done].
Qed.

Lemma analyzeConflict_spec s c level o bl :
  WF s -> Levels level s -> c ∈ clauses s -> 0 < level ->
  analyzeConflict s c level = (o, bl) ->
  0 <= bl < level /\
  match o with
  | Some c' => Satisfied c' = false /\ forall l, l ∈ Literals c' -> variables s !! litID s l = Some (lit_Variable l)
  | None => True
  end.
Proof.
  intros HW HL Hc Hlv. unfold analyzeConflict.
  destruct (learn s level (Literals c) [] 0) as [out bl'] eqn:E.
  assert (forall l, l ∈ Literals c -> DecisionLevel (variable s (lit_Variable l)) <= level) as Hle.
  { intros l Hl. apply (HL (litID s l)). by apply (wf_lits s HW c). }
  destruct (learn_spec _ _ _ _ _ _ _ Hle (conj (Z.le_refl 0) Hlv) E) as [Hbl Hout].
  destruct out as [| l out]; intros [= <- <-]; [split; [lia | done] |].
  split; [done |]. split; [done |]. intros x Hx. destruct (Hout x Hx) as [?%elem_of_nil | (l0 & Hl0 & El)]; [done |].
  unfold litID. rewrite El. by apply (wf_lits s HW c).
Qed.

Lemma wf_learned s c :
  WF s -> Satisfied c = false ->
  (forall l, l ∈ Literals c -> variables s !! litID s l = Some (lit_Variable l)) ->
  WF (with_clauses (clauses s ++ [c]) s).
Proof.
  intros HW Hs Hc. split; [apply (wf_vars s HW) | | apply (wf_dom s HW) |].
  - simpl. intros c' l [Hc' | ->%list_elem_of_singleton]%elem_of_app Hl; [by apply (wf_lits s HW c') | by apply Hc].
  - simpl. intros c' [Hc' | ->%list_elem_of_singleton]%elem_of_app Hs'; [by apply (wf_sat s HW c') | congruence].
Qed.

(** What a conflict above the root leads to, before the restart test: a
    lower level. *)
Definition resolve (level : Z) (i : nat) (s : SATSolverImpl) : SATSolverImpl * Z :=
  if EnableLearning (config s) then
    let '(learned, bl) :=
      match clauses s !! i with
      | Some c => analyzeConflict s c level
      | None => (None, level - 1)
      end in
    let s := match learned with
             | Some c => bump 0 0 0 0 1 0 (with_clauses (clauses s ++ [c]) s)
             | None => s
             end in
    (bump 0 0 0 1 0 0 (backtrack bl s), bl)
  else (bump 0 0 0 1 0 0 (backtrack (level - 1) s), level - 1).

Lemma resolve_spec level i s :
  WF s -> Levels level s -> 0 < level ->
  let '(s', level') := resolve level i s in
  WF s' /\ Levels level' s' /\ 0 <= level' < level /\ Frame s s' /\
  Decisions (statistics s') = Decisions (statistics s) /\
  Conflicts (statistics s') = Conflicts (statistics s).
Proof.
  intros HW HL Hlv. unfold resolve.
  assert (forall s1 bl, WF s1 -> Frame s s1 -> 0 <= bl < level ->
    Decisions (statistics s1) = Decisions (statistics s) ->
    Conflicts (statistics s1) = Conflicts (statistics s) ->
    WF (bump 0 0 0 1 0 0 (backtrack bl s1)) /\ Levels bl (bump 0 0 0 1 0 0 (backtrack bl s1)) /\
    0 <= bl < level /\ Frame s (bump 0 0 0 1 0 0 (backtrack bl s1)) /\
    Decisions (statistics (bump 0 0 0 1 0 0 (backtrack bl s1))) = Decisions (statistics s) /\
    Conflicts (statistics (bump 0 0 0 1 0 0 (backtrack bl s1))) = Conflicts (statistics s)) as Hback.
  { intros s1 bl HW1 HF1 Hbl ED EC. destruct (backtrack_spec bl s1 HW1) as (HW2 & HL2 & ES); [lia |].
    split; [by apply wf_bump |]. split; [exact HL2 |]. split; [done |].
    split; [etrans; [exact HF1 |]; etrans; [apply backtrack_frame | apply bump_frame] |].
    rewrite bump_decisions, bump_conflicts, !ES, !Z.add_0_r. done. }
  destruct (EnableLearning (config s)); [| apply Hback; [done .. | lia | done | done]].
  assert (forall o bl,
    (match clauses s !! i with Some c => analyzeConflict s c level | None => (None, level - 1) end) = (o, bl) ->
    0 <= bl < level /\
    match o with
    | Some c' => Satisfied c' = false /\ forall l, l ∈ Literals c' -> variables s !! litID s l = Some (lit_Variable l)
    | None => True
    end) as Han.
  { intros o bl. destruct (clauses s !! i) as [c |] eqn:Ec.
    - intros E. by apply (analyzeConflict_spec s c); [| | eapply list_elem_of_lookup_2 | |].
    - intros [= <- <-]. split; [lia | done]. }
  destruct (match clauses s !! i with Some c => analyzeConflict s c level | None => (None, level - 1) end)
    as [o bl]. destruct (Han o bl eq_refl) as [Hbl Ho]. destruct o as [c' |].
  - destruct Ho as [Hs Hl]. apply Hback; [by apply wf_bump, wf_learned | | done | |].
    + etrans; [apply (learned_frame c') | apply bump_frame].
    + rewrite bump_decisions. apply Z.add_0_r.
    + rewrite bump_conflicts. apply Z.add_0_r.
  - by apply Hback.
Qed.

Lemma onConflict_resolve level i s :
  onConflict level i s =
  let s := bump 0 1 0 0 0 0 s in
  if level =? 0 then Finished s (Err Unsatisfiable)
  else
    let '(s, level) := resolve level i s in
    if 0 <? Conflicts (statistics s) then
      if RestartThreshold (config s) =? 0 then Finished s (Err PanicDivideByZero)
      else if Z.rem (Conflicts (statistics s)) (RestartThreshold (config s)) =? 0
      then Continue 0 (restart (bump 0 0 0 0 0 1 s))
      else Continue level s
    else Continue level s.
Proof. reflexivity. Qed.

(** The result of a round: a state of smaller measure, or the end. *)
Definition round_ok (level : Z) (s : SATSolverImpl) (rd : Round) : Prop :=
  match rd with
  | Continue level' s' =>
      SInv level' s' /\ Frame s s' /\ (measure level' s' < measure level s)%nat
  | Finished s' r =>
      WF s' /\ Frame s s' /\
      match r with
      | Ok a => a = assignments s' /\ Stable s' /\ allVariablesAssigned s' = true
      | Err _ => True
      end
  end.

Lemma onConflict_ok level i s : SInv level s -> round_ok level s (onConflict level i s).
Proof.
  intros [HW HL Hlv HD]. rewrite onConflict_resolve. cbv zeta.
  pose proof (wf_bump 0 1 0 0 0 0 s HW) as HW0. pose proof (bump_frame 0 1 0 0 0 0 s) as HF0.
  destruct (Z.eqb_spec level 0) as [-> | Hne]; [by split |].
  assert (0 < level) as Hpos by lia. specialize (HD Hpos).
  pose proof (resolve_spec level i (bump 0 1 0 0 0 0 s) HW0 HL Hpos) as HR.
  destruct (resolve level i (bump 0 1 0 0 0 0 s)) as [s1 lv1].
  destruct HR as (HW1 & HL1 & Hlv1 & HF1 & ED & EC).
  assert (Frame s s1) as HF by (by etrans).
  assert (Decisions (statistics s1) = Decisions (statistics s)) as ED'
    by (rewrite ED, bump_decisions; lia).
  assert (config s1 = config s) as Ec by apply (fr_config _ _ HF).
  assert (round_ok level s (Continue lv1 s1)) as Hgo.
  { split; [split; [done | done | lia |] |].
    - intros _. by rewrite ED', Ec.
    - split; [done |]. unfold measure. rewrite ED', Ec. lia. }
  goal_if. goal_if. goal_if.
  destruct (restart_spec (bump 0 0 0 0 0 1 s1)) as (HW2 & HL2 & ES); [by apply wf_bump |].
  assert (Frame s (restart (bump 0 0 0 0 0 1 s1))) as HF2
    by (etrans; [exact HF |]; etrans; [apply bump_frame | apply restart_frame]).
  split; [split; [done | done | done | lia] |]. split; [done |].
  unfold measure. rewrite ES, (fr_config _ _ HF2), bump_decisions, Z.add_0_r, ED'. lia.
Qed.

Lemma unassignedVariables_spec e s r :
  WF s -> r ∈ unassignedVariables e s ->
  variables s !! idOf s r = Some r /\ assignments s !! idOf s r = None.
Proof.
  intros HW (id & _ & Hr)%list_elem_of_omap.
  destruct (variables s !! id) as [r' |] eqn:E; [| done].
  destruct (getAssignment r' s) eqn:Ea; [done |]. injection Hr as ->.
  destruct (wf_vars s HW id r E) as [_ Eid]. by rewrite Eid at 1.
Qed.

Lemma better_in s l best :
  (foldl (better s) best l).1 = best.1 \/ exists r, (foldl (better s) best l).1 = Some r /\ r ∈ l.
Proof.
  revert best. induction l as [| r l IH]; intros best; simpl; [by left |].
  destruct (IH (better s best r)) as [E | (r' & E & Hr)].
  - rewrite E. unfold better. goal_if; [| by left]. right. exists r. split; [done | by constructor].
  - right. exists r'. split; [done | by constructor].
Qed.

Lemma selectVariable_spec e s r :
  WF s -> selectVariable e s = Some r ->
  variables s !! idOf s r = Some r /\ assignments s !! idOf s r = None.
Proof.
  intros HW Hs. apply (unassignedVariables_spec e); [done |]. unfold selectVariable in Hs.
  destruct (negb _).
  - by apply head_Some_elem_of.
  - destruct (better_in s (unassignedVariables e s) (None, f64_zero)) as [E | (r' & E & Hr)];
      rewrite Hs in E; [done | by injection E as ->].
Qed.

Lemma onDecision_ok e level s : SInv level s -> Stable s -> round_ok level s (onDecision e level s).
Proof.
  intros [HW HL Hlv HD] Hst. unfold onDecision.
  destruct (allVariablesAssigned s) eqn:Ea; [done |].
  destruct (selectVariable e s) as [r |] eqn:Er; [| by split].
  destruct (selectVariable_spec e s r HW Er) as [Hv Hn].
  set (s1 := assign r true (level + 1) None (bump 1 0 0 0 0 0 s)).
  assert (WF s1) as HW1 by (apply wf_assign; [by apply wf_bump | done | done]).
  assert (Frame s s1) as HF1
    by (transitivity (bump 1 0 0 0 0 0 s); [apply bump_frame | apply assign_frame]).
  assert (Decisions (statistics s1) = Decisions (statistics s) + 1) as ED by done.
  assert (config s1 = config s) as Ec by done.
  destruct (Z.ltb_spec (MaxDecisions (config s1)) (Decisions (statistics s1))) as [? | Hle]; [by split |].
  goal_if. split; [split; [done | | lia | done] |].
  - apply levels_assign. intros k x Hk. etrans; [by apply (HL k x) | lia].
  - split; [done |]. unfold measure. rewrite ED, Ec in *. lia.
Qed.

Lemma round_total e n level s :
  SInv level s -> exists rd, round e n level s = Some rd /\ round_ok level s rd.
Proof.
  intros HS. pose proof HS as [HW HL Hlv HD]. unfold round.
  destruct (ctxDone e n); [eexists; split; [done |]; by split |].
  destruct (unitPropagate_ends level s HW HL) as (s1 & o & HP). rewrite HP.
  destruct (unitPropagate_inv level s s1 o HW HL HP) as (HW1 & HL1 & HE & ED & EC).
  assert (Frame s s1) as HF by apply HE.
  assert (SInv level s1) as HS1 by (split; [done .. |]; rewrite ED, (fr_config _ _ HF); done).
  assert (measure level s1 = measure level s) as EM
    by (unfold measure; by rewrite ED, (fr_config _ _ HF)).
  assert (forall rd, round_ok level s1 rd -> round_ok level s rd) as Hmono.
  { intros [lv' s' | s' r]; unfold round_ok; rewrite ?EM; intros (? & ? & ?); (split; [done |]; split; [by etrans | done]). }
  destruct o as [i |]; eexists; (split; [done |]); apply Hmono.
  - by apply onConflict_ok.
  - apply onDecision_ok; [done |]. by apply (unitPropagate_stable level s).
Qed.

(** Enough rounds, and what the search then returns. *)
Lemma dpll_total e fuel n level s :
  SInv level s -> (measure level s < fuel)%nat ->
  exists s' r, dpllWithCDCL e fuel n level s = Some (s', r) /\ round_ok level s (Finished s' r).
Proof.
  revert n level s. induction fuel as [| fuel IH]; intros n level s HS Hf; [lia |]. simpl.
  destruct (round_total e n level s HS) as (rd & -> & Hrd). destruct rd as [lv' s' | s' r]; [| eauto].
  destruct Hrd as (HS' & HF & Hlt). destruct (IH (S n) lv' s' HS') as (s2 & r & -> & HW2 & HF2 & Hr); [lia |].
  exists s2, r. split; [done |]. split; [done |]. split; [by etrans | done].
Qed.

(** More rounds change nothing. *)
Lemma dpll_fuel e fuel fuel' n level s x :
  dpllWithCDCL e fuel n level s = Some x -> (fuel <= fuel')%nat ->
  dpllWithCDCL e fuel' n level s = Some x.
Proof.
  revert fuel' n level s. induction fuel as [| fuel IH]; intros fuel' n level s Hx Hle; [done |].
  destruct fuel' as [| fuel']; [lia |]. simpl in *. destruct (round e n level s) as [[]|]; [| done | done].
  apply IH; [done | lia].
Qed.

(** ** Lemmas: the problem of a new solver *)

Definition keyOf (req : VersionRequirement) : string := GetPackageKey (PackageRef req).

(** The identifiers of the variables the requirements create. *)
Definition created (reqs : list VersionRequirement) (id : string) : Prop :=
  exists req v, req ∈ reqs /\ v ∈ validVersions req /\ id = varID (keyOf req) v.

(** The variables of a state, the clauses aside. *)
Record Setup (cfg : SATSolverConfigImpl) (P : string -> Prop) (s : SATSolverImpl) : Prop := {
  su_dom : forall id, is_Some (variables s !! id) <-> P id;
  su_vars : forall id r, variables s !! id = Some r -> (r < length (store s))%nat /\ idOf s r = id;
  su_new : forall r, var_Watched (variable s r) = [] /\ DecisionLevel (variable s r) = 0;
  su_assign : assignments s = ∅;
  su_config : config s = cfg;
  su_stats : Decisions (statistics s) = 0 /\ Conflicts (statistics s) = 0
}.

Lemma setup_ext cfg P Q s : (forall id, P id <-> Q id) -> Setup cfg P s -> Setup cfg Q s.
Proof. intros HPQ [Hd ? ? ? ? ?]. split; [| done ..]. intros id. by rewrite <- HPQ. Qed.

Lemma setup_addVariable cfg P s req valid v :
  Setup cfg P s ->
  Setup cfg (λ id, P id \/ id = varID (keyOf req) v) (addVariable req valid s v) /\
  clauses (addVariable req valid s v) = clauses s.
Proof.
  intros [Hd Hv Hn ? ? ?]. split; [| done].
  assert (Ho : forall r, (r < length (store s))%nat -> variable (addVariable req valid s v) r = variable s r).
  { intros r Hr. unfold variable. simpl. by rewrite lookup_app_l. }
  assert (Hl : variable (addVariable req valid s v) (length (store s)) =
    mkVariable (varID (keyOf req) v) (PackageRef req) v valid (Constraints req) 0 None []).
  { unfold variable. simpl. by rewrite list_lookup_middle. }
  split; [| | | done ..].
  - intros id. simpl. rewrite lookup_insert_is_Some, Hd. unfold keyOf.
    destruct (decide (varID (GetPackageKey (PackageRef req)) v = id)); naive_solver.
  - intros id r. unfold idOf. simpl. rewrite length_app. simpl. intros [[<- <-] | [_ Hr]]%lookup_insert_Some.
    + rewrite Hl. split; [lia | done].
    + destruct (Hv id r Hr) as [? <-]. rewrite Ho by done. split; [lia | done].
  - intros r. destruct (lt_eq_lt_dec r (length (store s))) as [[Hr | ->] | Hr].
    + rewrite Ho by done. apply Hn.
    + by rewrite Hl.
    + unfold variable. simpl. rewrite lookup_ge_None_2; [done |]. rewrite length_app. simpl. lia.
Qed.

Lemma setup_versions cfg P s req valid vs :
  Setup cfg P s ->
  Setup cfg (λ id, P id \/ exists v, v ∈ vs /\ id = varID (keyOf req) v) (foldl (addVariable req valid) s vs) /\
  clauses (foldl (addVariable req valid) s vs) = clauses s.
Proof.
  revert P s. induction vs as [| v vs IH]; intros P s HS; simpl.
  - split; [| done]. revert HS. apply setup_ext. intros id. split; [by left |].
    by intros [? | (v & ?%elem_of_nil & _)].
  - destruct (setup_addVariable cfg P s req valid v HS) as [HS1 E1].
    destruct (IH _ _ HS1) as [HS2 E2]. rewrite E2, E1. split; [| done]. revert HS2. apply setup_ext.
    intros id. split.
    + intros [[? | ->] | (v' & ? & ->)]; [by left | right; exists v | right; exists v']; split; try done; by constructor.
    + intros [? | (v' & [-> | ?]%elem_of_cons & ->)]; [by left; left | by left; right |].
      right. by exists v'.
Qed.

Lemma createAllVariables_setup cfg P s reqs s' :
  Setup cfg P s -> createAllVariables reqs s = (s', Ok tt) ->
  Setup cfg (λ id, P id \/ created reqs id) s' /\ clauses s' = clauses s /\
  forall req, req ∈ reqs -> validVersions req ≠ [].
Proof.
  revert P s. induction reqs as [| req reqs IH]; intros P s HS; simpl.
  - intros [= <-]. split; [| split; [done | by intros ? ?%elem_of_nil]]. revert HS. apply setup_ext.
    intros id. split; [by left |]. by intros [? | (? & ? & ?%elem_of_nil & _)].
  - unfold createVariables. destruct (validVersions req) as [| v0 vs] eqn:Ev; [done |]. rewrite <- Ev.
    intros Hc. destruct (setup_versions cfg P s req (validVersions req) (validVersions req) HS) as [HS1 E1].
    destruct (IH _ _ HS1 Hc) as (HS2 & E2 & Hne). split; [| split; [congruence |]].
    + revert HS2. apply setup_ext. intros id. unfold created. split.
      * intros [[? | (v & ? & ->)] | (rq & v & ? & ? & ->)]; [by left | right | right].
        -- exists req, v. split; [by constructor | done].
        -- exists rq, v. split; [by constructor | done].
      * intros [? | (rq & v & [-> | ?]%elem_of_cons & ? & ->)]; [by left; left | left; right; eauto |].
        right. by exists rq, v.
    + intros rq [-> | ?]%elem_of_cons; [by rewrite Ev | by apply Hne].
Qed.

Lemma setup_New cfg : Setup (default defaultConfig cfg) (λ _, False) (NewSATSolver cfg).
Proof. split; simpl; try done. intros id. rewrite lookup_empty. split; [by intros [] | done]. Qed.

(** *** Clauses *)

Definition inClass (key id : string) : Prop := HasPrefix id (key +:+ "@") = true.

(** The literals of an at-least-one and of an at-most-one clause. *)
Definition least (s : SATSolverImpl) (key : string) (ls : list SATLiteral) : Prop :=
  ls ≠ [] /\
  (forall l, l ∈ ls -> Positive l = true /\ inClass key (litID s l)) /\
  (forall id, inClass key id -> is_Some (variables s !! id) -> exists l, l ∈ ls /\ litID s l = id).

Definition most (s : SATSolverImpl) (key : string) (ls : list SATLiteral) : Prop :=
  exists l1 l2, ls = [l1; l2] /\ Positive l1 = false /\ Positive l2 = false /\
    inClass key (litID s l1) /\ inClass key (litID s l2) /\ litID s l1 ≠ litID s l2.

Definition excludes (s : SATSolverImpl) (id1 id2 : string) (ls : list SATLiteral) : Prop :=
  exists l1 l2, ls = [l1; l2] /\ Positive l1 = false /\ Positive l2 = false /\
    litID s l1 = id1 /\ litID s l2 = id2.

Lemma packageLiterals_spec cfg P e key s l :
  Setup cfg P s -> env_ok e ->
  l ∈ packageLiterals e key s <->
  Positive l = true /\ variables s !! litID s l = Some (lit_Variable l) /\ inClass key (litID s l) /\
  lit_Version l = var_Version (variable s (lit_Variable l)).
Proof.
  intros HS [He _]. unfold packageLiterals. rewrite list_elem_of_omap. split.
  - intros (id & _ & Hl). destruct (HasPrefix id (key +:+ "@")) eqn:Hp; [| done].
    destruct (variables s !! id) as [r |] eqn:Hr; [| done]. injection Hl as <-. unfold litID. simpl.
    destruct (su_vars _ _ _ HS id r Hr) as [_ ->]. done.
  - intros (Hpos & Hv & Hc & Hver). exists (litID s l). unfold inClass in Hc. rewrite Hc, Hv. split.
    + rewrite He. apply list_elem_of_fmap. exists (litID s l, lit_Variable l). split; [done |].
      by apply elem_of_map_to_list.
    + simpl. rewrite <- Hver. destruct l; simpl in *; congruence.
Qed.

Lemma packageLiterals_NoDup cfg P e key s :
  Setup cfg P s -> env_ok e -> NoDup (litID s <$> packageLiterals e key s).
Proof.
  intros HS [He _]. unfold packageLiterals.
  assert (NoDup (clauseOrder e (length (clauses s)) (map_to_list (variables s)).*1)) as Hn
    by (rewrite He; apply NoDup_fst_map_to_list).
  revert Hn. generalize (clauseOrder e (length (clauses s)) (map_to_list (variables s)).*1) as ids.
  assert (forall (ids : list string) (x : string),
    x ∈ litID s <$> omap (λ id, if HasPrefix id (key +:+ "@")
      then (λ r, mkLiteral r true (var_Version (variable s r))) <$> variables s !! id else None) ids ->
    x ∈ ids) as Hsub.
  { intros ids x (l & -> & (id & Hid & Hl)%list_elem_of_omap)%list_elem_of_fmap.
    destruct (HasPrefix id (key +:+ "@")); [| done].
    destruct (variables s !! id) as [r |] eqn:Hr; [| done]. injection Hl as <-. unfold litID. simpl.
    by destruct (su_vars _ _ _ HS id r Hr) as [_ ->]. }
  induction ids as [| id ids IH]; intros Hn; [constructor |].
  apply NoDup_cons in Hn as [Hid Hn].
  specialize (IH Hn). cbn [omap list_omap].
  destruct (HasPrefix id (key +:+ "@")); [| done].
  destruct (variables s !! id) as [r |] eqn:Hr; [| done]. simpl. constructor; [| done].
  unfold litID at 1. simpl. destruct (su_vars _ _ _ HS id r Hr) as [_ ->]. intros Hin%Hsub. done.
Qed.

Lemma atMostOne_shape key i ls c :
  c ∈ atMostOne key i ls ->
  exists l1 l2 pre mid post, ls = pre ++ l1 :: mid ++ l2 :: post /\ Literals c = [negative l1; negative l2].
Proof.
  revert i. induction ls as [| l ls IH]; intros i; simpl; [by intros ?%elem_of_nil |].
  intros [Hc | Hc]%elem_of_app.
  - apply elem_of_lookup_imap in Hc as (k & l2 & -> & Hk). apply list_elem_of_split_length in Hk as (mid & post & -> & _).
    by exists l, l2, [], mid, post.
  - destruct (IH _ Hc) as (l1 & l2 & pre & mid & post & -> & E). by exists l1, l2, (l :: pre), mid, post.
Qed.

Lemma atMostOne_complete key i pre l1 mid l2 post :
  exists c, c ∈ atMostOne key i (pre ++ l1 :: mid ++ l2 :: post) /\ Literals c = [negative l1; negative l2].
Proof.
  revert i. induction pre as [| l pre IH]; intros i; simpl.
  - eexists (newClause _ [negative l1; negative l2] false). split; [| done].
    apply elem_of_app. left. apply elem_of_lookup_imap. exists (length mid), l2. split; [reflexivity |].
    by apply list_lookup_middle.
  - destruct (IH (S i)) as (c & Hc & E). exists c. split; [| done]. apply elem_of_app. by right.
Qed.

Lemma inClass_varID key v : inClass key (varID key v).
Proof. apply HasPrefix_spec. exists v. unfold varID. by rewrite append_assoc. Qed.

Lemma litID_inj s pre l1 mid l2 post :
  NoDup (litID s <$> (pre ++ l1 :: mid ++ l2 :: post)) -> litID s l1 ≠ litID s l2.
Proof.
  rewrite fmap_app, fmap_cons, fmap_app, fmap_cons. intros (_ & _ & Hn)%NoDup_app.
  apply NoDup_cons in Hn as [Hn _]. intros E. apply Hn. rewrite E. apply elem_of_app. right. by constructor.
Qed.

(** The clauses one requirement adds. *)
Record NewClauses (s : SATSolverImpl) (key : string) (new : list SATClause) : Prop := {
  nc_unsat : forall c, c ∈ new -> Satisfied c = false;
  nc_lits : forall c l, c ∈ new -> l ∈ Literals c -> variables s !! litID s l = Some (lit_Variable l);
  nc_shape : forall c, c ∈ new -> least s key (Literals c) \/ most s key (Literals c);
  nc_least : exists c, c ∈ new /\ least s key (Literals c);
  nc_most : forall id1 id2, id1 ≠ id2 -> inClass key id1 -> inClass key id2 ->
    is_Some (variables s !! id1) -> is_Some (variables s !! id2) ->
    exists c, c ∈ new /\ (excludes s id1 id2 (Literals c) \/ excludes s id2 id1 (Literals c))
}.

Lemma createClauses_spec cfg P e s req :
  Setup cfg P s -> env_ok e -> (exists id, P id /\ inClass (keyOf req) id) ->
  exists new, createClauses e s req = with_clauses (clauses s ++ new) s /\ NewClauses s (keyOf req) new.
Proof.
  intros HS He (id0 & H0 & Hc0). unfold createClauses. fold (keyOf req).
  set (key := keyOf req) in *. set (ls := packageLiterals e key s).
  pose proof (λ l, packageLiterals_spec cfg P e key s l HS He) as Hls. fold ls in Hls.
  pose proof (packageLiterals_NoDup cfg P e key s HS He) as Hnd. fold ls in Hnd.
  assert (forall id, inClass key id -> is_Some (variables s !! id) ->
    exists l, l ∈ ls /\ litID s l = id) as Hall.
  { intros id Hc [r Hr]. destruct (su_vars _ _ _ HS id r Hr) as [_ Eid].
    exists (mkLiteral r true (var_Version (variable s r))). rewrite Hls. unfold litID. simpl.
    rewrite Eid. done. }
  assert (least s key ls) as Hleast.
  { split; [| split; [| done]].
    - destruct (Hall id0 Hc0) as (l & Hl & _); [by apply (su_dom _ _ _ HS) |]. by intros E; rewrite E in Hl; apply elem_of_nil in Hl.
    - intros l (? & _ & ? & _)%Hls. done. }
  destruct ls as [| l0 ls0] eqn:El; [by destruct Hleast |]. rewrite <- El in *.
  exists (atLeastOne key ls :: atMostOne key 0 ls). split; [done |].
  assert (forall c, c ∈ atLeastOne key ls :: atMostOne key 0 ls ->
    Satisfied c = false /\ (forall l, l ∈ Literals c -> variables s !! litID s l = Some (lit_Variable l)) /\
    (least s key (Literals c) \/ most s key (Literals c))) as Hnew.
  { intros c [-> | Hc]%elem_of_cons.
    - split; [done |]. split; [| by left]. intros l (_ & ? & _)%Hls. done.
    - assert (Satisfied c = false) as Hsat.
      { clear -Hc. revert Hc. generalize 0%nat. induction ls as [| l ls IH]; intros i; simpl; [by intros ?%elem_of_nil |].
        intros [(k & l2 & -> & _)%elem_of_lookup_imap | Hc]%elem_of_app; [done | by eapply IH]. }
      destruct (atMostOne_shape _ _ _ _ Hc) as (l1 & l2 & pre & mid & post & E & EL).
      assert (l1 ∈ ls /\ l2 ∈ ls) as [H1 H2]
        by (rewrite E, !elem_of_app, !elem_of_cons, !elem_of_app, !elem_of_cons; tauto).
      apply Hls in H1 as (_ & V1 & C1 & _). apply Hls in H2 as (_ & V2 & C2 & _).
      split; [done |]. rewrite EL. split.
      + intros l [-> | ->%list_elem_of_singleton]%elem_of_cons; done.
      + right. exists (negative l1), (negative l2). split; [done |]. split; [done |]. split; [done |].
        split; [exact C1 |]. split; [exact C2 |]. rewrite E in Hnd. by apply litID_inj in Hnd. }
  split.
  - intros c Hc. by apply Hnew.
  - intros c l Hc. by apply Hnew.
  - intros c Hc. by apply Hnew.
  - exists (atLeastOne key ls). split; [by constructor | done].
  - intros id1 id2 Hne C1 C2 V1 V2.
    destruct (Hall id1 C1 V1) as (l1 & H1 & E1). destruct (Hall id2 C2 V2) as (l2 & H2 & E2).
    assert (l1 ≠ l2) as Hl by (intros ->; congruence).
    assert (forall a b, a ∈ ls -> b ∈ ls -> a ≠ b -> exists c, c ∈ atMostOne key 0 ls /\
      (Literals c = [negative a; negative b] \/ Literals c = [negative b; negative a])) as Hpair.
    { intros a b (pre & post & E)%list_elem_of_split Hb Hab. rewrite E in Hb.
      apply elem_of_app in Hb as [Hb | [Hb | Hb]%elem_of_cons]; [| done |].
      - apply list_elem_of_split in Hb as (p1 & p2 & ->). rewrite <- app_assoc in E. simpl in E. rewrite E.
        destruct (atMostOne_complete key 0 p1 b p2 a post) as (c & ? & ?). exists c. auto.
      - apply list_elem_of_split in Hb as (p1 & p2 & ->). rewrite E.
        destruct (atMostOne_complete key 0 pre a p1 b p2) as (c & ? & ?). exists c. auto. }
    destruct (Hpair l1 l2 H1 H2 Hl) as (c & Hc & [E | E]); exists c; (split; [by constructor |]); rewrite E; [left | right].
    + by exists (negative l1), (negative l2).
    + by exists (negative l2), (negative l1).
Qed.

(** The problem of the requirements: its variables and its clauses (as lists
    of literals, so that marks do not matter). *)
Record Problem (reqs : list VersionRequirement) (s : SATSolverImpl) : Prop := {
  pb_dom : forall id, is_Some (variables s !! id) <-> created reqs id;
  pb_least : forall req, req ∈ reqs -> exists ls, ls ∈ Literals <$> clauses s /\ least s (keyOf req) ls;
  pb_most : forall req id1 id2, req ∈ reqs -> id1 ≠ id2 ->
    inClass (keyOf req) id1 -> inClass (keyOf req) id2 ->
    is_Some (variables s !! id1) -> is_Some (variables s !! id2) ->
    exists ls, ls ∈ Literals <$> clauses s /\ (excludes s id1 id2 ls \/ excludes s id2 id1 ls)
}.

Definition Shaped (reqs : list VersionRequirement) (s : SATSolverImpl) : Prop :=
  forall ls, ls ∈ Literals <$> clauses s ->
    exists req, req ∈ reqs /\ (least s (keyOf req) ls \/ most s (keyOf req) ls).

(** All requirements' clauses, added to none. *)
Lemma createClauses_all cfg P e s reqs :
  Setup cfg P s -> env_ok e ->
  (forall req, req ∈ reqs -> exists id, P id /\ inClass (keyOf req) id) ->
  exists new, foldl (createClauses e) s reqs = with_clauses (clauses s ++ new) s /\
    (forall c, c ∈ new -> Satisfied c = false /\
       (forall l, l ∈ Literals c -> variables s !! litID s l = Some (lit_Variable l)) /\
       exists req, req ∈ reqs /\ (least s (keyOf req) (Literals c) \/ most s (keyOf req) (Literals c))) /\
    (forall req, req ∈ reqs -> exists new1, NewClauses s (keyOf req) new1 /\ forall c, c ∈ new1 -> c ∈ new).
Proof.
  intros HS He. revert s HS. induction reqs as [| req reqs IH]; intros s HS Hne; simpl.
  { exists []. rewrite app_nil_r. split; [by destruct s |]. split; by intros ? ?%elem_of_nil. }
  destruct (createClauses_spec cfg P e s req HS He) as (n1 & E1 & HN1); [apply Hne; by constructor |].
  rewrite E1. assert (Setup cfg P (with_clauses (clauses s ++ n1) s)) as HS1 by by destruct HS.
  destruct (IH _ HS1) as (n2 & E2 & Hn2 & Hr2); [intros r Hr; apply Hne; by constructor |].
  rewrite E2. simpl. rewrite <- app_assoc. exists (n1 ++ n2). split; [done |]. split.
  - intros c [Hc | Hc]%elem_of_app.
    + split; [by apply HN1 |]. split; [intros l; by apply (nc_lits _ _ _ HN1) |].
      exists req. split; [by constructor | by apply (nc_shape _ _ _ HN1)].
    + destruct (Hn2 c Hc) as (? & ? & r & ? & ?). split; [done |]. split; [done |].
      exists r. split; [by constructor | done].
  - intros r [-> | Hr]%elem_of_cons.
    + exists n1. split; [done |]. intros c Hc. apply elem_of_app. by left.
    + destruct (Hr2 r Hr) as (n & HN & Hsub). exists n. split; [by destruct HN |].
      intros c Hc. apply elem_of_app. right. by apply Hsub.
Qed.

Lemma watchTwo_keeps c : Literals (watchTwo c) = Literals c /\ Satisfied (watchTwo c) = Satisfied c.
Proof. unfold watchTwo. by destruct (2 <=? length (Literals c))%nat. Qed.

Lemma initialize_spec cfg e reqs s :
  env_ok e -> initialize e reqs (NewSATSolver cfg) = (s, Ok tt) ->
  SInv 0 s /\ Problem reqs s /\ Shaped reqs s /\
  Setup (default defaultConfig cfg) (created reqs) s /\
  forall req, req ∈ reqs -> validVersions req ≠ [].
Proof.
  intros He. unfold initialize.
  destruct (createAllVariables reqs (NewSATSolver cfg)) as [s1 [[] | err]] eqn:E1; [| done].
  destruct (createAllVariables_setup _ _ _ _ _ (setup_New cfg) E1) as (HS1' & Ec1 & Hvalid).
  assert (Setup (default defaultConfig cfg) (created reqs) s1) as HS1
    by (revert HS1'; apply setup_ext; intros id; tauto).
  destruct (createClauses_all _ _ e s1 reqs HS1 He) as (new & E2 & Hnew & Hreq).
  { intros req Hr. destruct (validVersions req) as [| v vs] eqn:Ev; [by destruct (Hvalid req Hr) |].
    exists (varID (keyOf req) v). split; [| apply inClass_varID].
    exists req, v. split; [done |]. rewrite Ev. split; [by constructor | done]. }
  simpl in Ec1. rewrite Ec1 in E2. simpl in E2. rewrite E2. intros [= <-].
  assert (Literals <$> clauses (initializeWatchedLiterals (with_clauses new s1)) = Literals <$> new) as EL.
  { simpl. rewrite <- list_fmap_compose. apply list_fmap_ext. intros i c _.
    apply watchTwo_keeps. }
  assert (forall c, c ∈ clauses (initializeWatchedLiterals (with_clauses new s1)) ->
    exists c0, c0 ∈ new /\ Literals c = Literals c0 /\ Satisfied c = Satisfied c0) as Hcl.
  { simpl. intros c (c0 & -> & Hc0)%list_elem_of_fmap. exists c0. split; [done |].
    apply watchTwo_keeps. }
  assert (forall c, c ∈ new -> Literals c ∈ Literals <$> new) as Hin by (intros; by apply list_elem_of_fmap_2).
  split; [| split; [| split; [| split]]].
  - split; [| | done |].
    + split.
      * apply (su_vars _ _ _ HS1).
      * intros c l (c0 & Hc0 & E & _)%Hcl Hl. rewrite E in Hl. by apply (Hnew c0).
      * simpl. rewrite (su_assign _ _ _ HS1). intros k. rewrite lookup_empty. by intros [].
      * intros c (c0 & Hc0 & _ & E)%Hcl. rewrite E. by destruct (Hnew c0 Hc0) as [-> _].
    + intros k r _. change (DecisionLevel (variable s1 r) <= 0).
      destruct (su_new _ _ _ HS1 r) as [_ ->]. done.
    + done.
  - split.
    + apply (su_dom _ _ _ HS1).
    + intros req Hr. destruct (Hreq req Hr) as (n1 & HN & Hsub).
      destruct (nc_least _ _ _ HN) as (c & Hc & Hl). exists (Literals c). simpl in EL |- *. rewrite EL. auto.
    + intros req id1 id2 Hr Hne C1 C2 V1 V2. destruct (Hreq req Hr) as (n1 & HN & Hsub).
      destruct (nc_most _ _ _ HN id1 id2 Hne C1 C2 V1 V2) as (c & Hc & Hl). exists (Literals c).
      simpl in EL |- *. rewrite EL. auto.
  - intros ls. simpl in EL |- *. rewrite EL. intros (c & -> & Hc)%list_elem_of_fmap. by apply Hnew.
  - destruct HS1. by split.
  - done.
Qed.

(** ** Lemmas: what a complete search has found *)

Lemma problem_frame reqs s s' : Frame s s' -> Problem reqs s -> Problem reqs s'.
Proof.
  intros HF [Hd Hl Hm].
  assert (forall l, litID s' l = litID s l) as EL by (intros l; apply (fr_id _ _ HF)).
  assert (forall ls, ls ∈ Literals <$> clauses s -> ls ∈ Literals <$> clauses s') as Hin.
  { intros ls Hls. destruct (fr_lits _ _ HF) as [k ->]. apply elem_of_app. by left. }
  split; rewrite ?(fr_vars _ _ HF); [done | |].
  - intros req Hr. destruct (Hl req Hr) as (ls & Hls & H1 & H2 & H3). exists ls. split; [by apply Hin |].
    split; [done |]. split; [intros l; rewrite EL; apply H2 |]. rewrite (fr_vars _ _ HF).
    intros id C V. destruct (H3 id C V) as (l & ? & ?). exists l. by rewrite EL.
  - intros req id1 id2 Hr Hne C1 C2 V1 V2.
    destruct (Hm req id1 id2 Hr Hne C1 C2 V1 V2) as (ls & Hls & HE). exists ls. split; [by apply Hin |].
    unfold excludes in *. destruct HE as [(l1 & l2 & HE) | (l1 & l2 & HE)]; [left | right];
      exists l1, l2; by rewrite !EL.
Qed.

Lemma all_assigned s :
  WF s -> allVariablesAssigned s = true -> forall id, is_Some (variables s !! id) -> is_Some (assignments s !! id).
Proof.
  intros HW Ha id Hid. apply Nat.eqb_eq in Ha.
  assert (dom (assignments s) ⊆ dom (variables s)) as Hsub.
  { intros k. rewrite !elem_of_dom. apply (wf_dom s HW). }
  apply set_subseteq_size_eq in Hsub; [| rewrite !size_dom; lia].
  apply elem_of_dom. rewrite Hsub. by apply elem_of_dom.
Qed.

(** The literal of an unassigned variable is unassigned. *)
Lemma all_clauses_true s c :
  WF s -> Stable s -> allVariablesAssigned s = true -> c ∈ clauses s -> Exists (lit_true s) (Literals c).
Proof.
  intros HW Hst Ha Hc. destruct (Hst c Hc) as [? | (a & b & us & Hs)]; [done |].
  destruct (scan_sub s _ _ a Hs) as [Hl Hn]; [by constructor |].
  destruct (all_assigned s HW Ha (litID s a)) as [v Hv]; [by rewrite (wf_lits s HW c a Hc Hl) |].
  unfold getAssignment in Hn. unfold litID in Hv. congruence.
Qed.

(** Exactly one variable of each package is true. *)
Lemma one_version reqs s req :
  WF s -> Problem reqs s -> Stable s -> allVariablesAssigned s = true -> req ∈ reqs ->
  exists id, inClass (keyOf req) id /\ assignments s !! id = Some true /\ created reqs id /\
    forall id', inClass (keyOf req) id' -> assignments s !! id' = Some true -> id' = id.
Proof.
  intros HW HP Hst Ha Hr.
  destruct (pb_least _ _ HP req Hr) as (ls & (c & -> & Hc)%list_elem_of_fmap & _ & Hpos & _).
  pose proof (all_clauses_true s c HW Hst Ha Hc) as (l & Hl & Ht)%Exists_exists.
  destruct (Hpos l Hl) as [Hp Hcl]. unfold lit_true, getAssignment in Ht. rewrite Hp in Ht.
  exists (litID s l). split; [done |]. split; [done |]. split.
  { apply (pb_dom _ _ HP). by rewrite (wf_lits s HW c l Hc Hl). }
  intros id' C' T'. destruct (decide (id' = litID s l)) as [? | Hne]; [done |]. exfalso.
  destruct (pb_most _ _ HP req id' (litID s l) Hr Hne C' Hcl) as (ls2 & (c2 & -> & Hc2)%list_elem_of_fmap & HE).
  { apply (wf_dom s HW). by eexists. }
  { by rewrite (wf_lits s HW c l Hc Hl). }
  pose proof (all_clauses_true s c2 HW Hst Ha Hc2) as Ht2.
  assert (forall x, Positive x = false -> lit_true s x -> assignments s !! litID s x = Some true -> False) as Hno.
  { intros x Hx Hx2 Hx3. unfold lit_true, getAssignment in Hx2. unfold litID in Hx3. congruence. }
  destruct HE as [(l1 & l2 & E & P1 & P2 & E1 & E2) | (l1 & l2 & E & P1 & P2 & E1 & E2)]; rewrite E in Ht2;
    apply Exists_cons in Ht2 as [Ht2 | [Ht2 | Ht2%Exists_nil]%Exists_cons]; try done;
    (eapply Hno; [| exact Ht2 |]; [done |]); by rewrite ?E1, ?E2.
Qed.

Lemma bound_fuel cfg reqs e s fuel :
  env_ok e -> initialize e reqs (NewSATSolver cfg) = (s, Ok tt) ->
  (Z.to_nat (2 * (MaxDecisions (default defaultConfig cfg) + 1)) < fuel)%nat ->
  exists s' r, dpllWithCDCL e fuel 0 0 s = Some (s', r) /\ round_ok 0 s (Finished s' r).
Proof.
  intros He Hi Hf. destruct (initialize_spec cfg e reqs s He Hi) as (HS & _ & _ & Hset & _).
  apply dpll_total; [done |]. unfold measure. rewrite (su_config _ _ _ Hset).
  destruct (su_stats _ _ _ Hset) as [-> _]. by rewrite Z.sub_0_r, Z.add_0_r.
Qed.

Lemma initialize_ok e reqs s s' r : initialize e reqs s = (s', Ok r) -> r = tt.
Proof. by destruct r. Qed.

(** What a successful [Solve] of a new solver leaves behind. *)
Lemma solve_ok cfg e fuel reqs s' sol :
  env_ok e -> Solve e fuel reqs (NewSATSolver cfg) = Some (s', Ok sol) ->
  WF s' /\ Problem reqs s' /\ Stable s' /\ allVariablesAssigned s' = true /\
  sol = convertToVersionSolution (assignments s') (statistics s').
Proof.
  intros He. unfold Solve. destruct (initialize e reqs (NewSATSolver cfg)) as [s [[] | err]] eqn:Hi; [| done].
  destruct (initialize_spec cfg e reqs s He Hi) as (HS & HP & _ & _ & _).
  destruct (dpllWithCDCL e fuel 0 0 s) as [[s2 [a | err]] |] eqn:Hd; [| done | done].
  intros [= <- <-].
  set (fuel' := (S (measure 0 s) + fuel)%nat).
  destruct (dpll_total e fuel' 0 0 s HS) as (s3 & r & Hd' & HW & HF & Hr); [unfold fuel'; lia |].
  rewrite (dpll_fuel e fuel fuel' 0 0 s _ Hd) in Hd' by (unfold fuel'; lia).
  injection Hd' as <- <-. destruct Hr as (-> & Hst & Ha).
  split; [done |]. split; [by apply (problem_frame _ s) |]. done.
Qed.

(** ** Lemmas: the search never meets a conflict *)

(** The classes of different packages do not meet. *)
Definition separated (reqs : list VersionRequirement) : Prop :=
  forall r1 r2 v, r1 ∈ reqs -> r2 ∈ reqs -> v ∈ validVersions r2 ->
    inClass (keyOf r1) (varID (keyOf r2) v) -> keyOf r1 = keyOf r2.

(** In a package with an assigned variable exactly one is true. *)
Record Settled (reqs : list VersionRequirement) (s : SATSolverImpl) : Prop := {
  se_some : forall req id b, req ∈ reqs -> inClass (keyOf req) id -> assignments s !! id = Some b ->
    exists id', inClass (keyOf req) id' /\ assignments s !! id' = Some true;
  se_one : forall req id1 id2, req ∈ reqs -> inClass (keyOf req) id1 -> inClass (keyOf req) id2 ->
    assignments s !! id1 = Some true -> assignments s !! id2 = Some true -> id1 = id2
}.

Record Calm (reqs : list VersionRequirement) (s : SATSolverImpl) : Prop := {
  ca_wf : WF s;
  ca_problem : Problem reqs s;
  ca_shaped : Shaped reqs s;
  ca_settled : Settled reqs s
}.

Lemma shaped_frame reqs s s' :
  Frame s s' -> Literals <$> clauses s' = Literals <$> clauses s -> Shaped reqs s -> Shaped reqs s'.
Proof.
  intros HF EC HS ls Hls. rewrite EC in Hls. destruct (HS ls Hls) as (req & Hr & Hsh). exists req. split; [done |].
  assert (forall l, litID s' l = litID s l) as EL by (intros l; apply (fr_id _ _ HF)).
  destruct Hsh as [(H1 & H2 & H3) | (l1 & l2 & E & P1 & P2 & C1 & C2 & Hne)].
  - left. split; [done |]. split; [intros l; rewrite EL; apply H2 |]. rewrite (fr_vars _ _ HF).
    intros id C V. destruct (H3 id C V) as (l & ? & ?). exists l. by rewrite EL.
  - right. exists l1, l2. by rewrite !EL.
Qed.

(** What a unit clause propagates: the only version of a package, or the
    exclusion of a version of a package that has a true one. *)
Lemma unit_shape reqs s c l :
  Calm reqs s -> c ∈ clauses s -> scan s (Literals c) = Some [l] ->
  exists req, req ∈ reqs /\ inClass (keyOf req) (litID s l) /\
    ((Positive l = true /\
      forall id, inClass (keyOf req) id -> is_Some (variables s !! id) -> id = litID s l) \/
     (Positive l = false /\
      exists id, inClass (keyOf req) id /\ assignments s !! id = Some true /\ id ≠ litID s l)).
Proof.
  intros [HW HP HSh [Hsome Hone]] Hc Hs.
  destruct (scan_sub s _ _ l Hs) as [Hl Hn]; [by constructor |].
  destruct (HSh (Literals c)) as (req & Hr & [(_ & Hpos & Hall) | (l1 & l2 & E & P1 & P2 & C1 & C2 & Hne)]);
    [by apply list_elem_of_fmap_2 | |]; exists req; (split; [done |]).
  - destruct (Hpos l Hl) as [Hp Hcl]. split; [done |]. left. split; [done |].
    assert (forall x, x ∈ Literals c -> litID s x = litID s l) as Honly.
    { intros x Hx. destruct (scan_Some s _ _ x Hs Hx) as [[_ ->%list_elem_of_singleton] | Hf]; [done |]. exfalso.
      destruct (Hpos x Hx) as [Hpx Hcx]. unfold getAssignment in Hf.
      destruct (Hsome req (litID s x) _ Hr Hcx Hf) as (id & Cid & Tid).
      destruct (Hall id Cid) as (y & Hy & Ey); [apply (wf_dom s HW); by eexists |].
      destruct (Hpos y Hy) as [Hpy _].
      assert (scan s (Literals c) = None) as Hnone.
      { apply scan_None, Exists_exists. exists y. split; [done |]. unfold lit_true, getAssignment.
        rewrite Hpy. unfold litID in Ey. by rewrite Ey. }
      congruence. }
    intros id Cid Vid. destruct (Hall id Cid Vid) as (y & Hy & <-). by apply Honly.
  - rewrite E in Hs, Hl.
    assert (forall x y, Positive x = false -> Positive y = false -> x ∈ [l1; l2] -> y ∈ [l1; l2] ->
      litID s x ≠ litID s y -> getAssignment (lit_Variable x) s = None -> l = x ->
      assignments s !! litID s y = Some true) as Hother.
    { intros x y Px Py Hx Hy Hxy Hnx ->. destruct (scan_Some s _ _ y Hs Hy) as [[_ ->%list_elem_of_singleton] | Hf]; [done |].
      rewrite Py in Hf. exact Hf. }
    apply elem_of_cons in Hl as [-> | ->%list_elem_of_singleton].
    + split; [done |]. right. split; [done |]. exists (litID s l2). split; [done |]. split; [| done].
      apply (Hother l1 l2); try done; rewrite !elem_of_cons; tauto.
    + split; [done |]. right. split; [done |]. exists (litID s l1). split; [done |]. split; [| done].
      apply (Hother l2 l1); try done; rewrite !elem_of_cons; tauto.
Qed.

Lemma no_conflict reqs s c : Calm reqs s -> c ∈ clauses s -> scan s (Literals c) ≠ Some [].
Proof.
  intros [HW HP HSh [Hsome Hone]] Hc Hs.
  assert (forall x, x ∈ Literals c -> assignments s !! litID s x = Some (negb (Positive x))) as Hfalse.
  { intros x Hx. by destruct (scan_Some s _ _ x Hs Hx) as [[_ ?%elem_of_nil] | Hf]. }
  destruct (HSh (Literals c)) as (req & Hr & [(Hne0 & Hpos & Hall) | (l1 & l2 & E & P1 & P2 & C1 & C2 & Hne)]);
    [by apply list_elem_of_fmap_2 | |].
  - destruct (Literals c) as [| l ls] eqn:EL; [done |]. rewrite <- EL in *.
    assert (l ∈ Literals c) as Hl by (rewrite EL; constructor).
    destruct (Hpos l Hl) as [Hp Hcl].
    destruct (Hsome req (litID s l) _ Hr Hcl (Hfalse l Hl)) as (id & Cid & Tid).
    destruct (Hall id Cid) as (y & Hy & <-); [apply (wf_dom s HW); by eexists |].
    destruct (Hpos y Hy) as [Hpy _]. specialize (Hfalse y Hy). rewrite Hpy in Hfalse. simpl in Hfalse. congruence.
  - assert (l1 ∈ Literals c /\ l2 ∈ Literals c) as [H1 H2] by (rewrite E, !elem_of_cons; tauto).
    apply Hne. apply (Hone req); [done .. | |].
    + rewrite (Hfalse l1 H1). by rewrite P1.
    + rewrite (Hfalse l2 H2). by rewrite P2.
Qed.

(** Assigning an unassigned variable keeps the packages settled when it is
    the first of its package and made true, or another one is true and it is
    made false. *)
Lemma settled_assign reqs s s' id (b : bool) :
  separated reqs -> Problem reqs s -> is_Some (variables s !! id) ->
  assignments s' = <[id := b]> (assignments s) -> assignments s !! id = None ->
  (forall req, req ∈ reqs -> inClass (keyOf req) id ->
     if b then forall id', inClass (keyOf req) id' -> assignments s !! id' = None
     else exists id', inClass (keyOf req) id' /\ assignments s !! id' = Some true /\ id' ≠ id) ->
  Settled reqs s -> Settled reqs s'.
Proof.
  intros Hsep HP Hid Ea Hn Hcond [Hsome Hone]. split; rewrite Ea.
  - intros req x bx Hr Cx [[<- <-] | [Hne Hx]]%lookup_insert_Some.
    + specialize (Hcond req Hr Cx). destruct b.
      * exists id. split; [done |]. apply lookup_insert_eq.
      * destruct Hcond as (id' & ? & ? & ?). exists id'. split; [done |]. by rewrite lookup_insert_ne.
    + destruct (Hsome req x bx Hr Cx Hx) as (id' & C' & T'). exists id'. split; [done |].
      rewrite lookup_insert_ne; [done |]. intros <-. congruence.
  - intros req x y Hr Cx Cy. rewrite !lookup_insert_Some.
    intros [[<- ->] | [Hx Tx]] [[<- Hb] | [Hy Ty]]; [done | | | by apply (Hone req)].
    + specialize (Hcond req Hr Cx). simpl in Hcond. rewrite (Hcond y Cy) in Ty. done.
    + subst b. specialize (Hcond req Hr Cy). simpl in Hcond. rewrite (Hcond x Cx) in Tx. done.
Qed.

Lemma calm_propagated reqs level s i c l :
  separated reqs -> Calm reqs s -> clauses s !! i = Some c -> scan s (Literals c) = Some [l] ->
  Calm reqs (bump 0 0 1 0 0 0 (assign (lit_Variable l) (Positive l) level (Some i) s)).
Proof.
  intros Hsep HC Hc Hs. pose proof HC as [HW HP HSh HSe].
  assert (c ∈ clauses s) as Hin by (by eapply list_elem_of_lookup_2).
  destruct (unit_literal s c l HW Hin Hs) as (Hl & Hv & Hn).
  pose proof (propagated_extends (lit_Variable l) (Positive l) level (Some i) s Hn) as [HF HL _].
  split; [by apply wf_bump, wf_assign | by apply (problem_frame _ s) | by apply (shaped_frame _ s) |].
  apply (settled_assign reqs s _ (litID s l) (Positive l)); [done | done | by eexists | done | done | | done].
  intros req' Hr' C'.
  destruct (unit_shape reqs s c l HC Hin Hs) as (req & Hr & C & Hcase).
  assert (keyOf req' = keyOf req) as Ek.
  { destruct (proj1 (pb_dom _ _ HP (litID s l))) as (r2 & v & Hr2 & Hv2 & E); [by eexists |].
    rewrite E in C, C'. rewrite (Hsep req' r2 v), (Hsep req r2 v); done. }
  rewrite Ek. destruct Hcase as [[-> Hall] | [-> Hex]]; [| done].
  intros id' Cid'. destruct (assignments s !! id') as [b |] eqn:E; [| done].
  rewrite (Hall id' Cid') in E; [| apply (wf_dom s HW); by eexists]. unfold litID in E. congruence.
Qed.

Lemma calm_step reqs level i s :
  separated reqs -> Calm reqs s ->
  match processClause level i s with
  | Unchanged s' | Propagated s' => Calm reqs s'
  | Conflicting => False
  end.
Proof.
  intros Hsep HC. pose proof HC as [HW HP HSh HSe]. pose proof (processClause_spec level i s) as HS.
  destruct (processClause level i s) as [s' | s' |].
  - destruct HS as [[-> _] | (c & Hc & He & ->)]; [done |].
    pose proof (mark_extends i s) as [HF HL _].
    split; [by eapply wf_mark | by apply (problem_frame _ s) | by apply (shaped_frame _ s) |].
    destruct HSe. by split.
  - destruct HS as (c & l & Hc & Hs & ->). by apply (calm_propagated reqs level s i c l).
  - destruct HS as (c & Hc & Hs). apply (no_conflict reqs s c HC); [by eapply list_elem_of_lookup_2 | done].
Qed.

Lemma pass_calm reqs level idx b s s' b' o :
  separated reqs -> Calm reqs s -> pass idx level b s = (s', b', o) -> Calm reqs s' /\ o = None.
Proof.
  intros Hsep. revert b s. induction idx as [| i idx IH]; intros b s HC; simpl; [by intros [= <- _ <-] |].
  pose proof (calm_step reqs level i s Hsep HC) as HS. destruct (processClause level i s); eauto. done.
Qed.

Lemma unitPropagate_calm reqs level s s' o :
  separated reqs -> Calm reqs s -> unitPropagate level s = Some (s', o) -> Calm reqs s' /\ o = None.
Proof.
  intros Hsep. unfold unitPropagate. generalize (S (length (concat (Literals <$> clauses s)))) as fuel.
  intros fuel. revert s. induction fuel as [| fuel IH]; intros s HC; simpl; [done |].
  destruct (pass _ level false s) as [[s1 b] o1] eqn:HP.
  destruct (pass_calm reqs _ _ _ _ _ _ _ Hsep HC HP) as [HC1 ->].
  destruct b; [by apply IH | by intros [= <- <-]].
Qed.

(** When propagation is through, a package with an unassigned variable has
    no assigned one. *)
Lemma stable_package reqs s req id id' :
  Calm reqs s -> Stable s -> req ∈ reqs -> inClass (keyOf req) id -> inClass (keyOf req) id' ->
  is_Some (variables s !! id) -> assignments s !! id = None -> assignments s !! id' = None.
Proof.
  intros [HW HP HSh [Hsome Hone]] Hst Hr C C' V Hn.
  destruct (assignments s !! id') as [b |] eqn:E; [| done]. exfalso.
  destruct (Hsome req id' b Hr C' E) as (t & Ct & Tt). assert (id ≠ t) as Hne by congruence.
  assert (is_Some (variables s !! t)) as Vt by (apply (wf_dom s HW); by eexists).
  destruct (pb_most _ _ HP req id t Hr Hne C Ct V Vt) as (ls & (c & -> & Hc)%list_elem_of_fmap & HE).
  assert (exists lu lt, (Literals c = [lu; lt] \/ Literals c = [lt; lu]) /\ Positive lt = false /\
    Positive lu = false /\ litID s lu = id /\ litID s lt = t) as (lu & lt & EL & Plt & Plu & <- & <-).
  { destruct HE as [(l1 & l2 & ? & ? & ? & ? & ?) | (l1 & l2 & ? & ? & ? & ? & ?)];
      [exists l1, l2 | exists l2, l1]; tauto. }
  assert (getAssignment (lit_Variable lu) s = None) as Gu by done.
  assert (getAssignment (lit_Variable lt) s = Some true) as Gt by done.
  assert (scan s (Literals c) = Some [lu]) as Hs
    by (destruct EL as [-> | ->]; simpl; rewrite Gu, Gt, Plt; done).
  destruct (Hst c Hc) as [He%scan_None | (a & b2 & us & He)]; congruence.
Qed.

Lemma calm_decision reqs e level s r :
  separated reqs -> Calm reqs s -> Stable s -> selectVariable e s = Some r ->
  Calm reqs (assign r true level None (bump 1 0 0 0 0 0 s)).
Proof.
  intros Hsep HC Hst Hsel. pose proof HC as [HW HP HSh HSe].
  destruct (selectVariable_spec e s r HW Hsel) as [Hv Hn].
  set (s1 := bump 1 0 0 0 0 0 s). change (idOf s r) with (idOf s1 r) in Hn, Hv.
  assert (Frame s (assign r true level None s1)) as HF
    by (etrans; [apply (bump_frame 1 0 0 0 0 0 s) | apply assign_frame]).
  split; [apply wf_assign; [by apply wf_bump | done | done] | by apply (problem_frame _ s)
         | by apply (shaped_frame _ s) |].
  apply (settled_assign reqs s _ (idOf s r) true); [done | done | by eexists | done | done | | done].
  intros req Hr C id' C'. by apply (stable_package reqs s req (idOf s r) id' HC Hst Hr C C'); [eexists |].
Qed.

Lemma some_unassigned e s :
  WF s -> env_ok e -> allVariablesAssigned s = false -> unassignedVariables e s ≠ [].
Proof.
  intros HW [_ He] Ha E. apply Nat.eqb_neq in Ha. apply Ha. apply Nat.le_antisymm.
  - rewrite <- !size_dom. apply subseteq_size. intros k. rewrite !elem_of_dom. apply (wf_dom s HW).
  - rewrite <- !size_dom. apply subseteq_size. intros k. rewrite !elem_of_dom. intros [r Hr].
    destruct (assignments s !! k) as [b |] eqn:Ek; [by eexists |]. exfalso.
    destruct (wf_vars s HW k r Hr) as [_ Eid].
    assert (r ∈ unassignedVariables e s) as Hin; [| rewrite E in Hin; by apply elem_of_nil in Hin].
    apply list_elem_of_omap. exists k. split.
    + rewrite He. apply list_elem_of_fmap. exists (k, r). split; [done |]. by apply elem_of_map_to_list.
    + unfold getAssignment. by rewrite Hr, Eid, Ek.
Qed.

(** *** Without the activity heuristic the search finds a solution *)

Lemma calm_search reqs e fuel n level s s' r :
  separated reqs -> env_ok e -> (forall k, ctxDone e k = false) ->
  EnableVSIDS (config s) = false -> 0 <= MaxConflicts (config s) ->
  Z.of_nat (size (variables s)) <= MaxDecisions (config s) ->
  Calm reqs s -> SInv level s -> Conflicts (statistics s) = 0 ->
  Decisions (statistics s) <= Z.of_nat (size (assignments s)) ->
  dpllWithCDCL e fuel n level s = Some (s', r) -> exists a, r = Ok a.
Proof.
  intros Hsep He Hctx. revert n level s. induction fuel as [| fuel IH]; intros n level s Hv Hmc Hmd HC HS Hcf Hd;
    [done |].
  pose proof HS as [HW HL Hlv HD]. cbn [dpllWithCDCL]. unfold round. rewrite Hctx.
  destruct (unitPropagate level s) as [[s1 o] |] eqn:HP; [| done].
  destruct (unitPropagate_calm reqs level s s1 o Hsep HC HP) as [HC1 ->].
  pose proof (unitPropagate_stable level s s1 HW HL HP) as Hst.
  destruct (unitPropagate_inv level s s1 None HW HL HP) as (HW1 & HL1 & [HF _ Hsub] & ED & EC).
  assert (SInv level s1) as HS1 by (split; [done .. |]; rewrite ED, (fr_config _ _ HF); done).
  pose proof (onDecision_ok e level s1 HS1 Hst) as Hok. unfold onDecision in *.
  destruct (allVariablesAssigned s1) eqn:Ha; [intros [= _ <-]; eauto |].
  assert (config s1 = config s) as Ec by apply (fr_config _ _ HF).
  destruct (selectVariable e s1) as [r1 |] eqn:Hsel.
  2: { exfalso. unfold selectVariable in Hsel. rewrite Ec, Hv in Hsel. simpl in Hsel.
       apply head_None in Hsel. by apply (some_unassigned e s1). }
  destruct (selectVariable_spec e s1 r1 HW1 Hsel) as [Hv1 Hn1].
  set (s2 := assign r1 true (level + 1) None (bump 1 0 0 0 0 0 s1)) in *.
  assert (Calm reqs s2) as HC2 by by apply (calm_decision reqs e).
  assert (size (assignments s2) = S (size (assignments s1))) as Esz by (apply map_size_insert_None; exact Hn1).
  assert (size (assignments s2) <= size (variables s))%nat as Hle.
  { rewrite <- (fr_vars _ _ HF), <- !size_dom. change (variables s1) with (variables s2).
    apply subseteq_size. intros k. rewrite !elem_of_dom. apply (wf_dom s2 (ca_wf _ _ HC2)). }
  assert (size (assignments s) <= size (assignments s1))%nat as Hmono
    by (rewrite <- !size_dom; by apply subseteq_size, subseteq_dom).
  assert (Decisions (statistics s2) = Decisions (statistics s1) + 1) as ED2 by done.
  assert (Conflicts (statistics s2) = Conflicts (statistics s1) + 0) as EC2 by done.
  assert (config s2 = config s) as Ec2 by done.
  destruct (Z.ltb_spec (MaxDecisions (config s2)) (Decisions (statistics s2))); [rewrite Ec2 in *; lia |].
  destruct (Z.ltb_spec (MaxConflicts (config s2)) (Conflicts (statistics s2))); [rewrite Ec2 in *; lia |].
  destruct Hok as (HS2 & _ & _). apply IH; rewrite ?Ec2; try done; try lia.
  change (variables s2) with (variables s1). rewrite (fr_vars _ _ HF). done.
Qed.

Lemma calm_initial cfg e reqs s :
  env_ok e -> initialize e reqs (NewSATSolver cfg) = (s, Ok tt) -> Calm reqs s.
Proof.
  intros He Hi. destruct (initialize_spec cfg e reqs s He Hi) as ([HW _ _ _] & HP & HSh & Hset & _).
  split; [done .. |]. split; rewrite (su_assign _ _ _ Hset).
  - intros req id b _ _. by rewrite lookup_empty.
  - intros req id1 id2 _ _ _. by rewrite lookup_empty.
Qed.

Lemma initialize_total e reqs s :
  (forall req, req ∈ reqs -> validVersions req ≠ []) -> exists s', initialize e reqs s = (s', Ok tt).
Proof.
  intros Hne. unfold initialize.
  assert (exists s1, createAllVariables reqs s = (s1, Ok tt)) as [s1 ->]; [| by eexists].
  revert s. induction reqs as [| req reqs IH]; intros s; simpl; [by eexists |].
  unfold createVariables. destruct (validVersions req) as [| v vs] eqn:Ev.
  - destruct (Hne req); [by constructor | done].
  - apply IH. intros r Hr. apply Hne. by constructor.
Qed.

(** At most five variables a requirement. *)
Lemma variables_bound reqs s s' :
  createAllVariables reqs s = (s', Ok tt) ->
  (size (variables s') <= size (variables s) + 5 * length reqs)%nat.
Proof.
  revert s. induction reqs as [| req reqs IH]; intros s; simpl; [intros [= <-]; lia |].
  unfold createVariables. destruct (validVersions req) as [| v vs] eqn:Ev; [done |]. rewrite <- Ev.
  intros Hc%IH. assert (forall l s0,
    (size (variables (foldl (addVariable req (validVersions req)) s0 l)) <= size (variables s0) + length l)%nat) as Hf.
  { intros l. induction l as [| x l IHl]; intros s0; simpl; [lia |].
    etrans; [apply IHl |]. simpl. rewrite map_size_insert. destruct (variables s0 !! _); simpl; lia. }
  specialize (Hf (validVersions req) s).
  assert (length (validVersions req) <= 5)%nat as H5.
  { unfold validVersions, filterVersionsByConstraints. etrans; [apply length_filter |]. simpl. lia. }
  lia.
Qed.

Lemma initialize_variables e reqs s s' :
  initialize e reqs s = (s', Ok tt) -> exists s1, createAllVariables reqs s = (s1, Ok tt) /\ variables s' = variables s1.
Proof.
  unfold initialize. destruct (createAllVariables reqs s) as [s1 [[] | err]]; [| done]. intros [= <-].
  exists s1. split; [done |]. simpl. generalize s1 as s2. induction reqs as [| req reqs IH]; intros s2; simpl; [done |].
  rewrite IH. unfold createClauses. by destruct (packageLiterals _ _ _).
Qed.

(** *** With it, a choice is never made *)

(** Only packages of one version have assigned variables. *)
Definition Lone (reqs : list VersionRequirement) (s : SATSolverImpl) : Prop :=
  forall req id id' b, req ∈ reqs -> inClass (keyOf req) id -> inClass (keyOf req) id' ->
    is_Some (variables s !! id') -> assignments s !! id = Some b -> id' = id.

Lemma lone_step reqs level i s :
  separated reqs -> Calm reqs s -> Lone reqs s ->
  match processClause level i s with
  | Unchanged s' | Propagated s' => Lone reqs s'
  | Conflicting => True
  end.
Proof.
  intros Hsep HC HLo. pose proof (processClause_spec level i s) as HS.
  destruct (processClause level i s) as [s' | s' |]; [| | done].
  - by destruct HS as [[-> _] | (c & _ & _ & ->)].
  - destruct HS as (c & l & Hc & Hs & ->). pose proof HC as [HW HP HSh HSe].
    assert (c ∈ clauses s) as Hin by (by eapply list_elem_of_lookup_2).
    destruct (unit_literal s c l HW Hin Hs) as (Hl & Hv & Hn).
    destruct (unit_shape reqs s c l HC Hin Hs) as (req & Hr & C & Hcase).
    intros req' id id' b Hr' C' Cid' V'. simpl. rewrite lookup_insert_Some.
    intros [[<- <-] | [_ Hb]]; [| by apply (HLo req' id id' b)].
    assert (keyOf req' = keyOf req) as Ek.
    { destruct (proj1 (pb_dom _ _ HP (litID s l))) as (r2 & v & Hr2 & Hv2 & E); [by eexists |].
      unfold litID in E, C. rewrite E in C, C'. rewrite (Hsep req' r2 v), (Hsep req r2 v); done. }
    rewrite Ek in *. destruct Hcase as [[_ Hall] | [_ (t & Ct & Tt & Hne)]]; [by apply Hall |].
    exfalso. apply Hne. symmetry. apply (HLo req t (litID s l) true Hr Ct C); [by eexists | done].
Qed.

Lemma no_activity s l best :
  (forall r, var_Watched (variable s r) = []) -> best.2 = f64_zero -> foldl (better s) best l = best.
Proof.
  intros Hw Hb. induction l as [| r l IH]; simpl; [done |].
  assert (better s best r = best) as ->; [| done].
  unfold better, calculateVariableActivity. rewrite Hw, Hb. by vm_compute.
Qed.

Lemma propagate_lone reqs level s s' o :
  separated reqs -> Calm reqs s -> Lone reqs s -> unitPropagate level s = Some (s', o) -> Lone reqs s'.
Proof.
  intros Hsep HC HLo HP.
  enough (Calm reqs s' /\ Lone reqs s') by tauto.
  eapply (propagateLoop_ind (λ s, Calm reqs s /\ Lone reqs s) level); [| | exact HP]; [| done].
  intros i s1 [HC1 HL1]. pose proof (calm_step reqs level i s1 Hsep HC1) as H1.
  pose proof (lone_step reqs level i s1 Hsep HC1 HL1) as H2. by destruct (processClause level i s1).
Qed.

(** Keys whose parts have no separator keep the packages apart. *)
Definition plain (pr : PackageReference) : Prop :=
  has_byte "@" (Repository pr) = false /\ has_byte "@" (PackageName pr) = false /\
  has_byte "@" (Revision pr) = false.

Lemma plain_separated reqs :
  (forall req, req ∈ reqs -> plain (PackageRef req)) ->
  (forall req v, req ∈ reqs -> v ∈ validVersions req -> has_byte "@" v = false) -> separated reqs.
Proof.
  intros Hp Hver r1 r2 v H1 H2 Hv (t & E)%HasPrefix_spec.
  destruct (Hp r1 H1) as (P1 & P2 & P3). destruct (Hp r2 H2) as (Q1 & Q2 & Q3).
  unfold varID, keyOf, GetPackageKey in *. rewrite !append_assoc in E.
  assert (forall a b c, a +:+ "/" +:+ b +:+ "@" +:+ c = (a +:+ "/" +:+ b) +:+ String "@" c) as Ek
    by (intros a b c; by rewrite !append_assoc).
  rewrite !Ek in E.
  assert (forall a b, has_byte "@" a = false -> has_byte "@" b = false ->
    has_byte "@" (a +:+ "/" +:+ b) = false) as Hnb
    by (intros a b Ha Hb; rewrite !has_byte_append, Ha, Hb; done).
  apply append_sep_inj in E as [E1 E2]; [| by apply Hnb ..].
  change ("@" +:+ v) with (String "@" v) in E2.
  change ("@" +:+ t) with (String "@" t) in E2.
  apply append_sep_inj in E2 as [E2 _]; [| done ..].
  rewrite !Ek. by rewrite E1, E2.
Qed.

Lemma validVersions_plain req v : v ∈ validVersions req -> has_byte "@" v = false.
Proof.
  intros [_ Hv]%list_elem_of_filter. unfold getAvailableVersions in Hv.
  by repeat (apply elem_of_cons in Hv as [-> | Hv]; [done |]); apply elem_of_nil in Hv.
Qed.

(** *** The solution loses every package *)

Lemma key_separator pr : (1 <= count_byte "@" (GetPackageKey pr))%nat.
Proof.
  unfold GetPackageKey. rewrite !count_byte_append.
  change (count_byte "@" "@") with 1%nat. lia.
Qed.

Lemma groupVersion_created reqs m id b : created reqs id -> groupVersion m (id, b) = m.
Proof.
  intros (req & v & _ & _ & ->). unfold groupVersion. cbn [fst snd]. destruct b; [| done].
  pose proof (length_Split "@" (varID (keyOf req) v)) as HL. unfold varID at 2 in HL.
  rewrite !count_byte_append in HL. change (count_byte "@" "@") with 1%nat in HL.
  pose proof (key_separator (PackageRef req)) as Hk. unfold keyOf in *.
  destruct (Split "@" _) as [| a [| b' [| c l]]]; simpl in HL; try lia. done.
Qed.

Lemma convert_created reqs a t :
  (forall id, is_Some (a !! id) -> created reqs id) ->
  convertToVersionSolution a t = mkSolution true ∅ t.
Proof.
  intros Ha. unfold convertToVersionSolution.
  assert (forall l m, (forall id b, (id, b) ∈ l -> created reqs id) -> foldl groupVersion m l = m) as Hf.
  { intros l. induction l as [| [id b] l IH]; intros m Hl; simpl; [done |].
    rewrite (groupVersion_created reqs) by (apply (Hl id b); by constructor).
    apply IH. intros id' b' Hin. apply (Hl id' b'). by constructor. }
  rewrite Hf; [by rewrite omap_empty |].
  intros id b Hin%elem_of_map_to_list. apply Ha. by eexists.
Qed.

End solver.

(** ** Properties *)

Section properties.
Context `{Semver}.

(** C16 - a solution found by a new solver, in whatever orders maps are ranged
    over, assigns true to exactly one variable of every required package, and
    that variable was made for a version which satisfies the constraints of
    one of the requirements. *)
Theorem solve_selects_one_version cfg e fuel reqs s' sol req :
  env_ok e -> Solve e fuel reqs (NewSATSolver cfg) = Some (s', Ok sol) -> req ∈ reqs ->
  exists id, inClass (keyOf req) id /\ assignments s' !! id = Some true /\
    (exists req' v, req' ∈ reqs /\ satisfiesConstraints v (Constraints req') = true /\
       id = varID (keyOf req') v) /\
    forall id', inClass (keyOf req) id' -> assignments s' !! id' = Some true -> id' = id.
Proof.
  intros He HS Hr. destruct (solve_ok cfg e fuel reqs s' sol He HS) as (HW & HP & Hst & Ha & _).
  destruct (one_version reqs s' req HW HP Hst Ha Hr) as (id & C & T & (req' & v & Hr' & Hv & ->) & Hu).
  exists (varID (keyOf req') v). split; [done |]. split; [done |]. split; [| done].
  exists req', v. split; [done |]. split; [| done]. by apply list_elem_of_filter in Hv as [? _].
Qed.

(** C40 - [Solve] on a new solver always ends: [2 * (MaxDecisions + 1) + 1]
    rounds of the search are enough, whatever the requirements, the options
    and the orders. *)
Theorem solve_terminates cfg e reqs fuel :
  env_ok e -> (Z.to_nat (2 * (MaxDecisions (default defaultConfig cfg) + 1)) < fuel)%nat ->
  exists s' r, Solve e fuel reqs (NewSATSolver cfg) = Some (s', r).
Proof.
  intros He Hf. unfold Solve.
  destruct (initialize e reqs (NewSATSolver cfg)) as [s [[] | err]] eqn:Hi; [| by eexists _, _].
  destruct (bound_fuel cfg reqs e s fuel He Hi Hf) as (s' & r & -> & _).
  destruct r; by eexists _, _.
Qed.


(** With the activity heuristic on, as every configuration of
    [NewVersionSolver] has it, no variable ever has an activity: a required
    package with two valid versions makes [Solve] fail. *)
Theorem vsids_never_chooses cfg e reqs fuel req v1 v2 :
  env_ok e -> ctxDone e 0 = false -> EnableVSIDS cfg = true ->
  (forall req, req ∈ reqs -> plain (PackageRef req) /\ validVersions req <> []) ->
  req ∈ reqs -> v1 ∈ validVersions req -> v2 ∈ validVersions req -> v1 <> v2 ->
  exists s', Solve e (S fuel) reqs (NewSATSolver (Some cfg)) = Some (s', Err NoUnassignedVariables).
Proof.
  intros He Hctx Hvs Hreq Hr Hv1 Hv2 Hne.
  destruct (initialize_total e reqs (NewSATSolver (Some cfg))) as [s Hi]; [intros; by apply Hreq |].
  destruct (initialize_spec _ e reqs s He Hi) as ([HW HL _ _] & HP & _ & Hset & _).
  assert (separated reqs) as Hsep
    by (apply plain_separated; [intros; by apply Hreq | intros rq v _; apply validVersions_plain]).
  pose proof (calm_initial _ e reqs s He Hi) as HC.
  assert (Lone reqs s) as HLo.
  { intros rq id id' b _ _ _ _. by rewrite (su_assign _ _ _ Hset), lookup_empty. }
  destruct (unitPropagate_ends 0 s HW HL) as (s1 & o & Hp).
  destruct (unitPropagate_calm reqs 0 s s1 o Hsep HC Hp) as [HC1 ->].
  pose proof (propagate_lone reqs 0 s s1 None Hsep HC HLo Hp) as HLo1.
  destruct (unitPropagate_inv 0 s s1 None HW HL Hp) as (HW1 & _ & [HF _ _] & _).
  assert (forall v, v ∈ validVersions req -> is_Some (variables s1 !! varID (keyOf req) v)) as Hdom.
  { intros v Hv. rewrite (fr_vars _ _ HF). apply (pb_dom _ _ HP). by exists req, v. }
  assert (allVariablesAssigned s1 = false) as Ha.
  { destruct (allVariablesAssigned s1) eqn:Ha; [| done]. exfalso. apply Hne.
    destruct (all_assigned s1 HW1 Ha (varID (keyOf req) v1) (Hdom v1 Hv1)) as [b Hb].
    pose proof (HLo1 req _ _ b Hr (inClass_varID _ v1) (inClass_varID _ v2) (Hdom v2 Hv2) Hb) as E.
    unfold varID in E. change ("@" +:+ v1) with (String "@" v1) in E. change ("@" +:+ v2) with (String "@" v2) in E.
    clear -E. induction (keyOf req) as [| a k IH]; injection E; [done | exact IH]. }
  assert (selectVariable e s1 = None) as Hsel.
  { unfold selectVariable. rewrite (fr_config _ _ HF), (su_config _ _ _ Hset). simpl. rewrite Hvs. simpl.
    rewrite no_activity; [done | | done]. intros r. rewrite (fr_watched _ _ HF). apply (su_new _ _ _ Hset). }
  exists s1. unfold Solve. rewrite Hi. cbn [dpllWithCDCL]. unfold round. rewrite Hctx, Hp.
  unfold onDecision. by rewrite Ha, Hsel.
Qed.

(** Whatever the solver finds, the solution it reports is a success
    without a single selected package: package keys contain the separator at
    which variable names are split. *)
Theorem solution_always_empty cfg e fuel reqs s' sol :
  env_ok e -> Solve e fuel reqs (NewSATSolver cfg) = Some (s', Ok sol) ->
  Success sol = true /\ Solutions sol = ∅.
Proof.
  intros He HS. destruct (solve_ok cfg e fuel reqs s' sol He HS) as (HW & HP & _ & _ & ->).
  rewrite (convert_created reqs); [done |].
  intros id Hid. apply (pb_dom _ _ HP). by apply (wf_dom _ HW).
Qed.

End properties.

(** ** Concrete runs *)

(** A version library that compares versions as text and reads the operators
    [=], [>=] and [<]. *)
Definition textSemver : Semver := {|
  Version_ := string;
  Constraint_ := string -> bool;
  NewVersion := Some;
  NewConstraint c :=
    if HasPrefix c "= " then Some (String.eqb (String.substring 2 (String.length c) c))
    else if HasPrefix c ">= " then Some (String.leb (String.substring 3 (String.length c) c))
    else if HasPrefix c "< " then Some (λ v, negb (String.leb (String.substring 2 (String.length c) c) v))
    else None;
  Check_ k v := k v
|}.

#[local] Existing Instance textSemver.

Definition inOrder : Env := mkEnv (λ _ l, l) (λ _ l, l) (λ _, false).

Lemma inOrder_ok : env_ok inOrder.
Proof. done. Qed.

Definition amf : PackageReference := mkPackageReference "core" "amf" "main".
Definition smf : PackageReference := mkPackageReference "core" "smf" "main".

Definition two_packages : list VersionRequirement :=
  [mkRequirement amf [mkConstraint ">=" "2.0.0"]; mkRequirement smf []].

Definition simpleConfig : SATSolverConfigImpl := mkSolverConfig 20 5 100 Minute true false.

Lemma solve_selects_one_version_witness :
  exists s' sol, Solve inOrder 50 two_packages (NewSATSolver (Some simpleConfig)) = Some (s', Ok sol) /\
  exists id, inClass "core/amf@main" id /\ assignments s' !! id = Some true /\
    (exists req' v, req' ∈ two_packages /\ satisfiesConstraints v (Constraints req') = true /\
       id = varID (keyOf req') v) /\
    forall id', inClass "core/amf@main" id' -> assignments s' !! id' = Some true -> id' = id.
Proof.
  assert (H : exists s' sol, Solve inOrder 50 two_packages (NewSATSolver (Some simpleConfig)) = Some (s', Ok sol))
    by (vm_compute; eexists _, _; reflexivity).
  destruct H as (s' & sol & H). exists s', sol. split; [exact H |].
  apply (solve_selects_one_version (Some simpleConfig) inOrder 50 two_packages s' sol
           (mkRequirement amf [mkConstraint ">=" "2.0.0"]) inOrder_ok H).
  by constructor.
Defined.

Lemma solve_terminates_witness :
  exists s' r, Solve inOrder 50 two_packages (NewSATSolver (Some simpleConfig)) = Some (s', r).
Proof. apply (solve_terminates (Some simpleConfig) inOrder two_packages 50 inOrder_ok). simpl. lia. Defined.

Lemma two_packages_ok req :
  req ∈ two_packages -> plain (PackageRef req) /\ validVersions req <> [].
Proof. intros H. in_cases H; by vm_compute. Qed.


Lemma vsids_never_chooses_witness :
  exists s', Solve inOrder 1 two_packages (NewSATSolver (Some (versionSolverConfig None)))
    = Some (s', Err NoUnassignedVariables).
Proof.
  apply (vsids_never_chooses (versionSolverConfig None) inOrder two_packages 0
    (mkRequirement smf []) "1.0.0" "1.1.0" inOrder_ok); try done.
  - exact two_packages_ok.
  - right. by constructor.
  - by vm_compute; constructor.
  - by vm_compute; right; constructor.
Defined.

Lemma solution_always_empty_witness :
  exists s' sol, Solve inOrder 50 two_packages (NewSATSolver (Some simpleConfig)) = Some (s', Ok sol) /\
    Success sol = true /\ Solutions sol = ∅.
Proof.
  assert (H : exists s' sol, Solve inOrder 50 two_packages (NewSATSolver (Some simpleConfig)) = Some (s', Ok sol))
    by (vm_compute; eexists _, _; reflexivity).
  destruct H as (s' & sol & H). exists s', sol. split; [exact H |].
  exact (solution_always_empty (Some simpleConfig) inOrder 50 two_packages s' sol inOrder_ok H).
Defined.

(** Requirements on one package are alternatives: two that no version
    satisfies together are solved. *)
Example contradictory_requirements_solved :
  exists s' sol, Solve inOrder 50
    [mkRequirement amf [mkConstraint "<" "1.1.0"]; mkRequirement amf [mkConstraint ">=" "2.1.0"]]
    (NewSATSolver (Some simpleConfig)) = Some (s', Ok sol).
Proof. vm_compute. eexists _, _. reflexivity. Qed.

(** A solver that is used again answers from the previous run: asked for
    2.0.0 after 1.0.0, it reports success with 1.0.0 chosen. *)
Example reused_solver_is_stale :
  exists s1 sol1 s2 sol2,
    Solve inOrder 50 [mkRequirement amf [mkConstraint "=" "1.0.0"]] (NewSATSolver None) = Some (s1, Ok sol1) /\
    Solve inOrder 50 [mkRequirement amf [mkConstraint "=" "2.0.0"]] s1 = Some (s2, Ok sol2) /\
    assignments s2 !! "core/amf@main@1.0.0" = Some true /\
    assignments s2 !! "core/amf@main@2.0.0" = Some false.
Proof.
  eexists _, _, _, _. split; [by vm_compute |]. split; [by vm_compute |]. split; by vm_compute.
Qed.

(** Two operators of the constraint language are read as equality. *)
Lemma not_equals_is_equals v :
  constraintToSemver (mkConstraint ConstraintOperatorNotEquals v) = v.
Proof. done. Qed.
