(* ===== verification/PorchClient.v ===== *)
(** * PorchClient: pkg/nephio/porch/client.go

    The client of the Porch API: its cache, the calls through the rate limiter
    and the circuit breaker, and the operations on repositories and package
    revisions.  What lies beyond the client - the API server, the rate limiter
    (golang.org/x/time/rate), the breaker (gobreaker) and the conversion of
    typed objects to unstructured ones and back - is the class [Porch]; what
    the client relies on is [PorchLaws].  Objects are handed out by pointer
    and the cache holds the same pointers, so they live in a store.  An error
    is its innermost cause. *)

From S2P Require Import Prelude GoFloat GoStrings PorchTypes.
From stdpp Require Import pretty.

Local Open Scope Z_scope.

(** ** Configuration *)

Record ClientCircuitBreakerConfig := mkBreakerConfig {
  cb_Enabled : bool;
  FailureThreshold : Z;
  SuccessThreshold : Z;
  cb_Timeout : Duration;
  HalfOpenMaxCalls : Z
}.

Record ClientRateLimitConfig := mkRateLimitConfig {
  rl_Enabled : bool;
  RequestsPerSecond : float64;
  Burst : Z
}.

Definition DefaultCircuitBreaker : ClientCircuitBreakerConfig :=
  mkBreakerConfig true 5 3 (30 * Second) 3.

Definition DefaultRateLimit : ClientRateLimitConfig :=
  mkRateLimitConfig true (f64_of_int 10) 20.

(** gobreaker's counts and settings, as far as they are used. *)
Record Counts := mkCounts {
  Requests : Z;
  TotalFailures : Z
}.

Record Settings := mkSettings {
  MaxRequests : Z;
  Interval : Duration;
  set_Timeout : Duration;
  ReadyToTrip : Counts -> bool
}.

Definition uint32 (z : Z) : Z := z mod 2 ^ 32.

Definition initCircuitBreaker (config : option ClientCircuitBreakerConfig) : Settings :=
  let settings := mkSettings 3 Minute (30 * Second)
    (λ counts, (3 <=? Requests counts) &&
       f64_geb (f64_ratio (TotalFailures counts) (Requests counts)) (f64_ratio 6 10)) in
  match config with
  | Some cb =>
      if cb_Enabled cb then
        mkSettings
          (if 0 <? HalfOpenMaxCalls cb then uint32 (HalfOpenMaxCalls cb) else MaxRequests settings)
          (Interval settings)
          (if 0 <? cb_Timeout cb then cb_Timeout cb else set_Timeout settings)
          (if 0 <? FailureThreshold cb
           then λ counts, uint32 (FailureThreshold cb) <=? TotalFailures counts
           else ReadyToTrip settings)
      else settings
  | None => settings
  end.

(** The rate and the burst of the limiter, if there is one. *)
Definition initRateLimiter (config : option ClientRateLimitConfig) : option (float64 * Z) :=
  match config with
  | Some rl => if rl_Enabled rl then Some (RequestsPerSecond rl, Burst rl) else None
  | None => None
  end.

(** ** The cache *)

(** What an entry points to. *)
Inductive Cached :=
| CachedPackage (pkg : nat)
| CachedRepository (repo : nat).

Record cacheEntry := mkEntry {
  data : Cached;
  timestamp : Time
}.

Record clientCache := mkCache {
  entries : gmap string cacheEntry;
  ttl : Duration;
  maxSize : Z
}.

(** The cache of [NewClient]. *)
Definition newCache (CacheTTL : Duration) (CacheSize : Z) : clientCache :=
  mkCache ∅ (if CacheTTL =? 0 then 5 * Minute else CacheTTL)
    (if CacheSize =? 0 then 1000 else CacheSize).

Definition with_entries (m : gmap string cacheEntry) (c : clientCache) : clientCache :=
  mkCache m (ttl c) (maxSize c).

(** An expired entry starts [evictExpired] in a goroutine of its own. *)
Definition getCached (now : Time) (key : string) (c : clientCache) : option Cached :=
  match entries c !! key with
  | Some entry => if ttl c <? time_Sub now (timestamp entry) then None else Some (data entry)
  | None => None
  end.

(** One round of the loop over the map. *)
Definition older (c : clientCache) (oldest : string * Time) (key : string) : string * Time :=
  match entries c !! key with
  | Some entry =>
      if String.eqb oldest.1 "" || time_Before (timestamp entry) oldest.2
      then (key, timestamp entry) else oldest
  | None => oldest
  end.

(** [order] is the order in which the keys are ranged over. *)
Definition evictOldestLocked (order : list string) (c : clientCache) : clientCache :=
  let '(oldestKey, _) := foldl (older c) ("", zeroTime) order in
  if String.eqb oldestKey "" then c else with_entries (delete oldestKey (entries c)) c.

Definition setCached (now : Time) (order : list string) (key : string) (value : Cached)
    (c : clientCache) : clientCache :=
  let c := if maxSize c <=? Z.of_nat (size (entries c)) then evictOldestLocked order c else c in
  with_entries (<[key := mkEntry value now]> (entries c)) c.

Definition invalidateCache (key : string) (c : clientCache) : clientCache :=
  with_entries (delete key (entries c)) c.

Definition evictExpired (now : Time) (c : clientCache) : clientCache :=
  with_entries (filter (λ kv, time_Sub now (timestamp kv.2) <= ttl c) (entries c)) c.

(** ** The world beyond the client *)

Inductive GVR := packagerevisions | repositories.

#[global] Instance GVR_eq_dec : EqDecision GVR.
Proof. solve_decision. Defined.

Record ListOptions := mkListOptions {
  LabelSelector : string;
  FieldSelector : string;
  Namespace : string;
  Limit : Z;
  Continue : string
}.

(** An answer of the API server; a request may get none, and it is open then
    whether the server has carried it out. *)
Inductive ApiError := ApiNotFound | ApiRefused | ApiLost.

Class Porch `{Kube} := {
  World : Type;
  Unstructured : Type;
  UnstructuredList : Type;
  Wait : World -> World * bool;
  beforeRequest : World -> World * bool;
  afterRequest : bool -> World -> World;
  api_Get : GVR -> string -> World -> World * result ApiError Unstructured;
  api_List : GVR -> option string -> ListOptions -> World -> World * result ApiError UnstructuredList;
  api_Create : GVR -> Unstructured -> World -> World * result ApiError Unstructured;
  api_Update : GVR -> Unstructured -> World -> World * result ApiError Unstructured;
  api_Delete : GVR -> string -> World -> World * result ApiError unit;
  package_to : PackageRevision -> option Unstructured;
  package_from : Unstructured -> option PackageRevision;
  packages_from : UnstructuredList -> option (list PackageRevision);
  repository_to : RepositoryObject -> option Unstructured;
  repository_from : Unstructured -> option RepositoryObject;
  repositories_from : UnstructuredList -> option (list RepositoryObject)
}.

Inductive InvalidObject :=
| NilObject | NameRequired | PackageNameRequired | RepositoryRequired | RevisionRequired
| InvalidLifecycle (l : PackageRevisionLifecycle)
| URLRequired | TypeRequired | UnsupportedType (t : string) | GitURLScheme.

Inductive PorchError :=
| RateLimitExceeded
| BreakerRefused
| PackageNotFound (name revision : string)
| RepositoryNotFound (name : string)
| ApiFailed (e : ApiError)
| ConvertFailed
| InvalidRequest (e : InvalidObject)
| WrongState (lifecycle : PackageRevisionLifecycle).

Section client.
Context `{Porch}.

(** ** The state *)

Record Client := mkClient {
  rateLimiter : bool;
  cache : option clientCache
}.

Record St := mkSt {
  client : Client;
  packages : list PackageRevision;
  repos : list RepositoryObject;
  world : World
}.

Definition with_cache (f : clientCache -> clientCache) (s : St) : St :=
  mkSt (mkClient (rateLimiter (client s)) (f <$> cache (client s))) (packages s) (repos s) (world s).
Definition with_packages (l : list PackageRevision) (s : St) : St :=
  mkSt (client s) l (repos s) (world s).
Definition with_repos (l : list RepositoryObject) (s : St) : St :=
  mkSt (client s) (packages s) l (world s).
Definition with_world (w : World) (s : St) : St :=
  mkSt (client s) (packages s) (repos s) w.

(** Computations on the state that may fail. *)
Definition M (A : Type) : Type := St -> St * result PorchError A.

#[global] Instance M_ret : MRet M := λ A a s, (s, Ok a).
#[global] Instance M_bind : MBind M := λ A B k m s,
  match m s with
  | (s, Ok a) => k a s
  | (s, Err e) => (s, Err e)
  end.

Definition fail {A} (e : PorchError) : M A := λ s, (s, Err e).
Definition modify (f : St -> St) : M unit := λ s, (f s, Ok tt).
Definition gets {A} (f : St -> A) : M A := λ s, (s, Ok (f s)).
Definition from_option_or {A} (e : PorchError) (o : option A) : M A :=
  match o with
  | Some a => mret a
  | None => fail e
  end.

Definition attempt {A} (m : M A) : M (result PorchError A) := λ s,
  let '(s, r) := m s in (s, Ok r).

(** A call of the API server. *)
Definition call {A} (f : World -> World * result ApiError A) : M (result ApiError A) := λ s,
  let '(w, r) := f (world s) in (with_world w s, Ok r).

Definition api {A} (f : World -> World * result ApiError A) : M A :=
  r ← call f;
  match r with
  | Ok a => mret a
  | Err e => fail (ApiFailed e)
  end.

Definition limit : M unit := λ s,
  if rateLimiter (client s) then
    let '(w, ok) := Wait (world s) in (with_world w s, if ok then Ok tt else Err RateLimitExceeded)
  else (s, Ok tt).

(** [circuitBreaker.Execute]. *)
Definition Execute {A} (m : M A) : M A := λ s,
  let '(w, ok) := beforeRequest (world s) in
  if ok : bool then
    let '(s, r) := m (with_world w s) in
    (with_world (afterRequest (is_ok r) (world s)) s, r)
  else (with_world w s, Err BreakerRefused).

(** Objects a caller receives, at a new address. *)
Definition newPackage (p : PackageRevision) : M nat := λ s,
  (with_packages (packages s ++ [p]) s, Ok (length (packages s))).
Definition newRepository (r : RepositoryObject) : M nat := λ s,
  (with_repos (repos s ++ [r]) s, Ok (length (repos s))).

(** What a call draws: the instants of its reads of the clock and the order of
    the cache's keys. *)
Record Draws := mkDraws {
  now_get : Time;
  now_op : Time;
  now_set : Time;
  order : list string
}.

Definition lookupCache (k : Draws) (key : string) : M (option Cached) :=
  gets (λ s, cache (client s) ≫= getCached (now_get k) key).
Definition storeCache (k : Draws) (key : string) (value : Cached) : M unit :=
  modify (with_cache (setCached (now_set k) (order k) key value)).
Definition dropCache (key : string) : M unit := modify (with_cache (invalidateCache key)).

(** ** Repositories *)

Definition repositoryKey (name : string) : string := "repo:" +:+ name.

Definition validateRepository (repo : option RepositoryObject) : result InvalidObject unit :=
  match repo with
  | None => Err NilObject
  | Some r =>
      if String.eqb (Name (repo_ObjectMeta r)) "" then Err NameRequired
      else if String.eqb (URL (repo_Spec r)) "" then Err URLRequired
      else if String.eqb (rs_Type (repo_Spec r)) "" then Err TypeRequired
      else if negb (String.eqb (rs_Type (repo_Spec r)) "git" || String.eqb (rs_Type (repo_Spec r)) "oci")
      then Err (UnsupportedType (rs_Type (repo_Spec r)))
      else if String.eqb (rs_Type (repo_Spec r)) "git" && negb (HasPrefix (URL (repo_Spec r)) "https://")
              && negb (HasPrefix (URL (repo_Spec r)) "git@")
      then Err GitURLScheme
      else Ok tt
  end.

Definition getRepositoryInternal (name : string) : M RepositoryObject :=
  limit;;
  r ← call (api_Get repositories name);
  match r with
  | Err ApiNotFound => fail (RepositoryNotFound name)
  | Err e => fail (ApiFailed e)
  | Ok obj => from_option_or ConvertFailed (repository_from obj)
  end.

Definition listRepositoriesInternal (opts : option ListOptions) : M (list RepositoryObject) :=
  limit;;
  let o := default (mkListOptions "" "" "" 0 "") opts in
  let listOptions := mkListOptions (LabelSelector o) (FieldSelector o) "" (Z.max 0 (Limit o)) (Continue o) in
  let namespace := if String.eqb (Namespace o) "" then None else Some (Namespace o) in
  obj ← api (api_List repositories namespace listOptions);
  from_option_or ConvertFailed (repositories_from obj).

(** The metadata of a new object. *)
Definition created (now : Time) (om : ObjectMeta) : ObjectMeta :=
  mkObjectMeta (Name om) (if IsZero (CreationTimestamp om) then now else CreationTimestamp om) (om_rest om).

(** The caller's object is filled in before it is sent. *)
Definition createRepositoryInternal (k : Draws) (repo : nat) : M RepositoryObject :=
  limit;;
  modify (λ s, with_repos (alter (λ r, set_repo_Meta
    (mkTypeMeta "Repository" "config.porch.kpt.dev/v1alpha1") (created (now_op k) (repo_ObjectMeta r)) r)
    repo (repos s)) s);;
  obj ← gets (λ s, repos s !! repo ≫= repository_to);
  u ← from_option_or ConvertFailed obj;
  u ← api (api_Create repositories u);
  from_option_or ConvertFailed (repository_from u).

Definition updateRepositoryInternal (r : RepositoryObject) : M RepositoryObject :=
  limit;;
  u ← from_option_or ConvertFailed (repository_to r);
  u ← api (api_Update repositories u);
  from_option_or ConvertFailed (repository_from u).

Definition deleteRepositoryInternal (name : string) : M unit :=
  limit;;
  r ← call (api_Delete repositories name);
  match r with
  | Ok _ => mret tt
  | Err ApiNotFound => fail (RepositoryNotFound name)
  | Err e => fail (ApiFailed e)
  end.

Definition syncRepositoryInternal (k : Draws) (name : string) : M unit :=
  limit;;
  r ← getRepositoryInternal name;
  _ ← updateRepositoryInternal (synced (now_op k) r);
  mret tt.

Definition GetRepository (k : Draws) (name : string) : M nat :=
  cached ← lookupCache k (repositoryKey name);
  match cached with
  | Some (CachedRepository repo) => mret repo
  | _ =>
      r ← Execute (getRepositoryInternal name);
      repo ← newRepository r;
      storeCache k (repositoryKey name) (CachedRepository repo);;
      mret repo
  end.

Definition ListRepositories (opts : option ListOptions) : M (list RepositoryObject) :=
  Execute (listRepositoriesInternal opts).

(** The checks of a caller's object. *)
Definition checkRepository (repo : option nat) : M nat := λ s,
  match validateRepository (repo ≫= λ p, repos s !! p), repo with
  | Err e, _ => (s, Err (InvalidRequest e))
  | Ok _, Some p => (s, Ok p)
  | Ok _, None => (s, Err (InvalidRequest NilObject))
  end.

Definition CreateRepository (k : Draws) (repo : option nat) : M nat :=
  p ← checkRepository repo;
  r ← Execute (createRepositoryInternal k p);
  dropCache (repositoryKey (Name (repo_ObjectMeta r)));;
  newRepository r.

Definition UpdateRepository (repo : option nat) : M nat :=
  p ← checkRepository repo;
  r ← gets (λ s, repos s !! p);
  r ← from_option_or ConvertFailed r;
  r ← Execute (updateRepositoryInternal r);
  dropCache (repositoryKey (Name (repo_ObjectMeta r)));;
  newRepository r.

Definition DeleteRepository (name : string) : M unit :=
  Execute (deleteRepositoryInternal name);;
  dropCache (repositoryKey name).

Definition SyncRepository (k : Draws) (name : string) : M unit :=
  Execute (syncRepositoryInternal k name);;
  dropCache (repositoryKey name).

(** ** Package revisions *)

Definition packageKey (name revision : string) : string := "pkg:" +:+ name +:+ ":" +:+ revision.
Definition resourceName (name revision : string) : string := name +:+ "-" +:+ revision.

Definition validatePackageRevision (pkg : option PackageRevision) : result InvalidObject unit :=
  match pkg with
  | None => Err NilObject
  | Some p =>
      if String.eqb (prs_PackageName (Spec p)) "" then Err PackageNameRequired
      else if String.eqb (prs_Repository (Spec p)) "" then Err RepositoryRequired
      else if String.eqb (prs_Revision (Spec p)) "" then Err RevisionRequired
      else if negb (String.eqb (Lifecycle (Spec p)) "") && negb (IsValidLifecycle (Lifecycle (Spec p)))
      then Err (InvalidLifecycle (Lifecycle (Spec p)))
      else Ok tt
  end.

Definition getPackageRevisionInternal (name revision : string) : M PackageRevision :=
  limit;;
  r ← call (api_Get packagerevisions (resourceName name revision));
  match r with
  | Err ApiNotFound => fail (PackageNotFound name revision)
  | Err e => fail (ApiFailed e)
  | Ok obj => from_option_or ConvertFailed (package_from obj)
  end.

Definition listPackageRevisionsInternal (opts : option ListOptions) : M (list PackageRevision) :=
  limit;;
  let o := default (mkListOptions "" "" "" 0 "") opts in
  let listOptions := mkListOptions (LabelSelector o) (FieldSelector o) "" (Z.max 0 (Limit o)) (Continue o) in
  let namespace := if String.eqb (Namespace o) "" then None else Some (Namespace o) in
  obj ← api (api_List packagerevisions namespace listOptions);
  from_option_or ConvertFailed (packages_from obj).

(** What creation fills in. *)
Definition prepared (now : Time) (p : PackageRevision) : PackageRevision :=
  let om := created now (pr_ObjectMeta p) in
  let name := if String.eqb (Name om) ""
              then resourceName (prs_PackageName (Spec p)) (prs_Revision (Spec p)) else Name om in
  let p := set_TypeMeta (mkTypeMeta "PackageRevision" "porch.kpt.dev/v1alpha1")
             (set_ObjectMeta (mkObjectMeta name (CreationTimestamp om) (om_rest om)) p) in
  if String.eqb (Lifecycle (Spec p)) "" then set_Lifecycle PackageRevisionLifecycleDraft p else p.

Definition createPackageRevisionInternal (k : Draws) (pkg : nat) : M PackageRevision :=
  limit;;
  modify (λ s, with_packages (alter (prepared (now_op k)) pkg (packages s)) s);;
  obj ← gets (λ s, packages s !! pkg ≫= package_to);
  u ← from_option_or ConvertFailed obj;
  u ← api (api_Create packagerevisions u);
  from_option_or ConvertFailed (package_from u).

Definition updatePackageRevisionInternal (p : PackageRevision) : M PackageRevision :=
  limit;;
  u ← from_option_or ConvertFailed (package_to p);
  u ← api (api_Update packagerevisions u);
  from_option_or ConvertFailed (package_from u).

Definition deletePackageRevisionInternal (name revision : string) : M unit :=
  limit;;
  r ← call (api_Delete packagerevisions (resourceName name revision));
  match r with
  | Ok _ => mret tt
  | Err ApiNotFound => fail (PackageNotFound name revision)
  | Err e => fail (ApiFailed e)
  end.

Definition approvePackageRevisionInternal (k : Draws) (name revision : string) : M unit :=
  limit;;
  pkg ← getPackageRevisionInternal name revision;
  if negb (String.eqb (Lifecycle (Spec pkg)) PackageRevisionLifecycleProposed)
  then fail (WrongState (Lifecycle (Spec pkg)))
  else
    let now := now_op k in
    let pkg := set_Lifecycle PackageRevisionLifecyclePublished pkg in
    let pkg := set_Status (set_PublishTime (Some now) (Status pkg)) pkg in
    let condition := mkCondition "Approved" ConditionTrue 0 now "PackageApproved"
                       "Package revision has been approved and published" in
    _ ← updatePackageRevisionInternal (SetCondition condition pkg);
    mret tt.

Definition proposePackageRevisionInternal (k : Draws) (name revision : string) : M unit :=
  limit;;
  pkg ← getPackageRevisionInternal name revision;
  if negb (String.eqb (Lifecycle (Spec pkg)) PackageRevisionLifecycleDraft)
  then fail (WrongState (Lifecycle (Spec pkg)))
  else
    let pkg := set_Lifecycle PackageRevisionLifecycleProposed pkg in
    let condition := mkCondition "Proposed" ConditionTrue 0 (now_op k) "PackageProposed"
                       "Package revision has been proposed for review" in
    _ ← updatePackageRevisionInternal (SetCondition condition pkg);
    mret tt.

Definition rejectPackageRevisionInternal (k : Draws) (name revision reason : string) : M unit :=
  limit;;
  pkg ← getPackageRevisionInternal name revision;
  if negb (String.eqb (Lifecycle (Spec pkg)) PackageRevisionLifecycleProposed)
  then fail (WrongState (Lifecycle (Spec pkg)))
  else
    let pkg := set_Lifecycle PackageRevisionLifecycleDraft pkg in
    let condition := mkCondition "Rejected" ConditionTrue 0 (now_op k) "PackageRejected"
                       ("Package revision rejected: " +:+ reason) in
    _ ← updatePackageRevisionInternal (SetCondition condition pkg);
    mret tt.

Definition GetPackageRevision (k : Draws) (name revision : string) : M nat :=
  cached ← lookupCache k (packageKey name revision);
  match cached with
  | Some (CachedPackage pkg) => mret pkg
  | _ =>
      p ← Execute (getPackageRevisionInternal name revision);
      pkg ← newPackage p;
      storeCache k (packageKey name revision) (CachedPackage pkg);;
      mret pkg
  end.

Definition ListPackageRevisions (opts : option ListOptions) : M (list PackageRevision) :=
  Execute (listPackageRevisionsInternal opts).

Definition checkPackage (pkg : option nat) : M nat := λ s,
  match validatePackageRevision (pkg ≫= λ p, packages s !! p), pkg with
  | Err e, _ => (s, Err (InvalidRequest e))
  | Ok _, Some p => (s, Ok p)
  | Ok _, None => (s, Err (InvalidRequest NilObject))
  end.

(** The key of the object the server has answered with. *)
Definition dropPackage (p : PackageRevision) : M unit :=
  dropCache (packageKey (prs_PackageName (Spec p)) (prs_Revision (Spec p))).

Definition CreatePackageRevision (k : Draws) (pkg : option nat) : M nat :=
  p ← checkPackage pkg;
  created ← Execute (createPackageRevisionInternal k p);
  dropPackage created;;
  newPackage created.

Definition UpdatePackageRevision (pkg : option nat) : M nat :=
  p ← checkPackage pkg;
  obj ← gets (λ s, packages s !! p);
  obj ← from_option_or ConvertFailed obj;
  updated ← Execute (updatePackageRevisionInternal obj);
  dropPackage updated;;
  newPackage updated.

Definition DeletePackageRevision (name revision : string) : M unit :=
  Execute (deletePackageRevisionInternal name revision);;
  dropCache (packageKey name revision).

Definition ApprovePackageRevision (k : Draws) (name revision : string) : M unit :=
  Execute (approvePackageRevisionInternal k name revision);;
  dropCache (packageKey name revision).

Definition ProposePackageRevision (k : Draws) (name revision : string) : M unit :=
  Execute (proposePackageRevisionInternal k name revision);;
  dropCache (packageKey name revision).

Definition RejectPackageRevision (k : Draws) (name revision reason : string) : M unit :=
  Execute (rejectPackageRevisionInternal k name revision reason);;
  dropCache (packageKey name revision).

(** ** Validation of a package *)

Definition errorAt (path message code : string) : ValidationError :=
  mkValidationError path message "error" code "".
Definition warningAt (path message code : string) : ValidationError :=
  mkValidationError path message "warning" code "".

Definition resourcePath (i : nat) (field : string) : string :=
  "spec.resources[" +:+ pretty i +:+ "]" +:+ field.

Definition hasName (resource : KRMResource) : bool :=
  match Metadata resource !! "name" with
  | Some (AnyString name) => negb (String.eqb name "")
  | _ => false
  end.

Definition resourceErrors (i : nat) (resource : KRMResource) : list ValidationError :=
  (if String.eqb (APIVersion resource) ""
   then [errorAt (resourcePath i ".apiVersion") "Resource apiVersion is required" "MISSING_API_VERSION"]
   else []) ++
  (if String.eqb (Kind resource) ""
   then [errorAt (resourcePath i ".kind") "Resource kind is required" "MISSING_KIND"] else []).

Definition resourceWarnings (i : nat) (resource : KRMResource) : list ValidationError :=
  if hasName resource then []
  else [warningAt (resourcePath i ".metadata.name") "Resource name is recommended in metadata"
          "MISSING_RESOURCE_NAME"].

Definition functionErrors (i : nat) (function : FunctionConfig) : list ValidationError :=
  if String.eqb (Image function) ""
  then [errorAt ("spec.functions[" +:+ pretty i +:+ "].image") "Function image is required"
          "MISSING_FUNCTION_IMAGE"]
  else [].

Definition validateObject (pkg : PackageRevision) : ValidationResult :=
  let sp := Spec pkg in
  let errors :=
    (if String.eqb (prs_PackageName sp) ""
     then [errorAt "spec.packageName" "Package name is required" "MISSING_PACKAGE_NAME"] else []) ++
    (if String.eqb (prs_Repository sp) ""
     then [errorAt "spec.repository" "Repository is required" "MISSING_REPOSITORY"] else []) ++
    (if IsValidLifecycle (Lifecycle sp) then []
     else [errorAt "spec.lifecycle" ("Invalid lifecycle state: " +:+ Lifecycle sp) "INVALID_LIFECYCLE"]) ++
    concat (imap resourceErrors (Resources sp)) ++
    concat (imap functionErrors (Functions sp)) in
  mkValidation (bool_decide (errors = [])) errors (concat (imap resourceWarnings (Resources sp))).

(** A package that cannot be retrieved is an invalid one; the message leaves
    out the text of the cause. *)
Definition validatePackageInternal (name revision : string) : M ValidationResult :=
  limit;;
  r ← attempt (getPackageRevisionInternal name revision);
  match r with
  | Ok pkg => mret (validateObject pkg)
  | Err _ => mret (mkValidation false [errorAt "package" "Failed to retrieve package" ""] [])
  end.

Definition ValidatePackage (name revision : string) : M ValidationResult :=
  Execute (validatePackageInternal name revision).

End client.

(** ** Properties of the cache *)

Definition keys (c : clientCache) : list string := (map_to_list (entries c)).*1.

Lemma elem_of_keys c key : key ∈ keys c <-> is_Some (entries c !! key).
Proof.
  unfold keys. rewrite list_elem_of_fmap. split.
  - intros ([k e] & -> & Hin%elem_of_map_to_list). by exists e.
  - intros [e He]. exists (key, e). split; [done |]. by apply elem_of_map_to_list.
Qed.

(** What the loop has found after the keys of [l]. *)
Definition found (c : clientCache) (l : list string) (p : string * Time) : Prop :=
  (p.1 = "" /\ forall key, key ∈ l -> entries c !! key = None) \/
  (exists entry, entries c !! p.1 = Some entry /\ timestamp entry = p.2 /\
     forall key e, key ∈ l -> entries c !! key = Some e -> p.2 <= timestamp e).

Lemma older_found c l : entries c !! "" = None -> found c l (foldl (older c) ("", zeroTime) l).
Proof.
  intros Hne. induction l as [| key l IH] using rev_ind.
  - left. split; [done |]. intros key Hin. by apply elem_of_nil in Hin.
  - rewrite foldl_app. simpl. set (p := foldl (older c) ("", zeroTime) l) in *. clearbody p. unfold older.
    destruct (entries c !! key) as [e |] eqn:He.
    + destruct (String.eqb_spec p.1 "") as [Ep | Ep]; simpl.
      * right. exists e. split; [done |]. split; [done |]. intros k e' Hin He'.
        apply elem_of_app in Hin as [Hin | ->%list_elem_of_singleton]; [| simpl; simplify_eq; lia].
        destruct IH as [[_ IH] | (e'' & He'' & _)]; [by rewrite IH in He' | congruence].
      * destruct IH as [[? _] | (e1 & He1 & Et & IH)]; [done |].
        destruct (time_Before (timestamp e) p.2) eqn:Hlt; right.
        -- exists e. split; [done |]. split; [done |]. simpl. intros k e' Hin He'.
           apply elem_of_app in Hin as [Hin | ->%list_elem_of_singleton]; [| simplify_eq; lia].
           specialize (IH k e' Hin He'). time_lia.
        -- exists e1. split; [done |]. split; [done |]. intros k e' Hin He'.
           apply elem_of_app in Hin as [Hin | ->%list_elem_of_singleton]; [by eapply IH |].
           simplify_eq. time_lia.
    + destruct IH as [[Ep IH] | (e1 & He1 & Et & IH)]; [left | right].
      * split; [done |]. intros k Hin. apply elem_of_app in Hin as [Hin | ->%list_elem_of_singleton]; auto.
      * exists e1. split; [done |]. split; [done |]. intros k e' Hin He'.
        apply elem_of_app in Hin as [Hin | ->%list_elem_of_singleton]; [by eapply IH | congruence].
Qed.

(** Eviction removes an entry than which none is older, whatever the order. *)
Lemma evictOldestLocked_spec order c :
  entries c !! "" = None -> order ≡ₚ keys c ->
  (entries c = ∅ /\ evictOldestLocked order c = c) \/
  (exists key entry, entries c !! key = Some entry /\
     (forall k e, entries c !! k = Some e -> timestamp entry <= timestamp e) /\
     evictOldestLocked order c = with_entries (delete key (entries c)) c).
Proof.
  intros Hne Hord. pose proof (older_found c order Hne) as Hf. unfold evictOldestLocked.
  destruct (foldl (older c) ("", zeroTime) order) as [key t].
  destruct Hf as [[Ek Hf] | (e & He & Et & Hf)]; simpl in *.
  - left. rewrite Ek. split; [| done]. apply map_empty. intros k.
    destruct (entries c !! k) as [e |] eqn:He; [| done].
    rewrite Hf in He; [done |]. rewrite Hord. by apply elem_of_keys.
  - right. exists key, e. split; [done |]. split.
    + intros k e' He'. rewrite Et. apply (Hf k e'); [| done]. rewrite Hord. apply elem_of_keys. by exists e'.
    + destruct (String.eqb_spec key "") as [-> |]; [congruence | done].
Qed.

Lemma evictOldest_entries order c key e :
  entries (evictOldestLocked order c) !! key = Some e -> entries c !! key = Some e.
Proof.
  unfold evictOldestLocked. destruct (foldl _ _ _) as [k t]. destruct (String.eqb k ""); [done |].
  simpl. rewrite lookup_delete_Some. by intros [].
Qed.

Lemma setCached_entries now order key value c k e :
  entries (setCached now order key value c) !! k = Some e ->
  (k = key /\ e = mkEntry value now) \/ (k <> key /\ entries c !! k = Some e).
Proof.
  unfold setCached. simpl. rewrite lookup_insert_Some. intros [[<- <-] | [Hne He]]; [by left |].
  right. split; [done |]. destruct (_ <=? _); [by apply evictOldest_entries in He | done].
Qed.

(** The operations of the cache, the order of the map being that of its keys. *)
Inductive cacheStep (c : clientCache) : clientCache -> Prop :=
| step_set now order key value :
    key <> "" -> order ≡ₚ keys c -> cacheStep c (setCached now order key value c)
| step_invalidate key : cacheStep c (invalidateCache key c)
| step_expire now : cacheStep c (evictExpired now c).

Definition bounded (c : clientCache) : Prop :=
  entries c !! "" = None /\ Z.of_nat (size (entries c)) <= Z.max 1 (maxSize c).

Lemma size_filter_le {A} (P : string * A -> Prop) `{forall x, Decision (P x)} (m : gmap string A) :
  (size (filter P m) <= size m)%nat.
Proof. apply map_subseteq_size, map_filter_subseteq. Qed.

Lemma size_delete_le {A} (m : gmap string A) key : (size (delete key m) <= size m)%nat.
Proof. apply map_subseteq_size, delete_subseteq. Qed.

Lemma evictOldest_maxSize order c : maxSize (evictOldestLocked order c) = maxSize c.
Proof. unfold evictOldestLocked. destruct (foldl _ _ _) as [k t]. by destruct (String.eqb k ""). Qed.

Lemma setCached_bounded now order key value c :
  key <> "" -> order ≡ₚ keys c -> bounded c -> bounded (setCached now order key value c).
Proof.
  intros Hkey Hord [Hne Hb]. unfold setCached. set (c1 := if _ <=? _ then _ else _).
  assert (entries c1 !! "" = None /\ Z.of_nat (size (entries c1)) < Z.max 1 (maxSize c) /\
    maxSize c1 = maxSize c) as (Hne1 & Hb1 & Em).
  { subst c1. destruct (Z.leb_spec (maxSize c) (Z.of_nat (size (entries c)))); [| split; [done | split; [lia | done]]].
    rewrite evictOldest_maxSize. split; [| split; [| done]].
    - destruct (entries (evictOldestLocked order c) !! "") eqn:He; [| done].
      apply evictOldest_entries in He. congruence.
    - destruct (evictOldestLocked_spec order c Hne Hord) as [[E ->] | (k & e & He & _ & ->)].
      + rewrite E, map_size_empty. lia.
      + simpl. rewrite map_size_delete, He. assert (size (entries c) <> 0%nat).
        { intros E0%map_size_empty_iff. by rewrite E0, lookup_empty in He. } lia. }
  split; simpl; [by rewrite lookup_insert_ne |]. rewrite Em, map_size_insert.
  destruct (entries c1 !! key); simpl; lia.
Qed.

Lemma bounded_step c c' : cacheStep c c' -> bounded c -> bounded c'.
Proof.
  intros [now order key value Hk Ho | key | now] Hb; [by apply setCached_bounded | |].
  all: destruct Hb as [Hne Hb]; split; simpl.
  - rewrite lookup_delete_None. by right.
  - pose proof (size_delete_le (entries c) key). lia.
  - apply map_lookup_filter_None. by left.
  - pose proof (size_filter_le (λ kv, time_Sub now (timestamp kv.2) <= ttl c) (entries c)). lia.
Qed.

Lemma cacheStep_maxSize c c' : cacheStep c c' -> maxSize c' = maxSize c /\ ttl c' = ttl c.
Proof.
  intros [now order key value _ _ | |]; [| done | done]. unfold setCached, evictOldestLocked.
  destruct (_ <=? _); [| done]. destruct (foldl _ _ _) as [k t]. by destruct (String.eqb k "").
Qed.

(** ** What the client relies on *)

Section promises.
Context `{Porch}.

Definition put {A} (g : GVR) (n : string) (u : A) (f : GVR -> gmap string A) (g' : GVR) : gmap string A :=
  if decide (g' = g) then <[n := u]> (f g') else f g'.
Definition remove {A} (g : GVR) (n : string) (f : GVR -> gmap string A) (g' : GVR) : gmap string A :=
  if decide (g' = g) then delete n (f g') else f g'.

(** The objects the server holds, by name.  A read changes none; a write that
    succeeds stores the object under its name with the specification that was
    sent; one that fails changes nothing, unless its answer was lost. *)
Class PorchLaws := {
  objects : World -> GVR -> gmap string Unstructured;
  object_name : Unstructured -> string;
  accepts (u u' : Unstructured) : Prop :=
    object_name u' = object_name u /\
    forall p, package_to p = Some u -> exists p', package_from u' = Some p' /\ Spec p' = Spec p;
  Wait_objects w g : objects (Wait w).1 g = objects w g;
  beforeRequest_objects w g : objects (beforeRequest w).1 g = objects w g;
  afterRequest_objects b w g : objects (afterRequest b w) g = objects w g;
  objects_name w g n u : objects w g !! n = Some u -> object_name u = n;
  package_to_name p u : package_to p = Some u -> object_name u = Name (pr_ObjectMeta p);
  package_from_name u p : package_from u = Some p -> Name (pr_ObjectMeta p) = object_name u;
  api_Get_objects g n w g' : objects (api_Get g n w).1 g' = objects w g';
  api_Get_ok g n w u : (api_Get g n w).2 = Ok u -> objects w g !! n = Some u;
  api_Update_ok g u w w' u' : api_Update g u w = (w', Ok u') ->
    accepts u u' /\ is_Some (objects w g !! object_name u) /\
    forall g', objects w' g' = put g (object_name u) u' (objects w) g';
  api_Update_err g u w w' e : api_Update g u w = (w', Err e) ->
    (forall g', objects w' g' = objects w g') \/
    (e = ApiLost /\ exists u', accepts u u' /\ is_Some (objects w g !! object_name u) /\
       forall g', objects w' g' = put g (object_name u) u' (objects w) g');
  api_Create_ok g u w w' u' : api_Create g u w = (w', Ok u') ->
    accepts u u' /\ objects w g !! object_name u = None /\
    forall g', objects w' g' = put g (object_name u) u' (objects w) g';
  api_Create_err g u w w' e : api_Create g u w = (w', Err e) ->
    e = ApiLost \/ forall g', objects w' g' = objects w g';
  api_Delete_ok g n w w' : api_Delete g n w = (w', Ok tt) ->
    forall g', objects w' g' = remove g n (objects w) g';
  api_Delete_err g n w w' e : api_Delete g n w = (w', Err e) ->
    e = ApiLost \/ forall g', objects w' g' = objects w g'
}.

End promises.

(** ** Reasoning about computations *)

Section logic.
Context `{Porch}.

(** [m] takes a state with [P] to a result and a state with [Q]. *)
Definition triple {A} (P : St -> Prop) (m : M A) (Q : result PorchError A -> St -> Prop) : Prop :=
  forall s s' r, P s -> m s = (s', r) -> Q r s'.

Lemma triple_bind {A B} P (m : M A) (k : A -> M B) Q R :
  triple P m R -> (forall a, triple (R (Ok a)) (k a) Q) -> (forall e s, R (Err e) s -> Q (Err e) s) ->
  triple P (m ≫= k) Q.
Proof.
  intros Hm Hk He s s' r HP E. unfold mbind, M_bind in E. destruct (m s) as [s1 [a | e]] eqn:Em.
  - eapply Hk; [by eapply Hm | done].
  - injection E as <- <-. apply He. by eapply Hm.
Qed.

Lemma triple_conseq {A} (P P' : St -> Prop) (m : M A) (Q Q' : result PorchError A -> St -> Prop) :
  triple P' m Q' -> (forall s, P s -> P' s) -> (forall r s, Q' r s -> Q r s) -> triple P m Q.
Proof. intros Hm HP HQ s s' r Hs E. eapply HQ, Hm; [by apply HP | done]. Qed.

Lemma triple_ret {A} (P : St -> Prop) (a : A) (Q : result PorchError A -> St -> Prop) :
  (forall s, P s -> Q (Ok a) s) -> triple P (mret a) Q.
Proof. intros HQ s s' r Hs [= <- <-]. by apply HQ. Qed.

Lemma triple_fail {A} (P : St -> Prop) e (Q : result PorchError A -> St -> Prop) :
  (forall s, P s -> Q (Err e) s) -> triple P (fail e) Q.
Proof. intros HQ s s' r Hs [= <- <-]. by apply HQ. Qed.

Lemma triple_modify (P : St -> Prop) f (Q : result PorchError unit -> St -> Prop) :
  (forall s, P s -> Q (Ok tt) (f s)) -> triple P (modify f) Q.
Proof. intros HQ s s' r Hs [= <- <-]. by apply HQ. Qed.

Lemma triple_gets {A} (P : St -> Prop) (f : St -> A) :
  triple P (gets f) (λ r s, P s /\ r = Ok (f s)).
Proof. intros s s' r Hs [= <- <-]. done. Qed.

Lemma triple_option {A} (P : St -> Prop) e (o : option A) (Q : result PorchError A -> St -> Prop) :
  (forall a s, o = Some a -> P s -> Q (Ok a) s) -> (forall s, o = None -> P s -> Q (Err e) s) ->
  triple P (from_option_or e o) Q.
Proof. intros HS HN. destruct o as [a |]; [apply triple_ret | apply triple_fail]; auto. Qed.

Lemma triple_call {A} (P : St -> Prop) (f : World -> World * result ApiError A)
    (Q : result ApiError A -> St -> Prop) :
  (forall s w r, P s -> f (world s) = (w, r) -> Q r (with_world w s)) ->
  triple P (call f) (λ r s, exists a, r = Ok a /\ Q a s).
Proof.
  intros HQ s s' r Hs E. unfold call in E. destruct (f (world s)) as [w a] eqn:Ef.
  injection E as <- <-. exists a. split; [done |]. by eapply HQ.
Qed.

Context {L : PorchLaws}.

(** The server's objects are those of [s0]; client and store too. *)
Record like (s0 s : St) : Prop := {
  like_client : client s = client s0;
  like_packages : packages s = packages s0;
  like_objects : forall g, objects (world s) g = objects (world s0) g
}.

Lemma like_refl s : like s s.
Proof. done. Qed.

Lemma like_world s0 s w : like s0 s -> (forall g, objects w g = objects (world s) g) ->
  like s0 (with_world w s).
Proof. intros [Hc Hp Ho] Hw. split; [done | done |]. intros g. simpl. by rewrite Hw, Ho. Qed.

Lemma limit_spec s0 : triple (like s0) limit (λ _, like s0).
Proof.
  intros s s' r Hs E. unfold limit in E. destruct (rateLimiter (client s)); [| by injection E as <- <-].
  destruct (Wait (world s)) as [w ok] eqn:Ew. injection E as <- <-. apply like_world; [done |].
  intros g. by rewrite <- (Wait_objects (world s)), Ew.
Qed.

(** Post-conditions that do not look at the limiter and the breaker. *)
Definition worldly {A} (Q : result PorchError A -> St -> Prop) : Prop :=
  forall r s w, (forall g, objects w g = objects (world s) g) -> Q r s -> Q r (with_world w s).

Lemma Execute_spec {A} s0 (m : M A) (Q : result PorchError A -> St -> Prop) :
  triple (like s0) m Q -> worldly Q -> (forall s, like s0 s -> Q (Err BreakerRefused) s) ->
  triple (like s0) (Execute m) Q.
Proof.
  intros Hm HQ Hb s s' r Hs E. unfold Execute in E.
  destruct (beforeRequest (world s)) as [w ok] eqn:Ew.
  assert (like s0 (with_world w s)) as Hw
    by (apply like_world; [done |]; intros g; by rewrite <- (beforeRequest_objects (world s)), Ew).
  destruct ok; [| injection E as <- <-; by apply Hb].
  destruct (m (with_world w s)) as [s1 r1] eqn:Em. injection E as <- <-.
  apply HQ; [intros g; apply afterRequest_objects |]. by eapply Hm.
Qed.

Lemma like_worldly {A} s0 : worldly (A := A) (λ _, like s0).
Proof. intros r s w Hw Hs. by apply like_world. Qed.

(** ** The operations on package revisions *)

Lemma getPackageRevisionInternal_spec s0 n r :
  triple (like s0) (getPackageRevisionInternal n r) (λ res s, like s0 s /\
    forall p, res = Ok p ->
      exists u, objects (world s0) packagerevisions !! resourceName n r = Some u /\ package_from u = Some p).
Proof.
  unfold getPackageRevisionInternal. eapply triple_bind; [apply limit_spec | | by intros].
  intros []. eapply triple_bind with (R := λ res s, exists a, res = Ok a /\ like s0 s /\ forall u, a = Ok u ->
    objects (world s0) packagerevisions !! resourceName n r = Some u).
  - apply triple_call. intros s w a Hs E. split.
    + apply like_world; [done |]. intros g. by rewrite <- (api_Get_objects packagerevisions (resourceName n r) (world s)), E.
    + intros u ->. rewrite <- (like_objects _ _ Hs). apply api_Get_ok. by rewrite E.
  - intros a s s' res (a' & [= <-] & Hs & Hu) E. destruct a as [u | []]; try (injection E as <- <-; by split).
    destruct (package_from u) as [p |] eqn:Hp; injection E as <- <-; (split; [done |]); intros ? [= <-].
    exists u. by split; [apply Hu |].
  - by intros e s (? & ? & _).
Qed.

(** What a write of [p] has done when the server has carried it out. *)
Definition wrote (s0 s : St) (p : PackageRevision) (u : Unstructured) : Prop :=
  (exists p', package_from u = Some p' /\ Spec p' = Spec p) /\
  object_name u = Name (pr_ObjectMeta p) /\
  forall g, objects (world s) g = put packagerevisions (Name (pr_ObjectMeta p)) u (objects (world s0)) g.

(** The outcome of an update. *)
Definition updated (s0 : St) (p : PackageRevision) (res : result PorchError PackageRevision) (s : St) : Prop :=
  client s = client s0 /\ packages s = packages s0 /\
  match res with
  | Ok p' => Spec p' = Spec p /\ is_Some (objects (world s0) packagerevisions !! Name (pr_ObjectMeta p)) /\
      exists u, package_from u = Some p' /\ wrote s0 s p u
  | Err e => like s0 s \/
      (e = ApiFailed ApiLost /\ is_Some (objects (world s0) packagerevisions !! Name (pr_ObjectMeta p)) /\
       exists u, wrote s0 s p u)
  end.

Lemma like_updated s0 p e s : like s0 s -> updated s0 p (Err e) s.
Proof. intros Hs. split; [apply Hs | split; [apply Hs | by left]]. Qed.

Lemma accepted_wrote s0 s p u u' w :
  like s0 s -> package_to p = Some u -> accepts u u' ->
  (forall g', objects w g' = put packagerevisions (object_name u) u' (objects (world s)) g') ->
  wrote s0 (with_world w s) p u'.
Proof.
  intros Hs Hu [Hn Ha] Hw. pose proof (package_to_name _ _ Hu) as En. split; [by apply Ha |].
  split; [congruence |]. intros g. simpl. rewrite Hw, En. unfold put. case_decide; by rewrite (like_objects _ _ Hs).
Qed.

Lemma updatePackageRevisionInternal_spec s0 p :
  triple (like s0) (updatePackageRevisionInternal p) (updated s0 p).
Proof.
  unfold updatePackageRevisionInternal. eapply triple_bind; [apply limit_spec | | by intros; apply like_updated].
  intros []. eapply triple_bind with (R := λ res s, like s0 s /\ forall u, res = Ok u -> package_to p = Some u).
  { apply triple_option; [| by intros]. intros u s Hu Hs. split; [done |]. by intros ? [= <-]. }
  2: { intros e s [Hs _]. by apply like_updated. }
  intros u. eapply triple_conseq with (P' := λ s, like s0 s /\ package_to p = Some u) (Q' := updated s0 p);
    [| intros s [Hs Hu]; split; [done | by apply Hu] | done].
  intros s s' r [Hs Hu] E. pose proof (package_to_name _ _ Hu) as En.
  unfold api, call, mbind, M_bind in E. destruct (api_Update packagerevisions u (world s)) as [w [u' | e]] eqn:Eu; simpl in E.
  - apply api_Update_ok in Eu as (Ha & Hex & Hw). rewrite (like_objects _ _ Hs), En in Hex.
    pose proof (accepted_wrote _ _ _ _ _ _ Hs Hu Ha Hw) as Hwr. pose proof Hwr as [(p' & Hp' & Esp) _].
    rewrite Hp' in E. injection E as <- <-.
    split; [apply Hs | split; [apply Hs |]]. split; [done |]. split; [done |]. exists u'.
    by split.
  - injection E as <- <-. split; [apply Hs | split; [apply Hs |]].
    apply api_Update_err in Eu as [Hw | (-> & u' & Ha & Hex & Hw)]; [left; by apply like_world |].
    right. split; [done |]. rewrite (like_objects _ _ Hs), En in Hex. split; [done |].
    exists u'. by eapply accepted_wrote.
Qed.

(** ** Reviews *)

Inductive Review :=
| Propose (name revision : string)
| Approve (name revision : string)
| Reject (name revision reason : string).

Definition review (k : Draws) (op : Review) : M unit :=
  match op with
  | Propose name revision => ProposePackageRevision k name revision
  | Approve name revision => ApprovePackageRevision k name revision
  | Reject name revision reason => RejectPackageRevision k name revision reason
  end.

(** From [s0] to [s] every package revision has kept its place on the server
    and has moved along an edge of the table, if it has moved at all. *)
Definition moved (s0 s : St) : Prop :=
  forall name,
    match objects (world s0) packagerevisions !! name, objects (world s) packagerevisions !! name with
    | Some u, Some u' =>
        u' = u \/
        exists p p', package_from u = Some p /\ package_from u' = Some p' /\
          CanTransitionTo (Lifecycle (Spec p)) (Lifecycle (Spec p')) = true
    | None, None => True
    | _, _ => False
    end.

Lemma like_moved s0 s : like s0 s -> moved s0 s.
Proof. intros Hs name. rewrite (like_objects _ _ Hs). destruct (_ !! name); [by left | done]. Qed.

(** The shape the three reviews share. *)
Lemma reviewed s0 n r from to (f : PackageRevision -> PackageRevision) :
  CanTransitionTo from to = true ->
  (forall p, Lifecycle (Spec (f p)) = to /\ pr_ObjectMeta (f p) = pr_ObjectMeta p) ->
  triple (like s0)
    (limit;;
     pkg ← getPackageRevisionInternal n r;
     if negb (String.eqb (Lifecycle (Spec pkg)) from) then fail (WrongState (Lifecycle (Spec pkg)))
     else _ ← updatePackageRevisionInternal (f pkg); mret tt)
    (λ _, moved s0).
Proof.
  intros Hedge Hf. eapply triple_bind; [apply limit_spec | intros [] | intros; by apply like_moved].
  eapply triple_bind; [apply getPackageRevisionInternal_spec | | intros e s [Hs _]; by apply like_moved].
  intros p s s' res [Hs Hp] E. destruct (Hp p eq_refl) as (u & Hu & Hpu). clear Hp.
  destruct (String.eqb_spec (Lifecycle (Spec p)) from) as [Ef | Hne]; simpl in E;
    [| injection E as <- <-; by apply like_moved].
  destruct (Hf p) as [Eto Emeta]. unfold mbind, M_bind in E.
  destruct (updatePackageRevisionInternal (f p) s) as [s1 r1] eqn:Eu.
  apply (updatePackageRevisionInternal_spec s0 _ s s1 r1 Hs) in Eu as (_ & _ & Hout).
  assert (forall u', wrote s0 s1 (f p) u' -> moved s0 s1) as Hmoved.
  { intros u' ((p' & Hp' & Esp) & _ & Hw) name. rewrite Hw. unfold put. rewrite decide_True by done.
    pose proof (package_from_name _ _ Hpu) as En. rewrite (objects_name _ _ _ _ Hu) in En.
    rewrite Emeta, En. destruct (decide (name = resourceName n r)) as [-> | Hne].
    - rewrite Hu, lookup_insert_eq. right. exists p, p'. by rewrite Esp, Eto, Ef.
    - rewrite lookup_insert_ne by done. destruct (_ !! name); [by left | done]. }
  assert (s' = s1) as -> by (destruct r1; by injection E).
  destruct r1 as [p' | e]; [destruct Hout as (_ & _ & u' & _ & Hw) |
    destruct Hout as [Hl | (_ & _ & u' & Hw)]]; try (by eapply Hmoved). by apply like_moved.
Qed.

Lemma moved_worldly {A} s0 : worldly (A := A) (λ _, moved s0).
Proof. intros r s w Hw Hm name. simpl. rewrite Hw. apply Hm. Qed.

Lemma review_moved k op s s' res : review k op s = (s', res) -> moved s s'.
Proof.
  assert (forall (m : M unit) key, triple (like s) m (λ _, moved s) -> triple (like s) (Execute m;; dropCache key) (λ _, moved s))
    as Hdrop.
  { intros m key Hm. eapply triple_bind; [apply Execute_spec; [exact Hm | apply moved_worldly |] | | done].
    - intros; by apply like_moved.
    - intros []. by apply triple_modify. }
  intros E. destruct op as [n r | n r | n r reason]; eapply (Hdrop _ _); [| apply like_refl | exact E | |
    apply like_refl | exact E | | apply like_refl | exact E].
  - by apply (reviewed s n r PackageRevisionLifecycleDraft PackageRevisionLifecycleProposed (λ pkg, SetCondition _ (set_Lifecycle _ pkg))).
  - by apply (reviewed s n r PackageRevisionLifecycleProposed PackageRevisionLifecyclePublished
      (λ pkg, SetCondition _ (set_Status (set_PublishTime (Some (now_op k)) (Status (set_Lifecycle _ pkg))) (set_Lifecycle _ pkg)))).
  - by apply (reviewed s n r PackageRevisionLifecycleProposed PackageRevisionLifecycleDraft (λ pkg, SetCondition _ (set_Lifecycle _ pkg))).
Qed.

(** ** Coherence of the cache *)

(** The package revisions the client works with: neither two resources nor two
    cache keys of theirs are the same. *)
Definition distinct (used : string -> string -> Prop) : Prop :=
  forall n r n' r', used n r -> used n' r' ->
    resourceName n r = resourceName n' r' \/ packageKey n r = packageKey n' r' -> n = n' /\ r = r'.

(** Operations of one client whose caller does not write to the objects it has
    received: what it creates or updates is an object of its own. *)
Inductive Op :=
| OpGet (k : Draws) (name revision : string)
| OpCreate (k : Draws) (p : PackageRevision)
| OpUpdate (p : PackageRevision)
| OpReview (k : Draws) (rv : Review)
| OpDelete (name revision : string)
| OpExpire (now : Time).

Definition runOp (op : Op) : M unit :=
  match op with
  | OpGet k n r => _ ← GetPackageRevision k n r; mret tt
  | OpCreate k p => pkg ← newPackage p; _ ← CreatePackageRevision k (Some pkg); mret tt
  | OpUpdate p => pkg ← newPackage p; _ ← UpdatePackageRevision (Some pkg); mret tt
  | OpReview k rv => review k rv
  | OpDelete n r => DeletePackageRevision n r
  | OpExpire now => modify (with_cache (evictExpired now))
  end.

Definition well_named (p : PackageRevision) : Prop :=
  Name (pr_ObjectMeta p) = resourceName (prs_PackageName (Spec p)) (prs_Revision (Spec p)).

Definition legal (used : string -> string -> Prop) (op : Op) : Prop :=
  match op with
  | OpGet _ n r | OpDelete n r | OpReview _ (Propose n r) | OpReview _ (Approve n r)
  | OpReview _ (Reject n r _) => used n r
  | OpCreate _ p =>
      used (prs_PackageName (Spec p)) (prs_Revision (Spec p)) /\ (Name (pr_ObjectMeta p) = "" \/ well_named p)
  | OpUpdate p => used (prs_PackageName (Spec p)) (prs_Revision (Spec p)) /\ well_named p
  | OpExpire _ => True
  end.

(** The request was answered. *)
Definition answered {A} (res : result PorchError A) : Prop :=
  match res with Err (ApiFailed ApiLost) => False | _ => True end.

(** Every cached package revision is the one the server holds. *)
Definition Coherent (used : string -> string -> Prop) (s : St) : Prop :=
  forall c key e pkg, cache (client s) = Some c -> entries c !! key = Some e -> data e = CachedPackage pkg ->
    exists n r p u, used n r /\ key = packageKey n r /\ packages s !! pkg = Some p /\
      objects (world s) packagerevisions !! resourceName n r = Some u /\ package_from u = Some p.

Section coherence.
Variable used : string -> string -> Prop.
Hypothesis Hdistinct : distinct used.

Lemma Coherent_keep s0 s :
  Coherent used s0 -> client s = client s0 -> packages s0 `prefix_of` packages s ->
  (forall g, objects (world s) g = objects (world s0) g) -> Coherent used s.
Proof.
  intros HC Ec Hp Ho c key e pkg Hc He Hd. rewrite Ec in Hc.
  destruct (HC c key e pkg Hc He Hd) as (n & r & p & u & Hu & Hk & Hpk & Hou & Hf).
  exists n, r, p, u. rewrite Ho. split; [done |]. split; [done |]. split; [| done].
  by eapply prefix_lookup_Some.
Qed.

Lemma Coherent_like s0 s : Coherent used s0 -> like s0 s -> Coherent used s.
Proof. intros HC [Ec Ep Ho]. apply (Coherent_keep s0); [done | done | by rewrite Ep | done]. Qed.

(** Entries may go at any time. *)
Lemma Coherent_fewer f s :
  (forall c key e, entries (f c) !! key = Some e -> entries c !! key = Some e) ->
  Coherent used s -> Coherent used (with_cache f s).
Proof.
  intros Hf HC c key e pkg Hc He Hd. cbn in Hc. destruct (cache (client s)) as [c0 |] eqn:Hc0; [| done].
  injection Hc as <-. by apply (HC c0 key e pkg Hc0 (Hf _ _ _ He)).
Qed.

Lemma invalidate_entries key c k e :
  entries (invalidateCache key c) !! k = Some e -> k <> key /\ entries c !! k = Some e.
Proof. cbn. rewrite lookup_delete_Some. intros [? ?]. by split. Qed.

(** After a write of one package revision and the drop of its key. *)
Lemma Coherent_drop s0 s n r :
  Coherent used s0 -> client s = client s0 -> packages s0 `prefix_of` packages s -> used n r ->
  (forall name, name <> resourceName n r ->
     objects (world s) packagerevisions !! name = objects (world s0) packagerevisions !! name) ->
  Coherent used (with_cache (invalidateCache (packageKey n r)) s).
Proof.
  intros HC Ec Hp Hu Ho c key e pkg Hc He Hd. cbn in Hc. rewrite Ec in Hc.
  destruct (cache (client s0)) as [c0 |] eqn:Hc0; [| done]. injection Hc as <-.
  apply invalidate_entries in He as [Hne He].
  destruct (HC c0 key e pkg Hc0 He Hd) as (n' & r' & p & u & Hu' & Hk & Hpk & Hou & Hf).
  exists n', r', p, u. split; [done |]. split; [done |].
  split; [by eapply prefix_lookup_Some | split; [| done]]. cbn. rewrite Ho; [done |].
  intros E. apply Hne. destruct (Hdistinct n r n' r') as [-> ->]; auto.
Qed.

Lemma Coherent_new s p : Coherent used s -> Coherent used (with_packages (packages s ++ [p]) s).
Proof. intros HC. apply (Coherent_keep s); [done | done | by eexists | done]. Qed.

(** A post-condition of an operation. *)
Definition coherent {A} (res : result PorchError A) (s : St) : Prop := answered res -> Coherent used s.

Lemma Coherent_world s w : (forall g, objects w g = objects (world s) g) -> Coherent used s ->
  Coherent used (with_world w s).
Proof. intros Hw HC. by apply (Coherent_keep s). Qed.

(** An answer of the internal operation and the drop that follows it. *)
Lemma drop_spec {A B} s0 s1 (m : M A) (key : A -> string) (k : A -> M B) n r :
  Coherent used s0 -> used n r -> client s1 = client s0 -> packages s0 `prefix_of` packages s1 ->
  (forall g, objects (world s1) g = objects (world s0) g) ->
  triple (like s1) m (λ res s, client s = client s0 /\ packages s0 `prefix_of` packages s /\
    match res with
    | Ok a => key a = packageKey n r /\ forall name, name <> resourceName n r ->
        objects (world s) packagerevisions !! name = objects (world s0) packagerevisions !! name
    | Err e => answered (Err e : result PorchError A) -> forall g, objects (world s) g = objects (world s0) g
    end) ->
  (forall a, triple (Coherent used) (k a) (λ _, Coherent used)) ->
  triple (like s1) (a ← Execute m; dropCache (key a);; k a) coherent.
Proof.
  intros HC Hu Hc1 Hp1 Ho1 Hm Hk. eapply triple_bind.
  - apply Execute_spec; [exact Hm | |].
    + intros res s w Hw (Hcl & Hpk & Hres). split; [done |]. split; [done |].
      destruct res as [a | e]; [| intros Ha g; cbn; by rewrite Hw, Hres].
      destruct Hres as [Ek Ho]. split; [done |]. intros name Hne. cbn. by rewrite Hw, Ho.
    + intros s [Hcl Hpk Ho]. split; [by rewrite Hcl |]. rewrite Hpk. split; [done |].
      intros _ g. by rewrite Ho.
  - intros a. eapply triple_bind with (R := λ res, Coherent used); [| | by intros e s HCs _].
    + apply triple_modify. intros s (Hcl & Hpk & Ek & Ho). rewrite Ek. by apply (Coherent_drop s0).
    + intros []. eapply triple_conseq; [apply Hk | done | by intros res s HCs _].
  - intros e s (Hcl & Hpk & Ho) Ha. apply (Coherent_keep s0 s); [done | done | done | by apply Ho].
Qed.

Lemma newPackage_coherent p : triple (Coherent used) (newPackage p) (λ _, Coherent used).
Proof. intros s s' res HC [= <- <-]. by apply Coherent_new. Qed.

Lemma get_coherent k n r s0 : Coherent used s0 -> used n r ->
  triple (like s0) (GetPackageRevision k n r) (λ res s, Coherent used s /\ forall pkg, res = Ok pkg ->
    exists p u, packages s !! pkg = Some p /\
      objects (world s) packagerevisions !! resourceName n r = Some u /\ package_from u = Some p).
Proof.
  intros HC Hu. unfold GetPackageRevision. eapply triple_bind; [apply triple_gets | | by intros ? ? [? ?]].
  intros cached.
  assert (triple (like s0) (p ← Execute (getPackageRevisionInternal n r); pkg ← newPackage p;
    storeCache k (packageKey n r) (CachedPackage pkg);; mret pkg) (λ res s, Coherent used s /\ forall pkg, res = Ok pkg ->
    exists p u, packages s !! pkg = Some p /\
      objects (world s) packagerevisions !! resourceName n r = Some u /\ package_from u = Some p)) as Hmiss.
  { eapply triple_bind; [apply Execute_spec; [apply getPackageRevisionInternal_spec | |] | |].
    - intros res s w Hw [Hs Hp]. split; [by apply like_world | done].
    - by intros s Hs.
    - intros p s s' res [Hs Hp] [= <- <-]. destruct (Hp p eq_refl) as (u & Hou & Hf).
      assert (Coherent used (with_packages (packages s ++ [p]) s)) as HC1
        by (apply Coherent_new, (Coherent_like s0); done).
      split.
      + intros c key e pkg Hc He Hd. cbn in Hc. destruct (cache (client s)) as [c0 |] eqn:Hc0; [| done].
        injection Hc as <-. apply setCached_entries in He as [[-> ->] | [_ He]].
        * injection Hd as <-. exists n, r, p, u. cbn. rewrite lookup_app_r, Nat.sub_diag by done.
          rewrite (like_objects _ _ Hs). done.
        * by apply (HC1 c0 key e pkg).
      + intros pkg [= <-]. exists p, u. cbn. rewrite lookup_app_r, Nat.sub_diag by done.
        by rewrite (like_objects _ _ Hs).
    - intros e s [Hs _]. split; [by apply (Coherent_like s0) | done]. }
  eapply triple_conseq with (P' := λ s, like s0 s /\ cached = (cache (client s) ≫= getCached (now_get k) (packageKey n r)));
    [| intros s [Hs [= E]]; by split | intros ? ? HQ; exact HQ].
  destruct cached as [[pkg | repo] |]; [| eapply triple_conseq; [exact Hmiss | by intros s [? _] | done] ..].
  apply triple_ret. intros s [Hs E]. assert (Coherent used s) as HCs by (by apply (Coherent_like s0)).
  split; [done |]. intros ? [= <-]. symmetry in E. apply bind_Some in E as (c & Hc & E).
  unfold getCached in E. destruct (entries c !! packageKey n r) as [e |] eqn:He; [| done].
  destruct (_ <? _); [done |]. injection E as Ed.
  destruct (HCs c _ e pkg Hc He Ed) as (n' & r' & p & u & Hu' & Hk & Hpk & Hou & Hf).
  destruct (Hdistinct n r n' r') as [-> ->]; [done | done | by right |]. by exists p, u.
Qed.

Lemma delete_spec s0 n r :
  triple (like s0) (deletePackageRevisionInternal n r) (λ res s,
    client s = client s0 /\ packages s0 `prefix_of` packages s /\
    match res with
    | Ok a => packageKey n r = packageKey n r /\ forall name, name <> resourceName n r ->
        objects (world s) packagerevisions !! name = objects (world s0) packagerevisions !! name
    | Err e => answered (Err e : result PorchError unit) -> forall g, objects (world s) g = objects (world s0) g
    end).
Proof.
  unfold deletePackageRevisionInternal.
  eapply triple_bind; [apply limit_spec | intros [] | intros e s [Hc Hp Ho]; rewrite Hp; by repeat split].
  intros s s' res [Hc Hp Ho] E. unfold call, mbind, M_bind in E.
  destruct (api_Delete _ _ _) as [w [[] | e]] eqn:Ed.
  - injection E as <- <-. cbn. rewrite Hc, Hp. split; [done |]. split; [done |]. split; [done |].
    intros name Hne. rewrite (api_Delete_ok _ _ _ _ Ed). unfold remove. rewrite decide_True by done.
    by rewrite lookup_delete_ne, Ho.
  - apply api_Delete_err in Ed. destruct e; injection E as <- <-; cbn; rewrite Hc, Hp;
      (split; [done |]; split; [done |]); intros Ha g; destruct Ed as [He | Hw]; try done; by rewrite Hw, Ho.
Qed.

(** A review writes at most the object it names. *)
Lemma reviewed_frame s0 n r from (f : PackageRevision -> PackageRevision) :
  (forall p, pr_ObjectMeta (f p) = pr_ObjectMeta p) ->
  triple (like s0)
    (limit;;
     pkg ← getPackageRevisionInternal n r;
     if negb (String.eqb (Lifecycle (Spec pkg)) from) then fail (WrongState (Lifecycle (Spec pkg)))
     else _ ← updatePackageRevisionInternal (f pkg); mret tt)
    (λ res s, client s = client s0 /\ packages s0 `prefix_of` packages s /\
    match res with
    | Ok a => packageKey n r = packageKey n r /\ forall name, name <> resourceName n r ->
        objects (world s) packagerevisions !! name = objects (world s0) packagerevisions !! name
    | Err e => answered (Err e : result PorchError unit) -> forall g, objects (world s) g = objects (world s0) g
    end).
Proof.
  intros Hf.
  eapply triple_bind; [apply limit_spec | intros [] | intros e s [Hc Hp Ho]; rewrite Hp; by repeat split].
  eapply triple_bind; [apply getPackageRevisionInternal_spec | |
    intros e s [[Hc Hp Ho] _]; rewrite Hp; by repeat split].
  intros p s s' res [Hs Hp] E. destruct (Hp p eq_refl) as (u & Hu & Hpu). clear Hp.
  destruct (String.eqb _ _); simpl in E;
    [| injection E as <- <-; destruct Hs as [Hc Hp Ho]; rewrite Hp; by repeat split].
  unfold mbind, M_bind in E. destruct (updatePackageRevisionInternal (f p) s) as [s1 r1] eqn:Eu.
  apply (updatePackageRevisionInternal_spec s0 _ s s1 r1 Hs) in Eu as (Hc & Hpk & Hout).
  pose proof (package_from_name _ _ Hpu) as En. rewrite (objects_name _ _ _ _ Hu) in En.
  destruct r1 as [p' | e]; injection E as <- <-; rewrite Hpk; (split; [done |]; split; [done |]).
  - split; [done |]. destruct Hout as (_ & _ & u' & _ & _ & _ & Hw). intros name Hne. rewrite Hw. unfold put.
    rewrite decide_True, Hf, En by done. by rewrite lookup_insert_ne.
  - destruct Hout as [[_ _ Ho] | (-> & _)]; [by intros _ | done].
Qed.

Lemma create_spec s0 k pkg p :
  packages s0 !! pkg = Some p ->
  triple (like s0) (createPackageRevisionInternal k pkg) (λ res s,
    client s = client s0 /\
    (packages s = packages s0 \/ packages s = alter (prepared (now_op k)) pkg (packages s0)) /\
    match res with
    | Ok p' => Spec p' = Spec (prepared (now_op k) p) /\
        forall name, name <> Name (pr_ObjectMeta (prepared (now_op k) p)) ->
        objects (world s) packagerevisions !! name = objects (world s0) packagerevisions !! name
    | Err e => answered (Err e : result PorchError unit) -> forall g, objects (world s) g = objects (world s0) g
    end).
Proof.
  intros Hpk. unfold createPackageRevisionInternal.
  eapply triple_bind; [apply limit_spec | intros [] | intros e s [Hc Hp Ho]; split; [done |]; split; [by left | done]].
  intros s s' res [Hc Hp Ho] E. unfold api, call, gets, modify, mbind, M_bind in E. cbn in E.
  rewrite Hp, list_lookup_alter_eq, Hpk in E. cbn in E.
  destruct (package_to (prepared (now_op k) p)) as [u |] eqn:Hu; cbn in E;
    [| injection E as <- <-; cbn; split; [done |]; split; [by right | done]].
  pose proof (package_to_name _ _ Hu) as En.
  destruct (api_Create _ _ _) as [w [u' | e]] eqn:Ec; cbn in E.
  - apply api_Create_ok in Ec as ([_ Ha] & _ & Hw). destruct (Ha _ Hu) as (p' & Hp' & Esp). rewrite Hp' in E.
    injection E as <- <-. cbn. split; [done |]. split; [by right |]. split; [done |].
    intros name Hne. rewrite Hw. unfold put. rewrite decide_True, En by done. by rewrite lookup_insert_ne, Ho.
  - injection E as <- <-. cbn. split; [done |]. split; [by right |]. intros Ha g.
    apply api_Create_err in Ec as [-> | Hw]; [done |]. by rewrite Hw, Ho.
Qed.

Lemma prepared_names now p : prs_PackageName (Spec (prepared now p)) = prs_PackageName (Spec p) /\
  prs_Revision (Spec (prepared now p)) = prs_Revision (Spec p) /\
  Name (pr_ObjectMeta (prepared now p)) =
    if String.eqb (Name (pr_ObjectMeta p)) "" then resourceName (prs_PackageName (Spec p)) (prs_Revision (Spec p))
    else Name (pr_ObjectMeta p).
Proof. unfold prepared. by destruct (String.eqb (Lifecycle _) ""); destruct (String.eqb (Name _) ""). Qed.

(** The check of the object a caller has made, and what follows it. *)
Lemma check_spec {B} s p (k : nat -> M B) :
  Coherent used s ->
  (forall s1, s1 = with_packages (packages s ++ [p]) s -> triple (like s1) (k (length (packages s))) coherent) ->
  triple (eq s) (pkg ← newPackage p; pkg ← checkPackage (Some pkg); k pkg) coherent.
Proof.
  intros HC Hk ? s' res <- E. unfold mbind, M_bind in E. cbn [newPackage] in E. unfold checkPackage in E.
  destruct (validatePackageRevision _); [| injection E as <- <-; intros _; by apply Coherent_new].
  by eapply (Hk _ eq_refl).
Qed.

Lemma create_coherent k p s : Coherent used s -> legal used (OpCreate k p) ->
  triple (eq s) (runOp (OpCreate k p)) coherent.
Proof.
  intros HC [Hu Hn].
  enough (triple (eq s) (pkg ← newPackage p; CreatePackageRevision k (Some pkg)) coherent) as Ht.
  { intros s0 s' res Hs E Ha. destruct (((pkg ← newPackage p; CreatePackageRevision k (Some pkg)) : M nat) s0)
      as [s2 r2] eqn:E2.
    cbn [runOp] in E. unfold mbind, M_bind in E, E2. cbn [newPackage] in E, E2. rewrite E2 in E.
    destruct r2; injection E as <- <-; by eapply Ht. }
  apply (check_spec s p (λ pkg, created ← Execute (createPackageRevisionInternal k pkg);
    dropPackage created;; newPackage created)); [done |]. intros s1 ->.
  apply (drop_spec s _ _ (λ a, packageKey (prs_PackageName (Spec a)) (prs_Revision (Spec a))) newPackage
    (prs_PackageName (Spec p)) (prs_Revision (Spec p))); try done; [by eexists | | intros; apply newPackage_coherent].
  destruct (prepared_names (now_op k) p) as (E1 & E2 & E3).
  eapply triple_conseq; [apply (create_spec (with_packages (packages s ++ [p]) s) k (length (packages s)) p); cbn; by rewrite lookup_app_r, Nat.sub_diag | done |].
  cbn. intros res s2 (Hc & Hp & Hres). split; [done |]. split.
  { destruct Hp as [-> | ->]; [by eexists |]. rewrite alter_app_r_alt, Nat.sub_diag by done. by eexists. }
  destruct res as [p' | e]; [| done]. destruct Hres as [Esp Ho]. rewrite Esp, E1, E2. split; [done |].
  intros name Hne. apply Ho. rewrite E3. destruct (String.eqb_spec (Name (pr_ObjectMeta p)) ""); [done |].
  destruct Hn as [? | ->]; done.
Qed.

Lemma update_coherent p s : Coherent used s -> legal used (OpUpdate p) ->
  triple (eq s) (runOp (OpUpdate p)) coherent.
Proof.
  intros HC [Hu Hn].
  enough (triple (eq s) (pkg ← newPackage p; UpdatePackageRevision (Some pkg)) coherent) as Ht.
  { intros s0 s' res Hs E Ha. destruct (((pkg ← newPackage p; UpdatePackageRevision (Some pkg)) : M nat) s0)
      as [s2 r2] eqn:E2.
    cbn [runOp] in E. unfold mbind, M_bind in E, E2. cbn [newPackage] in E, E2. rewrite E2 in E.
    destruct r2; injection E as <- <-; by eapply Ht. }
  apply (check_spec s p (λ pkg, obj ← gets (λ s, packages s !! pkg); obj ← from_option_or ConvertFailed obj;
    updated ← Execute (updatePackageRevisionInternal obj); dropPackage updated;; newPackage updated)); [done |].
  intros s1 ->. intros s2 s' res Hs E. unfold mbind at 1 2, M_bind at 1 2, gets in E.
  rewrite (like_packages _ _ Hs) in E. cbn [packages with_packages] in E.
  rewrite lookup_app_r, Nat.sub_diag in E by done. cbn [from_option_or lookup list_lookup mret M_ret] in E.
  revert s2 s' res Hs E. fold (triple (like (with_packages (packages s ++ [p]) s))
    (updated ← Execute (updatePackageRevisionInternal p); dropPackage updated;; newPackage updated) coherent).
  apply (drop_spec s _ _ (λ a, packageKey (prs_PackageName (Spec a)) (prs_Revision (Spec a))) newPackage
    (prs_PackageName (Spec p)) (prs_Revision (Spec p))); try done; [by eexists | | intros; apply newPackage_coherent].
  eapply triple_conseq; [apply updatePackageRevisionInternal_spec | done |].
  intros res s2 (Hc & Hp & Hres). split; [done |]. split; [rewrite Hp; by eexists |].
  destruct res as [p' | e].
  - destruct Hres as (Esp & _ & u' & _ & _ & _ & Hw). rewrite Esp. split; [done |]. intros name Hne.
    rewrite Hw. unfold put. rewrite decide_True by done. rewrite lookup_insert_ne; [done |]. by rewrite Hn.
  - destruct Hres as [[_ _ Ho] | (-> & _)]; [by intros _ | done].
Qed.

Lemma review_coherent k rv s : Coherent used s -> legal used (OpReview k rv) -> triple (like s) (review k rv) coherent.
Proof.
  intros HC Hu.
  assert (forall (m : M unit) n r, used n r -> triple (like s) m (λ res s', client s' = client s /\
      packages s `prefix_of` packages s' /\
      match res with
      | Ok a => packageKey n r = packageKey n r /\ forall name, name <> resourceName n r ->
          objects (world s') packagerevisions !! name = objects (world s) packagerevisions !! name
      | Err e => answered (Err e : result PorchError unit) -> forall g, objects (world s') g = objects (world s) g
      end) -> triple (like s) (Execute m;; dropCache (packageKey n r)) coherent) as Hdrop.
  { intros m n r Hnr Hm s0 s' res Hs E. assert (triple (like s) (Execute m ≫= λ _, dropCache (packageKey n r);; mret tt) coherent)
      as Ht by (apply (drop_spec s s m (λ _, packageKey n r) (λ _, mret tt) n r); try done;
                intros _; by apply triple_ret).
    apply (Ht s0 s' res Hs). revert E. unfold mbind, M_bind. destruct (Execute m s0) as [s1 [a | e]]; [| done].
    intros E. by injection E as <- <-. }
  destruct rv as [n r | n r | n r reason]; apply Hdrop; try exact Hu.
  - by apply (reviewed_frame s n r PackageRevisionLifecycleDraft (λ pkg, SetCondition _ (set_Lifecycle _ pkg))).
  - by apply (reviewed_frame s n r PackageRevisionLifecycleProposed
      (λ pkg, SetCondition _ (set_Status (set_PublishTime (Some (now_op k)) (Status (set_Lifecycle _ pkg))) (set_Lifecycle _ pkg)))).
  - by apply (reviewed_frame s n r PackageRevisionLifecycleProposed (λ pkg, SetCondition _ (set_Lifecycle _ pkg))).
Qed.

Lemma runOp_coherent op s s' res :
  Coherent used s -> legal used op -> runOp op s = (s', res) -> answered res -> Coherent used s'.
Proof.
  intros HC Hl E Ha. destruct op as [k n r | k p | p | k rv | n r | now].
  - cbn [runOp] in E. unfold mbind, M_bind in E. destruct (GetPackageRevision k n r s) as [s1 r1] eqn:Eg.
    apply (get_coherent k n r s HC Hl s s1 r1 (like_refl s)) in Eg as [HC' _]. by destruct r1; injection E as <- <-.
  - by apply (create_coherent k p s HC Hl s s' res eq_refl E).
  - by apply (update_coherent p s HC Hl s s' res eq_refl E).
  - by apply (review_coherent k rv s HC Hl s s' res (like_refl s) E).
  - assert (triple (like s) (Execute (deletePackageRevisionInternal n r) ≫= λ _, dropCache (packageKey n r);; mret tt) coherent)
      as Ht by (apply (drop_spec s s _ (λ _, packageKey n r) (λ _, mret tt) n r); try done;
                [apply delete_spec | intros _; by apply triple_ret]).
    apply (Ht s s' res (like_refl s)); [| done]. revert E. cbn [runOp]. unfold DeletePackageRevision, mbind, M_bind.
    destruct (Execute _ s) as [s1 [a | e]]; [| done]. intros E. by injection E as <- <-.
  - injection E as <- <-. apply Coherent_fewer; [| done]. intros c key e.
    cbn. rewrite map_lookup_filter_Some. by intros [].
Qed.

End coherence.

(** ** Properties *)

(** A review through the client (propose, approve, reject) moves package
    revisions along the documented lifecycle only: whatever the server, the
    limiter and the breaker answer, no object appears or disappears, and one
    that has changed has moved along an edge of [CanTransitionTo]. *)
Theorem review_follows_table k op s s' res : review k op s = (s', res) -> moved s s'.
Proof. apply review_moved. Qed.

Definition opStep (used : string -> string -> Prop) (s s' : St) : Prop :=
  exists op res, legal used op /\ runOp op s = (s', res) /\ answered res.

Definition emptyCache (s : St) : Prop := forall c, cache (client s) = Some c -> entries c = ∅.


End logic.

(** The cache never holds more than its configured number of entries (one
    if that is not positive): under any use of it, whatever the orders in which
    its map is ranged over. *)
Theorem cache_bounded CacheTTL CacheSize c :
  rtc cacheStep (newCache CacheTTL CacheSize) c ->
  Z.of_nat (size (entries c)) <= Z.max 1 (maxSize c) /\
  maxSize c = (if CacheSize =? 0 then 1000 else CacheSize).
Proof.
  intros Hr. apply (rtc_ind_r (λ c, bounded c /\ maxSize c = if CacheSize =? 0 then 1000 else CacheSize)
    (newCache CacheTTL CacheSize)) in Hr as [[_ Hb] Hm]; [done | |].
  - split; [| done]. split; [apply lookup_empty | cbn; rewrite map_size_empty; lia].
  - intros c1 c2 _ H [Hb Hm]. split; [by eapply bounded_step |].
    by rewrite (proj1 (cacheStep_maxSize _ _ H)).
Qed.

(** ** A server in memory *)

#[local] Instance plainKube : Kube := {| ObjectMetaRest := Z |}.

(** The object with another name, and with another resource version. *)
Definition named (n : string) (p : PackageRevision) : PackageRevision :=
  set_ObjectMeta (mkObjectMeta n (CreationTimestamp (pr_ObjectMeta p)) (om_rest (pr_ObjectMeta p))) p.
Definition versioned (v : Z) (p : PackageRevision) : PackageRevision :=
  set_ObjectMeta (mkObjectMeta (Name (pr_ObjectMeta p)) (CreationTimestamp (pr_ObjectMeta p)) v) p.

(** It keeps package revisions by name, refuses an update made from another
    version than the current one, and always has room. *)
#[local] Instance memory : Porch := {|
  World := gmap string PackageRevision;
  Unstructured := PackageRevision;
  UnstructuredList := list PackageRevision;
  Wait := λ w, (w, true);
  beforeRequest := λ w, (w, true);
  afterRequest := λ _ w, w;
  api_Get := λ g n w, (w,
    match g, w !! n with
    | packagerevisions, Some p => Ok (named n p)
    | _, _ => Err ApiNotFound
    end);
  api_List := λ g _ _ w, (w,
    match g with
    | packagerevisions => Ok ((map_to_list w).*2)
    | repositories => Err ApiRefused
    end);
  api_Create := λ g p w,
    match g, w !! Name (pr_ObjectMeta p) with
    | packagerevisions, None => (<[Name (pr_ObjectMeta p) := versioned 1 p]> w, Ok (versioned 1 p))
    | _, _ => (w, Err ApiRefused)
    end;
  api_Update := λ g p w,
    match g, w !! Name (pr_ObjectMeta p) with
    | packagerevisions, Some old =>
        if om_rest (pr_ObjectMeta old) =? om_rest (pr_ObjectMeta p) then
          let p := versioned (om_rest (pr_ObjectMeta p) + 1) p in
          (<[Name (pr_ObjectMeta p) := p]> w, Ok p)
        else (w, Err ApiRefused)
    | _, _ => (w, Err ApiNotFound)
    end;
  api_Delete := λ g n w,
    match g, w !! n with
    | packagerevisions, Some _ => (delete n w, Ok tt)
    | _, _ => (w, Err ApiNotFound)
    end;
  package_to := Some;
  package_from := Some;
  packages_from := Some;
  repository_to := λ _, None;
  repository_from := λ _, None;
  repositories_from := λ _, None
|}.

Lemma named_own p : named (Name (pr_ObjectMeta p)) p = p.
Proof. by destruct p as [? [] ? ?]. Qed.

(** What the server holds under [n] is named [n]. *)
Definition held (w : gmap string PackageRevision) (g : GVR) : gmap string PackageRevision :=
  match g with
  | packagerevisions => map_imap (λ n p, Some (named n p)) w
  | repositories => ∅
  end.

Lemma held_lookup w n : held w packagerevisions !! n = named n <$> w !! n.
Proof. cbn. rewrite map_lookup_imap. by destruct (w !! n). Qed.

Lemma held_insert w p g : held (<[Name (pr_ObjectMeta p) := p]> w) g =
  put packagerevisions (Name (pr_ObjectMeta p)) p (held w) g.
Proof.
  unfold put. destruct g; [| done]. rewrite decide_True by done. apply map_eq. intros n.
  rewrite held_lookup, !lookup_insert, held_lookup. case_decide as E; [| done].
  cbn. by rewrite <- E, named_own.
Qed.

Lemma held_delete w n g : held (delete n w) g = remove packagerevisions n (held w) g.
Proof.
  unfold remove. destruct g; [| done]. rewrite decide_True by done. apply map_eq. intros k.
  rewrite held_lookup. destruct (decide (n = k)) as [-> | Hne]; [by rewrite !lookup_delete_eq |].
  by rewrite !lookup_delete_ne, held_lookup.
Qed.

#[local] Instance memoryLaws : PorchLaws.
Proof.
  refine {| objects := held : World -> _; object_name := λ u : PackageRevision, Name (pr_ObjectMeta u) |};
    try done.
  - intros w [] n u; [| done]. rewrite held_lookup. intros [p [_ ->]]%fmap_Some. done.
  - by intros p u [= <-].
  - by intros u p [= <-].
  - intros [] n w u; cbn; [| done]. destruct ((w : gmap _ _) !! n) as [p |] eqn:Hp; [| done]. intros [= <-].
    change (held w packagerevisions !! n = Some (named n p)). by rewrite held_lookup, Hp.
  - intros [] p w w' p'; cbn; [| done]. destruct (_ !! _) as [old |] eqn:Ho; [| done].
    destruct (_ =? _); [| done]. intros [= <- <-]. split; [| split].
    + split; [done |]. intros q [= ->]. by eexists.
    + change (is_Some (held w packagerevisions !! Name (pr_ObjectMeta p))). by rewrite held_lookup, Ho.
    + exact (held_insert w (versioned _ p)).
  - intros [] p w w' e; cbn; [| by intros [= <- _]; left]. destruct (_ !! _) as [old |]; [| by intros [= <- _]; left].
    destruct (_ =? _); [done |]. by intros [= <- _]; left.
  - intros [] p w w' p'; cbn; [| done]. destruct (_ !! _) as [old |] eqn:Ho; [done |].
    intros [= <- <-]. split; [| split].
    + split; [done |]. intros q [= ->]. by eexists.
    + change (held w packagerevisions !! Name (pr_ObjectMeta p) = None). by rewrite held_lookup, Ho.
    + exact (held_insert w (versioned _ p)).
  - intros [] p w w' e; cbn; [| by intros [= <- _]; right]. destruct (_ !! _); [| done].
    by intros [= <- _]; right.
  - intros [] n w w'; cbn; [| done]. destruct (_ !! _) eqn:Ho; [| done]. intros [= <-] g.
    exact (held_delete w n g).
  - intros [] n w w' e; cbn; [| by intros [= <- _]; right]. destruct (_ !! _); [done |].
    by intros [= <- _]; right.
Qed.

(** ** Witnesses *)

Lemma cache_bounded_witness : exists c, entries c !! "b" <> None /\
  Z.of_nat (size (entries c)) <= Z.max 1 (maxSize c) /\ maxSize c = 1.
Proof.
  exists (setCached 2 ["a"] "b" (CachedPackage 1) (setCached 1 [] "a" (CachedPackage 0) (newCache 0 1))).
  split; [by vm_compute |]. apply (cache_bounded 0 1).
  eapply rtc_l; [apply (step_set _ 1 [] "a" (CachedPackage 0)); [done | by vm_compute] |].
  eapply rtc_l; [apply (step_set _ 2 ["a"] "b" (CachedPackage 1)); [done | by vm_compute] |].
  apply rtc_refl.
Defined.

Definition draft : PackageRevision :=
  mkPackageRevision (mkTypeMeta "PackageRevision" "porch.kpt.dev/v1alpha1") (mkObjectMeta "nf-v1" 1 1)
    (mkPackageSpec "nf" "blueprints" "v1" PackageRevisionLifecycleDraft [] [] None None)
    (mkPackageStatus [] None [] None None 0 []).

(** A client with an empty cache and a server that holds [draft]. *)
Definition fresh : St :=
  mkSt (mkClient true (Some (newCache 0 0))) [] [] ({[ "nf-v1" := draft ]} : World).

Definition clock (t : Time) (keys : list string) : Draws := mkDraws t t t keys.

Lemma review_follows_table_witness :
  moved fresh (review (clock 5 []) (Propose "nf" "v1") fresh).1 /\
  (Lifecycle ∘ Spec) <$> (world (review (clock 5 []) (Propose "nf" "v1") fresh).1 : gmap string PackageRevision) !! "nf-v1"
    = Some PackageRevisionLifecycleProposed.
Proof.
  split; [| by vm_compute].
  by apply (review_follows_table (clock 5 []) (Propose "nf" "v1") fresh _ _ (surjective_pairing _)).
Defined.

(** The package is read, proposed, and read again. *)
Definition readOnce : St := (runOp (OpGet (clock 5 []) "nf" "v1") fresh).1.
Definition readTwice : St := (runOp (OpReview (clock 6 []) (Propose "nf" "v1")) readOnce).1.

Lemma read_run : (runOp (OpGet (clock 5 []) "nf" "v1") fresh).2 = Ok tt /\
  (runOp (OpReview (clock 6 []) (Propose "nf" "v1")) readOnce).2 = Ok tt /\
  (GetPackageRevision (clock 7 []) "nf" "v1" readTwice).2 = Ok 1%nat.
Proof. by vm_compute. Qed.

Lemma pair_snd {A B} (x : A * B) b : x.2 = b -> x = (x.1, b).
Proof. by destruct x; simpl; intros ->. Qed.


(** Two package revisions of one resource. *)
Example one_resource : resourceName "nf-core" "v1" = resourceName "nf" "core-v1".
Proof. reflexivity. Qed.
