(* ===== verification/GoSlice.v ===== *)
(** * GoSlice: slices that share their arrays

    Go's slices as the source uses them in its registries: a slice is the
    beginning of an array, [append] writes into the array while there is room
    and copies to a larger one when there is not, and
    [append(s[:i], s[i+1:]...)] shifts the array in place, under the eyes of
    everybody who still holds the longer slice.  Arrays live in a store; how
    much room a new array gets is up to the runtime, hence a parameter. *)

From S2P Require Import Prelude.

Section slices.
Context {A : Type}.

(** An array; a cell beyond what has been written is [None]. *)
Abbreviation Array := (list (option A)).
Abbreviation Arrays := (list Array).

(** The nil slice and the empty literal have no array. *)
Record Slice := mkSlice {
  array : option nat;
  len : nat
}.

Definition nilSlice : Slice := mkSlice None 0.

Definition cells (sl : Slice) (st : Arrays) : Array := default [] (array sl ≫= λ a, st !! a).

(** [s[i]] for an index within the slice. *)
Definition index (i : nat) (sl : Slice) (st : Arrays) : option A := mjoin (cells sl st !! i).

Definition contents (sl : Slice) (st : Arrays) : list A := omap id (take (len sl) (cells sl st)).

(** [append(s, x)]; a new array has [room] cells to spare. *)
Definition append (room : nat) (x : A) (sl : Slice) (st : Arrays) : Arrays * Slice :=
  match array sl with
  | Some a =>
      if (len sl <? length (cells sl st))%nat
      then (alter (insert (len sl) (Some x)) a st, mkSlice (Some a) (S (len sl)))
      else (st ++ [take (len sl) (cells sl st) ++ [Some x] ++ replicate room None],
            mkSlice (Some (length st)) (S (len sl)))
  | None => (st ++ [[Some x] ++ replicate room None], mkSlice (Some (length st)) 1)
  end.

(** [append(s[:i], s[i+1:]...)]: the cells behind [i] move down by one; the
    last one keeps what it had. *)
Definition shift (i n : nat) (l : Array) : Array := take i l ++ drop (S i) (take n l) ++ drop (n - 1) l.

Definition removeAt (i : nat) (sl : Slice) (st : Arrays) : Arrays * Slice :=
  match array sl with
  | Some a => (alter (shift i (len sl)) a st, mkSlice (Some a) (len sl - 1))
  | None => (st, sl)
  end.

(** The cells of the slice have been written. *)
Definition valid (sl : Slice) (st : Arrays) : Prop :=
  (len sl <= length (cells sl st))%nat /\ Forall is_Some (take (len sl) (cells sl st)) /\
  forall a, array sl = Some a -> (a < length st)%nat.

(** Slices of different arrays. *)
Definition apart (sl sl' : Slice) : Prop := forall a, array sl = Some a -> array sl' <> Some a.

Lemma valid_nil st : valid nilSlice st.
Proof. by repeat split. Qed.

Lemma contents_nil st : contents nilSlice st = [].
Proof. done. Qed.

Lemma omap_Some (l : list A) : omap id (Some <$> l) = l.
Proof. induction l as [| x l IH]; [done |]. csimpl. by rewrite IH. Qed.

(** A valid slice is a list. *)
Lemma valid_contents sl st : valid sl st -> take (len sl) (cells sl st) = Some <$> contents sl st.
Proof.
  intros (_ & Hs & _). unfold contents. induction Hs as [| o l [x ->] _ IH]; [done |]. csimpl. by rewrite <- IH.
Qed.

Lemma length_contents sl st : valid sl st -> length (contents sl st) = len sl.
Proof.
  intros Hv. pose proof (valid_contents _ _ Hv) as E. apply (f_equal length) in E.
  rewrite length_fmap, length_take in E. destruct Hv as (Hl & _). lia.
Qed.

Lemma index_contents i sl st : valid sl st -> (i < len sl)%nat -> index i sl st = contents sl st !! i.
Proof.
  intros Hv Hi. unfold index. rewrite <- (lookup_take_lt _ (len sl)) by done.
  rewrite (valid_contents _ _ Hv), list_lookup_fmap. by destruct (_ !! _).
Qed.

Lemma cells_lookup a n st l : st !! a = Some l -> cells (mkSlice (Some a) n) st = l.
Proof. intros Ha. unfold cells. simpl. by rewrite Ha. Qed.

(** From the cells to the list. *)
Lemma slice_intro sl st c l :
  cells sl st = c -> take (len sl) c = Some <$> l -> length l = len sl ->
  (forall a, array sl = Some a -> (a < length st)%nat) -> valid sl st /\ contents sl st = l.
Proof.
  intros <- E El Ha. split; [| unfold contents; by rewrite E, omap_Some]. split; [| split; [| done]].
  - apply (f_equal length) in E. rewrite length_fmap, length_take in E. lia.
  - rewrite E. apply Forall_fmap, Forall_true. intros x. by eexists.
Qed.

Lemma append_spec room x sl st st' sl' :
  append room x sl st = (st', sl') -> valid sl st ->
  valid sl' st' /\ contents sl' st' = contents sl st ++ [x].
Proof.
  intros E Hv. pose proof (valid_contents _ _ Hv) as Ec. pose proof (length_contents _ _ Hv) as Elen.
  destruct Hv as (Hl & _ & Ha). unfold append in E. destruct sl as [[a |] n]; cbn [array len] in *.
  - destruct (st !! a) as [l |] eqn:Hla; [| specialize (Ha a eq_refl); apply lookup_ge_None in Hla; lia].
    rewrite (cells_lookup a n st l Hla) in *.
    destruct (Nat.ltb_spec n (length l)); injection E as <- <-.
    + eapply slice_intro.
      * apply cells_lookup. by rewrite list_lookup_alter_eq, Hla.
      * cbn [len]. erewrite take_S_r by (apply list_lookup_insert_eq; lia).
        by rewrite take_insert_ge, fmap_app, Ec.
      * rewrite length_app, Elen. simpl. lia.
      * intros ? [= <-]. rewrite length_alter. by apply Ha.
    + eapply slice_intro.
      * apply cells_lookup. by rewrite lookup_app_r, Nat.sub_diag.
      * cbn [len]. rewrite take_app_ge, length_take by (rewrite length_take; lia).
        replace (S n - n `min` length l)%nat with 1%nat by lia. by rewrite fmap_app, <- Ec.
      * rewrite length_app, Elen. simpl. lia.
      * intros ? [= <-]. rewrite length_app. simpl. lia.
  - injection E as <- <-.
    assert (n = 0)%nat as -> by (unfold cells in Hl; simpl in Hl; lia).
    eapply slice_intro; [apply cells_lookup; by rewrite lookup_app_r, Nat.sub_diag | done | done |].
    intros ? [= <-]. rewrite length_app. simpl. lia.
Qed.

Lemma drop_take_last {B} (l : list B) n : (0 < n <= length l)%nat ->
  exists x, l !! (n - 1)%nat = Some x /\ drop (n - 1) l = x :: drop n l.
Proof.
  intros Hn. destruct (lookup_lt_is_Some_2 l (n - 1)) as [x Hx]; [lia |]. exists x. split; [done |].
  rewrite (drop_S l x (n - 1) Hx). f_equal. f_equal. lia.
Qed.

Lemma take_shift i n (l : Array) : (i < n <= length l)%nat ->
  take (n - 1) (shift i n l) = take i l ++ drop (S i) (take n l).
Proof.
  intros Hi. unfold shift. rewrite app_assoc. apply take_app_length'.
  rewrite length_app, length_take, length_drop, length_take. lia.
Qed.

Lemma delete_take_drop {B} (l : list B) i : (i < length l)%nat -> delete i l = take i l ++ drop (S i) l.
Proof. intros Hi. by rewrite delete_take_drop. Qed.

Lemma removeAt_spec i sl st st' sl' :
  removeAt i sl st = (st', sl') -> valid sl st -> (i < len sl)%nat ->
  valid sl' st' /\ contents sl' st' = delete i (contents sl st).
Proof.
  intros E Hv Hi. pose proof (valid_contents _ _ Hv) as Ec. pose proof (length_contents _ _ Hv) as Elen.
  destruct Hv as (Hl & _ & Ha). unfold removeAt in E. destruct sl as [[a |] n]; cbn [array len] in *;
    [| unfold cells in Hl; simpl in Hl; lia].
  destruct (st !! a) as [l |] eqn:Hla; [| specialize (Ha a eq_refl); apply lookup_ge_None in Hla; lia].
  rewrite (cells_lookup a n st l Hla) in *. injection E as <- <-.
  eapply slice_intro.
  - apply cells_lookup. by rewrite list_lookup_alter_eq, Hla.
  - cbn [len]. rewrite take_shift by lia. rewrite delete_take_drop by lia.
    rewrite fmap_app, fmap_take, fmap_drop, <- Ec. f_equal. by rewrite take_take, Nat.min_l by lia.
  - cbn [len]. rewrite length_delete by (apply lookup_lt_is_Some_2; lia). lia.
  - intros ? [= <-]. rewrite length_alter. by apply Ha.
Qed.

(** What a holder of the old slice sees after the removal. *)
Lemma removeAt_old i sl st st' sl' x :
  removeAt i sl st = (st', sl') -> valid sl st -> (i < len sl)%nat -> last (contents sl st) = Some x ->
  contents sl st' = delete i (contents sl st) ++ [x].
Proof.
  intros E Hv Hi Hx. pose proof (valid_contents _ _ Hv) as Ec. pose proof (length_contents _ _ Hv) as Elen.
  destruct Hv as (Hl & _ & Ha). unfold removeAt in E. destruct sl as [[a |] n]; cbn [array len] in *;
    [| unfold cells in Hl; simpl in Hl; lia].
  destruct (st !! a) as [l |] eqn:Hla; [| specialize (Ha a eq_refl); apply lookup_ge_None in Hla; lia].
  rewrite (cells_lookup a n st l Hla) in *. injection E as <- _. unfold contents at 1. cbn [len].
  rewrite (cells_lookup a n _ (shift i n l)) by (by rewrite list_lookup_alter_eq, Hla).
  destruct (drop_take_last l n) as (y & Hy & Ed); [lia |].
  rewrite last_lookup, Elen in Hx. assert (y = Some x) as ->.
  { rewrite <- (lookup_take_lt _ n), Ec, list_lookup_fmap in Hy by lia.
    replace (pred n) with (n - 1)%nat in Hx by lia. rewrite Hx in Hy. by injection Hy as <-. }
  unfold shift. rewrite Ed, app_assoc, take_app_ge by (rewrite length_app, length_take, length_drop, length_take; lia).
  rewrite length_app, length_take, length_drop, length_take.
  replace (n - (i `min` length l + (n `min` length l - S i)))%nat with 1%nat by lia. cbn [take].
  rewrite delete_take_drop by lia.
  replace (take i l ++ drop (S i) (take n l)) with (Some <$> take i (contents (mkSlice (Some a) n) st) ++
    drop (S i) (contents (mkSlice (Some a) n) st))
    by (rewrite fmap_app, fmap_take, fmap_drop, <- Ec, take_take, Nat.min_l by lia; done).
  etransitivity; [| apply omap_Some]. by rewrite take_0, !fmap_app.
Qed.

(** Slices of other arrays are not touched. *)
Lemma append_apart room x sl st st' sl' sl2 :
  append room x sl st = (st', sl') -> apart sl sl2 -> valid sl2 st ->
  valid sl2 st' /\ contents sl2 st' = contents sl2 st /\ apart sl' sl2.
Proof.
  intros E Hap Hv. assert (cells sl2 st' = cells sl2 st /\ (length st <= length st')%nat /\ apart sl' sl2)
    as (Ec & Hlen & Hap').
  { destruct Hv as (_ & _ & Hv2). destruct sl2 as [[b |] n2]; cbn [array] in *;
      [| by (split; [done |]; split; [| done]; unfold append in E; repeat case_match; simplify_eq;
             rewrite ?length_alter, ?length_app; simpl; lia)].
    specialize (Hv2 b eq_refl). unfold append in E. destruct sl as [[a |] n]; cbn [array len] in *.
    - assert (a <> b) as Hne by (intros ->; by apply (Hap b)).
      destruct (_ <? _)%nat; injection E as <- <-; unfold cells; cbn.
      + rewrite list_lookup_alter_ne, length_alter by done. split; [done |]. split; [done | exact Hap].
      + rewrite lookup_app_l, length_app by done. split; [done |]. split; [simpl; lia |].
        intros ? [= <-] [= ->]. lia.
    - injection E as <- <-. unfold cells; cbn. rewrite lookup_app_l, length_app by done. split; [done |].
      split; [simpl; lia |]. intros ? [= <-] [= ->]. lia. }
  destruct Hv as (H1 & H2 & H3). unfold valid, contents. rewrite Ec. split; [| by split].
  split; [done |]. split; [done |]. intros a Ha. specialize (H3 a Ha). lia.
Qed.

(** A shorter slice of the same array does not see an append. *)
Lemma append_longer room x sl st st' sl' sl0 :
  append room x sl st = (st', sl') -> array sl0 = array sl -> (len sl0 <= len sl)%nat ->
  valid sl st -> valid sl0 st ->
  valid sl0 st' /\ contents sl0 st' = contents sl0 st /\
  (apart sl0 sl' \/ array sl' = array sl0 /\ (len sl0 <= len sl')%nat).
Proof.
  intros E Ear Hle Hv Hv0.
  assert (take (len sl0) (cells sl0 st') = take (len sl0) (cells sl0 st) /\
    (len sl0 <= length (cells sl0 st'))%nat /\ (length st <= length st')%nat /\
    (apart sl0 sl' \/ array sl' = array sl0 /\ (len sl0 <= len sl')%nat)) as (Et & Hl & Hlen & Hrel).
  { destruct Hv0 as (H1 & _ & H3), sl0 as [oa n0], sl as [[a |] n]; cbn [array len] in *; subst oa.
    - specialize (H3 a eq_refl). unfold append in E. cbn [array len] in E.
      destruct (Nat.ltb_spec n (length (cells (mkSlice (Some a) n) st))); injection E as <- <-; unfold cells in *; cbn in *.
      + rewrite list_lookup_alter_eq. destruct (lookup_lt_is_Some_2 _ _ H3) as [l Hl]. rewrite Hl in *. cbn in *.
        rewrite take_insert_ge, length_insert, length_alter by done. split; [done |]. split; [done |].
        split; [done |]. right. split; [done | lia].
      + rewrite lookup_app_l, length_app by done. split; [done |]. split; [done |]. split; [simpl; lia |].
        left. intros ? [= <-] [= E']. lia.
    - unfold append in E. cbn [array len] in E. injection E as <- <-. unfold cells in *; cbn in *.
      split; [done |]. split; [done |]. split; [rewrite length_app; simpl; lia |]. by left. }
  destruct Hv0 as (H1 & H2 & H3). unfold valid, contents. rewrite Et. split; [| by split].
  split; [done |]. split; [done |]. intros a Ha. specialize (H3 a Ha). lia.
Qed.

Lemma removeAt_apart i sl st st' sl' sl2 :
  removeAt i sl st = (st', sl') -> apart sl sl2 -> valid sl2 st ->
  valid sl2 st' /\ contents sl2 st' = contents sl2 st /\ apart sl' sl2.
Proof.
  intros E Hap Hv. assert (cells sl2 st' = cells sl2 st /\ length st = length st' /\ array sl' = array sl)
    as (Ec & Hlen & Ear).
  { unfold removeAt in E. destruct sl as [[a |] n]; cbn [array len] in *; injection E as <- <-; [| done].
    rewrite length_alter. split; [| done]. unfold cells. destruct sl2 as [[b |] n2]; [| done]. cbn.
    rewrite list_lookup_alter_ne; [done |]. intros ->. by apply (Hap b). }
  destruct Hv as (H1 & H2 & H3). unfold valid, contents. rewrite Ec, <- Hlen.
  split; [by repeat split |]. split; [done |]. intros a Ha. apply Hap. by rewrite <- Ear.
Qed.

(** [append(s, xs...)]: all of [xs] go into the array of [s], or none. *)
Definition appendAll (room : nat) (xs : list A) (sl : Slice) (st : Arrays) : Arrays * Slice :=
  let n := (len sl + length xs)%nat in
  let fresh := (st ++ [take (len sl) (cells sl st) ++ (Some <$> xs) ++ replicate room None], mkSlice (Some (length st)) n) in
  match array sl, xs with
  | None, [] => (st, sl)
  | None, _ => fresh
  | Some a, _ =>
      if (n <=? length (cells sl st))%nat
      then (alter (λ l, take (len sl) l ++ (Some <$> xs) ++ drop n l) a st, mkSlice (Some a) n)
      else fresh
  end.

Lemma appendAll_spec room xs sl st st' sl' :
  appendAll room xs sl st = (st', sl') -> valid sl st -> valid sl' st' /\ contents sl' st' = contents sl st ++ xs.
Proof.
  intros E Hv. pose proof (valid_contents _ _ Hv) as Ec. pose proof (length_contents _ _ Hv) as Elen.
  assert ((st ++ [take (len sl) (cells sl st) ++ (Some <$> xs) ++ replicate room None],
      mkSlice (Some (length st)) (len sl + length xs)) = (st', sl') -> valid sl' st' /\ contents sl' st' = contents sl st ++ xs) as Hfresh.
  { intros [= <- <-]. eapply slice_intro.
    - apply cells_lookup. by rewrite lookup_app_r, Nat.sub_diag.
    - cbn [len]. rewrite app_assoc, Ec, <- fmap_app. apply take_app_length'. by rewrite length_fmap, length_app, Elen.
    - by rewrite length_app, Elen.
    - intros ? [= <-]. rewrite length_app. simpl. lia. }
  unfold appendAll in E. destruct (array sl) as [a |] eqn:Ea; [| by destruct xs; [injection E as <- <-; rewrite app_nil_r | apply Hfresh]].
  destruct (Nat.leb_spec (len sl + length xs) (length (cells sl st))) as [Hle | Hgt]; [| by apply Hfresh].
  clear Hfresh. injection E as <- <-. destruct Hv as (_ & _ & Ha). specialize (Ha a Ea).
  destruct (lookup_lt_is_Some_2 st a Ha) as [l Hla]. assert (cells sl st = l) as El by (unfold cells; rewrite Ea; simpl; by rewrite Hla).
  rewrite El in *. eapply slice_intro.
  - apply cells_lookup. rewrite list_lookup_alter_eq, Hla. reflexivity.
  - cbn [len]. rewrite app_assoc, Ec, <- fmap_app. apply take_app_length'. by rewrite length_fmap, length_app, Elen.
  - by rewrite length_app, Elen.
  - intros ? [= <-]. by rewrite length_alter.
Qed.

End slices.

