(* ===== verification/Registry.v ===== *)
(** * Registry: the registries of pkg/nephio/porch/lifecycle_manager.go

    Event handlers, validation gates and hooks are kept in maps of slices, with
    the same code for each.  [Register] and [Unregister] are that code over
    [GoSlice], and [walkStep] is a loop over one of the slices: it has read
    the slice under the lock and goes through it without, while others register
    and unregister. *)

From S2P Require Import Prelude GoSlice.

Local Open Scope Z_scope.

(** ** Registries *)

Record Registry (A : Type) := mkRegistry {
  table : gmap string Slice;
  arrays : list (list (option A))
}.
Arguments mkRegistry {A} table arrays.
Arguments table {A} r.
Arguments arrays {A} r.

Inductive RegistryError := DuplicateID (id : string) | NothingRegistered (key : string) | IDNotFound (id : string).

Section registry.
Context {A : Type} (GetID : A -> string).

Definition noneRegistered : Registry A := mkRegistry ∅ [].

Definition slice (key : string) (r : Registry A) : Slice := default nilSlice (table r !! key).
Definition registered (key : string) (r : Registry A) : list A := contents (slice key r) (arrays r).

(** [RegisterEventHandler] and [RegisterValidationGate]: the sorting that
    follows is empty in the source. *)
Definition Register (room : nat) (key : string) (x : A) (r : Registry A)
  : Registry A * result RegistryError unit :=
  let sl := slice key r in
  let r := mkRegistry (<[key := sl]> (table r)) (arrays r) in
  if existsb (λ existing, String.eqb (GetID existing) (GetID x)) (registered key r)
  then (r, Err (DuplicateID (GetID x)))
  else
    let '(st, sl) := append room x sl (arrays r) in
    (mkRegistry (<[key := sl]> (table r)) st, Ok tt).

(** The position of the first item with an identifier. *)
Fixpoint position (id : string) (l : list A) : option nat :=
  match l with
  | [] => None
  | x :: l => if String.eqb (GetID x) id then Some 0%nat else S <$> position id l
  end.

(** [UnregisterEventHandler] and [UnregisterValidationGate]. *)
Definition Unregister (key id : string) (r : Registry A) : Registry A * result RegistryError unit :=
  match table r !! key with
  | None => (r, Err (NothingRegistered key))
  | Some sl =>
      match position id (contents sl (arrays r)) with
      | Some i =>
          let '(st, sl) := removeAt i sl (arrays r) in
          (mkRegistry (<[key := sl]> (table r)) st, Ok tt)
      | None => (r, Err (IDNotFound id))
      end
  end.

(** The slices of a registry are valid and share no array. *)
Definition Separate (r : Registry A) : Prop :=
  (forall key sl, table r !! key = Some sl -> valid sl (arrays r)) /\
  (forall key key' sl sl', key <> key' -> table r !! key = Some sl -> table r !! key' = Some sl' -> apart sl sl').

Lemma Separate_none : Separate noneRegistered.
Proof. split; cbn; [by intros * ?%lookup_empty_Some | by intros * _ ?%lookup_empty_Some]. Qed.

Lemma Separate_slice key r : Separate r -> valid (slice key r) (arrays r) /\
  (forall key' sl', key <> key' -> table r !! key' = Some sl' -> apart (slice key r) sl').
Proof.
  intros [Hv Ha]. unfold slice. destruct (table r !! key) as [sl |] eqn:E; simpl.
  - split; [by eapply Hv |]. intros key' sl' Hne E'. by eapply Ha.
  - split; [apply valid_nil |]. by intros key' sl' _ _ a.
Qed.

(** One slice is replaced by another that keeps apart from the rest. *)
Lemma Separate_insert key sl st r :
  Separate r -> valid sl st ->
  (forall key' sl', key <> key' -> table r !! key' = Some sl' ->
     valid sl' st /\ contents sl' st = contents sl' (arrays r) /\ apart sl sl') ->
  Separate (mkRegistry (<[key := sl]> (table r)) st) /\
  (forall key', registered key' (mkRegistry (<[key := sl]> (table r)) st) =
     if decide (key' = key) then contents sl st else registered key' r).
Proof.
  intros [Hv Ha] Hsl Hoth. split; [split |].
  - intros k s. cbn. rewrite lookup_insert_Some. intros [[<- <-] | [Hne Hs]]; [done |]. by apply (Hoth k s).
  - intros k k' s s' Hne. cbn. rewrite !lookup_insert_Some.
    intros [[<- <-] | [Hk Hs]] [[<- <-] | [Hk' Hs']]; [done | | | by apply (Ha k k')].
    { by destruct (Hoth k' s') as (_ & _ & ?). }
    destruct (Hoth k s) as (_ & _ & Hap); [done | done |]. intros a Ea Ea'. by apply (Hap a).
  - intros k. unfold registered, slice. cbn. case_decide as E; [by rewrite E, lookup_insert_eq |].
    rewrite lookup_insert_ne by done. destruct (table r !! k) as [s |] eqn:Hs; [| done].
    cbn. by apply (Hoth k s); [congruence |].
Qed.

(** Registration appends, unless the identifier is taken. *)
Lemma Register_spec room key x r r' res :
  Separate r -> Register room key x r = (r', res) ->
  Separate r' /\
  (res = Ok tt /\ Forall (λ y, GetID y <> GetID x) (registered key r) /\
   (forall k, registered k r' = if decide (k = key) then registered key r ++ [x] else registered k r) \/
   res = Err (DuplicateID (GetID x)) /\ (exists y, y ∈ registered key r /\ GetID y = GetID x) /\
   forall k, registered k r' = registered k r).
Proof.
  intros HS E. pose proof (Separate_slice key r HS) as [Hv Hap]. unfold Register in E.
  destruct (Separate_insert key (slice key r) (arrays r) r HS Hv) as [HS1 Hr1].
  { intros key' sl' Hne Hsl'. split; [by eapply HS | split; [done | by eapply Hap]]. }
  assert (registered key (mkRegistry (<[key := slice key r]> (table r)) (arrays r)) = registered key r) as Ek
    by (rewrite Hr1; by rewrite decide_True).
  rewrite Ek in E. destruct (existsb _ _) eqn:Hex.
  - injection E as <- <-. split; [done |]. right. split; [done |]. split.
    + apply existsb_exists in Hex as (y & Hy & Ey%String.eqb_eq). exists y. by split; [apply list_elem_of_In |].
    + intros k. rewrite Hr1. case_decide as Ed; [by rewrite Ed | done].
  - destruct (append room x (slice key r) (arrays r)) as [st sl] eqn:Ea.
    cbn [table arrays] in E. rewrite Ea in E. injection E as <- <-. rewrite insert_insert_eq.
    pose proof (append_spec _ _ _ _ _ _ Ea Hv) as [Hv' Hc].
    destruct (Separate_insert key sl st r HS Hv') as [HS2 Hr2].
    { intros key' sl' Hne Hsl'. destruct (append_apart _ _ _ _ _ _ sl' Ea) as (? & ? & ?); [by eapply Hap | by eapply HS | done]. }
    split; [done |]. left. split; [done |]. split.
    + apply Forall_forall. intros y Hy Ey. apply not_true_iff_false in Hex. apply Hex, existsb_exists.
      exists y. split; [by apply list_elem_of_In | by apply String.eqb_eq].
    + intros k. rewrite Hr2. by rewrite Hc.
Qed.

Lemma position_Some id l i : position id l = Some i -> (i < length l)%nat.
Proof.
  revert i. induction l as [| x l IH]; intros i; simpl; [done |].
  destruct (String.eqb _ _); [intros [= <-]; lia |]. intros (j & Hj & ->)%fmap_Some. specialize (IH j Hj). lia.
Qed.

(** Removal takes the first item with the identifier. *)
Lemma Unregister_spec key id r r' res :
  Separate r -> Unregister key id r = (r', res) ->
  Separate r' /\
  ((exists i, res = Ok tt /\ position id (registered key r) = Some i /\
     forall k, registered k r' = if decide (k = key) then delete i (registered key r) else registered k r) \/
   (res <> Ok tt /\ position id (registered key r) = None /\ r' = r)).
Proof.
  intros HS E. pose proof (Separate_slice key r HS) as [Hv Hap]. unfold Unregister in E.
  assert (registered key r = contents (slice key r) (arrays r)) as Ereg by done. rewrite Ereg. clear Ereg.
  unfold slice in Hv, Hap |- *. destruct (table r !! key) as [sl |] eqn:Hsl; cbn in E, Hv, Hap |- *.
  2: { injection E as <- <-. split; [done |]. by right. }
  destruct (position id (contents sl (arrays r))) as [i |] eqn:Hi.
  2: { injection E as <- <-. split; [done |]. by right. }
  destruct (removeAt i sl (arrays r)) as [st sl'] eqn:Er. injection E as <- <-.
  pose proof (position_Some _ _ _ Hi) as Hlt. rewrite (length_contents _ _ Hv) in Hlt.
  pose proof (removeAt_spec _ _ _ _ _ Er Hv Hlt) as [Hv' Hc].
  destruct (Separate_insert key sl' st r HS Hv') as [HS2 Hr2].
  { intros k s Hne Hs. destruct (removeAt_apart _ _ _ _ _ s Er) as (? & ? & ?); [by eapply Hap | by eapply HS | done]. }
  split; [done |]. left. exists i. split; [done |]. split; [done |]. intros k. rewrite Hr2, Hc. done.
Qed.

(** *** Registries as lists *)

Inductive RegOp :=
| Reg (room : nat) (key : string) (x : A)
| Unreg (key id : string).

Definition runReg1 (op : RegOp) (r : Registry A) : Registry A * bool :=
  match op with
  | Reg room key x => let '(r, res) := Register room key x r in (r, is_ok res)
  | Unreg key id => let '(r, res) := Unregister key id r in (r, is_ok res)
  end.

(** The specification: a list for every key. *)
Definition update_at (key : string) (l : list A) (f : string -> list A) (k : string) : list A :=
  if decide (k = key) then l else f k.

Definition runSpec1 (op : RegOp) (f : string -> list A) : (string -> list A) * bool :=
  match op with
  | Reg _ key x =>
      if existsb (λ y, String.eqb (GetID y) (GetID x)) (f key) then (f, false)
      else (update_at key (f key ++ [x]) f, true)
  | Unreg key id =>
      match position id (f key) with
      | Some i => (update_at key (delete i (f key)) f, true)
      | None => (f, false)
      end
  end.

Fixpoint runOps {S} (run1 : RegOp -> S -> S * bool) (ops : list RegOp) (s : S) : S * list bool :=
  match ops with
  | [] => (s, [])
  | op :: ops =>
      let '(s, b) := run1 op s in
      let '(s, bs) := runOps run1 ops s in (s, b :: bs)
  end.

Definition represents (r : Registry A) (f : string -> list A) : Prop :=
  Separate r /\ forall key, registered key r = f key /\ NoDup (GetID <$> f key).

Lemma existsb_id (l : list A) x :
  existsb (λ y, String.eqb (GetID y) (GetID x)) l = true <-> exists y, y ∈ l /\ GetID y = GetID x.
Proof.
  rewrite existsb_exists. setoid_rewrite <- list_elem_of_In. by setoid_rewrite String.eqb_eq.
Qed.

Lemma represents_step op r f : represents r f ->
  (runReg1 op r).2 = (runSpec1 op f).2 /\ represents (runReg1 op r).1 (runSpec1 op f).1.
Proof.
  intros [HS Hf]. destruct op as [room key x | key id]; cbn.
  - destruct (Register room key x r) as [r' res] eqn:E. destruct (Hf key) as [Ek Hnd].
    apply (Register_spec _ _ _ _ _ _ HS) in E as [HS' [(-> & Hne & Hr) | (-> & (y & Hy & Ey) & Hr)]]; rewrite Ek in *.
    + assert (existsb (λ y, String.eqb (GetID y) (GetID x)) (f key) = false) as ->.
      { apply not_true_iff_false. rewrite existsb_id. intros (y & Hy & Ey). rewrite Forall_forall in Hne. by apply (Hne y). }
      split; [done |]. split; [done |]. intros k. cbn. rewrite Hr. unfold update_at. case_decide as Ed; [| apply Hf].
      split; [done |]. rewrite fmap_app. apply NoDup_app. split; [done |]. split; [| apply NoDup_singleton].
      intros z Hz ->%list_elem_of_singleton. apply list_elem_of_fmap in Hz as (y & Ey & Hy).
      rewrite Forall_forall in Hne. by apply (Hne y).
    + rewrite (proj2 (existsb_id _ _)) by (by exists y). split; [done |]. split; [done |]. intros k. cbn. rewrite Hr. apply Hf.
  - destruct (Unregister key id r) as [r' res] eqn:E. destruct (Hf key) as [Ek Hnd].
    apply (Unregister_spec _ _ _ _ _ HS) in E as [HS' [(i & -> & Hi & Hr) | (Hres & Hi & ->)]]; rewrite Ek in *; rewrite Hi.
    + split; [done |]. split; [done |]. intros k. cbn. rewrite Hr. unfold update_at. case_decide as Ed; [| apply Hf].
      split; [done |]. eapply sublist_NoDup; [exact Hnd |]. rewrite list_fmap_delete. apply sublist_delete.
    + split; [by destruct res as [[] |] |]. done.
Qed.

Lemma represents_ops ops :
  (runOps runReg1 ops noneRegistered).2 = (runOps runSpec1 ops (λ _, [])).2 /\
  represents (runOps runReg1 ops noneRegistered).1 (runOps runSpec1 ops (λ _, [])).1.
Proof.
  assert (represents noneRegistered (λ _, [])) as H0.
  { split; [apply Separate_none |]. intros key. split; [done | constructor]. }
  revert H0. generalize noneRegistered (λ _ : string, [] : list A).
  induction ops as [| op ops IH]; intros r f H0; cbn [runOps]; [done |].
  destruct (represents_step op r f H0) as [Eb H1].
  destruct (runReg1 op r) as [r1 b1], (runSpec1 op f) as [f1 b2]. cbn in Eb, H1.
  destruct (IH r1 f1 H1) as [Ebs Hk].
  destruct (runOps runReg1 ops r1), (runOps runSpec1 ops f1). cbn in *. by subst.
Qed.

(** *** Loops over a registry *)

(** A loop has read the slice of its key and goes through its cells, without
    the lock. *)
Record Walk := mkWalk {
  over : Slice;
  next : nat;
  seen : list A
}.

Definition walk_from (key : string) (r : Registry A) : Walk := mkWalk (slice key r) 0 [].

Inductive walkStep : Registry A * Walk -> Registry A * Walk -> Prop :=
| walk_change op r w : walkStep (r, w) ((runReg1 op r).1, w)
| walk_next r w x : (next w < len (over w))%nat -> index (next w) (over w) (arrays r) = Some x ->
    walkStep (r, w) (r, mkWalk (over w) (S (next w)) (seen w ++ [x])).

Definition walked (w : Walk) : Prop := next w = len (over w).

(** A change that takes nothing from [key]. *)
Definition keeps (key : string) (op : RegOp) : Prop :=
  match op with
  | Reg _ _ _ => True
  | Unreg k _ => k <> key
  end.

Inductive quietStep (key : string) : Registry A * Walk -> Registry A * Walk -> Prop :=
| quiet_change op r w : keeps key op -> quietStep key (r, w) ((runReg1 op r).1, w)
| quiet_next r w x : (next w < len (over w))%nat -> index (next w) (over w) (arrays r) = Some x ->
    quietStep key (r, w) (r, mkWalk (over w) (S (next w)) (seen w ++ [x])).

(** The slice a loop has read keeps its contents [l]: what is registered shares
    no array with it, or is a longer slice of the same key. *)
Definition Kept (key : string) (l : list A) (sl : Slice) (r : Registry A) : Prop :=
  Separate r /\ valid sl (arrays r) /\ contents sl (arrays r) = l /\
  forall k sl', table r !! k = Some sl' ->
    apart sl sl' \/ (k = key /\ array sl' = array sl /\ (len sl <= len sl')%nat).

Lemma apart_sym sl sl' : apart sl sl' -> apart sl' sl.
Proof. intros H a Ha Ha'. by apply (H a). Qed.

Lemma Kept_slice key l sl r k : Kept key l sl r ->
  apart sl (slice k r) \/ (k = key /\ array (slice k r) = array sl /\ (len sl <= len (slice k r))%nat).
Proof.
  intros (_ & _ & _ & H). unfold slice. destruct (table r !! k) as [s |] eqn:Hs; [by apply H |].
  left. by intros a _.
Qed.

Lemma Kept_step key l sl op r : keeps key op -> Kept key l sl r -> Kept key l sl (runReg1 op r).1.
Proof.
  intros Hk HK. pose proof HK as (HS & Hv & Hc & Ht). destruct op as [room k x | k id]; cbn.
  - destruct (Register room k x r) as [r' res] eqn:E. cbn.
    pose proof (Register_spec _ _ _ _ _ _ HS E) as [HS' _]. split; [done |].
    pose proof (Kept_slice _ _ _ _ k HK) as Hrel. pose proof (Separate_slice k r HS) as [Hvk _].
    unfold Register in E. destruct (existsb _ _).
    { injection E as <- <-. cbn. split; [done |]. split; [done |]. intros k' s. rewrite lookup_insert_Some.
      intros [[<- <-] | [_ Hs]]; [exact Hrel | by apply Ht]. }
    cbn [table arrays] in E. destruct (append room x (slice k r) (arrays r)) as [st s'] eqn:Ea.
    injection E as <- <-. rewrite insert_insert_eq. cbn.
    assert (valid sl st /\ contents sl st = l /\
      (apart sl s' \/ (k = key /\ array s' = array sl /\ (len sl <= len s')%nat))) as (Hv' & Hc' & Hrel').
    { destruct Hrel as [Hap | (-> & Ear & Hle)].
      - destruct (append_apart _ _ _ _ _ _ sl Ea (apart_sym _ _ Hap) Hv) as (? & ? & ?).
        split; [done |]. split; [congruence |]. left. by apply apart_sym.
      - destruct (append_longer _ _ _ _ _ _ sl Ea (eq_sym Ear) Hle Hvk Hv) as (? & ? & Hor).
        split; [done |]. split; [congruence |]. destruct Hor as [? | [? ?]]; [by left | by right]. }
    split; [done |]. split; [done |]. intros k' s. rewrite lookup_insert_Some.
    intros [[<- <-] | [_ Hs]]; [done | by apply Ht].
  - destruct (Unregister k id r) as [r' res] eqn:E. cbn.
    pose proof (Unregister_spec _ _ _ _ _ HS E) as [HS' _]. split; [done |]. unfold Unregister in E.
    destruct (table r !! k) as [s |] eqn:Hs; [| by injection E as <- <-].
    destruct (position _ _) as [i |]; [| by injection E as <- <-].
    destruct (removeAt i s (arrays r)) as [st s'] eqn:Er. injection E as <- <-. cbn.
    destruct (Ht k s Hs) as [Hap | [-> _]]; [| done].
    destruct (removeAt_apart _ _ _ _ _ sl Er (apart_sym _ _ Hap) Hv) as (? & ? & ?).
    split; [done |]. split; [congruence |]. intros k' s0. rewrite lookup_insert_Some.
    intros [[<- <-] | [_ Hs0]]; [left; by apply apart_sym | by apply Ht].
Qed.

Lemma walk_Kept key r0 r w : Separate r0 -> rtc (quietStep key) (r0, walk_from key r0) (r, w) ->
  over w = slice key r0 /\ Kept key (registered key r0) (slice key r0) r /\
  seen w = take (next w) (registered key r0) /\ (next w <= len (slice key r0))%nat.
Proof.
  intros HS Hr. apply (rtc_ind_r (λ p, over p.2 = slice key r0 /\
    Kept key (registered key r0) (slice key r0) p.1 /\ seen p.2 = take (next p.2) (registered key r0) /\
    (next p.2 <= len (slice key r0))%nat) (r0, walk_from key r0)) in Hr; [done | |].
  - cbn. split; [done |]. split; [| split; [done | lia]]. pose proof (Separate_slice key r0 HS) as [Hv Hap].
    split; [done |]. split; [done |]. split; [done |]. intros k sl' Hs. destruct (decide (k = key)) as [-> | Hne].
    + right. unfold slice. rewrite Hs. cbn. done.
    + left. by apply (Hap k).
  - intros p q _ H (Eo & HK & Es & Hle). destruct H as [op r1 w1 Hk | r1 w1 x Hlt Hx]; cbn in *.
    + split; [done |]. split; [by apply Kept_step | done].
    + rewrite Eo in *. split; [done |]. split; [done |]. split; [| lia].
      destruct HK as (_ & Hv & Hc & _). rewrite (index_contents _ _ _ Hv Hlt), Hc in Hx.
      by rewrite Es, (take_S_r _ _ _ Hx).
Qed.

End registry.

Arguments mkWalk {A} over next seen.

(** ** Properties *)

Section properties.
Context {A : Type} (GetID : A -> string).

(** A registry is a list for each key, although its slices share arrays
    and shift them in place: whatever is registered and unregistered, in
    whatever order and however much room the runtime gives to new arrays, the
    same calls fail as on lists without duplicate identifiers, and every key
    has the same items in the same order. *)
Theorem registry_refines_lists ops :
  (runOps (runReg1 GetID) ops noneRegistered).2 = (runOps (runSpec1 GetID) ops (λ _, [])).2 /\
  forall key, registered key (runOps (runReg1 GetID) ops noneRegistered).1 =
    (runOps (runSpec1 GetID) ops (λ _, [])).1 key.
Proof. destruct (represents_ops GetID ops) as [E H]. split; [done |]. intros key. apply H. Qed.

(** A loop over a registry that nobody unregisters from under its key goes
    through exactly the items that were registered when it began, in their
    order, whatever is registered in the meantime under any key and
    unregistered under others. *)
Theorem undisturbed_walk key r0 r w :
  Separate r0 -> rtc (quietStep GetID key) (r0, walk_from key r0) (r, w) -> walked w ->
  seen w = registered key r0.
Proof.
  intros HS Hr Hw. pose proof (walk_Kept GetID key r0 r w HS Hr) as (Eo & _ & Es & _).
  rewrite Es. apply firstn_all2. unfold walked in Hw. rewrite Hw, Eo.
  unfold registered. by rewrite length_contents by apply (Separate_slice key r0 HS).
Qed.

End properties.

(** Three items; the first is unregistered while a loop is at the second: the
    loop misses the second and sees the third twice. *)
Definition three : Registry string :=
  (runOps (runReg1 id) [Reg 3 "k" "a"; Reg 3 "k" "b"; Reg 3 "k" "c"] noneRegistered).1.

Lemma unregister_hides_item : exists r w,
  rtc (walkStep id) (three, walk_from "k" three) (r, w) /\ walked w /\
  registered "k" three = ["a"; "b"; "c"] /\ seen w = ["a"; "c"; "c"].
Proof.
  eexists _, _. split; [| split; [| split; [by vm_compute |]]].
  - eapply rtc_l; [by apply walk_next with (x := "a"); [vm_compute; lia |] |].
    eapply rtc_l; [apply (walk_change id (Unreg "k" "a")) |].
    eapply rtc_l; [by apply walk_next with (x := "c"); [vm_compute; lia |] |].
    eapply rtc_l; [by apply walk_next with (x := "c"); [vm_compute; lia |] |]. apply rtc_refl.
  - by vm_compute.
  - done.
Qed.

(** A fourth item is registered while a loop is at the second. *)
Lemma undisturbed_walk_witness : exists r,
  registered "k" r = ["a"; "b"; "c"; "d"] /\
  seen (mkWalk (slice "k" three) 3 ["a"; "b"; "c"]) = registered "k" three.
Proof.
  exists (runReg1 id (Reg 0 "k" "d") three).1. split; [by vm_compute |].
  apply (undisturbed_walk id "k" three (runReg1 id (Reg 0 "k" "d") three).1).
  - apply (represents_ops id).
  - eapply rtc_l; [by apply quiet_next with (x := "a"); [vm_compute; lia |] |].
    eapply rtc_l; [by apply (quiet_change id "k" (Reg 0 "k" "d")) |].
    eapply rtc_l; [by apply quiet_next with (x := "b"); [vm_compute; lia |] |].
    eapply rtc_l; [by apply quiet_next with (x := "c"); [vm_compute; lia |] |]. apply rtc_refl.
  - by vm_compute.
Defined.
