(* ===== verification/Lifecycle.v ===== *)
(** * Lifecycle: pkg/nephio/porch/lifecycle_manager.go

    The manager of package lifecycles over [PorchClient]: its event handlers,
    validation gates and hooks (each a [Registry]), its locks, the transition
    of a package with everything it calls, and batches of transitions.  The
    first parts give the operations as functions; [lockStep] and [batchStep]
    are step relations for concurrent transitions.  Gates, hooks and handlers are
    values of records with the methods of their interfaces.  Rollback points,
    reports and histories are stubs in the source and stay out, except for what
    a transition calls. *)

From S2P Require Import Prelude GoStrings Registry PorchTypes PorchClient.
From stdpp Require Import pretty.
From Stdlib Require Import Ascii.

Local Open Scope Z_scope.

(** ** The manager *)

Abbreviation LifecycleEventType := string.
Definition LifecycleEventTransitionStarted : LifecycleEventType := "transition_started".
Definition LifecycleEventTransitionCompleted : LifecycleEventType := "transition_completed".
Definition LifecycleEventLockAcquired : LifecycleEventType := "lock_acquired".
Definition LifecycleEventLockReleased : LifecycleEventType := "lock_released".

Abbreviation HookAction := string.
Definition HookActionPreTransition : HookAction := "pre_transition".
Definition HookActionPostTransition : HookAction := "post_transition".
Definition HookActionOnFailure : HookAction := "on_failure".
Definition HookActionOnSuccess : HookAction := "on_success".

Definition getAllLifecycleStages : list PackageRevisionLifecycle :=
  [PackageRevisionLifecycleDraft; PackageRevisionLifecycleProposed; PackageRevisionLifecyclePublished;
   PackageRevisionLifecycleDeletable].

Record TransitionOptions := mkOptions {
  SkipValidation : bool;
  SkipHooks : bool;
  CreateRollback : bool;
  RollbackDescription : string;
  ForceTransition : bool;
  ApprovalBypass : bool;
  opt_Metadata : gmap string string;
  Timeout : Duration;
  DryRun : bool
}.

Definition zeroOptions : TransitionOptions := mkOptions false false false "" false false ∅ 0 false.

(** The fields that are set. *)
Record LifecycleEvent := mkEvent {
  event_ID : string;
  event_Type : LifecycleEventType;
  event_PackageRef : PackageReference;
  PreviousStage : PackageRevisionLifecycle;
  NewStage : PackageRevisionLifecycle;
  event_Timestamp : Time
}.

Record RollbackPoint := mkRollbackPoint {
  rp_ID : string;
  rp_PackageRef : PackageReference;
  CreatedAt : Time;
  rp_Description : string
}.

Record LifecycleLock := mkLock {
  lock_ID : string;
  lock_PackageRef : PackageReference;
  Operation : string;
  AcquiredBy : string;
  AcquiredAt : Time;
  ExpiresAt : Time;
  Renewable : bool
}.

Record HookResult := mkHookResult {
  HookID : string;
  hr_Success : bool;
  Error : string
}.

Record HookExecutionResult := mkHookExecution {
  her_Success : bool;
  her_Results : list HookResult
}.

Record LifecycleManagerConfig := mkConfig {
  EventQueueSize : Z;
  EventWorkers : Z;
  LockCleanupInterval : Duration;
  DefaultLockTimeout : Duration;
  EnableMetrics : bool
}.

Definition getDefaultLifecycleManagerConfig : LifecycleManagerConfig :=
  mkConfig 1000 5 (5 * Minute) (30 * Minute) true.

Record LifecycleManagerHealth := mkHealth {
  health_Status : string;
  health_EventWorkers : Z;
  ActiveLocks : Z;
  QueueSize : Z
}.

Record TransitionResult := mkResult {
  Success : bool;
  res_PreviousStage : PackageRevisionLifecycle;
  res_NewStage : PackageRevisionLifecycle;
  TransitionTime : Time;
  res_Duration : Duration;
  res_ValidationResults : list ValidationResult;
  HookResults : option HookExecutionResult;
  res_RollbackPoint : option RollbackPoint;
  res_Warnings : list string;
  updatedPackage : option nat
}.

Definition eta_result (r : TransitionResult) : TransitionResult :=
  mkResult (Success r) (res_PreviousStage r) (res_NewStage r) (TransitionTime r) (res_Duration r)
    (res_ValidationResults r) (HookResults r) (res_RollbackPoint r) (res_Warnings r) (updatedPackage r).

Definition set_Success : bool -> TransitionResult -> TransitionResult := ltac:(record_setter eta_result Success).
Definition set_Duration : Duration -> TransitionResult -> TransitionResult :=
  ltac:(record_setter eta_result res_Duration).
Definition set_ValidationResults : list ValidationResult -> TransitionResult -> TransitionResult :=
  ltac:(record_setter eta_result res_ValidationResults).
Definition set_HookResults : option HookExecutionResult -> TransitionResult -> TransitionResult :=
  ltac:(record_setter eta_result HookResults).
Definition set_RollbackPoint : option RollbackPoint -> TransitionResult -> TransitionResult :=
  ltac:(record_setter eta_result res_RollbackPoint).
Definition set_Warnings : list string -> TransitionResult -> TransitionResult :=
  ltac:(record_setter eta_result res_Warnings).
Definition set_updatedPackage : option nat -> TransitionResult -> TransitionResult :=
  ltac:(record_setter eta_result updatedPackage).

Definition warn (w : string) (r : TransitionResult) : TransitionResult :=
  set_Warnings (res_Warnings r ++ [w]) r.

Inductive TransitionError :=
| GetFailed (e : PorchError)
| InvalidTransition (previousStage targetStage : PackageRevisionLifecycle)
| AlreadyLocked (lockKey operation : string)
| LockNotFound (lockID : string)
| HooksFailed (e : string)
| ValidationFailed (targetStage : PackageRevisionLifecycle)
| UpdateFailed (e : PorchError).

Section manager.
Context `{Porch}.

(** Code that works on the client's state. *)
Definition Eff (A : Type) : Type := St -> St * A.

(** The error of a gate: that of the client, or a text. *)
Inductive Cause := ByPorch (e : PorchError) | ByText (text : string).

Record ValidationGate := mkGate {
  gate_ID : string;
  gate_Name : string;
  gate_Priority : Z;
  IsRequired : bool;
  Validate : PackageReference -> PackageRevisionLifecycle -> Eff (result Cause ValidationResult)
}.

Record IntegrationHook := mkHook {
  hook_ID : string;
  IsAsync : bool;
  HookExecute : PackageReference -> PackageRevisionLifecycle -> HookAction -> Eff (result string HookResult)
}.

Record EventHandler := mkHandler {
  handler_ID : string;
  handler_Priority : Z;
  CanHandle : LifecycleEventType -> bool;
  HandleEvent : LifecycleEvent -> Eff bool
}.

Record Manager := mkManager {
  config : LifecycleManagerConfig;
  eventHandlers : Registry EventHandler;
  eventQueue : list LifecycleEvent;
  validationGates : Registry ValidationGate;
  integrationHooks : gmap PackageRevisionLifecycle (Registry IntegrationHook);
  lifecycleLocks : gmap string LifecycleLock
}.

Definition eta_manager (m : Manager) : Manager :=
  mkManager (config m) (eventHandlers m) (eventQueue m) (validationGates m) (integrationHooks m)
    (lifecycleLocks m).

Definition with_handlers : Registry EventHandler -> Manager -> Manager :=
  ltac:(record_setter eta_manager eventHandlers).
Definition with_queue : list LifecycleEvent -> Manager -> Manager :=
  ltac:(record_setter eta_manager eventQueue).
Definition with_gates : Registry ValidationGate -> Manager -> Manager :=
  ltac:(record_setter eta_manager validationGates).
Definition with_hooks : gmap PackageRevisionLifecycle (Registry IntegrationHook) -> Manager -> Manager :=
  ltac:(record_setter eta_manager integrationHooks).
Definition with_locks : gmap string LifecycleLock -> Manager -> Manager :=
  ltac:(record_setter eta_manager lifecycleLocks).

(** *** Gates, hooks and handlers *)

Definition ContentValidationGate : ValidationGate :=
  mkGate "content-validation" "Content Validation Gate" 100 true (λ ref _ s,
    match ValidatePackage (PackageName ref) (Revision ref) s with
    | (s, Ok v) => (s, Ok v)
    | (s, Err e) => (s, Err (ByPorch e))
    end).

Definition ApprovalValidationGate : ValidationGate :=
  mkGate "approval-required" "Approval Required Gate" 200 true (λ _ _ s, (s, Ok (mkValidation true [] []))).

Definition RegisterValidationGate (room : nat) (stage : PackageRevisionLifecycle) (gate : ValidationGate)
    (m : Manager) : Manager * result RegistryError unit :=
  let '(r, res) := Register gate_ID room stage gate (validationGates m) in (with_gates r m, res).

Definition UnregisterValidationGate (stage : PackageRevisionLifecycle) (gateID : string) (m : Manager)
  : Manager * result RegistryError unit :=
  let '(r, res) := Unregister gate_ID stage gateID (validationGates m) in (with_gates r m, res).

Definition RegisterEventHandler (room : nat) (eventType : LifecycleEventType) (handler : EventHandler)
    (m : Manager) : Manager * result RegistryError unit :=
  let '(r, res) := Register handler_ID room eventType handler (eventHandlers m) in (with_handlers r m, res).

Definition UnregisterEventHandler (eventType : LifecycleEventType) (handlerID : string) (m : Manager)
  : Manager * result RegistryError unit :=
  let '(r, res) := Unregister handler_ID eventType handlerID (eventHandlers m) in (with_handlers r m, res).

Definition hookActions : list HookAction :=
  [HookActionPreTransition; HookActionPostTransition; HookActionOnFailure; HookActionOnSuccess].

Fixpoint registerActions (room : nat) (hook : IntegrationHook) (actions : list HookAction)
    (r : Registry IntegrationHook) : Registry IntegrationHook * result RegistryError unit :=
  match actions with
  | [] => (r, Ok tt)
  | action :: actions =>
      match Register hook_ID room action hook r with
      | (r, Ok _) => registerActions room hook actions r
      | (r, Err e) => (r, Err e)
      end
  end.

Definition RegisterIntegrationHook (room : nat) (stage : PackageRevisionLifecycle) (hook : IntegrationHook)
    (m : Manager) : Manager * result RegistryError unit :=
  let '(r, res) := registerActions room hook hookActions (default noneRegistered (integrationHooks m !! stage)) in
  (with_hooks (<[stage := r]> (integrationHooks m)) m, res).

(** The actions in the order in which the map of a stage is ranged over; the
    loop ends with the first that has the hook. *)
Fixpoint unregisterActions (order : list HookAction) (hookID : string) (r : Registry IntegrationHook)
  : option (Registry IntegrationHook) :=
  match order with
  | [] => None
  | action :: order =>
      match Unregister hook_ID action hookID r with
      | (r, Ok _) => Some r
      | (_, Err _) => unregisterActions order hookID r
      end
  end.

Definition UnregisterIntegrationHook (order : list HookAction) (stage : PackageRevisionLifecycle)
    (hookID : string) (m : Manager) : Manager * result RegistryError unit :=
  match integrationHooks m !! stage with
  | None => (m, Err (NothingRegistered stage))
  | Some r =>
      match unregisterActions order hookID r with
      | Some r => (with_hooks (<[stage := r]> (integrationHooks m)) m, Ok tt)
      | None => (m, Err (IDNotFound hookID))
      end
  end.

Definition registerDefaultValidationGates (room : nat) (m : Manager) : Manager :=
  let m := (RegisterValidationGate room PackageRevisionLifecycleProposed ContentValidationGate m).1 in
  (RegisterValidationGate room PackageRevisionLifecyclePublished ApprovalValidationGate m).1.

Definition NewLifecycleManager (room : nat) (c : option LifecycleManagerConfig) : Manager :=
  registerDefaultValidationGates room
    (mkManager (default getDefaultLifecycleManagerConfig c) noneRegistered [] noneRegistered
      (list_to_map ((λ stage, (stage, noneRegistered)) <$> getAllLifecycleStages)) ∅).

(** *** Events *)

(** A full queue refuses the event; no caller looks at the answer.  An event
    takes two instants, for its identifier and its timestamp. *)
Definition TriggerEvent (event : LifecycleEvent) (m : Manager) : Manager :=
  if Z.of_nat (length (eventQueue m)) <? EventQueueSize (config m)
  then with_queue (eventQueue m ++ [event]) m else m.

Definition trigger (eventType : LifecycleEventType) (ref : PackageReference)
    (previous new : PackageRevisionLifecycle) (now : Time * Time) (m : Manager) : Manager :=
  TriggerEvent (mkEvent ("event-" +:+ pretty (UnixNano now.1)) eventType ref previous new now.2) m.

(** [processEvent] on the handlers of the event. *)
Fixpoint runHandlers (event : LifecycleEvent) (handlers : list EventHandler) (s : St) : St :=
  match handlers with
  | [] => s
  | handler :: handlers =>
      let s := if CanHandle handler (event_Type event) then (HandleEvent handler event s).1 else s in
      runHandlers event handlers s
  end.

(** One round of an event worker. *)
Definition processEvent (m : Manager) (s : St) : option (Manager * St) :=
  match eventQueue m with
  | [] => None
  | event :: q => Some (with_queue q m, runHandlers event (registered (event_Type event) (eventHandlers m)) s)
  end.

Definition GetManagerHealth (m : Manager) : LifecycleManagerHealth :=
  let queueSize := Z.of_nat (length (eventQueue m)) in
  mkHealth
    (if 1000 <=? queueSize then "unhealthy" else if 800 <? queueSize then "degraded" else "healthy")
    (EventWorkers (config m)) (Z.of_nat (size (lifecycleLocks m))) queueSize.

(** *** Locks *)

Record LockDraws := mkLockDraws {
  now_check : Time;
  now_id : Time;
  now_acquired : Time;
  now_expires : Time;
  now_lockEvent : Time * Time
}.

Definition isLockExpired (now : Time) (lock : LifecycleLock) : bool := time_After now (ExpiresAt lock).

Definition lockID (lockKey : string) (now : Time) : string :=
  "lock-" +:+ lockKey +:+ "-" +:+ pretty (UnixNano now).

Definition newLock (k : LockDraws) (ref : PackageReference) (operation : string) (timeout : Duration)
  : LifecycleLock :=
  mkLock (lockID (GetPackageKey ref) (now_id k)) ref operation "lifecycle-manager" (now_acquired k)
    (time_Add (now_expires k) timeout) true.

Definition AcquireLifecycleLock (k : LockDraws) (ref : PackageReference) (operation : string)
    (timeout : Duration) (m : Manager) : Manager * result TransitionError LifecycleLock :=
  let lockKey := GetPackageKey ref in
  let acquire :=
    let lock := newLock k ref operation timeout in
    let m := with_locks (<[lockKey := lock]> (lifecycleLocks m)) m in
    (trigger LifecycleEventLockAcquired ref "" "" (now_lockEvent k) m, Ok lock) in
  match lifecycleLocks m !! lockKey with
  | Some existingLock =>
      if isLockExpired (now_check k) existingLock then acquire
      else (m, Err (AlreadyLocked lockKey (Operation existingLock)))
  | None => acquire
  end.

(** [order] is the order in which the map of locks is ranged over. *)
Definition ReleaseLifecycleLock (order : list string) (now : Time * Time) (id : string) (m : Manager)
  : Manager * result TransitionError unit :=
  match List.find (λ key, match lifecycleLocks m !! key with
                          | Some l => String.eqb (lock_ID l) id
                          | None => false
                          end) order with
  | Some lockKey =>
      match lifecycleLocks m !! lockKey with
      | Some lock =>
          let m := with_locks (delete lockKey (lifecycleLocks m)) m in
          (trigger LifecycleEventLockReleased (lock_PackageRef lock) "" "" now m, Ok tt)
      | None => (m, Err (LockNotFound id))
      end
  | None => (m, Err (LockNotFound id))
  end.

Definition ForceReleaseLock (order : list string) (now : Time * Time) (id : string) (m : Manager)
  : Manager * result TransitionError unit :=
  ReleaseLifecycleLock order now id m.

Definition cleanupExpiredLocks (now : Time) (m : Manager) : Manager :=
  with_locks (filter (λ kv, isLockExpired now kv.2 = false) (lifecycleLocks m)) m.

(** *** Validation and hooks *)

(** Every gate is asked.  The text of a gate's error leaves its cause out. *)
Definition judge (gate : ValidationGate) (answer : result Cause ValidationResult) (r : ValidationResult)
  : ValidationResult :=
  match answer with
  | Err _ =>
      mkValidation false
        (Errors r ++ [mkValidationError "" ("Gate " +:+ gate_Name gate +:+ " failed") "error" "" ""]) (Warnings r)
  | Ok g =>
      mkValidation (if negb (Valid g) && IsRequired gate then false else Valid r)
        (if Valid g then Errors r else Errors r ++ Errors g) (Warnings r ++ Warnings g)
  end.

Fixpoint askGates (ref : PackageReference) (targetStage : PackageRevisionLifecycle)
    (gates : list ValidationGate) (r : ValidationResult) : Eff ValidationResult := λ s,
  match gates with
  | [] => (s, r)
  | gate :: gates =>
      let '(s, answer) := Validate gate ref targetStage s in
      askGates ref targetStage gates (judge gate answer r) s
  end.

(** Its error is always nil. *)
Definition ValidateTransition (ref : PackageReference) (targetStage : PackageRevisionLifecycle) (m : Manager)
  : Eff ValidationResult :=
  askGates ref targetStage (registered targetStage (validationGates m)) (mkValidation true [] []).

Definition record (hook : IntegrationHook) (answer : result string HookResult) (r : HookExecutionResult)
  : HookExecutionResult :=
  let '(failed, hookResult) :=
    match answer with
    | Err e => (true, mkHookResult (hook_ID hook) false e)
    | Ok hr => (false, hr)
    end in
  mkHookExecution
    (if failed || (negb (hr_Success hookResult) && negb (IsAsync hook)) then false else her_Success r)
    (her_Results r ++ [hookResult]).

Fixpoint runHooks (ref : PackageReference) (stage : PackageRevisionLifecycle) (action : HookAction)
    (hooks : list IntegrationHook) (r : HookExecutionResult) : Eff HookExecutionResult := λ s,
  match hooks with
  | [] => (s, r)
  | hook :: hooks =>
      let '(s, answer) := HookExecute hook ref stage action s in
      runHooks ref stage action hooks (record hook answer r) s
  end.

Definition hooksOf (stage : PackageRevisionLifecycle) (action : HookAction) (m : Manager) : list IntegrationHook :=
  registered action (default noneRegistered (integrationHooks m !! stage)).

(** Its error is always nil. *)
Definition ExecuteHooks (ref : PackageReference) (stage : PackageRevisionLifecycle) (action : HookAction)
    (m : Manager) : Eff HookExecutionResult :=
  runHooks ref stage action (hooksOf stage action m) (mkHookExecution true []).

(** *** Transitions *)

Record TransitionDraws := mkTransitionDraws {
  now_start : Time;
  draws_get : Draws;
  draws_lock : LockDraws;
  now_started : Time * Time;
  now_rollback : Time * Time;
  now_end : Time;
  now_completed : Time * Time;
  lockOrder : list string;
  now_released : Time * Time
}.

Definition CreateRollbackPoint (now : Time * Time) (ref : PackageReference) (description : string)
  : RollbackPoint :=
  mkRollbackPoint ("rollback-" +:+ pretty (UnixNano now.1)) ref now.2 description.

Section transition.
Context (k : TransitionDraws) (ref : PackageReference) (targetStage : PackageRevisionLifecycle)
  (opts : TransitionOptions).

Definition stageOf (pkg : nat) (s : St) : PackageRevisionLifecycle :=
  default "" (Lifecycle ∘ Spec <$> packages s !! pkg).

(** How long the transition has taken at its end. *)
Definition timed (r : TransitionResult) : TransitionResult :=
  set_Duration (time_Sub (now_end k) (now_start k)) r.

Definition rollbackPoint (r : TransitionResult) : TransitionResult :=
  if CreateRollback opts
  then set_RollbackPoint (Some (CreateRollbackPoint (now_rollback k) ref (RollbackDescription opts))) r
  else r.

Definition preHooks (m : Manager) (r : TransitionResult) : Eff TransitionResult := λ s,
  if SkipHooks opts then (s, r)
  else
    let '(s, h) := ExecuteHooks ref targetStage HookActionPreTransition m s in
    (s, set_HookResults (Some h) r).

(** The flag tells whether the transition goes on. *)
Definition validation (m : Manager) (r : TransitionResult) : Eff (TransitionResult * bool) := λ s,
  if SkipValidation opts then (s, (r, true))
  else
    let '(s, v) := ValidateTransition ref targetStage m s in
    let r := set_ValidationResults [v] r in
    if Valid v then (s, (r, true))
    else
      let r := set_Success false r in
      (s, if ForceTransition opts then (warn "Validation failed but transition forced" r, true) else (r, false)).

(** The stage is written into the object of the client's cache. *)
Definition update (m : Manager) (pkg : nat) (r : TransitionResult)
  : Eff (TransitionResult * option TransitionError) := λ s,
  if DryRun opts then (s, (r, None))
  else
    let s := with_packages (alter (set_Lifecycle targetStage) pkg (packages s)) s in
    match UpdatePackageRevision (Some pkg) s with
    | (s, Ok p) => (s, (set_updatedPackage (Some p) r, None))
    | (s, Err e) =>
        let s := if SkipHooks opts then s else (ExecuteHooks ref targetStage HookActionOnFailure m s).1 in
        (s, (set_Success false r, Some (UpdateFailed e)))
    end.

Definition postHooks (m : Manager) (r : TransitionResult) : Eff TransitionResult := λ s,
  if SkipHooks opts || DryRun opts then (s, r)
  else
    let '(s, h) := ExecuteHooks ref targetStage HookActionPostTransition m s in
    let s := (ExecuteHooks ref targetStage HookActionOnSuccess m s).1 in
    (s, match HookResults r with
        | None => set_HookResults (Some h) r
        | Some _ => r
        end).

(** What happens under the lock. *)
Definition transitionLocked (pkg : nat) (previousStage : PackageRevisionLifecycle) (m : Manager) (s : St)
  : Manager * St * (option TransitionResult * option TransitionError) :=
  let m := trigger LifecycleEventTransitionStarted ref previousStage targetStage (now_started k) m in
  let r := mkResult true previousStage targetStage (now_start k) 0 [] None None [] None in
  let '(s, r) := preHooks m (rollbackPoint r) s in
  let '(s, (r, valid)) := validation m r s in
  if negb valid then (m, s, (Some (timed r), Some (ValidationFailed targetStage)))
  else
    match update m pkg r s with
    | (s, (r, Some e)) => (m, s, (Some (timed r), Some e))
    | (s, (r, None)) =>
        let '(s, r) := postHooks m r s in
        (trigger LifecycleEventTransitionCompleted ref previousStage targetStage (now_completed k) m, s,
         (Some (timed r), None))
    end.

End transition.

Definition performTransition (k : TransitionDraws) (ref : PackageReference)
    (targetStage : PackageRevisionLifecycle) (opts : option TransitionOptions) (m : Manager) (s : St)
  : Manager * St * (option TransitionResult * option TransitionError) :=
  let opts := default zeroOptions opts in
  match GetPackageRevision (draws_get k) (PackageName ref) (Revision ref) s with
  | (s, Err e) => (m, s, (None, Some (GetFailed e)))
  | (s, Ok pkg) =>
      let previousStage := stageOf pkg s in
      if String.eqb previousStage targetStage
      then (m, s, (Some (timed k (mkResult false previousStage targetStage zeroTime 0 [] None None [] None)),
                   Some (InvalidTransition previousStage targetStage)))
      else
        match AcquireLifecycleLock (draws_lock k) ref "transition" (Timeout opts) m with
        | (m, Err e) => (m, s, (None, Some e))
        | (m, Ok lock) =>
            let '(m, s, res) := transitionLocked k ref targetStage opts pkg previousStage m s in
            ((ReleaseLifecycleLock (lockOrder k) (now_released k) (lock_ID lock) m).1, s, res)
        end
  end.

Definition TransitionToProposed (k : TransitionDraws) (ref : PackageReference) :=
  performTransition k ref PackageRevisionLifecycleProposed.
Definition TransitionToPublished (k : TransitionDraws) (ref : PackageReference) :=
  performTransition k ref PackageRevisionLifecyclePublished.
Definition TransitionToDraft (k : TransitionDraws) (ref : PackageReference) :=
  performTransition k ref PackageRevisionLifecycleDraft.
Definition TransitionToDeletable (k : TransitionDraws) (ref : PackageReference) :=
  performTransition k ref PackageRevisionLifecycleDeletable.

End manager.

(** ** Reasoning about transitions *)

Section logic.
Context `{Porch} {L : PorchLaws}.

(** The server holds the same objects. *)
Definition unchanged (s s' : St) : Prop := forall g, objects (world s') g = objects (world s) g.

Lemma like_trans s1 s2 s3 : like s1 s2 -> like s2 s3 -> like s1 s3.
Proof.
  intros [Hc Hp Ho] [Hc' Hp' Ho']. split; [by rewrite Hc' | by rewrite Hp' |]. intros g. by rewrite Ho'.
Qed.

Lemma like_unchanged s s' : like s s' -> unchanged s s'.
Proof. by intros [_ _ Ho]. Qed.

(** Code that writes nothing: neither to the server nor to the client. *)
Definition calm {A} (e : Eff A) : Prop := forall s s' a, e s = (s', a) -> like s s'.

Definition quietGate (gate : ValidationGate) : Prop := forall ref stage, calm (Validate gate ref stage).
Definition quietHook (hook : IntegrationHook) : Prop :=
  forall ref stage action, calm (HookExecute hook ref stage action).

(** The gates and hooks of a stage write nothing. *)
Record quiet (stage : PackageRevisionLifecycle) (m : Manager) : Prop := {
  quiet_gates : Forall quietGate (registered stage (validationGates m));
  quiet_hooks action : Forall quietHook (hooksOf stage action m)
}.

Lemma askGates_calm ref stage gates r : Forall quietGate gates -> calm (askGates ref stage gates r).
Proof.
  intros Hg. revert r. induction Hg as [| gate gates Hq _ IH]; intros r s s' v; cbn; [by intros [= <- <-] |].
  destruct (Validate gate ref stage s) as [s1 a] eqn:Ev. intros E.
  eapply like_trans; [by eapply Hq | by eapply IH].
Qed.

Lemma runHooks_calm ref stage action hooks r : Forall quietHook hooks -> calm (runHooks ref stage action hooks r).
Proof.
  intros Hh. revert r. induction Hh as [| hook hooks Hq _ IH]; intros r s s' v; cbn; [by intros [= <- <-] |].
  destruct (HookExecute hook ref stage action s) as [s1 a] eqn:Ev. intros E.
  eapply like_trans; [by eapply Hq | by eapply IH].
Qed.

Lemma ValidateTransition_calm ref stage m : quiet stage m -> calm (ValidateTransition ref stage m).
Proof. intros Hq. apply askGates_calm, Hq. Qed.

Lemma ExecuteHooks_calm ref stage action m : quiet stage m -> calm (ExecuteHooks ref stage action m).
Proof. intros Hq. apply runHooks_calm, Hq. Qed.

(** Events and locks are out of the gates' and hooks' sight. *)
Lemma quiet_ext stage m m' : validationGates m' = validationGates m -> integrationHooks m' = integrationHooks m ->
  quiet stage m -> quiet stage m'.
Proof. intros Eg Eh [Hg Hh]. split; [by rewrite Eg |]. intros action. unfold hooksOf. rewrite Eh. apply Hh. Qed.

Lemma trigger_rest t ref previous new now m :
  validationGates (trigger t ref previous new now m) = validationGates m /\
  integrationHooks (trigger t ref previous new now m) = integrationHooks m /\
  lifecycleLocks (trigger t ref previous new now m) = lifecycleLocks m.
Proof. unfold trigger, TriggerEvent. by destruct (_ <? _). Qed.

Lemma quiet_trigger stage t ref previous new now m : quiet stage m -> quiet stage (trigger t ref previous new now m).
Proof. destruct (trigger_rest t ref previous new now m) as (Eg & Eh & _). by apply quiet_ext. Qed.

Lemma Acquire_rest kl ref op timeout m m' res : AcquireLifecycleLock kl ref op timeout m = (m', res) ->
  validationGates m' = validationGates m /\ integrationHooks m' = integrationHooks m.
Proof.
  assert (forall m0, validationGates (trigger LifecycleEventLockAcquired ref "" "" (now_lockEvent kl) m0) = validationGates m0 /\
    integrationHooks (trigger LifecycleEventLockAcquired ref "" "" (now_lockEvent kl) m0) = integrationHooks m0) as Ht
    by (intros m0; split; apply trigger_rest).
  unfold AcquireLifecycleLock. destruct (lifecycleLocks m !! _) as [l |];
    [destruct (isLockExpired _ l); [| by intros [= <- _]] |]; intros [= <- _];
    exact (Ht (with_locks _ m)).
Qed.

(** *** The gates that come with the manager *)

Lemma ValidatePackage_calm name revision : calm (ValidatePackage name revision).
Proof.
  intros s s' a E. refine (Execute_spec s (validatePackageInternal name revision) (λ _, like s) _
    (like_worldly s) (λ _ Hs, Hs) s s' a (like_refl s) E).
  unfold validatePackageInternal. eapply triple_bind; [apply limit_spec | | done].
  intros []. eapply triple_bind with (R := λ _, like s); [| intros [pkg | e]; by apply triple_ret | done].
  intros s0 s1 r Hs Ea. unfold attempt in Ea.
  destruct (getPackageRevisionInternal name revision s0) as [s2 r2] eqn:Eg. injection Ea as <- _.
  by apply (getPackageRevisionInternal_spec s name revision s0 s2 r2 Hs Eg).
Qed.

Lemma default_gates_quiet room c stage : quiet stage (NewLifecycleManager room c).
Proof.
  assert (forall gate, quietGate gate -> forall m, quiet stage m ->
    forall at_, Separate (validationGates m) -> 
    quiet stage (RegisterValidationGate room at_ gate m).1 /\
    Separate (validationGates (RegisterValidationGate room at_ gate m).1)) as Hreg.
  { intros gate Hg m [Hq Hh] at_ HS. unfold RegisterValidationGate.
    destruct (Register gate_ID room at_ gate (validationGates m)) as [r res] eqn:E.
    destruct (Register_spec _ _ _ _ _ _ _ HS E) as [HS' Hor]. split; [| done]. split; [| done]. cbn.
    destruct Hor as [(_ & _ & Hr) | (_ & _ & Hr)]; rewrite Hr; [| done].
    case_decide as Ed; [| done]. subst. apply Forall_app. split; [done | by constructor]. }
  assert (quietGate ContentValidationGate) as Hc.
  { intros ref st s s' a E. cbn in E.
    destruct (ValidatePackage (PackageName ref) (Revision ref) s) as [s1 r] eqn:Ev.
    assert (s1 = s') as <- by (by destruct r; injection E). by eapply ValidatePackage_calm. }
  assert (quietGate ApprovalValidationGate) as Ha by (by intros ref st s s' a [= <- _]).
  unfold NewLifecycleManager, registerDefaultValidationGates. cbn zeta.
  refine (let H1 := Hreg _ Hc _ _ PackageRevisionLifecycleProposed _ in proj1 (Hreg _ Ha _ (proj1 H1) _ (proj2 H1))).
  - split; [constructor |]. intros action. unfold hooksOf. cbn [integrationHooks].
    destruct (_ !! stage) as [r |] eqn:E; [| constructor].
    apply elem_of_list_to_map_2, list_elem_of_fmap in E as (st & [= _ ->] & _). constructor.
  - apply Separate_none.
Qed.

(** *** The client's part of a transition *)

Lemma get_spec kg n r s s' res : GetPackageRevision kg n r s = (s', res) ->
  unchanged s s' /\
  forall pkg c, res = Ok pkg -> cache (client s) = Some c -> exists c' e,
    cache (client s') = Some c' /\ entries c' !! packageKey n r = Some e /\ data e = CachedPackage pkg.
Proof.
  unfold GetPackageRevision, mbind at 1, M_bind at 1, lookupCache, gets.
  assert (forall s' res, (p ← Execute (getPackageRevisionInternal n r); pkg ← newPackage p;
    storeCache kg (packageKey n r) (CachedPackage pkg);; mret pkg) s = (s', res) -> unchanged s s' /\
    forall pkg c, res = Ok pkg -> cache (client s) = Some c -> exists c' e,
      cache (client s') = Some c' /\ entries c' !! packageKey n r = Some e /\ data e = CachedPackage pkg) as Hmiss.
  { intros s1 res1 E. unfold mbind at 1, M_bind at 1 in E.
    destruct (Execute (getPackageRevisionInternal n r) s) as [s2 r2] eqn:Ex.
    assert (like s s2) as Hs.
    { eapply (Execute_spec s _ (λ _, like s)); [| apply like_worldly | done | apply like_refl | exact Ex].
      eapply triple_conseq; [apply getPackageRevisionInternal_spec | done | by intros ? ? [? _]]. }
    destruct r2 as [p | e]; [| injection E as <- <-; split; [by apply like_unchanged | done]].
    injection E as <- <-. split; [exact (like_unchanged _ _ Hs) |].
    intros pkg c [= <-] Hc. cbn. rewrite (like_client _ _ Hs), Hc. eexists _, _. split; [done |].
    cbn. by rewrite lookup_insert_eq. }
  destruct (cache (client s) ≫= getCached (now_get kg) (packageKey n r)) as [[pkg | repo] |] eqn:Hg; [| by apply Hmiss ..].
  intros [= <- <-]. split; [done |]. intros ? c [= <-] Hc. rewrite Hc in Hg |- *. cbn in Hg. unfold getCached in Hg.
  destruct (entries c !! _) as [e |] eqn:He; [| done]. destruct (_ <? _); [done |]. injection Hg as Hd. by exists c, e.
Qed.

Lemma get_hit kg n r s c pkg : cache (client s) = Some c ->
  getCached (now_get kg) (packageKey n r) c = Some (CachedPackage pkg) -> GetPackageRevision kg n r s = (s, Ok pkg).
Proof. intros Hc Hg. unfold GetPackageRevision, lookupCache, gets, mbind, M_bind. by rewrite Hc; cbn; rewrite Hg. Qed.

Lemma update_spec pkg s s' res : UpdatePackageRevision (Some pkg) s = (s', res) ->
  match res with
  | Ok _ => exists p u, packages s !! pkg = Some p /\ wrote s s' p u
  | Err e => client s' = client s /\ packages s' = packages s /\ (unchanged s s' \/ e = ApiFailed ApiLost) /\
      (is_Some (packages s !! pkg) \/ e = InvalidRequest NilObject)
  end.
Proof.
  unfold UpdatePackageRevision, mbind at 1, M_bind at 1, checkPackage. cbn [mbind option_bind].
  destruct (packages s !! pkg) as [p |] eqn:Hp.
  2: { intros [= <- <-]. split; [done |]. split; [done |]. split; [by left | by right]. }
  destruct (validatePackageRevision (Some p)) as [[] | e].
  2: { intros [= <- <-]. split; [done |]. split; [done |]. split; [by left | left; by eexists]. }
  unfold gets, mbind at 1 2, M_bind at 1 2. rewrite Hp. cbn [from_option_or mret M_ret].
  unfold mbind at 1, M_bind at 1. destruct (Execute (updatePackageRevisionInternal p) s) as [s1 r1] eqn:Ex.
  assert (updated s p r1 s1) as (Hc & Hpk & Hu).
  { eapply (Execute_spec s _ (updated s p)); [apply updatePackageRevisionInternal_spec | | by intros; apply like_updated | apply like_refl | exact Ex].
    intros res2 s2 w Hw (Hc & Hp2 & Hr). split; [done |]. split; [done |]. destruct res2 as [p' | e].
    - destruct Hr as (Esp & Hex & u & Hf & Hy & Hn & Ho). split; [done |]. split; [done |]. exists u.
      split; [done |]. split; [done |]. split; [done |]. intros g. cbn. by rewrite Hw.
    - destruct Hr as [Hl | (-> & Hex & u & Hy & Hn & Ho)]; [left; by apply like_world |].
      right. split; [done |]. split; [done |]. exists u. split; [done |]. split; [done |]. intros g. cbn. by rewrite Hw. }
  destruct r1 as [p' | e]; intros [= <- <-].
  - destruct Hu as (_ & _ & u & _ & Hw). exists p, u. done.
  - split; [done |]. split; [done |]. split; [| left; by eexists].
    destruct Hu as [Hl | (-> & _)]; [left; by apply like_unchanged | by right].
Qed.

(** *** Under the lock *)

(** The fields that hooks and events have no part in. *)
Definition verdict (r : TransitionResult) :=
  (Success r, res_ValidationResults r, res_PreviousStage r, res_NewStage r).

Lemma like_wrote s0 s s' s1 p u : like s0 s -> wrote s s' p u -> like s' s1 -> wrote s0 s1 p u.
Proof.
  intros Hs (Hy & Hn & Ho) Hs'. split; [done |]. split; [done |]. intros g.
  rewrite (like_objects _ _ Hs'), Ho. unfold put. by rewrite !(like_objects _ _ Hs).
Qed.

Section locked.
Context (k : TransitionDraws) (ref : PackageReference) (target : PackageRevisionLifecycle) (opts : TransitionOptions).

Lemma preHooks_spec m r s s' r' : quiet target m -> preHooks ref target opts m r s = (s', r') ->
  like s s' /\ verdict r' = verdict r.
Proof.
  intros Hq. unfold preHooks. destruct (SkipHooks opts); [by intros [= <- <-] |].
  destruct (ExecuteHooks _ _ _ m s) as [s1 h] eqn:E. intros [= <- <-]. by apply ExecuteHooks_calm in E.
Qed.

Lemma postHooks_spec m r s s' r' : quiet target m -> postHooks ref target opts m r s = (s', r') ->
  like s s' /\ verdict r' = verdict r.
Proof.
  intros Hq. unfold postHooks. destruct (_ || _); [by intros [= <- <-] |].
  destruct (ExecuteHooks ref target HookActionPostTransition m s) as [s1 h] eqn:E.
  destruct (ExecuteHooks ref target HookActionOnSuccess m s1) as [s2 h2] eqn:E2. intros [= <- <-].
  apply ExecuteHooks_calm in E, E2; try done. split; [by eapply like_trans | by destruct (HookResults r)].
Qed.

Lemma validation_spec m r s s' r' (b : bool) : quiet target m -> Success r = true -> res_ValidationResults r = [] ->
  validation ref target opts m r s = (s', (r', b)) ->
  like s s' /\ res_PreviousStage r' = res_PreviousStage r /\ res_NewStage r' = res_NewStage r /\
  Success r' = forallb Valid (res_ValidationResults r') /\
  (Success r' = false -> b = ForceTransition opts) /\ (b = false -> Success r' = false).
Proof.
  intros Hq Hs Hv. unfold validation. destruct (SkipValidation opts); [by intros [= <- <- <-]; rewrite Hs, Hv |].
  destruct (ValidateTransition ref target m s) as [s1 v] eqn:E. apply ValidateTransition_calm in E; [| done].
  destruct (Valid v) eqn:Hval; [| destruct (ForceTransition opts) eqn:Hf]; intros [= <- <- <-];
    (split; [done |]); cbn; rewrite Hval; by rewrite ?Hs.
Qed.

Lemma updateStep_spec m pkg r s s' r' err : quiet target m -> update ref target opts m pkg r s = (s', (r', err)) ->
  match err with
  | None => verdict r' = verdict r /\
      if DryRun opts then like s s'
      else exists p u, packages s !! pkg = Some p /\ wrote s s' (set_Lifecycle target p) u
  | Some e => Success r' = false /\ res_PreviousStage r' = res_PreviousStage r /\ res_NewStage r' = res_NewStage r /\
      exists e', e = UpdateFailed e' /\ client s' = client s /\
        packages s' = alter (set_Lifecycle target) pkg (packages s) /\ (unchanged s s' \/ e' = ApiFailed ApiLost) /\
        (is_Some (packages s !! pkg) \/ e' = InvalidRequest NilObject)
  end.
Proof.
  intros Hq. unfold update. destruct (DryRun opts); [by intros [= <- <- <-] |].
  destruct (UpdatePackageRevision _ _) as [s1 [p | e]] eqn:Eu; apply update_spec in Eu.
  - intros [= <- <- <-]. split; [done |]. destruct Eu as (p1 & u & Hp & Hw). cbn in Hp.
    rewrite list_lookup_alter_eq in Hp. apply fmap_Some in Hp as (p0 & Hp0 & ->). by exists p0, u.
  - destruct Eu as (Hc & Hp & Hu & Hx). cbn [packages with_packages] in Hp, Hx.
    rewrite list_lookup_alter_eq, fmap_is_Some in Hx.
    assert (exists s2, (if SkipHooks opts then s1 else (ExecuteHooks ref target HookActionOnFailure m s1).1) = s2 /\ like s1 s2)
      as (s2 & -> & Hl).
    { eexists; split; [done |]. destruct (SkipHooks opts); [done |].
      destruct (ExecuteHooks ref target HookActionOnFailure m s1) as [s2 h] eqn:E. by apply ExecuteHooks_calm in E. }
    intros [= <- <- <-]. split; [done |]. split; [done |]. split; [done |]. exists e. split; [done |].
    rewrite (like_client _ _ Hl), (like_packages _ _ Hl). split; [done |]. split; [done |].
    split; [| done]. destruct Hu as [Hu | ?]; [left | by right]. intros g. by rewrite (like_objects _ _ Hl), Hu.
Qed.

Lemma transitionLocked_spec pkg previous m s m' s' res err : quiet target m ->
  transitionLocked k ref target opts pkg previous m s = (m', s', (res, err)) ->
  lifecycleLocks m' = lifecycleLocks m /\
  exists r, res = Some r /\ res_PreviousStage r = previous /\ res_NewStage r = target /\
  match err with
  | None => Success r = forallb Valid (res_ValidationResults r) /\ (ForceTransition opts = false -> Success r = true) /\
      if DryRun opts then like s s'
      else exists p u, packages s !! pkg = Some p /\ wrote s s' (set_Lifecycle target p) u
  | Some e => Success r = false /\
      (e = ValidationFailed target /\ ForceTransition opts = false /\ like s s' \/
       exists e', e = UpdateFailed e' /\ client s' = client s /\
         packages s' = alter (set_Lifecycle target) pkg (packages s) /\ (unchanged s s' \/ e' = ApiFailed ApiLost) /\
        (is_Some (packages s !! pkg) \/ e' = InvalidRequest NilObject))
  end.
Proof.
  intros Hq. unfold transitionLocked. cbn zeta.
  pose proof (quiet_trigger target LifecycleEventTransitionStarted ref previous target (now_started k) m Hq) as Hq1.
  destruct (trigger_rest LifecycleEventTransitionStarted ref previous target (now_started k) m) as (_ & _ & El).
  rewrite <- El. clear El Hq. revert Hq1. generalize (trigger LifecycleEventTransitionStarted ref previous target (now_started k) m).
  clear m. intros m Hq. destruct (preHooks _ _ _ _ _ s) as [s1 r1] eqn:E1. apply preHooks_spec in E1 as [Hl1 Ev1]; [| done].
  assert (verdict (rollbackPoint k ref opts (mkResult true previous target (now_start k) 0 [] None None [] None)) =
    (true, [], previous, target)) as Ev0 by (unfold rollbackPoint; by destruct (CreateRollback opts)).
  rewrite Ev0 in Ev1. injection Ev1 as Hs1 Hv1 Hp1 Hn1. clear Ev0.
  destruct (validation _ _ _ _ _ s1) as [s2 [r2 b]] eqn:E2.
  apply validation_spec in E2 as (Hl2 & Hp2 & Hn2 & Hs2 & Hf2 & Hb2); [| done ..].
  rewrite Hp1 in Hp2. rewrite Hn1 in Hn2. pose proof (like_trans _ _ _ Hl1 Hl2) as Hl. clear Hl1 Hl2 Hs1 Hv1 Hp1 Hn1.
  destruct b; cbn [negb].
  2: { intros [= <- <- <- <-]. split; [done |]. exists (timed k r2). split; [done |]. split; [done |]. split; [done |].
       split; [by apply Hb2 |]. left. split; [done |]. split; [symmetry; by apply Hf2, Hb2 | done]. }
  destruct (update _ _ _ _ _ _ s2) as [s3 [r3 e3]] eqn:E3. apply updateStep_spec in E3; [| done]. destruct e3 as [e |].
  - intros [= <- <- <- <-]. split; [done |]. destruct E3 as (Hs3 & Hp3 & Hn3 & e' & -> & Hc & Hpk & Hu & Hx).
    exists (timed k r3). split; [done |]. cbn. rewrite Hp3, Hn3. split; [done |]. split; [done |]. split; [done |]. right.
    exists e'. split; [done |]. rewrite Hc, Hpk, (like_client _ _ Hl), (like_packages _ _ Hl). split; [done |]. split; [done |].
    rewrite (like_packages _ _ Hl) in Hx. split; [| done].
    destruct Hu as [Hu | ?]; [left | by right]. intros g. by rewrite Hu, (like_objects _ _ Hl).
  - destruct (postHooks _ _ _ _ _ s3) as [s4 r4] eqn:E4. apply postHooks_spec in E4 as [Hl4 Ev4]; [| done].
    destruct E3 as [Ev3 Hw]. rewrite Ev3 in Ev4. injection Ev4 as Hs4 Hv4 Hp4 Hn4. intros [= <- <- <- <-].
    split; [by destruct (trigger_rest LifecycleEventTransitionCompleted ref previous target (now_completed k) m) as (_ & _ & ?) |].
    exists (timed k r4). cbn. rewrite Hs4, Hv4, Hp4, Hn4, Hp2, Hn2. split; [done |]. split; [done |]. split; [done |].
    split; [done |]. split.
    + intros Hf. destruct (Success r2) eqn:E; [done |]. by rewrite <- Hf, <- Hf2.
    + destruct (DryRun opts); [by eapply like_trans; [exact Hl |]; eapply like_trans |].
      destruct Hw as (p & u & Hp & Hw). exists p, u. rewrite <- (like_packages _ _ Hl). split; [done |].
      by eapply like_wrote.
Qed.

End locked.

(** The parts of a transition. *)
Lemma performTransition_cases k ref target opts m s m' s' res err :
  performTransition k ref target opts m s = (m', s', (res, err)) ->
  exists s1 r1, GetPackageRevision (draws_get k) (PackageName ref) (Revision ref) s = (s1, r1) /\
    ((exists e, r1 = Err e /\ s' = s1 /\ res = None /\ err = Some (GetFailed e)) \/
     exists pkg, r1 = Ok pkg /\
       ((stageOf pkg s1 = target /\ s' = s1 /\ err = Some (InvalidTransition target target) /\
         forall r, res = Some r -> Success r = false) \/
        (stageOf pkg s1 <> target /\
         ((exists e, AcquireLifecycleLock (draws_lock k) ref "transition" (Timeout (default zeroOptions opts)) m = (m', Err e) /\
             s' = s1 /\ res = None /\ err = Some e) \/
          exists m1 m2 l,
            AcquireLifecycleLock (draws_lock k) ref "transition" (Timeout (default zeroOptions opts)) m = (m1, Ok l) /\
            transitionLocked k ref target (default zeroOptions opts) pkg (stageOf pkg s1) m1 s1 = (m2, s', (res, err)) /\
            m' = (ReleaseLifecycleLock (lockOrder k) (now_released k) (lock_ID l) m2).1)))).
Proof.
  unfold performTransition. destruct (GetPackageRevision _ _ _ s) as [s1 [pkg | e]] eqn:Eg.
  2: { intros [= <- <- <- <-]. exists s1, (Err e). split; [done |]. left. by exists e. }
  intros E. exists s1, (Ok pkg). split; [done |]. right. exists pkg. split; [done |].
  destruct (String.eqb_spec (stageOf pkg s1) target) as [Et | Hne].
  - injection E as <- <- <- <-. left. rewrite Et. split; [done |]. split; [done |]. split; [done |]. by intros r [= <-].
  - right. split; [done |]. destruct (AcquireLifecycleLock _ ref _ _ m) as [m1 [l | e]] eqn:Ea.
    + right. destruct (transitionLocked _ _ _ _ _ _ m1 s1) as [[m2 s2] [res2 err2]] eqn:Et.
      injection E as <- <- <- <-. by exists m1, m2, l.
    + left. injection E as <- <- <- <-. by exists e.
Qed.

(** What the call of a transition that found its package amounts to. *)
Lemma Acquire_quiet stage kl ref op timeout m m' res : AcquireLifecycleLock kl ref op timeout m = (m', res) ->
  quiet stage m -> quiet stage m'.
Proof. intros [Eg Eh]%Acquire_rest. by apply quiet_ext. Qed.

Lemma stageOf_Some pkg s p : packages s !! pkg = Some p -> stageOf pkg s = Lifecycle (Spec p).
Proof. unfold stageOf. by intros ->. Qed.

(** C29 - the outcome of a transition whose gates and hooks write nothing: if it
    returns no error, the package had another stage and, unless it was a dry
    run, the server now holds the package as it was read with the target
    stage and is unchanged otherwise; it reports success exactly when the
    validation it made has passed, and always when it is not forced.  If it
    returns an error, the server is unchanged (unless the answer to the update
    was lost) and no success is reported. *)
Theorem transition_outcome k ref target opts m s m' s' res err :
  quiet target m -> performTransition k ref target opts m s = (m', s', (res, err)) ->
  let o := default zeroOptions opts in
  match err with
  | None => exists r s1 pkg, res = Some r /\
      GetPackageRevision (draws_get k) (PackageName ref) (Revision ref) s = (s1, Ok pkg) /\
      res_PreviousStage r = stageOf pkg s1 /\ res_NewStage r = target /\ stageOf pkg s1 <> target /\
      Success r = forallb Valid (res_ValidationResults r) /\ (ForceTransition o = false -> Success r = true) /\
      if DryRun o then unchanged s s'
      else exists p u, packages s1 !! pkg = Some p /\ wrote s s' (set_Lifecycle target p) u
  | Some e => (unchanged s s' \/ e = UpdateFailed (ApiFailed ApiLost)) /\ forall r, res = Some r -> Success r = false
  end.
Proof.
  intros Hq E. apply performTransition_cases in E as (s1 & r1 & Eg & Hc). pose proof (get_spec _ _ _ _ _ _ Eg) as [Hu _].
  destruct Hc as [(e & -> & -> & -> & ->) | (pkg & -> & [(_ & -> & -> & Hs) | (Hne & Hc)])]; cbn zeta; [by split; [left |] | by split; [left |] |].
  destruct Hc as [(e & _ & -> & -> & ->) | (m1 & m2 & l & Ea & Et & _)]; [by split; [left |] |].
  apply transitionLocked_spec in Et as (_ & r & -> & Hp & Hn & Herr); [| by eapply Acquire_quiet]. destruct err as [e |].
  - destruct Herr as [Hs [(-> & _ & Hl) | (e' & -> & _ & _ & Hw & _)]]; (split; [| by intros ? [= <-]]).
    + left. intros g. by rewrite (like_objects _ _ Hl), Hu.
    + destruct Hw as [Hw | ->]; [left | by right]. intros g. by rewrite Hw, Hu.
  - destruct Herr as (Hs & Hf & Hw). exists r, s1, pkg. split; [done |]. split; [done |]. split; [done |]. split; [done |].
    split; [done |]. split; [done |]. split; [done |]. destruct (DryRun _).
    + intros g. by rewrite (like_objects _ _ Hw), Hu.
    + destruct Hw as (p & u & Hpk & Hy & Hnm & Ho). exists p, u. split; [done |]. split; [done |]. split; [done |].
      intros g. rewrite Ho. unfold put. by rewrite !Hu.
Qed.

(** A transition that fails at its update leaves the target stage in the
    object of the cache, although the server has refused it: as long as the
    cache entry lives, every further attempt ends as an invalid transition from
    the target to itself, without a request. *)
Theorem failed_update_blocks_retry k k2 ref target opts opts2 m m2 s m' s' res e c :
  quiet target m -> cache (client s) = Some c ->
  performTransition k ref target opts m s = (m', s', (res, Some (UpdateFailed e))) ->
  e <> InvalidRequest NilObject ->
  cache (client s') ≫= getCached (now_get (draws_get k2)) (packageKey (PackageName ref) (Revision ref)) <> None ->
  exists r, performTransition k2 ref target opts2 m2 s' = (m2, s', (Some r, Some (InvalidTransition target target))) /\
    Success r = false.
Proof.
  intros Hq Hc0 E He Hfresh. apply performTransition_cases in E as (s1 & r1 & Eg & Hc).
  pose proof (get_spec _ _ _ _ _ _ Eg) as [_ Hg].
  destruct Hc as [(? & _ & _ & _ & [=]) | (pkg & -> & [(_ & _ & [=] & _) | (Hne & Hc)])].
  destruct Hc as [(e0 & Ea & _ & _ & [= <-]) | (m1 & m3 & l & Ea & Et & _)].
  { unfold AcquireLifecycleLock in Ea. destruct (lifecycleLocks m !! _); [destruct (isLockExpired _ _) |]; discriminate Ea. }
  pose proof (Hg pkg c eq_refl Hc0) as (c1 & en & Hc1 & Hen & Hd).
  apply transitionLocked_spec in Et as (_ & r & -> & _ & _ & _ & Hw); [| by eapply Acquire_quiet].
  destruct Hw as [([=] & _) | (e' & [= <-] & Hcl & Hpk & _ & [[p Hp] | ?])]; [| done].
  exists (timed k2 (mkResult false target target zeroTime 0 [] None None [] None)). split; [| done].
  rewrite Hcl, Hc1 in Hfresh. cbn in Hfresh.
  assert (getCached (now_get (draws_get k2)) (packageKey (PackageName ref) (Revision ref)) c1 = Some (CachedPackage pkg)) as Hget.
  { revert Hfresh. unfold getCached. rewrite Hen. destruct (_ <? _); [done |]. by rewrite Hd. }
  unfold performTransition. rewrite (get_hit (draws_get k2) _ _ s' c1 pkg); [| by rewrite Hcl | done].
  assert (stageOf pkg s' = target) as ->
    by (erewrite stageOf_Some; [| by rewrite Hpk, list_lookup_alter_eq, Hp]; done).
  by rewrite String.eqb_refl.
Qed.

(** *** Hooks *)

(** A hook that leaves the state alone; what it answers is its own affair. *)
Definition silent (hook : IntegrationHook) : Prop :=
  forall ref stage action s, (HookExecute hook ref stage action s).1 = s.

Lemma runHooks_silent ref stage action hooks r s : Forall silent hooks ->
  (runHooks ref stage action hooks r s).1 = s.
Proof.
  intros Hh. revert r. induction Hh as [| hook hooks Hs _ IH]; intros r; cbn; [done |].
  specialize (Hs ref stage action s). destruct (HookExecute hook ref stage action s) as [s1 a]. cbn in Hs. subst. apply IH.
Qed.

Lemma trigger_with_hooks h t ref previous new now m :
  trigger t ref previous new now (with_hooks h m) = with_hooks h (trigger t ref previous new now m).
Proof. unfold trigger, TriggerEvent. by destruct m; cbn; destruct (_ <? _). Qed.

Lemma Acquire_with_hooks h kl ref op timeout m :
  AcquireLifecycleLock kl ref op timeout (with_hooks h m) =
  let '(m, r) := AcquireLifecycleLock kl ref op timeout m in (with_hooks h m, r).
Proof.
  unfold AcquireLifecycleLock. cbn [lifecycleLocks with_hooks].
  destruct (lifecycleLocks m !! _) as [l |]; [destruct (isLockExpired _ l); [| done] |];
    f_equal; exact (trigger_with_hooks h _ _ _ _ _ (with_locks _ m)).
Qed.

Lemma Release_with_hooks h order now id m :
  (ReleaseLifecycleLock order now id (with_hooks h m)).1 = with_hooks h (ReleaseLifecycleLock order now id m).1.
Proof.
  unfold ReleaseLifecycleLock. cbn [lifecycleLocks with_hooks]. destruct (List.find _ order) as [key |]; [| done].
  destruct (lifecycleLocks m !! key) as [l |]; [| done]. exact (trigger_with_hooks h _ _ _ _ _ (with_locks _ m)).
Qed.

(** The result without the answers of the hooks. *)
Definition forget : TransitionResult -> TransitionResult := set_HookResults None.

Lemma validation_forget ref target opts m r r' s : forget r = forget r' ->
  exists s1 r1 r1' b, validation ref target opts m r s = (s1, (r1, b)) /\
    validation ref target opts m r' s = (s1, (r1', b)) /\ forget r1 = forget r1'.
Proof.
  intros E. unfold validation. destruct (SkipValidation opts); [by exists s, r, r', true |].
  destruct (ValidateTransition ref target m s) as [s1 v]. destruct r, r'. unfold forget, set_HookResults in E.
  cbn in E. injection E as -> -> -> -> -> -> -> -> ->.
  destruct (Valid v); [| destruct (ForceTransition opts)]; by eexists _, _, _, _.
Qed.

Section silent.
Context (k : TransitionDraws) (ref : PackageReference) (target : PackageRevisionLifecycle) (opts : TransitionOptions).
Context (m : Manager) (Hm : forall action, Forall silent (hooksOf target action m)).

Lemma ExecuteHooks_silent action s : exists h, ExecuteHooks ref target action m s = (s, h).
Proof.
  exists (ExecuteHooks ref target action m s).2. rewrite (surjective_pairing (ExecuteHooks _ _ _ _ _)) at 1.
  f_equal. unfold ExecuteHooks. apply runHooks_silent, Hm.
Qed.

Lemma preHooks_silent r s : exists r', preHooks ref target opts m r s = (s, r') /\ forget r' = forget r.
Proof.
  unfold preHooks. destruct (SkipHooks opts); [by eexists |].
  destruct (ExecuteHooks_silent HookActionPreTransition s) as [h ->]. by eexists.
Qed.

Lemma postHooks_silent r s : exists r', postHooks ref target opts m r s = (s, r') /\ forget r' = forget r.
Proof.
  unfold postHooks. destruct (_ || _); [by eexists |].
  destruct (ExecuteHooks_silent HookActionPostTransition s) as [h ->].
  destruct (ExecuteHooks_silent HookActionOnSuccess s) as [h' ->]. eexists. split; [done |]. by destruct (HookResults r).
Qed.

Lemma update_silent pkg r r' s : forget r = forget r' -> exists s1 r1 r1' e,
  update ref target opts m pkg r s = (s1, (r1, e)) /\
  update ref target opts (with_hooks ∅ m) pkg r' s = (s1, (r1', e)) /\ forget r1 = forget r1'.
Proof.
  intros E. unfold update. destruct (DryRun opts); [by exists s, r, r', None |].
  destruct r, r'. unfold forget, set_HookResults in E. cbn in E. injection E as -> -> -> -> -> -> -> -> ->.
  destruct (UpdatePackageRevision _ _) as [s1 [p | e]]; [by eexists _, _, _, _ |].
  destruct (ExecuteHooks_silent HookActionOnFailure s1) as [h ->].
  exists s1. eexists _, _, _. split; [by destruct (SkipHooks opts) |]. split; [by destruct (SkipHooks opts) | done].
Qed.

End silent.

Lemma no_hooks_silent target m action : Forall silent (hooksOf target action (with_hooks ∅ m)).
Proof. unfold hooksOf. cbn [integrationHooks with_hooks]. rewrite lookup_empty. constructor. Qed.

Lemma hooksOf_trigger target action t ref previous new now m :
  hooksOf target action (trigger t ref previous new now m) = hooksOf target action m.
Proof. unfold hooksOf. by destruct (trigger_rest t ref previous new now m) as (_ & -> & _). Qed.

Lemma transitionLocked_silent k ref target opts pkg previous m s :
  (forall action, Forall silent (hooksOf target action m)) ->
  exists m1 s1 r1 r2 e,
    transitionLocked k ref target opts pkg previous m s = (m1, s1, (Some r1, e)) /\
    transitionLocked k ref target opts pkg previous (with_hooks ∅ m) s = (with_hooks ∅ m1, s1, (Some r2, e)) /\
    forget r1 = forget r2.
Proof.
  intros Hm. unfold transitionLocked. cbn zeta. rewrite trigger_with_hooks.
  assert (forall action, Forall silent (hooksOf target action
    (trigger LifecycleEventTransitionStarted ref previous target (now_started k) m))) as Hm1
    by (intros action; by rewrite hooksOf_trigger).
  clear Hm. revert Hm1. generalize (trigger LifecycleEventTransitionStarted ref previous target (now_started k) m).
  clear m. intros m Hm. set (r0 := rollbackPoint _ _ _ _).
  destruct (preHooks_silent ref target opts m Hm r0 s) as (r1 & -> & E1).
  destruct (preHooks_silent ref target opts (with_hooks ∅ m) (no_hooks_silent target m) r0 s) as (r1' & -> & E1').
  rewrite <- E1' in E1. clear E1' r0.
  destruct (validation_forget ref target opts m r1 r1' s E1) as (s2 & r2 & r2' & b & Ev & Ev' & E2). rewrite Ev.
  change (validation ref target opts (with_hooks ∅ m)) with (validation ref target opts m). rewrite Ev'.
  destruct b; cbn [negb].
  2: { eexists _, _, _, _, _. split; [done |]. split; [done |]. unfold timed. by destruct r2, r2'; injection E2 as -> -> -> -> -> -> -> -> ->. }
  destruct (update_silent ref target opts m Hm pkg r2 r2' s2 E2) as (s3 & r3 & r3' & e & -> & -> & E3).
  destruct e as [e |].
  { eexists _, _, _, _, _. split; [done |]. split; [done |]. by destruct r3, r3'; injection E3 as -> -> -> -> -> -> -> -> ->. }
  destruct (postHooks_silent ref target opts m Hm r3 s3) as (r4 & -> & E4).
  destruct (postHooks_silent ref target opts (with_hooks ∅ m) (no_hooks_silent target m) r3' s3) as (r4' & -> & E4').
  rewrite E3 in E4. rewrite <- E4' in E4. rewrite trigger_with_hooks.
  eexists _, _, _, _, _. split; [done |]. split; [done |]. by destruct r4, r4'; injection E4 as -> -> -> -> -> -> -> -> ->.
Qed.

(** Hooks have no say: whatever hooks answer that leave the client's state
    alone, failures of pre-transition hooks included, a transition ends as it
    does without hooks, with the same state of the client and the server, the
    same error, the same locks and events, and the same result but for the
    recorded answers. *)
Theorem hooks_never_veto k ref target opts m s m1 s1 r1 e1 :
  (forall action, Forall silent (hooksOf target action m)) ->
  performTransition k ref target opts m s = (m1, s1, (r1, e1)) ->
  exists r2, performTransition k ref target opts (with_hooks ∅ m) s = (with_hooks ∅ m1, s1, (r2, e1)) /\
    forget <$> r2 = forget <$> r1.
Proof.
  intros Hm. unfold performTransition. destruct (GetPackageRevision _ _ _ s) as [s0 [pkg | e]].
  2: { intros [= <- <- <- <-]. by eexists. }
  destruct (String.eqb _ _); [intros [= <- <- <- <-]; by eexists |]. rewrite Acquire_with_hooks.
  destruct (AcquireLifecycleLock _ ref _ _ m) as [m0 [l | e]] eqn:Ea; [| intros [= <- <- <- <-]; by eexists].
  destruct (transitionLocked_silent k ref target (default zeroOptions opts) pkg (stageOf pkg s0) m0 s0)
    as (m2 & s2 & ra & rb & e & -> & -> & Er).
  { intros action. unfold hooksOf. apply Acquire_rest in Ea as [_ ->]. apply Hm. }
  intros [= <- <- <- <-]. rewrite Release_with_hooks. eexists. split; [done |]. cbn. by rewrite Er.
Qed.

End logic.

(** ** Locks *)

(** *** Identifiers *)

(** The instants whose nanoseconds since 1970 fit their type. *)
Definition datable (t : Time) : Prop := unixEpoch <= t < unixEpoch + 2 ^ 63.

Lemma UnixNano_datable t : datable t -> UnixNano t = t - unixEpoch /\ 0 <= t - unixEpoch.
Proof. unfold datable, UnixNano, wrap64. intros Ht. split; [| lia]. rewrite Z.mod_small; lia. Qed.

Fixpoint occurs (c : ascii) (s : string) : bool :=
  match s with
  | "" => false
  | String c' s => Ascii.eqb c c' || occurs c s
  end.

Lemma pretty_N_go_dash x s : occurs "-" s = false -> occurs "-" (pretty_N_go x s) = false.
Proof.
  revert s. induction (N.lt_wf_0 x) as [x _ IH]. intros s Hs.
  assert (x = 0 \/ 0 < x)%N as [-> | Hx] by lia; [by rewrite pretty_N_go_0 |].
  rewrite pretty_N_go_step by done. apply IH; [by apply N.div_lt |]. cbn [occurs]. rewrite Hs.
  unfold pretty_N_char. by repeat case_match.
Qed.

Lemma pretty_Z_dash z : 0 <= z -> occurs "-" (pretty z) = false.
Proof.
  destruct z as [| p | p]; [done | intros _ | lia]. change (occurs "-" (pretty (N.pos p)) = false).
  unfold pretty, pretty_N. case_decide; [done | by apply pretty_N_go_dash].
Qed.

(** What follows the last dash is determined. *)
Lemma last_dash s s' d d' : occurs "-" d = false -> occurs "-" d' = false ->
  s +:+ String "-" d = s' +:+ String "-" d' -> s = s' /\ d = d'.
Proof.
  intros Hd Hd'. assert (forall r e, occurs "-" (r +:+ String "-" e) = true) as Hocc.
  { intros r e; induction r as [| c r IH]; [done |].
    change (Ascii.eqb "-" c || occurs "-" (r +:+ String "-" e) = true). by rewrite IH, orb_true_r. }
  revert s'. induction s as [| c s IH]; intros [| c' s'] E.
  - change (String "-" d = String "-" d') in E. by injection E.
  - change (String "-" d = String c' (s' +:+ String "-" d')) in E. injection E as <- ->. by rewrite Hocc in Hd.
  - change (String c (s +:+ String "-" d) = String "-" d') in E. injection E as -> <-. by rewrite Hocc in Hd'.
  - change (String c (s +:+ String "-" d) = String c' (s' +:+ String "-" d')) in E.
    injection E as <- E. by destruct (IH s' E) as [-> ->].
Qed.

Lemma lockID_inj key key' t t' : datable t -> datable t' -> lockID key t = lockID key' t' -> key = key' /\ t = t'.
Proof.
  intros [E Hp]%UnixNano_datable [E' Hp']%UnixNano_datable. unfold lockID. rewrite E, E'.
  intros [= [-> Hz%(inj pretty)]%last_dash]; [| by apply pretty_Z_dash ..]. split; [done | lia].
Qed.

(** *** Concurrent use *)

Section locks.
Context `{Porch}.

(** The manager, the time, and the locks whose holders have not released them,
    the newest first. *)
Record LockSystem := mkLocks {
  clock_ : Time;
  mgr : Manager;
  held : list LifecycleLock
}.

(** The clock reads of a successful call, in their order. *)
Definition inOrder (t : Time) (kl : LockDraws) : Prop :=
  t <= now_check kl /\ now_check kl <= now_id kl /\ now_id kl <= now_acquired kl /\ now_acquired kl <= now_expires kl.

(** A map is ranged over completely. *)
Definition complete (order : list string) (m : Manager) : Prop :=
  forall key, is_Some (lifecycleLocks m !! key) -> key ∈ order.

(** Each call is one step, as it holds the mutex of the table from its first
    look at the table to its last. *)
Inductive lockStep : LockSystem -> LockSystem -> Prop :=
| lock_tick t t' m h : t <= t' -> datable t' -> lockStep (mkLocks t m h) (mkLocks t' m h)
| lock_other t m m' h : lifecycleLocks m' = lifecycleLocks m -> lockStep (mkLocks t m h) (mkLocks t m' h)
| lock_acquire t m h kl ref operation timeout m' lock :
    0 <= timeout -> inOrder t kl -> datable (now_expires kl) ->
    AcquireLifecycleLock kl ref operation timeout m = (m', Ok lock) ->
    lockStep (mkLocks t m h) (mkLocks (now_expires kl) m' (lock :: h))
| lock_refuse t m h kl ref operation timeout m' e :
    AcquireLifecycleLock kl ref operation timeout m = (m', Err e) -> lockStep (mkLocks t m h) (mkLocks t m' h)
| lock_release t m h h' order now lock m' res :
    complete order m ->
    ReleaseLifecycleLock order now (lock_ID lock) m = (m', res) ->
    lockStep (mkLocks t m (h ++ lock :: h')) (mkLocks t m' (h ++ h'))
| lock_cleanup t m h now : t <= now -> datable now ->
    lockStep (mkLocks t m h) (mkLocks now (cleanupExpiredLocks now m) h).

Definition keyOf (l : LifecycleLock) : string := GetPackageKey (lock_PackageRef l).

(** A lock made by [AcquireLifecycleLock] until [now]. *)
Definition issued (now : Time) (l : LifecycleLock) : Prop :=
  exists t, lock_ID l = lockID (keyOf l) t /\ datable t /\ t <= AcquiredAt l <= ExpiresAt l /\ AcquiredAt l <= now /\
    t <= now.

(** A newer lock of the same package was acquired after an older had expired. *)
Definition later (l l' : LifecycleLock) : Prop := keyOf l = keyOf l' -> ExpiresAt l' < AcquiredAt l.

Record LockInv (S : LockSystem) : Prop := {
  inv_datable : datable (clock_ S);
  inv_issued : Forall (issued (clock_ S)) (held S);
  inv_ids : NoDup (lock_ID <$> held S);
  inv_later : Sorted.StronglySorted later (held S);
  inv_table key l : lifecycleLocks (mgr S) !! key = Some l -> keyOf l = key /\ l ∈ held S;
  inv_held l : l ∈ held S -> lifecycleLocks (mgr S) !! keyOf l = Some l \/ ExpiresAt l < clock_ S
}.

Lemma issued_mono t t' l : t <= t' -> issued t l -> issued t' l.
Proof. intros Ht (i & Ei & Hd & Hl & Hn & Hi). exists i. split; [done |]. split; [done |]. split; [done |]. lia. Qed.

Lemma inv_tick t t' m m' h : t <= t' -> datable t' ->
  (forall key l, lifecycleLocks m' !! key = Some l -> lifecycleLocks m !! key = Some l) ->
  (forall key l, lifecycleLocks m !! key = Some l -> lifecycleLocks m' !! key = Some l \/ ExpiresAt l < t') ->
  LockInv (mkLocks t m h) -> LockInv (mkLocks t' m' h).
Proof.
  intros Ht Hd Hsub Hkeep [Hd0 Hi Hn Hl Ht0 Hh]. cbn in *. split; cbn; try done.
  - eapply Forall_impl; [exact Hi |]. intros l. by apply issued_mono.
  - intros key l E. by apply Ht0, Hsub.
  - intros l Hin. destruct (Hh l Hin) as [E |]; [by apply Hkeep | right; lia].
Qed.

(** The clean-up removes what has expired. *)
Lemma cleanupExpired_lookup now m key l : lifecycleLocks (cleanupExpiredLocks now m) !! key = Some l <->
  lifecycleLocks m !! key = Some l /\ now <= ExpiresAt l.
Proof.
  cbn. rewrite map_lookup_filter_Some. cbn. unfold isLockExpired. by rewrite time_After_false.
Qed.

Lemma Acquire_ok kl ref operation timeout m m' lock :
  AcquireLifecycleLock kl ref operation timeout m = (m', Ok lock) ->
  lock = newLock kl ref operation timeout /\
  lifecycleLocks m' = <[GetPackageKey ref := lock]> (lifecycleLocks m) /\
  forall l, lifecycleLocks m !! GetPackageKey ref = Some l -> ExpiresAt l < now_check kl.
Proof.
  unfold AcquireLifecycleLock. destruct (lifecycleLocks m !! _) as [l |].
  - unfold isLockExpired. destruct (time_After _ _) eqn:Ht; [| done]. intros [= <- <-]. split; [done |].
    split; [apply (trigger_rest LifecycleEventLockAcquired ref "" "" (now_lockEvent kl) (with_locks _ m)) |].
    intros ? [= <-]. by apply time_After_spec.
  - intros [= <- <-]. split; [done |].
    by split; [apply (trigger_rest LifecycleEventLockAcquired ref "" "" (now_lockEvent kl) (with_locks _ m)) |].
Qed.

Lemma Acquire_err kl ref operation timeout m m' e :
  AcquireLifecycleLock kl ref operation timeout m = (m', Err e) -> m' = m.
Proof.
  unfold AcquireLifecycleLock. destruct (lifecycleLocks m !! _) as [l |]; [destruct (isLockExpired _ l) |]; congruence.
Qed.

Lemma Release_cases order now id m m' res : ReleaseLifecycleLock order now id m = (m', res) -> complete order m ->
  (exists key l, lifecycleLocks m !! key = Some l /\ lock_ID l = id /\
     lifecycleLocks m' = delete key (lifecycleLocks m)) \/
  (m' = m /\ forall key l, lifecycleLocks m !! key = Some l -> lock_ID l <> id).
Proof.
  unfold ReleaseLifecycleLock. intros E Hc. destruct (List.find _ order) as [key |] eqn:Hf.
  - apply List.find_some in Hf as [_ Hid]. destruct (lifecycleLocks m !! key) as [l |] eqn:Hl; [| done].
    left. exists key, l. split; [done |]. split; [by apply String.eqb_eq |]. injection E as <- <-.
    exact (proj2 (proj2 (trigger_rest LifecycleEventLockReleased (lock_PackageRef l) "" "" now (with_locks _ m)))).
  - injection E as <- <-. right. split; [done |]. intros key l Hl Hid.
    assert (key ∈ order) as Hin%list_elem_of_In by (apply Hc; by eexists).
    pose proof (List.find_none _ _ Hf key Hin) as Hn. cbn in Hn. rewrite Hl in Hn. by apply String.eqb_neq in Hn.
Qed.

(** What is held of a package when its lock is acquired has expired. *)
Lemma held_expired t m h kl ref operation timeout m' lock l :
  LockInv (mkLocks t m h) -> t <= now_check kl ->
  AcquireLifecycleLock kl ref operation timeout m = (m', Ok lock) ->
  l ∈ h -> keyOf l = GetPackageKey ref -> ExpiresAt l < now_check kl.
Proof.
  intros HI Ht (_ & _ & Hx)%Acquire_ok Hl Ek. destruct (inv_held _ HI l Hl) as [E | E]; cbn in E; [| lia].
  apply Hx. by rewrite <- Ek.
Qed.

Lemma acquire_inv t m h kl ref operation timeout m' lock :
  0 <= timeout -> inOrder t kl -> datable (now_expires kl) ->
  AcquireLifecycleLock kl ref operation timeout m = (m', Ok lock) ->
  LockInv (mkLocks t m h) -> LockInv (mkLocks (now_expires kl) m' (lock :: h)).
Proof.
  intros Hto (Ht & Hid & Hac & Hex) Hd E HI. pose proof (inv_datable _ HI) as Hd0. cbn in Hd0.
  assert (forall l, l ∈ h -> keyOf l = GetPackageKey ref -> ExpiresAt l < now_check kl) as Hexp
    by (intros l; by eapply held_expired).
  apply Acquire_ok in E as (-> & Em & _). destruct HI as [_ Hi Hn Hl Htab Hh]. cbn in *. rewrite Forall_forall in Hi.
  assert (datable (now_id kl)) as Hd1 by (unfold datable in *; lia). split; cbn; try done.
  - constructor; [| apply Forall_forall; intros l Hin; eapply issued_mono; [| by apply Hi]; lia].
    exists (now_id kl). cbn. unfold time_Add. split; [done |]. split; [done |]. lia.
  - constructor; [| done]. intros (l & Eid & Hin)%list_elem_of_fmap.
    destruct (Hi l Hin) as (i & Ei & Hdi & Hle & _). rewrite Ei in Eid. cbn in Eid.
    apply lockID_inj in Eid as [Ek <-]; [| done ..]. specialize (Hexp l Hin (eq_sym Ek)). lia.
  - constructor; [done |]. apply Forall_forall. intros l Hin Ek. cbn. specialize (Hexp l Hin (eq_sym Ek)). lia.
  - intros key l. rewrite Em, lookup_insert_Some. intros [[<- <-] | [_ E]]; [by split; [| left] |].
    destruct (Htab key l E). split; [done | by right].
  - intros l [-> | Hin]%elem_of_cons; [left; by rewrite Em, lookup_insert_eq |].
    destruct (decide (keyOf l = GetPackageKey ref)) as [Ek | Hne]; [right; specialize (Hexp l Hin Ek); lia |].
    rewrite Em, lookup_insert_ne by done. destruct (Hh l Hin) as [? | ?]; [by left | right; lia].
Qed.

Lemma release_inv t m h h' order now lock m' res :
  complete order m -> ReleaseLifecycleLock order now (lock_ID lock) m = (m', res) ->
  LockInv (mkLocks t m (h ++ lock :: h')) -> LockInv (mkLocks t m' (h ++ h')).
Proof.
  intros Hc E HI. destruct HI as [Hd Hi Hn Hl Htab Hh]. cbn in *.
  apply NoDup_middle in Hn as [Hn Hno]. rewrite Forall_forall in Hno.
  assert (forall l, l ∈ h ++ lock :: h' <-> l = lock \/ l ∈ h ++ h') as Hmid
    by (intros l; by rewrite <- Permutation_middle, elem_of_cons).
  assert (forall key l, lifecycleLocks m' !! key = Some l <-> lifecycleLocks m !! key = Some l /\ l <> lock) as Hm'.
  { intros key l. destruct (Release_cases _ _ _ _ _ _ E Hc) as [(k0 & l0 & E0 & Eid & Em) | [-> Hnone]].
    - assert (l0 = lock) as -> by (destruct (Htab k0 l0 E0) as [_ [-> | Hin]%Hmid]; [done | by apply Hno in Hin]).
      rewrite Em, lookup_delete_Some. split; intros [H1 H2].
      + split; [done |]. intros ->. apply H1. transitivity (keyOf lock); [symmetry |]; by apply Htab.
      + split; [| done]. intros ->. rewrite H1 in E0. congruence.
    - split; [| by intros [? _]]. intros El. split; [done |]. intros ->. by apply (Hnone key lock). }
  split; cbn; try done.
  - rewrite Forall_forall in *. intros l Hin. apply Hi, Hmid. by right.
  - clear -Hl. induction h as [| l h IH]; cbn in *; inversion Hl; subst; [done |]. constructor; [by apply IH |].
    rewrite Forall_app, Forall_cons in *. naive_solver.
  - intros key l [El Hnl]%Hm'. by destruct (Htab key l El) as [Ek [-> | Hin]%Hmid].
  - intros l Hin. destruct (Hh l) as [El |]; [apply Hmid; by right | left | by right].
    apply Hm'. split; [done |]. intros ->. by apply (Hno lock).
Qed.

Lemma LockInv_step S S' : lockStep S S' -> LockInv S -> LockInv S'.
Proof.
  intros Hs HI. pose proof (inv_datable _ HI) as Hd0.
  destruct Hs as [t t' m h Ht Hd | t m m' h Em | t m h kl ref op timeout m' lock Hto Ho Hd E | t m h kl ref op timeout m' e E
    | t m h h' order now lock m' res Hc E | t m h now Ht Hd].
  - eapply inv_tick; [done | done | | | exact HI]; [done | by left].
  - eapply inv_tick; [done | done | | | exact HI]; rewrite Em; [done | by left].
  - by eapply acquire_inv.
  - by apply Acquire_err in E as ->.
  - by eapply release_inv.
  - eapply inv_tick; [done | done | | | exact HI].
    + by intros key l [? _]%cleanupExpired_lookup.
    + intros key l El. destruct (decide (now <= ExpiresAt l)); [left; by apply cleanupExpired_lookup | right; lia].
Qed.

(** Locks exclude: from an empty table on, under any interleaving of
    acquisitions, releases, clean-ups and the passing of time, if two locks of
    one package have been acquired and not released, the older had expired
    before the newer was acquired; and a lock that has not expired is the one in
    the table, so that no release of another - however late - and no clean-up
    takes it away. *)
Theorem locks_exclude t m S :
  datable t -> lifecycleLocks m = ∅ -> rtc lockStep (mkLocks t m []) S ->
  (forall h1 h2 h3 newer older, held S = h1 ++ newer :: h2 ++ older :: h3 -> keyOf newer = keyOf older ->
     ExpiresAt older < AcquiredAt newer) /\
  (forall l, l ∈ held S -> clock_ S <= ExpiresAt l -> lifecycleLocks (mgr S) !! keyOf l = Some l).
Proof.
  intros Hd Hm Hr. assert (LockInv S) as HI.
  { apply (rtc_ind_r LockInv (mkLocks t m [])) in Hr; [done | |].
    - split; cbn; [done | constructor.. | |]; intros *; by rewrite ?Hm, ?lookup_empty, ?elem_of_nil.
    - intros S1 S2 _ Hs. by apply LockInv_step. }
  split.
  - intros h1 h2 h3 newer older Eh. pose proof (inv_later _ HI) as Hl. rewrite Eh in Hl. clear -Hl.
    induction h1 as [| l h1 IH]; cbn in Hl; inversion Hl as [| ? ? Hs Hf]; subst; [| by apply IH].
    rewrite Forall_app, Forall_cons in Hf. apply Hf.
  - intros l Hin Hle. destruct (inv_held _ HI l Hin) as [? | ?]; [done | lia].
Qed.

(** A transition without options, or without a timeout in them, takes its lock
    for no time at all: the next one, an instant later, gets it too. *)
Lemma default_timeout_excludes_nothing kl kl' ref timeout m m' l :
  AcquireLifecycleLock kl ref "transition" (Timeout zeroOptions) m = (m', Ok l) ->
  now_expires kl < now_check kl' ->
  exists m2 l2, AcquireLifecycleLock kl' ref "transition" timeout m' = (m2, Ok l2).
Proof.
  intros (-> & Em & _)%Acquire_ok Hlt. unfold AcquireLifecycleLock. rewrite Em, lookup_insert_eq.
  unfold isLockExpired. cbn. rewrite (proj2 (time_After_spec _ _)) by (unfold time_Add; lia). by eexists _, _.
Qed.

End locks.

(** ** Batches *)

Record BatchTransitionOptions := mkBatchOptions {
  Concurrency : nat;
  ContinueOnError : bool;
  ValidateAll : bool;
  CreateRollbackPoints : bool;
  batch_Timeout : Duration;
  batch_DryRun : bool
}.

(** Where none are given. *)
Definition defaultBatchOptions : BatchTransitionOptions := mkBatchOptions 5 true false false 0 false.

(** What each transition of a batch is given, whatever the options of the
    batch say. *)
Definition transitionOpts : TransitionOptions := mkOptions false false false "" false false ∅ (30 * Second) false.

(** A goroutine of the batch waits for the semaphore, makes its transition, has
    sent its result, has left the semaphore. *)
Inductive Goroutine := Waiting | Running | Sent | Finished.

(** What [BatchTransition] returns. *)
Inductive BatchAnswer :=
| Collected (OverallSuccess : bool)
| StoppedAt (e : TransitionError)
| Cancelled.

Abbreviation Outcome := (nat * option TransitionError)%type.

(** The channels [semaphore] and [results], the goroutines and the collector;
    [received] are the results it has taken. *)
Record Batch := mkBatch {
  goroutines : list Goroutine;
  semaphore : nat;
  results : list Outcome;
  received : list Outcome;
  SuccessfulTransitions : nat;
  FailedTransitions : nat;
  answer : option BatchAnswer
}.

(** [refs] packages. *)
Definition startBatch (refs : nat) : Batch := mkBatch (replicate refs Waiting) 0 [] [] 0 0 None.

Definition failed (o : Outcome) : bool := match o.2 with Some _ => true | None => false end.

(** One round of the collecting loop. *)
Definition collect (opts : BatchTransitionOptions) (o : Outcome) (b : Batch) : Batch :=
  match o.2 with
  | Some e =>
      mkBatch (goroutines b) (semaphore b) (tail (results b)) (received b ++ [o]) (SuccessfulTransitions b)
        (S (FailedTransitions b)) (if ContinueOnError opts then answer b else Some (StoppedAt e))
  | None =>
      mkBatch (goroutines b) (semaphore b) (tail (results b)) (received b ++ [o]) (S (SuccessfulTransitions b))
        (FailedTransitions b) (answer b)
  end.

Definition move (i : nat) (g : Goroutine) (sem : nat) (res : list Outcome) (b : Batch) : Batch :=
  mkBatch (<[i := g]> (goroutines b)) sem res (received b) (SuccessfulTransitions b) (FailedTransitions b) (answer b).

Definition return_ (a : BatchAnswer) (b : Batch) : Batch :=
  mkBatch (goroutines b) (semaphore b) (results b) (received b) (SuccessfulTransitions b) (FailedTransitions b) (Some a).

(** What a transition answers is left open. *)
Inductive batchStep (opts : BatchTransitionOptions) (b : Batch) : Batch -> Prop :=
| batch_enter i : goroutines b !! i = Some Waiting -> (semaphore b < Concurrency opts)%nat ->
    batchStep opts b (move i Running (S (semaphore b)) (results b) b)
| batch_send i e : goroutines b !! i = Some Running -> (length (results b) < length (goroutines b))%nat ->
    batchStep opts b (move i Sent (semaphore b) (results b ++ [(i, e)]) b)
| batch_leave i : goroutines b !! i = Some Sent -> (0 < semaphore b)%nat ->
    batchStep opts b (move i Finished (semaphore b - 1) (results b) b)
| batch_collect o : answer b = None -> (length (received b) < length (goroutines b))%nat ->
    head (results b) = Some o -> batchStep opts b (collect opts o b)
| batch_cancel : answer b = None -> (length (received b) < length (goroutines b))%nat ->
    batchStep opts b (return_ Cancelled b)
| batch_done : answer b = None -> length (received b) = length (goroutines b) ->
    batchStep opts b (return_ (Collected (FailedTransitions b =? 0)%nat) b).

Definition inside (g : Goroutine) : bool := match g with Running | Sent => true | _ => false end.
Definition reported (g : Goroutine) : bool := match g with Sent | Finished => true | _ => false end.

Definition count (p : Goroutine -> bool) (l : list Goroutine) : nat := length (List.filter p l).

Record BatchInv (refs : nat) (opts : BatchTransitionOptions) (b : Batch) : Prop := {
  inv_refs : length (goroutines b) = refs;
  inv_semaphore : semaphore b = count inside (goroutines b);
  inv_capacity : (semaphore b <= Concurrency opts)%nat;
  inv_results : NoDup (fst <$> received b ++ results b);
  inv_reported i : i ∈ fst <$> received b ++ results b <-> exists g, goroutines b !! i = Some g /\ reported g = true;
  inv_failed : FailedTransitions b = length (List.filter failed (received b));
  inv_received : (SuccessfulTransitions b + FailedTransitions b = length (received b))%nat;
  inv_collected overall : answer b = Some (Collected overall) ->
    length (received b) = refs /\ overall = (FailedTransitions b =? 0)%nat
}.

(** *** Counting *)

Lemma count_insert p l i g g' : l !! i = Some g ->
  (count p (<[i := g']> l) + Nat.b2n (p g) = count p l + Nat.b2n (p g'))%nat.
Proof.
  unfold count. revert i. induction l as [| x l IH]; intros [| i] E; [done | done | |]; cbn in E.
  - injection E as ->. cbn. destruct (p g), (p g'); cbn; lia.
  - specialize (IH i E). change (<[S i := g']> (x :: l)) with (x :: <[i := g']> l). cbn [List.filter].
    destruct (p x); cbn [length]; lia.
Qed.

Lemma count_le p l : (count p l <= length l)%nat.
Proof. unfold count. induction l as [| x l IH]; cbn; [done |]. destruct (p x); cbn; lia. Qed.

Lemma count_pos p l : (0 < count p l)%nat <-> exists i g, l !! i = Some g /\ p g = true.
Proof.
  unfold count. induction l as [| x l IH]; cbn; [split; [lia | by intros (i & g & [=] & _)] |].
  destruct (p x) eqn:Ep; cbn.
  - split; [intros _; by exists 0%nat, x | lia].
  - rewrite IH. split.
    + intros (i & g & E & Hg). by exists (S i), g.
    + intros ([| i] & g & E & Hg); [injection E as ->; congruence | by exists i, g].
Qed.

(** A list of [n] different numbers below [n]. *)
Lemma NoDup_app_perm_seq l n : NoDup l -> length l = n -> (forall i, i ∈ l -> (i < n)%nat) -> l ≡ₚ seq 0 n.
Proof.
  intros Hnd Hl Hlt. apply submseteq_length_Permutation.
  - apply NoDup_submseteq; [done |]. intros i Hi. apply elem_of_seq. specialize (Hlt i Hi). lia.
  - rewrite length_seq. lia.
Qed.

Lemma head_tail {A} (l : list A) x : head l = Some x -> l = x :: tail l.
Proof. by destruct l; intros [= ->]. Qed.

(** A goroutine moves on without sending. *)
Lemma move_reported b i g g' : goroutines b !! i = Some g -> reported g = reported g' ->
  forall j, (exists g0, <[i := g']> (goroutines b) !! j = Some g0 /\ reported g0 = true) <->
            (exists g0, goroutines b !! j = Some g0 /\ reported g0 = true).
Proof.
  intros Hg Er j. destruct (decide (i = j)) as [<- | Hne]; [| by rewrite list_lookup_insert_ne].
  rewrite list_lookup_insert_eq by (by eapply lookup_lt_Some). rewrite Hg.
  split; intros (g0 & [= <-] & H0); eexists; (split; [done | congruence]).
Qed.

Lemma BatchInv_move refs opts b i g g' sem :
  BatchInv refs opts b -> goroutines b !! i = Some g -> reported g = reported g' ->
  (sem + Nat.b2n (inside g) = semaphore b + Nat.b2n (inside g'))%nat -> (sem <= Concurrency opts)%nat ->
  BatchInv refs opts (move i g' sem (results b) b).
Proof.
  intros [Hr Hs Hc Hn Hrep Hf Hrec Hcol] Hg Er Es Hcap. split; cbn; try done.
  - by rewrite length_insert.
  - change (sem = count inside (<[i := g']> (goroutines b))). pose proof (count_insert inside _ _ _ g' Hg). lia.
  - intros j. by rewrite (move_reported b i g g' Hg Er), Hrep.
Qed.

Lemma BatchInv_step refs opts b b' : BatchInv refs opts b -> batchStep opts b b' -> BatchInv refs opts b'.
Proof.
  intros HI Hs. pose proof HI as [Hr Hse Hc Hn Hrep Hf Hrec Hcol].
  destruct Hs as [i Hg Hlt | i e Hg Hlt | i Hg Hlt | o Ha Hlt Ho | Ha Hlt | Ha Hlt].
  - eapply BatchInv_move; [done | done | done | cbn; lia | lia].
  - assert (i ∉ fst <$> received b ++ results b) as Hi by (rewrite Hrep, Hg; by intros (g & [= <-] & Hg')).
    split; cbn; try done.
    + by rewrite length_insert.
    + change (semaphore b = count inside (<[i := Sent]> (goroutines b))).
      pose proof (count_insert inside _ _ _ Sent Hg) as Ec. unfold Nat.b2n, inside at 2 4 in Ec. lia.
    + rewrite app_assoc, fmap_app. apply NoDup_app. split; [done |]. split; [| apply NoDup_singleton].
      by intros j Hj ->%list_elem_of_singleton.
    + intros j. rewrite app_assoc, fmap_app, elem_of_app, Hrep. change (fst <$> [(i, e)]) with [i].
      rewrite list_elem_of_singleton.
      destruct (decide (i = j)) as [<- | Hne].
      * rewrite list_lookup_insert_eq by (by eapply lookup_lt_Some). split; [by intros _; exists Sent | by right].
      * rewrite list_lookup_insert_ne by done. naive_solver.
  - eapply BatchInv_move; [done | done | done | cbn; lia | lia].
  - apply head_tail in Ho. rewrite Ho in Hn, Hrep. unfold collect.
    assert (received b ++ o :: tail (results b) = (received b ++ [o]) ++ tail (results b)) as Eapp by (by rewrite <- app_assoc).
    rewrite Eapp in Hn, Hrep.
    assert (length (received b ++ [o]) = S (length (received b))) as El by (rewrite length_app; cbn; lia).
    destruct o as [j [e |]]; split; cbn; try done; rewrite ?List.filter_app, ?length_app; cbn; try lia.
    + intros overall E. destruct (ContinueOnError opts); congruence.
    + intros overall E. congruence.
  - by split.
  - split; cbn; try done. intros overall [= <-]. by rewrite <- Hr.
Qed.

Lemma BatchInv_start refs opts : BatchInv refs opts (startBatch refs).
Proof.
  assert (forall p, p Waiting = false -> count p (replicate refs Waiting) = 0%nat) as Hc.
  { intros p Hp. unfold count. induction refs as [| n IH]; cbn; [done |]. by rewrite Hp. }
  split; try done; [apply length_replicate | symmetry; by apply Hc | cbn; lia | constructor |].
  intros i. split; [by intros ?%elem_of_nil |]. intros (g & Hg%lookup_replicate & Hr). by destruct Hg as [-> _].
Qed.

Lemma BatchInv_reachable refs opts b : rtc (batchStep opts) (startBatch refs) b -> BatchInv refs opts b.
Proof.
  intros Hr. apply (rtc_ind_r (BatchInv refs opts) (startBatch refs)) in Hr; [done | apply BatchInv_start |].
  intros b1 b2 _ Hs HI. by eapply BatchInv_step.
Qed.

(** The results of a batch are counted right, whatever its transitions
    answer and however they interleave: no more transitions run at a time than
    the concurrency allows, and when the batch returns as complete, each
    package has been counted exactly once, as a success or as a failure, and
    the overall success says that none has failed. *)
Theorem batch_counts refs opts b :
  rtc (batchStep opts) (startBatch refs) b ->
  (count inside (goroutines b) <= Concurrency opts)%nat /\
  forall overall, answer b = Some (Collected overall) ->
    (SuccessfulTransitions b + FailedTransitions b = refs)%nat /\
    fst <$> received b ≡ₚ seq 0 refs /\
    FailedTransitions b = length (List.filter failed (received b)) /\
    (overall = true <-> Forall (λ o, o.2 = None) (received b)).
Proof.
  intros [Hr Hs Hc Hn Hrep Hf Hrec Hcol]%BatchInv_reachable. split; [lia |].
  intros overall [Hl ->]%Hcol. split; [lia |]. split; [| split; [done |]].
  - apply NoDup_app_perm_seq; [| by rewrite length_fmap |].
    + rewrite fmap_app in Hn. by apply NoDup_app in Hn as [? _].
    + intros i Hi. assert (i ∈ fst <$> received b ++ results b) as (g & Hg & _)%Hrep
        by (rewrite fmap_app; apply elem_of_app; by left).
      rewrite <- Hr. by eapply lookup_lt_Some.
  - rewrite Hf, Nat.eqb_eq. unfold failed. clear. induction (received b) as [| [i [e |]] l IH]; cbn; rewrite ?Forall_cons; cbn.
    + done.
    + split; [lia | by intros [[=] _]].
    + rewrite IH. naive_solver.
Qed.

(** How far goroutines and collector have to go. *)
Definition togo (g : Goroutine) : nat :=
  match g with
  | Waiting => 3
  | Running => 2
  | Sent => 1
  | Finished => 0
  end.

Definition total (l : list Goroutine) : nat := list_sum (togo <$> l).

Lemma total_cons x l : total (x :: l) = (togo x + total l)%nat.
Proof. done. Qed.

Lemma togo_insert l i g g' : l !! i = Some g -> (total (<[i := g']> l) + togo g = total l + togo g')%nat.
Proof.
  revert i. induction l as [| x l IH]; intros [| i] E; [done | done | |]; cbn in E.
  - injection E as ->. change (<[0%nat := g']> (g :: l)) with (g' :: l). rewrite !total_cons. lia.
  - specialize (IH i E). change (<[S i := g']> (x :: l)) with (x :: <[i := g']> l). rewrite !total_cons. lia.
Qed.

Definition measure (b : Batch) : nat :=
  (total (goroutines b) + (length (goroutines b) - length (received b)) +
   match answer b with None => 1 | Some _ => 0 end)%nat.

Lemma batch_decreases opts b b' : batchStep opts b b' -> (measure b' < measure b)%nat.
Proof.
  intros [i Hg _ | i e Hg _ | i Hg _ | o Ha Hlt Ho | Ha Hlt | Ha Hlt]; unfold measure.
  1, 2, 3: cbn [goroutines move received answer]; rewrite length_insert;
    match goal with |- context [<[_ := ?g']> _] => pose proof (togo_insert _ _ _ g' Hg) as Et end;
    cbn [togo] in Et; lia.
  - unfold collect. destruct o as [j [e |]]; cbn [snd goroutines received answer]; rewrite length_app, Ha; cbn [length].
    + destruct (ContinueOnError opts); lia.
    + lia.
  - cbn [goroutines received answer return_]. rewrite Ha. lia.
  - cbn [goroutines received answer return_]. rewrite Ha. lia.
Qed.

(** There is room in the channel for who has not sent. *)
Lemma received_below refs opts b : BatchInv refs opts b ->
  (length (received b) + length (results b) <= length (goroutines b))%nat /\
  forall i, goroutines b !! i = Some Running -> (length (results b) < length (goroutines b))%nat.
Proof.
  intros [_ _ _ Hnd Hrep _ _ _].
  assert (forall l, NoDup l -> (forall i, i ∈ l -> is_Some (goroutines b !! i)) -> (length l <= length (goroutines b))%nat) as Hle.
  { intros l Hl Hin. rewrite <- (length_seq (length (goroutines b)) 0).
    apply submseteq_length, NoDup_submseteq; [done |]. intros i Hi. apply elem_of_seq.
    pose proof (proj1 (lookup_lt_is_Some _ _) (Hin i Hi)). lia. }
  assert (forall i, i ∈ fst <$> received b ++ results b -> is_Some (goroutines b !! i)) as Hin
    by (intros i (g & Hg & _)%Hrep; by eexists).
  split; [rewrite <- length_app, <- (length_fmap fst); by apply Hle |]. intros i Hg.
  assert (i ∉ fst <$> received b ++ results b) as Hi by (rewrite Hrep, Hg; by intros (g & [= <-] & ?)).
  assert (length (i :: (fst <$> received b ++ results b)) <= length (goroutines b))%nat as Hlt.
  { apply Hle; [by constructor |]. intros j [-> | Hj]%elem_of_cons; [by eexists | by apply Hin]. }
  cbn [length] in Hlt. rewrite length_fmap, length_app in Hlt. lia.
Qed.

(** Where a batch can go no further. *)
Lemma batch_stuck refs opts b : (0 < Concurrency opts)%nat -> BatchInv refs opts b ->
  (forall b', ~ batchStep opts b b') -> answer b <> None /\ Forall (eq Finished) (goroutines b).
Proof.
  intros Hpos HI Hstuck. pose proof (received_below refs opts b HI) as [Hlen Hmore].
  destruct HI as [Hr Hs Hc Hnd Hrep Hf Hrec Hcol].
  assert (forall i, goroutines b !! i <> Some Sent) as Hsent.
  { intros i Hg. apply (Hstuck _ (batch_leave opts b i Hg ltac:(rewrite Hs; apply count_pos; by exists i, Sent))). }
  assert (forall i, goroutines b !! i <> Some Running) as Hrun.
  { intros i Hg. apply (Hstuck _ (batch_send opts b i None Hg (Hmore i Hg))). }
  assert (count inside (goroutines b) = 0%nat) as H0.
  { destruct (decide (0 < count inside (goroutines b))%nat) as [(i & g & Hg & Hin)%count_pos | ?]; [| lia].
    destruct g; try done; [by apply Hrun in Hg | by apply Hsent in Hg]. }
  assert (Forall (eq Finished) (goroutines b)) as Hall.
  { apply Forall_lookup. intros i g Hg. destruct g; [exfalso | by apply Hrun in Hg | by apply Hsent in Hg | done].
    apply (Hstuck _ (batch_enter opts b i Hg ltac:(lia))). }
  split; [| done]. intros Ha. apply (Hstuck (return_ Cancelled b)).
  destruct (decide (length (received b) = length (goroutines b))) as [He | Hne]; [| apply batch_cancel; [done | lia]].
  exfalso. by apply (Hstuck _ (batch_done opts b Ha He)).
Qed.

(** A batch with a positive concurrency comes to its end: it takes at most
    four steps for each package and one more, and where it can go no further it
    has returned and all its goroutines have finished - also when it returned
    early, at an error or a cancellation. *)
Theorem batch_finishes refs opts b n :
  (0 < Concurrency opts)%nat -> nsteps (batchStep opts) n (startBatch refs) b ->
  (n <= 4 * refs + 1)%nat /\
  ((forall b', ~ batchStep opts b b') -> answer b <> None /\ Forall (eq Finished) (goroutines b)).
Proof.
  intros Hpos Hn. split.
  - assert (forall b0 b1, nsteps (batchStep opts) n b0 b1 -> (n + measure b1 <= measure b0)%nat) as Hm.
    { clear. intros b0 b1 H. induction H as [| n x y z Hs _ IH]; [lia |]. apply batch_decreases in Hs. lia. }
    apply Hm in Hn. enough (measure (startBatch refs) = (4 * refs + 1)%nat) by lia. unfold measure.
    change (total (replicate refs Waiting) + (length (replicate refs Waiting) - 0) + 1 = 4 * refs + 1)%nat.
    rewrite length_replicate. enough (total (replicate refs Waiting) = (3 * refs)%nat) by lia.
    clear. induction refs as [| r IH]; [done |]. cbn [replicate]. rewrite total_cons. unfold togo. lia.
  - apply (batch_stuck refs); [done |]. apply BatchInv_reachable, rtc_nsteps. by exists n.
Qed.

(** With concurrency 0 nothing runs: the channel has no buffer, and the only
    one to receive from it is who has sent. *)
Lemma batch_zero_stuck refs opts b : Concurrency opts = 0%nat -> (0 < refs)%nat ->
  rtc (batchStep opts) (startBatch refs) b -> received b = [] /\ answer b ∈ [None; Some Cancelled].
Proof.
  intros H0 Hpos Hr.
  assert (goroutines b = replicate refs Waiting /\ results b = [] /\ received b = [] /\ answer b ∈ [None; Some Cancelled])
    as (_ & _ & ? & ?); [| done].
  apply (rtc_ind_r (λ b, goroutines b = replicate refs Waiting /\ results b = [] /\ received b = [] /\
    answer b ∈ [None; Some Cancelled]) (startBatch refs)) in Hr; [done | repeat split; by constructor |].
  intros b1 b2 _ Hs (Hg & Hres & Hrec & Ha).
  destruct Hs as [i _ Hlt | i e E _ | i E _ | o _ _ Ho | Hn Hlt | Hn Hlt].
  - lia.
  - rewrite Hg in E. by apply lookup_replicate in E as [? _].
  - rewrite Hg in E. by apply lookup_replicate in E as [? _].
  - by rewrite Hres in Ho.
  - split; [done |]. split; [done |]. split; [done |]. by right; left.
  - rewrite Hrec, Hg, length_replicate in Hlt. cbn in Hlt. lia.
Qed.

(** ** Witnesses *)

#[local] Existing Instances plainKube memory memoryLaws.

Definition ref_nf : PackageReference := mkPackageReference "blueprints" "nf" "v1".

(** All clock reads of a transition at one instant; [keys] are those of the
    table of locks. *)
Definition at_ (t : Time) (keys : list string) : TransitionDraws :=
  mkTransitionDraws t (clock t []) (mkLockDraws t t t t (t, t)) (t, t) (t, t) t (t, t) keys (t, t).

Definition theKeys : list string := [GetPackageKey ref_nf].

Lemma run_parts {A B C D} (x : A * B * (C * D)) d : x.2.2 = d -> x = (x.1.1, x.1.2, (x.2.1, d)).
Proof. destruct x as [[a b] [c d']]. by intros <-. Qed.

(** The draft is proposed, with the gates of a new manager. *)
Definition manager0 : Manager := NewLifecycleManager 0 None.
Definition proposed := performTransition (at_ 5 theKeys) ref_nf PackageRevisionLifecycleProposed None manager0 PorchClient.fresh.

Lemma proposed_run : proposed.2.2 = None /\ lifecycleLocks proposed.1.1 = ∅ /\
  length (eventQueue proposed.1.1) = 4%nat.
Proof. by vm_compute. Qed.

Lemma transition_outcome_witness : exists r s1 pkg, proposed.2.1 = Some r /\
  GetPackageRevision (clock 5 []) "nf" "v1" PorchClient.fresh = (s1, Ok pkg) /\ Success r = true /\
  exists p u, packages s1 !! pkg = Some p /\
    wrote PorchClient.fresh proposed.1.2 (set_Lifecycle PackageRevisionLifecycleProposed p) u.
Proof.
  destruct (transition_outcome (at_ 5 theKeys) ref_nf PackageRevisionLifecycleProposed None manager0 PorchClient.fresh
    proposed.1.1 proposed.1.2 proposed.2.1 None (default_gates_quiet 0 None _) (run_parts _ _ (proj1 proposed_run)))
    as (r & s1 & pkg & Er & Eg & _ & _ & _ & _ & Hs & Hw).
  exists r, s1, pkg. split; [exact Er | split; [exact Eg | split; [by apply Hs | exact Hw]]].
Defined.

(** A hook that always fails. *)
Definition refusing : IntegrationHook := mkHook "refuses" false (λ _ _ _ s, (s, Err "no")).
Definition manager1 : Manager := (RegisterIntegrationHook 0 PackageRevisionLifecycleProposed refusing manager0).1.
Definition proposed1 := performTransition (at_ 5 theKeys) ref_nf PackageRevisionLifecycleProposed None manager1 PorchClient.fresh.

Lemma registerActions_Forall (P : IntegrationHook -> Prop) room hook actions r : P hook ->
  Separate r -> (forall action, Forall P (registered action r)) ->
  forall action, Forall P (registered action (registerActions room hook actions r).1).
Proof.
  intros Hh. revert r. induction actions as [| a actions IH]; intros r HS Hr; cbn [registerActions]; [done |].
  destruct (Register hook_ID room a hook r) as [r1 [[] | e]] eqn:E;
    apply (Register_spec _ _ _ _ _ _ _ HS) in E as [HS1 [([=] & _ & Hr1) | ([=] & _ & Hr1)]].
  - apply IH; [done |]. intros action. rewrite Hr1. case_decide; [| done]. apply Forall_app. split; [done | by constructor].
  - intros action. cbn. by rewrite Hr1.
Qed.

Lemma manager0_hooks : integrationHooks manager0 !! PackageRevisionLifecycleProposed = Some noneRegistered.
Proof. reflexivity. Qed.

Lemma manager1_silent action : Forall silent (hooksOf PackageRevisionLifecycleProposed action manager1).
Proof.
  unfold hooksOf, manager1, RegisterIntegrationHook. rewrite manager0_hooks. cbn [default].
  destruct (registerActions _ _ _ _) as [r res] eqn:E. cbn [fst integrationHooks with_hooks].
  rewrite lookup_insert_eq. cbn [default]. replace r with (r, res).1 by done. rewrite <- E.
  apply registerActions_Forall.
  - exact (λ _ _ _ s, eq_refl s).
  - apply Separate_none.
  - intros a. constructor.
Qed.

Lemma proposed1_run : proposed1.2.2 = None /\
  (Success <$> proposed1.2.1) = Some true /\
  (her_Success <$> (proposed1.2.1 ≫= HookResults)) = Some false.
Proof. by vm_compute. Qed.

Lemma hooks_never_veto_witness : exists r2,
  performTransition (at_ 5 theKeys) ref_nf PackageRevisionLifecycleProposed None (with_hooks ∅ manager1) PorchClient.fresh =
    (with_hooks ∅ proposed1.1.1, proposed1.1.2, (r2, None)) /\
  forget <$> r2 = forget <$> proposed1.2.1.
Proof.
  apply (hooks_never_veto (at_ 5 theKeys) ref_nf PackageRevisionLifecycleProposed None manager1 PorchClient.fresh
    proposed1.1.1 proposed1.1.2 proposed1.2.1 None manager1_silent (run_parts _ _ (proj1 proposed1_run))).
Defined.

(** The client has read the draft; then another client writes it, so that the
    server refuses the update made from the older version. *)
Definition behind : St := with_world ({[ "nf-v1" := versioned 2 draft ]} : World) readOnce.
Definition refused := performTransition (at_ 6 theKeys) ref_nf PackageRevisionLifecycleProposed None manager0 behind.

Lemma refused_run : refused.2.2 = Some (UpdateFailed (ApiFailed ApiRefused)) /\
  cache (client refused.1.2) ≫= getCached 7 (packageKey "nf" "v1") = Some (CachedPackage 0).
Proof. by vm_compute. Qed.

Lemma failed_update_blocks_retry_witness : exists c r, cache (client behind) = Some c /\
  performTransition (at_ 7 theKeys) ref_nf PackageRevisionLifecycleProposed None manager0 refused.1.2 =
    (manager0, refused.1.2, (Some r, Some (InvalidTransition PackageRevisionLifecycleProposed PackageRevisionLifecycleProposed))) /\
  Success r = false.
Proof.
  destruct refused_run as [E1 E2]. destruct (cache (client behind)) as [c |] eqn:Hc; [| by vm_compute in Hc].
  destruct (failed_update_blocks_retry (at_ 6 theKeys) (at_ 7 theKeys) ref_nf PackageRevisionLifecycleProposed None None
    manager0 manager0 behind refused.1.1 refused.1.2 refused.2.1 _ c (default_gates_quiet 0 None _) Hc
    (run_parts _ _ E1)) as (r & E & Hs); [done | |].
  - cbn [draws_get at_ now_get clock PackageName Revision ref_nf]. by rewrite E2.
  - exists c, r. split; [done | split; [exact E | exact Hs]].
Defined.

(** The documented lifecycle has no way back from Published, but a transition
    takes it. *)
Definition published : St :=
  mkSt (mkClient true (Some (newCache 0 0))) [] [] ({[ "nf-v1" := set_Lifecycle PackageRevisionLifecyclePublished draft ]} : World).

Lemma transition_ignores_table :
  CanTransitionTo PackageRevisionLifecyclePublished PackageRevisionLifecycleDraft = false /\
  let run := TransitionToDraft (at_ 5 theKeys) ref_nf None manager0 published in
  run.2.2 = None /\ Success <$> run.2.1 = Some true /\
  (Lifecycle ∘ Spec) <$> ((world run.1.2 : gmap string PackageRevision) !! "nf-v1") = Some PackageRevisionLifecycleDraft.
Proof. by vm_compute. Qed.

(** Without a timeout two holders have the lock at once. *)
Definition draws1 : LockDraws := mkLockDraws unixEpoch unixEpoch unixEpoch unixEpoch (unixEpoch, unixEpoch).
Definition later1 : Time := unixEpoch + 1.
Definition draws2 : LockDraws := mkLockDraws later1 later1 later1 later1 (later1, later1).
Definition lock1 : LifecycleLock := newLock draws1 ref_nf "transition" 0.
Definition lock2 : LifecycleLock := newLock draws2 ref_nf "transition" 0.
Definition taken1 : Manager := (AcquireLifecycleLock draws1 ref_nf "transition" 0 manager0).1.
Definition taken2 : Manager := (AcquireLifecycleLock draws2 ref_nf "transition" 0 taken1).1.

Lemma lock_runs :
  (AcquireLifecycleLock draws1 ref_nf "transition" 0 manager0).2 = Ok lock1 /\
  (AcquireLifecycleLock draws2 ref_nf "transition" 0 taken1).2 = Ok lock2.
Proof. by vm_compute. Qed.

Lemma locks_exclude_witness : ExpiresAt lock1 < AcquiredAt lock2 /\
  lifecycleLocks taken2 !! GetPackageKey ref_nf = Some lock2.
Proof.
  assert (rtc lockStep (mkLocks unixEpoch manager0 []) (mkLocks later1 taken2 [lock2; lock1])) as Hr.
  { eapply rtc_l; [| apply rtc_once].
    - apply (lock_acquire unixEpoch manager0 [] draws1 ref_nf "transition" 0); [done | done | by vm_compute |].
      exact (pair_snd _ _ (proj1 lock_runs)).
    - apply (lock_acquire unixEpoch taken1 [lock1] draws2 ref_nf "transition" 0); [done | by vm_compute | by vm_compute |].
      exact (pair_snd _ _ (proj2 lock_runs)). }
  assert (datable unixEpoch) as Hd by (by vm_compute).
  destruct (locks_exclude unixEpoch manager0 _ Hd eq_refl Hr) as [H1 H2]. split.
  - by apply (H1 [] [] [] lock2 lock1).
  - apply (H2 lock2); [by left | done].
Defined.

(** One package, whose transition succeeds. *)
Definition batchEnd : Batch := mkBatch [Finished] 0 [] [(0%nat, None)] 1 0 (Some (Collected true)).

Lemma batch_runs : nsteps (batchStep defaultBatchOptions) 5 (startBatch 1) batchEnd.
Proof.
  eapply nsteps_l; [apply (batch_enter _ _ 0); [done | cbn; lia] |].
  eapply nsteps_l; [apply (batch_send _ _ 0 None); [done | cbn; lia] |].
  eapply nsteps_l; [apply (batch_leave _ _ 0); [done | cbn; lia] |].
  eapply nsteps_l; [eapply batch_collect; [done | cbn; lia | done] |].
  eapply nsteps_l; [apply batch_done; done |]. apply nsteps_O.
Qed.

Lemma batch_counts_witness :
  (count inside [Finished] <= 5)%nat /\ [0%nat] ≡ₚ seq 0 1.
Proof.
  assert (rtc (batchStep defaultBatchOptions) (startBatch 1) batchEnd) as Hr
    by (apply rtc_nsteps; exists 5%nat; exact batch_runs).
  destruct (batch_counts 1 defaultBatchOptions batchEnd Hr) as [H1 H2].
  split; [exact H1 |]. by apply (H2 true).
Defined.

Lemma batch_finishes_witness : (5 <= 4 * 1 + 1)%nat.
Proof. apply (batch_finishes 1 defaultBatchOptions batchEnd 5); [cbn; lia | exact batch_runs]. Defined.
