(* ===== verification/ParallelEngine.v ===== *)
(** * ParallelEngine: controllers/parallel/engine.go

    The engine that runs the stages of an intent in parallel: its task queue,
    a dispatcher and workers for each stage, the processing of results, and
    the workflow of an intent.  Tasks are shared by pointer between the caller
    of [SubmitTask], the queues and the workers, so they live in a store.  The
    goroutines are the step relation [step], whose steps are single channel
    operations and critical sections.  What a stage's work results in - the
    source simulates it with timers - is left open; so is which of several
    ready goroutines moves. *)

From S2P Require Import Prelude GoFloat.
From stdpp Require Import pretty.

Local Open Scope Z_scope.

(** ** Tasks *)

Abbreviation TaskType := string.
Definition TaskTypeIntentParsing : TaskType := "intent_parsing".
Definition TaskTypeIntentProcessing : TaskType := "intent_processing".
Definition TaskTypeLLMProcessing : TaskType := "llm_processing".
Definition TaskTypeRAGQuery : TaskType := "rag_query".
Definition TaskTypeRAGRetrieval : TaskType := "rag_retrieval".
Definition TaskTypeResourcePlanning : TaskType := "resource_planning".
Definition TaskTypeManifestGeneration : TaskType := "manifest_generation".
Definition TaskTypeGitOpsCommit : TaskType := "gitops_commit".
Definition TaskTypeDeployment : TaskType := "deployment".
Definition TaskTypeDeploymentVerify : TaskType := "deployment_verify".

Abbreviation TaskStatus := string.
Definition TaskStatusPending : TaskStatus := "pending".
Definition TaskStatusRunning : TaskStatus := "running".
Definition TaskStatusCompleted : TaskStatus := "completed".
Definition TaskStatusFailed : TaskStatus := "failed".
Definition TaskStatusCancelled : TaskStatus := "cancelled".
Definition TaskStatusRetrying : TaskStatus := "retrying".

Inductive TaskError := ContextCanceled | DeadlineExceeded | UnknownTaskType (t : TaskType).

(** The fields that the engine and the scheduler read or write; [Cancelled]
    tells whether the task's context has been cancelled. *)
Record Task := mkTask {
  ID : string;
  IntentID : string;
  Type_ : TaskType;
  Priority : Z;
  Status : TaskStatus;
  InputData : string;
  OutputData : option string;
  Error : option TaskError;
  Cancelled : bool;
  Timeout : Duration;
  CreatedAt : Time;
  StartedAt : option Time;
  CompletedAt : option Time;
  ScheduledAt : option Time;
  Dependencies : list string;
  Metadata : gmap string string
}.

Definition eta_task (t : Task) : Task :=
  mkTask (ID t) (IntentID t) (Type_ t) (Priority t) (Status t) (InputData t) (OutputData t) (Error t) (Cancelled t)
    (Timeout t) (CreatedAt t) (StartedAt t) (CompletedAt t) (ScheduledAt t) (Dependencies t) (Metadata t).

Definition set_Status : TaskStatus -> Task -> Task := ltac:(record_setter eta_task Status).
Definition set_OutputData : option string -> Task -> Task := ltac:(record_setter eta_task OutputData).
Definition set_Error : option TaskError -> Task -> Task := ltac:(record_setter eta_task Error).
Definition set_Cancelled : bool -> Task -> Task := ltac:(record_setter eta_task Cancelled).
Definition set_StartedAt : option Time -> Task -> Task := ltac:(record_setter eta_task StartedAt).
Definition set_CompletedAt : option Time -> Task -> Task := ltac:(record_setter eta_task CompletedAt).
Definition set_ScheduledAt : option Time -> Task -> Task := ltac:(record_setter eta_task ScheduledAt).

(** ** Configuration *)

Record ParallelProcessingConfig := mkEngineConfig {
  MaxConcurrentIntents : Z;
  IntentPoolSize : nat;
  LLMPoolSize : nat;
  RAGPoolSize : nat;
  ResourcePoolSize : nat;
  ManifestPoolSize : nat;
  GitOpsPoolSize : nat;
  DeploymentPoolSize : nat;
  TaskQueueSize : nat;
  HealthCheckInterval : Duration;
  IntentTimeout : Duration;
  LLMTimeout : Duration;
  ManifestTimeout : Duration;
  DeploymentTimeout : Duration;
  MaxRetries : Z;
  RetryBackoff : Duration;
  RetryMultiplier : float64
}.

Definition defaultEngineConfig : ParallelProcessingConfig :=
  mkEngineConfig 50 10 5 5 8 8 4 6 1000 (30 * Second) (5 * Minute) (2 * Minute) (1 * Minute) (10 * Minute)
    3 (5 * Second) (f64_of_int 2).

Definition or_default (d : Duration) (x : Duration) : Duration := if x =? 0 then d else x.

(** The defaults of the timeouts. *)
Definition withTimeouts (c : ParallelProcessingConfig) : ParallelProcessingConfig :=
  mkEngineConfig (MaxConcurrentIntents c) (IntentPoolSize c) (LLMPoolSize c) (RAGPoolSize c) (ResourcePoolSize c)
    (ManifestPoolSize c) (GitOpsPoolSize c) (DeploymentPoolSize c) (TaskQueueSize c)
    (or_default (30 * Second) (HealthCheckInterval c)) (or_default (5 * Minute) (IntentTimeout c))
    (or_default (2 * Minute) (LLMTimeout c)) (or_default (1 * Minute) (ManifestTimeout c))
    (or_default (10 * Minute) (DeploymentTimeout c)) (MaxRetries c) (RetryBackoff c) (RetryMultiplier c).

(** ** The state *)

(** What a worker is doing with its task. *)
Inductive Progress := Taken | Started | Finished.

Record Worker := mkWorker {
  Queue : list nat;
  current : option (nat * Progress)
}.

(** The goroutine [dispatchTasks] of a type of task and its workers. *)
Record Pool := mkPool {
  pool_type : TaskType;
  workerIndex : nat;
  holding : option nat;
  workers : list Worker
}.

Record ProcessingMetrics := mkMetrics {
  TotalTasks : Z;
  SuccessfulTasks : Z;
  FailedTasks : Z;
  AverageLatency : Duration;
  SuccessRate : float64
}.

(** [cancelled] is the state of the engine's context. *)
Record Engine := mkEngine {
  config : ParallelProcessingConfig;
  running : bool;
  cancelled : bool;
  store : list Task;
  tasks : gmap string nat;
  taskQueue : list nat;
  resultChan : list nat;
  pools : list Pool;
  metrics : ProcessingMetrics
}.

Definition eta_engine (e : Engine) : Engine :=
  mkEngine (config e) (running e) (cancelled e) (store e) (tasks e) (taskQueue e) (resultChan e) (pools e) (metrics e).

Definition set_running : bool -> Engine -> Engine := ltac:(record_setter eta_engine running).
Definition set_cancelled : bool -> Engine -> Engine := ltac:(record_setter eta_engine cancelled).
Definition set_store : list Task -> Engine -> Engine := ltac:(record_setter eta_engine store).
Definition set_tasks : gmap string nat -> Engine -> Engine := ltac:(record_setter eta_engine tasks).
Definition set_taskQueue : list nat -> Engine -> Engine := ltac:(record_setter eta_engine taskQueue).
Definition set_resultChan : list nat -> Engine -> Engine := ltac:(record_setter eta_engine resultChan).
Definition set_pools : list Pool -> Engine -> Engine := ltac:(record_setter eta_engine pools).
Definition set_metrics : ProcessingMetrics -> Engine -> Engine := ltac:(record_setter eta_engine metrics).

(** The task behind a pointer is changed. *)
Definition on_task (f : Task -> Task) (t : nat) (e : Engine) : Engine := set_store (alter f t (store e)) e.

Definition NewParallelProcessingEngine (c : option ParallelProcessingConfig) : Engine :=
  mkEngine (withTimeouts (default defaultEngineConfig c)) false false [] ∅ [] [] []
    (mkMetrics 0 0 0 0 f64_zero).

Definition createWorkers (taskType : TaskType) (poolSize : nat) : Pool :=
  mkPool taskType 0 None (replicate poolSize (mkWorker [] None)).

Definition initializeWorkerPools (c : ParallelProcessingConfig) : list Pool :=
  [createWorkers TaskTypeIntentParsing (IntentPoolSize c);
   createWorkers TaskTypeLLMProcessing (LLMPoolSize c);
   createWorkers TaskTypeRAGQuery (RAGPoolSize c);
   createWorkers TaskTypeResourcePlanning (ResourcePoolSize c);
   createWorkers TaskTypeManifestGeneration (ManifestPoolSize c);
   createWorkers TaskTypeGitOpsCommit (GitOpsPoolSize c);
   createWorkers TaskTypeDeployment (DeploymentPoolSize c)].

Inductive EngineError := AlreadyRunning | NotRunning | QueueFull (len cap : nat) | TooManyRunning (n : Z).

Definition Start (e : Engine) : Engine * result EngineError unit :=
  if running e then (e, Err AlreadyRunning)
  else (set_running true (set_pools (initializeWorkerPools (config e)) e), Ok tt).

(** The types that have a dispatcher. *)
Definition handledTypes : list TaskType :=
  [TaskTypeIntentParsing; TaskTypeLLMProcessing; TaskTypeRAGQuery; TaskTypeResourcePlanning;
   TaskTypeManifestGeneration; TaskTypeGitOpsCommit; TaskTypeDeployment].

(** ** Operations *)

(** [SubmitTask] makes three separate moves: it records the task, sends it, and
    sets its status. *)
Definition recordTask (t : nat) (e : Engine) : Engine :=
  match store e !! t with
  | Some task => set_tasks (<[ID task := t]> (tasks e)) e
  | None => e
  end.

Definition GetTask (id : string) (e : Engine) : option Task := tasks e !! id ≫= λ t, store e !! t.

Definition countTasksByStatus (status : TaskStatus) (e : Engine) : Z :=
  Z.of_nat (length (filter (λ kt, (Status <$> store e !! kt.2) = Some status) (map_to_list (tasks e)))).

(** A float times the size of the queue, truncated. *)
Definition nine_tenths (n : nat) : Z := f64_to_int (f64_mul (f64_of_int (Z.of_nat n)) (f64_ratio 9 10)).

Definition HealthCheck (e : Engine) : result EngineError unit :=
  if negb (running e) then Err NotRunning
  else if nine_tenths (TaskQueueSize (config e)) <? Z.of_nat (length (taskQueue e))
  then Err (QueueFull (length (taskQueue e)) (TaskQueueSize (config e)))
  else
    let runningTasks := countTasksByStatus TaskStatusRunning e in
    if MaxConcurrentIntents (config e) * 2 <? runningTasks then Err (TooManyRunning runningTasks) else Ok tt.

(** The begin and the end of [processTask] of a worker.  Work on a task of a
    known type ends well or with the error of its context. *)
Definition startTask (now : Time) (task : Task) : Task :=
  set_Status TaskStatusRunning (set_StartedAt (Some now) task).

Inductive Outcome := Worked | Interrupted (timedOut : bool).

Definition work (o : Outcome) (task : Task) : Task * option TaskError :=
  if decide (Type_ task ∈ handledTypes) then
    match o with
    | Worked => (set_OutputData (Some "{}") task, None)
    | Interrupted timedOut => (task, Some (if timedOut then DeadlineExceeded else ContextCanceled))
    end
  else (task, Some (UnknownTaskType (Type_ task))).

Definition finishTask (now : Time) (o : Outcome) (task : Task) : Task :=
  let '(task, err) := work o task in
  let task := set_Error err (set_CompletedAt (Some now) task) in
  set_Status (match err with Some _ => TaskStatusFailed | None => TaskStatusCompleted end) task.

Definition updateTaskMetrics (task : Task) (m : ProcessingMetrics) : ProcessingMetrics :=
  let total := TotalTasks m + 1 in
  let failed := FailedTasks m + (match Error task with Some _ => 1 | None => 0 end) in
  let successful := SuccessfulTasks m + (match Error task with Some _ => 0 | None => 1 end) in
  let latency :=
    match StartedAt task, CompletedAt task with
    | Some start, Some stop =>
        f64_to_int (f64_div
          (f64_add (f64_mul (f64_of_int (AverageLatency m)) (f64_sub (f64_of_int total) f64_one))
                   (f64_of_int (time_Sub stop start)))
          (f64_of_int total))
    | _, _ => AverageLatency m
    end in
  mkMetrics total successful failed latency (if 0 <? total then f64_ratio successful total else SuccessRate m).

Definition handleTaskResult (t : nat) (e : Engine) : Engine :=
  match store e !! t with
  | Some task => set_metrics (updateTaskMetrics task (metrics e)) (set_tasks (<[ID task := t]> (tasks e)) e)
  | None => e
  end.

(** *** Workflows *)

(** The priorities of api/v1, which is not part of this repository. *)
Class ApiV1 := {
  NetworkPriority : Type;
  NetworkPriority_dec : EqDecision NetworkPriority;
  NetworkPriorityLow : NetworkPriority;
  NetworkPriorityNormal : NetworkPriority;
  NetworkPriorityHigh : NetworkPriority;
  NetworkPriorityCritical : NetworkPriority
}.
#[local] Existing Instance NetworkPriority_dec.

Definition priorityToInt `{ApiV1} (priority : NetworkPriority) : Z :=
  if decide (priority = NetworkPriorityLow) then 1
  else if decide (priority = NetworkPriorityNormal) then 2
  else if decide (priority = NetworkPriorityHigh) then 3
  else if decide (priority = NetworkPriorityCritical) then 4
  else 2.

(** The two tasks of an intent; the second names the first as its dependency. *)
Definition createWorkflowTasks `{ApiV1} (c : ParallelProcessingConfig) (now1 now2 : Time) (intent : string)
    (priority : NetworkPriority) (workflowID : string) : list Task :=
  let new suffix type deps timeout now stage :=
    mkTask (workflowID +:+ suffix) intent type (priorityToInt priority) TaskStatusPending "{}" None None false timeout
      now None None None deps (<["workflow" := workflowID]> (<["stage" := stage]> ∅)) in
  [new "-intent-parsing" TaskTypeIntentParsing [] (IntentTimeout c) now1 "parsing";
   new "-llm-processing" TaskTypeLLMProcessing [workflowID +:+ "-intent-parsing"] (LLMTimeout c) now2 "llm"].

Definition unfinished (task : Task) : bool :=
  String.eqb (Status task) TaskStatusPending || String.eqb (Status task) TaskStatusRunning.

(** A tick of [waitForWorkflowCompletion]: the answer, if there is one yet. *)
Definition workflowTick (ts : list nat) (e : Engine) : option bool :=
  let l := omap (λ t, store e !! t) ts in
  if existsb unfinished l then None
  else Some (negb (existsb (λ task, String.eqb (Status task) TaskStatusFailed) l)).

(** What it does when its context ends. *)
Definition cancelTask (task : Task) : Task :=
  if unfinished task then set_Status TaskStatusCancelled (set_Cancelled true task) else task.

Definition cancelWorkflow (ts : list nat) (e : Engine) : Engine := foldr (on_task cancelTask) e ts.

(** ** The running engine *)

(** The calls of [SubmitTask] on their way: whether the task is in the queue
    already.  The last three fields record what has happened: the tasks that the
    queue has accepted, those whose results were handled, and those that a
    dispatcher has thrown away or taken along when it stopped. *)
Record System := mkSystem {
  engine : Engine;
  submitting : list (nat * bool);
  accepted : list nat;
  recorded : list nat;
  dropped : list nat
}.

(** The queue of a worker holds ten tasks. *)
Definition workerCapacity : nat := 10.

Definition set_holding (h : option nat) (p : Pool) : Pool := mkPool (pool_type p) (workerIndex p) h (workers p).

(** The next worker, [w], gets the task in hand. *)
Definition assign (t : nat) (w : Worker) (p : Pool) : Pool :=
  mkPool (pool_type p) ((workerIndex p + 1) mod length (workers p)) None
    (<[workerIndex p := mkWorker (Queue w ++ [t]) (current w)]> (workers p)).

Definition set_workers (ws : list Worker) (p : Pool) : Pool := mkPool (pool_type p) (workerIndex p) (holding p) ws.

Definition with_pool (i : nat) (p : Pool) (e : Engine) : Engine := set_pools (<[i := p]> (pools e)) e.
Definition with_worker (i j : nat) (p : Pool) (w : Worker) (e : Engine) : Engine :=
  with_pool i (set_workers (<[j := w]> (workers p)) p) e.

Definition isType (e : Engine) (t : nat) (taskType : TaskType) : Prop := Type_ <$> store e !! t = Some taskType.

#[global] Instance isType_dec e t taskType : Decision (isType e t taskType).
Proof. unfold isType. apply _. Defined.

(** One move of one goroutine.  The queue and the channel of results are taken to
    be buffered, as they are unless they are configured to have size 0.  A
    goroutine that has been told to stop may still receive once more, since
    [select] chooses among what is ready. *)
Inductive step : System -> System -> Prop :=
(* SubmitTask *)
| submit_record e sub acc rec drop t : running e = true -> is_Some (store e !! t) ->
    step (mkSystem e sub acc rec drop) (mkSystem (recordTask t e) (sub ++ [(t, false)]) acc rec drop)
| submit_send e sub sub' acc rec drop t : (length (taskQueue e) < TaskQueueSize (config e))%nat ->
    step (mkSystem e (sub ++ (t, false) :: sub') acc rec drop)
      (mkSystem (set_taskQueue (taskQueue e ++ [t]) e) (sub ++ (t, true) :: sub') (acc ++ [t]) rec drop)
| submit_full e sub sub' acc rec drop t : (TaskQueueSize (config e) <= length (taskQueue e))%nat ->
    step (mkSystem e (sub ++ (t, false) :: sub') acc rec drop) (mkSystem e (sub ++ sub') acc rec drop)
| submit_status e sub sub' acc rec drop t :
    step (mkSystem e (sub ++ (t, true) :: sub') acc rec drop)
      (mkSystem (on_task (set_Status TaskStatusPending) t e) (sub ++ sub') acc rec drop)
(* dispatchTasks *)
| dispatch_take e sub acc rec drop i p t q : pools e !! i = Some p -> holding p = None -> taskQueue e = t :: q ->
    step (mkSystem e sub acc rec drop)
      (mkSystem (with_pool i (set_holding (Some t) p) (set_taskQueue q e)) sub acc rec drop)
| dispatch_assign e sub acc rec drop i p t w : pools e !! i = Some p -> holding p = Some t -> isType e t (pool_type p) ->
    workers p !! workerIndex p = Some w -> (length (Queue w) < workerCapacity)%nat ->
    step (mkSystem e sub acc rec drop) (mkSystem (with_pool i (assign t w p) e) sub acc rec drop)
| dispatch_return e sub acc rec drop i p t : pools e !! i = Some p -> holding p = Some t -> ~ isType e t (pool_type p) ->
    running e = true -> (length (taskQueue e) < TaskQueueSize (config e))%nat ->
    step (mkSystem e sub acc rec drop)
      (mkSystem (with_pool i (set_holding None p) (set_taskQueue (taskQueue e ++ [t]) e)) sub acc rec drop)
| dispatch_drop e sub acc rec drop i p t : pools e !! i = Some p -> holding p = Some t -> ~ isType e t (pool_type p) ->
    running e = true -> (TaskQueueSize (config e) <= length (taskQueue e))%nat ->
    step (mkSystem e sub acc rec drop)
      (mkSystem (with_pool i (set_holding None p) e) sub acc rec (drop ++ [t]))
| dispatch_stop e sub acc rec drop i p t : pools e !! i = Some p -> holding p = Some t ->
    running e = false \/ cancelled e = true ->
    step (mkSystem e sub acc rec drop)
      (mkSystem (with_pool i (set_holding None p) e) sub acc rec (drop ++ [t]))
(* Run and processTask *)
| worker_take e sub acc rec drop i j p w t q : pools e !! i = Some p -> workers p !! j = Some w ->
    current w = None -> Queue w = t :: q ->
    step (mkSystem e sub acc rec drop)
      (mkSystem (with_worker i j p (mkWorker q (Some (t, Taken))) e) sub acc rec drop)
| worker_start e sub acc rec drop i j p w t now : pools e !! i = Some p -> workers p !! j = Some w ->
    current w = Some (t, Taken) ->
    step (mkSystem e sub acc rec drop)
      (mkSystem (with_worker i j p (mkWorker (Queue w) (Some (t, Started))) (on_task (startTask now) t e)) sub acc rec drop)
| worker_finish e sub acc rec drop i j p w t now o : pools e !! i = Some p -> workers p !! j = Some w ->
    current w = Some (t, Started) ->
    step (mkSystem e sub acc rec drop)
      (mkSystem (with_worker i j p (mkWorker (Queue w) (Some (t, Finished))) (on_task (finishTask now o) t e)) sub acc rec drop)
| worker_send e sub acc rec drop i j p w t : pools e !! i = Some p -> workers p !! j = Some w ->
    current w = Some (t, Finished) -> (length (resultChan e) < TaskQueueSize (config e))%nat ->
    step (mkSystem e sub acc rec drop)
      (mkSystem (with_worker i j p (mkWorker (Queue w) None) (set_resultChan (resultChan e ++ [t]) e)) sub acc rec drop)
| worker_abandon e sub acc rec drop i j p w t : pools e !! i = Some p -> workers p !! j = Some w ->
    current w = Some (t, Finished) -> cancelled e = true ->
    step (mkSystem e sub acc rec drop)
      (mkSystem (with_worker i j p (mkWorker (Queue w) None) e) sub acc rec (drop ++ [t]))
(* processResults *)
| result_handle e sub acc rec drop t q : resultChan e = t :: q ->
    step (mkSystem e sub acc rec drop)
      (mkSystem (handleTaskResult t (set_resultChan q e)) sub acc (rec ++ [t]) drop)
(* waitForWorkflowCompletion *)
| workflow_cancel e sub acc rec drop ts :
    step (mkSystem e sub acc rec drop) (mkSystem (cancelWorkflow ts e) sub acc rec drop)
(* Stop *)
| stop_engine e sub acc rec drop : running e = true ->
    step (mkSystem e sub acc rec drop) (mkSystem (set_cancelled true (set_running false e)) sub acc rec drop)
| stop_drain e sub acc rec drop t q : running e = false -> taskQueue e = t :: q ->
    step (mkSystem e sub acc rec drop) (mkSystem (set_taskQueue q e) sub acc rec (drop ++ [t]))
(* a caller makes a task *)
| new_task e sub acc rec drop task :
    step (mkSystem e sub acc rec drop) (mkSystem (set_store (store e ++ [task]) e) sub acc rec drop).

(** ** Where the tasks are *)

Definition inWorker (w : Worker) : list nat := Queue w ++ option_list (fst <$> current w).
Definition inPool (p : Pool) : list nat := option_list (holding p) ++ (workers p ≫= inWorker).

(** The channels and goroutines an accepted task can be in. *)
Definition underway (e : Engine) : list nat := taskQueue e ++ (pools e ≫= inPool) ++ resultChan e.

Definition Conserved (s : System) : Prop := accepted s ≡ₚ underway (engine s) ++ recorded s ++ dropped s.

Lemma pools_insert e i p p' : pools e !! i = Some p ->
  exists rest, (pools e ≫= inPool) ≡ₚ inPool p ++ rest /\ (pools (with_pool i p' e) ≫= inPool) ≡ₚ inPool p' ++ rest.
Proof. apply bind_insert. Qed.

(** A worker's tasks among those of the pools. *)
Lemma worker_insert e i j p w w' : pools e !! i = Some p -> workers p !! j = Some w ->
  exists rest, (pools e ≫= inPool) ≡ₚ inWorker w ++ rest /\
    (pools (with_worker i j p w' e) ≫= inPool) ≡ₚ inWorker w' ++ rest.
Proof.
  intros Hp Hw. destruct (pools_insert e i p (set_workers (<[j := w']> (workers p)) p) Hp) as (rest & E1 & E2).
  destruct (bind_insert inWorker (workers p) j w w' Hw) as (rest' & E3 & E4).
  exists (option_list (holding p) ++ rest' ++ rest). unfold with_worker. rewrite E1, E2. unfold inPool.
  cbn [holding workers set_workers]. rewrite E3, E4. split; solve_Permutation.
Qed.

Lemma recordTask_underway t e : underway (recordTask t e) = underway e.
Proof. unfold recordTask. by destruct (store e !! t). Qed.

Lemma handle_underway t e : underway (handleTaskResult t e) = underway e.
Proof. unfold handleTaskResult. by destruct (store e !! t). Qed.

Lemma cancel_rest ts e : pools (cancelWorkflow ts e) = pools e /\ resultChan (cancelWorkflow ts e) = resultChan e /\
  config (cancelWorkflow ts e) = config e /\ taskQueue (cancelWorkflow ts e) = taskQueue e /\
  metrics (cancelWorkflow ts e) = metrics e.
Proof. by induction ts as [| t ts IH]. Qed.

(** The cases of [step], with names. *)
Ltac step_cases Hs :=
  destruct Hs as
    [e sub acc rec drop t Hrun Ht
    | e sub sub' acc rec drop t Hcap
    | e sub sub' acc rec drop t Hcap
    | e sub sub' acc rec drop t
    | e sub acc rec drop i p t q Hp Hh Hq
    | e sub acc rec drop i p t w Hp Hh Hty Hw Hcap
    | e sub acc rec drop i p t Hp Hh Hty Hrun Hcap
    | e sub acc rec drop i p t Hp Hh Hty Hrun Hcap
    | e sub acc rec drop i p t Hp Hh Hrun
    | e sub acc rec drop i j p w t q Hp Hw Hc Hq
    | e sub acc rec drop i j p w t now Hp Hw Hc
    | e sub acc rec drop i j p w t now o Hp Hw Hc
    | e sub acc rec drop i j p w t Hp Hw Hc Hcap
    | e sub acc rec drop i j p w t Hp Hw Hc Hcan
    | e sub acc rec drop t q Hq
    | e sub acc rec drop ts
    | e sub acc rec drop Hrun
    | e sub acc rec drop t q Hrun Hq
    | e sub acc rec drop task].

(** The tasks of the pools before and after a step of a dispatcher or a worker. *)
Ltac pool_moves Hp p' :=
  let rest := fresh "rest" in let E1 := fresh "E" in let E2 := fresh "E" in
  match type of Hp with pools ?e !! ?i = Some ?p =>
    destruct (pools_insert e i p p' Hp) as (rest & E1 & E2);
    unfold underway; cbn [taskQueue resultChan pools with_pool set_pools set_taskQueue set_store on_task] in *;
    rewrite E1, E2; unfold inPool
  end.
Ltac worker_moves Hp Hw w' :=
  let rest := fresh "rest" in let E1 := fresh "E" in let E2 := fresh "E" in
  match type of Hp with pools ?e !! ?i = Some ?p => match type of Hw with _ !! ?j = Some ?w =>
    destruct (worker_insert e i j p w w' Hp Hw) as (rest & E1 & E2);
    unfold underway, with_worker in *;
    cbn [taskQueue resultChan pools with_pool set_pools set_taskQueue set_resultChan set_store on_task] in *;
    rewrite E1, E2; unfold inWorker
  end end.

Lemma Conserved_step s s' : step s s' -> Conserved s -> Conserved s'.
Proof.
  intros Hs HC. unfold Conserved in *. step_cases Hs; cbn [engine accepted recorded dropped] in *; rewrite ?HC.
  - by rewrite recordTask_underway.
  - unfold underway. cbn. solve_Permutation.
  - done.
  - done.
  - pool_moves Hp (set_holding (Some t) p). rewrite Hq, Hh. cbn. solve_Permutation.
  - pool_moves Hp (assign t w p). rewrite Hh. cbn [assign workers holding].
    destruct (bind_insert inWorker (workers p) (workerIndex p) w (mkWorker (Queue w ++ [t]) (current w)) Hw) as (r & F1 & F2).
    rewrite F1, F2. unfold inWorker. cbn. solve_Permutation.
  - pool_moves Hp (set_holding None p). rewrite Hh. cbn. solve_Permutation.
  - pool_moves Hp (set_holding None p). rewrite Hh. cbn. solve_Permutation.
  - pool_moves Hp (set_holding None p). rewrite Hh. cbn. solve_Permutation.
  - worker_moves Hp Hw (mkWorker q (Some (t, Taken))). rewrite Hc, Hq. cbn. solve_Permutation.
  - worker_moves Hp Hw (mkWorker (Queue w) (Some (t, Started))). rewrite Hc. cbn. solve_Permutation.
  - worker_moves Hp Hw (mkWorker (Queue w) (Some (t, Finished))). rewrite Hc. cbn. solve_Permutation.
  - worker_moves Hp Hw (mkWorker (Queue w) None). rewrite Hc. cbn. solve_Permutation.
  - worker_moves Hp Hw (mkWorker (Queue w) None). rewrite Hc. cbn. solve_Permutation.
  - rewrite handle_underway. unfold underway. cbn. rewrite Hq. solve_Permutation.
  - unfold underway. by destruct (cancel_rest ts e) as (-> & -> & _ & -> & _).
  - done.
  - unfold underway. cbn. rewrite Hq. solve_Permutation.
  - done.
Qed.

(** *** Types, capacities and counts *)

(** The types of existing tasks stay. *)
Definition types_kept (e e' : Engine) : Prop := forall t taskType, isType e t taskType -> isType e' t taskType.

Lemma on_task_kept f t e : (forall task, Type_ (f task) = Type_ task) -> types_kept e (on_task f t e).
Proof.
  intros Hf u ty. unfold isType, on_task. cbn. rewrite list_lookup_alter. case_decide as E; [| done]. subst.
  destruct (store e !! u); cbn; [by rewrite Hf | done].
Qed.

Lemma finishTask_type now o task : Type_ (finishTask now o task) = Type_ task.
Proof. unfold finishTask, work. destruct (decide _); [by destruct o |]. done. Qed.

Lemma cancelTask_type task : Type_ (cancelTask task) = Type_ task.
Proof. unfold cancelTask. by destruct (unfinished task). Qed.

Lemma cancel_kept ts e : types_kept e (cancelWorkflow ts e).
Proof.
  induction ts as [| t ts IH]; [by intros ? ? |]. intros u ty Hu. cbn.
  apply (on_task_kept cancelTask); [apply cancelTask_type | by apply IH].
Qed.

Definition typedWorker (e : Engine) (taskType : TaskType) (w : Worker) : Prop :=
  Forall (λ t, isType e t taskType) (inWorker w) /\ (length (Queue w) <= workerCapacity)%nat.
Definition typedPool (e : Engine) (p : Pool) : Prop :=
  Forall (typedWorker e (pool_type p)) (workers p) /\ pool_type p ∈ handledTypes.
Definition handled (e : Engine) (t : nat) : Prop := exists taskType, taskType ∈ handledTypes /\ isType e t taskType.

Record Typed (s : System) : Prop := {
  typed_pools : Forall (typedPool (engine s)) (pools (engine s));
  typed_done : Forall (handled (engine s)) (resultChan (engine s) ++ recorded s);
  typed_queue : (length (taskQueue (engine s)) <= TaskQueueSize (config (engine s)))%nat;
  typed_results : (length (resultChan (engine s)) <= TaskQueueSize (config (engine s)))%nat;
  typed_total : TotalTasks (metrics (engine s)) = Z.of_nat (length (recorded s));
  typed_sum : SuccessfulTasks (metrics (engine s)) + FailedTasks (metrics (engine s)) = TotalTasks (metrics (engine s))
}.

Lemma typedWorker_kept e e' ty w : types_kept e e' -> typedWorker e ty w -> typedWorker e' ty w.
Proof. intros Hk [Hf Hl]. split; [| done]. eapply Forall_impl; [exact Hf |]. intros t. apply Hk. Qed.

Lemma typedPool_kept e e' p : types_kept e e' -> typedPool e p -> typedPool e' p.
Proof. intros Hk [Hw Hty]. split; [| done]. eapply Forall_impl; [exact Hw |]. intros w. by apply typedWorker_kept. Qed.

Lemma handled_kept e e' l : types_kept e e' -> Forall (handled e) l -> Forall (handled e') l.
Proof. intros Hk Hf. eapply Forall_impl; [exact Hf |]. intros t (ty & Hin & Ht). exists ty. by split; [| apply Hk]. Qed.

(** What a step does to the parts that [Typed] looks at, one part at a time. *)
Lemma Typed_pool s e' i p p' sub acc drop :
  Typed s -> pools (engine s) !! i = Some p -> types_kept (engine s) e' ->
  pools e' = <[i := p']> (pools (engine s)) -> typedPool e' p' ->
  Forall (handled e') (resultChan e') -> config e' = config (engine s) -> metrics e' = metrics (engine s) ->
  (length (taskQueue e') <= TaskQueueSize (config e'))%nat -> (length (resultChan e') <= TaskQueueSize (config e'))%nat ->
  Typed (mkSystem e' sub acc (recorded s) drop).
Proof.
  intros [Hp Hd _ _ Ht Hs] Hi Hk Ep Hp' Hr _ Em Hq Hrc. split; cbn; rewrite ?Ep, ?Em; try done.
  - apply Forall_insert; [| done]. eapply Forall_impl; [exact Hp |]. intros x. by apply typedPool_kept.
  - rewrite Forall_app in *. split; [done |]. by eapply handled_kept; [| apply Hd].
Qed.

Lemma Typed_store s e' sub acc drop :
  Typed s -> types_kept (engine s) e' -> pools e' = pools (engine s) -> resultChan e' = resultChan (engine s) ->
  config e' = config (engine s) -> metrics e' = metrics (engine s) ->
  (length (taskQueue e') <= TaskQueueSize (config e'))%nat -> Typed (mkSystem e' sub acc (recorded s) drop).
Proof.
  intros [Hp Hd _ Hrc Ht Hs] Hk Ep Er Ec Em Hq. split; cbn; rewrite ?Ep, ?Em, ?Er, ?Ec; try done.
  - eapply Forall_impl; [exact Hp |]. intros x. by apply typedPool_kept.
  - by apply (handled_kept (engine s)).
  - by rewrite <- Ec.
Qed.

Lemma typedPool_same e p h k : typedPool e p -> typedPool e (mkPool (pool_type p) k h (workers p)).
Proof. by intros [Hw Hty]. Qed.

Lemma typedPool_worker e p j w w' : typedPool e p -> workers p !! j = Some w ->
  inWorker w' ⊆ inWorker w -> (length (Queue w') <= length (Queue w))%nat ->
  typedPool e (set_workers (<[j := w']> (workers p)) p).
Proof.
  intros [Hw Hty] Hj Hsub Hlen. split; [| done]. cbn. apply Forall_insert; [done |].
  pose proof (Forall_lookup_1 _ _ _ _ Hw Hj) as [Hf Hl]. split; [| lia].
  rewrite Forall_forall in *. intros t Ht. by apply Hf, Hsub.
Qed.

Ltac same := try done; try (by intros ? ?).

Lemma Typed_step s s' : step s s' -> Typed s -> Typed s'.
Proof.
  intros Hs HT. pose proof HT as [Hpools Hd Hq0 Hr0 Ht0 Hs0]. step_cases Hs; cbn [engine recorded] in *;
    try (pose proof (Forall_lookup_1 _ _ _ _ Hpools Hp) as HTp);
    try (assert (Forall (handled e) (resultChan e)) as HR by (rewrite Forall_app in Hd; apply Hd)).
  - eapply (Typed_store _ _ _ _ _ HT); unfold recordTask; destruct (store e !! t); same.
  - eapply (Typed_store _ _ _ _ _ HT); same. cbn. rewrite length_app. cbn. lia.
  - eapply (Typed_store _ _ _ _ _ HT); same.
  - eapply (Typed_store _ _ _ _ _ HT); same. by apply on_task_kept.
  - eapply (Typed_pool _ _ _ _ _ _ _ _ HT Hp); same. cbn. rewrite Hq in Hq0. cbn in Hq0. lia.
  - eapply (Typed_pool _ _ _ _ _ _ _ _ HT Hp); same. destruct HTp as [Hws Hty']. split; [| done]. cbn.
    apply Forall_insert; [done |]. pose proof (Forall_lookup_1 _ _ _ _ Hws Hw) as [Hf Hl]. split.
    + unfold inWorker in *. cbn. rewrite !Forall_app in *. destruct Hf as [? ?]. split; [split; [done |] | done]. by constructor.
    + cbn. rewrite length_app. cbn. lia.
  - eapply (Typed_pool _ _ _ _ _ _ _ _ HT Hp); same. cbn. rewrite length_app. cbn. lia.
  - eapply (Typed_pool _ _ _ _ _ _ _ _ HT Hp); same.
  - eapply (Typed_pool _ _ _ _ _ _ _ _ HT Hp); same.
  - eapply (Typed_pool _ _ _ _ _ _ _ _ HT Hp); same. eapply typedPool_worker; [done | done | |].
    + unfold inWorker. cbn. rewrite Hc, Hq. cbn. set_solver.
    + cbn. rewrite Hq. cbn. lia.
  - assert (types_kept e (on_task (startTask now) t e)) as Hk by (by apply on_task_kept).
    eapply (Typed_pool _ _ _ _ _ _ _ _ HT Hp); same; [| by apply (handled_kept e)].
    eapply typedPool_worker; [by eapply typedPool_kept | done | |]; unfold inWorker; cbn; by rewrite ?Hc.
  - assert (types_kept e (on_task (finishTask now o) t e)) as Hk by (apply on_task_kept, finishTask_type).
    eapply (Typed_pool _ _ _ _ _ _ _ _ HT Hp); same; [| by apply (handled_kept e)].
    eapply typedPool_worker; [by eapply typedPool_kept | done | |]; unfold inWorker; cbn; by rewrite ?Hc.
  - eapply (Typed_pool _ _ _ _ _ _ _ _ HT Hp); same.
    + eapply typedPool_worker; [done | done | |]; unfold inWorker; cbn; [rewrite Hc; set_solver | done].
    + apply Forall_app. split; [done |]. constructor; [| constructor]. exists (pool_type p). split; [apply HTp |].
      destruct HTp as [Hws _]. pose proof (Forall_lookup_1 _ _ _ _ Hws Hw) as [Hf _].
      unfold inWorker in Hf. rewrite Hc, Forall_app in Hf. destruct Hf as [_ Hf]. by apply Forall_cons in Hf as [? _].
    + cbn. rewrite length_app. cbn. lia.
  - eapply (Typed_pool _ _ _ _ _ _ _ _ HT Hp); same. eapply typedPool_worker; [done | done | |]; unfold inWorker; cbn; [rewrite Hc; set_solver | done].
  - rewrite Hq in Hd, Hr0. cbn in Hd, Hr0. apply Forall_cons in Hd as [(ty & Hin & Hty) Hd].
    unfold handleTaskResult. cbn [store set_resultChan]. unfold isType in Hty.
    destruct (store e !! t) as [task |] eqn:Et; [| done].
    split; cbn; try done.
    + rewrite app_assoc. apply Forall_app. split; [done |]. constructor; [| constructor]. exists ty. split; [done |]. unfold isType. cbn. by rewrite Et.
    + lia.
    + rewrite length_app. cbn. lia.
    + destruct (Error task); lia.
  - destruct (cancel_rest ts e) as (Ep & Er & Ec & Eq & Em).
    eapply (Typed_store _ _ _ _ _ HT); try done; [apply cancel_kept | by rewrite Eq, Ec].
  - eapply (Typed_store _ _ _ _ _ HT); same.
  - eapply (Typed_store _ _ _ _ _ HT); same. cbn. rewrite Hq in Hq0. cbn in Hq0. lia.
  - eapply (Typed_store _ _ _ _ _ HT); same. intros u ty. unfold isType. cbn.
    intros (x & Hx & ->)%fmap_Some. by rewrite lookup_app_l_Some with (x := x).
Qed.

(** *** Reachable states *)

(** A started engine. *)
Definition boot (c : option ParallelProcessingConfig) : System :=
  mkSystem (Start (NewParallelProcessingEngine c)).1 [] [] [] [].

Lemma createWorkers_empty ty n : inPool (createWorkers ty n) = [].
Proof. unfold inPool. cbn. by induction n. Qed.

Lemma initial_pools c : (initializeWorkerPools c ≫= inPool) = [].
Proof. unfold initializeWorkerPools. rewrite !bind_cons, !createWorkers_empty. done. Qed.

Lemma createWorkers_typed e ty n : ty ∈ handledTypes -> typedPool e (createWorkers ty n).
Proof.
  intros Hty. split; [| done]. cbn. apply Forall_forall. intros w Hw%elem_of_replicate. destruct Hw as [-> _].
  split; [constructor | cbn; lia].
Qed.

(** While the engine runs, nothing is dropped for lack of room if the queue has
    room for all accepted tasks. *)
Definition Roomy (s : System) : Prop :=
  running (engine s) = true -> cancelled (engine s) = false /\
    ((length (accepted s) <= TaskQueueSize (config (engine s)))%nat -> dropped s = []).

Lemma Conserved_length s : Conserved s ->
  (length (accepted s) = length (underway (engine s)) + length (recorded s) + length (dropped s))%nat.
Proof. intros E. unfold Conserved in E. rewrite E, !length_app. lia. Qed.

Lemma holding_length e i p t : pools e !! i = Some p -> holding p = Some t ->
  (length (taskQueue e) < length (underway e))%nat.
Proof.
  intros Hp Hh. destruct (pools_insert e i p p Hp) as (rest & E & _). unfold underway.
  rewrite !length_app, E, length_app. unfold inPool. rewrite Hh. cbn. lia.
Qed.

Lemma Roomy_step s s' : step s s' -> Conserved s -> Roomy s -> Roomy s'.
Proof.
  intros Hs HC HR. pose proof (Conserved_length s HC) as HL. unfold Roomy in *.
  step_cases Hs; cbn [engine accepted dropped running cancelled] in *; try exact HR.
  - unfold recordTask. destruct (store e !! t); exact HR.
  - intros Hrun. destruct (HR Hrun) as [Hcan Hd]. split; [done |]. rewrite length_app. cbn. intros Hl. apply Hd. lia.
  - intros _. destruct (HR Hrun) as [Hcan _]. split; [done |]. cbn. intros Hl. pose proof (holding_length _ _ _ _ Hp Hh). lia.
  - intros Hrun'. destruct (HR Hrun') as [Hcan _]. cbn in *. destruct Hrun; congruence.
  - intros Hrun'. destruct (HR Hrun') as [Hcan' _]. cbn in *. congruence.
  - unfold handleTaskResult. cbn. destruct (store e !! t); exact HR.
  - assert (running (cancelWorkflow ts e) = running e /\ cancelled (cancelWorkflow ts e) = cancelled e) as [-> ->]
      by (by induction ts as [| t ts IH]). destruct (cancel_rest ts e) as (_ & _ & -> & _). exact HR.
  - done.
  - cbn. congruence.
Qed.

Lemma reachable_invariants c s : rtc step (boot c) s -> Conserved s /\ Typed s /\ Roomy s.
Proof.
  intros Hr. apply (rtc_ind_r (λ s, Conserved s /\ Typed s /\ Roomy s) (boot c)) in Hr; [done | |].
  - split; [| split].
    + unfold Conserved, underway. cbn [engine boot Start running NewParallelProcessingEngine fst taskQueue pools resultChan set_running set_pools].
      rewrite initial_pools. done.
    + split; try done; cbn; try lia. repeat (constructor; [apply createWorkers_typed; set_solver |]). constructor.
    + done.
  - intros s1 s2 _ Hs (HC & HT & HR). split; [by eapply Conserved_step | split; [by eapply Typed_step | by eapply Roomy_step]].
Qed.

(** C20 - tasks are conserved: under any interleaving of callers, dispatchers,
    workers and the processing of results, and through the stopping of the
    engine, every task the queue has accepted is in exactly one place - queue,
    hand of a dispatcher, worker, channel of results, recorded results - or was
    dropped; none is dropped while the engine runs and the queue has room for all
    tasks; a worker gets tasks of its own type only, so that none fails as of
    unknown type; queues keep to their capacities and the counters count the
    recorded results. *)
Theorem tasks_conserved c s : rtc step (boot c) s ->
  let e := engine s in
  accepted s ≡ₚ underway e ++ recorded s ++ dropped s /\
  (running e = true -> (length (accepted s) <= TaskQueueSize (config e))%nat -> dropped s = []) /\
  Forall (λ p, Forall (λ w, Forall (λ t, isType e t (pool_type p)) (inWorker w) /\ (length (Queue w) <= 10)%nat) (workers p)) (pools e) /\
  (length (taskQueue e) <= TaskQueueSize (config e))%nat /\ (length (resultChan e) <= TaskQueueSize (config e))%nat /\
  Forall (handled e) (recorded s) /\
  TotalTasks (metrics e) = Z.of_nat (length (recorded s)) /\
  SuccessfulTasks (metrics e) + FailedTasks (metrics e) = TotalTasks (metrics e).
Proof.
  intros (HC & [Hp Hd Hq Hr Ht Hs] & HR)%reachable_invariants. cbn zeta.
  split; [exact HC |]. split; [intros Hrun; by apply HR |]. split; [eapply Forall_impl; [exact Hp |]; by intros p [? _] |].
  split; [done |]. split; [done |]. split; [| done]. rewrite Forall_app in Hd. apply Hd.
Qed.

(** *** The engine can always finish *)

(** The dispatchers are those of [initializeWorkerPools], with workers. *)
Definition Shaped (s : System) : Prop :=
  pool_type <$> pools (engine s) = handledTypes /\
  Forall (λ p, (workerIndex p < length (workers p))%nat) (pools (engine s)).

Lemma Shaped_pool s e' sub acc rec drop i p p' :
  Shaped s -> pools (engine s) !! i = Some p -> pools e' = <[i := p']> (pools (engine s)) ->
  pool_type p' = pool_type p -> (workerIndex p' < length (workers p'))%nat ->
  Shaped (mkSystem e' sub acc rec drop).
Proof.
  intros [Ht Hf] Hi Ep Ety Hlt. split; cbn; rewrite Ep.
  - rewrite list_fmap_insert, Ety, <- Ht. apply list_insert_id. by rewrite list_lookup_fmap, Hi.
  - by apply Forall_insert.
Qed.

Lemma Shaped_same s e' sub acc rec drop : Shaped s -> pools e' = pools (engine s) -> Shaped (mkSystem e' sub acc rec drop).
Proof. intros [Ht Hf] Ep. split; cbn; by rewrite Ep. Qed.

Lemma Shaped_step s s' : step s s' -> Shaped s -> Shaped s'.
Proof.
  intros Hs HS. pose proof HS as [_ Hf]. step_cases Hs; cbn [engine] in *;
    try (pose proof (Forall_lookup_1 _ _ _ _ Hf Hp) as Hlt);
    try (by eapply Shaped_same; [exact HS |]);
    try (by eapply Shaped_pool; [exact HS | exact Hp | done | done | cbn; rewrite ?length_insert]).
  - eapply Shaped_same; [exact HS |]. unfold recordTask. by destruct (store e !! t).
  - eapply Shaped_pool; [exact HS | exact Hp | done | done |]. cbn. rewrite length_insert.
    apply Nat.mod_upper_bound. cbn in Hlt. lia.
  - eapply Shaped_same; [exact HS |]. unfold handleTaskResult. cbn. by destruct (store e !! t).
  - eapply Shaped_same; [exact HS |]. apply cancel_rest.
Qed.

Definition handledb (e : Engine) (t : nat) : bool :=
  match store e !! t with
  | Some task => bool_decide (Type_ task ∈ handledTypes)
  | None => false
  end.

Lemma handledb_spec e t : handledb e t = true <-> handled e t.
Proof.
  unfold handledb, handled, isType. destruct (store e !! t) as [task |]; cbn.
  - rewrite bool_decide_eq_true. split; [by exists (Type_ task) | by intros (ty & Hin & [= <-])].
  - split; [done | by intros (ty & _ & [=])].
Qed.

Lemma on_task_handledb f t e u : (forall task, Type_ (f task) = Type_ task) -> handledb (on_task f t e) u = handledb e u.
Proof.
  intros Hf. unfold handledb, on_task. cbn. rewrite list_lookup_alter. case_decide as E; [| done]. subst.
  destruct (store e !! u); cbn; [by rewrite Hf | done].
Qed.

Section drain.
Context (cap : nat) (acc : list nat) (h : nat -> bool).

(** The work that is left, for tasks of handled types. *)
Definition toDo (t : nat) : nat := if h t then 10 else 0.
Definition workerLoad (w : Worker) : list nat :=
  ((λ _, 8%nat) <$> Queue w) ++
  match current w with
  | None => []
  | Some (_, Taken) => [6%nat]
  | Some (_, Started) => [4%nat]
  | Some (_, Finished) => [2%nat]
  end.
Definition poolLoad (p : Pool) : list nat := (toDo <$> option_list (holding p)) ++ (workers p ≫= workerLoad).
Definition load (e : Engine) : nat :=
  sum_list ((toDo <$> taskQueue e) ++ (pools e ≫= poolLoad) ++ ((λ _, 1%nat) <$> resultChan e)).

Record Good (s : System) : Prop := {
  good_conserved : Conserved s;
  good_typed : Typed s;
  good_roomy : Roomy s;
  good_shaped : Shaped s;
  good_running : running (engine s) = true;
  good_accepted : accepted s = acc;
  good_cap : TaskQueueSize (config (engine s)) = cap;
  good_room : (length acc <= cap)%nat;
  good_handled t : handledb (engine s) t = h t
}.

Lemma Good_step s s' : step s s' -> Good s -> running (engine s') = true -> accepted s' = accepted s ->
  TaskQueueSize (config (engine s')) = TaskQueueSize (config (engine s)) ->
  (forall t, handledb (engine s') t = handledb (engine s) t) -> Good s'.
Proof.
  intros Hs [HC HT HR HS Hrun Ha Hc Hl Hh] Hrun' Ha' Hc' Hh'.
  split; [by eapply Conserved_step | by eapply Typed_step | by eapply Roomy_step | by eapply Shaped_step | congruence.. | done |].
  intros t. by rewrite Hh'.
Qed.

(** One step of the run to be built. *)
Definition forward (s s' : System) : Prop := step s s' /\ Good s'.

Lemma sum_list_perm (l k : list nat) : l ≡ₚ k -> sum_list l = sum_list k.
Proof. induction 1; cbn; lia. Qed.

Lemma sum_list_bind l k : sum_list (l ++ k) = (sum_list l + sum_list k)%nat.
Proof. apply sum_list_with_app. Qed.

(** The load before and after a change of one pool. *)
Lemma load_pool e i p p' : pools e !! i = Some p ->
  exists rest, sum_list (pools e ≫= poolLoad) = (sum_list (poolLoad p) + rest)%nat /\
    sum_list (<[i := p']> (pools e) ≫= poolLoad) = (sum_list (poolLoad p') + rest)%nat.
Proof.
  intros Hp. destruct (bind_insert poolLoad (pools e) i p p' Hp) as (rest & E1 & E2). exists (sum_list rest).
  by rewrite (sum_list_perm _ _ E1), (sum_list_perm _ _ E2), !sum_list_bind.
Qed.

Lemma load_worker e i j p w w' : pools e !! i = Some p -> workers p !! j = Some w ->
  exists rest, sum_list (pools e ≫= poolLoad) = (sum_list (workerLoad w) + rest)%nat /\
    sum_list (pools (with_worker i j p w' e) ≫= poolLoad) = (sum_list (workerLoad w') + rest)%nat.
Proof.
  intros Hp Hw. destruct (load_pool e i p (set_workers (<[j := w']> (workers p)) p) Hp) as (rest & E1 & E2).
  destruct (bind_insert workerLoad (workers p) j w w' Hw) as (rest' & E3 & E4).
  exists (sum_list (toDo <$> option_list (holding p)) + sum_list rest' + rest)%nat.
  unfold with_worker, with_pool. cbn [pools set_pools]. rewrite E1, E2. unfold poolLoad. cbn [workers holding set_workers].
  rewrite !sum_list_bind, (sum_list_perm _ _ E3), (sum_list_perm _ _ E4), !sum_list_bind. lia.
Qed.

(** Something is under way in the pools: a worker is busy, or a result waits. *)
Definition busy (e : Engine) : Prop :=
  resultChan e <> [] \/ exists i j p w, pools e !! i = Some p /\ workers p !! j = Some w /\ inWorker w <> [].

Lemma Good_room s : Good s -> (length (underway (engine s)) <= cap)%nat.
Proof.
  intros [HC _ _ _ _ Ha _ Hl _]. pose proof (Conserved_length s HC) as E. rewrite Ha in E. lia.
Qed.

Lemma in_underway e i j p w : pools e !! i = Some p -> workers p !! j = Some w -> inWorker w <> [] ->
  (length (resultChan e) < length (underway e))%nat.
Proof.
  intros Hp Hw Hne. destruct (worker_insert e i j p w w Hp Hw) as (rest & E & _). unfold underway.
  rewrite !length_app, E, length_app. destruct (inWorker w); [done |]. cbn. lia.
Qed.

Lemma load_split e : load e =
  (sum_list (toDo <$> taskQueue e) + sum_list (pools e ≫= poolLoad) + length (resultChan e))%nat.
Proof.
  unfold load. rewrite !sum_list_bind. assert (forall l : list nat, sum_list ((λ _, 1%nat) <$> l) = length l) as ->; [| lia].
  intros l. induction l as [| x l IH]; cbn in *; lia.
Qed.

(** While something is busy, some step lessens the load. *)
Lemma busy_forward s : Good s -> busy (engine s) -> exists s', forward s s' /\ (load (engine s') < load (engine s))%nat.
Proof.
  intros HG Hb. pose proof (Good_room s HG) as Hroom. pose proof HG as [_ HT _ _ _ _ Hcap _ _].
  destruct s as [e sub ac rec drop]. cbn [engine] in *. destruct (resultChan e) as [| t q] eqn:Hq.
  - destruct Hb as [? | (i & j & p & w & Hp & Hw & Hne)]; [done |].
    pose proof (in_underway e i j p w Hp Hw Hne) as Hlt. rewrite Hq in Hlt. cbn in Hlt.
    assert (forall w' e', pools e' = pools (with_worker i j p w' e) -> taskQueue e' = taskQueue e ->
      (sum_list (workerLoad w') + length (resultChan e') < sum_list (workerLoad w))%nat -> (load e' < load e)%nat) as Hload.
    { intros w' e' Ep Et Hlt'. rewrite !load_split, Ep, Et, Hq.
      destruct (load_worker e i j p w w' Hp Hw) as (rest & E1 & E2). rewrite E1, E2. cbn. lia. }
    destruct (current w) as [[t []] |] eqn:Hc; [..| destruct (Queue w) as [| t q] eqn:Hqw].
    + eexists. split; [split; [by apply (worker_start e sub ac rec drop i j p w t 0) |] |].
      * eapply Good_step; [by apply (worker_start e sub ac rec drop i j p w t 0) | done | apply HG | done | done |].
        intros u. by apply (on_task_handledb (startTask 0) t (with_worker i j p _ e)).
      * eapply Hload; [done | done |]. cbn. rewrite Hq. unfold workerLoad. rewrite Hc. cbn. rewrite !sum_list_bind. cbn. lia.
    + eexists. split; [split; [by apply (worker_finish e sub ac rec drop i j p w t 0 Worked) |] |].
      * eapply Good_step; [by apply (worker_finish e sub ac rec drop i j p w t 0 Worked) | done | apply HG | done | done |].
        intros u. apply (on_task_handledb (finishTask 0 Worked) t (with_worker i j p _ e)), finishTask_type.
      * eapply Hload; [done | done |]. cbn. rewrite Hq. unfold workerLoad. rewrite Hc. cbn. rewrite !sum_list_bind. cbn. lia.
    + assert (length (resultChan e) < TaskQueueSize (config e))%nat as Hrc by (rewrite Hq, Hcap; cbn; lia).
      eexists. split; [split; [by apply (worker_send e sub ac rec drop i j p w t) |] |].
      * by eapply Good_step; [by apply (worker_send e sub ac rec drop i j p w t) | done | apply HG | done | done |].
      * eapply Hload; [done | done |]. cbn. rewrite Hq. unfold workerLoad. rewrite Hc. cbn. rewrite !sum_list_bind. cbn. lia.
    + unfold inWorker in Hne. by rewrite Hc, Hqw in Hne.
    + eexists. split; [split; [by apply (worker_take e sub ac rec drop i j p w t q) |] |].
      * by eapply Good_step; [by apply (worker_take e sub ac rec drop i j p w t q) | done | apply HG | done | done |].
      * eapply Hload; [done | done |]. cbn. rewrite Hq. unfold workerLoad. rewrite Hc, Hqw. cbn. rewrite !sum_list_bind. cbn. lia.
  - eexists. split; [split; [by apply (result_handle e sub ac rec drop t q) |] |].
    + eapply Good_step; [by apply (result_handle e sub ac rec drop t q) | done | | done | |];
        unfold handleTaskResult; cbn; destruct (store e !! t); try done; apply HG.
    + rewrite !load_split, Hq. unfold handleTaskResult. cbn. destruct (store e !! t); cbn; lia.
Qed.

(** *** An engine at rest *)

Lemma at_rest e i j p w : ~ busy e -> pools e !! i = Some p -> workers p !! j = Some w -> inWorker w = [].
Proof.
  intros Hb Hp Hw. destruct (inWorker w) eqn:E; [done |]. exfalso. apply Hb. right. exists i, j, p, w.
  split; [done |]. split; [done |]. by rewrite E.
Qed.

Lemma rest_pools e e' : pools e' = pools e -> resultChan e' = resultChan e -> ~ busy e -> ~ busy e'.
Proof. intros Ep Er Hb. unfold busy. by rewrite Ep, Er. Qed.

Lemma busy_dec e : busy e \/ ~ busy e.
Proof.
  destruct (decide (resultChan e = [])) as [Hr | Hr]; [| by left; left].
  destruct (decide (Exists (λ p, Exists (λ w, inWorker w <> []) (workers p)) (pools e))) as [Hx | Hx].
  - left. right. apply Exists_exists in Hx as (p & [i Hp]%list_elem_of_lookup & Hx).
    apply Exists_exists in Hx as (w & [j Hw]%list_elem_of_lookup & Hne). by exists i, j, p, w.
  - right. intros [? | (i & j & p & w & Hp & Hw & Hne)]; [done |]. apply Hx, Exists_exists. exists p.
    split; [by eapply list_elem_of_lookup_2 |]. apply Exists_exists. exists w. split; [by eapply list_elem_of_lookup_2 | done].
Qed.

(** The dispatcher of a type hands a task to a worker at rest. *)
Lemma assign_forward s i p t : Good s -> ~ busy (engine s) -> pools (engine s) !! i = Some p -> holding p = Some t ->
  isType (engine s) t (pool_type p) -> exists s', forward s s' /\ (load (engine s') < load (engine s))%nat.
Proof.
  intros HG Hb Hp Hh Hty. pose proof HG as [_ [HTp _ _ _ _ _] _ [_ HS] _ _ _ _ Hhand].
  pose proof (Forall_lookup_1 _ _ _ _ HS Hp) as Hlt. destruct (lookup_lt_is_Some_2 _ _ Hlt) as [w Hw].
  pose proof (at_rest _ _ _ _ _ Hb Hp Hw) as Hrest. apply app_eq_nil in Hrest as [HQ Hcur].
  assert (h t = true) as Ht.
  { rewrite <- Hhand. apply handledb_spec. exists (pool_type p). split; [| done]. apply (Forall_lookup_1 _ _ _ _ HTp Hp). }
  destruct s as [e sub ac rec drop]. cbn [engine] in *.
  assert (step (mkSystem e sub ac rec drop) (mkSystem (with_pool i (assign t w p) e) sub ac rec drop)) as Hs
    by (apply dispatch_assign; try done; rewrite HQ; cbn; unfold workerCapacity; lia).
  eexists. split; [split; [exact Hs | by eapply Good_step; [exact Hs | done | apply HG | ..]] |].
  cbn [engine]. rewrite !load_split. unfold with_pool. cbn [taskQueue pools resultChan set_pools].
  destruct (load_pool e i p (assign t w p) Hp) as (rest & E1 & E2). rewrite E1, E2. unfold poolLoad.
  destruct (bind_insert workerLoad (workers p) (workerIndex p) w (mkWorker (Queue w ++ [t]) (current w)) Hw) as (r & F1 & F2).
  cbn [assign workers holding]. rewrite Hh, !sum_list_bind, (sum_list_perm _ _ F1), (sum_list_perm _ _ F2), !sum_list_bind.
  unfold workerLoad, toDo. cbn. rewrite HQ, Ht. destruct (current w) as [[? []] |]; cbn; lia.
Qed.

(** The dispatcher of another type puts a task back, which changes no load. *)
Lemma return_forward s i p t : Good s -> pools (engine s) !! i = Some p -> holding p = Some t ->
  ~ isType (engine s) t (pool_type p) ->
  forward s (mkSystem (with_pool i (set_holding None p) (set_taskQueue (taskQueue (engine s) ++ [t]) (engine s)))
    (submitting s) (accepted s) (recorded s) (dropped s)).
Proof.
  intros HG Hp Hh Hty. pose proof (Good_room s HG) as Hroom. pose proof (holding_length _ _ _ _ Hp Hh) as Hlen.
  pose proof HG as [_ _ _ _ Hrun _ Hcap _ _]. destruct s as [e sub ac rec drop]. cbn [engine submitting accepted recorded dropped] in *.
  assert (step (mkSystem e sub ac rec drop)
    (mkSystem (with_pool i (set_holding None p) (set_taskQueue (taskQueue e ++ [t]) e)) sub ac rec drop)) as Hs
    by (apply dispatch_return; try done; lia).
  split; [exact Hs | by eapply Good_step; [exact Hs | ..]].
Qed.

Lemma take_forward s i p t q : Good s -> pools (engine s) !! i = Some p -> holding p = None ->
  taskQueue (engine s) = t :: q ->
  forward s (mkSystem (with_pool i (set_holding (Some t) p) (set_taskQueue q (engine s)))
    (submitting s) (accepted s) (recorded s) (dropped s)).
Proof.
  intros HG Hp Hh Hq. pose proof HG as [_ _ _ _ Hrun _ Hcap _ _].
  destruct s as [e sub ac rec drop]. cbn [engine submitting accepted recorded dropped] in *.
  assert (step (mkSystem e sub ac rec drop) (mkSystem (with_pool i (set_holding (Some t) p) (set_taskQueue q e)) sub ac rec drop)) as Hs
    by (by apply (dispatch_take e sub ac rec drop i p t q)).
  split; [exact Hs | by eapply Good_step; [exact Hs | ..]].
Qed.

(** Only hands change: the workers stay at rest, and the load moves with the task. *)
Lemma hand_rest e i p x l : pools e !! i = Some p -> ~ busy e -> ~ busy (with_pool i (set_holding x p) (set_taskQueue l e)).
Proof.
  intros Hp Hb [Hr | (k & j & p' & w & Hp' & Hw & Hne)]; [by apply Hb; left |]. apply Hb. right.
  unfold with_pool in Hp'. cbn [pools set_pools set_taskQueue] in Hp'.
  apply list_lookup_insert_Some in Hp' as [(-> & <- & _) | (_ & Hp')]; [by exists k, j, p, w | by exists k, j, p', w].
Qed.

Lemma hand_load e i p x l : pools e !! i = Some p ->
  (sum_list (toDo <$> l) + sum_list (toDo <$> option_list x) =
    sum_list (toDo <$> taskQueue e) + sum_list (toDo <$> option_list (holding p)))%nat ->
  load (with_pool i (set_holding x p) (set_taskQueue l e)) = load e.
Proof.
  intros Hp E. rewrite !load_split. unfold with_pool. cbn [taskQueue pools resultChan set_pools set_taskQueue].
  destruct (load_pool e i p (set_holding x p) Hp) as (rest & -> & ->). unfold poolLoad.
  cbn [workers holding set_holding]. rewrite !sum_list_bind. lia.
Qed.

(** A run of steps that keep [Good]. *)
Definition advances (s : System) : Prop := exists s', rtc forward s s' /\ (load (engine s') < load (engine s))%nat.

Lemma advances_l s s' : forward s s' -> load (engine s') = load (engine s) -> advances s' -> advances s.
Proof. intros Hf E (s'' & Hr & Hl). exists s''. split; [by eapply rtc_l | by rewrite <- E]. Qed.

Lemma advances_once s : (exists s', forward s s' /\ (load (engine s') < load (engine s))%nat) -> advances s.
Proof. intros (s' & Hf & Hl). exists s'. split; [by apply rtc_once | done]. Qed.

(** The tasks in the hands of dispatchers. *)
Definition hands (e : Engine) : list nat := pools e ≫= λ p, option_list (holding p).

Lemma hands_cons e t k : hands e = t :: k -> exists i p u, pools e !! i = Some p /\ holding p = Some u.
Proof.
  intros E. assert (t ∈ hands e) as (p & Ht & [i Hp]%list_elem_of_lookup)%list_elem_of_bind by (rewrite E; left).
  exists i, p. destruct (holding p) as [u |]; [by exists u | by apply not_elem_of_nil in Ht].
Qed.

Lemma hands_put e i p t l : pools e !! i = Some p -> holding p = Some t ->
  (length (hands (with_pool i (set_holding None p) (set_taskQueue l e))) < length (hands e))%nat.
Proof.
  intros Hp Hh. unfold hands, with_pool. cbn [pools set_pools set_taskQueue].
  destruct (bind_insert (λ p, option_list (holding p)) (pools e) i p (set_holding None p) Hp) as (rest & E1 & E2).
  rewrite E1, E2, Hh. cbn. lia.
Qed.

Lemma hands_nil e i p : hands e = [] -> pools e !! i = Some p -> holding p = None.
Proof.
  intros E Hp. destruct (holding p) as [t |] eqn:Hh; [| done]. exfalso. apply (not_elem_of_nil t). rewrite <- E.
  apply list_elem_of_bind. exists p. split; [rewrite Hh; by left | by eapply list_elem_of_lookup_2].
Qed.

Lemma not_handled_type s i p t : Good s -> pools (engine s) !! i = Some p -> h t = false -> ~ isType (engine s) t (pool_type p).
Proof.
  intros [_ [HTp _ _ _ _ _] _ _ _ _ _ _ Hh] Hp Ht Hty. rewrite <- Hh in Ht.
  assert (handledb (engine s) t = true) as E; [| congruence]. apply handledb_spec. exists (pool_type p).
  split; [apply (Forall_lookup_1 _ _ _ _ HTp Hp) | done].
Qed.

Lemma handled_pool s t : Good s -> h t = true -> exists i p, pools (engine s) !! i = Some p /\ isType (engine s) t (pool_type p).
Proof.
  intros [_ _ _ [HS _] _ _ _ _ Hh] Ht. rewrite <- Hh in Ht. apply handledb_spec in Ht as (ty & Hin & Hty).
  rewrite <- HS in Hin. apply list_elem_of_fmap in Hin as (p & -> & [i Hp]%list_elem_of_lookup). by exists i, p.
Qed.

(** Then all that is left to do is in the queue. *)
Lemma sum_list_pos (l : list nat) : (0 < sum_list l)%nat -> exists x, x ∈ l /\ (0 < x)%nat.
Proof.
  induction l as [| x l IH]; cbn; [lia |]. intros Hl. destruct (decide (0 < x)%nat) as [Hx | Hx]; [exists x; split; [by left | done] |].
  destruct IH as (y & Hy & Hpos); [lia |]. exists y. split; [by right | done].
Qed.

Lemma rest_load s : ~ busy (engine s) -> hands (engine s) = [] -> (0 < load (engine s))%nat ->
  exists t, t ∈ taskQueue (engine s) /\ h t = true.
Proof.
  intros Hb Hn Hload. apply sum_list_pos in Hload as (x & Hx & Hpos). rewrite !elem_of_app in Hx. destruct Hx as [Hx | [Hx | Hx]].
  - apply list_elem_of_fmap in Hx as (t & -> & Ht). exists t. split; [done |]. unfold toDo in Hpos. destruct (h t); [done | lia].
  - exfalso. apply list_elem_of_bind in Hx as (p & Hx & [i Hp]%list_elem_of_lookup). unfold poolLoad in Hx.
    rewrite (hands_nil _ _ _ Hn Hp) in Hx. apply list_elem_of_bind in Hx as (w & Hx & [j Hw]%list_elem_of_lookup).
    pose proof (at_rest _ _ _ _ _ Hb Hp Hw) as E. apply app_eq_nil in E as [E1 E2]. unfold workerLoad in Hx.
    rewrite E1 in Hx. destruct (current w) as [[? ?] |]; [done |]. by apply not_elem_of_nil in Hx.
  - exfalso. apply Hb. left. intros E. rewrite E in Hx. by apply not_elem_of_nil in Hx.
Qed.

(** With empty hands, a handled task that is first goes to its worker. *)
Lemma first_advances s t q : Good s -> ~ busy (engine s) -> hands (engine s) = [] ->
  taskQueue (engine s) = t :: q -> h t = true -> advances s.
Proof.
  intros HG Hb Hn Hq Ht. destruct (handled_pool s t HG Ht) as (i & p & Hp & Hty). pose proof (hands_nil _ _ _ Hn Hp) as Hh.
  pose proof (take_forward s i p t q HG Hp Hh Hq) as Hf. eapply advances_l; [exact Hf | |].
  - apply hand_load; [done |]. rewrite Hq, Hh. cbn. lia.
  - apply advances_once, (assign_forward _ i (set_holding (Some t) p) t); try done.
    + apply Hf.
    + by apply hand_rest.
    + cbn. apply list_lookup_insert_eq. by eapply lookup_lt_Some.
Qed.

(** Other tasks are passed on until a handled one is first. *)
Lemma queue_advances pre : forall s t post, Good s -> ~ busy (engine s) -> hands (engine s) = [] ->
  taskQueue (engine s) = pre ++ t :: post -> h t = true -> advances s.
Proof.
  induction pre as [| u pre IH]; intros s t post HG Hb Hn Hq Ht; [by eapply first_advances |].
  destruct (h u) eqn:Hu; [by eapply first_advances |].
  destruct (pools (engine s)) as [| p ps] eqn:Eps.
  { destruct (handled_pool s t HG Ht) as (i & p & Hp & _). by rewrite Eps in Hp. }
  assert (pools (engine s) !! 0%nat = Some p) as Hp by (by rewrite Eps). pose proof (hands_nil _ _ _ Hn Hp) as Hh.
  pose proof (take_forward s 0 p u (pre ++ t :: post) HG Hp Hh Hq) as Hf. eapply advances_l; [exact Hf | |].
  - apply hand_load; [done |]. rewrite Hq, Hh. cbn. lia.
  - set (s1 := mkSystem _ _ _ _ _) in *.
    assert (pools (engine s1) !! 0%nat = Some (set_holding (Some u) p)) as Hp1 by (cbn; by rewrite Eps).
    assert (~ isType (engine s1) u (pool_type p)) as Hty by (by apply (not_handled_type s1 0 (set_holding (Some u) p)); [apply Hf | ..]).
    pose proof (return_forward s1 0 (set_holding (Some u) p) u (proj2 Hf) Hp1 eq_refl Hty) as Hf1.
    assert (pools (with_pool 0 (set_holding None (set_holding (Some u) p)) (engine s1)) = pools (engine s)) as Ep.
    { unfold s1, with_pool. cbn [engine pools set_pools set_taskQueue]. rewrite Eps. cbn.
      unfold set_holding. cbn. rewrite <- Hh. by destruct p. }
    eapply advances_l; [exact Hf1 | |].
    + apply hand_load; [exact Hp1 |]. cbn. rewrite fmap_app, sum_list_bind. cbn. lia.
    + eapply (IH _ t (post ++ [u])).
      * apply Hf1.
      * apply (rest_pools (engine s)); [exact Ep | done | done].
      * unfold hands. cbn [engine pools with_pool set_pools set_taskQueue] in *. by rewrite Ep.
      * cbn. by rewrite <- app_assoc.
      * done.
Qed.

Lemma empty_advances s : Good s -> ~ busy (engine s) -> hands (engine s) = [] -> (0 < load (engine s))%nat -> advances s.
Proof.
  intros HG Hb Hn Hload. destruct (rest_load s Hb Hn Hload) as (t & (pre & post & Hq)%list_elem_of_split & Ht).
  by eapply queue_advances.
Qed.

(** Hands with tasks of other types are emptied first. *)
Lemma rest_advances n : forall s, length (hands (engine s)) = n -> Good s -> ~ busy (engine s) ->
  (0 < load (engine s))%nat -> advances s.
Proof.
  induction (lt_wf n) as [n _ IH]. intros s Hn HG Hb Hload.
  destruct (hands (engine s)) as [| t0 k] eqn:Ek; [by apply empty_advances |].
  destruct (hands_cons _ _ _ Ek) as (i & p & t & Hp & Hh).
  destruct (decide (isType (engine s) t (pool_type p))) as [Hty | Hty]; [apply advances_once; by eapply assign_forward |].
  pose proof (return_forward s i p t HG Hp Hh Hty) as Hf. set (s1 := mkSystem _ _ _ _ _) in *.
  assert (load (engine s1) = load (engine s)) as El.
  { apply hand_load; [done |]. rewrite Hh, fmap_app, sum_list_bind. cbn. lia. }
  eapply advances_l; [exact Hf | exact El |]. eapply (IH _ _ s1 eq_refl); [apply Hf | by apply hand_rest | by rewrite El].
  Unshelve. pose proof (hands_put (engine s) i p t (taskQueue (engine s) ++ [t]) Hp Hh) as Hlt.
  rewrite Ek, Hn in Hlt. exact Hlt.
Qed.

Lemma forward_good s s' : rtc forward s s' -> Good s -> Good s' /\ rtc step s s'.
Proof.
  induction 1 as [| s s1 s' [Hs HG] _ IH]; intros H0; [done |]. destruct (IH HG) as [? ?]. split; [done | by eapply rtc_l].
Qed.

Lemma drains s : Good s -> exists s', rtc forward s s' /\ load (engine s') = 0%nat.
Proof.
  remember (load (engine s)) as n eqn:En. revert s En. induction (lt_wf n) as [n _ IH]. intros s -> HG.
  destruct (decide (load (engine s) = 0)%nat) as [E | E]; [by exists s |].
  assert (advances s) as (s1 & Hr & Hl).
  { destruct (busy_dec (engine s)) as [Hb | Hb]; [apply advances_once; by apply busy_forward |].
    eapply rest_advances; [reflexivity | done | done | lia]. }
  destruct (forward_good _ _ Hr HG) as [HG1 _].
  destruct (IH (load (engine s1)) Hl s1 eq_refl HG1) as (s2 & Hr2 & E2). exists s2. split; [by etrans | done].
Qed.

Lemma sum_list_in (l : list nat) x : x ∈ l -> (x <= sum_list l)%nat.
Proof. intros (l1 & l2 & ->)%list_elem_of_split. rewrite sum_list_bind. cbn. lia. Qed.

(** Nothing of a handled type is under way without load. *)
Lemma load_zero e t : load e = 0%nat -> t ∈ underway e -> h t = false.
Proof.
  intros E Ht. assert (forall x, x ∈ (toDo <$> taskQueue e) ++ (pools e ≫= poolLoad) ++ ((λ _, 1%nat) <$> resultChan e) -> x = 0%nat) as Hz.
  { intros x Hx%sum_list_in. fold (load e) in Hx. lia. }
  assert (toDo t = 0%nat -> h t = false) as Hd by (unfold toDo; by destruct (h t)).
  unfold underway in Ht. rewrite !elem_of_app in Ht. destruct Ht as [Ht | [Ht | Ht]].
  - apply Hd, Hz. rewrite !elem_of_app. left. by apply list_elem_of_fmap_2.
  - apply list_elem_of_bind in Ht as (p & Ht & Hp). unfold inPool in Ht. rewrite elem_of_app in Ht.
    assert (forall x, x ∈ poolLoad p -> x = 0%nat) as Hzp.
    { intros x Hx. apply Hz. rewrite !elem_of_app. right; left. apply list_elem_of_bind. by exists p. }
    destruct Ht as [Ht | Ht]; [apply Hd, Hzp, elem_of_app; left; by apply list_elem_of_fmap_2 |].
    apply list_elem_of_bind in Ht as (w & Ht & Hw). exfalso.
    assert (forall x, x ∈ workerLoad w -> x = 0%nat) as Hzw.
    { intros x Hx. apply Hzp, elem_of_app. right. apply list_elem_of_bind. by exists w. }
    unfold inWorker in Ht. unfold workerLoad in Hzw. destruct (Queue w) as [| u q]; [| by discriminate (Hzw 8%nat); left].
    destruct (current w) as [[u []] |]; cbn in *; [discriminate (Hzw 6%nat) | discriminate (Hzw 4%nat) | discriminate (Hzw 2%nat) |];
      [by left.. | by apply not_elem_of_nil in Ht].
  - discriminate (Hz 1%nat). rewrite !elem_of_app. right; right. by eapply (list_elem_of_fmap_2 (λ _, 1%nat)) in Ht.
Qed.

End drain.

(** Every pool has workers. *)
Definition staffed (c : ParallelProcessingConfig) : Prop :=
  Forall (λ n, 0 < n)%nat [IntentPoolSize c; LLMPoolSize c; RAGPoolSize c; ResourcePoolSize c; ManifestPoolSize c;
    GitOpsPoolSize c; DeploymentPoolSize c].

Lemma boot_shaped c : staffed (default defaultEngineConfig c) -> Shaped (boot c).
Proof.
  intros Hs. unfold staffed in Hs. rewrite !Forall_cons in Hs. destruct Hs as (? & ? & ? & ? & ? & ? & ? & _).
  split; [done |]. cbn. repeat (constructor; [cbn; by rewrite length_replicate |]). constructor.
Qed.

Lemma reachable_shaped c s : staffed (default defaultEngineConfig c) -> rtc step (boot c) s -> Shaped s.
Proof.
  intros Hs Hr. apply (rtc_ind_r Shaped (boot c)) in Hr; [done | by apply boot_shaped |].
  intros s1 s2 _ Hst HS. by eapply Shaped_step.
Qed.

(** C30 - the engine is never stuck with work it can do: from every reachable
    state of a running engine whose pools have workers and whose queue has room
    for the accepted tasks there is a run, in which nothing more is accepted, at
    whose end the result of every accepted task of a type with a dispatcher is
    recorded, whatever tasks of other types circulate in the queue. *)
Theorem engine_can_drain c s : staffed (default defaultEngineConfig c) -> rtc step (boot c) s ->
  running (engine s) = true -> (length (accepted s) <= TaskQueueSize (config (engine s)))%nat ->
  exists s', rtc step s s' /\ accepted s' = accepted s /\ running (engine s') = true /\
    forall t, t ∈ accepted s -> handled (engine s) t -> t ∈ recorded s'.
Proof.
  intros Hst Hr Hrun Hroom. destruct (reachable_invariants c s Hr) as (HC & HT & HR).
  assert (Good (TaskQueueSize (config (engine s))) (accepted s) (handledb (engine s)) s) as HG
    by (split; try done; by eapply reachable_shaped).
  destruct (drains _ _ _ s HG) as (s' & Hf & El).
  destruct (forward_good _ _ _ s s' Hf HG) as [HG' Hr']. exists s'. split; [done |].
  destruct HG' as [HC' _ HR' _ Hrun' Ha Hcap _ _]. split; [done |]. split; [done |]. intros t Ht Hh%handledb_spec.
  destruct (HR' Hrun') as [_ Hd]. rewrite Hcap, Ha in Hd. specialize (Hd Hroom). unfold Conserved in HC'.
  rewrite Hd, app_nil_r, Ha in HC'. rewrite HC' in Ht. apply elem_of_app in Ht as [Ht | Ht]; [| done].
  pose proof (load_zero _ _ _ El Ht). congruence.
Qed.

(** ** Runs *)

(** One worker for each stage, and room for three tasks. *)
Definition smallConfig : ParallelProcessingConfig := mkEngineConfig 1 1 1 1 1 1 1 1 3 0 0 0 0 0 0 0 f64_zero.

Definition smallTask (id : string) (taskType : TaskType) (deps : list string) : Task :=
  mkTask id "intent" taskType 2 TaskStatusPending "{}" None None false Second 0 None None None deps ∅.
Definition parseTask : Task := smallTask "parse" TaskTypeIntentParsing [].
Definition llmTask : Task := smallTask "llm" TaskTypeLLMProcessing ["parse"].
Definition verifyTask : Task := smallTask "verify" TaskTypeDeploymentVerify [].

Tactic Notation "next" open_constr(s) := eapply rtc_l; [eapply s; try reflexivity; try (vm_compute; lia) |].

(** The three tasks are submitted; no dispatcher has moved. *)
Definition submitted : System :=
  let e := set_store [parseTask; llmTask; verifyTask] (Start (NewParallelProcessingEngine (Some smallConfig))).1 in
  mkSystem (set_taskQueue [0; 1; 2]%nat (set_tasks {["parse" := 0; "llm" := 1; "verify" := 2]}%nat e))
    [(0, true); (1, true); (2, true)]%nat [0; 1; 2]%nat [] [].

Lemma submitted_reachable : rtc step (boot (Some smallConfig)) submitted.
Proof.
  next (new_task _ _ _ _ _ parseTask). next (new_task _ _ _ _ _ llmTask).
  next (new_task _ _ _ _ _ verifyTask).
  next (submit_record _ _ _ _ _ 0); [by eexists |]. next (submit_record _ _ _ _ _ 1); [by eexists |].
  next (submit_record _ _ _ _ _ 2); [by eexists |].
  next (submit_send _ [] [(1, false); (2, false)]%nat). next (submit_send _ [(0, true)]%nat [(2, false)]%nat).
  next (submit_send _ [(0, true); (1, true)]%nat []%nat). reflexivity.
Qed.

(** The task that waits for the first one is dispatched, and its result recorded,
    while the first one is in the hand of a dispatcher: dependencies have no
    effect.  The caller of [SubmitTask] then overwrites the status, so that the
    workflow of this task does not end although nothing is left to be done. *)
Lemma overtaking : exists s s', rtc step submitted s /\ step s s' /\ recorded s = [1%nat] /\
  holding <$> pools (engine s) !! 0%nat = Some (Some 0%nat) /\
  (Status <$> store (engine s) !! 0%nat) = Some TaskStatusPending /\
  workflowTick [1%nat] (engine s) = Some true /\ workflowTick [1%nat] (engine s') = None /\
  underway (engine s') = [2; 0]%nat /\ submitting s' = [(0, true); (2, true)]%nat.
Proof.
  eexists _, _. split; [| split].
  - next (dispatch_take _ _ _ _ _ 0%nat). next (dispatch_take _ _ _ _ _ 1%nat).
    next (dispatch_assign _ _ _ _ _ 1%nat). next (worker_take _ _ _ _ _ 1%nat 0%nat).
    next (worker_start _ _ _ _ _ 1%nat 0%nat _ _ 1%nat 5). next (worker_finish _ _ _ _ _ 1%nat 0%nat _ _ 1%nat 9 Worked).
    next (worker_send _ _ _ _ _ 1%nat 0%nat). next (result_handle).
    reflexivity.
  - eapply (submit_status _ [(0, true)]%nat [(2, true)]%nat).
  - by vm_compute.
Qed.

Lemma tasks_conserved_witness : rtc step (boot (Some smallConfig)) submitted /\
  accepted submitted ≡ₚ underway (engine submitted) ++ recorded submitted ++ dropped submitted /\ dropped submitted = [].
Proof.
  pose proof submitted_reachable as Hr. split; [exact Hr |].
  destruct (tasks_conserved (Some smallConfig) submitted Hr) as (HC & Hd & _).
  split; [exact HC |]. apply Hd; [reflexivity | vm_compute; lia].
Defined.

Lemma engine_can_drain_witness : exists s', rtc step submitted s' /\ 0%nat ∈ recorded s' /\ 1%nat ∈ recorded s'.
Proof.
  destruct (engine_can_drain (Some smallConfig) submitted) as (s' & Hs & _ & _ & Hrec).
  - repeat constructor.
  - exact submitted_reachable.
  - reflexivity.
  - vm_compute. lia.
  - exists s'. split; [exact Hs |]. split; apply Hrec.
    + left.
    + exists TaskTypeIntentParsing. split; [left | reflexivity].
    + right. left.
    + exists TaskTypeLLMProcessing. split; [right; left | reflexivity].
Defined.

(** Tasks of the types without a dispatcher are never recorded. *)
Lemma unhandled_never_recorded c s t taskType : rtc step (boot c) s -> isType (engine s) t taskType ->
  taskType ∈ [TaskTypeIntentProcessing; TaskTypeRAGRetrieval; TaskTypeDeploymentVerify] -> t ∉ recorded s.
Proof.
  intros (_ & [_ Hd _ _ _ _] & _)%reachable_invariants Hty Hin Ht. rewrite Forall_app in Hd. destruct Hd as [_ Hd].
  rewrite Forall_forall in Hd. destruct (Hd t Ht) as (ty & Hh & Hty'). unfold isType in *.
  assert (ty = taskType) as -> by congruence. clear - Hin Hh. rewrite !elem_of_cons in Hin.
  destruct Hin as [-> | [-> | [-> | []%not_elem_of_nil]]]; apply (bool_decide_eq_true_2 (_ ∈ _)) in Hh; discriminate.
Qed.

(** A workflow that ends well has no pending, running or failed task. *)
Lemma workflowTick_success ts e : workflowTick ts e = Some true <->
  forall t task, t ∈ ts -> store e !! t = Some task ->
    Status task <> TaskStatusPending /\ Status task <> TaskStatusRunning /\ Status task <> TaskStatusFailed.
Proof.
  unfold workflowTick. set (l := omap _ ts).
  assert (forall task, In task l <-> exists t, t ∈ ts /\ store e !! t = Some task) as Hl.
  { intros task. rewrite <- list_elem_of_In. apply list_elem_of_omap. }
  destruct (existsb unfinished l) eqn:Eu.
  - split; [done |]. intros Hall. apply existsb_exists in Eu as (task & (t & Ht & Hs)%Hl & Hun).
    destruct (Hall t task Ht Hs) as (H1 & H2 & _). unfold unfinished in Hun.
    apply orb_true_iff in Hun as [?%String.eqb_eq | ?%String.eqb_eq]; congruence.
  - assert (forall task, In task l -> Status task <> TaskStatusPending /\ Status task <> TaskStatusRunning) as Hn.
    { intros task Hin. assert (unfinished task = false) as E.
      { destruct (unfinished task) eqn:E; [| done]. rewrite <- Eu. symmetry. apply existsb_exists. by exists task. }
      unfold unfinished in E. apply orb_false_iff in E as [?%String.eqb_neq ?%String.eqb_neq]. done. }
    split.
    + intros [= Ef%negb_true_iff] t task Ht Hs. assert (In task l) as Hin by (apply Hl; by exists t).
      destruct (Hn task Hin) as [? ?]. split; [done |]. split; [done |]. intros E.
      assert (existsb (λ task, String.eqb (Status task) TaskStatusFailed) l = true); [| congruence].
      apply existsb_exists. exists task. split; [done |]. by apply String.eqb_eq.
    + intros Hall. f_equal. apply negb_true_iff, not_true_is_false. intros (task & (t & Ht & Hs)%Hl & E%String.eqb_eq)%existsb_exists.
      by destruct (Hall t task Ht Hs) as (_ & _ & ?).
Qed.
