(* ===== verification/WorkerPools.v ===== *)
(** * WorkerPools: controllers/parallel/worker_pool.go

    The structured worker pools that the task scheduler hands tasks to, and the
    blocking priority queue.  Tasks are pointers, as in [ParallelEngine]. *)

From S2P Require Import Prelude GoFloat ParallelEngine.

Local Open Scope Z_scope.

(** ** Pools *)

(** The fields that a pool reads; output data are left out. *)
Record TaskResult := mkTaskResult {
  TaskID : string;
  Success : bool;
  Duration_ : Duration;
  MemoryUsed : Z;
  CPUUsed : float64
}.

(** [taskQueue_cap] is the capacity of both channels. *)
Record WorkerPool := mkWorkerPool {
  name : string;
  workerCount : nat;
  taskQueue : list nat;
  taskQueue_cap : nat;
  activeWorkers : Z;
  processedTasks : Z;
  failedTasks : Z;
  averageLatency : Duration;
  memoryUsage : Z;
  cpuUsage : float64;
  stopped : bool
}.

Definition eta_pool (p : WorkerPool) : WorkerPool :=
  mkWorkerPool (name p) (workerCount p) (taskQueue p) (taskQueue_cap p) (activeWorkers p) (processedTasks p)
    (failedTasks p) (averageLatency p) (memoryUsage p) (cpuUsage p) (stopped p).

Definition set_taskQueue : list nat -> WorkerPool -> WorkerPool := ltac:(record_setter eta_pool taskQueue).
Definition set_processedTasks : Z -> WorkerPool -> WorkerPool := ltac:(record_setter eta_pool processedTasks).
Definition set_failedTasks : Z -> WorkerPool -> WorkerPool := ltac:(record_setter eta_pool failedTasks).
Definition set_averageLatency : Duration -> WorkerPool -> WorkerPool := ltac:(record_setter eta_pool averageLatency).
Definition set_memoryUsage : Z -> WorkerPool -> WorkerPool := ltac:(record_setter eta_pool memoryUsage).
Definition set_cpuUsage : float64 -> WorkerPool -> WorkerPool := ltac:(record_setter eta_pool cpuUsage).

Definition NewWorkerPool (name : string) (workerCount : nat) : WorkerPool :=
  mkWorkerPool name workerCount [] (workerCount * 2) 0 0 0 0 0 f64_zero false.

(** A send on the channel of a stopped pool panics. *)
Inductive PoolError := QueueFullError (pool : string) | SendOnClosedChannel.

Definition SubmitTask (task : nat) (wp : WorkerPool) : WorkerPool * result PoolError unit :=
  if stopped wp then (wp, Err SendOnClosedChannel)
  else if (length (taskQueue wp) <? taskQueue_cap wp)%nat then (set_taskQueue (taskQueue wp ++ [task]) wp, Ok tt)
  else (wp, Err (QueueFullError (name wp))).

(** The issues that a health report lists. *)
Definition GetHealth (wp : WorkerPool) : list string :=
  (if activeWorkers wp =? 0 then ["no active workers"] else []) ++
  (if (taskQueue_cap wp <=? length (taskQueue wp))%nat then ["queue full"] else []).

Definition alpha : float64 := f64_ratio 1 10.

Definition updateAverageLatency (duration : Duration) (wp : WorkerPool) : WorkerPool :=
  set_averageLatency
    (if processedTasks wp =? 1 then duration
     else f64_to_int (f64_add (f64_mul (f64_of_int (averageLatency wp)) (f64_sub f64_one alpha))
                              (f64_mul (f64_of_int duration) alpha))) wp.

Definition updateCPUUsage (cpuUsed : float64) (wp : WorkerPool) : WorkerPool :=
  set_cpuUsage (f64_div (f64_add (cpuUsage wp) cpuUsed) (f64_of_int 2)) wp.

Definition handleTaskResult (result : TaskResult) (wp : WorkerPool) : WorkerPool :=
  let wp := set_processedTasks (processedTasks wp + 1) wp in
  let wp := if Success result then wp else set_failedTasks (failedTasks wp + 1) wp in
  let wp := updateAverageLatency (Duration_ result) wp in
  let wp := set_memoryUsage (wrap64 (memoryUsage wp + MemoryUsed result)) wp in
  updateCPUUsage (CPUUsed result) wp.

(** The counters of a pool count the results that it has handled. *)
Lemma handled_counts wp rs :
  let wp' := foldl (λ wp r, handleTaskResult r wp) wp rs in
  processedTasks wp' = processedTasks wp + Z.of_nat (length rs) /\
  failedTasks wp' = failedTasks wp + countb (λ r, negb (Success r)) rs /\
  activeWorkers wp' = activeWorkers wp.
Proof.
  cbn zeta. revert wp. induction rs as [| r rs IH]; intros wp; cbn [foldl].
  - cbn. lia.
  - destruct (IH (handleTaskResult r wp)) as (-> & -> & ->). unfold handleTaskResult, countb.
    destruct (Success r) eqn:E; cbn -[Z.of_nat]; rewrite ?E; cbn -[Z.of_nat]; rewrite Nat2Z.inj_succ; lia.
Qed.

(** No code changes [activeWorkers]: a pool always reports an issue. *)
Lemma never_healthy n k rs : "no active workers" ∈ GetHealth (foldl (λ wp r, handleTaskResult r wp) (NewWorkerPool n k) rs).
Proof. unfold GetHealth. destruct (handled_counts (NewWorkerPool n k) rs) as (_ & _ & ->). by left. Qed.

(** ** The priority queue *)

Section PriorityQueue.
Context (Priority : nat -> Z).

Record PriorityQueue := mkPriorityQueue {
  tasks : list nat;
  maxSize : nat;
  currentSize : nat
}.

Definition NewPriorityQueue (maxSize : nat) : PriorityQueue := mkPriorityQueue [] maxSize 0.

(** The loop of [Enqueue]: before the first task of lower priority. *)
Fixpoint insert_by_priority (task : nat) (l : list nat) : list nat :=
  match l with
  | [] => [task]
  | existingTask :: l' =>
      if Priority existingTask <? Priority task then task :: existingTask :: l'
      else existingTask :: insert_by_priority task l'
  end.

Definition IsFull (pq : PriorityQueue) : bool := (maxSize pq <=? currentSize pq)%nat.
Definition IsEmpty (pq : PriorityQueue) : bool := (currentSize pq =? 0)%nat.
Definition Peek (pq : PriorityQueue) : option nat := if IsEmpty pq then None else head (tasks pq).

(** [None] when the queue is full. *)
Definition Enqueue (task : nat) (pq : PriorityQueue) : option PriorityQueue :=
  if IsFull pq then None
  else Some (mkPriorityQueue (insert_by_priority task (tasks pq)) (maxSize pq) (S (currentSize pq))).

(** The end of [Dequeue], after the wait. *)
Definition takeFirst (pq : PriorityQueue) : option (nat * PriorityQueue) :=
  match tasks pq with
  | task :: l => if IsEmpty pq then None else Some (task, mkPriorityQueue l (maxSize pq) (currentSize pq - 1))
  | [] => None
  end.

Definition Clear (pq : PriorityQueue) : PriorityQueue := mkPriorityQueue [] (maxSize pq) 0.

(** The queue and the calls of [Dequeue] at work: those about to look at the
    queue, those asleep on the condition, in the order in which they will be
    woken, those whose task waits in a channel of [DequeueWithTimeout] or is about
    to be returned; and the calls that have returned nil after their time-out.
    The last fields record the tasks that were enqueued, returned and cleared. *)
Record System := mkSystem {
  queue : PriorityQueue;
  calls : nat;
  awake : list nat;
  asleep : list nat;
  done : list (nat * nat);
  gone : list nat;
  enqueued : list nat;
  returned : list (nat * nat);
  cleared : list nat
}.

(** [Signal] wakes the call that has slept longest. *)
Definition Signal (awake asleep : list nat) : list nat * list nat :=
  match asleep with
  | k :: asleep => (awake ++ [k], asleep)
  | [] => (awake, [])
  end.

Inductive step : System -> System -> Prop :=
| step_enqueue pq pq' n aw sl d g enq ret cl task : Enqueue task pq = Some pq' ->
    step (mkSystem pq n aw sl d g enq ret cl)
      (mkSystem pq' n (Signal aw sl).1 (Signal aw sl).2 d g (enq ++ [task]) ret cl)
| step_call pq n aw sl d g enq ret cl :
    step (mkSystem pq n aw sl d g enq ret cl) (mkSystem pq (S n) (aw ++ [n]) sl d g enq ret cl)
| step_sleep pq n aw aw' k sl d g enq ret cl : IsEmpty pq = true ->
    step (mkSystem pq n (aw ++ k :: aw') sl d g enq ret cl) (mkSystem pq n (aw ++ aw') (sl ++ [k]) d g enq ret cl)
| step_take pq pq' n aw aw' k sl d g enq ret cl task : takeFirst pq = Some (task, pq') ->
    step (mkSystem pq n (aw ++ k :: aw') sl d g enq ret cl)
      (mkSystem pq' n (aw ++ aw') sl (d ++ [(k, task)]) g enq ret cl)
| step_return pq n aw sl d d' g enq ret cl k task : k ∉ g ->
    step (mkSystem pq n aw sl (d ++ (k, task) :: d') g enq ret cl)
      (mkSystem pq n aw sl (d ++ d') g enq (ret ++ [(k, task)]) cl)
| step_timeout pq n aw sl d g enq ret cl k : k ∉ g -> k ∈ aw ++ sl ++ d.*1 ->
    step (mkSystem pq n aw sl d g enq ret cl) (mkSystem pq n aw sl d (g ++ [k]) enq ret cl)
| step_clear pq n aw sl d g enq ret cl :
    step (mkSystem pq n aw sl d g enq ret cl) (mkSystem (Clear pq) n aw sl d g enq ret (cl ++ tasks pq)).

Definition initial (maxSize : nat) : System := mkSystem (NewPriorityQueue maxSize) 0 [] [] [] [] [] [] [].

(** *** Invariants *)

Definition ofPriority (p : Z) (l : list nat) : list nat := filter (λ t, Priority t = p) l.

Definition Ordered (l : list nat) : Prop := StronglySorted (λ t u, Priority u <= Priority t) l.

Lemma insert_perm task l : insert_by_priority task l ≡ₚ task :: l.
Proof. induction l as [| u l IH]; cbn; [done |]. destruct (_ <? _); [done |]. rewrite IH. constructor. Qed.

Lemma insert_ordered task l : Ordered l -> Ordered (insert_by_priority task l).
Proof.
  unfold Ordered. induction 1 as [| u l Hs IH Hf]; cbn; [repeat constructor |].
  destruct (Z.ltb_spec (Priority u) (Priority task)) as [Hlt | Hge].
  - constructor; [by constructor |]. constructor; [lia |]. eapply Forall_impl; [exact Hf |]. cbn. lia.
  - constructor; [done |]. rewrite insert_perm. by constructor.
Qed.

(** Among tasks of one priority the new one is last. *)
Lemma insert_ofPriority p task l : Ordered l -> ofPriority p (insert_by_priority task l) = ofPriority p (l ++ [task]).
Proof.
  unfold Ordered, ofPriority. induction 1 as [| u l Hs IH Hf]; [done |]. cbn [insert_by_priority].
  destruct (Z.ltb_spec (Priority u) (Priority task)) as [Hlt | Hge].
  - rewrite filter_app, !filter_cons, filter_nil.
    destruct (decide (Priority task = p)) as [Hp | Hp]; [| by rewrite app_nil_r].
    destruct (decide (Priority u = p)) as [Hu | Hu]; [lia |].
    rewrite filter_none; [done |]. eapply Forall_impl; [exact Hf |]. cbn. lia.
  - change ((u :: l) ++ [task]) with (u :: (l ++ [task])). rewrite !filter_cons. by rewrite IH.
Qed.

Record Inv (s : System) : Prop := {
  inv_size : currentSize (queue s) = length (tasks (queue s));
  inv_room : (length (tasks (queue s)) <= maxSize (queue s))%nat;
  inv_ordered : Ordered (tasks (queue s));
  inv_fifo p : ofPriority p (tasks (queue s)) `suffix_of` ofPriority p (enqueued s);
  inv_conserved : enqueued s ≡ₚ tasks (queue s) ++ (done s).*2 ++ (returned s).*2 ++ cleared s;
  inv_woken : asleep s <> [] -> (length (tasks (queue s)) <= length (awake s))%nat;
  inv_calls : NoDup (awake s ++ asleep s ++ (done s).*1 ++ (returned s).*1);
  inv_fresh : Forall (λ k, k < calls s)%nat (awake s ++ asleep s ++ (done s).*1 ++ (returned s).*1)
}.

Lemma Signal_perm aw sl : (Signal aw sl).1 ++ (Signal aw sl).2 ≡ₚ aw ++ sl.
Proof. destruct sl as [| k sl]; cbn; [done |]. by rewrite <- app_assoc. Qed.

Lemma takeFirst_spec pq task pq' : takeFirst pq = Some (task, pq') ->
  tasks pq = task :: tasks pq' /\ maxSize pq' = maxSize pq /\ currentSize pq' = (currentSize pq - 1)%nat.
Proof. unfold takeFirst. destruct (tasks pq) as [| u l]; [done |]. by destruct (IsEmpty pq); intros [= <- <-]. Qed.

Lemma Enqueue_spec task pq pq' : Enqueue task pq = Some pq' ->
  tasks pq' = insert_by_priority task (tasks pq) /\ maxSize pq' = maxSize pq /\ currentSize pq' = S (currentSize pq) /\
  (currentSize pq < maxSize pq)%nat.
Proof.
  unfold Enqueue, IsFull. destruct (Nat.leb_spec (maxSize pq) (currentSize pq)); [done |]. by intros [= <-].
Qed.

Lemma Permutation_calls (l k : list nat) n : l ≡ₚ k -> NoDup l -> Forall (λ x, x < n)%nat l ->
  NoDup k /\ Forall (λ x, x < n)%nat k.
Proof. intros E Hn Hf. by rewrite <- E. Qed.

Lemma suffix_tail {A} (x : A) l k : x :: l `suffix_of` k -> l `suffix_of` k.
Proof. intros [k' ->]. exists (k' ++ [x]). by rewrite <- app_assoc. Qed.

Lemma Inv_step s s' : step s s' -> Inv s -> Inv s'.
Proof.
  intros Hs [Hsz Hroom Hord Hfifo Hcons Hwoken Hnd Hfresh].
  destruct Hs as [pq pq' n aw sl d g enq ret cl task He | pq n aw sl d g enq ret cl | pq n aw aw' k sl d g enq ret cl Hemp
    | pq pq' n aw aw' k sl d g enq ret cl task Ht | pq n aw sl d d' g enq ret cl k task Hg
    | pq n aw sl d g enq ret cl k Hg Hk | pq n aw sl d g enq ret cl]; cbn [queue calls awake asleep done enqueued returned cleared] in *.
  - apply Enqueue_spec in He as (Et & Em & Ec & Hlt).
    assert (length (insert_by_priority task (tasks pq)) = S (length (tasks pq))) as El by (by rewrite insert_perm).
    destruct (Permutation_calls (aw ++ sl ++ d.*1 ++ ret.*1) ((Signal aw sl).1 ++ (Signal aw sl).2 ++ d.*1 ++ ret.*1) n) as [Hnd' Hf'];
      [by rewrite !(assoc_L (++)), Signal_perm | done | done |].
    split; cbn; rewrite ?Et; try done; try lia.
    + by apply insert_ordered.
    + intros p. rewrite insert_ofPriority by done. unfold ofPriority. rewrite !filter_app. apply suffix_app, Hfifo.
    + rewrite insert_perm, Hcons. solve_Permutation.
    + intros Hne. destruct sl as [| k sl]; [done |]. cbn. rewrite length_app, El. cbn. specialize (Hwoken ltac:(done)). lia.
  - assert (n ∉ aw ++ sl ++ d.*1 ++ ret.*1) as Hn by (intros Hin; rewrite Forall_forall in Hfresh; specialize (Hfresh n Hin); lia).
    destruct (Permutation_calls (n :: aw ++ sl ++ d.*1 ++ ret.*1) ((aw ++ [n]) ++ sl ++ d.*1 ++ ret.*1) (S n)) as [Hnd' Hf'];
      [solve_Permutation | by constructor | constructor; [lia |]; eapply Forall_impl; [exact Hfresh |]; cbn; lia |].
    split; cbn; try done. intros Hne. rewrite length_app. specialize (Hwoken Hne). lia.
  - destruct (Permutation_calls ((aw ++ k :: aw') ++ sl ++ d.*1 ++ ret.*1) ((aw ++ aw') ++ (sl ++ [k]) ++ d.*1 ++ ret.*1) n) as [Hnd' Hf'];
      [solve_Permutation | done | done |].
    split; cbn; try done. unfold IsEmpty in Hemp. apply Nat.eqb_eq in Hemp. lia.
  - apply takeFirst_spec in Ht as (Et & Em & Ec). rewrite Et in *. cbn in Hsz, Hroom, Hwoken.
    destruct (Permutation_calls ((aw ++ k :: aw') ++ sl ++ d.*1 ++ ret.*1) ((aw ++ aw') ++ sl ++ (d ++ [(k, task)]).*1 ++ ret.*1) n) as [Hnd' Hf'];
      [rewrite fmap_app; solve_Permutation | done | done |].
    split; cbn; try done; try lia.
    + by inversion Hord.
    + intros p. specialize (Hfifo p). unfold ofPriority in *. rewrite filter_cons in Hfifo.
      destruct (decide _); [by eapply suffix_tail | done].
    + rewrite Hcons, fmap_app. solve_Permutation.
    + intros Hne. specialize (Hwoken Hne). rewrite length_app in *. cbn in Hwoken. lia.
  - destruct (Permutation_calls (aw ++ sl ++ (d ++ (k, task) :: d').*1 ++ ret.*1) (aw ++ sl ++ (d ++ d').*1 ++ (ret ++ [(k, task)]).*1) n) as [Hnd' Hf'];
      [rewrite !fmap_app; solve_Permutation | done | done |].
    split; cbn; try done. rewrite Hcons, !fmap_app. cbn. solve_Permutation.
  - by split.
  - split; cbn; try done; try lia.
    + constructor.
    + intros p. apply suffix_nil.
    + rewrite Hcons. solve_Permutation.
Qed.

Lemma Inv_reachable n s : rtc step (initial n) s -> Inv s.
Proof.
  intros Hr. apply (rtc_ind_r Inv (initial n)) in Hr; [done | |].
  - split; cbn; try done; try lia; constructor.
  - intros s1 s2 _ Hs HI. by eapply Inv_step.
Qed.

(** The calls that have given up return each at most once. *)
Record Gone (s : System) : Prop := {
  gone_once : NoDup (gone s);
  gone_nil k : k ∈ gone s -> (k ∉ (returned s).*1) /\ (k < calls s)%nat
}.

Lemma Gone_step s s' : step s s' -> Inv s -> Gone s -> Gone s'.
Proof.
  intros Hs HI [Hnd Hret]. pose proof (inv_fresh s HI) as Hf. pose proof (inv_calls s HI) as Hc. rewrite Forall_forall in Hf.
  destruct Hs as [| | | | pq n aw sl d d' g enq ret cl k task Hg | pq n aw sl d g enq ret cl k Hg Hk |];
    cbn [gone returned calls awake asleep done] in *; split; cbn; try done.
  - intros j Hj. destruct (Hret j Hj). split; [done | lia].
  - intros j Hj. destruct (Hret j Hj) as [? ?]. split; [| done]. rewrite fmap_app, not_elem_of_app. split; [done |].
    cbn. intros Hin%list_elem_of_singleton. by subst.
  - apply NoDup_app. split; [done |]. split; [| apply NoDup_singleton]. by intros j Hj ->%list_elem_of_singleton.
  - intros j [Hj | ->%list_elem_of_singleton]%elem_of_app; [by apply Hret |]. split.
    + rewrite !(assoc_L (++)) in Hc. apply NoDup_app in Hc as (_ & Hd & _). apply Hd. by rewrite <- !(assoc_L (++)).
    + apply Hf. rewrite !elem_of_app in *. tauto.
Qed.

(** The tasks whose call has returned nil in the meantime. *)
Definition lost (s : System) : list (nat * nat) := filter (λ kt, kt.1 ∈ gone s) (done s).

Lemma lost_length s : Inv s -> Gone s -> (length (lost s) <= length (gone s))%nat.
Proof.
  intros [_ _ _ _ _ _ Hnd _] [Hg _]. rewrite <- (length_fmap fst). apply submseteq_length, NoDup_submseteq.
  - rewrite !(assoc_L (++)) in Hnd. apply NoDup_app in Hnd as (Hnd & _ & _). apply NoDup_app in Hnd as (_ & _ & Hnd).
    unfold lost. clear - Hnd. induction (done s) as [| [k t] d IH]; [constructor |]. cbn in Hnd. apply NoDup_cons in Hnd as [Hk Hnd].
    rewrite filter_cons. destruct (decide _); [| by apply IH]. cbn. constructor; [| by apply IH].
    intros ([k' t'] & -> & [_ Hin]%list_elem_of_filter)%list_elem_of_fmap. apply Hk. by apply (list_elem_of_fmap_2 fst) in Hin.
  - intros k ([k' t'] & -> & [Hin _]%list_elem_of_filter)%list_elem_of_fmap. exact Hin.
Qed.

(** The blocking priority queue: under any interleaving of calls, wake-ups,
    time-outs and clearing, the queue is ordered by priority, and by the order of
    arrival among tasks of one priority, so that a call takes the oldest of the
    most urgent tasks; its size is the counter's and within the bound; no wake-up
    is lost, for while a call sleeps enough others are awake for all tasks in the
    queue; every task that was enqueued is in the queue, on its way to a call,
    returned once, or cleared; and tasks are lost only to calls that gave up,
    to each at most one. *)
Theorem dequeue_conserves n s : rtc step (initial n) s ->
  Ordered (tasks (queue s)) /\
  (forall p, ofPriority p (tasks (queue s)) `suffix_of` ofPriority p (enqueued s)) /\
  currentSize (queue s) = length (tasks (queue s)) /\ (currentSize (queue s) <= maxSize (queue s))%nat /\
  (asleep s <> [] -> (length (tasks (queue s)) <= length (awake s))%nat) /\
  enqueued s ≡ₚ tasks (queue s) ++ (done s).*2 ++ (returned s).*2 ++ cleared s /\
  NoDup ((done s).*1 ++ (returned s).*1) /\ (length (lost s) <= length (gone s))%nat.
Proof.
  intros Hr. assert (Inv s /\ Gone s) as [HI HG].
  { apply (rtc_ind_r (λ s, Inv s /\ Gone s) (initial n)) in Hr; [done | |].
    - split; [by apply (Inv_reachable n) | split; [constructor | by intros k Hk%not_elem_of_nil]].
    - intros s1 s2 _ Hs [HI HG]. split; [by eapply Inv_step | by eapply Gone_step]. }
  pose proof (lost_length s HI HG) as Hl. destruct HI as [Hsz Hroom Hord Hfifo Hcons Hwoken Hnd _].
  split; [done |]. split; [done |]. split; [done |]. split; [lia |]. split; [done |]. split; [done |]. split; [| done].
  rewrite (assoc_L (++)) in Hnd. by apply NoDup_app in Hnd as (_ & _ & Hnd).
Qed.
End PriorityQueue.

(** A call of [DequeueWithTimeout] sleeps and gives up; its goroutine stays and
    takes the next task, which nobody gets. *)
Definition abandoned : System :=
  mkSystem (mkPriorityQueue [] 4 0) 1 [] [] [(0, 7)]%nat [0]%nat [7]%nat [] [].

Lemma abandoned_reachable : rtc (step Z.of_nat) (initial 4) abandoned.
Proof.
  eapply rtc_l; [apply step_call |]. eapply rtc_l; [by apply (step_sleep _ _ _ [] []) |].
  eapply rtc_l; [apply (step_timeout _ _ _ [] [0%nat] [] [] _ _ _ 0%nat); [by intros ?%not_elem_of_nil | by left] |].
  eapply rtc_l; [apply (step_enqueue Z.of_nat _ (mkPriorityQueue [7]%nat 4 1) _ _ _ _ _ _ _ _ 7%nat); reflexivity |].
  eapply rtc_l; [apply (step_take Z.of_nat _ (mkPriorityQueue [] 4 0) _ [] []); reflexivity |]. reflexivity.
Qed.

Lemma dequeue_conserves_witness : rtc (step Z.of_nat) (initial 4) abandoned /\
  (length (lost abandoned) <= length (gone abandoned))%nat /\ lost abandoned = [(0, 7)]%nat.
Proof.
  split; [exact abandoned_reachable |]. split; [| reflexivity].
  apply (dequeue_conserves Z.of_nat 4 abandoned abandoned_reachable).
Defined.
