(* ===== verification/TaskScheduling.v ===== *)
(** * TaskScheduling: controllers/parallel/task_scheduler.go

    The dependency graph of tasks, the strategies and load balancers that choose a
    pool, and the scheduler that brings a task from its queue to a pool.  The
    order in which Go goes through a map is an argument: any arrangement of the
    keys. *)

From S2P Require Import Prelude GoFloat ParallelEngine WorkerPools.

Local Open Scope Z_scope.

(** ** The dependency graph *)

Module DependencyGraph.

(** Nodes point to each other.  No node is ever removed or replaced, so that an
    identifier stands for the pointer to its node. *)
Record DependencyNode := mkNode {
  Dependencies : list string;
  Dependents : list string;
  Completed : bool;
  Failed : bool
}.

Abbreviation graph := (gmap string DependencyNode).

Definition NewDependencyGraph : graph := ∅.

Definition newNode : DependencyNode := mkNode [] [] false false.

Definition ensure (id : string) (dg : graph) : graph :=
  match dg !! id with Some _ => dg | None => <[id := newNode]> dg end.

Definition addDependency (depID : string) (node : DependencyNode) : DependencyNode :=
  mkNode (Dependencies node ++ [depID]) (Dependents node) (Completed node) (Failed node).
Definition addDependent (depID : string) (node : DependencyNode) : DependencyNode :=
  mkNode (Dependencies node) (Dependents node ++ [depID]) (Completed node) (Failed node).

(** The bodies of the two loops of [AddTask]. *)
Definition needs (taskID : string) (dg : graph) (depID : string) : graph :=
  alter (addDependent taskID) depID (alter (addDependency depID) taskID (ensure depID dg)).
Definition neededBy (taskID : string) (dg : graph) (depID : string) : graph :=
  alter (addDependency taskID) depID (alter (addDependent depID) taskID (ensure depID dg)).

Definition AddTask (taskID : string) (dependencies dependents : list string) (dg : graph) : graph :=
  foldl (neededBy taskID) (foldl (needs taskID) (ensure taskID dg) dependencies) dependents.

Definition satisfied (dg : graph) (depID : string) : bool :=
  match dg !! depID with Some dep => Completed dep && negb (Failed dep) | None => false end.

Definition areDependenciesSatisfiedUnsafe (dg : graph) (node : DependencyNode) : bool :=
  forallb (satisfied dg) (Dependencies node).

Definition AreDependenciesSatisfied (taskID : string) (dg : graph) : bool :=
  match dg !! taskID with None => true | Some node => areDependenciesSatisfiedUnsafe dg node end.

Definition MarkTaskCompleted (taskID : string) (success : bool) (dg : graph) : graph :=
  alter (λ node, mkNode (Dependencies node) (Dependents node) true (negb success)) taskID dg.

Definition ready (dg : graph) (taskID : string) : bool :=
  match dg !! taskID with
  | Some node => negb (Completed node) && negb (Failed node) && areDependenciesSatisfiedUnsafe dg node
  | None => false
  end.

(** [order] are the keys of the map. *)
Definition GetReadyTasks (order : list string) (dg : graph) : list string := filter (λ t, ready dg t = true) order.

Definition GetTaskStatus (taskID : string) (dg : graph) : bool * bool * bool :=
  match dg !! taskID with Some node => (Completed node, Failed node, true) | None => (false, false, false) end.

(** *** Graphs that [AddTask] builds *)

Definition depends (dg : graph) (t d : string) : Prop := exists node, dg !! t = Some node /\ d ∈ Dependencies node.
Definition supports (dg : graph) (d t : string) : Prop := exists node, dg !! d = Some node /\ t ∈ Dependents node.

(** Edges are known at both ends, and nothing has run. *)
Definition Linked (dg : graph) : Prop := forall t d, depends dg t d <-> supports dg d t.
Definition Untouched (dg : graph) : Prop := map_Forall (λ _ node, Completed node = false /\ Failed node = false) dg.

Lemma ensure_lookup id dg t node : ensure id dg !! t = Some node <->
  dg !! t = Some node \/ t = id /\ dg !! t = None /\ node = newNode.
Proof.
  unfold ensure. destruct (dg !! id) as [n |] eqn:E.
  - split; [by left |]. intros [? | (-> & ? & _)]; [done | congruence].
  - destruct (decide (t = id)) as [-> |].
    + rewrite lookup_insert_eq, E. split; [intros [= <-]; by right | intros [? | (_ & _ & ->)]; [done | done]].
    + rewrite lookup_insert_ne by done. split; [by left | intros [? | [? _]]; done].
Qed.

Lemma ensure_depends id dg t d : depends (ensure id dg) t d <-> depends dg t d.
Proof.
  unfold depends. setoid_rewrite ensure_lookup. split.
  - intros (node & [H | (-> & _ & ->)] & Hd); [by exists node | by apply not_elem_of_nil in Hd].
  - intros (node & H & Hd). exists node. by split; [left |].
Qed.

Lemma ensure_supports id dg d t : supports (ensure id dg) d t <-> supports dg d t.
Proof.
  unfold supports. setoid_rewrite ensure_lookup. split.
  - intros (node & [H | (-> & _ & ->)] & Hd); [by exists node | by apply not_elem_of_nil in Hd].
  - intros (node & H & Hd). exists node. by split; [left |].
Qed.

Lemma ensure_is_Some id dg t : is_Some (dg !! t) \/ t = id -> is_Some (ensure id dg !! t).
Proof.
  unfold ensure. intros Ht. destruct (dg !! id) as [n |] eqn:E.
  - destruct Ht as [? | ->]; [done | by rewrite E].
  - destruct (decide (t = id)) as [-> |]; [by rewrite lookup_insert_eq | rewrite lookup_insert_ne by done; by destruct Ht].
Qed.

(** One edge is added at both ends. *)
Lemma edge_depends dg a b t d : is_Some (dg !! a) ->
  depends (alter (addDependency b) a dg) t d <-> depends dg t d \/ t = a /\ d = b.
Proof.
  intros [na Ha]. unfold depends. destruct (decide (t = a)) as [-> |].
  - rewrite lookup_alter_eq, Ha. cbn. split.
    + intros (n & [= <-] & [Hd | ->%list_elem_of_singleton]%elem_of_app); [left; by exists na | by right].
    + intros [(n & [= <-] & Hd) | [_ ->]]; eexists; (split; [done |]); cbn; apply elem_of_app; [by left | right; by left].
  - rewrite lookup_alter_ne by done. split; [by left | intros [? | [? _]]; done].
Qed.

Lemma edge_supports dg a b d t : is_Some (dg !! b) ->
  supports (alter (addDependent a) b dg) d t <-> supports dg d t \/ d = b /\ t = a.
Proof.
  intros [nb Hb]. unfold supports. destruct (decide (d = b)) as [-> |].
  - rewrite lookup_alter_eq, Hb. cbn. split.
    + intros (n & [= <-] & [Hd | ->%list_elem_of_singleton]%elem_of_app); [left; by exists nb | by right].
    + intros [(n & [= <-] & Hd) | [_ ->]]; eexists; (split; [done |]); cbn; apply elem_of_app; [by left | right; by left].
  - rewrite lookup_alter_ne by done. split; [by left | intros [? | [? _]]; done].
Qed.

Lemma addDependency_supports dg a b d t : supports (alter (addDependency b) a dg) d t <-> supports dg d t.
Proof.
  unfold supports. destruct (decide (d = a)) as [-> |]; [| by rewrite lookup_alter_ne].
  rewrite lookup_alter_eq. destruct (dg !! a) as [n |]; cbn; [| done].
  split; intros (m & [= <-] & Hm); by eexists.
Qed.

Lemma addDependent_depends dg a b t d : depends (alter (addDependent a) b dg) t d <-> depends dg t d.
Proof.
  unfold depends. destruct (decide (t = b)) as [-> |]; [| by rewrite lookup_alter_ne].
  rewrite lookup_alter_eq. destruct (dg !! b) as [n |]; cbn; [| done].
  split; intros (m & [= <-] & Hm); by eexists.
Qed.

Lemma alter_is_Some (f : DependencyNode -> DependencyNode) a (dg : graph) t : is_Some (alter f a dg !! t) <-> is_Some (dg !! t).
Proof. rewrite lookup_alter. case_decide; [subst; by rewrite fmap_is_Some | done]. Qed.

Lemma needs_spec t dg d : is_Some (dg !! t) ->
  (forall x y, depends (needs t dg d) x y <-> depends dg x y \/ x = t /\ y = d) /\
  (forall y x, supports (needs t dg d) y x <-> supports dg y x \/ y = d /\ x = t) /\
  (forall x, is_Some (dg !! x) -> is_Some (needs t dg d !! x)).
Proof.
  intros Ht. assert (is_Some (ensure d dg !! t)) as Ht' by (apply ensure_is_Some; by left).
  assert (is_Some (ensure d dg !! d)) as Hd by (apply ensure_is_Some; by right). unfold needs. split; [| split].
  - intros x y. by rewrite addDependent_depends, edge_depends, ensure_depends.
  - intros y x. rewrite edge_supports by (by apply alter_is_Some). by rewrite addDependency_supports, ensure_supports.
  - intros x Hx. rewrite !alter_is_Some. apply ensure_is_Some. by left.
Qed.

Lemma neededBy_spec t dg d : is_Some (dg !! t) ->
  (forall x y, depends (neededBy t dg d) x y <-> depends dg x y \/ x = d /\ y = t) /\
  (forall y x, supports (neededBy t dg d) y x <-> supports dg y x \/ y = t /\ x = d) /\
  (forall x, is_Some (dg !! x) -> is_Some (neededBy t dg d !! x)).
Proof.
  intros Ht. assert (is_Some (ensure d dg !! t)) as Ht' by (apply ensure_is_Some; by left).
  assert (is_Some (ensure d dg !! d)) as Hd by (apply ensure_is_Some; by right). unfold neededBy. split; [| split].
  - intros x y. rewrite edge_depends by (by apply alter_is_Some). by rewrite addDependent_depends, ensure_depends.
  - intros y x. by rewrite addDependency_supports, edge_supports, ensure_supports.
  - intros x Hx. rewrite !alter_is_Some. apply ensure_is_Some. by left.
Qed.

(** [AddTask] adds exactly the edges it is asked for. *)
Lemma AddTask_spec t ds us dg :
  (forall x y, depends (AddTask t ds us dg) x y <-> depends dg x y \/ (x = t /\ y ∈ ds) \/ (y = t /\ x ∈ us)) /\
  (forall y x, supports (AddTask t ds us dg) y x <-> supports dg y x \/ (x = t /\ y ∈ ds) \/ (y = t /\ x ∈ us)).
Proof.
  assert (forall ds dg, is_Some (dg !! t) -> is_Some (foldl (needs t) dg ds !! t) /\
    (forall x y, depends (foldl (needs t) dg ds) x y <-> depends dg x y \/ x = t /\ y ∈ ds) /\
    (forall y x, supports (foldl (needs t) dg ds) y x <-> supports dg y x \/ x = t /\ y ∈ ds)) as H1.
  { clear. intros ds. induction ds as [| d ds IH]; intros dg Ht; cbn [foldl].
    - split; [done |]. split; intros ? ?; rewrite elem_of_nil; tauto.
    - destruct (needs_spec t dg d Ht) as (E1 & E2 & Hs). destruct (IH _ (Hs t Ht)) as (Ht' & F1 & F2). split; [done |].
      split; intros x y; [rewrite F1, E1 | rewrite F2, E2]; rewrite elem_of_cons; tauto. }
  assert (forall us dg, is_Some (dg !! t) ->
    (forall x y, depends (foldl (neededBy t) dg us) x y <-> depends dg x y \/ y = t /\ x ∈ us) /\
    (forall y x, supports (foldl (neededBy t) dg us) y x <-> supports dg y x \/ y = t /\ x ∈ us)) as H2.
  { clear. intros us. induction us as [| d us IH]; intros dg Ht; cbn [foldl].
    - split; intros ? ?; rewrite elem_of_nil; tauto.
    - destruct (neededBy_spec t dg d Ht) as (E1 & E2 & Hs). destruct (IH _ (Hs t Ht)) as (F1 & F2).
      split; intros x y; [rewrite F1, E1 | rewrite F2, E2]; rewrite elem_of_cons; tauto. }
  assert (is_Some (ensure t dg !! t)) as Ht by (apply ensure_is_Some; by right).
  destruct (H1 ds _ Ht) as (Ht1 & E1 & E2). destruct (H2 us _ Ht1) as (F1 & F2). unfold AddTask.
  split; intros x y; [rewrite F1, E1, ensure_depends | rewrite F2, E2, ensure_supports]; tauto.
Qed.

Lemma AddTask_linked t ds us dg : Linked dg -> Linked (AddTask t ds us dg).
Proof. intros HL x y. destruct (AddTask_spec t ds us dg) as [-> ->]. by rewrite (HL x y). Qed.

Lemma foldl_inv {A B} (P : A -> Prop) (f : A -> B -> A) l a : (forall a b, P a -> P (f a b)) -> P a -> P (foldl f a l).
Proof. intros Hf. revert a. induction l as [| b l IH]; intros a Ha; [done |]. by apply IH, Hf. Qed.

Lemma ensure_untouched id dg : Untouched dg -> Untouched (ensure id dg).
Proof. intros H x node [Hx | (_ & _ & ->)]%ensure_lookup; [by apply (H x) | done]. Qed.

Lemma alter_untouched f a dg : (forall n, Completed (f n) = Completed n /\ Failed (f n) = Failed n) ->
  Untouched dg -> Untouched (alter f a dg).
Proof.
  intros Hf H x node. rewrite lookup_alter. case_decide as E; [subst | by apply H].
  intros (n & Hn & ->)%fmap_Some. destruct (Hf n) as [-> ->]. by apply (H x).
Qed.

Lemma AddTask_untouched t ds us dg : Untouched dg -> Untouched (AddTask t ds us dg).
Proof.
  intros H. unfold AddTask. repeat apply foldl_inv; [| | by apply ensure_untouched];
    intros g d Hg; unfold needs, neededBy; repeat apply alter_untouched; try done; by apply ensure_untouched.
Qed.

(** Graphs built from nothing. *)
Definition build (l : list (string * list string * list string)) : graph :=
  foldl (λ dg t, AddTask t.1.1 t.1.2 t.2 dg) NewDependencyGraph l.

Lemma build_linked l : Linked (build l) /\ Untouched (build l).
Proof.
  unfold build. apply (foldl_inv (λ dg, Linked dg /\ Untouched dg)).
  - intros dg t [HL HU]. split; [by apply AddTask_linked | by apply AddTask_untouched].
  - split; [| apply map_Forall_empty]. intros t d. unfold depends, supports, NewDependencyGraph.
    split; intros (n & Hn & _); by rewrite lookup_empty in Hn.
Qed.

(** *** Execution *)

(** Ready tasks are executed one after the other, well or not; the second
    component is the history. *)
Inductive execute : graph * list (string * bool) -> graph * list (string * bool) -> Prop :=
| execute_one dg l order t success : order ≡ₚ elements (dom dg) -> t ∈ GetReadyTasks order dg ->
    execute (dg, l) (MarkTaskCompleted t success dg, l ++ [(t, success)]).

Definition statusAfter (l : list (string * bool)) (t : string) (node : DependencyNode) : DependencyNode :=
  mkNode (Dependencies node) (Dependents node) (bool_decide (t ∈ l.*1)) (bool_decide ((t, false) ∈ l)).

Record Executed (dg : graph) (s : graph * list (string * bool)) : Prop := {
  executed_status t : s.1 !! t = statusAfter s.2 t <$> dg !! t;
  executed_once : NoDup s.2.*1;
  executed_nodes t : t ∈ s.2.*1 -> is_Some (dg !! t);
  executed_after l1 t b l2 d : s.2 = l1 ++ (t, b) :: l2 -> depends dg t d -> (d, true) ∈ l1
}.

Lemma outcome_unique (l : list (string * bool)) t b c : NoDup l.*1 -> (t, b) ∈ l -> (t, c) ∈ l -> b = c.
Proof.
  intros Hnd (l1 & l2 & ->)%list_elem_of_split. apply NoDup_middle in Hnd as [_ Hne]. rewrite Forall_forall in Hne.
  rewrite elem_of_app, elem_of_cons. intros [Hc | [E | Hc]]; [| by injection E |]; exfalso; eapply (Hne (t, c)); [set_solver | done | set_solver | done].
Qed.

Lemma satisfied_iff (dg : graph) l dg' d : (forall t, dg' !! t = statusAfter l t <$> dg !! t) -> NoDup l.*1 -> (forall t, t ∈ l.*1 -> is_Some (dg !! t)) ->
  satisfied dg' d = true <-> (d, true) ∈ l.
Proof.
  intros Hst Hnd Hn. unfold satisfied. rewrite Hst. destruct (dg !! d) as [node |] eqn:E; cbn.
  - rewrite andb_true_iff, negb_true_iff, bool_decide_eq_true, bool_decide_eq_false. split.
    + intros [([d' []] & -> & Hd)%list_elem_of_fmap Hf]; done.
    + intros Hd. split; [by apply (list_elem_of_fmap_2 fst) in Hd |]. intros Hf.
      discriminate (outcome_unique _ _ _ _ Hnd Hd Hf).
  - split; [done |]. intros Hd%(list_elem_of_fmap_2 fst)%Hn. cbn in Hd. rewrite E in Hd. by destruct Hd.
Qed.

Lemma ready_iff dg l dg' t : Executed dg (dg', l) ->
  ready dg' t = true <-> (t ∉ l.*1) /\ exists node, dg !! t = Some node /\ Forall (λ d, (d, true) ∈ l) (Dependencies node).
Proof.
  intros [Hst Hnd Hn _]. cbn in *. unfold ready. rewrite Hst. destruct (dg !! t) as [node |]; cbn.
  - rewrite !andb_true_iff, !negb_true_iff, !bool_decide_eq_false. unfold areDependenciesSatisfiedUnsafe. cbn.
    rewrite forallb_forall. setoid_rewrite <- list_elem_of_In.
    assert (forall d, satisfied dg' d = true <-> (d, true) ∈ l) as Hsat by (intros d; by apply (satisfied_iff dg)).
    setoid_rewrite Hsat. split.
    + intros [[Ht _] Hd]. split; [done |]. exists node. split; [done |]. by apply Forall_forall.
    + intros [Ht (n & [= <-] & Hd)]. rewrite Forall_forall in Hd. split; [split; [done |] | done]. intros Hf. apply Ht.
      by apply (list_elem_of_fmap_2 fst) in Hf.
  - split; [done | by intros (_ & n & [=] & _)].
Qed.

Lemma execute_step dg s s' : execute s s' -> Executed dg s -> Executed dg s'.
Proof.
  intros Hs HE. destruct Hs as [dg' l order t b Ho Ht]. apply list_elem_of_filter in Ht as [Hr _].
  apply (ready_iff dg l dg' t HE) in Hr as (Hnew & node & Hnode & Hdeps). destruct HE as [Hst Hnd Hn Ha]. cbn in *.
  assert (forall b', (t, b') ∉ l) as Hnot by (intros b' Hin; apply Hnew; by apply (list_elem_of_fmap_2 fst) in Hin).
  split; cbn.
  - intros u. unfold MarkTaskCompleted, statusAfter. rewrite lookup_alter. case_decide as E.
    + subst u. rewrite Hst, Hnode. cbn. do 2 f_equal.
      * symmetry. apply bool_decide_eq_true. rewrite fmap_app, elem_of_app. right. by left.
      * destruct b; cbn; symmetry; [apply bool_decide_eq_false | apply bool_decide_eq_true].
        -- intros [?%Hnot | [=]%list_elem_of_singleton]%elem_of_app; done.
        -- apply elem_of_app. right. by left.
    + rewrite Hst. unfold statusAfter. destruct (dg !! u) as [n |]; cbn; [| done]. do 2 f_equal; apply bool_decide_ext.
      * rewrite fmap_app, elem_of_app. cbn. rewrite list_elem_of_singleton. naive_solver.
      * rewrite elem_of_app, list_elem_of_singleton. naive_solver.
  - rewrite fmap_app. apply NoDup_app. split; [done |]. split; [| apply NoDup_singleton]. cbn. by intros u Hu ->%list_elem_of_singleton.
  - intros u. rewrite fmap_app, elem_of_app. cbn. rewrite list_elem_of_singleton. intros [? | ->]; [by apply Hn | by rewrite Hnode].
  - intros l1 u b' l2 d El Hd. destruct l2 as [| x l2 _] using rev_ind.
    + apply app_inj_tail in El as [<- E]. injection E as <- <-. destruct Hd as (n & Hn' & Hd). assert (n = node) as -> by congruence.
      rewrite Forall_forall in Hdeps. by apply Hdeps.
    + rewrite app_comm_cons, app_assoc in El. apply app_inj_tail in El as [El _]. by eapply Ha.
Qed.

Lemma execute_reachable dg dg' l : Untouched dg -> rtc execute (dg, []) (dg', l) -> Executed dg (dg', l).
Proof.
  intros HU Hr. apply (rtc_ind_r (Executed dg) (dg, [])) in Hr; [done | |].
  - split; cbn.
    + intros t. destruct (dg !! t) as [[] |] eqn:E; [| done]. destruct (HU t _ E) as [E1 E2]. cbn in *. by rewrite E1, E2.
    + constructor.
    + by intros t ?%not_elem_of_nil.
    + intros [] ? ? ? ? [=].
  - intros s1 s2 _ Hs HE. by eapply execute_step.
Qed.

(** The dependencies can be numbered. *)
Definition acyclic (dg : graph) : Prop := exists rank : string -> nat, forall t d, depends dg t d -> (rank d < rank t)%nat.

(** Nothing behind a failed task is executed. *)
Lemma behind_failure dg dg' l t f : Executed dg (dg', l) -> (f, false) ∈ l -> tc (depends dg) t f -> t ∉ l.*1.
Proof.
  intros [_ Hnd _ Ha] Hf Htc. cbn in *. induction Htc as [t f Hd | t d f Hd _ IH];
    intros ([t' b] & -> & (l1 & l2 & El)%list_elem_of_split)%list_elem_of_fmap; pose proof (Ha _ _ _ _ _ El Hd) as Hin.
  - assert ((f, true) ∈ l) as Ht by (rewrite El, elem_of_app; by left). discriminate (outcome_unique _ _ _ _ Hnd Ht Hf).
  - apply (IH Hf). apply (list_elem_of_fmap_2 fst) in Hin. rewrite El, fmap_app, elem_of_app. by left.
Qed.

(** When nothing is ready, what has not been executed is behind a failure. *)
Lemma stuck_behind_failure dg dg' l order : Linked dg -> acyclic dg -> Executed dg (dg', l) ->
  order ≡ₚ elements (dom dg') -> GetReadyTasks order dg' = [] ->
  forall t, is_Some (dg !! t) -> (t ∉ l.*1) -> exists f, (f, false) ∈ l /\ tc (depends dg) t f.
Proof.
  intros HL [rank Hrank] HE Ho Hstuck t. remember (rank t) as n eqn:En. revert t En.
  induction (lt_wf n) as [n _ IH]. intros t -> [node Hnode] Ht. pose proof HE as [Hst Hnd _ _]. cbn in *.
  assert (ready dg' t = true -> False) as Hnr.
  { intros Hr. assert (t ∈ GetReadyTasks order dg') as Hin; [| rewrite Hstuck in Hin; by apply not_elem_of_nil in Hin].
    apply list_elem_of_filter. split; [done |]. rewrite Ho, elem_of_elements, elem_of_dom, Hst, Hnode. by eexists. }
  destruct (decide (Forall (λ d, (d, true) ∈ l) (Dependencies node))) as [Hall | Hex%not_Forall_Exists].
  { destruct Hnr. apply (ready_iff dg l dg' t HE). split; [done |]. by exists node. }
  2: apply _. apply Exists_exists in Hex as (d & Hd & Hnd'). assert (depends dg t d) as Hdep by (by exists node).
  destruct (decide (d ∈ l.*1)) as [([d' b] & -> & Hdl)%list_elem_of_fmap | Hdl].
  - cbn in *. exists d'. destruct b; [done |]. split; [done | by apply tc_once].
  - destruct (IH (rank d) (Hrank _ _ Hdep) d eq_refl) as (f & Hf & Htc); [| done |].
    + apply HL in Hdep as (m & Hm & _). by rewrite Hm.
    + exists f. split; [done | by eapply tc_l].
Qed.

(** Tasks on a cycle, or behind one, are never executed. *)
Lemma cycles_never_run dg dg' l (C : string -> Prop) : Executed dg (dg', l) ->
  (forall t, C t -> exists d, depends dg t d /\ C d) -> forall t, C t -> t ∉ l.*1.
Proof.
  intros [_ _ _ Ha] HC. cbn in Ha. assert (forall n t b l1 l2, length l1 = n -> l = l1 ++ (t, b) :: l2 -> C t -> False) as Hno.
  { intros n. induction (lt_wf n) as [n _ IH]. intros t b l1 l2 Hn El Ht. destruct (HC t Ht) as (d & Hd & Hcd).
    pose proof (Ha _ _ _ _ _ El Hd) as (k1 & k2 & ->)%list_elem_of_split. rewrite length_app in Hn. cbn in Hn.
    eapply (IH (length k1)); [lia | done | | exact Hcd]. by rewrite El, <- app_assoc. }
  intros t Ht ([t' b] & -> & (l1 & l2 & El)%list_elem_of_split)%list_elem_of_fmap. by eapply Hno.
Qed.

(** Execution of a task graph: whatever ready task is chosen, however the
    map is gone through and whatever tasks fail, each task of the graph is
    executed at most once, and after all its dependencies have been executed well;
    the flags of the graph say which tasks were executed and which failed; and
    when no task is ready in a graph without cycles, the tasks that have not been
    executed are those that depend, directly or not, on a failed one - none, if no
    task failed. *)
Theorem execution_outcome calls dg' l : let dg := build calls in
  rtc execute (dg, []) (dg', l) ->
  NoDup l.*1 /\ (length l <= size dg)%nat /\
  (forall l1 t b l2 d, l = l1 ++ (t, b) :: l2 -> depends dg t d -> (d, true) ∈ l1) /\
  (forall t, is_Some (dg !! t) ->
     GetTaskStatus t dg' = (bool_decide (t ∈ l.*1), bool_decide ((t, false) ∈ l), true)) /\
  (acyclic dg -> forall order, order ≡ₚ elements (dom dg') -> GetReadyTasks order dg' = [] ->
     forall t, is_Some (dg !! t) -> (t ∉ l.*1) <-> exists f, (f, false) ∈ l /\ tc (depends dg) t f).
Proof.
  intros dg Hr. destruct (build_linked calls) as [HL HU]. fold dg in HL, HU.
  pose proof (execute_reachable dg dg' l HU Hr) as HE. pose proof HE as [Hst Hnd Hn Ha]. cbn in *.
  split; [done |]. split; [| split; [done | split]].
  - rewrite <- (length_fmap fst), <- size_dom. unfold size, set_size, compose. apply submseteq_length, NoDup_submseteq; [done |].
    intros t Ht. rewrite elem_of_elements, elem_of_dom. by apply Hn.
  - intros t [node Hnode]. unfold GetTaskStatus. by rewrite Hst, Hnode.
  - intros Hac order Ho Hstuck t Ht. split; [by eapply stuck_behind_failure |]. intros (f & Hf & Htc). by eapply behind_failure.
Qed.

(** Two tasks behind a third one, which fails; a fourth stands alone. *)
Definition fork : list (string * list string * list string) :=
  [("parse", [], ["llm"; "rag"]); ("plan", ["llm"], []); ("report", [], [])].

Definition failedFork : graph := MarkTaskCompleted "report" true (MarkTaskCompleted "parse" false (build fork)).

Lemma failedFork_reachable : rtc execute (build fork, []) (failedFork, [("parse", false); ("report", true)]).
Proof.
  eapply rtc_l; [apply (execute_one _ _ (elements (dom (build fork))) "parse" false); [done | by apply (bool_decide_eq_true_1 (_ ∈ _))] |].
  eapply rtc_l; [apply (execute_one _ _ (elements (dom (build fork))) "report" true); [by vm_compute | by apply (bool_decide_eq_true_1 (_ ∈ _))] |].
  reflexivity.
Qed.

Lemma fork_acyclic : acyclic (build fork).
Proof.
  exists (λ t, if String.eqb t "parse" then 0 else if String.eqb t "plan" then 2 else 1)%nat.
  intros t d (node & Hn & Hd). assert (map_Forall (λ t node, Forall (λ d,
    (if String.eqb d "parse" then 0 else if String.eqb d "plan" then 2 else 1) <
    (if String.eqb t "parse" then 0 else if String.eqb t "plan" then 2 else 1))%nat (Dependencies node)) (build fork)) as Hall
    by (by apply (bool_decide_eq_true_1 (map_Forall _ _))).
  pose proof (Hall t node Hn) as Hf. rewrite Forall_forall in Hf. by apply Hf.
Qed.

Lemma execution_outcome_witness : rtc execute (build fork, []) (failedFork, [("parse", false); ("report", true)]) /\
  exists f, (f, false) ∈ [("parse", false); ("report", true)] /\ tc (depends (build fork)) "plan" f.
Proof.
  split; [exact failedFork_reachable |].
  destruct (execution_outcome fork _ _ failedFork_reachable) as (_ & _ & _ & _ & H).
  apply (H fork_acyclic (elements (dom failedFork)) (reflexivity _)).
  - by vm_compute.
  - by eexists.
  - by apply (bool_decide_eq_true_1 (_ ∉ _)).
Defined.

End DependencyGraph.

(** ** Strategies *)

Definition getPoolNameForTaskType (taskType : TaskType) : string :=
  if String.eqb taskType TaskTypeIntentProcessing then "intent"
  else if String.eqb taskType TaskTypeLLMProcessing then "llm"
  else if String.eqb taskType TaskTypeRAGRetrieval then "rag"
  else if String.eqb taskType TaskTypeResourcePlanning then "resource"
  else if String.eqb taskType TaskTypeManifestGeneration then "manifest"
  else if String.eqb taskType TaskTypeGitOpsCommit then "gitops"
  else if String.eqb taskType TaskTypeDeploymentVerify then "deployment"
  else "intent".

Inductive SchedulingError := NoAvailableWorkers (taskID : string).

Section strategies.
Context (availableWorkers : gmap string Z) (order : list string).

Definition available (name : string) : Z := default 0 (availableWorkers !! name).

(** The first pool with room, in the order in which the map is gone through. *)
Definition firstAvailable : option string := list_find (λ name, 0 < available name) order ≫= λ x, Some x.2.

Definition priorityFirst (task : Task) : result SchedulingError string :=
  let poolName := getPoolNameForTaskType (Type_ task) in
  if 0 <? available poolName then Ok poolName
  else match firstAvailable with Some name => Ok name | None => Err (NoAvailableWorkers (ID task)) end.

Definition better (best : Z * string) (poolName : string) : Z * string :=
  if best.1 <? available poolName then (available poolName, poolName) else best.

Definition loadBalanced (task : Task) : result SchedulingError string :=
  let preferredPool := getPoolNameForTaskType (Type_ task) in
  let best := if 0 <? available preferredPool then (available preferredPool, preferredPool) else (0, "") in
  let best := foldl better best order in
  if String.eqb best.2 "" then Err (NoAvailableWorkers (ID task)) else Ok best.2.

Definition dependencyAware (task : Task) : result SchedulingError string :=
  let preferredPool := getPoolNameForTaskType (Type_ task) in
  if 0 <? available preferredPool then Ok preferredPool
  else match firstAvailable with Some name => Ok name | None => Err (NoAvailableWorkers (ID task)) end.

Inductive Strategy := PriorityFirst | LoadBalanced | DependencyAware.

Definition ScheduleTask (strategy : Strategy) (task : Task) : result SchedulingError string :=
  match strategy with
  | PriorityFirst => priorityFirst task
  | LoadBalanced => loadBalanced task
  | DependencyAware => dependencyAware task
  end.

(** The strategies by priority and by dependencies look at neither, and agree. *)
Lemma strategies_agree task : dependencyAware task = priorityFirst task.
Proof. reflexivity. Qed.

Context (Horder : order ≡ₚ elements (dom availableWorkers)).

Lemma available_order name : 0 < available name -> name ∈ order.
Proof.
  unfold available. rewrite Horder, elem_of_elements, elem_of_dom. destruct (availableWorkers !! name); cbn; [by eexists | lia].
Qed.

Lemma firstAvailable_spec : match firstAvailable with
  | Some name => 0 < available name
  | None => forall name, available name <= 0
  end.
Proof.
  unfold firstAvailable. destruct (list_find _ order) as [[i name] |] eqn:E; cbn.
  - by apply list_find_Some in E as (_ & ? & _).
  - intros name. apply list_find_None in E. rewrite Forall_forall in E.
    destruct (Z.lt_ge_cases 0 (available name)) as [Hlt | ?]; [| done]. by destruct (E name (available_order name Hlt)).
Qed.

(** [best] is the preferred pool, or else a pool seen with more room. *)
Lemma better_spec l best : best.1 = available best.2 \/ best = (0, "") ->
  let r := foldl better best l in
  (r.1 = available r.2 \/ r = (0, "")) /\ best.1 <= r.1 /\ (forall name, name ∈ l -> available name <= r.1) /\
  (r = best \/ best.1 < r.1).
Proof.
  revert best. induction l as [| name l IH]; intros best Hb; cbn.
  - split; [done |]. split; [lia |]. split; [by intros ? ?%not_elem_of_nil | by left].
  - assert (better best name = best \/ better best name = (available name, name) /\ best.1 < available name) as Hc
      by (unfold better; destruct (Z.ltb_spec best.1 (available name)); auto).
    assert (best.1 <= (better best name).1 /\ available name <= (better best name).1) as [Hle Hav]
      by (unfold better; destruct (Z.ltb_spec best.1 (available name)); cbn; lia).
    destruct (IH (better best name)) as (H1 & H2 & H3 & H4); [destruct Hc as [-> | [-> _]]; [done | by left] |].
    split; [done |]. split; [lia |]. split.
    + intros n [-> | Hn]%elem_of_cons; [lia | by apply H3].
    + destruct Hc as [Hc | [Hc Hlt]]; rewrite Hc in *; destruct H4 as [-> | ?]; auto; cbn in *; right; lia.
Qed.

(** A strategy finds a pool with room if there is one; the load-balanced one finds
    one with the most room, and all stay with the pool of the type when they can. *)
Lemma ScheduleTask_spec strategy task : "" ∉ order ->
  match ScheduleTask strategy task with
  | Ok name => 0 < available name /\
      (name = getPoolNameForTaskType (Type_ task) \/ match strategy with
        | LoadBalanced => forall other, available other <= available name
        | _ => available (getPoolNameForTaskType (Type_ task)) <= 0
        end)
  | Err e => e = NoAvailableWorkers (ID task) /\ forall name, available name <= 0
  end.
Proof.
  intros Hne. assert (forall name, 0 < available name -> name <> "") as Hn by (intros ? ?%available_order ->; done).
  set (pref := getPoolNameForTaskType (Type_ task)).
  assert (match priorityFirst task with
    | Ok name => 0 < available name /\ (name = pref \/ available pref <= 0)
    | Err e => e = NoAvailableWorkers (ID task) /\ forall name, available name <= 0 end) as Hp.
  { unfold priorityFirst. fold pref. destruct (Z.ltb_spec 0 (available pref)) as [? | ?]; [by split; [| left] |].
    pose proof firstAvailable_spec. destruct firstAvailable; [split; [done | by right] | done]. }
  destruct strategy; cbn; [exact Hp | | rewrite strategies_agree; exact Hp]. clear Hp. unfold loadBalanced. fold pref.
  set (b := if 0 <? available pref then (available pref, pref) else (0, "")).
  assert (b.1 = available b.2 \/ b = (0, "")) as Hb by (unfold b; destruct (0 <? available pref); auto).
  assert (0 <= b.1) as Hb0 by (unfold b; destruct (Z.ltb_spec 0 (available pref)); cbn; lia).
  destruct (better_spec order b Hb) as (H1 & H2 & H3 & H4). set (r := foldl better b order) in *.
  assert (forall name, available name <= r.1) as Hmax.
  { intros name. destruct (Z.lt_ge_cases 0 (available name)) as [Hlt | ?]; [by apply H3, available_order | lia]. }
  destruct (String.eqb_spec r.2 "") as [Er | Er].
  - split; [done |]. intros name. destruct H1 as [H1 | H1]; [| by rewrite H1 in Hmax].
    destruct (Z.lt_ge_cases 0 (available r.2)) as [Hlt | ?]; [by apply Hn in Hlt | specialize (Hmax name); lia].
  - destruct H1 as [H1 | H1]; [| by rewrite H1 in Er]. assert (0 < available r.2) as Hpos.
    { destruct H4 as [E | ?]; [| lia]. rewrite E in *. unfold b in *. destruct (Z.ltb_spec 0 (available pref)); done. }
    split; [done |]. right. intros other. rewrite <- H1. apply Hmax.
Qed.
End strategies.

(** ** Load balancers *)

Inductive BalancerError := NoPoolsAvailable | NoStrategyConfigured.

(** [PoolMetrics], as far as the balancers read it, and [time.Duration.Seconds]. *)
Definition Seconds (d : Duration) : float64 :=
  f64_add (f64_of_int (Z.quot d Second)) (f64_div (f64_of_int (Z.rem d Second)) (f64_of_int 1000000000)).

(** The state of the three balancers; the first two ignore metrics. *)
Record LoadBalancer := mkLoadBalancer {
  current : string;
  counter : Z;
  poolWeights : gmap string float64
}.

Definition NewLoadBalancer : LoadBalancer := mkLoadBalancer "round_robin" 0 ∅.

Definition UpdatePoolMetrics (poolName : string) (AverageLatency : Duration) (lb : LoadBalancer) : LoadBalancer :=
  mkLoadBalancer (current lb) (counter lb)
    (<[poolName := if 0 <? AverageLatency then f64_div f64_one (Seconds AverageLatency) else f64_one]> (poolWeights lb)).

Definition roundRobin (order : list string) (lb : LoadBalancer) : LoadBalancer * result BalancerError string :=
  match order with
  | [] => (lb, Err NoPoolsAvailable)
  | _ => (mkLoadBalancer (current lb) (counter lb + 1) (poolWeights lb),
          match order !! Z.to_nat (counter lb mod Z.of_nat (length order)) with
          | Some name => Ok name
          | None => Err NoPoolsAvailable
          end)
  end.

Definition fewer (pools : gmap string WorkerPool) (best : Z * string) (name : string) : Z * string :=
  match pools !! name with
  | Some pool => if (best.1 =? -1) || (activeWorkers pool <? best.1) then (activeWorkers pool, name) else best
  | None => best
  end.

Definition leastConnections (pools : gmap string WorkerPool) (order : list string) : result BalancerError string :=
  match order with [] => Err NoPoolsAvailable | _ => Ok (foldl (fewer pools) (-1, "") order).2 end.

Definition heavier (lb : LoadBalancer) (best : float64 * string) (name : string) : float64 * string :=
  let weight := default f64_one (poolWeights lb !! name) in
  if f64_eqb best.1 (f64_of_int (-1)) || f64_gtb weight best.1 then (weight, name) else best.

Definition weightedResponseTime (order : list string) (lb : LoadBalancer) : result BalancerError string :=
  match order with
  | [] => Err NoPoolsAvailable
  | first :: _ =>
      let best := foldl (heavier lb) (f64_of_int (-1), "") order in
      Ok (if String.eqb best.2 "" then first else best.2)
  end.

Definition SelectPool (pools : gmap string WorkerPool) (order : list string) (lb : LoadBalancer) :
    LoadBalancer * result BalancerError string :=
  if String.eqb (current lb) "round_robin" then roundRobin order lb
  else if String.eqb (current lb) "least_connections" then (lb, leastConnections pools order)
  else if String.eqb (current lb) "weighted_response_time" then (lb, weightedResponseTime order lb)
  else (lb, Err NoStrategyConfigured).

Lemma fewer_spec pools l best : (forall name pool, pools !! name = Some pool -> 0 <= activeWorkers pool) ->
  (forall name, name ∈ l -> is_Some (pools !! name)) ->
  best.1 = -1 \/ (exists pool, pools !! best.2 = Some pool /\ activeWorkers pool = best.1) ->
  let r := foldl (fewer pools) best l in
  (l = [] /\ r = best \/ exists pool, pools !! r.2 = Some pool /\ activeWorkers pool = r.1) /\
  (best.1 <> -1 -> r.1 <= best.1) /\
  (forall name pool, name ∈ l -> pools !! name = Some pool -> r.1 <= activeWorkers pool).
Proof.
  intros Hpos. revert best. induction l as [| name l IH]; intros best Hin Hb; cbn.
  - split; [by left |]. split; [lia |]. by intros ? ? ?%not_elem_of_nil.
  - destruct (Hin name) as [pool Hp]; [by left |]. pose proof (Hpos name pool Hp) as H0.
    assert (exists p, pools !! (fewer pools best name).2 = Some p /\ activeWorkers p = (fewer pools best name).1) as Hb'.
    { unfold fewer. rewrite Hp. destruct (Z.eqb_spec best.1 (-1)) as [E | E]; cbn; [by exists pool |].
      destruct Hb as [? | Hb]; [done |]. destruct (_ <? _); [by exists pool | done]. }
    assert ((fewer pools best name).1 <= activeWorkers pool /\ (best.1 <> -1 -> (fewer pools best name).1 <= best.1)) as [Hle1 Hle2].
    { unfold fewer. rewrite Hp. destruct (Z.eqb_spec best.1 (-1)) as [E | E]; cbn; [lia |].
      destruct (Z.ltb_spec (activeWorkers pool) best.1); cbn; lia. }
    destruct (IH (fewer pools best name)) as (H1 & H2 & H3); [intros n Hn; apply Hin; by right | by right |].
    destruct Hb' as (p & Hp' & Ea). pose proof (Hpos _ _ Hp') as Hpp.
    split; [right; destruct H1 as [[-> ->] | H1]; [by exists p | done] |]. split; [lia |].
    intros n q [-> | Hn]%elem_of_cons Hq; [assert (q = pool) as -> by congruence; lia | by eapply H3].
Qed.

(** The balancer by connections finds a pool with the fewest active workers. *)
Lemma leastConnections_spec pools order : order ≡ₚ elements (dom pools) -> pools <> ∅ ->
  (forall name pool, pools !! name = Some pool -> 0 <= activeWorkers pool) ->
  exists name pool, leastConnections pools order = Ok name /\ pools !! name = Some pool /\
    forall other pool', pools !! other = Some pool' -> activeWorkers pool <= activeWorkers pool'.
Proof.
  intros Ho Hne Hpos.
  assert (forall name, name ∈ order <-> is_Some (pools !! name)) as Hin by (intros; by rewrite Ho, elem_of_elements, elem_of_dom).
  destruct (fewer_spec pools order (-1, "") Hpos) as (H1 & _ & H3); [intros; by apply Hin | by left |].
  unfold leastConnections. destruct order as [| n l].
  - destruct Hne. apply map_eq. intros k. rewrite lookup_empty. destruct (pools !! k) eqn:E; [| done].
    exfalso. apply (not_elem_of_nil k), Hin. by rewrite E.
  - destruct H1 as [[? _] | (pool & Hp & Ea)]; [done |]. exists (foldl (fewer pools) (-1, "") (n :: l)).2, pool.
    split; [done |]. split; [done |]. intros o q Hq. rewrite Ea. apply (H3 o q); [apply Hin; by rewrite Hq | done].
Qed.

(** Round robin follows an order that changes from call to call: two calls in a
    row may choose the same pool. *)
Example roundRobin_repeats :
  let r := roundRobin ["llm"; "rag"] NewLoadBalancer in
  r.2 = Ok "llm" /\ (roundRobin ["rag"; "llm"] r.1).2 = Ok "llm".
Proof. by vm_compute. Qed.

(** ** The scheduler *)

(** Tasks are pointers into the store of [ParallelEngine.Engine]. *)
Record TaskScheduler := mkTaskScheduler {
  store : list Task;
  schedulingQueue : list nat;
  dependencyGraph : DependencyGraph.graph;
  readyTasks : list nat;
  currentStrategy : Strategy;
  pools : gmap string WorkerPool
}.

(** The capacity of both queues. *)
Definition queueCapacity : nat := 1000.

Definition poolNames : list string := ["intent"; "llm"; "rag"; "resource"; "manifest"; "gitops"; "deployment"].

Definition with_readyTasks (l : list nat) (ts : TaskScheduler) : TaskScheduler :=
  mkTaskScheduler (store ts) (schedulingQueue ts) (dependencyGraph ts) l (currentStrategy ts) (pools ts).

Definition processDependencies (now : Time) (t : nat) (ts : TaskScheduler) : TaskScheduler :=
  match store ts !! t with
  | Some task =>
      if DependencyGraph.AreDependenciesSatisfied (ID task) (dependencyGraph ts) then
        let ts := mkTaskScheduler (alter (set_ScheduledAt (Some now)) t (store ts)) (schedulingQueue ts) (dependencyGraph ts)
                    (readyTasks ts) (currentStrategy ts) (pools ts) in
        if (length (readyTasks ts) <? queueCapacity)%nat then with_readyTasks (readyTasks ts ++ [t]) ts else ts
      else ts
  | None => ts
  end.

(** One round of [dependencyResolver]. *)
Definition dependencyResolver (now : Time) (ts : TaskScheduler) : TaskScheduler :=
  match schedulingQueue ts with
  | t :: q =>
      processDependencies now t
        (mkTaskScheduler (store ts) q (dependencyGraph ts) (readyTasks ts) (currentStrategy ts) (pools ts))
  | [] => ts
  end.

Definition checkForReadyTasks (ts : TaskScheduler) : TaskScheduler := ts.

Definition getAvailableWorkers (ts : TaskScheduler) : gmap string Z :=
  (λ pool, Z.of_nat (taskQueue_cap pool) - Z.of_nat (length (taskQueue pool))) <$> pools ts.

Inductive SubmitError := UnknownPool (name : string) | PoolFailed (e : PoolError).

Definition submitToPool (poolName : string) (t : nat) (ts : TaskScheduler) : TaskScheduler * result SubmitError unit :=
  match (if decide (poolName ∈ poolNames) then pools ts !! poolName else None) with
  | Some pool =>
      let '(pool, r) := SubmitTask t pool in
      (mkTaskScheduler (store ts) (schedulingQueue ts) (dependencyGraph ts) (readyTasks ts) (currentStrategy ts)
         (<[poolName := pool]> (pools ts)),
       match r with Ok _ => Ok tt | Err e => Err (PoolFailed e) end)
  | None => (ts, Err (UnknownPool poolName))
  end.

(** Errors are only logged: the task is gone. *)
Definition scheduleTask (order : list string) (t : nat) (ts : TaskScheduler) : TaskScheduler * option string :=
  match store ts !! t with
  | Some task =>
      match ScheduleTask (getAvailableWorkers ts) order (currentStrategy ts) task with
      | Ok poolName =>
          match submitToPool poolName t ts with
          | (ts', Ok _) => (ts', Some poolName)
          | (ts', Err _) => (ts', None)
          end
      | Err _ => (ts, None)
      end
  | None => (ts, None)
  end.

(** The seven pools are there and running. *)
Definition complete (ts : TaskScheduler) : Prop :=
  dom (pools ts) = list_to_set poolNames /\ forall name pool, pools ts !! name = Some pool -> stopped pool = false.

Definition hasRoom (pool : WorkerPool) : Prop := (length (taskQueue pool) < taskQueue_cap pool)%nat.

Lemma complete_order ts order : complete ts -> order ≡ₚ elements (dom (getAvailableWorkers ts)) -> "" ∉ order.
Proof.
  intros [Hd _] Ho Hin. rewrite Ho, elem_of_elements in Hin. unfold getAvailableWorkers in Hin.
  rewrite dom_fmap, Hd, elem_of_list_to_set in Hin. by apply (bool_decide_eq_true_2 (_ ∈ _)) in Hin.
Qed.

Lemma available_room ts name : 0 < available (getAvailableWorkers ts) name <->
  exists pool, pools ts !! name = Some pool /\ hasRoom pool.
Proof.
  unfold available, getAvailableWorkers, hasRoom. rewrite lookup_fmap. destruct (pools ts !! name) as [pool |]; cbn.
  - split; [intros; exists pool; split; [done | lia] | intros (? & [= <-] & ?); lia].
  - split; [lia | by intros (? & ? & _)].
Qed.

(** A ready task goes to one pool: by every strategy, and in whatever order
    the pools are gone through, a task is put at the end of the queue of a pool
    that has room - of the pool of its type, or, by the load-balanced strategy, of
    one with the most room, or else of any - and nothing else changes; only when
    no pool has room is the task dropped, and then nothing changes. *)
Theorem task_goes_to_one_pool order t task ts : complete ts -> store ts !! t = Some task ->
  order ≡ₚ elements (dom (getAvailableWorkers ts)) ->
  match scheduleTask order t ts with
  | (ts', Some name) => exists pool, pools ts !! name = Some pool /\ hasRoom pool /\
      pools ts' = <[name := set_taskQueue (taskQueue pool ++ [t]) pool]> (pools ts) /\
      store ts' = store ts /\ dependencyGraph ts' = dependencyGraph ts /\ readyTasks ts' = readyTasks ts /\
      (name = getPoolNameForTaskType (Type_ task) \/ match currentStrategy ts with
        | LoadBalanced => forall other pool', pools ts !! other = Some pool' ->
            Z.of_nat (taskQueue_cap pool') - Z.of_nat (length (taskQueue pool')) <=
            Z.of_nat (taskQueue_cap pool) - Z.of_nat (length (taskQueue pool))
        | _ => forall pool', pools ts !! getPoolNameForTaskType (Type_ task) = Some pool' -> ~ hasRoom pool'
        end)
  | (ts', None) => ts' = ts /\ forall name pool, pools ts !! name = Some pool -> ~ hasRoom pool
  end.
Proof.
  intros Hc Ht Ho. pose proof (complete_order ts order Hc Ho) as Hne.
  pose proof (ScheduleTask_spec (getAvailableWorkers ts) order Ho (currentStrategy ts) task Hne) as Hs.
  destruct Hc as [Hd Hrun]. unfold scheduleTask. rewrite Ht.
  destruct (ScheduleTask _ _ _ _) as [name | e].
  - destruct Hs as [(pool & Hp & Hroom)%available_room Hwhich]. unfold submitToPool.
    assert (name ∈ poolNames) as Hname by (apply (elem_of_list_to_set (C := gset string)); rewrite <- Hd; by apply elem_of_dom_2 in Hp).
    rewrite decide_True by done. rewrite Hp. unfold SubmitTask. rewrite (Hrun _ _ Hp). unfold hasRoom in Hroom.
    destruct (Nat.ltb_spec (length (taskQueue pool)) (taskQueue_cap pool)); [| lia]. cbn.
    exists pool. split; [done |]. do 5 (split; [done |]). destruct Hwhich as [? | Hw]; [by left | right].
    destruct (currentStrategy ts).
    + intros pool' Hp' Hr. apply Z.le_ngt in Hw. apply Hw, available_room. by exists pool'.
    + intros o q Hq. specialize (Hw o). unfold available, getAvailableWorkers in Hw. by rewrite !lookup_fmap, Hp, Hq in Hw.
    + intros pool' Hp' Hr. apply Z.le_ngt in Hw. apply Hw, available_room. by exists pool'.
  - split; [done |]. intros name pool Hp Hr. destruct Hs as [_ Hs]. specialize (Hs name). apply Z.le_ngt in Hs.
    apply Hs, available_room. by exists pool.
Qed.

(** A task is looked at once: when a dependency is missing then, the task is in no
    queue afterwards, and nothing brings it back. *)
Lemma early_task_is_lost now t q task ts : schedulingQueue ts = t :: q -> store ts !! t = Some task ->
  DependencyGraph.AreDependenciesSatisfied (ID task) (dependencyGraph ts) = false ->
  checkForReadyTasks (dependencyResolver now ts) =
    mkTaskScheduler (store ts) q (dependencyGraph ts) (readyTasks ts) (currentStrategy ts) (pools ts).
Proof. intros Hq Ht Hd. unfold checkForReadyTasks, dependencyResolver, processDependencies. rewrite Hq. cbn. by rewrite Ht, Hd. Qed.

(** Seven pools of one worker; the LLM pool is full. *)
Definition busyPools : gmap string WorkerPool :=
  <["llm" := set_taskQueue [5; 6]%nat (NewWorkerPool "llm" 1)]>
    (list_to_map ((λ n, (n, NewWorkerPool n 1)) <$> poolNames)).

Definition busyScheduler (strategy : Strategy) : TaskScheduler := mkTaskScheduler [llmTask] [] ∅ [] strategy busyPools.

Lemma busyScheduler_complete strategy : complete (busyScheduler strategy).
Proof.
  split; [by apply (bool_decide_eq_true_1 (_ = _)); vm_compute |]. intros name pool Hp.
  assert (map_Forall (λ _ pool, stopped pool = false) busyPools) as Hall by (by apply (bool_decide_eq_true_1 (map_Forall _ _))).
  by apply (Hall name).
Qed.

(** A task for language models goes to a pool for another stage. *)
Lemma task_goes_to_one_pool_witness :
  let order := elements (dom (getAvailableWorkers (busyScheduler PriorityFirst))) in
  exists name pool, (scheduleTask order 0 (busyScheduler PriorityFirst)).2 = Some name /\
    busyPools !! name = Some pool /\ hasRoom pool /\ name <> "llm".
Proof.
  intros order. pose proof (task_goes_to_one_pool order 0 llmTask (busyScheduler PriorityFirst)
    (busyScheduler_complete _) eq_refl (reflexivity order)) as H.
  destruct (scheduleTask order 0 (busyScheduler PriorityFirst)) as [ts' [name |]].
  - destruct H as (pool & Hp & Hr & _). exists name, pool. split; [reflexivity |]. split; [exact Hp |]. split; [exact Hr |].
    intros ->. injection Hp as <-. revert Hr. unfold hasRoom. vm_compute. lia.
  - exfalso. destruct H as [_ H]. apply (H "intent" (NewWorkerPool "intent" 1)); [reflexivity |]. unfold hasRoom. vm_compute. lia.
Defined.
