(* ===== verification/ParallelProcessor.v ===== *)
(** * ParallelProcessor: controllers/parallel/processor.go and types.go

    The processor that runs controller tasks on a fixed number of workers, its
    metrics and its shutdown, the batch processor, and the helpers that retry
    tasks and run them in batches.  Tasks are pointers; what a task's [Execute]
    answers is an argument. *)

From S2P Require Import Prelude WorkerPools.

Local Open Scope Z_scope.

(** ** Metrics *)

Record ProcessorMetrics := mkMetrics {
  TotalTasks : Z;
  CompletedTasks : Z;
  FailedTasks : Z;
  AverageTime : Duration;
  MaxTime : Duration;
  MinTime : Duration
}.

Definition maxDuration : Duration := 2 ^ 63 - 1.

Definition NewProcessorMetrics : ProcessorMetrics := mkMetrics 0 0 0 0 0 maxDuration.

Definition countTotal (m : ProcessorMetrics) : ProcessorMetrics :=
  mkMetrics (TotalTasks m + 1) (CompletedTasks m) (FailedTasks m) (AverageTime m) (MaxTime m) (MinTime m).

(** The update at the end of [processTask], in 64-bit arithmetic. *)
Definition recordTime (success : bool) (duration : Duration) (m : ProcessorMetrics) : ProcessorMetrics :=
  let completed := CompletedTasks m + 1 in
  let failed := FailedTasks m + (if success then 0 else 1) in
  let max := if MaxTime m <? duration then duration else MaxTime m in
  let min := if duration <? MinTime m then duration else MinTime m in
  let average :=
    if 0 <? completed
    then Z.quot (wrap64 (wrap64 (AverageTime m * (completed - 1)) + duration)) completed
    else AverageTime m in
  mkMetrics (TotalTasks m) completed failed average max min.

Definition recordTimes (rs : list (bool * Duration)) : ProcessorMetrics :=
  foldl (λ m r, recordTime r.1 r.2 m) NewProcessorMetrics rs.

Definition sumTimes (rs : list (bool * Duration)) : Z := foldr (λ r n, r.2 + n) 0 rs.

Lemma sumTimes_app rs ks : sumTimes (rs ++ ks) = sumTimes rs + sumTimes ks.
Proof. unfold sumTimes. induction rs as [| r rs IH]; cbn in *; lia. Qed.

Lemma sumTimes_nonneg rs : Forall (λ r, 0 <= r.2) rs -> 0 <= sumTimes rs.
Proof. unfold sumTimes. induction 1; cbn in *; lia. Qed.

Definition longest (rs : list (bool * Duration)) : Duration := foldr (λ r m, Z.max r.2 m) 0 rs.
Definition shortest (rs : list (bool * Duration)) : Duration := foldr (λ r m, Z.min r.2 m) maxDuration rs.

Lemma longest_snoc rs r : longest (rs ++ [r]) = Z.max (longest rs) (Z.max r.2 0).
Proof. unfold longest. induction rs as [| s rs IH]; cbn in *; lia. Qed.

Lemma shortest_snoc rs r : shortest (rs ++ [r]) = Z.min (shortest rs) (Z.min r.2 maxDuration).
Proof. unfold shortest. induction rs as [| s rs IH]; cbn in *; lia. Qed.

Lemma longest_nonneg rs : 0 <= longest rs.
Proof. unfold longest. induction rs; cbn; lia. Qed.

Lemma shortest_le rs : shortest rs <= maxDuration.
Proof. unfold shortest. induction rs; cbn; lia. Qed.

(** What the metrics are after the results [rs]. *)
Record Timed (rs : list (bool * Duration)) (m : ProcessorMetrics) : Prop := {
  timed_completed : CompletedTasks m = Z.of_nat (length rs);
  timed_failed : FailedTasks m = countb (λ r, negb r.1) rs;
  timed_max : MaxTime m = longest rs;
  timed_min : MinTime m = shortest rs;
  timed_nonneg : 0 <= AverageTime m;
  timed_sum : AverageTime m * Z.of_nat (length rs) <= sumTimes rs;
  timed_avg : rs <> [] -> MinTime m <= AverageTime m <= MaxTime m
}.

Lemma average_between avg n d lo hi : 0 <= n -> 0 <= d -> 0 <= avg -> (0 < n -> lo <= avg <= hi) ->
  Z.min lo d <= (avg * n + d) / (n + 1) <= Z.max hi d.
Proof.
  intros Hn Hd Ha Hb. pose proof (Z.le_min_l lo d). pose proof (Z.le_min_r lo d). pose proof (Z.le_max_l hi d).
  pose proof (Z.le_max_r hi d). generalize dependent (Z.min lo d). generalize dependent (Z.max hi d). intros x ? ? y ? ?.
  destruct (Z.eq_dec n 0) as [-> | Hne]; [rewrite Z.mul_0_r, Z.add_0_l, Z.add_0_l, Z.div_1_r; lia |].
  specialize (Hb ltac:(lia)). split; [apply Z.div_le_lower_bound | apply Z.div_le_upper_bound]; nia.
Qed.

Lemma Timed_snoc rs m success d : Timed rs m -> Forall (λ r, 0 <= r.2) (rs ++ [(success, d)]) ->
  sumTimes (rs ++ [(success, d)]) < 2 ^ 63 -> Timed (rs ++ [(success, d)]) (recordTime success d m).
Proof.
  intros [Hc Hf Hmax Hmin Hn Hs Ha] Hpos Hsum. rewrite Forall_app in Hpos. destruct Hpos as [Hpos Hd].
  apply Forall_cons in Hd as [Hd _]. cbn in Hd. rewrite sumTimes_app in Hsum. cbn in Hsum.
  pose proof (sumTimes_nonneg rs Hpos) as Hsn. set (n := Z.of_nat (length rs)) in *. assert (0 <= n) by lia.
  assert (AverageTime (recordTime success d m) = (AverageTime m * n + d) / (n + 1)) as Eavg.
  { unfold recordTime. rewrite Hc. cbn [AverageTime]. fold n. replace (n + 1 - 1) with n by lia.
    destruct (Z.ltb_spec 0 (n + 1)); [| lia]. rewrite (wrap64_small (AverageTime m * n)) by nia.
    rewrite wrap64_small by nia. apply Z.quot_div_nonneg; nia. }
  assert (MaxTime (recordTime success d m) = Z.max (MaxTime m) d) as Emax
    by (cbn; destruct (Z.ltb_spec (MaxTime m) d); lia).
  assert (MinTime (recordTime success d m) = Z.min (MinTime m) d) as Emin
    by (cbn; destruct (Z.ltb_spec d (MinTime m)); lia).
  assert (0 < n -> MinTime m <= AverageTime m <= MaxTime m) as Hb by (intros Hn0; apply Ha; intros ->; cbn in n; lia).
  pose proof (average_between (AverageTime m) n d (MinTime m) (MaxTime m)) as Hbet.
  split; rewrite ?Emax, ?Emin, ?Eavg.
  - cbn. rewrite Hc, length_app. cbn. lia.
  - cbn. rewrite Hf, countb_app. cbn. destruct success; cbn; lia.
  - rewrite Hmax, longest_snoc. cbn. pose proof (longest_nonneg rs). lia.
  - rewrite Hmin, shortest_snoc. cbn. pose proof (shortest_le rs). lia.
  - apply Z.div_le_lower_bound; nia.
  - rewrite length_app, sumTimes_app. cbn. pose proof (Z.mul_div_le (AverageTime m * n + d) (n + 1)).
    replace (Z.of_nat (length rs + 1)) with (n + 1) by lia. nia.
  - intros _. lia.
Qed.

(** The times of a processor are exact and its average is sound: after any
    results whose durations add up to less than 2^63 nanoseconds (292 years), the
    counters are the numbers of results and of failures, the extreme times are
    those of the results, and the average, computed with wrap-around from the
    last one, lies between them and never exceeds the true one. *)
Theorem times_are_bounded rs : Forall (λ r, 0 <= r.2) rs -> sumTimes rs < 2 ^ 63 ->
  let m := recordTimes rs in
  CompletedTasks m = Z.of_nat (length rs) /\ FailedTasks m = countb (λ r, negb r.1) rs /\
  MaxTime m = longest rs /\ MinTime m = shortest rs /\
  (rs <> [] -> MinTime m <= AverageTime m <= MaxTime m) /\
  0 <= AverageTime m * Z.of_nat (length rs) <= sumTimes rs.
Proof.
  intros Hpos Hsum. assert (Timed rs (recordTimes rs)) as [? ? ? ? ? ? ?].
  { induction rs as [| [b d] rs IH] using rev_ind; [by split |].
    unfold recordTimes. rewrite foldl_app. apply Timed_snoc; [| done | done]. rewrite sumTimes_app in Hsum. rewrite Forall_app in Hpos.
    destruct Hpos as [Hpos Hd]. apply Forall_cons in Hd as [Hd _]. apply IH; [done |]. cbn in Hsum, Hd. lia. }
  cbn zeta. do 5 (split; [done |]). nia.
Qed.

Lemma times_are_bounded_witness :
  let rs := [(true, 5); (false, 2); (true, 9)] in
  Forall (λ r, 0 <= r.2) rs /\ MinTime (recordTimes rs) <= AverageTime (recordTimes rs) <= MaxTime (recordTimes rs).
Proof.
  intros rs. assert (Forall (λ r, 0 <= r.2) rs) as Hf by (by repeat constructor). split; [exact Hf |].
  destruct (times_are_bounded rs Hf) as (_ & _ & _ & _ & H & _); [by vm_compute |]. by apply H.
Defined.

(** ** The processor *)

Record ProcessorConfig := mkProcessorConfig {
  MaxConcurrency : nat;
  DefaultTimeout_ : Duration;
  QueueSize : nat
}.

Definition DefaultMaxConcurrency : nat := 10.
Definition DefaultTimeout : Duration := 30 * Second.
Definition DefaultQueueSize : nat := 1000.

Definition NewDefaultConfig : ProcessorConfig := mkProcessorConfig DefaultMaxConcurrency DefaultTimeout DefaultQueueSize.

Record ControllerTaskResult := mkResult {
  TaskID : nat;
  Success : bool;
  Duration_ : Duration
}.

(** Where a worker is in [processTask]: it has received its task, has added to the
    wait group, holds a slot, has recorded the result, has offered the result,
    has given its slot back; or it has returned from its loop. *)
Inductive WorkerState :=
| Idle
| Received (t : nat)
| Waiting (t : nat)
| Executing (t : nat)
| Executed (r : ControllerTaskResult)
| Releasing
| Finishing
| Exited.

(** How far [Shutdown] has come. *)
Inductive Phase := Running | Closing | Cancelled | Closed.

(** [workerPool] is the number of tokens in the channel.  The last fields record
    what was accepted, taken by callers, and thrown away; [crashed] tells whether
    something was sent on the closed channel of results. *)
Record Processor := mkProcessor {
  maxConcurrency : nat;
  queueSize : nat;
  workerPool : nat;
  taskQueue : list nat;
  results : list ControllerTaskResult;
  wg : nat;
  phase : Phase;
  workers : list WorkerState;
  metrics : ProcessorMetrics;
  uncounted : nat;
  accepted : list nat;
  taken : list ControllerTaskResult;
  discarded : list ControllerTaskResult;
  crashed : bool
}.

Definition eta_processor (p : Processor) : Processor :=
  mkProcessor (maxConcurrency p) (queueSize p) (workerPool p) (taskQueue p) (results p) (wg p) (phase p) (workers p)
    (metrics p) (uncounted p) (accepted p) (taken p) (discarded p) (crashed p).

Definition set_workerPool : nat -> Processor -> Processor := ltac:(record_setter eta_processor workerPool).
Definition set_taskQueue : list nat -> Processor -> Processor := ltac:(record_setter eta_processor taskQueue).
Definition set_results : list ControllerTaskResult -> Processor -> Processor := ltac:(record_setter eta_processor results).
Definition set_wg : nat -> Processor -> Processor := ltac:(record_setter eta_processor wg).
Definition set_phase : Phase -> Processor -> Processor := ltac:(record_setter eta_processor phase).
Definition set_workers : list WorkerState -> Processor -> Processor := ltac:(record_setter eta_processor workers).
Definition set_metrics : ProcessorMetrics -> Processor -> Processor := ltac:(record_setter eta_processor metrics).
Definition set_uncounted : nat -> Processor -> Processor := ltac:(record_setter eta_processor uncounted).
Definition set_accepted : list nat -> Processor -> Processor := ltac:(record_setter eta_processor accepted).
Definition set_taken : list ControllerTaskResult -> Processor -> Processor := ltac:(record_setter eta_processor taken).
Definition set_discarded : list ControllerTaskResult -> Processor -> Processor := ltac:(record_setter eta_processor discarded).
Definition set_crashed : bool -> Processor -> Processor := ltac:(record_setter eta_processor crashed).

Definition NewParallelProcessor (config : option ProcessorConfig) : Processor :=
  let c := default NewDefaultConfig config in
  mkProcessor (MaxConcurrency c) (QueueSize c) (MaxConcurrency c) [] [] 0 Running
    (replicate (MaxConcurrency c) Idle) NewProcessorMetrics 0 [] [] [] false.

Definition put (i : nat) (w : WorkerState) (p : Processor) : Processor := set_workers (<[i := w]> (workers p)) p.

(** One move of one goroutine. *)
Inductive step : Processor -> Processor -> Prop :=
(* SubmitTask *)
| submit p t : phase p = Running -> (length (taskQueue p) < queueSize p)%nat ->
    step p (set_taskQueue (taskQueue p ++ [t]) (set_accepted (accepted p ++ [t]) (set_uncounted (S (uncounted p)) p)))
| submit_count p n : uncounted p = S n -> step p (set_metrics (countTotal (metrics p)) (set_uncounted n p))
(* worker *)
| receive p i t q : workers p !! i = Some Idle -> taskQueue p = t :: q ->
    step p (put i (Received t) (set_taskQueue q p))
| exit p i : workers p !! i = Some Idle ->
    phase p = Cancelled \/ phase p = Closed \/ (phase p = Closing /\ taskQueue p = []) -> step p (put i Exited p)
(* processTask *)
| add p i t : workers p !! i = Some (Received t) -> step p (put i (Waiting t) (set_wg (S (wg p)) p))
| acquire p i t n : workers p !! i = Some (Waiting t) -> workerPool p = S n ->
    step p (put i (Executing t) (set_workerPool n p))
| execute p i t success duration : workers p !! i = Some (Executing t) ->
    step p (put i (Executed (mkResult t success duration)) (set_metrics (recordTime success duration (metrics p)) p))
| send p i r : workers p !! i = Some (Executed r) -> phase p <> Closed -> (length (results p) < queueSize p)%nat ->
    step p (put i Releasing (set_results (results p ++ [r]) p))
| send_full p i r : workers p !! i = Some (Executed r) -> phase p <> Closed -> (queueSize p <= length (results p))%nat ->
    step p (put i Releasing (set_discarded (discarded p ++ [r]) p))
| send_cancelled p i r : workers p !! i = Some (Executed r) -> phase p = Cancelled \/ phase p = Closed ->
    step p (put i Releasing (set_discarded (discarded p ++ [r]) p))
| send_closed p i r : workers p !! i = Some (Executed r) -> phase p = Closed ->
    step p (put i Releasing (set_discarded (discarded p ++ [r]) (set_crashed true p)))
| release p i : workers p !! i = Some Releasing -> step p (put i Finishing (set_workerPool (S (workerPool p)) p))
| finish p i n : workers p !! i = Some Finishing -> wg p = S n -> step p (put i Idle (set_wg n p))
(* GetResult and WaitForResult *)
| take_result p r rs : results p = r :: rs -> step p (set_results rs (set_taken (taken p ++ [r]) p))
(* Shutdown *)
| shutdown_close p : phase p = Running -> step p (set_phase Closing p)
| shutdown_cancel p : phase p = Closing -> wg p = 0%nat -> step p (set_phase Cancelled p)
| shutdown_end p : phase p = Cancelled -> step p (set_phase Closed p).

(** *** Invariants *)

Definition inWorker (w : WorkerState) : list nat :=
  match w with
  | Received t | Waiting t | Executing t => [t]
  | Executed r => [TaskID r]
  | _ => []
  end.

(** Workers that hold a slot, and workers that count in the wait group. *)
Definition holdsSlot (w : WorkerState) : bool :=
  match w with Executing _ | Executed _ | Releasing => true | _ => false end.
Definition inGroup (w : WorkerState) : bool :=
  match w with Waiting _ | Executing _ | Executed _ | Releasing | Finishing => true | _ => false end.
Definition executing (w : WorkerState) : bool := match w with Executing _ => true | _ => false end.
Definition recording (w : WorkerState) : bool := match w with Executed _ => true | _ => false end.

Definition underway (p : Processor) : list nat :=
  taskQueue p ++ (workers p ≫= inWorker) ++ (TaskID <$> results p).

Definition Conserved (p : Processor) : Prop :=
  accepted p ≡ₚ underway p ++ (TaskID <$> taken p) ++ (TaskID <$> discarded p).

Record Counted (p : Processor) : Prop := {
  counted_workers : length (workers p) = maxConcurrency p;
  counted_slots : Z.of_nat (workerPool p) + countb holdsSlot (workers p) = Z.of_nat (maxConcurrency p);
  counted_group : Z.of_nat (wg p) = countb inGroup (workers p);
  counted_total : TotalTasks (metrics p) + Z.of_nat (uncounted p) = Z.of_nat (length (accepted p));
  counted_completed : CompletedTasks (metrics p) =
    countb recording (workers p) + Z.of_nat (length (results p) + length (taken p) + length (discarded p));
  counted_queue : (length (taskQueue p) <= queueSize p)%nat;
  counted_results : (length (results p) <= queueSize p)%nat
}.

(** Before the context is cancelled results are thrown away only when the channel
    of results is full. *)
Definition Kept (p : Processor) : Prop :=
  phase p = Running \/ phase p = Closing -> (length (accepted p) <= queueSize p)%nat -> discarded p = [].

Ltac fields := cbn [accepted taskQueue workers results taken discarded maxConcurrency workerPool wg metrics uncounted
  queueSize phase set_workerPool set_taskQueue set_results set_wg set_phase set_workers set_metrics set_uncounted set_accepted
  set_taken set_discarded set_crashed] in *.

Ltac step_cases Hs :=
  destruct Hs as [p t Hph Hcap | p n Hn | p i t q Hw Ht' | p i Hw Hph | p i t Hw | p i t n Hw Hn | p i t b d Hw
    | p i r Hw Hph Hcap | p i r Hw Hph Hcap | p i r Hw Hph | p i r Hw Hph | p i Hw | p i n Hw Hn | p r rs Hrs | p Hph | p Hph Hwg | p Hph].

Lemma worker_moves p i w w' : workers p !! i = Some w ->
  exists rest, (workers p ≫= inWorker) ≡ₚ inWorker w ++ rest /\ (<[i := w']> (workers p) ≫= inWorker) ≡ₚ inWorker w' ++ rest.
Proof. apply bind_insert. Qed.

(** The tasks of the workers before and after the change of worker [i]. *)
Ltac moves Hw :=
  match type of Hw with workers ?p !! ?i = Some ?w =>
    match goal with |- context [<[i := ?w']> _] =>
      let rest := fresh "rest" in let E1 := fresh "E" in let E2 := fresh "E" in
      destruct (worker_moves p i w w' Hw) as (rest & E1 & E2); rewrite E1, E2; cbn [inWorker TaskID]
    end
  end.

Lemma accounted_step p p' : step p p' -> Conserved p -> Conserved p'.
Proof.
  intros Hs HC. unfold Conserved, underway in *. step_cases Hs; unfold put; fields; rewrite ?HC;
    try moves Hw; rewrite ?Ht', ?Hrs, ?fmap_app; cbn [fmap list_fmap TaskID app]; solve_Permutation.
Qed.

Lemma accounted_length p : Conserved p ->
  (length (accepted p) = length (taskQueue p) + length (workers p ≫= inWorker) + length (results p) +
    length (taken p) + length (discarded p))%nat.
Proof. intros E. unfold Conserved, underway in E. rewrite E, !length_app, !length_fmap. lia. Qed.

Lemma worker_counts p i w w' : workers p !! i = Some w ->
  countb holdsSlot (<[i := w']> (workers p)) = countb holdsSlot (workers p) - Z.b2z (holdsSlot w) + Z.b2z (holdsSlot w') /\
  countb inGroup (<[i := w']> (workers p)) = countb inGroup (workers p) - Z.b2z (inGroup w) + Z.b2z (inGroup w') /\
  countb recording (<[i := w']> (workers p)) = countb recording (workers p) - Z.b2z (recording w) + Z.b2z (recording w').
Proof. intros Hw. rewrite !(countb_insert _ _ _ _ _ Hw). done. Qed.

Lemma Counted_step p p' : step p p' -> Counted p -> Counted p'.
Proof.
  intros Hs [Hwk Hsl Hg Ht Hcm Hq Hr]. step_cases Hs; unfold put;
    try match type of Hw with workers ?p !! ?i = Some ?w =>
      match goal with |- context [<[i := ?w']> _] => destruct (worker_counts p i w w' Hw) as (E1 & E2 & E3) end end;
    split; fields; rewrite ?length_insert, ?length_app, ?E1, ?E2, ?E3;
    cbn [TotalTasks CompletedTasks countTotal recordTime holdsSlot inGroup recording Z.b2z length] in *;
    rewrite ?Ht', ?Hrs in *; cbn [length] in *; lia.
Qed.

Lemma results_kept_step p p' : step p p' -> Conserved p -> Kept p -> Kept p'.
Proof.
  intros Hs HC HK. pose proof (accounted_length p HC) as HL. unfold Kept in *.
  step_cases Hs; unfold put; fields; rewrite ?length_app; try done; try (by intros [?|?]); intros Hph'.
  - intros Hl. apply HK; [done |]. cbn in Hl. lia.
  - intros Hl. destruct (worker_moves p i (Executed r) Idle Hw) as (rest & E & _). rewrite E in HL. cbn in HL. lia.
  - destruct Hph, Hph'; congruence.
  - destruct Hph'; congruence.
  - intros Hl. apply HK; [by left | done].
Qed.

Lemma countb_le {A} (f g : A -> bool) l : (forall a, f a = true -> g a = true) -> countb f l <= countb g l.
Proof.
  intros H. unfold countb. induction l as [| a l IH]; cbn; [lia |]. specialize (H a).
  destruct (f a); [rewrite H by done | destruct (g a)]; cbn; lia.
Qed.

Lemma countb_replicate_none {A} (f : A -> bool) n a : f a = false -> countb f (replicate n a) = 0.
Proof. intros E. unfold countb. induction n as [| n IH]; cbn; [done |]. rewrite E. cbn. exact IH. Qed.

(** A worker that waits for a slot, and those that hold one, are different workers. *)
Lemma slots_leave_room (l : list WorkerState) i t : l !! i = Some (Waiting t) -> countb holdsSlot l < Z.of_nat (length l).
Proof.
  intros Hi. assert (countb holdsSlot (<[i := Releasing]> l) <= Z.of_nat (length l)) as Hle.
  { rewrite <- (length_insert l i Releasing). generalize (<[i := Releasing]> l) as k. intros k. unfold countb.
    induction k as [| a k IH]; cbn -[Z.of_nat]; [lia |]. rewrite Nat2Z.inj_succ. destruct (holdsSlot a); cbn; lia. }
  rewrite (countb_insert _ _ _ _ _ Hi) in Hle. cbn in Hle. lia.
Qed.

Lemma processor_invariants c p : rtc step (NewParallelProcessor c) p -> Conserved p /\ Counted p /\ Kept p.
Proof.
  intros Hr. apply (rtc_ind_r (λ p, Conserved p /\ Counted p /\ Kept p) (NewParallelProcessor c)) in Hr; [done | |].
  - split; [| split; [| by intros ? ?]].
    + unfold Conserved, underway. cbn. assert (replicate (MaxConcurrency (default NewDefaultConfig c)) Idle ≫= inWorker = []) as ->; [| done].
      by induction (MaxConcurrency _).
    + split; cbn -[countb Z.of_nat]; rewrite ?length_replicate; rewrite ?countb_replicate_none by done; lia.
  - intros p1 p2 _ Hs (HC & HT & HK). split; [by eapply accounted_step | split; [by eapply Counted_step | by eapply results_kept_step]].
Qed.

(** Every accepted task has one place and at most one result: under any
    interleaving of callers, workers and [Shutdown], an accepted task is in the
    queue, with one worker, or has one result - waiting, taken, or discarded, and
    discarded only when the channel of results is full or the processor has been
    cancelled; no more tasks execute than workers were configured; a worker never
    has to wait for a slot; and the counters count what they should. *)
Theorem one_result_each c p : rtc step (NewParallelProcessor c) p ->
  accepted p ≡ₚ taskQueue p ++ (workers p ≫= inWorker) ++ (TaskID <$> results p ++ taken p ++ discarded p) /\
  (phase p = Running \/ phase p = Closing -> (length (accepted p) <= queueSize p)%nat -> discarded p = []) /\
  countb executing (workers p) <= Z.of_nat (maxConcurrency p) /\
  (forall i t, workers p !! i = Some (Waiting t) -> (0 < workerPool p)%nat) /\
  Z.of_nat (wg p) = countb inGroup (workers p) /\
  TotalTasks (metrics p) + Z.of_nat (uncounted p) = Z.of_nat (length (accepted p)) /\
  CompletedTasks (metrics p) =
    countb recording (workers p) + Z.of_nat (length (results p) + length (taken p) + length (discarded p)).
Proof.
  intros (HC & [Hwk Hsl Hg Ht Hcm Hq Hr] & HK)%processor_invariants. split; [| split; [done | split; [| split; [| done]]]].
  - unfold Conserved, underway in HC. rewrite HC, !fmap_app. solve_Permutation.
  - assert (countb executing (workers p) <= countb holdsSlot (workers p)) by (apply countb_le; by intros []). lia.
  - intros i t Hi%slots_leave_room. lia.
Qed.

(** One worker and one task.  The task has been received, but its worker has not
    yet added to the wait group. *)
Definition oneWorker : option ProcessorConfig := Some (mkProcessorConfig 1 Second 4).

Definition received : Processor := 
  set_accepted [7%nat] (set_uncounted 1 (put 0 (Received 7) (NewParallelProcessor oneWorker))).

Lemma received_reachable : rtc step (NewParallelProcessor oneWorker) received.
Proof.
  eapply rtc_l; [apply (submit _ 7%nat); [reflexivity | cbn; lia] |].
  eapply rtc_l; [apply (receive _ 0%nat 7%nat []); reflexivity |]. reflexivity.
Qed.

Lemma one_result_each_witness : rtc step (NewParallelProcessor oneWorker) received /\
  accepted received ≡ₚ [7%nat] /\ countb executing (workers received) <= 1.
Proof.
  split; [exact received_reachable |].
  destruct (one_result_each oneWorker received received_reachable) as (HC & _ & He & _). split; [exact HC | exact He].
Defined.

(** [WaitForAllTasks] waits for the wait group only: here it returns at once. *)
Definition waitReturns (p : Processor) : Prop := wg p = 0%nat.

Lemma wait_returns_early : rtc step (NewParallelProcessor oneWorker) received /\ waitReturns received /\
  accepted received = [7%nat] /\ results received = [].
Proof. split; [exact received_reachable | done]. Qed.

(** [Shutdown] goes on likewise, and the worker then sends on a closed channel. *)
Lemma shutdown_crashes : exists p, rtc step (NewParallelProcessor oneWorker) p /\ crashed p = true.
Proof.
  eexists. split.
  - etrans; [exact received_reachable |].
    eapply rtc_l; [by apply shutdown_close |]. eapply rtc_l; [by apply shutdown_cancel |]. eapply rtc_l; [by apply shutdown_end |].
    eapply rtc_l; [apply (add _ 0%nat 7%nat); reflexivity |]. eapply rtc_l; [apply (acquire _ 0%nat 7%nat 0%nat); reflexivity |].
    eapply rtc_l; [apply (execute _ 0%nat 7%nat true 5); reflexivity |].
    eapply rtc_l; [eapply (send_closed _ 0%nat); reflexivity |]. reflexivity.
  - reflexivity.
Qed.

(** The end of [ReconcileParallel]: no result counts as no error. *)
Definition reconciled (collected : list (option ControllerTaskResult)) : bool :=
  forallb (λ r, match r with Some r => Success r | None => true end) collected.

Lemma reconciled_without_results n : reconciled (replicate n None) = true.
Proof. unfold reconciled. by induction n. Qed.

(** ** The batch processor *)

Module BatchProcessor.

(** [flushTimer] tells whether the field is set, [ticking] whether that timer has
    yet to fire, and [pending] counts the functions of fired timers that wait for
    the lock; stopping a timer does not stop those.  [batches] are the calls of the
    processor function, each with the state of the context at that time. *)
Record BatchProcessor := mkBatchProcessor {
  batchSize : nat;
  taskBuffer : list nat;
  flushTimer : bool;
  ticking : bool;
  pending : nat;
  cancelled : bool;
  batches : list (bool * list nat)
}.

Definition NewBatchProcessor (batchSize : nat) : BatchProcessor := mkBatchProcessor batchSize [] false false 0 false [].

Definition flushBatch (bp : BatchProcessor) : BatchProcessor :=
  match taskBuffer bp with
  | [] => bp
  | tasks => mkBatchProcessor (batchSize bp) [] false false (pending bp) (cancelled bp) (batches bp ++ [(cancelled bp, tasks)])
  end.

Definition AddTask (task : nat) (bp : BatchProcessor) : BatchProcessor :=
  let buffer := taskBuffer bp ++ [task] in
  let bp := mkBatchProcessor (batchSize bp) buffer (flushTimer bp) (ticking bp) (pending bp) (cancelled bp) (batches bp) in
  if (batchSize bp <=? length buffer)%nat then flushBatch bp
  else if flushTimer bp then bp
  else mkBatchProcessor (batchSize bp) buffer true true (pending bp) (cancelled bp) (batches bp).

Definition Close (bp : BatchProcessor) : BatchProcessor :=
  let bp := mkBatchProcessor (batchSize bp) (taskBuffer bp) (flushTimer bp) (ticking bp) (pending bp) true (batches bp) in
  let bp := flushBatch bp in
  mkBatchProcessor (batchSize bp) (taskBuffer bp) (flushTimer bp) false (pending bp) (cancelled bp) (batches bp).

(** Calls, the firing of the timer, and the function of a fired timer.  The second
    component records the tasks that were added. *)
Inductive step : BatchProcessor * list nat -> BatchProcessor * list nat -> Prop :=
| step_add bp added task : step (bp, added) (AddTask task bp, added ++ [task])
| step_fire bp added : ticking bp = true ->
    step (bp, added)
      (mkBatchProcessor (batchSize bp) (taskBuffer bp) (flushTimer bp) false (S (pending bp)) (cancelled bp) (batches bp), added)
| step_flush bp added n : pending bp = S n ->
    step (bp, added)
      (flushBatch (mkBatchProcessor (batchSize bp) (taskBuffer bp) (flushTimer bp) (ticking bp) n (cancelled bp) (batches bp)), added)
| step_close bp added : step (bp, added) (Close bp, added).

Record Inv (s : BatchProcessor * list nat) : Prop := {
  inv_all : concat (batches s.1).*2 ++ taskBuffer s.1 = s.2;
  inv_sizes : Forall (λ b, 0 < length b.2 <= batchSize s.1 `max` 1)%nat (batches s.1);
  inv_buffer : (length (taskBuffer s.1) < batchSize s.1 `max` 1)%nat;
  inv_timer : taskBuffer s.1 <> [] <-> flushTimer s.1 = true;
  inv_ticking : flushTimer s.1 = true -> ticking s.1 = true \/ (0 < pending s.1)%nat
}.

Lemma flush_inv bp added :
  concat (batches bp).*2 ++ taskBuffer bp = added ->
  Forall (λ b, 0 < length b.2 <= batchSize bp `max` 1)%nat (batches bp) ->
  (length (taskBuffer bp) <= batchSize bp `max` 1)%nat -> (taskBuffer bp = [] -> flushTimer bp = false) ->
  Inv (flushBatch bp, added).
Proof.
  intros Ha Hs Hb Ht. unfold flushBatch. destruct (taskBuffer bp) as [| t l] eqn:E.
  - split; cbn; rewrite ?E; try done; [cbn; lia | by rewrite Ht | by rewrite Ht].
  - split; cbn; try done; [| | lia].
    + rewrite fmap_app, concat_app. cbn. by rewrite !app_nil_r.
    + apply Forall_app. split; [done |]. apply Forall_singleton. cbn in *. lia.
Qed.

Lemma batch_inv_step s s' : step s s' -> Inv s -> Inv s'.
Proof.
  intros Hs [Ha Hsz Hb Ht Htk]. destruct Hs as [bp added task | bp added Hf | bp added n Hp | bp added]; cbn in Ha, Hsz, Hb, Ht, Htk.
  - assert (length (taskBuffer bp ++ [task]) = S (length (taskBuffer bp))) as El by (rewrite length_app; cbn; lia).
    assert (taskBuffer bp ++ [task] <> []) as Hne by (by destruct (taskBuffer bp)).
    unfold AddTask. cbn [batchSize flushTimer]. rewrite El. destruct (Nat.leb_spec (batchSize bp) (S (length (taskBuffer bp)))) as [Hle | Hgt].
    + apply flush_inv; cbn; [by rewrite <- Ha, app_assoc | done | rewrite El; lia | done].
    + destruct (flushTimer bp) eqn:Ef; split; cbn; rewrite ?El; try done; try (by rewrite <- Ha, app_assoc); try lia; tauto.
  - split; cbn; try done. intros _. right. lia.
  - apply flush_inv; cbn; try done; [lia |]. intros E. destruct (flushTimer bp); [by destruct Ht as [_ Ht]; destruct (Ht eq_refl) | done].
  - destruct (flush_inv (mkBatchProcessor (batchSize bp) (taskBuffer bp) (flushTimer bp) (ticking bp) (pending bp) true (batches bp)) added)
      as [Ha' Hsz' Hb' Ht' Htk']; cbn; try done; [lia | |].
    { intros E. destruct (flushTimer bp); [by destruct Ht as [_ Ht]; destruct (Ht eq_refl) | done]. }
    unfold Close. split; cbn in *; try done. intros E. exfalso. revert E. clear - Ht. unfold flushBatch. cbn.
    destruct (taskBuffer bp); cbn; [| done]. intros E. apply Ht in E. done.
Qed.

(** Every task is delivered in one batch: under any interleaving of calls of
    [AddTask] and [Close], timers and late timers, the batches followed by the
    buffer are the tasks in the order in which they were added; no batch is empty
    or larger than the batch size; and while tasks wait in the buffer a timer is
    ticking or has just fired. *)
Theorem batches_partition n bp added : rtc step (NewBatchProcessor n, []) (bp, added) ->
  concat (batches bp).*2 ++ taskBuffer bp = added /\
  Forall (λ b, 0 < length b.2 <= batchSize bp `max` 1)%nat (batches bp) /\
  (length (taskBuffer bp) < batchSize bp `max` 1)%nat /\
  (taskBuffer bp <> [] -> ticking bp = true \/ (0 < pending bp)%nat).
Proof.
  intros Hr. apply (rtc_ind_r Inv (NewBatchProcessor n, [])) in Hr; [| | ].
  - destruct Hr as [Ha Hs Hb Ht Htk]. cbn in *. split; [done |]. split; [done |]. split; [done |]. intros Hne. by apply Htk, Ht.
  - split; cbn; try done; lia.
  - intros s1 s2 _ Hs HI. by eapply batch_inv_step.
Qed.

(** Two tasks fill a batch; the timer of the first has fired meanwhile, and its
    function flushes the third task on its own. *)
Definition lateFlush : BatchProcessor := mkBatchProcessor 2 [] false false 0 false [(false, [1; 2]); (false, [3])]%nat.

Lemma lateFlush_reachable : rtc step (NewBatchProcessor 2, []) (lateFlush, [1; 2; 3]%nat).
Proof.
  eapply rtc_l; [apply (step_add _ _ 1%nat) |]. eapply rtc_l; [by apply step_fire |].
  eapply rtc_l; [apply (step_add _ _ 2%nat) |]. eapply rtc_l; [apply (step_add _ _ 3%nat) |].
  eapply rtc_l; [by apply (step_flush _ _ 0%nat) |]. reflexivity.
Qed.

Lemma batches_partition_witness : rtc step (NewBatchProcessor 2, []) (lateFlush, [1; 2; 3]%nat) /\
  concat (batches lateFlush).*2 ++ taskBuffer lateFlush = [1; 2; 3]%nat.
Proof. split; [exact lateFlush_reachable |]. apply (batches_partition 2 lateFlush [1; 2; 3]%nat lateFlush_reachable). Defined.

(** [Close] cancels the context before it delivers what is left. *)
Lemma Close_cancels_first bp : taskBuffer bp <> [] -> last (batches (Close bp)) = Some (true, taskBuffer bp).
Proof. intros Hne. unfold Close, flushBatch. cbn. destruct (taskBuffer bp); [done |]. cbn. by rewrite last_snoc. Qed.

End BatchProcessor.

(** ** Priorities, retries and batches *)

(** [TaskPriorityQueue] inserts as [WorkerPools.PriorityQueue] does, without a bound. *)
Definition Push (Priority : nat -> Z) (task : nat) (tasks : list nat) : list nat := insert_by_priority Priority task tasks.

Definition Pop (tasks : list nat) : option (nat * list nat) :=
  match tasks with [] => None | task :: l => Some (task, l) end.

(** What is popped after any pushes is the oldest among the most urgent tasks. *)
Lemma pop_first Priority pushed t l : Pop (foldl (λ q t, Push Priority t q) [] pushed) = Some (t, l) ->
  Forall (λ u, Priority u <= Priority t) pushed /\ head (ofPriority Priority (Priority t) pushed) = Some t.
Proof.
  assert (Ordered Priority (foldl (λ q t, Push Priority t q) [] pushed) /\
    foldl (λ q t, Push Priority t q) [] pushed ≡ₚ pushed /\
    forall p, ofPriority Priority p (foldl (λ q t, Push Priority t q) [] pushed) = ofPriority Priority p pushed) as (Ho & Hp & Hf).
  { induction pushed as [| u pushed (Ho & Hp & Hf)] using rev_ind; [by repeat constructor |]. rewrite !foldl_app. cbn [foldl].
    split; [by apply insert_ordered | split].
    - unfold Push at 1. rewrite insert_perm, Hp. solve_Permutation.
    - intros p. unfold Push at 1. rewrite insert_ofPriority by done. unfold ofPriority in *. by rewrite !filter_app, Hf. }
  unfold Pop. destruct (foldl _ _ _) as [| u q] eqn:E; [done |]. intros [= -> ->]. split.
  - rewrite <- Hp. constructor; [lia |]. by inversion Ho.
  - rewrite <- Hf. unfold ofPriority. by rewrite filter_cons_True.
Qed.

(** The rules of a [ValidationTask] run until one fails. *)
Fixpoint validate {E} (rules : list (result E unit)) : result E unit :=
  match rules with
  | [] => Ok tt
  | Err e :: _ => Err e
  | Ok _ :: rules => validate rules
  end.

Section ExecuteWithRetry.
Context {E : Type}.

Inductive RetryError := RetryCancelled | RetriesExhausted (attempts : Z) (lastErr : option E).

(** What each attempt answers, and whether the context ends during the wait
    before it.  The loop runs for the attempts that are left; the second component
    counts the executions. *)
Context (Execute : nat -> result E unit) (ctxDone : nat -> bool).

Fixpoint retryLoop (more attempt : nat) (maxRetries : Z) (lastErr : option E) : result RetryError unit * nat :=
  match more with
  | O => (Err (RetriesExhausted (maxRetries + 1) lastErr), attempt)
  | S more =>
      if (0 <? attempt)%nat && ctxDone attempt then (Err RetryCancelled, attempt)
      else match Execute attempt with
           | Ok _ => (Ok tt, S attempt)
           | Err e => retryLoop more (S attempt) maxRetries (Some e)
           end
  end.

Definition ExecuteWithRetry (maxRetries : Z) : result RetryError unit * nat :=
  retryLoop (Z.to_nat (maxRetries + 1)) 0 maxRetries None.

(** The pause before an attempt. *)
Definition backoffBefore (backoff : Duration) (attempt : nat) : Duration := wrap64 (backoff * Z.of_nat attempt).

Lemma retryLoop_spec more attempt maxRetries lastErr : let '(r, n) := retryLoop more attempt maxRetries lastErr in
  (attempt <= n <= attempt + more)%nat /\
  (forall i, (attempt <= i < n)%nat -> is_ok (Execute i) = true -> r = Ok tt /\ n = S i) /\
  match r with
  | Ok _ => exists i, n = S i /\ (attempt <= i)%nat /\ is_ok (Execute i) = true
  | Err RetryCancelled => (0 < n)%nat /\ ctxDone n = true
  | Err (RetriesExhausted k e) => n = (attempt + more)%nat /\ k = maxRetries + 1 /\
      e = match more with O => lastErr | S more => match Execute (attempt + more) with Err e => Some e | Ok _ => None end end
  end.
Proof.
  revert attempt lastErr. induction more as [| more IH]; intros attempt lastErr; cbn [retryLoop].
  - split; [lia |]. split; [lia |]. split; [lia | done].
  - destruct ((0 <? attempt)%nat && ctxDone attempt) eqn:Ec.
    { apply andb_true_iff in Ec as [?%Nat.ltb_lt ?]. cbn. split; [lia |]. split; [lia | done]. }
    destruct (Execute attempt) as [[] | e] eqn:Ee.
    { cbn. split; [lia |]. split; [| exists attempt; split; [done |]; split; [lia | by rewrite Ee]].
      intros i Hi _. split; [done | lia]. }
    specialize (IH (S attempt) (Some e)). destruct (retryLoop more (S attempt) maxRetries (Some e)) as [r n].
    destruct IH as (Hn & Hall & Hr). split; [lia |]. split.
    + intros i Hi Hok. apply Hall; [| done]. destruct (Nat.eq_dec i attempt) as [-> |]; [by rewrite Ee in Hok | lia].
    + destruct r as [u | [| k e']]; [destruct Hr as (i & ? & ? & ?); exists i; split; [done | split; [lia | done]] | done |].
      destruct Hr as (-> & -> & ->). split; [lia |]. split; [done |]. destruct more as [| more].
      * by rewrite Nat.add_0_r, Ee.
      * by rewrite <- Nat.add_succ_comm.
Qed.
End ExecuteWithRetry.

(** A retried task is executed until it succeeds, but at most once more than the
    number of retries; without success the last error is returned, or none at all
    when the number of retries is negative and nothing was executed. *)
Lemma ExecuteWithRetry_spec {E} (Execute : nat -> result E unit) ctxDone maxRetries :
  let '(r, n) := ExecuteWithRetry Execute ctxDone maxRetries in
  Z.of_nat n <= Z.max 0 (maxRetries + 1) /\
  (r = Ok tt <-> exists i, n = S i /\ is_ok (Execute i) = true) /\
  (forall i, (i < n)%nat -> is_ok (Execute i) = true -> n = S i) /\
  (maxRetries < 0 -> r = Err (RetriesExhausted (maxRetries + 1) None) /\ n = 0%nat).
Proof.
  unfold ExecuteWithRetry. pose proof (retryLoop_spec Execute ctxDone (Z.to_nat (maxRetries + 1)) 0 maxRetries None) as H.
  destruct (retryLoop Execute ctxDone (Z.to_nat (maxRetries + 1)) 0 maxRetries None) as [r n] eqn:Er.
  destruct H as (Hn & Hall & Hr). split; [lia |]. split; [| split].
  - split; [intros ->; destruct Hr as (i & ? & _ & ?); by exists i |].
    intros (i & -> & Hok). by destruct (Hall i) as [? _]; [lia | done |].
  - intros i Hi Hok. by destruct (Hall i) as [_ ?]; [lia | done |].
  - intros Hneg. assert (Z.to_nat (maxRetries + 1) = 0%nat) as E0 by lia. rewrite E0 in Er. cbn in Er. by injection Er as <- <-.
Qed.

Section ExecuteTasksInBatches.
Context {E : Type} (Execute : nat -> result E unit).

Definition errorsOf (tasks : list nat) : list E :=
  omap (λ t, match Execute t with Err e => Some e | Ok _ => None end) tasks.

(** All tasks of a batch are executed; when some fail one of their errors is
    returned, whichever arrives first.  The second component are the tasks that
    were executed. *)
Fixpoint inBatches (fuel batchSize : nat) (tasks : list nat) : result (list E) unit * list nat :=
  match fuel, tasks with
  | S fuel, _ :: _ =>
      let batch := take batchSize tasks in
      match errorsOf batch with
      | [] => let '(r, executed) := inBatches fuel batchSize (drop batchSize tasks) in (r, batch ++ executed)
      | errors => (Err errors, batch)
      end
  | _, _ => (Ok tt, [])
  end.

Definition ExecuteTasksInBatches (tasks : list nat) (batchSize : Z) : result (list E) unit * list nat :=
  inBatches (length tasks) (if batchSize <=? 0 then 1 else Z.to_nat batchSize) tasks.

Lemma errorsOf_nil tasks : errorsOf tasks = [] <-> Forall (λ t, is_ok (Execute t) = true) tasks.
Proof.
  unfold errorsOf. induction tasks as [| t tasks IH]; cbn; [by split |]. rewrite Forall_cons.
  destruct (Execute t) as [u | e] eqn:E1; cbn; [rewrite IH; tauto | by split; [| intros [? _]]].
Qed.

Lemma inBatches_spec fuel batchSize tasks : (length tasks <= fuel)%nat -> (0 < batchSize)%nat ->
  let '(r, executed) := inBatches fuel batchSize tasks in
  executed `prefix_of` tasks /\
  match r with
  | Ok _ => executed = tasks /\ Forall (λ t, is_ok (Execute t) = true) tasks
  | Err errors => exists batch, errors = errorsOf batch /\ errors <> [] /\ batch `suffix_of` executed /\ (length batch <= batchSize)%nat
  end.
Proof.
  intros Hf Hb. revert tasks Hf. induction fuel as [| fuel IH]; intros [| t tasks] Hf; cbn [inBatches]; try done;
    [cbn in Hf; lia |].
  destruct (errorsOf (take batchSize (t :: tasks))) as [| e errors] eqn:Ee.
  - specialize (IH (drop batchSize (t :: tasks))). rewrite length_drop in IH. cbn [length] in *.
    destruct (inBatches fuel batchSize (drop batchSize (t :: tasks))) as [r executed]. destruct IH as [Hpre Hr]; [lia |].
    split.
    + rewrite <- (take_drop batchSize (t :: tasks)) at 2. by apply prefix_app.
    + destruct r as [u | errs].
      * destruct Hr as [-> Hall]. rewrite take_drop. split; [done |]. rewrite <- (take_drop batchSize (t :: tasks)).
        apply Forall_app. split; [by apply errorsOf_nil | done].
      * destruct Hr as (batch & -> & Hne & Hs & Hl). exists batch. split; [done |]. split; [done |]. split; [by apply suffix_app_r | done].
  - split; [apply prefix_take |]. exists (take batchSize (t :: tasks)). split; [done |]. split; [done |]. split; [done |].
    rewrite length_take. lia.
Qed.
End ExecuteTasksInBatches.

(** Tasks are executed in order, batch by batch, up to the first batch in which
    one fails; all are executed exactly when all succeed. *)
Lemma ExecuteTasksInBatches_spec {E} (Execute : nat -> result E unit) tasks batchSize :
  let '(r, executed) := ExecuteTasksInBatches Execute tasks batchSize in
  executed `prefix_of` tasks /\
  (r = Ok tt <-> Forall (λ t, is_ok (Execute t) = true) tasks) /\ (r = Ok tt -> executed = tasks).
Proof.
  unfold ExecuteTasksInBatches. set (n := if batchSize <=? 0 then 1%nat else Z.to_nat batchSize).
  assert (0 < n)%nat as Hn by (unfold n; destruct (Z.leb_spec batchSize 0); lia).
  pose proof (inBatches_spec Execute (length tasks) n tasks (le_n _) Hn) as H.
  destruct (inBatches Execute (length tasks) n tasks) as [r executed]. destruct H as [Hpre Hr]. split; [done |].
  destruct r as [[] | errors].
  - destruct Hr as [-> Hall]. done.
  - split; [| done]. split; [done |]. intros Hall. destruct Hr as (batch & -> & Hne & [k ->] & _). destruct Hne.
    apply errorsOf_nil. destruct Hpre as [k' ->]. rewrite !Forall_app in Hall. tauto.
Qed.

(** [Task.Execute] of engine.go answers every call with an error. *)
Definition Task_Execute (t : nat) : result string unit := Err "task execution not implemented".

Lemma batches_of_tasks_fail t tasks batchSize : exists errors, (ExecuteTasksInBatches Task_Execute (t :: tasks) batchSize).1 = Err errors.
Proof.
  pose proof (ExecuteTasksInBatches_spec Task_Execute (t :: tasks) batchSize) as H.
  destruct (ExecuteTasksInBatches Task_Execute (t :: tasks) batchSize) as [[[] | errors] executed]; [| by exists errors].
  destruct H as (_ & [H _] & _). specialize (H eq_refl). by apply Forall_cons in H as [? _].
Qed.
