(* ===== verification/GenericsResult.v ===== *)
(** * GenericsResult: generics/result.go

    The package's own [Result] and [Option]: structs with a flag, whose other
    fields hold zero values, with the functions that map, chain, batch and
    recover.  A function given by the caller is a function; where its panic
    matters it returns an [outcome]. *)

From S2P Require Import Prelude.

(** The zero value of a type. *)
Class Zero (T : Type) := zero : T.

#[export] Instance zero_list T : Zero (list T) := [].
#[export] Instance zero_bool : Zero bool := false.
#[export] Instance zero_Z : Zero Z := 0%Z.
#[export] Instance zero_string : Zero string := "".

(** What a call does: it returns, or panics with a value. *)
Inductive outcome (A : Type) := Returns (a : A) | Panics (value : any).
Arguments Returns {A} a.
Arguments Panics {A} value.

(** ** Results *)

Record Result (T E : Type) := mkResult { value : T; err : E; ok : bool }.
Arguments mkResult {T E} _ _ _.
Arguments value {T E} _.
Arguments err {T E} _.
Arguments ok {T E} _.

Section results.
Context {T E : Type} `{Zero T} `{Zero E}.

Definition Ok (v : T) : Result T E := mkResult v zero true.
Definition Err (e : E) : Result T E := mkResult zero e false.

Definition IsOk (r : Result T E) : bool := ok r.
Definition IsErr (r : Result T E) : bool := negb (ok r).
Definition Unwrap (r : Result T E) : T * E * bool := (value r, err r, ok r).

Definition Value (r : Result T E) : outcome T :=
  if ok r then Returns (value r) else Panics (AnyString "called Value() on error Result").
Definition Error (r : Result T E) : outcome E :=
  if ok r then Panics (AnyString "called Error() on successful Result") else Returns (err r).
Definition ValueOr (defaultValue : T) (r : Result T E) : T := if ok r then value r else defaultValue.

Definition Filter (r : Result T E) (predicate : T -> bool) (errorOnFalse : E) : Result T E :=
  if negb (ok r) then r else if negb (predicate (value r)) then Err errorOnFalse else r.

(** The result of a function that panics is the zero [Result] when [recoverFn]
    panics too: the outer [recover] swallows that. *)
Definition Recovery (fn : outcome T) (recoverFn : any -> outcome E) : Result T E :=
  match fn with
  | Returns v => Ok v
  | Panics r => match recoverFn r with Returns e => Err e | Panics _ => mkResult zero zero false end
  end.
End results.

Definition MapResult {T U E} `{Zero U, Zero E} (r : Result T E) (fn : T -> U) : Result U E :=
  if negb (ok r) then Err (err r) else Ok (fn (value r)).

Definition MapErr {T E F} `{Zero T, Zero F} (r : Result T E) (fn : E -> F) : Result T F :=
  if ok r then Ok (value r) else Err (fn (err r)).

Definition FlatMap {T U E} `{Zero U} (r : Result T E) (fn : T -> Result U E) : Result U E :=
  if negb (ok r) then Err (err r) else fn (value r).

(** *** Batches *)

Fixpoint All_loop {T E} `{Zero E} (values : list T) (results : list (Result T E)) : Result (list T) E :=
  match results with
  | [] => Ok values
  | r :: results => if negb (ok r) then Err (err r) else All_loop (values ++ [value r]) results
  end.

Definition All {T E} `{Zero E} (results : list (Result T E)) : Result (list T) E := All_loop [] results.

Fixpoint Any_loop {T E} `{Zero T} (lastErr : E) (results : list (Result T E)) : Result T E :=
  match results with
  | [] => Err lastErr
  | r :: results => if ok r then r else Any_loop (err r) results
  end.

Definition Any {T E} `{Zero T, Zero E} (results : list (Result T E)) : Result T E := Any_loop zero results.

Definition Collect {T U E} `{Zero E} (items : list T) (fn : T -> Result U E) : Result (list U) E := All (fn <$> items).

Definition Partition {T E} (results : list (Result T E)) : list T * list E :=
  foldl (λ p r, if ok r then (p.1 ++ [value r], p.2) else (p.1, p.2 ++ [err r])) ([], []) results.

(** ** Options *)

Record Option (T : Type) := mkOption { some_value : T; some : bool }.
Arguments mkOption {T} _ _.
Arguments some_value {T} _.
Arguments some {T} _.

Section options.
Context {T : Type} `{Zero T}.

Definition Some_ (v : T) : Option T := mkOption v true.
Definition None_ : Option T := mkOption zero false.

Definition IsSome (o : Option T) : bool := some o.
Definition IsNone (o : Option T) : bool := negb (some o).
Definition Unwrap_option (o : Option T) : T * bool := (some_value o, some o).
Definition Value_option (o : Option T) : outcome T :=
  if some o then Returns (some_value o) else Panics (AnyString "called Value() on None Option").
Definition ValueOr_option (defaultValue : T) (o : Option T) : T := if some o then some_value o else defaultValue.

Definition FilterOption (o : Option T) (predicate : T -> bool) : Option T :=
  if negb (some o) || negb (predicate (some_value o)) then None_ else o.

Definition ToResult {E} `{Zero E} (o : Option T) (e : E) : Result T E := if some o then Ok (some_value o) else Err e.
Definition FromResult {E} (r : Result T E) : Option T := if ok r then Some_ (value r) else None_.
End options.

Definition MapOption {T U} `{Zero U} (o : Option T) (fn : T -> U) : Option U :=
  if negb (some o) then None_ else Some_ (fn (some_value o)).
Definition FlatMapOption {T U} `{Zero U} (o : Option T) (fn : T -> Option U) : Option U :=
  if negb (some o) then None_ else fn (some_value o).

(** ** Chains *)

(** A [Chain] is a pointer to a result that its methods replace. *)
Inductive Link (T E : Type) :=
| LinkMap (fn : T -> T)
| LinkFlatMap (fn : T -> Result T E)
| LinkFilter (predicate : T -> bool) (errorOnFalse : E).
Arguments LinkMap {T E} fn.
Arguments LinkFlatMap {T E} fn.
Arguments LinkFilter {T E} predicate errorOnFalse.

Definition link {T E} `{Zero T, Zero E} (r : Result T E) (l : Link T E) : Result T E :=
  match l with
  | LinkMap fn => MapResult r fn
  | LinkFlatMap fn => FlatMap r fn
  | LinkFilter p e => Filter r p e
  end.

Definition runChain {T E} `{Zero T, Zero E} (r : Result T E) (links : list (Link T E)) : Result T E := foldl link r links.

(** ** Refinement *)

(** What a result stands for, and the results that the package builds: a field
    that is not in use holds the zero value. *)
Definition abs {T E} (r : Result T E) : result E T := if ok r then Prelude.Ok (value r) else Prelude.Err (err r).
Definition abs_option {T} (o : Option T) : option T := if some o then Some (some_value o) else None.

Definition proper {T E} `{Zero T, Zero E} (r : Result T E) : Prop :=
  if ok r then err r = zero else value r = zero.

Lemma proper_abs {T E} `{Zero T, Zero E} (r s : Result T E) : proper r -> proper s -> abs r = abs s -> r = s.
Proof. destruct r as [v e []], s as [v' e' []]; unfold proper, abs; cbn; intros; simplify_eq; done. Qed.

(** The same functions on sums. *)
Definition on_value {E T U} (f : T -> U) (r : result E T) : result E U := rbind r (λ v, Prelude.Ok (f v)).
Definition on_error {E F T} (f : E -> F) (r : result E T) : result F T :=
  match r with Prelude.Ok v => Prelude.Ok v | Prelude.Err e => Prelude.Err (f e) end.

Fixpoint sequence {E T} (rs : list (result E T)) : result E (list T) :=
  match rs with
  | [] => Prelude.Ok []
  | r :: rs => rbind r (λ v, on_value (cons v) (sequence rs))
  end.

Fixpoint first_ok {E T} (e : E) (rs : list (result E T)) : result E T :=
  match rs with
  | [] => Prelude.Err e
  | Prelude.Ok v :: _ => Prelude.Ok v
  | Prelude.Err e :: rs => first_ok e rs
  end.

Definition link_sum {T E} `{Zero T, Zero E} (r : result E T) (l : Link T E) : result E T :=
  match l with
  | LinkMap fn => on_value fn r
  | LinkFlatMap fn => rbind r (λ v, abs (fn v))
  | LinkFilter p e => rbind r (λ v, if p v then Prelude.Ok v else Prelude.Err e)
  end.

Lemma All_loop_abs {T E} `{Zero E} (values : list T) (results : list (Result T E)) :
  abs (All_loop values results) = on_value (app values) (sequence (abs <$> results)).
Proof.
  revert values. induction results as [| r results IH]; intros values; cbn.
  - unfold abs, on_value. cbn. by rewrite app_nil_r.
  - destruct r as [v e []]; cbn; [| done]. rewrite IH. unfold on_value.
    destruct (sequence (abs <$> results)); cbn; [by rewrite <- app_assoc | done].
Qed.

Lemma Any_loop_abs {T E} `{Zero T} (e : E) (results : list (Result T E)) :
  abs (Any_loop e results) = first_ok e (abs <$> results).
Proof. revert e. induction results as [| [v e' []] results IH]; intros e; cbn; [done | done | by rewrite IH]. Qed.

Lemma Any_loop_proper {T E} `{Zero T, Zero E} (e : E) (results : list (Result T E)) :
  Forall proper results -> proper (Any_loop e results).
Proof. intros Hf. revert e. induction Hf as [| [v e' []] results Hr _ IH]; intros e; cbn; [done | done | by apply IH]. Qed.

Lemma Partition_spec {T E} (results : list (Result T E)) :
  Partition results = (omap (λ r, if ok r then Some (value r) else None) results,
                       omap (λ r, if ok r then None else Some (err r)) results).
Proof.
  unfold Partition. induction results as [| r results IH] using rev_ind; [done |].
  rewrite foldl_app, IH, !omap_app. cbn. destruct (ok r); cbn; by rewrite app_nil_r.
Qed.

Lemma link_refines {T E} `{Zero T, Zero E} (r : Result T E) (l : Link T E) :
  (forall fn v, l = LinkFlatMap fn -> proper (fn v)) -> proper r ->
  abs (link r l) = link_sum (abs r) l /\ proper (link r l).
Proof.
  intros Hl Hr. destruct r as [v e []], l as [fn | fn | p e']; cbn in *; try done.
  - split; [done | by eapply Hl].
  - unfold Filter. cbn. by destruct (p v).
Qed.

(** The package's results are sums of values and errors: chains of any
    length, batches and conversions give what the same functions give on sums,
    with the first error of [All] and the last of [Any], and the fields that are
    not in use stay zero, so that equality of structs is equality of sums;
    [Partition] separates, in order, without losing any; and no panic passes
    [Recovery], though it becomes the zero result when the handler panics too. *)
Theorem results_refine_sums {T E} `{Zero T, Zero E} (r : Result T E) (rs : list (Result T E)) (links : list (Link T E))
    (fn : outcome T) (recoverFn : any -> outcome E) :
  proper r -> Forall proper rs -> (forall f v, LinkFlatMap f ∈ links -> proper (f v)) ->
  (abs (runChain r links) = foldl link_sum (abs r) links /\ proper (runChain r links)) /\
  (abs (All rs) = sequence (abs <$> rs) /\ proper (All rs)) /\
  (abs (Any rs) = first_ok zero (abs <$> rs) /\ proper (Any rs)) /\
  (let '(values, errors) := Partition rs in
     values = omap (λ r, match abs r with Prelude.Ok v => Some v | Prelude.Err _ => None end) rs /\
     errors = omap (λ r, match abs r with Prelude.Ok _ => None | Prelude.Err e => Some e end) rs /\
     (length values + length errors = length rs)%nat) /\
  proper (Recovery fn recoverFn) /\ (IsOk (Recovery fn recoverFn) = true <-> exists v, fn = Returns v) /\
  (forall s, proper s -> abs r = abs s -> r = s).
Proof.
  intros Hr Hrs Hl. split; [| split; [| split; [| split; [| split; [| split]]]]].
  - unfold runChain. revert r Hr. induction links as [| l links IH]; intros r Hr; [done |]. cbn [foldl].
    destruct (link_refines r l) as [<- Hp]; [intros f v ->; apply Hl; by left | done |].
    apply IH; [| done]. intros f v Hin. apply Hl. by right.
  - split.
    + unfold All. rewrite All_loop_abs. unfold on_value. by destruct (sequence _).
    + unfold All. generalize (@nil T). clear -rs. induction rs as [| [v e []] rs IH]; intros l; cbn; [done | apply IH | done].
  - split; [apply Any_loop_abs | by apply Any_loop_proper].
  - rewrite Partition_spec. split; [| split].
    + apply list_omap_ext, Forall_Forall2_diag, Forall_true. intros [v e []]; done.
    + apply list_omap_ext, Forall_Forall2_diag, Forall_true. intros [v e []]; done.
    + clear. induction rs as [| [v e []] rs IH]; cbn; [done | lia | lia].
  - unfold Recovery. destruct fn as [v | p]; [done |]. by destruct (recoverFn p).
  - unfold Recovery. destruct fn as [v | p]; cbn; [split; [by exists v | done] |].
    split; [by destruct (recoverFn p) | by intros [v [=]]].
  - intros s Hs. by apply proper_abs.
Qed.

Lemma results_refine_sums_witness :
  let r : Result Z string := Ok 3%Z in
  let links := [LinkMap (λ x, x + 1)%Z; LinkFilter (λ x, 9 <? x)%Z "small"; LinkMap (λ x, x * 2)%Z] in
  runChain r links = Err "small" /\ abs (runChain r links) = foldl link_sum (abs r) links.
Proof.
  intros r links. split; [reflexivity |].
  apply (results_refine_sums (H0 := zero_string) r [] links (Panics AnyNil) (λ _, Returns "recovered")).
  - reflexivity.
  - constructor.
  - intros f v Hin. repeat (apply elem_of_cons in Hin as [Hin | Hin]; [discriminate |]). by apply not_elem_of_nil in Hin.
Defined.

(** A handler that panics gives the zero result, a failure without an error. *)
Example recovery_swallows : Recovery (T := Z) (Panics AnyNil) (λ _, Panics AnyNil) = mkResult 0%Z "" false.
Proof. reflexivity. Qed.
