(* ===== verification/GenericsCollections.v ===== *)
(** * GenericsCollections: generics/collections.go

    Sets and maps over Go's maps, and slices with the usual functions on lists.
    Keys are compared by [==]; types with values that differ from themselves (NaN)
    are left out.  The order in which Go goes through a map is an argument. *)

From S2P Require Import Prelude GoSlice.
From S2P Require Import GenericsResult.

(** ** Sets *)

Module Sets.
Section sets.
Context {T : Type} `{Countable T}.

Definition Add (item : T) (s : gset T) : gset T := {[item]} ∪ s.
Definition Remove (item : T) (s : gset T) : gset T := s ∖ {[item]}.
Definition Contains (s : gset T) (item : T) : bool := bool_decide (item ∈ s).
Definition NewSet (values : list T) : gset T := foldl (λ s v, Add v s) ∅ values.
Definition Size (s : gset T) : nat := size s.
Definition IsEmpty (s : gset T) : bool := (size s =? 0)%nat.
Definition Clear (s : gset T) : gset T := ∅.

(** The loops, each over the items of a set in some order. *)
Definition ToSlice (order : list T) : list T := foldl (λ l item, l ++ [item]) [] order.
Definition Union (order otherOrder : list T) : gset T :=
  foldl (λ s item, Add item s) (foldl (λ s item, Add item s) ∅ order) otherOrder.
Definition Intersection (order : list T) (other : gset T) : gset T :=
  foldl (λ s item, if Contains other item then Add item s else s) ∅ order.
Definition Difference (order : list T) (other : gset T) : gset T :=
  foldl (λ s item, if negb (Contains other item) then Add item s else s) ∅ order.
Fixpoint IsSubset (order : list T) (other : gset T) : bool :=
  match order with
  | [] => true
  | item :: order => if negb (Contains other item) then false else IsSubset order other
  end.
Definition SymmetricDifference (order otherOrder order' unionOrder : list T) (other : gset T) : gset T :=
  Difference unionOrder (Intersection order' other).

(** [order] lists a set. *)
Definition lists (order : list T) (s : gset T) : Prop := order ≡ₚ elements s.

Lemma set_lists_elem order s : lists order s -> forall x, x ∈ order <-> x ∈ s.
Proof. intros E x. by rewrite E, elem_of_elements. Qed.

Lemma collect_spec (p : T -> bool) l s x : x ∈ foldl (λ s item, if p item then Add item s else s) s l <-> x ∈ s \/ x ∈ l /\ p x = true.
Proof.
  revert s. induction l as [| y l IH]; intros s; cbn.
  - rewrite elem_of_nil. tauto.
  - rewrite IH, elem_of_cons. unfold Add. destruct (p y) eqn:E; [rewrite elem_of_union, elem_of_singleton |]; naive_solver congruence.
Qed.

Lemma add_all_spec l s x : x ∈ foldl (λ s item, Add item s) s l <-> x ∈ s \/ x ∈ l.
Proof. rewrite (collect_spec (λ _, true)). tauto. Qed.

Lemma ToSlice_id order : ToSlice order = order.
Proof. unfold ToSlice. induction order as [| x l IH] using rev_ind; [done |]. by rewrite foldl_app, IH. Qed.

Lemma Contains_spec s x : Contains s x = true <-> x ∈ s.
Proof. apply bool_decide_eq_true. Qed.

Lemma IsSubset_spec order s other : lists order s -> IsSubset order other = true <-> s ⊆ other.
Proof.
  intros Ho. assert (IsSubset order other = true <-> forall x, x ∈ order -> x ∈ other) as ->.
  { clear Ho. induction order as [| x l IH]; cbn [IsSubset]; [split; [by intros _ ? ?%not_elem_of_nil | done] |].
    destruct (Contains other x) eqn:E; cbn.
    - apply Contains_spec in E. rewrite IH. setoid_rewrite elem_of_cons. naive_solver.
    - split; [done |]. intros Hx. assert (Contains other x = true) by (apply Contains_spec, Hx; by left). congruence. }
  setoid_rewrite (set_lists_elem _ _ Ho). done.
Qed.
End sets.
End Sets.

(** ** Maps *)

Module Maps.
Section maps.
Context {K V : Type} `{Countable K} `{Zero V}.

Definition Set_ (key : K) (v : V) (m : gmap K V) : gmap K V := <[key := v]> m.
Definition Get (key : K) (m : gmap K V) : Option V :=
  match m !! key with Some v => Some_ v | None => None_ end.
Definition GetOrDefault (key : K) (defaultValue : V) (m : gmap K V) : V := default defaultValue (m !! key).
Definition Delete (key : K) (m : gmap K V) : gmap K V := delete key m.
Definition Contains (key : K) (m : gmap K V) : bool := bool_decide (is_Some (m !! key)).
Definition Size (m : gmap K V) : nat := size m.

(** Loops over the entries of a map in some order. *)
Definition Keys (order : list (K * V)) : list K := foldl (λ l e, l ++ [e.1]) [] order.
Definition Values (order : list (K * V)) : list V := foldl (λ l e, l ++ [e.2]) [] order.
Definition FilterMap (order : list (K * V)) (predicate : K -> V -> bool) : gmap K V :=
  foldl (λ m e, if predicate e.1 e.2 then Set_ e.1 e.2 m else m) ∅ order.
End maps.

Definition MapValues {K V U} `{Countable K} (order : list (K * V)) (fn : V -> U) : gmap K U :=
  foldl (λ m e, Set_ e.1 (fn e.2) m) ∅ order.

Section specs.
Context {K V : Type} `{Countable K}.

(** [order] lists a map. *)
Definition lists (order : list (K * V)) (m : gmap K V) : Prop := order ≡ₚ map_to_list m.

Lemma map_lists_elem order m : lists order m -> forall k v, (k, v) ∈ order <-> m !! k = Some v.
Proof. intros E k v. by rewrite E, elem_of_map_to_list. Qed.

Lemma lists_nodup order m : lists order m -> NoDup order.*1.
Proof. intros E. rewrite E. apply NoDup_fst_map_to_list. Qed.

(** A loop that stores something for some of the entries. *)
Lemma store_spec {U} (f : K -> V -> option U) order (m : gmap K U) k : NoDup order.*1 ->
  foldl (λ m e, match f e.1 e.2 with Some u => <[e.1 := u]> m | None => m end) m order !! k =
    match list_find (λ e, e.1 = k) order with
    | Some (_, e) => match f e.1 e.2 with Some u => Some u | None => m !! k end
    | None => m !! k
    end.
Proof.
  revert m. induction order as [| [k' v] l IH]; intros m; [done |]. cbn [foldl fmap list_fmap list_find fst snd].
  intros [Hk Hn]%NoDup_cons. rewrite (IH _ Hn). case_decide as E.
  - subst k'. assert (list_find (λ e, e.1 = k) l = None) as ->.
    { apply list_find_None, Forall_forall. intros [k2 v2] Hin E. cbn in E. subst. apply Hk. by apply (list_elem_of_fmap_2 fst) in Hin. }
    cbn. destruct (f k v); [by rewrite lookup_insert_eq | done].
  - destruct (list_find _ l) as [[i e] |]; cbn.
    + destruct (f e.1 e.2); [done |]. destruct (f k' v); [by rewrite lookup_insert_ne | done].
    + destruct (f k' v); [by rewrite lookup_insert_ne | done].
Qed.

Lemma store_lists {U} (f : K -> V -> option U) order (m : gmap K V) k : lists order m ->
  foldl (λ m e, match f e.1 e.2 with Some u => <[e.1 := u]> m | None => m end) (∅ : gmap K U) order !! k = m !! k ≫= f k.
Proof.
  intros Hl. rewrite (store_spec f order ∅ k (lists_nodup _ _ Hl)), lookup_empty.
  destruct (list_find _ order) as [[i [k' v]] |] eqn:E.
  - apply list_find_Some in E as (Hi & Ek & _). cbn in Ek. subst. apply list_elem_of_lookup_2, (map_lists_elem _ _ Hl) in Hi.
    rewrite Hi. cbn. by destruct (f k v).
  - apply list_find_None in E. destruct (m !! k) as [v |] eqn:Hm; [| done]. apply (map_lists_elem _ _ Hl) in Hm.
    rewrite Forall_forall in E. by destruct (E _ Hm).
Qed.
End specs.
End Maps.

(** ** Slices *)

Module Slices.
Section slices.
Context {T : Type}.

(** Indices are integers; a negative one is out of range. *)
Definition inRange (index : Z) (items : list T) : bool := (0 <=? index)%Z && (index <? Z.of_nat (length items))%Z.

Definition Get `{Zero T} (index : Z) (items : list T) : Option T :=
  if inRange index items then match items !! Z.to_nat index with Some v => Some_ v | None => None_ end else None_.
Definition Set_ (index : Z) (v : T) (items : list T) : list T * bool :=
  if inRange index items then (<[Z.to_nat index := v]> items, true) else (items, false).
Definition Len (items : list T) : nat := length items.
Definition IsEmpty (items : list T) : bool := (length items =? 0)%nat.
Definition First `{Zero T} (items : list T) : Option T := match head items with Some v => Some_ v | None => None_ end.
Definition Last `{Zero T} (items : list T) : Option T := match last items with Some v => Some_ v | None => None_ end.

Definition FilterSlice (predicate : T -> bool) (items : list T) : list T :=
  foldl (λ l item, if predicate item then l ++ [item] else l) [] items.
Definition ReduceSlice {U} (initialValue : U) (fn : U -> T -> U) (items : list T) : U := foldl fn initialValue items.

Fixpoint FindSlice `{Zero T} (predicate : T -> bool) (items : list T) : Option T :=
  match items with
  | [] => None_
  | item :: items => if predicate item then Some_ item else FindSlice predicate items
  end.

Fixpoint FindIndex_loop (i : Z) (predicate : T -> bool) (items : list T) : Option Z :=
  match items with
  | [] => None_
  | item :: items => if predicate item then Some_ i else FindIndex_loop (i + 1) predicate items
  end.
Definition FindIndexSlice (predicate : T -> bool) (items : list T) : Option Z := FindIndex_loop 0 predicate items.

Fixpoint AnySlice (predicate : T -> bool) (items : list T) : bool :=
  match items with [] => false | item :: items => if predicate item then true else AnySlice predicate items end.
Fixpoint AllSlice (predicate : T -> bool) (items : list T) : bool :=
  match items with [] => true | item :: items => if negb (predicate item) then false else AllSlice predicate items end.

Definition ReverseSlice (items : list T) : list T := rev items.

(** The round of the loop for chunks; there are at most as many as items. *)
Fixpoint Chunk_loop (fuel : nat) (size : nat) (items : list T) : list (list T) :=
  match fuel, items with
  | S fuel, _ :: _ => take size items :: Chunk_loop fuel size (drop size items)
  | _, _ => []
  end.
Definition ChunkSlice (size : Z) (items : list T) : list (list T) :=
  if (size <=? 0)%Z then [] else Chunk_loop (length items) (Z.to_nat size) items.

Definition FlattenSlices (slices : list (list T)) : list T := foldl (λ l s, l ++ s) [] slices.

(** [slices.SortFunc] is given [-1], [1] or [0] by [less]; it promises an order,
    and nothing about equal elements. *)
Definition sortedBy (less : T -> T -> bool) (items items' : list T) : Prop :=
  items' ≡ₚ items /\ StronglySorted (λ a b, less b a = false) items'.
End slices.

Definition MapSlice {T U} (fn : T -> U) (items : list T) : list U := foldl (λ l item, l ++ [fn item]) [] items.

Definition ZipSlices {T U} (slice1 : list T) (slice2 : list U) : list (T * U) :=
  let minLen := Nat.min (length slice1) (length slice2) in
  omap (λ i, match slice1 !! i, slice2 !! i with Some a, Some b => Some (a, b) | _, _ => None end) (seq 0 minLen).

Section unique.
Context {T : Type} `{Countable T}.

Definition ContainsSlice (item : T) (items : list T) : bool := bool_decide (item ∈ items).

Definition UniqueSlice (items : list T) : list T :=
  (foldl (λ p item, if Sets.Contains p.1 item then p else (Sets.Add item p.1, p.2 ++ [item])) (∅ : gset T, []) items).2.
End unique.

(** *** Specifications *)

Section specs.
Context {T : Type}.

Lemma FilterSlice_spec (p : T -> bool) items : FilterSlice p items = filter (λ x, p x = true) items.
Proof.
  unfold FilterSlice. induction items as [| x items IH] using rev_ind; [done |].
  rewrite foldl_app, IH, filter_app, filter_cons, filter_nil. cbn. destruct (p x); [by rewrite decide_True | rewrite decide_False by done].
  by rewrite app_nil_r.
Qed.

Lemma MapSlice_spec {U} (f : T -> U) items : MapSlice f items = f <$> items.
Proof. unfold MapSlice. induction items as [| x items IH] using rev_ind; [done |]. by rewrite foldl_app, IH, fmap_app. Qed.

Lemma AnySlice_spec (p : T -> bool) items : AnySlice p items = existsb p items.
Proof. induction items as [| x items IH]; cbn; [done |]. by destruct (p x). Qed.

Lemma AllSlice_spec (p : T -> bool) items : AllSlice p items = forallb p items.
Proof. induction items as [| x items IH]; cbn; [done |]. by destruct (p x). Qed.

Lemma FindSlice_spec `{Zero T} (p : T -> bool) items : abs_option (FindSlice p items) = head (filter (λ x, p x = true) items).
Proof.
  induction items as [| x items IH]; [done |]. cbn [FindSlice]. rewrite filter_cons.
  destruct (p x); [by rewrite decide_True | by rewrite decide_False].
Qed.

Lemma FindIndexSlice_spec (p : T -> bool) items :
  abs_option (FindIndexSlice p items) = (λ ix, Z.of_nat ix.1) <$> list_find (λ x, p x = true) items.
Proof.
  unfold FindIndexSlice. assert (forall k, abs_option (FindIndex_loop k p items) = (λ ix, k + Z.of_nat ix.1)%Z <$> list_find (λ x, p x = true) items) as E.
  { induction items as [| x items IH]; intros k; [done |]. cbn [FindIndex_loop list_find].
    destruct (p x); [rewrite decide_True by done; unfold abs_option; cbn; f_equal; lia |]. rewrite decide_False, IH by done.
    destruct (list_find _ items) as [[i y] |]; cbn; [f_equal; lia | done]. }
  rewrite (E 0%Z). by destruct (list_find _ items).
Qed.

Lemma FlattenSlices_spec (l : list (list T)) : FlattenSlices l = concat l.
Proof. unfold FlattenSlices. induction l as [| x l IH] using rev_ind; [done |]. rewrite foldl_app, IH, concat_app. cbn. by rewrite app_nil_r. Qed.

Lemma ZipSlices_spec {U} (l : list T) (k : list U) : ZipSlices l k = zip l k.
Proof.
  unfold ZipSlices. revert k. induction l as [| a l IH]; intros k; [done |]. destruct k as [| b k]; [done |].
  cbn [length Nat.min seq zip]. rewrite <- fmap_S_seq. cbn [omap list_omap lookup list_lookup]. f_equal. rewrite <- IH.
  generalize (seq 0 (length l `min` length k)). intros js. induction js as [| i js IHi]; [done |].
  cbn [fmap list_fmap omap list_omap]. rewrite <- IHi. done.
Qed.

(** Chunks cut the slice into pieces of the size asked for, but for the last. *)
Lemma ChunkSlice_spec size (items : list T) : (0 < size)%Z ->
  concat (ChunkSlice size items) = items /\
  Forall (λ c, 0 < length c <= Z.to_nat size)%nat (ChunkSlice size items) /\
  forall l c, ChunkSlice size items = l ++ [c] -> Forall (λ c, length c = Z.to_nat size) l.
Proof.
  intros Hs. unfold ChunkSlice. destruct (Z.leb_spec size 0); [lia |]. set (n := Z.to_nat size). assert (0 < n)%nat as Hn by lia. clearbody n.
  assert (forall fuel, (length items <= fuel)%nat -> concat (Chunk_loop fuel n items) = items /\
    Forall (λ c, 0 < length c <= n)%nat (Chunk_loop fuel n items) /\
    forall l c, Chunk_loop fuel n items = l ++ [c] -> Forall (λ c, length c = n) l) as Hall; [| by apply Hall].
  intros fuel. revert items. induction fuel as [| fuel IH]; intros [| x items] Hf; cbn [Chunk_loop concat]; try (cbn in Hf; lia).
  1, 2: (split; [done | split; [done | by intros [] ? ?]]).
  destruct (IH (drop n (x :: items))) as (E & Hl & Hlast); [rewrite length_drop; cbn in *; lia |]. split; [| split].
  - by rewrite E, take_drop.
  - constructor; [| done]. rewrite length_take. cbn. lia.
  - intros [| c0 l] c; [constructor |]. cbn [app]. intros [= <- El]. constructor; [| by eapply Hlast].
    rewrite length_take. destruct (drop n (x :: items)) as [| y k] eqn:Ed.
    + destruct fuel; cbn in El; by destruct l.
    + assert (n < length (x :: items))%nat; [| lia]. apply (f_equal length) in Ed. rewrite length_drop in Ed. cbn in *. lia.
Qed.
End specs.

Lemma UniqueSlice_spec {T} `{Countable T} (items : list T) :
  NoDup (UniqueSlice items) /\ (forall x, x ∈ UniqueSlice items <-> x ∈ items) /\ UniqueSlice items `sublist_of` items.
Proof.
  unfold UniqueSlice. set (f := λ (p : gset T * list T) item, _).
  assert (let p := foldl f (∅, []) items in NoDup p.2 /\ (forall x, x ∈ p.2 <-> x ∈ items) /\ (forall x, x ∈ p.1 <-> x ∈ items) /\
    p.2 `sublist_of` items) as (? & ? & _ & ?); [| done].
  induction items as [| y items (Hn & Hx & Hs & Hsub)] using rev_ind; [cbn; split; [constructor |]; set_solver |].
  rewrite foldl_app. cbn [foldl]. set (p := foldl f (∅, []) items) in *. unfold f, Sets.Contains, Sets.Add.
  case_bool_decide as Hin.
  - apply Hs in Hin. split; [done |]. split; [| split]; [intros x; rewrite elem_of_app, list_elem_of_singleton; rewrite ?Hx, ?Hs; naive_solver.. |].
    by apply sublist_inserts_r.
  - assert (y ∉ p.2) as Hy by (rewrite Hx, <- Hs; done). cbn. split; [| split; [| split]].
    + apply NoDup_app. split; [done |]. split; [| apply NoDup_singleton]. by intros x Hxp ->%list_elem_of_singleton.
    + intros x. rewrite !elem_of_app, Hx. done.
    + intros x. rewrite elem_of_union, elem_of_singleton, elem_of_app, list_elem_of_singleton, Hs. tauto.
    + by apply sublist_app.
Qed.
End Slices.

(** ** Sharing *)

(** The items of a [Slice] are a clone when it is made, and [Append] writes to
    them; but [Prepend] appends them to the caller's arguments, which are the
    caller's own slice when it passes one with [...]. *)
Module Sharing.
Section sharing.
Context {T : Type} (room : nat).

Definition Append (items : list T) (s : Slice) (st : list (list (option T))) : list (list (option T)) * Slice :=
  appendAll room items s st.

Definition Prepend (items s : Slice) (st : list (list (option T))) : list (list (option T)) * Slice :=
  appendAll room (contents s st) items st.

Lemma Prepend_spec items s st st' s' : valid items st -> Prepend items s st = (st', s') ->
  valid s' st' /\ contents s' st' = contents items st ++ contents s st.
Proof. intros Hv E. by apply (appendAll_spec room _ _ _ _ _ E Hv). Qed.
End sharing.

(** The caller passes the first two of its four items: the others are lost, and
    the new slice goes on sharing its array. *)
Example prepend_overwrites :
  let st : list (list (option Z)) := [[Some 1; Some 2; Some 3; Some 4]; [Some 9]]%Z in
  let all := mkSlice (Some 0%nat) 4 in
  let '(st', s) := Prepend 3 (mkSlice (Some 0%nat) 2) (mkSlice (Some 1%nat) 1) st in
  contents s st' = [1; 2; 9]%Z /\ contents all st' = [1; 2; 9; 4]%Z /\ array s = array all.
Proof. by vm_compute. Qed.
End Sharing.

(** The collections are sets, maps and lists: whatever the order in which Go
    goes through a map, the operations on sets are union, intersection,
    difference, symmetric difference and inclusion; those on maps act on values
    and choose entries; chunks cut a slice into pieces of the size asked for, the
    last perhaps shorter; unique elements are all elements once, in their order;
    and the rest are the functions of the same name on lists. *)
Theorem collections_are_sets_maps_lists {T V U} `{Countable T} (s other : gset T) (m : gmap T V) (items : list T)
    order otherOrder unionOrder entries size (fn : V -> U) (keep : T -> V -> bool) (p : T -> bool) :
  Sets.lists order s -> Sets.lists otherOrder other -> Sets.lists unionOrder (Sets.Union order otherOrder) ->
  Maps.lists entries m -> (0 < size)%Z ->
  (Sets.Union order otherOrder = s ∪ other /\ Sets.Intersection order other = s ∩ other /\
   Sets.Difference order other = s ∖ other /\
   Sets.SymmetricDifference order otherOrder order unionOrder other = (s ∪ other) ∖ (s ∩ other) /\
   (Sets.IsSubset order other = true <-> s ⊆ other)) /\
  (Maps.MapValues entries fn = fn <$> m /\ Maps.FilterMap entries keep = filter (λ e, keep e.1 e.2 = true) m) /\
  (concat (Slices.ChunkSlice size items) = items /\
   (forall l c, Slices.ChunkSlice size items = l ++ [c] -> Forall (λ c, length c = Z.to_nat size) l)) /\
  (NoDup (Slices.UniqueSlice items) /\ (forall x, x ∈ Slices.UniqueSlice items <-> x ∈ items) /\
   Slices.UniqueSlice items `sublist_of` items) /\
  (Slices.FilterSlice p items = filter (λ x, p x = true) items /\ Slices.AllSlice p items = forallb p items /\
   Slices.AnySlice p items = existsb p items).
Proof.
  intros Hs Ho Hu Hm Hsize.
  assert (Sets.Union order otherOrder = s ∪ other) as EU.
  { apply set_eq. intros x. unfold Sets.Union. rewrite !Sets.add_all_spec, (Sets.set_lists_elem _ _ Hs), (Sets.set_lists_elem _ _ Ho). set_solver. }
  assert (Sets.Intersection order other = s ∩ other) as EI.
  { apply set_eq. intros x. unfold Sets.Intersection. rewrite Sets.collect_spec, (Sets.set_lists_elem _ _ Hs), Sets.Contains_spec. set_solver. }
  assert (forall o (t : gset T), Sets.lists o t -> forall u, Sets.Difference o u = t ∖ u) as ED.
  { intros o t Hot u. apply set_eq. intros x. unfold Sets.Difference.
    rewrite (Sets.collect_spec (λ item, negb (Sets.Contains u item))), (Sets.set_lists_elem _ _ Hot), negb_true_iff, <- not_true_iff_false, Sets.Contains_spec. set_solver. }
  split; [| split; [| split; [| split]]].
  - split; [done |]. split; [done |]. split; [by apply ED |]. split; [| by apply Sets.IsSubset_spec].
    unfold Sets.SymmetricDifference. by rewrite (ED _ _ Hu), EU, EI.
  - split; apply map_eq; intros k.
    + rewrite lookup_fmap. etrans; [apply (Maps.store_lists (λ _ v, Some (fn v)) entries m k Hm) |]. by destruct (m !! k).
    + etrans; [| etrans; [apply (Maps.store_lists (λ k v, if keep k v then Some v else None) entries m k Hm) |]].
      * f_equal. unfold Maps.FilterMap, Maps.Set_. clear. generalize (∅ : gmap T V). induction entries as [| e l IH]; intros a; [done |].
        cbn [foldl]. rewrite IH. by destruct (keep e.1 e.2).
      * rewrite map_lookup_filter. destruct (m !! k) as [v |]; cbn; [| done]. by destruct (keep k v).
  - destruct (Slices.ChunkSlice_spec size items Hsize) as (? & _ & ?). done.
  - apply Slices.UniqueSlice_spec.
  - rewrite Slices.FilterSlice_spec, Slices.AllSlice_spec, Slices.AnySlice_spec. done.
Qed.

Lemma collections_are_sets_maps_lists_witness :
  let s : gset Z := {[1; 2; 3]}%Z in let other : gset Z := {[3; 4]}%Z in
  let order := elements s in let otherOrder := elements other in
  Sets.lists order s /\ Sets.SymmetricDifference order otherOrder order (elements (Sets.Union order otherOrder)) other =
    (s ∪ other) ∖ (s ∩ other).
Proof.
  intros s other order otherOrder. split; [exact (Permutation_refl _) |].
  apply (collections_are_sets_maps_lists s other (∅ : gmap Z Z) [] order otherOrder
    (elements (Sets.Union order otherOrder)) [] 1 (λ v, v) (λ _ _, true) (λ _, true)); first [exact (Permutation_refl _) | lia | exact (Permutation_refl [])].
Defined.
