(* ===== verification/GenericsValidation.v ===== *)
(** * GenericsValidation: generics/validation.go

    Validators are functions to results that list errors; builders, pipelines and
    conditional validators combine them, and struct tags give rules for fields.
    The validators that hand their text to net/url, net or encoding/json are left
    out, as is the concurrent batch validator. *)

From S2P Require Import Prelude GoFloat GoStrings.
From stdpp Require Import pretty.
From Stdlib Require Import Ascii.

Local Open Scope Z_scope.

(** ** Results *)

(** The offending value, kept for messages only, is left out. *)
Record ValidationError := mkError { Field : string; Message : string; Code : string }.
Record ValidationResult := mkValidation { Valid : bool; Errors : list ValidationError }.

Definition NewValidationResult : ValidationResult := mkValidation true [].

Definition AddError (field message code : string) (vr : ValidationResult) : ValidationResult :=
  mkValidation false (Errors vr ++ [mkError field message code]).

Definition Combine (other vr : ValidationResult) : ValidationResult :=
  if negb (Valid other) then mkValidation false (Errors vr ++ Errors other) else vr.

(** [strings.Join] *)
Fixpoint Join (sep : string) (l : list string) : string :=
  match l with
  | [] => ""
  | [s] => s
  | s :: l => s +:+ sep +:+ Join sep l
  end.

Definition Error (vr : ValidationResult) : string :=
  if Valid vr then "" else Join "; " ((λ e, Field e +:+ ": " +:+ Message e) <$> Errors vr).

(** The result of one check. *)
Definition check (field message code : string) (good : bool) : ValidationResult :=
  if good then NewValidationResult else AddError field message code NewValidationResult.

(** ** Validators *)

Section validators.
Context {T : Type}.

Definition Validator : Type := T -> ValidationResult.

(** A builder is a pointer; the validator that [Build] returns reads the builder
    when it runs. *)
Record ValidationBuilder := mkBuilder { validators : list Validator }.

Definition NewValidationBuilder : ValidationBuilder := mkBuilder [].
Definition Add (validator : Validator) (vb : ValidationBuilder) : ValidationBuilder := mkBuilder (validators vb ++ [validator]).

Definition MinLength (fieldName : string) (minLength : Z) (extractor : T -> string) : ValidationBuilder -> ValidationBuilder :=
  Add (λ obj, check fieldName ("minimum length is " +:+ pretty minLength) "min_length" (negb (Z.of_nat (String.length (extractor obj)) <? minLength))).
Definition MaxLength (fieldName : string) (maxLength : Z) (extractor : T -> string) : ValidationBuilder -> ValidationBuilder :=
  Add (λ obj, check fieldName ("maximum length is " +:+ pretty maxLength) "max_length" (negb (maxLength <? Z.of_nat (String.length (extractor obj))))).
Definition Pattern (fieldName : string) (regex : string -> bool) (message : string) (extractor : T -> string) : ValidationBuilder -> ValidationBuilder :=
  Add (λ obj, check fieldName message "pattern" (regex (extractor obj))).
Definition Range (fieldName : string) (min max : Z) (extractor : T -> Z) : ValidationBuilder -> ValidationBuilder :=
  Add (λ obj, check fieldName ("value must be between " +:+ pretty min +:+ " and " +:+ pretty max) "range" (negb ((extractor obj <? min) || (max <? extractor obj)))).
Definition OneOf {A} `{EqDecision A} (fieldName : string) (allowedValues : list A) (message : string) (extractor : T -> A) : ValidationBuilder -> ValidationBuilder :=
  Add (λ obj, check fieldName message "one_of" (bool_decide (extractor obj ∈ allowedValues))).
Definition Conditional (condition : T -> bool) (validator : Validator) : ValidationBuilder -> ValidationBuilder :=
  Add (λ obj, if condition obj then validator obj else NewValidationResult).

(** What the validator of [Build] does. *)
Definition runBuilt (vb : ValidationBuilder) (obj : T) : ValidationResult :=
  foldl (λ result validator, Combine (validator obj) result) NewValidationResult (validators vb).

(** [ValidationPipeline.Execute] *)
Fixpoint executePipeline (stopOnFirstError : bool) (validators : list Validator) (obj : T) (result : ValidationResult) : ValidationResult :=
  match validators with
  | [] => result
  | validator :: validators =>
      let validationResult := validator obj in
      let result := Combine validationResult result in
      if stopOnFirstError && negb (Valid validationResult) then result
      else executePipeline stopOnFirstError validators obj result
  end.

Definition Execute (stopOnFirstError : bool) (validators : list Validator) (obj : T) : ValidationResult :=
  executePipeline stopOnFirstError validators obj NewValidationResult.

(** [ConditionalValidator.Validate] *)
Fixpoint validateConditional (conditions : list ((T -> bool) * Validator)) (defaultValidator : option Validator) (obj : T) : ValidationResult :=
  match conditions with
  | [] => match defaultValidator with Some v => v obj | None => NewValidationResult end
  | rule :: conditions => if rule.1 obj then rule.2 obj else validateConditional conditions defaultValidator obj
  end.

(** *** Predefined validators *)

Definition NotEmpty (fieldName : string) (extractor : T -> string) : Validator :=
  λ obj, check fieldName "field cannot be empty" "not_empty" (negb (String.eqb (TrimSpace (extractor obj)) "")).
Definition PositiveNumber (fieldName : string) (extractor : T -> Z) : Validator :=
  λ obj, check fieldName "value must be positive" "positive" (negb (extractor obj <=? 0)).
Definition InFuture (now : Time) (fieldName : string) (extractor : T -> Time) : Validator :=
  λ obj, check fieldName "time must be in the future" "future" (time_After (extractor obj) now).
Definition InPast (now : Time) (fieldName : string) (extractor : T -> Time) : Validator :=
  λ obj, check fieldName "time must be in the past" "past" (time_Before (extractor obj) now).

Fixpoint uniqueLoop {E} `{Countable E} (seen : gset E) (values : list E) : bool :=
  match values with
  | [] => true
  | value :: values => if bool_decide (value ∈ seen) then false else uniqueLoop ({[value]} ∪ seen) values
  end.
Definition ValidateUniqueSlice {E} `{Countable E} (fieldName : string) (extractor : T -> list E) : Validator :=
  λ obj, check fieldName "duplicate values are not allowed" "unique" (uniqueLoop ∅ (extractor obj)).
End validators.

(** ** Passwords and addresses *)

Definition between (lo hi : nat) (a : ascii) : bool := let n := nat_of_ascii a in ((lo <=? n) && (n <=? hi))%nat.
Definition isUpper : ascii -> bool := between 65 90.
Definition isLower : ascii -> bool := between 97 122.
Definition isDigit : ascii -> bool := between 48 57.
Definition isLetter (a : ascii) : bool := isUpper a || isLower a.

(** The bytes of a class of special characters; the doubled quote is byte 34. *)
Definition isSpecial (a : ascii) : bool := Ascii.eqb a (ascii_of_nat 34) || has_byte a "!@#$%^&*()_+-=[]{};':\|,.<>/?".

Fixpoint some_byte (f : ascii -> bool) (s : string) : bool :=
  match s with
  | EmptyString => false
  | String a s => f a || some_byte f s
  end.

Definition PasswordStrength {T} (fieldName : string) (extractor : T -> string) : Validator (T := T) := λ obj,
  let password := extractor obj in
  let result := NewValidationResult in
  let result := if (String.length password <? 8)%nat then AddError fieldName "password must be at least 8 characters long" "password_length" result else result in
  let result := if negb (some_byte isUpper password) then AddError fieldName "password must contain at least one uppercase letter" "password_uppercase" result else result in
  let result := if negb (some_byte isLower password) then AddError fieldName "password must contain at least one lowercase letter" "password_lowercase" result else result in
  let result := if negb (some_byte isDigit password) then AddError fieldName "password must contain at least one digit" "password_digit" result else result in
  if negb (some_byte isSpecial password) then AddError fieldName "password must contain at least one special character" "password_special" result else result.

(** The expression for mail addresses: a local part, [@], a host, a dot, and at
    least two letters.  The local part has no [@], and the letters no dot, so the
    first [@] and the last dot are where they must be. *)
Definition emailRegex (s : string) : bool :=
  match cut "@" s with
  | Some (local, domain) =>
      match cutLast "." domain with
      | Some (host, tld) =>
          negb (String.eqb local "") && all_bytes (λ a, isLetter a || isDigit a || has_byte a "._%+-") local &&
          negb (String.eqb host "") && all_bytes (λ a, isLetter a || isDigit a || has_byte a ".-") host &&
          (2 <=? String.length tld)%nat && all_bytes isLetter tld
      | None => false
      end
  | None => false
  end.

Definition Email {T} (fieldName : string) (extractor : T -> string) : ValidationBuilder -> ValidationBuilder :=
  Add (λ obj, check fieldName "invalid email format" "email" (String.eqb (extractor obj) "" || emailRegex (extractor obj))).

(** ** Struct tags *)

#[local] Set Warnings "-register-all".

(** A value as reflection sees it. *)
Inductive Value :=
| VBool (b : bool)
| VInt (z : Z)
| VUint (z : Z)
| VFloat (f : float64)
| VString (s : string)
| VSlice (isNil : bool) (length : nat)
| VArray (elems : list Value)
| VStruct (fields : list Value)
| VPointer (isNil : bool).

(** [Value.IsZero] *)
Fixpoint isZeroReflectValue (v : Value) : bool :=
  match v with
  | VBool b => negb b
  | VInt z => z =? 0
  | VUint z => z =? 0
  | VFloat f => f64_eqb f f64_zero
  | VString s => String.eqb s ""
  | VSlice isNil _ => isNil
  | VArray elems => forallb isZeroReflectValue elems
  | VStruct fields => forallb isZeroReflectValue fields
  | VPointer isNil => isNil
  end.

Definition validateMinReflectValue (value : Value) (minVal : Z) : bool :=
  match value with
  | VInt z => minVal <=? z
  | VUint z => minVal <=? wrap64 z
  | VFloat f => minVal <=? f64_to_int f
  | VString s => minVal <=? Z.of_nat (String.length s)
  | VSlice _ n => minVal <=? Z.of_nat n
  | VArray l => minVal <=? Z.of_nat (length l)
  | _ => true
  end.

Definition validateMaxReflectValue (value : Value) (maxVal : Z) : bool :=
  match value with
  | VInt z => z <=? maxVal
  | VUint z => wrap64 z <=? maxVal
  | VFloat f => f64_to_int f <=? maxVal
  | VString s => Z.of_nat (String.length s) <=? maxVal
  | VSlice _ n => Z.of_nat n <=? maxVal
  | VArray l => Z.of_nat (length l) <=? maxVal
  | _ => true
  end.

(** One rule of a tag; rules that are not known, or whose number cannot be read,
    are passed over.  Rule [url], which asks net/url, is left out. *)
Definition applyRule (fieldName : string) (fieldValue : Value) (rule : string) (result : ValidationResult) : ValidationResult :=
  let parts := Split "=" (TrimSpace rule) in
  let ruleName := default "" (head parts) in
  let ruleValue := default "" (parts !! 1%nat) in
  if String.eqb ruleName "required" then
    if isZeroReflectValue fieldValue then AddError fieldName "field is required" "required" result else result
  else if String.eqb ruleName "min" then
    match Atoi ruleValue with
    | Some minVal => if negb (validateMinReflectValue fieldValue minVal)
        then AddError fieldName ("minimum value is " +:+ pretty minVal) "min" result else result
    | None => result
    end
  else if String.eqb ruleName "max" then
    match Atoi ruleValue with
    | Some maxVal => if negb (validateMaxReflectValue fieldValue maxVal)
        then AddError fieldName ("maximum value is " +:+ pretty maxVal) "max" result else result
    | None => result
    end
  else if String.eqb ruleName "email" then
    match fieldValue with
    | VString s => if negb (emailRegex s) then AddError fieldName "invalid email format" "email" result else result
    | _ => result
    end
  else result.

Definition validateTag (fieldName : string) (fieldValue : Value) (tag : string) : ValidationResult :=
  foldl (λ result rule, applyRule fieldName fieldValue rule result) NewValidationResult (Split "," tag).

(** The fields of a struct type with their values. *)
Record StructField := mkField { Name : string; exported : bool; Tag : string; value : Value }.

(** [Field] appends to the validators of a name. *)
Abbreviation StructValidator := (gmap string (list (Value -> ValidationResult))).
Definition NewStructValidator : StructValidator := ∅.
Definition Field_ (fieldName : string) (validators : list (Value -> ValidationResult)) (sv : StructValidator) : StructValidator :=
  <[fieldName := default [] (sv !! fieldName) ++ validators]> sv.

Definition validateField (sv : StructValidator) (result : ValidationResult) (f : StructField) : ValidationResult :=
  if negb (exported f) then result
  else
    let result := if String.eqb (Tag f) "" then result else Combine (validateTag (Name f) (value f) (Tag f)) result in
    foldl (λ result v, Combine (v (value f)) result) result (default [] (sv !! Name f)).

(** [None] is a value that is not a struct, after one pointer is followed. *)
Definition Validate (sv : StructValidator) (obj : option (list StructField)) : ValidationResult :=
  match obj with
  | Some fields => foldl (validateField sv) NewValidationResult fields
  | None => AddError "" "value must be a struct" "type_error" NewValidationResult
  end.

(** ** What the combinations do *)

(** Results that the package builds: valid exactly without errors. *)
Definition coherent (vr : ValidationResult) : Prop := Valid vr = true <-> Errors vr = [].

Lemma AddError_coherent f m c vr : coherent (AddError f m c vr).
Proof. unfold coherent, AddError. cbn. split; [done |]. by destruct (Errors vr). Qed.

Lemma Combine_coherent other vr : coherent other -> coherent vr -> coherent (Combine other vr).
Proof.
  unfold coherent, Combine. intros Ho Hv. destruct (Valid other); cbn; [done |]. split; [done |].
  intros [_ E]%app_eq_nil. by apply Ho in E.
Qed.

Lemma coherent_errors vr : coherent vr -> vr = mkValidation (bool_decide (Errors vr = [])) (Errors vr).
Proof.
  unfold coherent. destruct vr as [[] l]; cbn; intros H; f_equal; symmetry;
    [by apply bool_decide_eq_true, H | apply bool_decide_eq_false; intros E; by apply H in E].
Qed.

(** Combining appends the errors. *)
Lemma Combine_errors other vr : coherent other -> Errors (Combine other vr) = Errors vr ++ Errors other.
Proof.
  unfold coherent, Combine. intros Ho. destruct (Valid other); cbn; [| done]. by rewrite (proj1 Ho eq_refl), app_nil_r.
Qed.

Lemma combined_fold {B} (f : B -> ValidationResult) l vr : coherent vr -> Forall (λ b, coherent (f b)) l ->
  let r := foldl (λ result b, Combine (f b) result) vr l in coherent r /\ Errors r = Errors vr ++ (l ≫= λ b, Errors (f b)).
Proof.
  intros Hv Hf. cbn zeta. revert vr Hv. induction Hf as [| b l Hb _ IH]; intros vr Hv; cbn [foldl]; [by rewrite app_nil_r |].
  destruct (IH (Combine (f b) vr)) as [Hc E]; [by apply Combine_coherent |]. split; [done |].
  by rewrite E, Combine_errors, <- app_assoc.
Qed.

Lemma bind_nil_Forall {A B} (f : A -> list B) l : l ≫= f = [] <-> Forall (λ a, f a = []) l.
Proof.
  induction l as [| a l IH]; [by split |]. rewrite bind_cons, Forall_cons, <- IH. split; [by intros ?%app_eq_nil |].
  by intros [-> ->].
Qed.

Lemma check_coherent f m c good : coherent (check f m c good).
Proof. destruct good; [done | apply AddError_coherent]. Qed.

Lemma applyRule_coherent n v rule result : coherent result -> coherent (applyRule n v rule result).
Proof.
  intros Hr. unfold applyRule. repeat case_match; try done; apply AddError_coherent.
Qed.

Lemma validateTag_coherent n v tag : coherent (validateTag n v tag).
Proof.
  unfold validateTag. assert (forall l r, coherent r -> coherent (foldl (λ result rule, applyRule n v rule result) r l)) as H; [| by apply H].
  intros l. induction l as [| rule l IH]; intros r Hr; [done |]. by apply IH, applyRule_coherent.
Qed.

(** The errors of a field. *)
Definition fieldErrors (sv : StructValidator) (f : StructField) : list ValidationError :=
  if exported f
  then (if String.eqb (Tag f) "" then [] else Errors (validateTag (Name f) (value f) (Tag f))) ++
    (default [] (sv !! Name f) ≫= λ v, Errors (v (value f)))
  else [].

Lemma validateField_spec sv result f : coherent result -> map_Forall (λ _ vs, Forall (λ v, forall x, coherent (v x)) vs) sv ->
  coherent (validateField sv result f) /\ Errors (validateField sv result f) = Errors result ++ fieldErrors sv f.
Proof.
  intros Hr Hsv. unfold validateField, fieldErrors. destruct (exported f); cbn [negb]; [| by rewrite app_nil_r].
  set (r1 := if String.eqb (Tag f) "" then result else Combine (validateTag (Name f) (value f) (Tag f)) result).
  assert (coherent r1 /\ Errors r1 = Errors result ++ (if String.eqb (Tag f) "" then [] else Errors (validateTag (Name f) (value f) (Tag f)))) as [Hc1 E1].
  { unfold r1. destruct (String.eqb (Tag f) ""); [by rewrite app_nil_r |].
    split; [apply Combine_coherent; [apply validateTag_coherent | done] | apply Combine_errors, validateTag_coherent]. }
  clearbody r1. rewrite app_assoc, <- E1.
  assert (Forall (λ v : Value -> ValidationResult, forall x, coherent (v x)) (default [] (sv !! Name f))) as Hvs.
  { destruct (sv !! Name f) as [vs |] eqn:E; cbn; [by apply (Hsv (Name f)) | constructor]. }
  apply (combined_fold (λ v : Value -> ValidationResult, v (value f))); [done |].
  eapply Forall_impl; [exact Hvs |]. intros v Hv. apply Hv.
Qed.

Lemma Validate_spec sv fields : map_Forall (λ _ vs, Forall (λ v, forall x, coherent (v x)) vs) sv ->
  coherent (Validate sv (Some fields)) /\ Errors (Validate sv (Some fields)) = fields ≫= fieldErrors sv.
Proof.
  intros Hsv. unfold Validate. assert (forall r, coherent r -> coherent (foldl (validateField sv) r fields) /\
    Errors (foldl (validateField sv) r fields) = Errors r ++ (fields ≫= fieldErrors sv)) as H; [| by apply (H NewValidationResult)].
  induction fields as [| f fields IH]; intros r Hr; cbn [foldl]; [by rewrite app_nil_r |].
  destruct (validateField_spec sv r f Hr Hsv) as [Hc E]. destruct (IH _ Hc) as [Hc' E']. split; [done |].
  by rewrite E', E, bind_cons, app_assoc.
Qed.

(** A pipeline that does not stop is a builder. *)
Lemma pipeline_false {T} (vs : list (Validator (T := T))) obj r :
  executePipeline false vs obj r = foldl (λ result v, Combine (v obj) result) r vs.
Proof. revert r. induction vs as [| v vs IH]; intros r; cbn; [done |]. apply IH. Qed.

(** One that stops has the errors of the first validator that fails. *)
Lemma pipeline_true {T} (vs : list (Validator (T := T))) obj :
  (Forall (λ v, Valid (v obj) = true) vs /\ executePipeline true vs obj NewValidationResult = NewValidationResult) \/
  exists l v k, vs = l ++ v :: k /\ Forall (λ v, Valid (v obj) = true) l /\ Valid (v obj) = false /\
    executePipeline true vs obj NewValidationResult = mkValidation false (Errors (v obj)).
Proof.
  induction vs as [| v vs IH]; [by left; split |]. cbn [executePipeline]. unfold Combine.
  destruct (Valid (v obj)) eqn:E; cbn [negb andb].
  - destruct IH as [[Hf E'] | (l & w & k & -> & Hl & Hw & E')]; [left; by split; [constructor |] |].
    right. exists (v :: l), w, k. split; [done |]. split; [by constructor | done].
  - right. exists [], v, vs. done.
Qed.

(** Validators combine soundly: the validator of a builder reports the errors
    of all its validators, in order, and accepts exactly what all of them accept;
    a pipeline does the same, or stops after the first one that fails; the first
    condition that holds chooses the validator; and a struct is reported the
    errors of the tags and validators of its exported fields, field by field. *)
Theorem validation_combines {T} (vs : list (Validator (T := T))) (obj : T) (sv : StructValidator) (fields : list StructField) :
  Forall (λ v, coherent (v obj)) vs -> map_Forall (λ _ vs, Forall (λ v, forall x, coherent (v x)) vs) sv ->
  (let r := runBuilt (mkBuilder vs) obj in
   Errors r = (vs ≫= λ v, Errors (v obj)) /\ (Valid r = true <-> Forall (λ v, Valid (v obj) = true) vs)) /\
  Execute false vs obj = runBuilt (mkBuilder vs) obj /\
  (let r := Execute true vs obj in
   (Valid r = true <-> Forall (λ v, Valid (v obj) = true) vs) /\
   (Valid r = false -> exists l v k, vs = l ++ v :: k /\ Forall (λ v, Valid (v obj) = true) l /\ Errors r = Errors (v obj))) /\
  (let r := Validate sv (Some fields) in
   Errors r = (fields ≫= fieldErrors sv) /\ (Valid r = true <-> Forall (λ f, fieldErrors sv f = []) fields)).
Proof.
  intros Hvs Hsv. destruct (combined_fold (λ v, v obj) vs NewValidationResult) as [Hc E]; [done | done |]. cbn [Errors NewValidationResult app] in E.
  assert (Forall (λ v, Valid (v obj) = true) vs <-> Forall (λ v, Errors (v obj) = []) vs) as Hiff.
  { rewrite !Forall_forall in *. split; intros H v Hin; by apply (Hvs v Hin), H. }
  destruct (Validate_spec sv fields Hsv) as [Hcv Ev].
  split; [| split; [| split]].
  - unfold runBuilt. cbn [validators]. split; [done |]. rewrite Hiff, <- (bind_nil_Forall (λ v, Errors (v obj))), <- E. apply Hc.
  - apply pipeline_false.
  - unfold Execute. destruct (pipeline_true vs obj) as [[Hf ->] | (l & v & k & -> & Hl & Hv & ->)]; cbn [Valid].
    + by split.
    + split; [| intros _; by exists l, v, k]. split; [done |]. rewrite Forall_app, Forall_cons. intros (_ & ? & _). congruence.
  - split; [done |]. rewrite <- bind_nil_Forall, <- Ev. apply Hcv.
Qed.

(** A field with a tag and a validator of its own. *)
Definition portField (port : Z) : StructField := mkField "Port" true "required, min=1, max=65535" (VInt port).
Definition evenPort : StructValidator :=
  Field_ "Port" [λ v, check "Port" "must be even" "even" (match v with VInt z => Z.even z | _ => true end)] NewStructValidator.

Lemma evenPort_coherent : map_Forall (λ _ vs, Forall (λ v, forall x, coherent (v x)) vs) evenPort.
Proof.
  apply map_Forall_insert_2; [| apply map_Forall_empty]. constructor; [| constructor]. intros x. apply check_coherent.
Qed.

Lemma validation_combines_witness :
  Code <$> Errors (Validate evenPort (Some [portField 0])) = ["required"; "min"] /\
  Errors (Validate evenPort (Some [portField 70001])) = ([portField 70001] ≫= fieldErrors evenPort).
Proof.
  split; [by vm_compute |].
  destruct (validation_combines [NotEmpty "name" (λ s : string, s)] "x" evenPort [portField 70001]) as (_ & _ & _ & H & _).
  - constructor; [apply check_coherent | constructor].
  - exact evenPort_coherent.
  - exact H.
Defined.

(** *** What some rules mean *)

Lemma uniqueLoop_spec {E} `{Countable E} (seen : gset E) values :
  uniqueLoop seen values = true <-> NoDup values /\ forall x, x ∈ values -> x ∉ seen.
Proof.
  revert seen. induction values as [| v values IH]; intros seen; cbn [uniqueLoop].
  - split; [intros _; split; [constructor | by intros ? ?%not_elem_of_nil] | done].
  - rewrite NoDup_cons. case_bool_decide as Hv.
    + split; [done |]. intros [_ Hs]. exfalso. apply (Hs v); [by left | done].
    + rewrite IH. setoid_rewrite elem_of_cons. setoid_rewrite elem_of_union. setoid_rewrite elem_of_singleton. naive_solver.
Qed.

Lemma ValidateUniqueSlice_spec {T E} `{Countable E} f (extractor : T -> list E) obj :
  Valid (ValidateUniqueSlice f extractor obj) = true <-> NoDup (extractor obj).
Proof.
  unfold ValidateUniqueSlice, check. assert (uniqueLoop ∅ (extractor obj) = true <-> NoDup (extractor obj)) as <-.
  { rewrite uniqueLoop_spec. split; [by intros [? _] |]. intros Hn. split; [done |]. intros x _. apply not_elem_of_empty. }
  by destruct (uniqueLoop _ _).
Qed.

(** A float is truncated before it is compared, and a large unsigned number is
    taken for a negative one: both pass a maximum they exceed. *)
Example maximum_is_exceeded :
  validateMaxReflectValue (VFloat (f64_ratio 109 10)) 10 = true /\
  validateMaxReflectValue (VUint (2 ^ 64 - 1)) 10 = true.
Proof. by vm_compute. Qed.

(** A rule whose number cannot be read is passed over. *)
Example unreadable_rule : Errors (validateTag "n" (VInt 5) "min=1O") = [].
Proof. by vm_compute. Qed.

Example email_examples :
  emailRegex "a.b@c.org" = true /\ emailRegex "a@b" = false /\ emailRegex "@b.org" = false /\ emailRegex "a@b.c" = false.
Proof. by vm_compute. Qed.
