(* ===== verification/GenericsEvents.v ===== *)
(** * GenericsEvents: generics/events.go

    The typed event bus with its filters, middlewares and handlers, its streams,
    aggregators, routes and the event store in memory.  Handlers and middlewares
    act on the state of the program, a parameter.  An event is a struct, but its
    metadata are a map, which the copies of an event share: maps live in a store. *)

From S2P Require Import Prelude.
From S2P Require Import GenericsResult.

Local Open Scope Z_scope.

(** ** Events *)

Record Event (T : Type) := mkEvent {
  ID : string;
  Type_ : string;
  Timestamp : Time;
  Data : T;
  Metadata : nat
}.
Arguments mkEvent {T} _ _ _ _ _.
Arguments ID {T} _.
Arguments Type_ {T} _.
Arguments Timestamp {T} _.
Arguments Data {T} _.
Arguments Metadata {T} _.

Abbreviation MetadataMaps := (list (gmap string any)).

Definition NewEvent {T} (now : Time) (id eventType : string) (data : T) (maps : MetadataMaps) : Event T * MetadataMaps :=
  (mkEvent id eventType now data (length maps), maps ++ [∅]).

Definition WithMetadata {T} (key : string) (value : any) (e : Event T) (maps : MetadataMaps) : Event T * MetadataMaps :=
  (e, alter (insert key value) (Metadata e) maps).

(** *** Filters *)

Section filters.
Context {T : Type}.

Definition EventFilter : Type := Event T -> bool.

Definition TypeFilter (eventTypes : list string) : EventFilter := λ e, bool_decide (Type_ e ∈ (list_to_set eventTypes : gset string)).
Definition TimeRangeFilter (start end_ : Time) : EventFilter := λ e, time_After (Timestamp e) start && time_Before (Timestamp e) end_.
Definition MetadataFilter (eq_any : any -> any -> bool) (maps : MetadataMaps) (key : string) (value : any) : EventFilter := λ e,
  match maps !! Metadata e ≫= lookup key with
  | Some v => eq_any v value
  | None => false
  end.
End filters.

(** ** Publishing *)

Inductive BusError := BusClosed | BufferFull | StreamClosed | StreamFull | NoRoute (name : string) | Failed (message : string).

#[export] Instance zero_error : Zero BusError := Failed "".

Section bus.
Context {T W : Type} `{Zero T}.

#[local] Instance zero_event : Zero (Event T) := mkEvent "" "" 0 zero 0.

(** A handler and a middleware act on the state of the program. *)
Definition EventHandler : Type := Event T -> W -> W * Result bool BusError.
Definition EventMiddleware : Type := Event T -> W -> W * Result (Event T) BusError.

Record Subscriptions := mkSubscriptions {
  handlers : list EventHandler;
  filters : list (EventFilter (T := T));
  middlewares : list EventMiddleware
}.

Definition Subscribe (handler : EventHandler) (s : Subscriptions) : Subscriptions :=
  mkSubscriptions (handlers s ++ [handler]) (filters s) (middlewares s).
Definition SubscribeWithFilter (handler : EventHandler) (filter : EventFilter) (s : Subscriptions) : Subscriptions :=
  Subscribe (λ e w, if negb (filter e) then (w, Ok true) else handler e w) s.
Definition AddFilter (filter : EventFilter) (s : Subscriptions) : Subscriptions :=
  mkSubscriptions (handlers s) (filters s ++ [filter]) (middlewares s).
Definition AddMiddleware (middleware : EventMiddleware) (s : Subscriptions) : Subscriptions :=
  mkSubscriptions (handlers s) (filters s) (middlewares s ++ [middleware]).

Fixpoint applyMiddlewares (ms : list EventMiddleware) (e : Event T) (w : W) : W * Result (Event T) BusError :=
  match ms with
  | [] => (w, Ok e)
  | m :: ms =>
      let '(w, r) := m e w in
      if IsErr r then (w, Err (err r)) else applyMiddlewares ms (value r) w
  end.

Fixpoint runHandlers (hs : list EventHandler) (e : Event T) (results : list bool) (w : W) : W * Result (list bool) BusError :=
  match hs with
  | [] => (w, Ok results)
  | h :: hs =>
      let '(w, r) := h e w in
      if IsErr r then (w, Err (err r)) else runHandlers hs e (results ++ [value r]) w
  end.

Definition PublishSync (s : Subscriptions) (e : Event T) (w : W) : W * Result (list bool) BusError :=
  if negb (forallb (λ f, f e) (filters s)) then (w, Ok [])
  else
    let '(w, r) := applyMiddlewares (middlewares s) e w in
    if IsErr r then (w, Err (err r)) else runHandlers (handlers s) (value r) [] w.

(** The handlers up to the first that fails, in order. *)
Inductive delivered : list EventHandler -> Event T -> W -> W -> list bool -> option BusError -> Prop :=
| delivered_all e w : delivered [] e w w [] None
| delivered_error h hs e w w' r : h e w = (w', r) -> ok r = false -> delivered (h :: hs) e w w' [] (Some (err r))
| delivered_ok h hs e w w' w'' r l o : h e w = (w', r) -> ok r = true -> delivered hs e w' w'' l o ->
    delivered (h :: hs) e w w'' (value r :: l) o.

Lemma runHandlers_spec hs e results w : let '(w', r) := runHandlers hs e results w in
  exists l o, delivered hs e w w' l o /\
    r = match o with None => Ok (results ++ l) | Some x => Err x end /\ (length l <= length hs)%nat /\ (o = None -> length l = length hs).
Proof.
  revert results w. induction hs as [| h hs IH]; intros results w; cbn.
  - exists [], None. split; [constructor |]. by rewrite app_nil_r.
  - destruct (h e w) as [w1 r1] eqn:Eh. unfold IsErr. destruct (ok r1) eqn:Eo; cbn.
    + specialize (IH (results ++ [value r1]) w1). destruct (runHandlers hs e (results ++ [value r1]) w1) as [w' r].
      destruct IH as (l & o & Hd & -> & Hl & Hn). exists (value r1 :: l), o. split; [by eapply delivered_ok |].
      rewrite <- app_assoc. split; [done |]. cbn. split; [lia |]. intros E. specialize (Hn E). lia.
    + exists [], (Some (err r1)). split; [by eapply delivered_error |]. cbn. split; [done |]. split; [lia | done].
Qed.
End bus.

Section publishing.
Context {T W : Type} `{Zero T}.

#[local] Existing Instance zero_event.

(** Publishing in step: an event that a filter refuses reaches nobody; an
    event that a middleware refuses reaches no handler; otherwise the handlers
    receive the event that the middlewares made of it, one after the other in the
    order of subscription, up to the first that fails, whose error is returned
    and behind which no handler learns of the event. *)
Theorem handlers_up_to_failure (s : Subscriptions (T := T) (W := W)) (e : Event T) (w : W) :
  let '(w', r) := PublishSync s e w in
  (exists f, f ∈ filters s /\ f e = false /\ w' = w /\ r = Ok []) \/
  (Forall (λ f, f e = true) (filters s) /\
   let '(w1, r1) := applyMiddlewares (middlewares s) e w in
   (ok r1 = false /\ w' = w1 /\ r = Err (err r1)) \/
   (ok r1 = true /\ exists l o, delivered (handlers s) (value r1) w1 w' l o /\
      r = match o with None => Ok l | Some x => Err x end /\ (o = None -> length l = length (handlers s)))).
Proof.
  unfold PublishSync. destruct (forallb (λ f, f e) (filters s)) eqn:Ef; cbn [negb].
  - assert (Forall (λ f, f e = true) (filters s)) as Hf.
    { apply Forall_forall. intros f Hin. rewrite forallb_forall in Ef. by apply Ef, list_elem_of_In. }
    destruct (applyMiddlewares (middlewares s) e w) as [w1 r1]. unfold IsErr. destruct (ok r1) eqn:Eo; cbn [negb].
    + pose proof (runHandlers_spec (handlers s) (value r1) [] w1) as H1. destruct (runHandlers (handlers s) (value r1) [] w1) as [w' r].
      right. split; [done |]. right. split; [done |]. destruct H1 as (l & o & Hd & -> & _ & Hn). by exists l, o.
    + right. split; [done |]. by left.
  - left. assert (exists f, f ∈ filters s /\ f e = false) as (f & Hf & Hfe).
    { clear -Ef. induction (filters s) as [| f l IH]; [done |]. cbn in Ef. destruct (f e) eqn:E; [| exists f; split; [by left | done]].
      destruct (IH Ef) as (g & ? & ?). exists g. by split; [right |]. }
    by exists f.
Qed.

(** Whatever is subscribed behind a handler that fails, it is not asked. *)
Lemma silenced hs h hs' (e : Event T) results (w : W) : (forall w, ok (h e w).2 = false) ->
  runHandlers (hs ++ h :: hs') e results w = runHandlers (hs ++ [h]) e results w.
Proof.
  intros Hf. revert results w. induction hs as [| g hs IH]; intros results w; cbn.
  - specialize (Hf w). destruct (h e w) as [w' r]. cbn in Hf. unfold IsErr. by rewrite Hf.
  - destruct (g e w) as [w' r]. destruct (IsErr r); [done |]. apply IH.
Qed.
End publishing.

(** ** Streams *)

Module Stream.
Section stream.
Context {T : Type}.

Record EventStream := mkStream { subscriber : list (Event T); bufferSize : nat; filters : list (EventFilter (T := T)); closed : bool }.

Definition NewEventStream (bufferSize : nat) : EventStream := mkStream [] bufferSize [] false.
Definition AddFilter (f : EventFilter) (es : EventStream) : EventStream :=
  mkStream (subscriber es) (bufferSize es) (filters es ++ [f]) (closed es).

(** When the stream is closed both its context and the send are ready, and
    [select] takes either; the send panics. *)
Definition handleEvent (sends : bool) (e : Event T) (es : EventStream) : outcome (EventStream * Result bool BusError) :=
  if negb (forallb (λ f, f e) (filters es)) then Returns (es, Ok true)
  else if closed es then
    if sends then Panics (AnyString "send on closed channel") else Returns (es, Err StreamClosed)
  else if (length (subscriber es) <? bufferSize es)%nat
  then Returns (mkStream (subscriber es ++ [e]) (bufferSize es) (filters es) false, Ok true)
  else Returns (es, Err StreamFull).

(** [None] is the panic of the second call. *)
Definition Close (es : EventStream) : option EventStream :=
  if closed es then None else Some (mkStream (subscriber es) (bufferSize es) (filters es) true).

(** A stream is a handler that fails once its buffer is full. *)
Lemma full_stream_fails sends e es : forallb (λ f, f e) (filters es) = true -> closed es = false ->
  (bufferSize es <= length (subscriber es))%nat -> handleEvent sends e es = Returns (es, Err StreamFull).
Proof.
  intros Hf Hc Hl. unfold handleEvent. rewrite Hf, Hc. cbn [negb]. destruct (Nat.ltb_spec (length (subscriber es)) (bufferSize es)); [lia | done].
Qed.
End stream.
End Stream.

(** ** The buffer and the workers *)

Module Bus.

Inductive WorkerState := Idle | Busy (e : nat) | Exited.

(** [closed] is the state of the context, [bufferClosed] that of the channel.  The
    last fields record what was accepted, taken by a worker, and processed. *)
Record EventBus := mkBus {
  buffer : list nat;
  bufferSize : nat;
  workers : list WorkerState;
  closed : bool;
  bufferClosed : bool;
  accepted : list nat;
  started : list nat;
  processed : list nat
}.

Record EventBusConfig := mkConfig { BufferSize : nat; WorkerCount : nat }.

Definition NewEventBus (config : EventBusConfig) : EventBus :=
  mkBus [] (if (BufferSize config =? 0)%nat then 100 else BufferSize config)
    (replicate (if (WorkerCount config =? 0)%nat then 3 else WorkerCount config) Idle) false false [] [] [].

(** The event is accepted, or refused for one of two reasons. *)
Inductive step : EventBus -> EventBus -> Prop :=
| publish b n ws c acc st pr e : (length b < n)%nat ->
    step (mkBus b n ws c false acc st pr) (mkBus (b ++ [e]) n ws c false (acc ++ [e]) st pr)
| take_event b n ws c bc acc st pr i e : ws !! i = Some Idle ->
    step (mkBus (e :: b) n ws c bc acc st pr) (mkBus b n (<[i := Busy e]> ws) c bc acc (st ++ [e]) pr)
| process b n ws c bc acc st pr i e : ws !! i = Some (Busy e) ->
    step (mkBus b n ws c bc acc st pr) (mkBus b n (<[i := Idle]> ws) c bc acc st (pr ++ [e]))
| exit b n ws bc acc st pr i : ws !! i = Some Idle ->
    step (mkBus b n ws true bc acc st pr) (mkBus b n (<[i := Exited]> ws) true bc acc st pr)
| close_context b n ws c bc acc st pr :
    step (mkBus b n ws c bc acc st pr) (mkBus b n ws true bc acc st pr)
| close_buffer b n ws acc st pr : Forall (eq Exited) ws ->
    step (mkBus b n ws true false acc st pr) (mkBus b n ws true true acc st pr).

Definition inWorker (w : WorkerState) : list nat := match w with Busy e => [e] | _ => [] end.

Record Inv (s : EventBus) : Prop := {
  inv_order : started s ++ buffer s = accepted s;
  inv_started : started s ≡ₚ (workers s ≫= inWorker) ++ processed s;
  inv_room : (length (buffer s) <= bufferSize s)%nat;
  inv_closed : bufferClosed s = true -> Forall (eq Exited) (workers s)
}.

Lemma exited_insert (ws : list WorkerState) i w w' : Forall (eq Exited) ws -> ws !! i = Some w -> w <> Exited -> Forall (eq Exited) (<[i := w']> ws).
Proof. intros Hf Hi Hne. by destruct Hne; symmetry; apply (Forall_lookup_1 _ _ _ _ Hf Hi). Qed.

Lemma bus_step s s' : step s s' -> Inv s -> Inv s'.
Proof.
  intros Hs [Ho Hst Hr Hc]. destruct Hs as [b n ws c acc st pr e Hl | b n ws c bc acc st pr i e Hw | b n ws c bc acc st pr i e Hw
    | b n ws bc acc st pr i Hw | b n ws c bc acc st pr | b n ws acc st pr Hf]; cbn in *.
  - split; cbn; try done; [by rewrite <- Ho, app_assoc | rewrite length_app; cbn; lia].
  - destruct (bind_insert inWorker ws i Idle (Busy e) Hw) as (rest & E1 & E2). split; cbn.
    + by rewrite <- app_assoc.
    + rewrite Hst, E1, E2. cbn. solve_Permutation.
    + lia.
    + intros E. by eapply exited_insert; [by apply Hc | exact Hw |].
  - destruct (bind_insert inWorker ws i (Busy e) Idle Hw) as (rest & E1 & E2). split; cbn; try done.
    + rewrite Hst, E1, E2. cbn. solve_Permutation.
    + intros E. by eapply exited_insert; [by apply Hc | exact Hw |].
  - destruct (bind_insert inWorker ws i Idle Exited Hw) as (rest & E1 & E2). split; cbn; try done.
    + rewrite Hst, E1, E2. done.
    + intros E. by eapply exited_insert; [by apply Hc | exact Hw |].
  - by split.
  - by split.
Qed.

Lemma bus_reachable c s : rtc step (NewEventBus c) s -> Inv s.
Proof.
  intros Hr. apply (rtc_ind_r Inv (NewEventBus c)) in Hr; [done | |].
  - split; cbn; try done; [| lia]. generalize (if (WorkerCount c =? 0)%nat then 3%nat else WorkerCount c). intros n. by induction n.
  - intros s1 s2 _ Hs HI. by eapply bus_step.
Qed.

Lemma exited_idle ws : Forall (eq Exited) ws -> ws ≫= inWorker = [].
Proof. induction 1 as [| w ws <- _ IH]; [done | exact IH]. Qed.

(** The bus delivers in order: under any interleaving of publishers, workers
    and [Close], the events that workers have taken, followed by those in the
    buffer, are the accepted events in the order of acceptance; each event that
    was taken is with one worker or has been processed once; and when [Close] has
    returned every event that was taken has been processed, and what was in the
    buffer never will be. *)
Theorem bus_delivers_in_order c s : rtc step (NewEventBus c) s ->
  started s ++ buffer s = accepted s /\ started s ≡ₚ (workers s ≫= inWorker) ++ processed s /\
  (length (buffer s) <= bufferSize s)%nat /\
  (bufferClosed s = true -> started s ≡ₚ processed s /\ forall s', rtc step s s' -> buffer s' = buffer s /\ processed s' = processed s).
Proof.
  intros Hr. pose proof (bus_reachable c s Hr) as [Ho Hst Hl Hc]. split; [done |]. split; [done |]. split; [done |].
  intros Hbc. specialize (Hc Hbc). split; [by rewrite Hst, exited_idle |]. clear - Hbc Hc. intros s' Hr.
  assert (buffer s' = buffer s /\ processed s' = processed s /\ workers s' = workers s /\ bufferClosed s' = true) as (? & ? & _); [| done].
  apply (rtc_ind_r (λ s', buffer s' = buffer s /\ processed s' = processed s /\ workers s' = workers s /\ bufferClosed s' = true) s) in Hr; [done | done |].
  intros s1 s2 _ Hs (Eb & Ep & Ew & Ec). rewrite <- Ew in Hc.
  assert (forall i w, workers s1 !! i = Some w -> w = Exited) as Hx by (intros i w Hi; symmetry; apply (Forall_lookup_1 _ _ _ _ Hc Hi)).
  destruct Hs as [| b n ws c0 bc acc st pr i e Hw | b n ws c0 bc acc st pr i e Hw | b n ws bc acc st pr i Hw | |]; cbn in *; try done;
    by specialize (Hx _ _ Hw).
Qed.

(** One worker; an event is in the buffer when the bus is closed. *)
Definition closedBus : EventBus := mkBus [8]%nat 4 [Exited] true true [7; 8]%nat [7]%nat [7]%nat.

Lemma closedBus_reachable : rtc step (NewEventBus (mkConfig 4 1)) closedBus.
Proof.
  eapply rtc_l; [apply (publish _ _ _ _ _ _ _ 7%nat); cbn; lia |]. eapply rtc_l; [by apply (take_event _ _ _ _ _ _ _ _ 0%nat) |].
  eapply rtc_l; [apply (publish _ _ _ _ _ _ _ 8%nat); cbn; lia |]. eapply rtc_l; [apply close_context |].
  eapply rtc_l; [by apply (process _ _ _ _ _ _ _ _ 0%nat 7%nat) |]. eapply rtc_l; [by apply (exit _ _ _ _ _ _ _ 0%nat) |].
  eapply rtc_l; [apply close_buffer; by repeat constructor |]. reflexivity.
Qed.

Lemma bus_delivers_in_order_witness : rtc step (NewEventBus (mkConfig 4 1)) closedBus /\
  started closedBus ++ buffer closedBus = accepted closedBus /\
  forall s', rtc step closedBus s' -> buffer s' = [8%nat].
Proof.
  split; [exact closedBus_reachable |].
  destruct (bus_delivers_in_order (mkConfig 4 1) closedBus closedBus_reachable) as (Ho & _ & _ & Hc).
  split; [exact Ho |]. intros s' Hs. apply (proj2 (Hc eq_refl) s' Hs).
Defined.
End Bus.

(** ** Routes, aggregators and the store *)

Section rest.
Context {T U : Type}.

(** [Publish] of the bus of a route; [full] and [closed] are its state. *)
Definition Publish (full closed : bool) : result BusError bool :=
  if negb full then Prelude.Ok true else if closed then Prelude.Err BusClosed else Prelude.Err BufferFull.

Definition Route (routes : gmap string nat) (router : Event T -> string) (publish : nat -> Event T -> result BusError bool)
    (e : Event T) : result BusError bool :=
  match routes !! router e with
  | None => Prelude.Err (NoRoute (router e))
  | Some bus => publish bus e
  end.

(** The aggregator with what it has handed on: the windows that were aggregated
    and published, and those whose aggregation failed. *)
Record EventAggregator := mkAggregator { window : list (Event T); outcomes : list (list (Event T) * option (Event U)) }.

Definition handleInputEvent (e : Event T) (ea : EventAggregator) : EventAggregator := mkAggregator (window ea ++ [e]) (outcomes ea).

Definition processBuffer (aggregator : list (Event T) -> option (Event U)) (ea : EventAggregator) : EventAggregator :=
  match window ea with
  | [] => ea
  | events => mkAggregator [] (outcomes ea ++ [(events, aggregator events)])
  end.

(** Every input is in one window, in order; no window is empty. *)
Lemma aggregated aggregator (steps : list (option (Event T))) :
  let ea := foldl (λ ea s, match s with Some e => handleInputEvent e ea | None => processBuffer aggregator ea end) (mkAggregator [] []) steps in
  concat (outcomes ea).*1 ++ window ea = omap id steps /\ Forall (λ o, o.1 <> [] /\ o.2 = aggregator o.1) (outcomes ea).
Proof.
  induction steps as [| s steps IH] using rev_ind; [done |]. rewrite foldl_app, omap_app. cbn [foldl].
  set (ea := foldl _ _ steps) in *. clearbody ea. destruct ea as [w l]. cbn [window outcomes] in IH. destruct IH as [<- Hf].
  destruct s as [e |]; cbn [omap list_omap id].
  - split; [| done]. cbn [handleInputEvent window outcomes]. by rewrite app_assoc.
  - rewrite app_nil_r. unfold processBuffer. destruct w as [| x w]; cbn [window outcomes]; [by split |].
    rewrite fmap_app, concat_app. cbn [fmap list_fmap concat fst]. rewrite !app_nil_r. split; [done |].
    apply Forall_app. split; [done |]. by apply Forall_singleton.
Qed.

(** [MemoryEventStore] *)
Definition Store (e : Event T) (events : list (Event T)) : list (Event T) := events ++ [e].
Definition LoadByID (id : string) (events : list (Event T)) : list (Event T) :=
  foldl (λ l e, if String.eqb (ID e) id then l ++ [e] else l) [] events.
Definition LoadByType (eventType : string) (events : list (Event T)) : list (Event T) :=
  foldl (λ l e, if String.eqb (Type_ e) eventType then l ++ [e] else l) [] events.
Definition LoadSince (timestamp : Time) (events : list (Event T)) : list (Event T) :=
  foldl (λ l e, if time_After (Timestamp e) timestamp then l ++ [e] else l) [] events.

Lemma load_filter (p : Event T -> bool) events :
  foldl (λ l e, if p e then l ++ [e] else l) [] events = filter (λ e, p e = true) events.
Proof.
  induction events as [| e events IH] using rev_ind; [done |]. rewrite foldl_app, IH, filter_app, filter_cons, filter_nil. cbn.
  destruct (p e); [by rewrite decide_True |]. rewrite decide_False by done. by rewrite app_nil_r.
Qed.

(** What is stored is loaded, by its identifier, its type and its time. *)
Lemma store_load (stored : list (Event T)) e : let events := foldl (λ l e, Store e l) [] stored in
  (e ∈ LoadByID (ID e) events <-> e ∈ stored) /\ (e ∈ LoadByType (Type_ e) events <-> e ∈ stored) /\
  (forall t, e ∈ LoadSince t events <-> e ∈ stored /\ t < Timestamp e).
Proof.
  assert (foldl (λ l e, Store e l) [] stored = stored) as -> by
    (unfold Store; induction stored as [| x l IH] using rev_ind; [done |]; by rewrite foldl_app, IH).
  unfold LoadByID, LoadByType, LoadSince. cbn zeta. split; [| split; [| intros t]].
  - rewrite (load_filter (λ x, String.eqb (ID x) (ID e))), list_elem_of_filter, String.eqb_refl. tauto.
  - rewrite (load_filter (λ x, String.eqb (Type_ x) (Type_ e))), list_elem_of_filter, String.eqb_refl. tauto.
  - rewrite (load_filter (λ x, time_After (Timestamp x) t)), list_elem_of_filter, time_After_spec. tauto.
Qed.
End rest.

(** Metadata added to a copy of an event are added to the event: both have the
    same map. *)
Lemma metadata_shared {T} (e : Event T) key value maps : (Metadata e < length maps)%nat ->
  let '(e', maps') := WithMetadata key value e maps in
  maps' !! Metadata e ≫= lookup key = Some value /\ Metadata e' = Metadata e.
Proof.
  intros Hl. cbn. split; [| done]. rewrite list_lookup_alter_eq. destruct (lookup_lt_is_Some_2 _ _ Hl) as [m ->]. cbn.
  by rewrite lookup_insert_eq.
Qed.

(** A stream that is full keeps an event from the handlers subscribed after it. *)
Definition streamHandler : EventHandler (T := Z) (W := (Stream.EventStream (T := Z) * list (Event Z))%type) := λ e w,
  match Stream.handleEvent false e w.1 with
  | Returns (es, r) => ((es, w.2), r)
  | Panics _ => (w, Err (Failed "panic"))
  end.
Definition recordHandler : EventHandler (T := Z) (W := (Stream.EventStream (T := Z) * list (Event Z))%type) := λ e w, ((w.1, w.2 ++ [e]), Ok true).

Lemma full_stream_silences : exists s (w : Stream.EventStream (T := Z) * list (Event Z)) e,
  handlers s = [streamHandler; recordHandler] /\ (PublishSync s e w).1.2 = [] /\ (PublishSync s e w).2 = Err StreamFull.
Proof.
  exists (Subscribe recordHandler (Subscribe streamHandler (mkSubscriptions [] [] []))), (Stream.NewEventStream 0, []), (mkEvent "1" "t" 5 7 0%nat).
  by vm_compute.
Qed.
