(* ===== verification/AuditTypes.v ===== *)
(** * AuditTypes: pkg/audit/types/events.go

    Audit events: their fields, validation, derived attributes and the
    builder.  The
    third-party package uuid and the address parser of package net are the
    class [EventLib].  A pointer to a context is an option; an event is a
    value, so a builder and the events it returned share nothing. *)

From S2P Require Import Prelude GoStrings.
From Stdlib Require Import Ascii.

Local Open Scope Z_scope.

(** ** Data *)

Abbreviation Severity := Z.
Abbreviation EventType := string.
Abbreviation EventResult := string.
Abbreviation ComplianceStandard := string.

Definition SeverityEmergency : Severity := 0.
Definition SeverityAlert : Severity := 1.
Definition SeverityCritical : Severity := 2.
Definition SeverityError : Severity := 3.
Definition SeverityWarning : Severity := 4.
Definition SeverityNotice : Severity := 5.
Definition SeverityInfo : Severity := 6.
Definition SeverityDebug : Severity := 7.

Definition severity_String (s : Severity) : string :=
  if s =? SeverityEmergency then "emergency"
  else if s =? SeverityAlert then "alert"
  else if s =? SeverityCritical then "critical"
  else if s =? SeverityError then "error"
  else if s =? SeverityWarning then "warning"
  else if s =? SeverityNotice then "notice"
  else if s =? SeverityInfo then "info"
  else if s =? SeverityDebug then "debug"
  else "unknown".

Definition EventTypeAuthentication : EventType := "authentication".
Definition EventTypeAuthenticationFailed : EventType := "authentication_failed".
Definition EventTypeAuthenticationSuccess : EventType := "authentication_success".
Definition EventTypeAuthorization : EventType := "authorization".
Definition EventTypeAuthorizationFailed : EventType := "authorization_failed".
Definition EventTypeAuthorizationSuccess : EventType := "authorization_success".
Definition EventTypeSessionStart : EventType := "session_start".
Definition EventTypeSessionEnd : EventType := "session_end".
Definition EventTypePasswordChange : EventType := "password_change".
Definition EventTypeTokenIssuance : EventType := "token_issuance".
Definition EventTypeTokenRevocation : EventType := "token_revocation".
Definition EventTypeDataAccess : EventType := "data_access".
Definition EventTypeDataCreate : EventType := "data_create".
Definition EventTypeDataRead : EventType := "data_read".
Definition EventTypeDataUpdate : EventType := "data_update".
Definition EventTypeDataDelete : EventType := "data_delete".
Definition EventTypeDataExport : EventType := "data_export".
Definition EventTypeDataImport : EventType := "data_import".
Definition EventTypeDataBackup : EventType := "data_backup".
Definition EventTypeDataRestore : EventType := "data_restore".
Definition EventTypeDataProcessing : EventType := "data_processing".
Definition EventTypeSystemChange : EventType := "system_change".
Definition EventTypeConfigChange : EventType := "config_change".
Definition EventTypeUserManagement : EventType := "user_management".
Definition EventTypeRoleManagement : EventType := "role_management".
Definition EventTypePolicyChange : EventType := "policy_change".
Definition EventTypeSystemStartup : EventType := "system_startup".
Definition EventTypeSystemShutdown : EventType := "system_shutdown".
Definition EventTypeServiceStart : EventType := "service_start".
Definition EventTypeServiceStop : EventType := "service_stop".
Definition EventTypeMaintenanceMode : EventType := "maintenance_mode".
Definition EventTypeSecurityViolation : EventType := "security_violation".
Definition EventTypeIntrusionAttempt : EventType := "intrusion_attempt".
Definition EventTypeMalwareDetection : EventType := "malware_detection".
Definition EventTypeAnomalyDetection : EventType := "anomaly_detection".
Definition EventTypeComplianceCheck : EventType := "compliance_check".
Definition EventTypeVulnerability : EventType := "vulnerability".
Definition EventTypeIncidentResponse : EventType := "incident_response".
Definition EventTypeNetworkAccess : EventType := "network_access".
Definition EventTypeFirewallRule : EventType := "firewall_rule".
Definition EventTypeNetworkAnomaly : EventType := "network_anomaly".
Definition EventTypeResourceAccess : EventType := "resource_access".
Definition EventTypeCapacityChange : EventType := "capacity_change".
Definition EventTypePerformanceAlert : EventType := "performance_alert".
Definition EventTypeAPICall : EventType := "api_call".
Definition EventTypeWorkflowExecution : EventType := "workflow_execution".
Definition EventTypeJobExecution : EventType := "job_execution".
Definition EventTypeDeployment : EventType := "deployment".
Definition EventTypeRollback : EventType := "rollback".
Definition EventTypeHealthCheck : EventType := "health_check".
Definition EventTypeIntentProcessing : EventType := "intent_processing".
Definition EventTypeNetworkFunction : EventType := "network_function".
Definition EventTypeRICManagement : EventType := "ric_management".
Definition EventTypeA1Interface : EventType := "a1_interface".
Definition EventTypeO1Interface : EventType := "o1_interface".
Definition EventTypeE2Interface : EventType := "e2_interface".
Definition EventTypeSliceManagement : EventType := "slice_management".

Definition ResultSuccess : EventResult := "success".
Definition ResultFailure : EventResult := "failure".
Definition ResultDenied : EventResult := "denied".
Definition ResultTimeout : EventResult := "timeout".
Definition ResultError : EventResult := "error".
Definition ResultPartial : EventResult := "partial".

Definition ComplianceSOC2 : ComplianceStandard := "soc2".
Definition ComplianceISO27001 : ComplianceStandard := "iso27001".
Definition CompliancePCIDSS : ComplianceStandard := "pci_dss".
Definition ComplianceHIPAA : ComplianceStandard := "hipaa".
Definition ComplianceGDPR : ComplianceStandard := "gdpr".
Definition ComplianceCCPA : ComplianceStandard := "ccpa".
Definition ComplianceFISMA : ComplianceStandard := "fisma".
Definition ComplianceNIST : ComplianceStandard := "nist_csf".

Record UserContext := mkUserContext {
  uc_UserID : string;
  uc_Username : string;
  uc_Email : string;
  uc_Role : string;
  uc_Groups : list string;
  uc_Permissions : list string;
  uc_SessionID : string;
  uc_ClientID : string;
  uc_ServiceAccount : bool;
  uc_AuthMethod : string;
  uc_AuthProvider : string;
  uc_Metadata : option (gmap string string)
}.

Record NetworkContext := mkNetworkContext {
  nc_SourceIP : list Z;
  nc_DestinationIP : list Z;
  nc_SourcePort : Z;
  nc_DestinationPort : Z;
  nc_Protocol : string;
  nc_UserAgent : string;
  nc_Referrer : string;
  nc_RequestID : string;
  nc_Country : string;
  nc_ASN : string;
  nc_Headers : option (gmap string string)
}.

Record SystemContext := mkSystemContext {
  sc_Hostname : string;
  sc_ProcessID : Z;
  sc_ProcessName : string;
  sc_ThreadID : Z;
  sc_ServiceName : string;
  sc_Version : string;
  sc_Environment : string;
  sc_Cluster : string;
  sc_Namespace : string;
  sc_PodName : string;
  sc_NodeName : string
}.

Record ResourceContext := mkResourceContext {
  rc_ResourceType : string;
  rc_ResourceID : string;
  rc_ResourceName : string;
  rc_Namespace : string;
  rc_APIVersion : string;
  rc_Kind : string;
  rc_Operation : string;
  rc_Path : string;
  rc_Query : option (gmap string string);
  rc_Tags : option (gmap string string)
}.

Record AuditEvent := mkAuditEvent {
  ev_ID : string;
  ev_Version : string;
  ev_Timestamp : Time;
  ev_EventType : EventType;
  ev_Category : string;
  ev_Severity : Severity;
  ev_Result : EventResult;
  ev_Component : string;
  ev_Action : string;
  ev_Description : string;
  ev_Message : string;
  ev_UserContext : option UserContext;
  ev_NetworkContext : option NetworkContext;
  ev_SystemContext : option SystemContext;
  ev_ResourceContext : option ResourceContext;
  ev_Data : option (gmap string any);
  ev_RiskLevel : string;
  ev_ComplianceMetadata : option (gmap string any);
  ev_DataClassification : string;
  ev_RetentionPeriod : string;
  ev_Error : string;
  ev_ErrorCode : string;
  ev_StackTrace : string;
  ev_Warnings : list string;
  ev_Duration : Duration;
  ev_ResponseSize : Z;
  ev_RequestSize : Z;
  ev_Metrics : option (gmap string any);
  ev_TraceID : string;
  ev_SpanID : string;
  ev_ParentID : string;
  ev_CorrelationID : string;
  ev_CausationID : string;
  ev_RelatedEvents : list string;
  ev_Signature : string;
  ev_Hash : string;
  ev_PreviousHash : string;
  ev_IntegrityFields : list string
}.

(** The zero values of the structs. *)
Definition zeroUser : UserContext := mkUserContext "" "" "" "" [] [] "" "" false "" "" None.
Definition zeroNetwork : NetworkContext := mkNetworkContext [] [] 0 0 "" "" "" "" "" "" None.
Definition zeroSystem : SystemContext := mkSystemContext "" 0 "" 0 "" "" "" "" "" "" "".
Definition zeroResource : ResourceContext := mkResourceContext "" "" "" "" "" "" "" "" None None.

Definition zeroEvent : AuditEvent :=
  mkAuditEvent "" "" zeroTime "" "" 0 "" "" "" "" "" None None None None None "" None "" ""
    "" "" "" [] 0 0 0 None "" "" "" "" "" [] "" "" "" [].

Definition eta_event (e : AuditEvent) : AuditEvent :=
  mkAuditEvent (ev_ID e) (ev_Version e) (ev_Timestamp e) (ev_EventType e) (ev_Category e)
    (ev_Severity e) (ev_Result e) (ev_Component e) (ev_Action e) (ev_Description e)
    (ev_Message e) (ev_UserContext e) (ev_NetworkContext e) (ev_SystemContext e)
    (ev_ResourceContext e) (ev_Data e) (ev_RiskLevel e) (ev_ComplianceMetadata e)
    (ev_DataClassification e) (ev_RetentionPeriod e) (ev_Error e) (ev_ErrorCode e)
    (ev_StackTrace e) (ev_Warnings e) (ev_Duration e) (ev_ResponseSize e) (ev_RequestSize e)
    (ev_Metrics e) (ev_TraceID e) (ev_SpanID e) (ev_ParentID e) (ev_CorrelationID e)
    (ev_CausationID e) (ev_RelatedEvents e) (ev_Signature e) (ev_Hash e) (ev_PreviousHash e)
    (ev_IntegrityFields e).

Definition set_ID : string -> AuditEvent -> AuditEvent :=
  ltac:(record_setter eta_event ev_ID).
Definition set_Version : string -> AuditEvent -> AuditEvent :=
  ltac:(record_setter eta_event ev_Version).
Definition set_Timestamp : Time -> AuditEvent -> AuditEvent :=
  ltac:(record_setter eta_event ev_Timestamp).
Definition set_EventType : EventType -> AuditEvent -> AuditEvent :=
  ltac:(record_setter eta_event ev_EventType).
Definition set_Category : string -> AuditEvent -> AuditEvent :=
  ltac:(record_setter eta_event ev_Category).
Definition set_Severity : Severity -> AuditEvent -> AuditEvent :=
  ltac:(record_setter eta_event ev_Severity).
Definition set_Result : EventResult -> AuditEvent -> AuditEvent :=
  ltac:(record_setter eta_event ev_Result).
Definition set_Component : string -> AuditEvent -> AuditEvent :=
  ltac:(record_setter eta_event ev_Component).
Definition set_Action : string -> AuditEvent -> AuditEvent :=
  ltac:(record_setter eta_event ev_Action).
Definition set_Description : string -> AuditEvent -> AuditEvent :=
  ltac:(record_setter eta_event ev_Description).
Definition set_UserContext : option UserContext -> AuditEvent -> AuditEvent :=
  ltac:(record_setter eta_event ev_UserContext).
Definition set_NetworkContext : option NetworkContext -> AuditEvent -> AuditEvent :=
  ltac:(record_setter eta_event ev_NetworkContext).
Definition set_SystemContext : option SystemContext -> AuditEvent -> AuditEvent :=
  ltac:(record_setter eta_event ev_SystemContext).
Definition set_ResourceContext : option ResourceContext -> AuditEvent -> AuditEvent :=
  ltac:(record_setter eta_event ev_ResourceContext).
Definition set_Data : option (gmap string any) -> AuditEvent -> AuditEvent :=
  ltac:(record_setter eta_event ev_Data).
Definition set_RiskLevel : string -> AuditEvent -> AuditEvent :=
  ltac:(record_setter eta_event ev_RiskLevel).
Definition set_ComplianceMetadata : option (gmap string any) -> AuditEvent -> AuditEvent :=
  ltac:(record_setter eta_event ev_ComplianceMetadata).
Definition set_RetentionPeriod : string -> AuditEvent -> AuditEvent :=
  ltac:(record_setter eta_event ev_RetentionPeriod).
Definition set_Error : string -> AuditEvent -> AuditEvent :=
  ltac:(record_setter eta_event ev_Error).
Definition set_TraceID : string -> AuditEvent -> AuditEvent :=
  ltac:(record_setter eta_event ev_TraceID).
Definition set_SpanID : string -> AuditEvent -> AuditEvent :=
  ltac:(record_setter eta_event ev_SpanID).
Definition set_Signature : string -> AuditEvent -> AuditEvent :=
  ltac:(record_setter eta_event ev_Signature).
Definition set_Hash : string -> AuditEvent -> AuditEvent :=
  ltac:(record_setter eta_event ev_Hash).
Definition set_PreviousHash : string -> AuditEvent -> AuditEvent :=
  ltac:(record_setter eta_event ev_PreviousHash).
Definition set_IntegrityFields : list string -> AuditEvent -> AuditEvent :=
  ltac:(record_setter eta_event ev_IntegrityFields).

(** ** Validation *)

(** What the package takes from libraries: [uuid.Parse], [net.ParseIP]. *)
Class EventLib := {
  uuid_valid : string -> bool;
  ParseIP : string -> list Z
}.

Inductive EventError :=
| UserIDRequired | UserIDTooLong | InvalidEmail (email : string) | InvalidRole
| InvalidSourcePort (port : Z) | InvalidDestinationPort (port : Z)
| ResourceTypeRequired | OperationRequired
| EventIDRequired | EventIDNotUUID | EventTypeRequired | ComponentRequired | ActionRequired
| TimestampRequired
| InvalidNetworkContext (e : EventError)
| InvalidUserContext (e : EventError)
| InvalidResourceContext (e : EventError).

Definition between (lo a hi : ascii) : bool :=
  (nat_of_ascii lo <=? nat_of_ascii a)%nat && (nat_of_ascii a <=? nat_of_ascii hi)%nat.

Definition is_letter (a : ascii) : bool := between "a" a "z" || between "A" a "Z".
Definition is_digit (a : ascii) : bool := between "0" a "9".
Definition one_of (s : string) (a : ascii) : bool := has_byte a s.

(** The classes of bytes of the expression below. *)
Definition local_byte (a : ascii) : bool := is_letter a || is_digit a || one_of "._%+-" a.
Definition host_byte (a : ascii) : bool := is_letter a || is_digit a || one_of ".-" a.

(** The regular expression
    [^[a-zA-Z0-9._%+-]+@[a-zA-Z0-9.-]+\.[a-zA-Z]{2,}$] *)
Definition emailRegex (s : string) : bool :=
  match cut "@" s with
  | Some (user, host) =>
      negb (String.eqb user "") && all_bytes local_byte user &&
      match cutLast "." host with
      | Some (name, tld) =>
          negb (String.eqb name "") && all_bytes host_byte name &&
          all_bytes is_letter tld && (2 <=? String.length tld)%nat
      | None => false
      end
  | None => false
  end.

(** [strings.ContainsAny] *)
Definition ContainsAny (s chars : string) : bool := negb (all_bytes (λ a, negb (one_of chars a)) s).

(** The bytes a role must not have: angle brackets and quotes. *)
Definition markup : string := String "<" (String ">" (String "034" (String "'" ""))).

Definition user_Validate (uc : UserContext) : result EventError unit :=
  if String.eqb (uc_UserID uc) "" then Err UserIDRequired
  else if (256 <? String.length (uc_UserID uc))%nat then Err UserIDTooLong
  else if negb (String.eqb (uc_Email uc) "") && negb (emailRegex (uc_Email uc)) then
    Err (InvalidEmail (uc_Email uc))
  else if ContainsAny (uc_Role uc) markup then Err InvalidRole
  else Ok tt.

Definition network_Validate (nc : NetworkContext) : result EventError unit :=
  if (nc_SourcePort nc <? 0) || (65535 <? nc_SourcePort nc) then
    Err (InvalidSourcePort (nc_SourcePort nc))
  else if (nc_DestinationPort nc <? 0) || (65535 <? nc_DestinationPort nc) then
    Err (InvalidDestinationPort (nc_DestinationPort nc))
  else Ok tt.

Definition resource_Validate (rc : ResourceContext) : result EventError unit :=
  if String.eqb (rc_ResourceType rc) "" then Err ResourceTypeRequired
  else if String.eqb (rc_Operation rc) "" then Err OperationRequired
  else Ok tt.

(** The context [c] is absent or valid; an error of it is wrapped. *)
Definition validateContext {C} (wrap : EventError -> EventError) (v : C -> result EventError unit)
    (c : option C) : result EventError unit :=
  match c with
  | Some c => match v c with Err e => Err (wrap e) | Ok _ => Ok tt end
  | None => Ok tt
  end.

Section events.
Context `{EventLib}.

Definition Validate (ae : AuditEvent) : result EventError unit :=
  if String.eqb (ev_ID ae) "" then Err EventIDRequired
  else if negb (uuid_valid (ev_ID ae)) then Err EventIDNotUUID
  else if String.eqb (ev_EventType ae) "" then Err EventTypeRequired
  else if String.eqb (ev_Component ae) "" then Err ComponentRequired
  else if String.eqb (ev_Action ae) "" then Err ActionRequired
  else if IsZero (ev_Timestamp ae) then Err TimestampRequired
  else
    let? _ := validateContext InvalidNetworkContext network_Validate (ev_NetworkContext ae) in
    let? _ := validateContext InvalidUserContext user_Validate (ev_UserContext ae) in
    validateContext InvalidResourceContext resource_Validate (ev_ResourceContext ae).

(** ** Derived attributes *)

Definition SetRiskLevel (ae : AuditEvent) : AuditEvent :=
  if bool_decide (ev_EventType ae ∈
      [EventTypeAuthenticationFailed; EventTypeIntrusionAttempt; EventTypeMalwareDetection]) then
    set_RiskLevel "high" ae
  else if bool_decide (ev_EventType ae ∈ [EventTypeSecurityViolation; EventTypeAnomalyDetection]) then
    set_RiskLevel "medium" ae
  else if bool_decide (ev_EventType ae ∈ [EventTypeDataAccess; EventTypeSystemChange]) then
    if SeverityError <=? ev_Severity ae then set_RiskLevel "high" ae
    else if SeverityWarning <=? ev_Severity ae then set_RiskLevel "medium" ae
    else set_RiskLevel "low" ae
  else set_RiskLevel "low" ae.

(** The switch over one compliance standard. *)
Definition standardRetention (et : EventType) (maxRetention : string) (standard : ComplianceStandard)
  : string :=
  if String.eqb standard ComplianceSOC2 then "7y"
  else if String.eqb standard ComplianceISO27001 then "3y"
  else if String.eqb standard CompliancePCIDSS then "1y"
  else if String.eqb standard ComplianceHIPAA then "6y"
  else if String.eqb standard ComplianceGDPR then
    if String.eqb et EventTypeDataAccess || String.eqb et EventTypeDataProcessing then "3y"
    else maxRetention
  else maxRetention.

Definition SetRetentionPeriod (complianceMode : list ComplianceStandard) (ae : AuditEvent)
  : AuditEvent :=
  let et := ev_EventType ae in
  let maxRetention := foldl (standardRetention et) "1y" complianceMode in
  set_RetentionPeriod
    (if bool_decide (et ∈
          [EventTypeSecurityViolation; EventTypeIntrusionAttempt; EventTypeMalwareDetection])
     then "7y"
     else if String.eqb et EventTypeIncidentResponse then "10y"
     else maxRetention) ae.

Definition GetEventCategory (ae : AuditEvent) : string :=
  let among l := bool_decide (ev_EventType ae ∈ l) in
  if among [EventTypeAuthentication; EventTypeAuthenticationFailed; EventTypeAuthenticationSuccess;
      EventTypeAuthorization; EventTypeAuthorizationFailed; EventTypeAuthorizationSuccess;
      EventTypeSessionStart; EventTypeSessionEnd; EventTypePasswordChange; EventTypeTokenIssuance;
      EventTypeTokenRevocation] then "authentication_authorization"
  else if among [EventTypeDataAccess; EventTypeDataCreate; EventTypeDataRead; EventTypeDataUpdate;
      EventTypeDataDelete; EventTypeDataExport; EventTypeDataImport; EventTypeDataBackup;
      EventTypeDataRestore] then "data_access"
  else if among [EventTypeSystemChange; EventTypeConfigChange; EventTypeUserManagement;
      EventTypeRoleManagement; EventTypePolicyChange; EventTypeSystemStartup;
      EventTypeSystemShutdown; EventTypeServiceStart; EventTypeServiceStop;
      EventTypeMaintenanceMode] then "system_management"
  else if among [EventTypeSecurityViolation; EventTypeIntrusionAttempt; EventTypeMalwareDetection;
      EventTypeAnomalyDetection; EventTypeComplianceCheck; EventTypeVulnerability;
      EventTypeIncidentResponse] then "security"
  else if among [EventTypeNetworkAccess; EventTypeFirewallRule; EventTypeNetworkAnomaly;
      EventTypeResourceAccess; EventTypeCapacityChange; EventTypePerformanceAlert]
    then "network_infrastructure"
  else if among [EventTypeAPICall; EventTypeWorkflowExecution; EventTypeJobExecution;
      EventTypeDeployment; EventTypeRollback; EventTypeHealthCheck] then "application"
  else if among [EventTypeIntentProcessing; EventTypeNetworkFunction; EventTypeRICManagement;
      EventTypeA1Interface; EventTypeO1Interface; EventTypeE2Interface; EventTypeSliceManagement]
    then "oran_telecom"
  else "general".

(** ** The builder: its methods return the builder, here the event in it *)

Definition NewEventBuilder (uuid : string) (now : Time) : AuditEvent :=
  set_ID uuid (set_Version "1.0" (set_Timestamp now (set_Data (Some ∅) zeroEvent))).

Definition WithEventType (et : EventType) (e : AuditEvent) : AuditEvent :=
  let e := set_EventType et e in set_Category (GetEventCategory e) e.

Definition WithSeverity (s : Severity) (e : AuditEvent) : AuditEvent := set_Severity s e.
Definition WithComponent (c : string) (e : AuditEvent) : AuditEvent := set_Component c e.
Definition WithAction (a : string) (e : AuditEvent) : AuditEvent := set_Action a e.
Definition WithDescription (d : string) (e : AuditEvent) : AuditEvent := set_Description d e.
Definition WithResult (r : EventResult) (e : AuditEvent) : AuditEvent := set_Result r e.

Definition WithUser (userID username : string) (e : AuditEvent) : AuditEvent :=
  let u := default zeroUser (ev_UserContext e) in
  set_UserContext (Some (mkUserContext userID username (uc_Email u) (uc_Role u) (uc_Groups u)
    (uc_Permissions u) (uc_SessionID u) (uc_ClientID u) (uc_ServiceAccount u) (uc_AuthMethod u)
    (uc_AuthProvider u) (uc_Metadata u))) e.

Definition WithNetwork (sourceIP userAgent : string) (e : AuditEvent) : AuditEvent :=
  let n := default zeroNetwork (ev_NetworkContext e) in
  set_NetworkContext (Some (mkNetworkContext
    (if String.eqb sourceIP "" then nc_SourceIP n else ParseIP sourceIP)
    (nc_DestinationIP n) (nc_SourcePort n) (nc_DestinationPort n) (nc_Protocol n) userAgent
    (nc_Referrer n) (nc_RequestID n) (nc_Country n) (nc_ASN n) (nc_Headers n))) e.

Definition WithResource (resourceType resourceID operation : string) (e : AuditEvent) : AuditEvent :=
  let r := default zeroResource (ev_ResourceContext e) in
  set_ResourceContext (Some (mkResourceContext resourceType resourceID (rc_ResourceName r)
    (rc_Namespace r) (rc_APIVersion r) (rc_Kind r) operation (rc_Path r) (rc_Query r) (rc_Tags r))) e.

Definition WithData (key : string) (value : any) (e : AuditEvent) : AuditEvent :=
  set_Data (Some (<[key := value]> (default ∅ (ev_Data e)))) e.

(** [err] is the text of the error, if there is one. *)
Definition WithError (err : option string) (e : AuditEvent) : AuditEvent :=
  match err with
  | Some text =>
      let e := set_Result ResultError (set_Error text e) in
      if ev_Severity e <? SeverityError then set_Severity SeverityError e else e
  | None => e
  end.

Definition WithTracing (traceID spanID : string) (e : AuditEvent) : AuditEvent :=
  set_SpanID spanID (set_TraceID traceID e).

Definition Build (e : AuditEvent) : AuditEvent := SetRiskLevel e.

(** ** Templates *)

Definition AuthenticationEvent (uuid : string) (now : Time) (userID provider : string)
    (success : bool) (err : option string) : AuditEvent :=
  let e := WithData "provider" (AnyString provider) (WithUser userID "" (WithAction "login"
    (WithComponent "authentication" (WithEventType EventTypeAuthentication
      (NewEventBuilder uuid now))))) in
  let e := if success then WithSeverity SeverityInfo (WithResult ResultSuccess e)
           else WithSeverity SeverityWarning (WithResult ResultFailure e) in
  Build (WithError err e).

Definition DataAccessEvent (uuid : string) (now : Time)
    (userID resourceType resourceID operation : string) : AuditEvent :=
  Build (WithResult ResultSuccess (WithSeverity SeverityInfo
    (WithResource resourceType resourceID operation (WithUser userID "" (WithAction operation
      (WithComponent "data_access" (WithEventType EventTypeDataAccess
        (NewEventBuilder uuid now)))))))).

Definition SecurityViolationEvent (uuid : string) (now : Time)
    (userID violationType description : string) : AuditEvent :=
  Build (WithResult ResultFailure (WithSeverity SeverityCritical
    (WithData "violation_type" (AnyString violationType) (WithUser userID ""
      (WithDescription description (WithAction "violation_detected" (WithComponent "security"
        (WithEventType EventTypeSecurityViolation (NewEventBuilder uuid now))))))))).

Definition SystemChangeEvent (uuid : string) (now : Time)
    (userID changeType description : string) : AuditEvent :=
  Build (WithResult ResultSuccess (WithSeverity SeverityInfo
    (WithData "change_type" (AnyString changeType) (WithUser userID ""
      (WithDescription description (WithAction "change" (WithComponent "system"
        (WithEventType EventTypeSystemChange (NewEventBuilder uuid now))))))))).

End events.

(** ** Properties *)

(** The matcher accepts the language of the expression. *)
Lemma emailRegex_spec s :
  emailRegex s = true <->
  exists user name tld,
    s = String.append user (String "@" (String.append name (String "." tld))) /\
    user <> "" /\ all_bytes local_byte user = true /\
    name <> "" /\ all_bytes host_byte name = true /\
    all_bytes is_letter tld = true /\ (2 <= String.length tld)%nat.
Proof.
  unfold emailRegex. split.
  - destruct (cut "@" s) as [[user host] |] eqn:Hc; [| done].
    apply cut_spec in Hc as [-> _].
    destruct (cutLast "." host) as [[name tld] |] eqn:Hl; [| by rewrite andb_false_r].
    apply cutLast_spec in Hl as [-> _].
    rewrite !andb_true_iff, !negb_true_iff, !String.eqb_neq, Nat.leb_le.
    intros ((Hu & Hu') & ((Hn & Hn') & Ht) & Ht'). by exists user, name, tld.
  - intros (user & name & tld & -> & Hu & Hu' & Hn & Hn' & Ht & Ht').
    rewrite (proj2 (cut_spec "@" _ user _))
      by (split; [done | by apply (all_bytes_without local_byte)]).
    rewrite (proj2 (cutLast_spec "." _ name tld))
      by (split; [done | by apply (all_bytes_without is_letter)]).
    rewrite Hu', Hn', Ht, (proj2 (Nat.leb_le _ _) Ht').
    by rewrite (proj2 (String.eqb_neq _ _) Hu), (proj2 (String.eqb_neq _ _) Hn).
Qed.

(** What a valid context is. *)
Definition user_ok (uc : UserContext) : Prop :=
  uc_UserID uc <> "" /\ (String.length (uc_UserID uc) <= 256)%nat /\
  (uc_Email uc = "" \/ emailRegex (uc_Email uc) = true) /\
  all_bytes (λ a, negb (one_of markup a)) (uc_Role uc) = true.

Definition port (p : Z) : Prop := 0 <= p <= 65535.

Definition network_ok (nc : NetworkContext) : Prop :=
  port (nc_SourcePort nc) /\ port (nc_DestinationPort nc).

Definition resource_ok (rc : ResourceContext) : Prop :=
  rc_ResourceType rc <> "" /\ rc_Operation rc <> "".

Definition context_ok {C} (P : C -> Prop) (c : option C) : Prop :=
  match c with Some c => P c | None => True end.

Lemma if_err {E} (b : bool) (e : E) (r : result E unit) (P : Prop) :
  (r = Ok tt <-> P) -> (if b then Err e else r) = Ok tt <-> b = false /\ P.
Proof. intros Hr. rewrite <- Hr. destruct b; [| tauto]. by split; [| intros [? _]]. Qed.

Lemma ok_iff {E} : @Ok E unit tt = Ok tt <-> True.
Proof. done. Qed.

Lemma user_Validate_ok uc : user_Validate uc = Ok tt <-> user_ok uc.
Proof.
  unfold user_Validate, user_ok, ContainsAny.
  rewrite !(if_err _ _ _ _ (if_err _ _ _ _ (if_err _ _ _ _ (if_err _ _ _ _ ok_iff)))).
  rewrite String.eqb_neq, Nat.ltb_ge, andb_false_iff, !negb_false_iff, String.eqb_eq. tauto.
Qed.

Lemma network_Validate_ok nc : network_Validate nc = Ok tt <-> network_ok nc.
Proof.
  unfold network_Validate, network_ok, port.
  rewrite (if_err _ _ _ _ (if_err _ _ _ _ ok_iff)).
  rewrite !orb_false_iff, !Z.ltb_ge. lia.
Qed.

Lemma resource_Validate_ok rc : resource_Validate rc = Ok tt <-> resource_ok rc.
Proof.
  unfold resource_Validate, resource_ok. rewrite (if_err _ _ _ _ (if_err _ _ _ _ ok_iff)).
  rewrite !String.eqb_neq. tauto.
Qed.

Lemma validateContext_ok {C} wrap (v : C -> result EventError unit) P c :
  (forall c, v c = Ok tt <-> P c) -> validateContext wrap v c = Ok tt <-> context_ok P c.
Proof.
  intros Hv. destruct c as [c |]; simpl; [| done]. rewrite <- Hv. by destruct (v c) as [[] |].
Qed.

Lemma rbind_ok {E} (m k : result E unit) (P Q : Prop) :
  (m = Ok tt <-> P) -> (k = Ok tt <-> Q) -> rbind m (λ _, k) = Ok tt <-> P /\ Q.
Proof. intros <- <-. destruct m as [[] |]; simpl; [tauto |]. by split; [| intros [? _]]. Qed.

Section properties.
Context `{EventLib}.

Record event_ok (ae : AuditEvent) : Prop := {
  ok_ID : ev_ID ae <> "" /\ uuid_valid (ev_ID ae) = true;
  ok_type : ev_EventType ae <> "";
  ok_component : ev_Component ae <> "";
  ok_action : ev_Action ae <> "";
  ok_timestamp : ev_Timestamp ae <> zeroTime;
  ok_network : context_ok network_ok (ev_NetworkContext ae);
  ok_user : context_ok user_ok (ev_UserContext ae);
  ok_resource : context_ok resource_ok (ev_ResourceContext ae)
}.

(** [Validate] accepts exactly the events with an identifier that is a
    UUID, a type, a component, an action and a time, whose contexts, where
    present, are in order: ports of 16 bits, a user with an identifier of at
    most 256 bytes, an address of the given form and a role without markup, a
    resource with a type and an operation. *)
Theorem Validate_ok_iff (ae : AuditEvent) : Validate ae = Ok tt <-> event_ok ae.
Proof.
  unfold Validate.
  rewrite (if_err _ _ _ _ (if_err _ _ _ _ (if_err _ _ _ _ (if_err _ _ _ _ (if_err _ _ _ _
    (if_err _ _ _ _ (rbind_ok _ _ _ _ (validateContext_ok _ _ _ _ network_Validate_ok)
      (rbind_ok _ _ _ _ (validateContext_ok _ _ _ _ user_Validate_ok)
        (validateContext_ok _ _ _ _ resource_Validate_ok))))))))).
  unfold IsZero. rewrite negb_false_iff, !String.eqb_neq, Z.eqb_neq.
  split; [intros (?&?&?&?&?&?&?&?&?); by split |]. intros [[] ? ? ? ? ? ? ?]. tauto.
Qed.

(** Templates make valid events when they are given a user. *)
Definition named (userID : string) : Prop := userID <> "" /\ (String.length userID <= 256)%nat.

Lemma template_ok e :
  ev_ID e <> "" -> uuid_valid (ev_ID e) = true -> ev_EventType e <> "" -> ev_Component e <> "" ->
  ev_Action e <> "" -> ev_Timestamp e <> zeroTime -> ev_NetworkContext e = None ->
  context_ok user_ok (ev_UserContext e) -> context_ok resource_ok (ev_ResourceContext e) ->
  Validate e = Ok tt.
Proof.
  intros ?????? Hn ??. apply Validate_ok_iff. split; try done. by rewrite Hn.
Qed.

Lemma SetRiskLevel_field e : exists r, SetRiskLevel e = set_RiskLevel r e.
Proof. unfold SetRiskLevel. repeat case_match; by eexists. Qed.

(** The fields validation looks at. *)
Definition validated (e : AuditEvent) :=
  (ev_ID e, ev_EventType e, ev_Component e, ev_Action e, ev_Timestamp e, ev_NetworkContext e,
   ev_UserContext e, ev_ResourceContext e).

Lemma Validate_fields e e' : validated e = validated e' -> Validate e = Validate e'.
Proof. unfold validated, Validate. by intros [= -> -> -> -> -> -> -> ->]. Qed.

Lemma Validate_Build e : Validate (Build e) = Validate e.
Proof. apply Validate_fields. unfold Build. by destruct (SetRiskLevel_field e) as [r ->]. Qed.

Lemma Validate_WithError err e : Validate (WithError err e) = Validate e.
Proof.
  apply Validate_fields. destruct err as [text |]; [| done].
  unfold WithError. by destruct (_ <? _).
Qed.

Lemma named_user uuid username : named uuid ->
  context_ok user_ok (Some (mkUserContext uuid username "" "" [] [] "" "" false "" "" None)).
Proof. intros [? ?]. repeat split; simpl; try done. by left. Qed.

(** The templates make valid events, whatever the outcome they report,
    for a user with a name and, for accesses, a type of resource and an
    operation; an access without them is refused by [Validate]. *)
Theorem templates_valid (uuid : string) (now : Time) (userID : string) :
  uuid <> "" -> uuid_valid uuid = true -> now <> zeroTime -> named userID ->
  (forall provider success err,
     Validate (AuthenticationEvent uuid now userID provider success err) = Ok tt) /\
  (forall resourceType resourceID operation,
     Validate (DataAccessEvent uuid now userID resourceType resourceID operation) = Ok tt <->
     resourceType <> "" /\ operation <> "") /\
  (forall violationType description,
     Validate (SecurityViolationEvent uuid now userID violationType description) = Ok tt) /\
  (forall changeType description,
     Validate (SystemChangeEvent uuid now userID changeType description) = Ok tt).
Proof.
  intros Hu Hv Hn Hm. refine (conj _ (conj _ (conj _ _))).
  - intros provider success err. unfold AuthenticationEvent. rewrite Validate_Build, Validate_WithError.
    destruct success; apply template_ok; try done; by apply named_user.
  - intros resourceType resourceID operation. unfold DataAccessEvent. rewrite Validate_Build. split.
    + intros Hok. apply Validate_ok_iff in Hok. by destruct (ok_resource _ Hok).
    + intros [? ?]. apply template_ok; try done; by apply named_user.
  - intros. unfold SecurityViolationEvent. rewrite Validate_Build.
    apply template_ok; try done; by apply named_user.
  - intros. unfold SystemChangeEvent. rewrite Validate_Build.
    apply template_ok; try done; by apply named_user.
Qed.

(** The retention a list of standards asks for is decided by its last entry
    (GDPR apart, which leaves most types alone), not by the longest period. *)
Lemma retention_last_standard (l : list ComplianceStandard) s ae :
  s ∈ [ComplianceSOC2; ComplianceISO27001; CompliancePCIDSS; ComplianceHIPAA] ->
  ev_RetentionPeriod (SetRetentionPeriod (l ++ [s]) ae) =
  ev_RetentionPeriod (SetRetentionPeriod [s] ae).
Proof.
  intros Hs. unfold SetRetentionPeriod. rewrite foldl_app. in_cases Hs; done.
Qed.

Example soc2_retention_shortened uuid now :
  let e := SystemChangeEvent uuid now "u" "t" "d" in
  ev_RetentionPeriod (SetRetentionPeriod [ComplianceSOC2] e) = "7y" /\
  ev_RetentionPeriod (SetRetentionPeriod [ComplianceSOC2; CompliancePCIDSS] e) = "1y".
Proof. by split. Qed.

(** Severities count down from Emergency, but the risk of an access grows with
    their number, and an error lowers an urgent severity. *)
Lemma debug_access_is_high_risk ae :
  ev_EventType ae = EventTypeDataAccess ->
  ev_RiskLevel (SetRiskLevel (set_Severity SeverityDebug ae)) = "high" /\
  ev_RiskLevel (SetRiskLevel (set_Severity SeverityEmergency ae)) = "low".
Proof.
  intros E. unfold SetRiskLevel. cbn [ev_EventType ev_Severity set_Severity]. rewrite E. by vm_compute.
Qed.

Lemma error_lowers_severity text ae :
  ev_Severity ae < SeverityError -> ev_Severity (WithError (Some text) ae) = SeverityError.
Proof.
  intros Hs. unfold WithError. cbn [ev_Severity set_Result set_Error].
  by rewrite (proj2 (Z.ltb_lt _ _) Hs).
Qed.

End properties.

(** A library that takes every text for an identifier. *)
#[global] Instance anyLib : EventLib := {| uuid_valid := λ _, true; ParseIP := λ _, [] |}.

Lemma templates_valid_witness :
  Validate (AuthenticationEvent "id" 1 "alice" "ldap" false (Some "no")) = Ok tt /\
  Validate (DataAccessEvent "id" 1 "alice" "" "r" "read") <> Ok tt.
Proof.
  destruct (templates_valid "id" 1 "alice") as (H1 & H2 & _);
    [done | done | done | split; [done | simpl; lia] |].
  split; [apply H1 | intros E; by apply H2 in E as [? _]].
Defined.
