(* ===== verification/IntegrityChain.v ===== *)
(** * IntegrityChain: pkg/audit/integrity.go

    The hash chain of audit events: processing, verification of events and of
    the chain, and the signer, validator, analyzer and recoverer of the file.
    SHA-256, hexadecimal and base64 text are those of [GoCrypto]; RSA and the
    JSON encoding are the classes [Rsa] and [Json]. *)

From S2P Require Import Prelude GoStrings GoCrypto AuditTypes.
From stdpp Require Import pretty.

Local Open Scope Z_scope.

(** ** Libraries *)

(** crypto/rsa with PSS padding: [salt] is what [rand.Reader] delivers, a
    message is given by its digest; crypto/x509 writes a public key. *)
Class Rsa := {
  PrivateKey : Type;
  PublicKey : Type;
  Public : PrivateKey -> PublicKey;
  GenerateKey : string -> Z -> option PrivateKey;
  SignPSS : PrivateKey -> string -> string -> option string;
  VerifyPSS : PublicKey -> string -> string -> bool;
  MarshalPKIX : PublicKey -> option string
}.

(** Signatures verify under the public half of their key. *)
Class RsaLaws `{Rsa} : Prop := {
  verify_sign k digest salt s :
    SignPSS k digest salt = Some s -> VerifyPSS (Public k) digest s = true
}.

(** The struct [calculateEventHash] encodes. *)
Record EventHashData := mkEventHashData {
  ed_ID : string;
  ed_Timestamp : Time;
  ed_EventType : EventType;
  ed_Component : string;
  ed_Action : string;
  ed_UserContext : option UserContext;
  ed_Result : EventResult;
  ed_Data : option (gmap string any)
}.

(** The struct [calculateChainHash] encodes. *)
Record LinkHashData := mkLinkHashData {
  ld_SequenceNumber : Z;
  ld_EventID : string;
  ld_EventHash : string;
  ld_PreviousHash : string;
  ld_KeyID : string
}.

(** encoding/json: the text of a value, unless it cannot be encoded.  Go
    writes the entries of a map in the order of their keys. *)
Class Json := {
  marshal_event : EventHashData -> option string;
  marshal_link : LinkHashData -> option string
}.

Definition IntegrityVersion : string := "1.0".
Definition MinKeySize : Z := 2048.
Definition MaxChainLength : nat := Z.to_nat 10000.

Inductive IntegrityError :=
| EventHashFailed | ChainHashFailed | NoPrivateKey | SigningFailed
| LinkNotFound (id : string) | EventHashMismatch (expected actual : string)
| NoPublicKey | SignatureNotBase64 | SignatureInvalid
| KeyGenerationFailed | KeyLoadingNotImplemented | KeysNotConfigured
| ChainLoadingNotImplemented | EventsTooCorrupted.

(** The last defect [VerifyChain] noted of a link. *)
Inductive LinkDefect :=
| BadSequence (expected actual : Z)
| BadPreviousHash (expected actual : string)
| BadSignature (e : IntegrityError)
| ChainHashNotComputed (e : IntegrityError)
| BadChainHash (expected actual : string).

Record IntegrityLink := mkLink {
  SequenceNumber : Z;
  link_Timestamp : Time;
  EventID : string;
  EventHash : string;
  PreviousHash : string;
  ChainHash : string;
  Signature : string;
  KeyID : string;
  link_Version : string
}.

Record IntegrityConfig := mkIntegrityConfig {
  cfg_Enabled : bool;
  KeyPairPath : string;
  KeySize : Z;
  AutoGenerateKeys : bool;
  ChainFile : string;
  VerificationMode : string;
  cfg_MaxChainLength : Z
}.

Record IntegrityChainBreak := mkBreak {
  cb_SequenceNumber : Z;
  cb_EventID : string;
  cb_Expected : string;
  cb_Actual : string
}.

Record IntegrityVerification := mkVerification {
  iv_EventID : string;
  iv_SequenceNumber : Z;
  iv_Valid : bool;
  iv_Error : option LinkDefect
}.

Record IntegrityReport := mkReport {
  rep_Valid : bool;
  TotalEvents : Z;
  VerifiedEvents : Z;
  FailedEvents : Z;
  TamperedEvents : list string;
  ChainBreaks : list IntegrityChainBreak;
  VerificationDetails : list IntegrityVerification
}.

Definition DefaultIntegrityConfig : IntegrityConfig :=
  mkIntegrityConfig true "" 2048 true "" "strict" (Z.of_nat MaxChainLength).

Definition genesisHashValue : string := hex (Sum256 "nephoran-audit-genesis-block").

(** [fmt.Sprintf("%d", z)] *)
Definition decimal (z : Z) : string := pretty z.

Section chain.
Context {R : Rsa} {J : Json}.

Record IntegrityChain := mkChain {
  chain : list IntegrityLink;
  privateKey : option PrivateKey;
  publicKey : option PublicKey;
  keyID : string;
  lastHash : string;
  sequenceNum : Z;
  enabled : bool
}.

(** ** Hashes and signatures *)

Definition hashData (event : AuditEvent) : EventHashData :=
  mkEventHashData (ev_ID event) (ev_Timestamp event) (ev_EventType event) (ev_Component event)
    (ev_Action event) (ev_UserContext event) (ev_Result event) (ev_Data event).

Definition calculateEventHash (event : AuditEvent) : result IntegrityError string :=
  match marshal_event (hashData event) with
  | Some jsonBytes => Ok (hex (Sum256 jsonBytes))
  | None => Err EventHashFailed
  end.

Definition calculateChainHash (link : IntegrityLink) : result IntegrityError string :=
  match marshal_link (mkLinkHashData (SequenceNumber link) (EventID link) (EventHash link)
                        (PreviousHash link) (KeyID link)) with
  | Some jsonBytes => Ok (hex (Sum256 jsonBytes))
  | None => Err ChainHashFailed
  end.

Definition payload (link : IntegrityLink) : string :=
  decimal (SequenceNumber link) +:+ ":" +:+ EventID link +:+ ":" +:+ EventHash link +:+ ":"
    +:+ ChainHash link.

Definition signLink (ic : IntegrityChain) (salt : string) (link : IntegrityLink)
  : result IntegrityError string :=
  match privateKey ic with
  | None => Err NoPrivateKey
  | Some k =>
      match SignPSS k (Sum256 (payload link)) salt with
      | Some signature => Ok (EncodeToString signature)
      | None => Err SigningFailed
      end
  end.

Definition verifyLinkSignature (ic : IntegrityChain) (link : IntegrityLink)
  : result IntegrityError unit :=
  match publicKey ic with
  | None => Err NoPublicKey
  | Some k =>
      match DecodeString (Signature link) with
      | None => Err SignatureNotBase64
      | Some signature =>
          if VerifyPSS k (Sum256 (payload link)) signature then Ok tt else Err SignatureInvalid
      end
  end.

Definition calculateKeyID (k : PublicKey) : string :=
  match MarshalPKIX k with
  | Some publicKeyBytes => String.substring 0 16 (hex (Sum256 publicKeyBytes))
  | None => ""
  end.

(** ** Construction *)

Definition loadKeyPair (keyPath : string) : result IntegrityError unit := Err KeyLoadingNotImplemented.
Definition loadChain (chainFile : string) : result IntegrityError unit := Err ChainLoadingNotImplemented.

Definition initializeKeys (config : IntegrityConfig) (random : string) (ic : IntegrityChain)
  : result IntegrityError IntegrityChain :=
  let keySize := if KeySize config <? MinKeySize then MinKeySize else KeySize config in
  if AutoGenerateKeys config then
    match GenerateKey random keySize with
    | Some k =>
        Ok (mkChain (chain ic) (Some k) (Some (Public k)) (calculateKeyID (Public k)) (lastHash ic)
              (sequenceNum ic) (enabled ic))
    | None => Err KeyGenerationFailed
    end
  else if negb (String.eqb (KeyPairPath config) "") then
    let? _ := loadKeyPair (KeyPairPath config) in Ok ic
  else Err KeysNotConfigured.

(** A chain file that cannot be loaded is only logged. *)
Definition NewIntegrityChainWithConfig (config : IntegrityConfig) (random : string)
  : result IntegrityError IntegrityChain :=
  if negb (cfg_Enabled config) then Ok (mkChain [] None None "" "" 0 false)
  else initializeKeys config random (mkChain [] None None "" "" 0 true).

Definition NewIntegrityChain (random : string) : result IntegrityError IntegrityChain :=
  NewIntegrityChainWithConfig DefaultIntegrityConfig random.

(** ** Processing *)

Definition with_sequenceNum (n : Z) (ic : IntegrityChain) : IntegrityChain :=
  mkChain (chain ic) (privateKey ic) (publicKey ic) (keyID ic) (lastHash ic) n (enabled ic).

(** The newest [MaxChainLength] links. *)
Definition truncateChain (l : list IntegrityLink) : list IntegrityLink :=
  if (MaxChainLength <? length l)%nat then drop (length l - MaxChainLength) l else l.

Definition appendLink (link : IntegrityLink) (ic : IntegrityChain) : IntegrityChain :=
  mkChain (truncateChain (chain ic ++ [link])) (privateKey ic) (publicKey ic) (keyID ic)
    (EventHash link) (sequenceNum ic) (enabled ic).

Definition integrityFields : list string :=
  ["id"; "timestamp"; "event_type"; "component"; "action"; "user_context"; "result"].

Definition markEvent (link : IntegrityLink) (event : AuditEvent) : AuditEvent :=
  set_IntegrityFields integrityFields (set_Signature (Signature link)
    (set_PreviousHash (PreviousHash link) (set_Hash (EventHash link) event))).

(** The link as it is hashed, and with its hash and its signature. *)
Definition newLink (ic : IntegrityChain) (now : Time) (event : AuditEvent) (eventHash : string)
  : IntegrityLink :=
  mkLink (sequenceNum ic) now (ev_ID event) eventHash
    (if String.eqb (lastHash ic) "" then genesisHashValue else lastHash ic)
    "" "" (keyID ic) IntegrityVersion.

Definition with_ChainHash (h : string) (l : IntegrityLink) : IntegrityLink :=
  mkLink (SequenceNumber l) (link_Timestamp l) (EventID l) (EventHash l) (PreviousHash l) h
    (Signature l) (KeyID l) (link_Version l).

Definition with_Signature (s : string) (l : IntegrityLink) : IntegrityLink :=
  mkLink (SequenceNumber l) (link_Timestamp l) (EventID l) (EventHash l) (PreviousHash l)
    (ChainHash l) s (KeyID l) (link_Version l).

Definition ProcessEvent (now : Time) (salt : string) (event : AuditEvent) (ic : IntegrityChain)
  : IntegrityChain * AuditEvent * result IntegrityError unit :=
  if negb (enabled ic) then (ic, event, Ok tt)
  else
    match calculateEventHash event with
    | Err e => (ic, event, Err e)
    | Ok eventHash =>
        let ic := with_sequenceNum ((sequenceNum ic + 1) mod 2 ^ 64) ic in
        let link := newLink ic now event eventHash in
        match calculateChainHash link with
        | Err e => (ic, event, Err e)
        | Ok chainHash =>
            let link := with_ChainHash chainHash link in
            match signLink ic salt link with
            | Err e => (ic, event, Err e)
            | Ok signature =>
                let link := with_Signature signature link in
                (appendLink link ic, markEvent link event, Ok tt)
            end
        end
    end.

(** ** Verification *)

Definition VerifyEvent (event : AuditEvent) (ic : IntegrityChain) : result IntegrityError unit :=
  if negb (enabled ic) then Ok tt
  else
    match list_find (λ l, EventID l = ev_ID event) (chain ic) with
    | None => Err (LinkNotFound (ev_ID event))
    | Some (_, link) =>
        match calculateEventHash event with
        | Err e => Err e
        | Ok expectedHash =>
            if negb (String.eqb expectedHash (EventHash link)) then
              Err (EventHashMismatch (EventHash link) expectedHash)
            else verifyLinkSignature ic link
        end
    end.

(** The four tests of one link, in their order; each adds to the report and
    overwrites the error of the verification. *)
Definition checkSequence (i : Z) (link : IntegrityLink) (p : IntegrityVerification * IntegrityReport)
  : IntegrityVerification * IntegrityReport :=
  let '(v, r) := p in
  if SequenceNumber link =? (i + 1) mod 2 ^ 64 then p
  else
    (mkVerification (iv_EventID v) (iv_SequenceNumber v) false
       (Some (BadSequence (i + 1) (SequenceNumber link))),
     mkReport false (TotalEvents r) (VerifiedEvents r) (FailedEvents r + 1) (TamperedEvents r)
       (ChainBreaks r) (VerificationDetails r)).

Definition checkPreviousHash (previousHash : string) (link : IntegrityLink)
    (p : IntegrityVerification * IntegrityReport) : IntegrityVerification * IntegrityReport :=
  let '(v, r) := p in
  if String.eqb (PreviousHash link) previousHash then p
  else
    (mkVerification (iv_EventID v) (iv_SequenceNumber v) false
       (Some (BadPreviousHash previousHash (PreviousHash link))),
     mkReport false (TotalEvents r) (VerifiedEvents r) (FailedEvents r + 1) (TamperedEvents r)
       (ChainBreaks r ++
          [mkBreak (SequenceNumber link) (EventID link) previousHash (PreviousHash link)])
       (VerificationDetails r)).

Definition checkSignature (ic : IntegrityChain) (link : IntegrityLink)
    (p : IntegrityVerification * IntegrityReport) : IntegrityVerification * IntegrityReport :=
  let '(v, r) := p in
  match verifyLinkSignature ic link with
  | Ok _ => p
  | Err e =>
      (mkVerification (iv_EventID v) (iv_SequenceNumber v) false (Some (BadSignature e)),
       mkReport false (TotalEvents r) (VerifiedEvents r) (FailedEvents r + 1)
         (TamperedEvents r ++ [EventID link]) (ChainBreaks r) (VerificationDetails r))
  end.

Definition checkChainHash (link : IntegrityLink) (p : IntegrityVerification * IntegrityReport)
  : IntegrityVerification * IntegrityReport :=
  let '(v, r) := p in
  match calculateChainHash link with
  | Err e =>
      (mkVerification (iv_EventID v) (iv_SequenceNumber v) false (Some (ChainHashNotComputed e)), r)
  | Ok expectedChainHash =>
      if String.eqb expectedChainHash (ChainHash link) then p
      else
        (mkVerification (iv_EventID v) (iv_SequenceNumber v) false
           (Some (BadChainHash expectedChainHash (ChainHash link))),
         mkReport false (TotalEvents r) (VerifiedEvents r) (FailedEvents r + 1) (TamperedEvents r)
           (ChainBreaks r) (VerificationDetails r))
  end.

Definition verifyLink (ic : IntegrityChain) (i : Z) (previousHash : string) (link : IntegrityLink)
    (report : IntegrityReport) : IntegrityReport :=
  let '(v, r) :=
    checkChainHash link (checkSignature ic link (checkPreviousHash previousHash link
      (checkSequence i link (mkVerification (EventID link) (SequenceNumber link) true None, report)))) in
  mkReport (rep_Valid r) (TotalEvents r) (VerifiedEvents r + if iv_Valid v then 1 else 0)
    (FailedEvents r) (TamperedEvents r) (ChainBreaks r) (VerificationDetails r ++ [v]).

Fixpoint verifyLinks (ic : IntegrityChain) (i : Z) (previousHash : string) (links : list IntegrityLink)
    (report : IntegrityReport) : IntegrityReport :=
  match links with
  | [] => report
  | link :: links =>
      verifyLinks ic (i + 1) (ChainHash link) links (verifyLink ic i previousHash link report)
  end.

Definition VerifyChain (ic : IntegrityChain) : IntegrityReport :=
  if negb (enabled ic) then mkReport true 0 0 0 [] [] []
  else verifyLinks ic 0 "" (chain ic) (mkReport true (Z.of_nat (length (chain ic))) 0 0 [] [] []).

Definition GetCurrentHash (ic : IntegrityChain) : string := if enabled ic then lastHash ic else "".

Definition GetSequenceNumber (ic : IntegrityChain) : Z :=
  if enabled ic then wrap64 (sequenceNum ic) else 0.

Definition hashMatches (event : AuditEvent) : bool :=
  negb (String.eqb (ev_Hash event) "") &&
  match calculateEventHash event with
  | Ok expectedHash => String.eqb expectedHash (ev_Hash event)
  | Err _ => false
  end.

Fixpoint verifyEvents (events : list AuditEvent) : bool :=
  match events with
  | [] => true
  | event :: events => if hashMatches event then verifyEvents events else false
  end.

Definition VerifyEventChain (events : list AuditEvent) (ic : IntegrityChain) : bool :=
  if negb (enabled ic) then true else verifyEvents events.

End chain.

(** ** The event signer *)

Record SignerConfig := mkSignerConfig {
  KeyType : string;
  SecretKey : string
}.

Record EventSigner := mkEventSigner { signer_config : SignerConfig }.

Definition NewEventSigner (config : SignerConfig) : EventSigner := mkEventSigner config.

Definition eventSignature (event : AuditEvent) : string :=
  hex (Sum256 (ev_ID event +:+ "|" +:+ ev_Action event +:+ "|" +:+ ev_Component event +:+ "|"
                 +:+ decimal (UnixNano (ev_Timestamp event)))).

Definition SignEvent (es : EventSigner) (event : AuditEvent) : AuditEvent :=
  set_IntegrityFields (ev_IntegrityFields event ++ ["signature"])
    (set_Signature (eventSignature event) event).

Definition VerifySignature (es : EventSigner) (event : AuditEvent) : bool :=
  if String.eqb (ev_Signature event) "" then false
  else String.eqb (ev_Signature event) (eventSignature event).

(** ** The validator *)

Inductive Violation :=
| MissingIntegrityFields | TimestampOutOfRange | HashChainBreak | ChainGap.

Record ValidationViolation := mkViolation {
  violation : Violation;
  violation_EventID : string
}.

Record IntegrityEventResult := mkEventResult {
  er_IsValid : bool;
  HashValid : bool;
  SignatureValid : bool;
  ChainValid : bool;
  er_Violations : list ValidationViolation
}.

Record ValidationResult := mkValidationResult {
  vr_IsValid : bool;
  EventResults : list IntegrityEventResult;
  vr_Violations : list ValidationViolation
}.

(** [now] is the instant of [time.Since]. *)
Definition ValidateEvent (now : Time) (event : AuditEvent) : IntegrityEventResult :=
  let missing := String.eqb (ev_Hash event) "" || String.eqb (ev_PreviousHash event) "" in
  let late := 5 * Minute <? time_Sub now (ev_Timestamp event) in
  mkEventResult (negb missing && negb late) (negb missing)
    (negb (String.eqb (ev_Signature event) "")) true
    ((if missing then [mkViolation MissingIntegrityFields (ev_ID event)] else []) ++
     (if late then [mkViolation TimestampOutOfRange (ev_ID event)] else [])).

(** The first loop; [prev] is the hash of the previous event, if there is one. *)
Fixpoint validateLoop (now : nat -> Time) (i : nat) (prev : option string) (events : list AuditEvent)
    (res : ValidationResult) : ValidationResult :=
  match events with
  | [] => res
  | event :: events =>
      let er := ValidateEvent (now i) event in
      let broken := match prev with
                    | Some h => negb (String.eqb (ev_PreviousHash event) h)
                    | None => false
                    end in
      let er := if broken then mkEventResult false (HashValid er) (SignatureValid er) false (er_Violations er)
                else er in
      validateLoop now (S i) (Some (ev_Hash event)) events
        (mkValidationResult (vr_IsValid res && er_IsValid er) (EventResults res ++ [er])
           (vr_Violations res ++
              if broken then [mkViolation HashChainBreak (ev_ID event)] else []))
  end.

(** The second loop, over neighbours. *)
Fixpoint gapLoop (events : list AuditEvent) (res : ValidationResult) : ValidationResult :=
  match events with
  | e1 :: ((e2 :: _) as rest) =>
      gapLoop rest
        (if String.eqb (ev_PreviousHash e2) (ev_Hash e1) then res
         else mkValidationResult false (EventResults res)
                (vr_Violations res ++ [mkViolation ChainGap (ev_ID e2)]))
  | _ => res
  end.

Definition ValidateEventChain (now : nat -> Time) (events : list AuditEvent) : ValidationResult :=
  gapLoop events (validateLoop now 0 None events (mkValidationResult true [] [])).

(** ** The forensic analyzer *)

Record TimelineEvent := mkTimelineEvent {
  te_Timestamp : Time;
  te_EventID : string;
  te_Action : string
}.

Record ForensicAnalysis := mkAnalysis {
  IntegrityVerified : bool;
  Fingerprint : string;
  Timeline : list TimelineEvent
}.

Definition AnalyzeEvent (event : AuditEvent) : ForensicAnalysis :=
  mkAnalysis (negb (String.eqb (ev_Hash event) "") && negb (String.eqb (ev_Signature event) ""))
    (ev_Hash event) [].

Definition timelineEvent (event : AuditEvent) : TimelineEvent :=
  mkTimelineEvent (ev_Timestamp event) (ev_ID event) (ev_Action event).

(** One round of the inner loop: entries [i] and [j] change places if [j] is
    earlier. *)
Definition exchange (i : nat) (t : list TimelineEvent) (j : nat) : list TimelineEvent :=
  match t !! i, t !! j with
  | Some a, Some b => if time_Before (te_Timestamp b) (te_Timestamp a) then <[i := b]> (<[j := a]> t) else t
  | _, _ => t
  end.

Definition sortRound (t : list TimelineEvent) (i : nat) : list TimelineEvent :=
  foldl (exchange i) t (seq (S i) (length t - S i)).

Definition ReconstructTimeline (events : list AuditEvent) : list TimelineEvent :=
  let timeline := timelineEvent <$> events in
  foldl sortRound timeline (seq 0 (length timeline)).

(** ** The recoverer *)

Record RecoveryResult := mkRecovery {
  Success : bool;
  EventsRepaired : Z;
  RepairedEvents : list nat
}.

Definition event (st : list AuditEvent) (r : nat) : AuditEvent := default zeroEvent (st !! r).

(** Events are references into a store, which the repair changes. *)
Fixpoint repairLoop (i : nat) (events : list nat) (st : list AuditEvent) (repaired : Z)
  : list AuditEvent * Z :=
  match events with
  | [] => (st, repaired)
  | r :: events =>
      if String.eqb (ev_Hash (event st r)) "broken-hash" then
        repairLoop (S i) events
          (<[r := set_Hash ("repaired-hash-" +:+ decimal (Z.of_nat i)) (event st r)]> st) (repaired + 1)
      else repairLoop (S i) events st repaired
  end.

Definition corrupted (e : AuditEvent) : bool := String.eqb (ev_ID e) "" || IsZero (ev_Timestamp e).

Definition RecoverChain (events : list nat) (st : list AuditEvent)
  : list AuditEvent * (RecoveryResult * result IntegrityError unit) :=
  if existsb (λ r, corrupted (event st r)) events then
    (st, (mkRecovery false 0 [], Err EventsTooCorrupted))
  else
    let '(st, n) := repairLoop 0 events st 0 in
    (st, (mkRecovery true n events, Ok tt)).

(** ** Lemmas *)

Lemma truncateChain_suffix l : exists k, l = k ++ truncateChain l.
Proof.
  unfold truncateChain. destruct (_ <? _)%nat; [| by exists []].
  exists (take (length l - MaxChainLength) l). by rewrite take_drop.
Qed.

Lemma length_truncateChain l : (length (truncateChain l) <= MaxChainLength)%nat.
Proof. unfold truncateChain. destruct (Nat.ltb_spec MaxChainLength (length l)); rewrite ?length_drop; lia. Qed.

Lemma truncateChain_short l : (length l <= MaxChainLength)%nat -> truncateChain l = l.
Proof. unfold truncateChain. intros Hl. by rewrite (proj2 (Nat.ltb_ge _ _) Hl). Qed.

Lemma last_truncateChain l : last (truncateChain l) = last l.
Proof.
  destruct (decide (l = [])) as [-> | Hl]; [done |].
  destruct (truncateChain_suffix l) as [k Ek]. rewrite Ek at 2.
  destruct (truncateChain l) as [| x t] eqn:Et; [| by rewrite last_app_cons].
  exfalso. unfold truncateChain in Et. destruct (Nat.ltb_spec MaxChainLength (length l)); [| done].
  apply (f_equal length) in Et. rewrite length_drop in Et. simpl in Et.
  assert (0 < MaxChainLength)%nat by (unfold MaxChainLength; lia). lia.
Qed.

Section properties.
Context {R : Rsa} {L : RsaLaws} {J : Json}.

(** A link that follows another: it carries the hash of the other's event and
    a greater number. *)
Definition follows (l1 l2 : IntegrityLink) : Prop :=
  PreviousHash l2 = EventHash l1 /\ SequenceNumber l1 < SequenceNumber l2.

(** A link made by [ProcessEvent] under key [k]. *)
Record made (k : PrivateKey) (l : IntegrityLink) : Prop := {
  made_event : EventHash l <> "";
  made_previous : PreviousHash l <> "";
  made_chain : calculateChainHash l = Ok (ChainHash l);
  made_signature : exists s, DecodeString (Signature l) = Some s /\
    VerifyPSS (Public k) (Sum256 (payload l)) s = true
}.

Record Chained (k : PrivateKey) (ic : IntegrityChain) : Prop := {
  ch_enabled : enabled ic = true;
  ch_private : privateKey ic = Some k;
  ch_public : publicKey ic = Some (Public k);
  ch_made : Forall (made k) (chain ic);
  ch_follows : Sorted follows (chain ic);
  ch_length : (length (chain ic) <= MaxChainLength)%nat;
  ch_last : match last (chain ic) with
            | Some l => lastHash ic = EventHash l /\ SequenceNumber l <= sequenceNum ic
            | None => lastHash ic = ""
            end;
  ch_sequence : 0 <= sequenceNum ic
}.

Lemma calculateEventHash_ok e h : calculateEventHash e = Ok h ->
  h <> "" /\ exists m, marshal_event (hashData e) = Some m /\ h = hex (Sum256 m).
Proof.
  unfold calculateEventHash. destruct (marshal_event _) as [m |]; [| done]. intros [= <-].
  split; [apply hex_Sum256_nonempty | by eexists].
Qed.

Lemma Sorted_app_r l k : Sorted follows (l ++ k) -> Sorted follows k.
Proof. induction l as [| a l IH]; [done |]. intros Hs. apply IH. by inversion Hs. Qed.

Lemma genesis_nonempty : genesisHashValue <> "".
Proof. unfold genesisHashValue. apply hex_Sum256_nonempty. Qed.

(** What a successful call does. *)
Lemma ProcessEvent_ok now salt e ic ic' e' :
  ProcessEvent now salt e ic = (ic', e', Ok tt) -> enabled ic = true ->
  exists eventHash chainHash signature,
    let ic1 := with_sequenceNum ((sequenceNum ic + 1) mod 2 ^ 64) ic in
    let link1 := with_ChainHash chainHash (newLink ic1 now e eventHash) in
    let link := with_Signature signature link1 in
    calculateEventHash e = Ok eventHash /\
    calculateChainHash (newLink ic1 now e eventHash) = Ok chainHash /\
    signLink ic1 salt link1 = Ok signature /\
    ic' = appendLink link ic1 /\ e' = markEvent link e.
Proof.
  unfold ProcessEvent. intros E Hen. rewrite Hen in E. simpl in E.
  destruct (calculateEventHash e) as [h | ?] eqn:He; [| done].
  destruct (calculateChainHash _) as [c | ?] eqn:Hc; [| done].
  destruct (signLink _ _ _) as [s | ?] eqn:Hs; [| done]. injection E as <- <-.
  by exists h, c, s.
Qed.

Lemma ProcessEvent_err now salt e ic ic' e' err :
  ProcessEvent now salt e ic = (ic', e', Err err) ->
  enabled ic = true /\ e' = e /\
  (ic' = ic \/ ic' = with_sequenceNum ((sequenceNum ic + 1) mod 2 ^ 64) ic).
Proof.
  unfold ProcessEvent. destruct (enabled ic); [| done]. simpl.
  repeat case_match; intros [= <- <- <-]; auto.
Qed.

Lemma Chained_sequence k n ic : Chained k ic -> sequenceNum ic <= n -> Chained k (with_sequenceNum n ic).
Proof.
  intros [] Hn. split; try done; simpl; [| lia].
  destruct (last (chain ic)); [| done]. destruct ch_last0. split; [done | lia].
Qed.

Lemma signLink_made k ic salt l s :
  privateKey ic = Some k -> signLink ic salt l = Ok s ->
  exists s', DecodeString s = Some s' /\ VerifyPSS (Public k) (Sum256 (payload l)) s' = true.
Proof.
  unfold signLink. intros -> E. destruct (SignPSS _ _ _) as [s' |] eqn:Hs; [| done]. injection E as <-.
  exists s'. split; [apply DecodeString_EncodeToString | by eapply verify_sign].
Qed.

Lemma Chained_appendLink k ic now e h c s salt :
  Chained k ic -> calculateEventHash e = Ok h ->
  calculateChainHash (newLink ic now e h) = Ok c ->
  signLink ic salt (with_ChainHash c (newLink ic now e h)) = Ok s ->
  (forall l, last (chain ic) = Some l -> SequenceNumber l < sequenceNum ic) ->
  Chained k (appendLink (with_Signature s (with_ChainHash c (newLink ic now e h))) ic).
Proof.
  intros HC He Hc Hs Hseq. destruct (calculateEventHash_ok _ _ He) as [Hne _].
  set (link := with_Signature s (with_ChainHash c (newLink ic now e h))).
  destruct (truncateChain_suffix (chain ic ++ [link])) as [pre Epre].
  assert (made k link) as Hm.
  { destruct (signLink_made k _ _ _ _ (ch_private _ _ HC) Hs) as [s' Hs']. split; simpl; [done | | done | by exists s'].
    destruct (String.eqb_spec (lastHash ic) ""); [apply genesis_nonempty | done]. }
  assert (Sorted follows (chain ic ++ [link])) as Hsort.
  { apply Sorted_snoc; [apply HC |]. intros l Hl. split; simpl; [| by apply Hseq].
    pose proof (ch_last _ _ HC) as HL. rewrite Hl in HL. destruct HL as [-> _].
    rewrite (proj2 (String.eqb_neq _ _)); [done |].
    apply last_Some in Hl as [l' El]. pose proof (ch_made _ _ HC) as Hms. rewrite El in Hms.
    apply Forall_app in Hms as [_ Hms]. by apply Forall_inv in Hms as []. }
  split; simpl; try apply HC.
  - assert (Forall (made k) (chain ic ++ [link])) as Hall by (apply Forall_app; split; [apply HC | by constructor]).
    rewrite Epre in Hall. by apply Forall_app in Hall as [_ ?].
  - rewrite Epre in Hsort. by apply Sorted_app_r in Hsort.
  - apply length_truncateChain.
  - rewrite last_truncateChain, last_snoc. simpl. split; [done | lia].
Qed.

Lemma ProcessEvent_Chained k now salt e ic ic' e' r :
  Chained k ic -> sequenceNum ic < 2 ^ 64 - 1 ->
  ProcessEvent now salt e ic = (ic', e', r) ->
  Chained k ic' /\ sequenceNum ic' <= sequenceNum ic + 1.
Proof.
  intros HC Hn E. assert ((sequenceNum ic + 1) mod 2 ^ 64 = sequenceNum ic + 1) as Hmod
    by (pose proof (ch_sequence _ _ HC); apply Z.mod_small; lia).
  pose proof (Chained_sequence k (sequenceNum ic + 1) ic HC ltac:(lia)) as HC1.
  destruct r as [[] | err].
  - destruct (ProcessEvent_ok _ _ _ _ _ _ E (ch_enabled _ _ HC)) as (h & c & s & He & Hc & Hs & -> & ->).
    rewrite Hmod in *. split; [| simpl; lia].
    eapply Chained_appendLink; try done. simpl. intros l Hl.
    pose proof (ch_last _ _ HC) as HL. rewrite Hl in HL. lia.
  - destruct (ProcessEvent_err _ _ _ _ _ _ _ E) as (_ & _ & [-> | ->]); [split; [done | lia] |].
    rewrite Hmod. split; [done | simpl; lia].
Qed.

(** ** Runs of the chain *)

Record Call := mkCall {
  c_now : Time;
  c_salt : string;
  c_event : AuditEvent
}.

(** The calls [cs] of [ProcessEvent], one after the other: the chain, and the
    event and the result each call leaves. *)
Fixpoint processAll (cs : list Call) (ic : IntegrityChain)
  : IntegrityChain * list (AuditEvent * result IntegrityError unit) :=
  match cs with
  | [] => (ic, [])
  | c :: cs =>
      let '(ic, e, r) := ProcessEvent (c_now c) (c_salt c) (c_event c) ic in
      let '(ic, out) := processAll cs ic in
      (ic, (e, r) :: out)
  end.

Lemma processAll_cons c cs ic ic2 out :
  processAll (c :: cs) ic = (ic2, out) ->
  exists ic1 e r out', ProcessEvent (c_now c) (c_salt c) (c_event c) ic = (ic1, e, r) /\
    processAll cs ic1 = (ic2, out') /\ out = (e, r) :: out'.
Proof.
  simpl. destruct (ProcessEvent _ _ _ _) as [[ic1 e] r]. destruct (processAll cs ic1) as [ic2' out'] eqn:E.
  intros [= <- <-]. by exists ic1, e, r, out'.
Qed.

Lemma processAll_Chained k cs : forall ic ic' out,
  Chained k ic -> sequenceNum ic + Z.of_nat (length cs) < 2 ^ 64 ->
  processAll cs ic = (ic', out) -> Chained k ic'.
Proof.
  induction cs as [| c cs IH]; intros ic ic' out HC Hn E; [by injection E as <- <- |].
  apply processAll_cons in E as (ic1 & e & r & out' & E1 & E2 & ->).
  simpl length in Hn. destruct (ProcessEvent_Chained k _ _ _ _ _ _ _ HC ltac:(lia) E1) as [HC1 Hs].
  eapply IH; [done | lia | done].
Qed.

Lemma NewIntegrityChain_ok random ic : NewIntegrityChain random = Ok ic ->
  exists k, Chained k ic /\ sequenceNum ic = 0 /\ chain ic = [] /\ lastHash ic = "".
Proof.
  unfold NewIntegrityChain, NewIntegrityChainWithConfig, initializeKeys.
  cbn [cfg_Enabled AutoGenerateKeys DefaultIntegrityConfig negb].
  destruct (GenerateKey _ _) as [k |]; [| done]. intros [= <-]. exists k.
  split; [| done]. by split; simpl; [.. | constructor | constructor | unfold MaxChainLength; lia | |].
Qed.

Lemma new_chain_run random ic0 cs ic out :
  NewIntegrityChain random = Ok ic0 -> Z.of_nat (length cs) < 2 ^ 64 ->
  processAll cs ic0 = (ic, out) ->
  exists k, Chained k ic0 /\ chain ic0 = [] /\ lastHash ic0 = "" /\ Chained k ic.
Proof.
  intros H0 Hn E. destruct (NewIntegrityChain_ok _ _ H0) as (k & HC & Hs & Hch & Hl).
  exists k. split; [done |]. split; [done |]. split; [done |].
  refine (processAll_Chained k cs ic0 ic out HC _ E). by rewrite Hs, Z.add_0_l.
Qed.

(** C18 - whatever events a new chain processes and whichever of the calls
    fail, its links stay a chain: every link carries the hash of the event
    before it and a greater number, its own hash is the hash of its fields, its
    signature verifies under the chain's key, the newest link's event hash is
    the current hash, and no more than [MaxChainLength] links are kept. *)
Theorem chain_stays_linked random ic0 cs ic out :
  NewIntegrityChain random = Ok ic0 -> Z.of_nat (length cs) < 2 ^ 64 ->
  processAll cs ic0 = (ic, out) -> exists k, Chained k ic.
Proof.
  intros H0 Hn E. destruct (new_chain_run _ _ _ _ _ H0 Hn E) as (k & _ & _ & _ & HC). by exists k.
Qed.

(** ** Verification of the chain *)

Definition linkAccepted (ic : IntegrityChain) (i : Z) (previousHash : string) (link : IntegrityLink)
  : bool :=
  (SequenceNumber link =? (i + 1) mod 2 ^ 64) && String.eqb (PreviousHash link) previousHash &&
  is_ok (verifyLinkSignature ic link) &&
  match calculateChainHash link with
  | Ok h => String.eqb h (ChainHash link)
  | Err _ => true
  end.

Fixpoint linksAccepted (ic : IntegrityChain) (i : Z) (previousHash : string)
    (links : list IntegrityLink) : bool :=
  match links with
  | [] => true
  | link :: links =>
      linkAccepted ic i previousHash link && linksAccepted ic (i + 1) (ChainHash link) links
  end.

Lemma verifyLink_valid ic i prev link rep :
  rep_Valid (verifyLink ic i prev link rep) = rep_Valid rep && linkAccepted ic i prev link.
Proof.
  unfold verifyLink, linkAccepted, checkSequence, checkPreviousHash, checkSignature, checkChainHash.
  destruct (_ =? _), (String.eqb (PreviousHash link) prev), (verifyLinkSignature ic link),
    (calculateChainHash link) as [h |]; simpl; try (destruct (String.eqb h _)); simpl;
    by rewrite ?andb_true_r, ?andb_false_r.
Qed.

Lemma verifyLinks_valid ic links : forall i prev rep,
  rep_Valid (verifyLinks ic i prev links rep) = rep_Valid rep && linksAccepted ic i prev links.
Proof.
  induction links as [| l links IH]; intros i prev rep; simpl; [by rewrite andb_true_r |].
  by rewrite IH, verifyLink_valid, andb_assoc.
Qed.

Lemma verifyLink_tampered ic i prev link rep :
  is_ok (verifyLinkSignature ic link) = true ->
  TamperedEvents (verifyLink ic i prev link rep) = TamperedEvents rep.
Proof.
  unfold verifyLink, checkSequence, checkPreviousHash, checkSignature, checkChainHash.
  destruct (verifyLinkSignature ic link); [| done]. intros _.
  destruct (_ =? _), (String.eqb (PreviousHash link) prev), (calculateChainHash link) as [h |];
    simpl; try (destruct (String.eqb h _)); done.
Qed.

Lemma made_verifies k ic l : made k l -> publicKey ic = Some (Public k) ->
  verifyLinkSignature ic l = Ok tt.
Proof.
  intros Hm Hp. destruct (made_signature _ _ Hm) as (s & Hd & Hv).
  unfold verifyLinkSignature. by rewrite Hp, Hd, Hv.
Qed.

Lemma verifyLinks_tampered k ic links : publicKey ic = Some (Public k) -> Forall (made k) links ->
  forall i prev rep, TamperedEvents (verifyLinks ic i prev links rep) = TamperedEvents rep.
Proof.
  intros Hp. induction 1 as [| l links Hl _ IH]; intros i prev rep; simpl; [done |].
  rewrite IH, verifyLink_tampered; [done |]. by rewrite (made_verifies k).
Qed.

(** [VerifyChain] rejects every chain that [ProcessEvent] has built: the
    first link carries a hash where the check expects none (and the later ones
    an event hash where it expects a chain hash), although no signature fails. *)
Theorem VerifyChain_rejects_own_chain random ic0 cs ic out :
  NewIntegrityChain random = Ok ic0 -> Z.of_nat (length cs) < 2 ^ 64 ->
  processAll cs ic0 = (ic, out) -> chain ic <> [] ->
  rep_Valid (VerifyChain ic) = false /\ TamperedEvents (VerifyChain ic) = [].
Proof.
  intros H0 Hn E Hne. destruct (new_chain_run _ _ _ _ _ H0 Hn E) as (k & _ & _ & _ & HC').
  unfold VerifyChain. rewrite (ch_enabled _ _ HC'). simpl. split.
  - rewrite verifyLinks_valid. simpl. pose proof (ch_made _ _ HC') as Hm.
    destruct (chain ic) as [| l links]; [done |]. simpl. unfold linkAccepted.
    apply Forall_inv, made_previous in Hm. apply String.eqb_neq in Hm.
    by rewrite Hm, andb_false_r.
  - eapply verifyLinks_tampered; apply HC'.
Qed.

(** ** Verification of events *)

(** The link [l] records the event of the call [c]. *)
Definition records (c : Call) (l : IntegrityLink) : Prop :=
  EventID l = ev_ID (c_event c) /\ calculateEventHash (c_event c) = Ok (EventHash l).

Lemma processAll_records cs : forall ic ic' out,
  enabled ic = true -> (length (chain ic) + length cs <= MaxChainLength)%nat ->
  processAll cs ic = (ic', out) ->
  exists new, chain ic' = chain ic ++ new /\
    Forall (λ l, exists c, c ∈ cs /\ records c l) new /\
    (forall i c e, cs !! i = Some c -> out !! i = Some (e, Ok tt) -> exists l, l ∈ new /\ records c l).
Proof.
  induction cs as [| c cs IH]; intros ic ic' out Hen Hlen E.
  { injection E as <- <-. exists []. by rewrite app_nil_r. }
  apply processAll_cons in E as (ic1 & e & r & out' & E1 & E2 & ->). simpl in Hlen.
  destruct r as [[] | err].
  - destruct (ProcessEvent_ok _ _ _ _ _ _ E1 Hen) as (h & ch & s & He & _ & _ & -> & ->).
    set (ic1 := with_sequenceNum _ ic) in *. set (link := with_Signature _ _) in *.
    assert (chain (appendLink link ic1) = chain ic ++ [link]) as Ec
      by (simpl; apply truncateChain_short; rewrite length_app; simpl; lia).
    destruct (IH (appendLink link ic1) ic' out') as (new & E3 & Hall & Hsome);
      [done | rewrite Ec, length_app; simpl; lia | done |].
    exists (link :: new). rewrite E3, Ec, <- app_assoc. split; [done |]. split.
    + constructor; [exists c; split; [constructor | done] |].
      eapply Forall_impl; [done |]. intros l (c' & Hc' & ?). exists c'. split; [by constructor | done].
    + intros [| i] c' e' Hc Ho; simplify_eq/=; [exists link; split; [constructor | done] |].
      destruct (Hsome i c' e' Hc Ho) as (l & ? & ?). exists l. split; [by constructor | done].
  - destruct (ProcessEvent_err _ _ _ _ _ _ _ E1) as (_ & -> & Hic).
    assert (chain ic1 = chain ic /\ enabled ic1 = true) as [Ec Hen1] by (by destruct Hic as [-> | ->]).
    destruct (IH ic1 ic' out') as (new & E3 & Hall & Hsome); [done | rewrite Ec; lia | done |].
    exists new. rewrite E3, Ec. split; [done |]. split.
    + eapply Forall_impl; [done |]. intros l (c' & Hc' & ?). exists c'. split; [by constructor | done].
    + intros [| i] c' e' Hc Ho; simplify_eq/=. by eapply Hsome.
Qed.

Lemma NoDup_fmap_eq {A B} (f : A -> B) l x y :
  NoDup (f <$> l) -> x ∈ l -> y ∈ l -> f x = f y -> x = y.
Proof.
  intros Hnd Hx Hy E. apply list_elem_of_lookup in Hx as [i Hi], Hy as [j Hj].
  assert (i = j) as ->; [| congruence].
  eapply (NoDup_lookup _ i j (f x) Hnd); rewrite list_lookup_fmap; [by rewrite Hi | by rewrite Hj, E].
Qed.

(** C31 - while the chain is not full, an event with the identifier of a
    processed one passes [VerifyEvent] exactly when the hashed fields of both
    have texts of the same SHA-256 sum: the event itself always passes, and
    one that was changed passes only by a collision. *)
Theorem VerifyEvent_iff_same_digest random ic0 cs ic out i c e e' :
  NewIntegrityChain random = Ok ic0 -> (length cs <= MaxChainLength)%nat ->
  NoDup ((λ c, ev_ID (c_event c)) <$> cs) -> processAll cs ic0 = (ic, out) ->
  cs !! i = Some c -> out !! i = Some (e, Ok tt) -> ev_ID e' = ev_ID (c_event c) ->
  VerifyEvent e' ic = Ok tt <->
  exists m m', marshal_event (hashData (c_event c)) = Some m /\
    marshal_event (hashData e') = Some m' /\ Sum256 m' = Sum256 m.
Proof.
  intros H0 Hlen Hnd E Hc Ho Hid. assert (Z.of_nat (length cs) < 2 ^ 64) as Hlt
    by (unfold MaxChainLength in Hlen; lia).
  destruct (new_chain_run _ _ _ _ _ H0 Hlt E) as (k & HC & Hch & _ & HC').
  destruct (processAll_records cs ic0 ic out (ch_enabled _ _ HC)) as (new & En & Hall & Hsome);
    [rewrite Hch; simpl; lia | done |]. rewrite Hch in En. simpl in En.
  unfold VerifyEvent. rewrite (ch_enabled _ _ HC'). simpl.
  destruct (list_find _ (chain ic)) as [[j l] |] eqn:Hf.
  - apply list_find_Some in Hf as (Hj & Hl & _).
    pose proof (proj1 (Forall_lookup _ _) (ch_made _ _ HC') _ _ Hj) as Hm.
    rewrite En in Hj. destruct (proj1 (Forall_lookup _ _) Hall _ _ Hj) as (c' & Hc' & Hid' & Hh).
    assert (c' = c) as ->
      by (eapply (NoDup_fmap_eq (λ c, ev_ID (c_event c))); [done | done | by eapply list_elem_of_lookup_2 | congruence]).
    destruct (calculateEventHash_ok _ _ Hh) as (_ & m & Hmar & EH). unfold calculateEventHash.
    destruct (marshal_event (hashData e')) as [m' |] eqn:Hm'; [| split; [done | by intros (?&?&?&?&?)]].
    rewrite EH. destruct (String.eqb_spec (hex (Sum256 m')) (hex (Sum256 m))) as [Eh | Hne]; simpl.
    + rewrite (made_verifies k) by (done || apply HC'). split; [| done]. intros _.
      exists m, m'. split; [done |]. split; [done |]. by apply hex_inj.
    + split; [done |]. intros (m1 & m2 & E1 & E2 & Es). rewrite Hmar in E1.
      injection E1 as <-. injection E2 as <-. destruct Hne. by rewrite Es.
  - destruct (Hsome i c e Hc Ho) as (l & Hl & Hid' & _). rewrite <- En in Hl.
    apply list_find_None in Hf. apply (proj1 (Forall_forall _ _)) with (x := l) in Hf; [| done].
    congruence.
Qed.

(** [VerifyEventChain] looks at each event alone. *)
Lemma VerifyEventChain_forallb events ic :
  VerifyEventChain events ic = negb (enabled ic) || forallb hashMatches events.
Proof.
  unfold VerifyEventChain. destruct (enabled ic); simpl; [| done].
  induction events as [| e events IH]; simpl; [done |]. by destruct (hashMatches e).
Qed.

(** [VerifyEventChain] does not see the chain: a list it accepts is still
    accepted when events are left out or their order is changed. *)
Theorem VerifyEventChain_ignores_order (events events' : list AuditEvent) ic :
  events' ⊆+ events -> VerifyEventChain events ic = true -> VerifyEventChain events' ic = true.
Proof.
  rewrite !VerifyEventChain_forallb. intros Hs. destruct (enabled ic); simpl; [| done].
  rewrite !forallb_forall. intros Hall e He. apply Hall.
  apply list_elem_of_In in He. apply list_elem_of_In. eapply elem_of_submseteq; done.
Qed.

(** ** Validation of processed events *)

(** A later event carries the hash of the one before it. *)
Definition linked (e1 e2 : AuditEvent) : Prop := ev_PreviousHash e2 = ev_Hash e1.

(** What [ValidateEvent] asks of an event at [now]. *)
Definition sound (now : Time) (e : AuditEvent) : Prop :=
  ev_Hash e <> "" /\ ev_PreviousHash e <> "" /\ now - ev_Timestamp e <= 5 * Minute.

Lemma ValidateEvent_valid now e : er_IsValid (ValidateEvent now e) = true <-> sound now e.
Proof.
  unfold ValidateEvent, sound. cbn [er_IsValid].
  rewrite andb_true_iff, !negb_true_iff, orb_false_iff, !String.eqb_neq, Z.ltb_ge.
  unfold time_Sub. tauto.
Qed.

(** The condition of the first loop from position [i] on. *)
Fixpoint validFrom (now : nat -> Time) (i : nat) (prev : option string) (events : list AuditEvent)
  : Prop :=
  match events with
  | [] => True
  | e :: events =>
      sound (now i) e /\ (forall h, prev = Some h -> ev_PreviousHash e = h) /\
      validFrom now (S i) (Some (ev_Hash e)) events
  end.

Lemma validateLoop_valid now events : forall i prev res,
  vr_IsValid (validateLoop now i prev events res) = true <->
  vr_IsValid res = true /\ validFrom now i prev events.
Proof.
  induction events as [| e events IH]; intros i prev res; [simpl; tauto |].
  cbn [validateLoop validFrom]. rewrite IH, <- ValidateEvent_valid.
  generalize (ValidateEvent (now i) e) as er. intros er. simpl. rewrite andb_true_iff.
  destruct prev as [h |]; simpl.
  - destruct (String.eqb_spec (ev_PreviousHash e) h) as [-> | Hne]; simpl.
    + assert (forall h0, Some h = Some h0 -> h = h0) by congruence. tauto.
    + split; [by intros ((_ & ?) & _) |]. intros (_ & _ & Hp & _). by destruct (Hne (Hp h eq_refl)).
  - assert (forall h, None = Some h -> ev_PreviousHash e = h) by done. tauto.
Qed.

Lemma gapLoop_valid events : forall res,
  vr_IsValid (gapLoop events res) = true <-> vr_IsValid res = true /\ Sorted linked events.
Proof.
  induction events as [| e1 events IH]; intros res.
  { simpl. split; [intros ?; split; [done | constructor] | by intros [? _]]. }
  destruct events as [| e2 rest].
  - split; [intros ?; split; [done | by repeat constructor] | by intros [? _]].
  - change (gapLoop (e1 :: e2 :: rest) res) with
      (gapLoop (e2 :: rest)
         (if String.eqb (ev_PreviousHash e2) (ev_Hash e1) then res
          else mkValidationResult false (EventResults res)
                 (vr_Violations res ++ [mkViolation ChainGap (ev_ID e2)]))).
    rewrite IH. clear IH. destruct (String.eqb_spec (ev_PreviousHash e2) (ev_Hash e1)) as [E | Hne]; simpl.
    + split; intros [? Hs]; (split; [done |]); [constructor; [done | by constructor] | by inversion Hs].
    + split; [by intros [? _] |]. intros [_ Hs]. inversion Hs as [| ? ? ? Hd]. by inversion Hd.
Qed.

Lemma validFrom_iff now events : forall i prev,
  validFrom now i prev events <->
  (forall j e, events !! j = Some e -> sound (now (i + j)%nat) e) /\
  Sorted linked events /\
  (forall e h, head events = Some e -> prev = Some h -> ev_PreviousHash e = h).
Proof.
  induction events as [| e events IH]; intros i prev; simpl.
  { split; [intros _ | done]. refine (conj _ (conj _ _)); [by intros | constructor | by intros]. }
  rewrite IH. split.
  - intros (He & Hp & Hall & Hs & Hh). split; [| split].
    + intros [| j] e' Hj; simplify_eq/=; [by rewrite Nat.add_0_r |].
      replace (i + S j)%nat with (S i + j)%nat by lia. by apply Hall.
    + constructor; [done |]. destruct events as [| e2 rest]; constructor. by apply Hh.
    + intros e' h [= <-] Hprev. by apply Hp.
  - intros (Hall & Hs & Hh). split; [| split; [by intros; apply Hh | split; [| split]]].
    + specialize (Hall 0%nat e eq_refl). by rewrite Nat.add_0_r in Hall.
    + intros j e' Hj. replace (S i + j)%nat with (i + S j)%nat by lia. by apply Hall.
    + by inversion Hs.
    + intros e' h Hd [= <-]. inversion Hs as [| ? ? ? Hr]. destruct events; simplify_eq/=. by inversion Hr.
Qed.

(** [ValidateEventChain] accepts a list of events exactly when each event
    has both hashes and is at most five minutes old when it is looked at, and
    each carries the hash of its predecessor. *)
Theorem ValidateEventChain_iff now events :
  vr_IsValid (ValidateEventChain now events) = true <->
  (forall i e, events !! i = Some e -> sound (now i) e) /\ Sorted linked events.
Proof.
  unfold ValidateEventChain. rewrite gapLoop_valid, validateLoop_valid, validFrom_iff. simpl.
  split; [tauto |]. intros [Ha Hs]. refine (conj (conj eq_refl (conj Ha (conj Hs _))) Hs). by intros.
Qed.

(** The events of successful calls are linked, the first one to the current
    hash of the chain. *)
Lemma processAll_linked k cs : forall ic ic' out,
  Chained k ic -> sequenceNum ic + Z.of_nat (length cs) < 2 ^ 64 ->
  processAll cs ic = (ic', out) -> Forall (λ p, p.2 = Ok tt) out ->
  Sorted linked out.*1 /\
  Forall (λ e, ev_Hash e <> "" /\ ev_PreviousHash e <> "") out.*1 /\
  (forall e, head out.*1 = Some e ->
     ev_PreviousHash e = if String.eqb (lastHash ic) "" then genesisHashValue else lastHash ic).
Proof.
  induction cs as [| c cs IH]; intros ic ic' out HC Hn E Hall.
  { injection E as <- <-. by repeat constructor. }
  apply processAll_cons in E as (ic1 & e & r & out' & E1 & E2 & ->). simpl length in Hn.
  apply Forall_cons in Hall as [Hr Hall]. simpl in Hr. subst r.
  destruct (ProcessEvent_Chained k _ _ _ _ _ _ _ HC ltac:(lia) E1) as [HC1 Hs].
  destruct (ProcessEvent_ok _ _ _ _ _ _ E1 (ch_enabled _ _ HC)) as (h & ch & s & He & _ & _ & Eic & Ee).
  destruct (calculateEventHash_ok _ _ He) as [Hh _].
  destruct (IH _ _ _ HC1 ltac:(lia) E2 Hall) as (IH1 & IH2 & IH3).
  assert (lastHash ic1 = h) as El by (by rewrite Eic). rewrite El in IH3.
  assert (ev_Hash e = h) as Eh by (by rewrite Ee).
  assert (ev_PreviousHash e = if String.eqb (lastHash ic) "" then genesisHashValue else lastHash ic) as Ep
    by (by rewrite Ee).
  rewrite fmap_cons. simpl. split; [| split].
  - constructor; [done |]. destruct out'.*1 as [| e2 rest]; constructor.
    unfold linked. rewrite Eh, (IH3 e2 eq_refl). by rewrite (proj2 (String.eqb_neq _ _) Hh).
  - constructor; [| done]. rewrite Eh, Ep. split; [done |].
    destruct (String.eqb_spec (lastHash ic) ""); [apply genesis_nonempty | done].
  - intros e' [= <-]. done.
Qed.

(** The events a new chain has processed, all of them successfully, are
    accepted by [ValidateEventChain] as long as they are recent. *)
Theorem processed_events_validate random ic0 cs ic out now :
  NewIntegrityChain random = Ok ic0 -> Z.of_nat (length cs) < 2 ^ 64 ->
  processAll cs ic0 = (ic, out) -> Forall (λ p, p.2 = Ok tt) out ->
  (forall i e, out.*1 !! i = Some e -> now i - ev_Timestamp e <= 5 * Minute) ->
  vr_IsValid (ValidateEventChain now out.*1) = true.
Proof.
  intros H0 Hn E Hall Ht. destruct (NewIntegrityChain_ok _ _ H0) as (k & HC & Hs & _).
  destruct (processAll_linked k cs ic0 ic out HC) as (Hl & Hne & _);
    [by rewrite Hs, Z.add_0_l | done | done |].
  unfold ValidateEventChain. rewrite gapLoop_valid, validateLoop_valid, validFrom_iff. simpl.
  split; [| done]. split; [done |]. split; [| by split].
  intros i e Hi. destruct (proj1 (Forall_lookup _ _) Hne _ _ Hi). split; [done |]. split; [done |].
  by apply Ht.
Qed.

End properties.

(** ** The timeline *)

(** Passing [x] along [l]: what stays in its place and what is left behind. *)
Fixpoint bubble (x : TimelineEvent) (l : list TimelineEvent) : TimelineEvent * list TimelineEvent :=
  match l with
  | [] => (x, [])
  | y :: l =>
      if time_Before (te_Timestamp y) (te_Timestamp x)
      then let '(m, r) := bubble y l in (m, x :: r)
      else let '(m, r) := bubble x l in (m, y :: r)
  end.

Lemma lookup_middle {A} (l k : list A) x : (l ++ x :: k) !! length l = Some x.
Proof. by rewrite lookup_app_r, Nat.sub_diag by done. Qed.

Lemma exchange_step (pre mid rest : list TimelineEvent) x y :
  exchange (length pre) (pre ++ x :: mid ++ y :: rest) (length pre + S (length mid)) =
  if time_Before (te_Timestamp y) (te_Timestamp x)
  then pre ++ y :: mid ++ x :: rest else pre ++ x :: mid ++ y :: rest.
Proof.
  unfold exchange. rewrite lookup_middle.
  assert (forall a, pre ++ a :: mid ++ y :: rest = (pre ++ a :: mid) ++ y :: rest) as Ea
    by (intros; by rewrite <- app_assoc).
  assert (forall a, (length pre + S (length mid))%nat = length (pre ++ a :: mid)) as El
    by (intros; by rewrite length_app).
  rewrite (Ea x), (El x), lookup_middle. destruct (time_Before _ _); [| done].
  rewrite insert_middle, <- app_assoc. simpl. rewrite insert_middle. done.
Qed.

Lemma round_bubble pre todo : forall x mid,
  foldl (exchange (length pre)) (pre ++ x :: mid ++ todo)
    (seq (length pre + S (length mid)) (length todo)) =
  pre ++ (bubble x todo).1 :: mid ++ (bubble x todo).2.
Proof.
  induction todo as [| y todo IH]; intros x mid; [done |]. cbn [length seq foldl].
  rewrite exchange_step. cbn [bubble].
  assert (forall z, mid ++ z :: todo = (mid ++ [z]) ++ todo) as Ez by (intros; by rewrite <- app_assoc).
  assert (forall z : TimelineEvent, S (length pre + S (length mid)) = (length pre + S (length (mid ++ [z])))%nat) as El
    by (intros; rewrite length_app; simpl; lia).
  destruct (time_Before _ _).
  - rewrite (Ez x), (El x), IH. destruct (bubble y todo) as [m r]. simpl. by rewrite <- app_assoc.
  - rewrite (Ez y), (El y), IH. destruct (bubble x todo) as [m r]. simpl. by rewrite <- app_assoc.
Qed.

Definition earlier (a b : TimelineEvent) : Prop := te_Timestamp a <= te_Timestamp b.

Lemma bubble_spec l : forall x,
  (bubble x l).1 :: (bubble x l).2 ≡ₚ x :: l /\ Forall (earlier (bubble x l).1) (bubble x l).2.
Proof.
  induction l as [| y l IH]; intros x; [done |]. cbn [bubble].
  destruct (time_Before _ _) eqn:Hb.
  - destruct (IH y) as [Hp Hf]. destruct (bubble y l) as [m r]. simpl in *. split.
    + by rewrite (Permutation_swap x m), Hp.
    + constructor; [| done]. assert (earlier m y) as Hy.
      { assert (y ∈ m :: r) as Hin by (rewrite Hp; constructor).
        apply elem_of_cons in Hin as [-> | Hin]; [unfold earlier; lia |].
        by apply (proj1 (Forall_forall _ _) Hf). }
      unfold earlier in *. time_lia.
  - destruct (IH x) as [Hp Hf]. destruct (bubble x l) as [m r]. simpl in *. split.
    + by rewrite (Permutation_swap y m), Hp, Permutation_swap.
    + constructor; [| done]. assert (earlier m x) as Hy.
      { assert (x ∈ m :: r) as Hin by (rewrite Hp; constructor).
        apply elem_of_cons in Hin as [-> | Hin]; [unfold earlier; lia |].
        by apply (proj1 (Forall_forall _ _) Hf). }
      unfold earlier in *. time_lia.
Qed.

Lemma length_bubble x l : length (bubble x l).2 = length l.
Proof.
  destruct (bubble_spec l x) as [Hp _]. apply Permutation_length in Hp. simpl in Hp. lia.
Qed.

(** The rounds sort what follows the prefix. *)
Lemma rounds_sort n : forall pre l, length l = n ->
  exists l', foldl sortRound (pre ++ l) (seq (length pre) n) = pre ++ l' /\
    l' ≡ₚ l /\ StronglySorted earlier l'.
Proof.
  induction n as [| n IH]; intros pre l Hl.
  { destruct l; [| done]. exists []. by repeat constructor. }
  destruct l as [| x l]; [done |]. injection Hl as Hl. cbn [seq foldl].
  assert (sortRound (pre ++ x :: l) (length pre) = pre ++ (bubble x l).1 :: (bubble x l).2) as Er.
  { unfold sortRound. rewrite length_app. cbn [length].
    replace (length pre + S (length l) - S (length pre))%nat with (length l) by lia.
    replace (S (length pre)) with (length pre + S (length (@nil TimelineEvent)))%nat by (simpl; lia).
    apply (round_bubble pre l x []). }
  rewrite Er. destruct (bubble_spec l x) as [Hp Hf]. pose proof (length_bubble x l) as Hb.
  destruct (bubble x l) as [m r]. simpl in *.
  destruct (IH (pre ++ [m]) r) as (l' & E & Hp' & Hs); [lia |].
  exists (m :: l'). rewrite length_app, <- !app_assoc in E. simpl in E.
  replace (length pre + 1)%nat with (S (length pre)) in E by lia. rewrite E. split; [done |].
  split; [by rewrite Hp' |]. constructor; [done |]. by rewrite Hp'.
Qed.

Lemma ReconstructTimeline_sorted events :
  ReconstructTimeline events ≡ₚ timelineEvent <$> events /\
  StronglySorted earlier (ReconstructTimeline events).
Proof.
  destruct (rounds_sort (length (timelineEvent <$> events)) [] (timelineEvent <$> events) eq_refl)
    as (l' & E & Hp & Hs).
  simpl in E. unfold ReconstructTimeline. by rewrite E.
Qed.

#[global] Instance earlier_dec a b : Decision (earlier a b) := Z_le_dec _ _.
#[global] Instance earlier_trans : Transitive earlier.
Proof. intros a b c. unfold earlier. lia. Qed.
#[global] Instance earlier_total : Total earlier.
Proof. intros a b. unfold earlier. lia. Qed.

(** The double loop of [ReconstructTimeline] sorts: its result has the
    entries of the events in the order of their times, and for events of
    different times it is what a merge sort returns. *)
Theorem ReconstructTimeline_equals_merge_sort events :
  ReconstructTimeline events ≡ₚ timelineEvent <$> events /\
  StronglySorted earlier (ReconstructTimeline events) /\
  (NoDup (ev_Timestamp <$> events) ->
   ReconstructTimeline events = merge_sort earlier (timelineEvent <$> events)).
Proof.
  destruct (ReconstructTimeline_sorted events) as [Hp Hs]. split; [done |]. split; [done |].
  intros Hnd.
  assert (NoDup (te_Timestamp <$> (timelineEvent <$> events))) as Hnd' by (by rewrite <- list_fmap_compose).
  apply (StronglySorted_unique_strong earlier); [| done | apply StronglySorted_merge_sort; apply _ |].
  - intros a b Ha Hb Hab Hba. rewrite Hp in Ha. rewrite merge_sort_Permutation in Hb.
    eapply (NoDup_fmap_eq te_Timestamp); [done | done | done |]. unfold earlier in *. lia.
  - by rewrite Hp, merge_sort_Permutation.
Qed.

(** ** The signer *)

(** A signed event verifies, under any signer: the signature is a checksum
    without a key, which anyone can compute. *)
Lemma signature_needs_no_key (es1 es2 : EventSigner) e :
  VerifySignature es2 (SignEvent es1 e) = true.
Proof.
  unfold VerifySignature, SignEvent. cbn [ev_Signature set_IntegrityFields set_Signature].
  rewrite (proj2 (String.eqb_neq _ _)) by apply hex_Sum256_nonempty.
  change (String.eqb (eventSignature e) (eventSignature e) = true). apply String.eqb_refl.
Qed.

(** The fields are joined by a separator they may contain. *)
Example signature_ambiguous now :
  eventSignature (set_ID "a|b" (set_Action "c" (set_Timestamp now zeroEvent))) =
  eventSignature (set_ID "a" (set_Action "b|c" (set_Timestamp now zeroEvent))).
Proof. done. Qed.

(** ** The recoverer *)

(** A repair renames the broken hash but not its use by the next event: a
    list that was linked no longer is, and the caller's events have changed. *)
Definition brokenPair : list AuditEvent :=
  [set_ID "a" (set_Timestamp 1 (set_PreviousHash "g" (set_Hash "broken-hash" zeroEvent)));
   set_ID "b" (set_Timestamp 2 (set_PreviousHash "broken-hash" (set_Hash "h" zeroEvent)))].

Example recovery_unlinks :
  vr_IsValid (ValidateEventChain (λ _, 3) brokenPair) = true /\
  let '(st, (res, err)) := RecoverChain [0%nat; 1%nat] brokenPair in
  err = Ok tt /\ Success res = true /\ EventsRepaired res = 1 /\
  ev_Hash (event st 0) = "repaired-hash-0" /\
  vr_IsValid (ValidateEventChain (λ _, 3) (event st <$> RepairedEvents res)) = false.
Proof. by vm_compute. Qed.

(** A recovery reports how many events it renamed and never fails half-way. *)
Lemma RecoverChain_error events st st' res err :
  RecoverChain events st = (st', (res, Err err)) ->
  st' = st /\ exists r, r ∈ events /\ corrupted (event st r) = true.
Proof.
  unfold RecoverChain. destruct (existsb _ events) eqn:He.
  - intros [= <- <- <-]. split; [done |]. apply existsb_exists in He as (r & Hr & Hc).
    exists r. by apply list_elem_of_In in Hr.
  - by destruct (repairLoop _ _ _ _).
Qed.

(** ** Witnesses

    A signature scheme that writes the key before the digest, and an encoding
    that writes some of the fields, stand for RSA and JSON. *)

#[local] Instance textRsa : Rsa := {|
  PrivateKey := string; PublicKey := string; Public := λ k, k;
  GenerateKey := λ random _, Some random;
  SignPSS := λ k digest _, Some (k +:+ digest);
  VerifyPSS := λ k digest s, String.eqb s (k +:+ digest);
  MarshalPKIX := Some
|}.

#[local] Instance textRsaLaws : RsaLaws.
Proof. constructor. intros k digest salt s [= <-]. apply String.eqb_refl. Qed.

#[local] Instance textJson : Json := {|
  marshal_event := λ d, Some (ed_ID d +:+ "," +:+ ed_Component d +:+ "," +:+ ed_Action d);
  marshal_link := λ d,
    Some (decimal (ld_SequenceNumber d) +:+ "," +:+ ld_EventID d +:+ "," +:+ ld_EventHash d +:+ ","
            +:+ ld_PreviousHash d)
|}.

Definition emptyChain : IntegrityChain :=
  mkChain [] (Some "key" : option PrivateKey) (Some "key" : option PublicKey) (calculateKeyID "key")
    "" 0 true.

Lemma emptyChain_new : NewIntegrityChain "key" = Ok emptyChain.
Proof. by vm_compute. Qed.

Definition login : AuditEvent := set_ID "e1" (set_Timestamp 10 (set_Action "login" zeroEvent)).
Definition logout : AuditEvent := set_ID "e2" (set_Timestamp 20 (set_Action "logout" zeroEvent)).
Definition twoCalls : list Call := [mkCall 11 "s" login; mkCall 21 "t" logout].

Lemma chain_stays_linked_witness : exists k, Chained k (processAll twoCalls emptyChain).1.
Proof.
  apply (chain_stays_linked "key" emptyChain twoCalls _ (processAll twoCalls emptyChain).2);
    [apply emptyChain_new | done | apply surjective_pairing].
Defined.

Lemma VerifyChain_rejects_own_chain_witness :
  let ic := (processAll twoCalls emptyChain).1 in
  length (chain ic) = 2%nat /\ rep_Valid (VerifyChain ic) = false /\ TamperedEvents (VerifyChain ic) = [].
Proof.
  split; [by vm_compute |].
  apply (VerifyChain_rejects_own_chain "key" emptyChain twoCalls _ (processAll twoCalls emptyChain).2);
    [apply emptyChain_new | done | apply surjective_pairing | by vm_compute].
Defined.

Lemma VerifyEvent_iff_same_digest_witness :
  let ic := (processAll twoCalls emptyChain).1 in
  VerifyEvent login ic = Ok tt /\ VerifyEvent (set_Action "read" login) ic <> Ok tt.
Proof.
  cbn zeta. assert (forall e', ev_ID e' = ev_ID login ->
    VerifyEvent e' (processAll twoCalls emptyChain).1 = Ok tt <->
    exists m m', marshal_event (hashData login) = Some m /\
      marshal_event (hashData e') = Some m' /\ Sum256 m' = Sum256 m) as HV.
  { intros e' He'.
    apply (VerifyEvent_iff_same_digest "key" emptyChain twoCalls _ (processAll twoCalls emptyChain).2 0
             (mkCall 11 "s" login) (ProcessEvent 11 "s" login emptyChain).1.2);
      [apply emptyChain_new | by unfold MaxChainLength; simpl; lia | | apply surjective_pairing | done | by vm_compute | done].
    by apply (bool_decide_unpack _). }
  split.
  - apply HV; [done |]. by eexists _, _.
  - intros E. apply HV in E as (m & m' & [= <-] & [= <-] & E); [| done].
    apply (f_equal hex) in E. by vm_compute in E.
Defined.

Lemma VerifyEventChain_ignores_order_witness :
  let out := (processAll twoCalls emptyChain).2.*1 in
  VerifyEventChain out emptyChain = true /\ VerifyEventChain (reverse out) emptyChain = true.
Proof.
  split; [by vm_compute |].
  apply (VerifyEventChain_ignores_order (processAll twoCalls emptyChain).2.*1).
  - by rewrite reverse_Permutation.
  - by vm_compute.
Defined.

Lemma processed_events_validate_witness :
  vr_IsValid (ValidateEventChain (λ _, 30) (processAll twoCalls emptyChain).2.*1) = true.
Proof.
  apply (processed_events_validate "key" emptyChain twoCalls (processAll twoCalls emptyChain).1);
    [apply emptyChain_new | done | apply surjective_pairing | |].
  - apply (Forall_fmap snd (λ r, r = Ok tt)). vm_compute. by repeat constructor.
  - assert (ev_Timestamp <$> (processAll twoCalls emptyChain).2.*1 = [10; 20]) as Et by by vm_compute.
    revert Et. generalize ((processAll twoCalls emptyChain).2.*1). intros es Et i e Hi.
    assert ((ev_Timestamp <$> es) !! i = Some (ev_Timestamp e)) as Hl by (by rewrite list_lookup_fmap, Hi).
    rewrite Et in Hl. unfold Minute, Second, Millisecond. destruct i as [| [| i]]; simplify_eq/=; lia.
Defined.

(** A chain whose first link was signed without trouble continues after a
    signature that failed with a gap in its numbers. *)
Example sequence_gap salt :
  let broken : IntegrityChain := mkChain [] None None "" "" 0 true in
  sequenceNum (ProcessEvent 1 salt login broken).1.1 = 1 /\
  chain (ProcessEvent 1 salt login broken).1.1 = [].
Proof. by vm_compute. Qed.
