(* ===== verification/AuditBackends.v ===== *)
(** * AuditBackends: pkg/audit/backends

    The back ends the audit system writes batches to: the in-memory one that
    serves the types file and syslog, Elasticsearch and Splunk.  A request to a
    server is its answer, an argument of the operation; [accepted] collects the
    documents of the requests a server has accepted.  Decoding of settings, the
    JSON encoding of events, addresses and URLs are the class [BackendLib]. *)

From S2P Require Import Prelude GoFloat GoStrings AuditTypes.

Local Open Scope Z_scope.

(** ** Configuration *)

Abbreviation BackendType := string.

Definition BackendTypeFile : BackendType := "file".
Definition BackendTypeElasticsearch : BackendType := "elasticsearch".
Definition BackendTypeSplunk : BackendType := "splunk".
Definition BackendTypeSyslog : BackendType := "syslog".
Definition BackendTypeKafka : BackendType := "kafka".
Definition BackendTypeCloudWatch : BackendType := "cloudwatch".
Definition BackendTypeStackdriver : BackendType := "stackdriver".
Definition BackendTypeAzureMonitor : BackendType := "azure_monitor".
Definition BackendTypeSIEM : BackendType := "siem".
Definition BackendTypeWebhook : BackendType := "webhook".

Record RetryPolicy := mkRetryPolicy {
  MaxRetries : Z;
  InitialDelay : Duration;
  MaxDelay : Duration;
  BackoffFactor : float64
}.

Definition DefaultRetryPolicy : RetryPolicy :=
  mkRetryPolicy 3 (1 * Second) (30 * Second) (f64_of_int 2).

Record FilterConfig := mkFilter {
  MinSeverity : Severity;
  EventTypes : list EventType;
  Components : list string;
  ExcludeTypes : list EventType;
  IncludeFields : list string;
  ExcludeFields : list string
}.

Definition DefaultFilterConfig : FilterConfig := mkFilter SeverityInfo [] [] [] [] [].

(** The fields of [BackendConfig] the package reads. *)
Record BackendConfig := mkBackendConfig {
  bc_Type : BackendType;
  bc_Enabled : bool;
  bc_Name : string;
  bc_Settings : gmap string any;
  bc_RetryPolicy : RetryPolicy;
  bc_Filter : FilterConfig
}.

(** The fields of the decoded settings the constructors read. *)
Record ElasticsearchConfig := mkEsConfig {
  ec_URLs : list string;
  ec_IndexPrefix : string;
  ec_AliasName : string;
  ec_BulkSize : Z;
  ec_MaxRetries : Z;
  ec_RequestTimeout : Duration;
  ec_Username : string;
  ec_Password : string;
  ec_APIKey : string
}.

Record SplunkConfig := mkSplunkConfig {
  sk_HecURL : string;
  sk_Token : string;
  sk_Index : string;
  sk_Source : string;
  sk_SourceType : string;
  sk_Host : string;
  sk_MaxBatchSize : Z;
  sk_RequestTimeout : Duration;
  sk_AckTimeout : Duration
}.

(** encoding/json on settings and events, net/url and net. *)
Class BackendLib := {
  decode_elasticsearch : gmap string any -> option ElasticsearchConfig;
  decode_splunk : gmap string any -> option SplunkConfig;
  encodable : AuditEvent -> bool;
  request_url_ok : string -> bool;
  ip_String : list Z -> string
}.

(** ** Filters *)

Definition ShouldProcessEvent (f : FilterConfig) (event : AuditEvent) : bool :=
  if ev_Severity event <? MinSeverity f then false
  else if existsb (String.eqb (ev_EventType event)) (ExcludeTypes f) then false
  else if (0 <? length (EventTypes f))%nat &&
          negb (existsb (String.eqb (ev_EventType event)) (EventTypes f)) then false
  else if (0 <? length (Components f))%nat &&
          negb (existsb (String.eqb (ev_Component event)) (Components f)) then false
  else true.

(** Both branches return the fields of the event as they are. *)
Definition ApplyFieldFilters (f : FilterConfig) (event : AuditEvent) : AuditEvent := event.

(** ** The back ends *)

(** What Splunk is sent of an event. *)
Record SplunkEventData := mkSplunkData {
  sd_user_context : option UserContext;
  sd_network_context : option NetworkContext;
  sd_system_context : option SystemContext;
  sd_resource_context : option ResourceContext;
  sd_data : option (gmap string any);
  sd_error : option string;
  sd_error_code : option string
}.

Record SplunkEvent := mkSplunkEvent {
  se_Time : float64;
  se_Host : string;
  se_Source : string;
  se_SourceType : string;
  se_Index : string;
  se_Event : SplunkEventData;
  se_Fields : gmap string any
}.

Record TestBackend := mkTestBackend {
  tb_config : BackendConfig;
  tb_events : list AuditEvent
}.

Record ElasticsearchBackend := mkElasticsearch {
  eb_config : BackendConfig;
  eb_baseURL : string;
  eb_indexPrefix : string;
  eb_username : string;
  eb_password : string;
  eb_apiKey : string;
  eb_aliasName : string;
  eb_eventsWritten : Z;
  eb_eventsFailed : Z;
  eb_accepted : list AuditEvent
}.

Record SplunkBackend := mkSplunk {
  sb_config : BackendConfig;
  sb_hecURL : string;
  sb_token : string;
  sb_index : string;
  sb_source : string;
  sb_sourceType : string;
  sb_host : string;
  sb_eventsWritten : Z;
  sb_eventsFailed : Z;
  sb_accepted : list SplunkEvent
}.

Inductive Backend :=
| Test (tb : TestBackend)
| Elasticsearch (eb : ElasticsearchBackend)
| Splunk (sb : SplunkBackend).

Inductive BackendError :=
| BackendDisabled (name : string)
| NotYetImplemented (t : BackendType)
| UnsupportedType (t : BackendType)
| InvalidSettings | NoURLs | HecURLRequired | HecTokenRequired
| BadRequest | RequestFailed | StatusError (status : Z).

Section backends.
Context `{BackendLib}.

Definition or_default (s d : string) : string := if String.eqb s "" then d else s.
Definition or_defaultZ (z d : Z) : Z := if z =? 0 then d else z.

(** The decoded settings with the defaults filled in. *)
Definition parseElasticsearchConfig (settings : gmap string any) : option ElasticsearchConfig :=
  match decode_elasticsearch settings with
  | Some c =>
      Some (mkEsConfig (ec_URLs c) (ec_IndexPrefix c) (ec_AliasName c)
              (or_defaultZ (ec_BulkSize c) 100) (or_defaultZ (ec_MaxRetries c) 3)
              (or_defaultZ (ec_RequestTimeout c) (30 * Second))
              (ec_Username c) (ec_Password c) (ec_APIKey c))
  | None => None
  end.

Definition parseSplunkConfig (settings : gmap string any) : option SplunkConfig :=
  match decode_splunk settings with
  | Some c =>
      Some (mkSplunkConfig (sk_HecURL c) (sk_Token c) (sk_Index c) (sk_Source c) (sk_SourceType c)
              (sk_Host c) (or_defaultZ (sk_MaxBatchSize c) 100)
              (or_defaultZ (sk_RequestTimeout c) (30 * Second))
              (or_defaultZ (sk_AckTimeout c) (60 * Second)))
  | None => None
  end.

Definition NewTestBackend (config : BackendConfig) : result BackendError Backend :=
  Ok (Test (mkTestBackend config [])).

Definition NewElasticsearchBackend (config : BackendConfig) : result BackendError Backend :=
  match parseElasticsearchConfig (bc_Settings config) with
  | None => Err InvalidSettings
  | Some es =>
      let indexPrefix := or_default (ec_IndexPrefix es) "nephoran-audit" in
      match ec_URLs es with
      | url :: _ =>
          Ok (Elasticsearch (mkElasticsearch config url indexPrefix (ec_Username es) (ec_Password es)
                (ec_APIKey es) (or_default (ec_AliasName es) (indexPrefix +:+ "-alias")) 0 0 []))
      | [] => Err NoURLs
      end
  end.

Definition NewSplunkBackend (config : BackendConfig) : result BackendError Backend :=
  match parseSplunkConfig (bc_Settings config) with
  | None => Err InvalidSettings
  | Some sk =>
      if String.eqb (sk_HecURL sk) "" then Err HecURLRequired
      else if String.eqb (sk_Token sk) "" then Err HecTokenRequired
      else
        Ok (Splunk (mkSplunk config (sk_HecURL sk) (sk_Token sk)
              (or_default (sk_Index sk) "nephoran_audit")
              (or_default (sk_Source sk) "nephoran-intent-operator")
              (or_default (sk_SourceType sk) "nephoran:audit")
              (or_default (sk_Host sk) "nephoran-operator") 0 0 []))
  end.

Definition NewBackend (config : BackendConfig) : result BackendError Backend :=
  let t := bc_Type config in
  if negb (bc_Enabled config) then Err (BackendDisabled (bc_Name config))
  else if String.eqb t BackendTypeElasticsearch then NewElasticsearchBackend config
  else if String.eqb t BackendTypeSplunk then NewSplunkBackend config
  else if String.eqb t BackendTypeFile then NewTestBackend config
  else if String.eqb t BackendTypeSyslog then NewTestBackend config
  else if bool_decide (t ∈ [BackendTypeKafka; BackendTypeCloudWatch; BackendTypeStackdriver;
                            BackendTypeAzureMonitor; BackendTypeSIEM; BackendTypeWebhook])
  then Err (NotYetImplemented t)
  else Err (UnsupportedType t).

(** ** Writing batches *)

Definition test_WriteEvents (events : list AuditEvent) (tb : TestBackend) : TestBackend :=
  mkTestBackend (tb_config tb) (tb_events tb ++ events).

(** The answer of a server: none, or a status and a body that could be
    decoded; [net/http] gives none once the context is cancelled. *)
Inductive Answer (B : Type) :=
| NoAnswer
| Answered (status : Z) (body : option B).
#[global] Arguments NoAnswer {B}.
#[global] Arguments Answered {B} status body.

Definition Do {B} (cancelled : bool) (answer : Answer B) : Answer B :=
  if cancelled then NoAnswer else answer.

(** A bulk reply: whether there were errors, and of each item whether it has
    one. *)
Record BulkResponse := mkBulk {
  Errors : bool;
  Items : list bool
}.

Definition es_count (written failed : Z) (docs : list AuditEvent) (eb : ElasticsearchBackend)
  : ElasticsearchBackend :=
  mkElasticsearch (eb_config eb) (eb_baseURL eb) (eb_indexPrefix eb) (eb_username eb)
    (eb_password eb) (eb_apiKey eb) (eb_aliasName eb)
    (wrap64 (eb_eventsWritten eb + written)) (wrap64 (eb_eventsFailed eb + failed))
    (eb_accepted eb ++ docs).

Definition processBulkErrors (items : list bool) (eb : ElasticsearchBackend) : ElasticsearchBackend :=
  foldl (λ eb (failed : bool), if failed then es_count 0 1 [] eb else eb) eb items.

(** One round of the loop that builds the request. *)
Definition addDocument (p : ElasticsearchBackend * list AuditEvent) (event : AuditEvent)
  : ElasticsearchBackend * list AuditEvent :=
  let '(eb, docs) := p in
  if negb (ShouldProcessEvent (bc_Filter (eb_config eb)) event) then p
  else
    let filteredEvent := ApplyFieldFilters (bc_Filter (eb_config eb)) event in
    if encodable filteredEvent then (eb, docs ++ [filteredEvent])
    else (es_count 0 1 [] eb, docs).

Definition es_WriteEvents (cancelled : bool) (answer : Answer BulkResponse) (events : list AuditEvent)
    (eb : ElasticsearchBackend) : ElasticsearchBackend * result BackendError unit :=
  match events with
  | [] => (eb, Ok tt)
  | _ :: _ =>
      let n := Z.of_nat (length events) in
      let '(eb, docs) := foldl addDocument (eb, []) events in
      match docs with
      | [] => (eb, Ok tt)
      | _ :: _ =>
          if negb (request_url_ok (eb_baseURL eb +:+ "/_bulk")) then (eb, Err BadRequest)
          else
            match Do cancelled answer with
            | NoAnswer => (es_count 0 n [] eb, Err RequestFailed)
            | Answered status body =>
                if 400 <=? status then (es_count 0 n [] eb, Err (StatusError status))
                else
                  let eb := match body with
                            | Some b => if Errors b then processBulkErrors (Items b) eb else eb
                            | None => eb
                            end in
                  (es_count n 0 docs eb, Ok tt)
            end
      end
  end.

Definition convertToSplunkEvent (sb : SplunkBackend) (event : AuditEvent) : SplunkEvent :=
  let fields :=
    match ev_UserContext event with
    | Some u =>
        <["user_id" := AnyString (uc_UserID u)]> (<["username" := AnyString (uc_Username u)]>
          (<["user_role" := AnyString (uc_Role u)]> ∅))
    | None => ∅
    end in
  let fields :=
    match ev_NetworkContext event with
    | Some n =>
        match nc_SourceIP n with
        | [] => fields
        | ip => <["source_ip" := AnyString (ip_String ip)]> fields
        end
    | None => fields
    end in
  let fields :=
    match ev_ComplianceMetadata event with
    | Some m => map_fold (λ key value acc, <["compliance_" +:+ key := value]> acc) fields m
    | None => fields
    end in
  let optional s := if String.eqb s "" then None else Some s in
  mkSplunkEvent (f64_div (f64_of_int (UnixNano (ev_Timestamp event))) (f64_of_int 1000000000))
    (sb_host sb) (sb_source sb) (sb_sourceType sb) (sb_index sb)
    (mkSplunkData (ev_UserContext event) (ev_NetworkContext event) (ev_SystemContext event)
       (ev_ResourceContext event) (ev_Data event) (optional (ev_Error event))
       (optional (ev_ErrorCode event)))
    fields.

Definition splunk_count (written failed : Z) (docs : list SplunkEvent) (sb : SplunkBackend)
  : SplunkBackend :=
  mkSplunk (sb_config sb) (sb_hecURL sb) (sb_token sb) (sb_index sb) (sb_source sb)
    (sb_sourceType sb) (sb_host sb) (wrap64 (sb_eventsWritten sb + written))
    (wrap64 (sb_eventsFailed sb + failed)) (sb_accepted sb ++ docs).

(** A reply of Splunk: the number of its invalid lines.  The encoding of the
    converted events never fails: their parts are encoded texts. *)
Definition splunk_WriteEvents (cancelled : bool) (answer : Answer Z) (events : list AuditEvent)
    (sb : SplunkBackend) : SplunkBackend * result BackendError unit :=
  match events with
  | [] => (sb, Ok tt)
  | _ :: _ =>
      let splunkEvents :=
        (λ e, convertToSplunkEvent sb (ApplyFieldFilters (bc_Filter (sb_config sb)) e)) <$>
          filter (λ e, ShouldProcessEvent (bc_Filter (sb_config sb)) e = true) events in
      match splunkEvents with
      | [] => (sb, Ok tt)
      | _ :: _ =>
          let n := Z.of_nat (length events) in
          if negb (request_url_ok (sb_hecURL sb +:+ "/services/collector")) then (sb, Err BadRequest)
          else
            match Do cancelled answer with
            | NoAnswer => (splunk_count 0 n [] sb, Err RequestFailed)
            | Answered status body =>
                if 400 <=? status then (splunk_count 0 n [] sb, Err (StatusError status))
                else
                  let sb := match body with
                            | Some invalid => if 0 <? invalid then splunk_count 0 invalid [] sb else sb
                            | None => sb
                            end in
                  (splunk_count (Z.of_nat (length splunkEvents)) 0 splunkEvents sb, Ok tt)
            end
      end
  end.

(** The answers a server may give to a write. *)
Record Answers := mkAnswers {
  es_answer : Answer BulkResponse;
  splunk_answer : Answer Z
}.

Definition WriteEvents (cancelled : bool) (a : Answers) (events : list AuditEvent) (b : Backend)
  : Backend * result BackendError unit :=
  match b with
  | Test tb => (Test (test_WriteEvents events tb), Ok tt)
  | Elasticsearch eb =>
      let '(eb, r) := es_WriteEvents cancelled (es_answer a) events eb in (Elasticsearch eb, r)
  | Splunk sb =>
      let '(sb, r) := splunk_WriteEvents cancelled (splunk_answer a) events sb in (Splunk sb, r)
  end.

(** How many documents a back end holds, or its server has accepted. *)
Definition stored (b : Backend) : nat :=
  match b with
  | Test tb => length (tb_events tb)
  | Elasticsearch eb => length (eb_accepted eb)
  | Splunk sb => length (sb_accepted sb)
  end.

End backends.

(** ** Properties *)

Lemma existsb_eqb s l : existsb (String.eqb s) l = true <-> s ∈ l.
Proof.
  rewrite existsb_exists. split.
  - intros (x & Hx & E). apply String.eqb_eq in E as ->. by apply list_elem_of_In.
  - intros Hs. exists s. split; [by apply list_elem_of_In | apply String.eqb_refl].
Qed.

Lemma absent_or_member s l :
  (0 <? length l)%nat && negb (existsb (String.eqb s) l) = false <-> l = [] \/ s ∈ l.
Proof.
  rewrite andb_false_iff, negb_false_iff, existsb_eqb, Nat.ltb_ge. split.
  - intros [Hl | ?]; [left; destruct l; [done | simpl in Hl; lia] | by right].
  - intros [-> | ?]; [left; simpl; lia | by right].
Qed.

Lemma if_false (b c : bool) : (if b then false else c) = true <-> b = false /\ c = true.
Proof. destruct b; [split; [done | by intros [? _]] | tauto]. Qed.

(** A filter passes an event exactly when its severity number is at least
    [MinSeverity], its type is not excluded, and the lists of types and of
    components are empty or have it. *)
Theorem ShouldProcessEvent_iff (f : FilterConfig) event :
  ShouldProcessEvent f event = true <->
  MinSeverity f <= ev_Severity event /\ (ev_EventType event ∉ ExcludeTypes f) /\
  (EventTypes f = [] \/ ev_EventType event ∈ EventTypes f) /\
  (Components f = [] \/ ev_Component event ∈ Components f).
Proof.
  unfold ShouldProcessEvent. rewrite !if_false, Z.ltb_ge, !absent_or_member.
  rewrite <- not_true_iff_false, existsb_eqb. tauto.
Qed.

Section writing.
Context `{BackendLib}.

(** The documents a batch makes for Elasticsearch. *)
Definition documents (eb : ElasticsearchBackend) (events : list AuditEvent) : list AuditEvent :=
  filter (λ e, ShouldProcessEvent (bc_Filter (eb_config eb)) e = true /\ encodable e = true) events.

Lemma addDocument_fold events : forall eb docs,
  let p := foldl addDocument (eb, docs) events in
  p.2 = docs ++ documents eb events /\ eb_config p.1 = eb_config eb /\
  eb_accepted p.1 = eb_accepted eb.
Proof.
  induction events as [| e events IH]; intros eb docs; [simpl; by rewrite app_nil_r |].
  assert (documents eb (e :: events) =
    if ShouldProcessEvent (bc_Filter (eb_config eb)) e && encodable e
    then e :: documents eb events else documents eb events) as ->.
  { unfold documents. rewrite filter_cons. case_decide as Hd.
    - by destruct Hd as [-> ->].
    - destruct (ShouldProcessEvent _ e), (encodable e); tauto. }
  cbn [foldl addDocument]. unfold ApplyFieldFilters.
  destruct (ShouldProcessEvent _ e); cbn [negb andb]; [destruct (encodable e) |].
  - destruct (IH eb (docs ++ [e])) as (E & ? & ?). rewrite E, <- app_assoc. done.
  - destruct (IH (es_count 0 1 [] eb) docs) as (E & Ec & Ea). rewrite E, Ec, Ea.
    split; [done |]. split; [done | apply app_nil_r].
  - apply IH.
Qed.

Lemma processBulkErrors_accepted items : forall eb,
  eb_accepted (processBulkErrors items eb) = eb_accepted eb.
Proof.
  unfold processBulkErrors. induction items as [| b items IH]; intros eb; simpl; [done |]. destruct b; [| apply IH].
  rewrite IH. apply app_nil_r.
Qed.

Lemma es_WriteEvents_accepted cancelled a events eb eb' r :
  es_WriteEvents cancelled a events eb = (eb', r) ->
  (r = Ok tt /\ eb_accepted eb' = eb_accepted eb ++ documents eb events /\
   (cancelled = true -> documents eb events = [])) \/
  (r <> Ok tt /\ eb_accepted eb' = eb_accepted eb).
Proof.
  unfold es_WriteEvents. destruct events as [| e events].
  { intros [= <- <-]. left. by rewrite app_nil_r. }
  pose proof (addDocument_fold (e :: events) eb []) as Hf. cbn zeta in Hf.
  destruct (foldl addDocument (eb, []) (e :: events)) as [eb1 docs].
  destruct Hf as (Ed & _ & Ea). cbn [fst snd app] in Ed, Ea. rewrite <- Ed.
  destruct docs as [| d docs].
  { intros [= <- <-]. left. by rewrite app_nil_r. }
  destruct (request_url_ok _); simpl; [| intros [= <- <-]; by right].
  destruct cancelled, a as [| status body]; simpl; try (intros [= <- <-]; right; split; [done |];
    simpl; by rewrite app_nil_r).
  destruct (400 <=? status); [intros [= <- <-]; right; split; [done |]; simpl; by rewrite app_nil_r |].
  intros [= <- <-]. left. split; [done |]. split; [| done]. simpl. rewrite <- Ea.
  destruct body as [b |]; [destruct (Errors b) |]; simpl; by rewrite ?processBulkErrors_accepted.
Qed.

(** The events a batch makes for Splunk. *)
Definition splunkEvents (sb : SplunkBackend) (events : list AuditEvent) : list SplunkEvent :=
  convertToSplunkEvent sb <$>
    filter (λ e, ShouldProcessEvent (bc_Filter (sb_config sb)) e = true) events.

Lemma splunk_WriteEvents_accepted cancelled a events sb sb' r :
  splunk_WriteEvents cancelled a events sb = (sb', r) ->
  (r = Ok tt /\ sb_accepted sb' = sb_accepted sb ++ splunkEvents sb events /\
   (cancelled = true -> splunkEvents sb events = [])) \/
  (r <> Ok tt /\ sb_accepted sb' = sb_accepted sb).
Proof.
  unfold splunk_WriteEvents, ApplyFieldFilters. destruct events as [| e events].
  { intros [= <- <-]. left. by rewrite app_nil_r. }
  change ((λ e, convertToSplunkEvent sb e) <$>
    filter (λ e, ShouldProcessEvent (bc_Filter (sb_config sb)) e = true) (e :: events))
    with (splunkEvents sb (e :: events)).
  destruct (splunkEvents sb (e :: events)) as [| d docs].
  { intros [= <- <-]. left. by rewrite app_nil_r. }
  destruct (request_url_ok _); simpl; [| intros [= <- <-]; by right].
  destruct cancelled, a as [| status body]; simpl; try (intros [= <- <-]; right; split; [done |];
    simpl; by rewrite app_nil_r).
  destruct (400 <=? status); [intros [= <- <-]; right; split; [done |]; simpl; by rewrite app_nil_r |].
  intros [= <- <-]. left. split; [done |]. split; [| done]. simpl.
  destruct body as [n |]; [destruct (0 <? n) |]; simpl; by rewrite ?app_nil_r.
Qed.

(** What a back end holds, or its server has accepted. *)
Inductive Document :=
| Whole (e : AuditEvent)
| Converted (e : SplunkEvent).

Definition contents (b : Backend) : list Document :=
  match b with
  | Test tb => Whole <$> tb_events tb
  | Elasticsearch eb => Whole <$> eb_accepted eb
  | Splunk sb => Converted <$> sb_accepted sb
  end.

(** What a batch adds. *)
Definition additions (b : Backend) (events : list AuditEvent) : list Document :=
  match b with
  | Test tb => Whole <$> events
  | Elasticsearch eb => Whole <$> documents eb events
  | Splunk sb => Converted <$> splunkEvents sb events
  end.

(** A back end behind a server. *)
Definition remote (b : Backend) : bool := match b with Test _ => false | _ => true end.

Lemma WriteEvents_outcome cancelled a events (b b' : Backend) r :
  WriteEvents cancelled a events b = (b', r) ->
  (r = Ok tt /\ contents b' = contents b ++ additions b events /\
   (cancelled = true -> remote b = true -> additions b events = [])) \/
  (r <> Ok tt /\ contents b' = contents b).
Proof.
  destruct b as [tb | eb | sb]; cbn [WriteEvents].
  - intros [= <- <-]. left. split; [done |]. split; [| done]. simpl. by rewrite fmap_app.
  - destruct (es_WriteEvents _ _ _ _) as [eb' r'] eqn:E. intros [= <- <-].
    apply es_WriteEvents_accepted in E as [(Hr & Ha & Hc) | (Hr & Ha)]; [left | by right; simpl; rewrite Ha].
    split; [done |]. cbn [contents additions]. rewrite Ha, fmap_app. split; [done |].
    intros Ht _. by rewrite (Hc Ht).
  - destruct (splunk_WriteEvents _ _ _ _) as [sb' r'] eqn:E. intros [= <- <-].
    apply splunk_WriteEvents_accepted in E as [(Hr & Ha & Hc) | (Hr & Ha)]; [left | by right; simpl; rewrite Ha].
    split; [done |]. cbn [contents additions]. rewrite Ha, fmap_app. split; [done |].
    intros Ht _. by rewrite (Hc Ht).
Qed.

(** Under a cancelled context a server receives nothing. *)
Lemma remote_cancelled a events (b b' : Backend) r :
  WriteEvents true a events b = (b', r) -> remote b = true -> contents b' = contents b.
Proof.
  intros E Hb. apply WriteEvents_outcome in E as [(_ & -> & Ha) | (_ & ->)]; [| done].
  by rewrite Ha, app_nil_r.
Qed.

(** A batch is stored whole or not at all: if the write succeeds the back
    end has everything of the batch that its filter passes (and, for
    Elasticsearch, that can be encoded), and if it fails nothing has changed
    and nothing is kept for another try; under a cancelled context a server
    receives nothing. *)
Theorem batch_stored_whole_or_lost cancelled a events (b b' : Backend) r :
  WriteEvents cancelled a events b = (b', r) ->
  (r = Ok tt /\ contents b' = contents b ++ additions b events /\
   (cancelled = true -> remote b = true -> additions b events = [])) \/
  (r <> Ok tt /\ contents b' = contents b).
Proof. apply WriteEvents_outcome. Qed.

(** Nothing of an event's identity reaches Splunk: not its identifier, type,
    severity, result, component, action, description or hash. *)
Lemma splunk_forgets_identity sb id et sev res comp act desc h e :
  convertToSplunkEvent sb (set_ID id (set_EventType et (set_Severity sev (set_Result res
    (set_Component comp (set_Action act (set_Description desc (set_Hash h e)))))))) =
  convertToSplunkEvent sb e.
Proof. done. Qed.

(** The default filter lets no urgent event through. *)
Lemma default_filter_drops_urgent event :
  ev_Severity event < SeverityInfo -> ShouldProcessEvent DefaultFilterConfig event = false.
Proof.
  intros Hs. unfold ShouldProcessEvent. cbn [MinSeverity DefaultFilterConfig].
  by rewrite (proj2 (Z.ltb_lt _ _) Hs).
Qed.

(** Which configurations make a back end. *)
Lemma NewBackend_types config b : NewBackend config = Ok b ->
  bc_Enabled config = true /\
  bc_Type config ∈ [BackendTypeElasticsearch; BackendTypeSplunk; BackendTypeFile; BackendTypeSyslog] /\
  contents b = [].
Proof.
  unfold NewBackend, NewElasticsearchBackend, NewSplunkBackend, NewTestBackend.
  intros E. destruct (bc_Enabled config); [| done]. split; [done |]. simpl in E.
  repeat match type of E with
  | context [String.eqb (bc_Type config) ?t] =>
      destruct (String.eqb_spec (bc_Type config) t) as [-> |]; [split; [in_solve |]; repeat case_match; by simplify_eq |]
  end.
  by destruct (bool_decide _).
Qed.

End writing.

(** Every event can be encoded and every address is fine. *)
#[local] Instance plainLib : BackendLib := {|
  decode_elasticsearch := λ _, None; decode_splunk := λ _, None; encodable := λ _, true;
  request_url_ok := λ _, true; ip_String := λ _, ""
|}.

Lemma batch_stored_whole_or_lost_witness :
  let sb := mkSplunk (mkBackendConfig BackendTypeSplunk true "s" ∅ DefaultRetryPolicy
              (mkFilter 0 [] [] [] [] [])) "u" "t" "" "" "" "" 0 0 [] in
  contents (Splunk (splunk_WriteEvents true NoAnswer [zeroEvent] sb).1) = [].
Proof.
  intros sb. destruct (batch_stored_whole_or_lost true (mkAnswers NoAnswer NoAnswer) [zeroEvent] (Splunk sb)
    (WriteEvents true (mkAnswers NoAnswer NoAnswer) [zeroEvent] (Splunk sb)).1
    (WriteEvents true (mkAnswers NoAnswer NoAnswer) [zeroEvent] (Splunk sb)).2)
    as [(Hr & _) | (_ & E)]; [by apply surjective_pairing | done | exact E].
Defined.

(** Elasticsearch counts filtered events as written. *)
Example es_counts_filtered :
  let eb := mkElasticsearch (mkBackendConfig BackendTypeElasticsearch true "es" ∅
              DefaultRetryPolicy DefaultFilterConfig) "u" "" "" "" "" "" 0 0 [] in
  let '(eb', r) := es_WriteEvents false (Answered 200 None)
                     [set_Severity SeverityInfo zeroEvent; set_Severity SeverityAlert zeroEvent] eb in
  r = Ok tt /\ eb_eventsWritten eb' = 2 /\ length (eb_accepted eb') = 1%nat.
Proof. by vm_compute. Qed.
