(* ===== verification/AuditSystem.v ===== *)
(** * AuditSystem: pkg/audit/audit_system.go

    The audit system over [AuditTypes], [IntegrityChain] and [AuditBackends]:
    construction, enrichment and [LogEvent] as functions; the processing loop,
    the timer, [Stop] and any number of concurrent [LogEvent] calls as a step
    relation on the state [Sys].  A step is a critical section, a channel
    operation, or the write of one batch to one back end.  [Start] and [Stop]
    are called in turn by one owner; a logged event is not changed or logged
    again by its caller.  Compliance tracking and retention read events only
    and are left out. *)

From S2P Require Import Prelude GoStrings AuditTypes IntegrityChain AuditBackends.

Local Open Scope Z_scope.

(** ** Configuration *)

Definition MaxAuditQueueSize : Z := 10000.
Definition DefaultBatchSize : Z := 100.
Definition DefaultFlushInterval : Duration := 10 * Second.
Definition AuditFormatVersion : string := "1.0".

Record AuditSystemConfig := mkAuditConfig {
  Enabled : bool;
  EnabledSources : list string;
  RetentionDays : Z;
  LogLevel : Severity;
  BatchSize : Z;
  FlushInterval : Duration;
  MaxQueueSize : Z;
  EnableIntegrity : bool;
  ComplianceMode : list ComplianceStandard;
  Backends : list BackendConfig
}.

Definition DefaultAuditConfig : AuditSystemConfig :=
  mkAuditConfig true ["kubernetes"; "oran"; "nephio"] 365 SeverityInfo DefaultBatchSize
    DefaultFlushInterval MaxAuditQueueSize true [ComplianceSOC2; ComplianceISO27001] [].

Inductive AuditError :=
| InvalidMaxQueueSize (n : Z) | InvalidBatchSize (n : Z) | IntegrityInitFailed (e : IntegrityError)
| AlreadyRunning | InvalidEvent (e : EventError) | QueueFull.

(** ** Enrichment *)

Definition getHostname : string := "nephoran-operator".
Definition getProcessID : Z := 1.
Definition getGoroutineID : Z := 1.

Definition getSOC2ControlID (et : EventType) : string :=
  if String.eqb et EventTypeAuthentication then "CC6.1"
  else if String.eqb et EventTypeAuthorization then "CC6.2"
  else if String.eqb et EventTypeDataAccess then "CC6.7"
  else "CC1.4".

Definition getSOC2TrustService (et : EventType) : string :=
  if String.eqb et EventTypeAuthentication || String.eqb et EventTypeAuthorization then "Security"
  else if String.eqb et EventTypeDataAccess then "Confidentiality"
  else if String.eqb et EventTypeSystemChange then "Processing Integrity"
  else "Security".

Definition getISO27001Control (et : EventType) : string :=
  if String.eqb et EventTypeAuthentication then "A.9.2.1"
  else if String.eqb et EventTypeAuthorization then "A.9.2.2"
  else if String.eqb et EventTypeDataAccess then "A.12.4.1"
  else "A.12.1.1".

Definition getISO27001Annex (et : EventType) : string :=
  if String.eqb et EventTypeAuthentication || String.eqb et EventTypeAuthorization
  then "A.9 - Access Control"
  else "A.12 - Operations Security".

Definition getPCIRequirement (et : EventType) : string :=
  if String.eqb et EventTypeAuthentication then "8.1.1"
  else if String.eqb et EventTypeAuthorization then "7.1.1"
  else if String.eqb et EventTypeDataAccess then "10.2.1"
  else "10.1".

Definition getPCIDataClassification (event : AuditEvent) : string :=
  match ev_Data event with
  | Some d =>
      if bool_decide (is_Some (d !! "cardholder_data")) then "Cardholder Data"
      else if bool_decide (is_Some (d !! "sensitive_auth_data")) then "Sensitive Authentication Data"
      else "Non-CHD"
  | None => "Non-CHD"
  end.

(** Two entries of the compliance metadata, which is made if there is none. *)
Definition addMetadata (k1 v1 k2 v2 : string) (event : AuditEvent) : AuditEvent :=
  set_ComplianceMetadata
    (Some (<[k2 := AnyString v2]> (<[k1 := AnyString v1]> (default ∅ (ev_ComplianceMetadata event)))))
    event.

Definition addSOC2Metadata (event : AuditEvent) : AuditEvent :=
  addMetadata "soc2_control_id" (getSOC2ControlID (ev_EventType event))
    "soc2_trust_service" (getSOC2TrustService (ev_EventType event)) event.

Definition addISO27001Metadata (event : AuditEvent) : AuditEvent :=
  addMetadata "iso27001_control" (getISO27001Control (ev_EventType event))
    "iso27001_annex" (getISO27001Annex (ev_EventType event)) event.

Definition addPCIDSSMetadata (event : AuditEvent) : AuditEvent :=
  addMetadata "pci_requirement" (getPCIRequirement (ev_EventType event))
    "pci_data_classification" (getPCIDataClassification event) event.

Definition addStandard (event : AuditEvent) (standard : ComplianceStandard) : AuditEvent :=
  if String.eqb standard ComplianceSOC2 then addSOC2Metadata event
  else if String.eqb standard ComplianceISO27001 then addISO27001Metadata event
  else if String.eqb standard CompliancePCIDSS then addPCIDSSMetadata event
  else event.

(** What a call of [LogEvent] draws: a UUID, the instant of the event, and the
    instant and the salt of its link. *)
Record Draws := mkDraws {
  uuid : string;
  now_event : Time;
  now_link : Time;
  salt : string
}.

Definition systemContext (sc : SystemContext) : SystemContext :=
  mkSystemContext getHostname getProcessID (sc_ProcessName sc) getGoroutineID (sc_ServiceName sc)
    (sc_Version sc) (sc_Environment sc) (sc_Cluster sc) (sc_Namespace sc) (sc_PodName sc)
    (sc_NodeName sc).

Definition enrichEvent (config : AuditSystemConfig) (k : Draws) (event : AuditEvent) : AuditEvent :=
  let event := if String.eqb (ev_ID event) "" then set_ID (uuid k) event else event in
  let event := if IsZero (ev_Timestamp event) then set_Timestamp (now_event k) event else event in
  let event := if String.eqb (ev_Version event) "" then set_Version AuditFormatVersion event else event in
  let event :=
    set_SystemContext (Some (systemContext (default zeroSystem (ev_SystemContext event)))) event in
  foldl addStandard event (ComplianceMode config).

Section system.
Context {EL : EventLib} {RL : Rsa} {JL : Json} {BL : BackendLib}.

(** ** The state *)

Record AuditSystem := mkAuditSystem {
  config : AuditSystemConfig;
  backends : list Backend;
  eventQueue : list AuditEvent;
  queueCap : Z;
  batchBuffer : list AuditEvent;
  running : bool;
  cancelled : bool;
  integrityChain : option IntegrityChain;
  lastFlush : Time;
  eventsReceived : Z;
  eventsDropped : Z
}.

Definition eta_system (s : AuditSystem) : AuditSystem :=
  mkAuditSystem (config s) (backends s) (eventQueue s) (queueCap s) (batchBuffer s) (running s)
    (cancelled s) (integrityChain s) (lastFlush s) (eventsReceived s) (eventsDropped s).

Definition with_backends : list Backend -> AuditSystem -> AuditSystem :=
  ltac:(record_setter eta_system backends).
Definition with_queue : list AuditEvent -> AuditSystem -> AuditSystem :=
  ltac:(record_setter eta_system eventQueue).
Definition with_buffer : list AuditEvent -> AuditSystem -> AuditSystem :=
  ltac:(record_setter eta_system batchBuffer).
Definition with_running : bool -> AuditSystem -> AuditSystem :=
  ltac:(record_setter eta_system running).
Definition with_cancelled : bool -> AuditSystem -> AuditSystem :=
  ltac:(record_setter eta_system cancelled).
Definition with_chain : option IntegrityChain -> AuditSystem -> AuditSystem :=
  ltac:(record_setter eta_system integrityChain).
Definition with_lastFlush : Time -> AuditSystem -> AuditSystem :=
  ltac:(record_setter eta_system lastFlush).
Definition with_received : Z -> AuditSystem -> AuditSystem :=
  ltac:(record_setter eta_system eventsReceived).
Definition with_dropped : Z -> AuditSystem -> AuditSystem :=
  ltac:(record_setter eta_system eventsDropped).

(** The back ends that can be made; the others are only logged. *)
Fixpoint newBackends (l : list BackendConfig) : list Backend :=
  match l with
  | [] => []
  | c :: l =>
      match NewBackend c with
      | Ok b => b :: newBackends l
      | Err _ => newBackends l
      end
  end.

(** [random] makes the key of the chain. *)
Definition NewAuditSystem (config : option AuditSystemConfig) (now : Time) (random : string)
  : result AuditError AuditSystem :=
  let c := default DefaultAuditConfig config in
  if MaxQueueSize c <? 0 then Err (InvalidMaxQueueSize (MaxQueueSize c))
  else if BatchSize c <? 0 then Err (InvalidBatchSize (BatchSize c))
  else
    let maxQueueSize := if MaxQueueSize c =? 0 then MaxAuditQueueSize else MaxQueueSize c in
    let? chain :=
      if EnableIntegrity c then
        match NewIntegrityChain random with
        | Ok ic => Ok (Some ic)
        | Err e => Err (IntegrityInitFailed e)
        end
      else Ok None in
    Ok (mkAuditSystem c (newBackends (Backends c)) [] maxQueueSize [] false false chain now 0 0).

(** ** LogEvent, in its three sections *)

Inductive Entry :=
| Ignored
| Refused (event : AuditEvent) (e : EventError)
| Entered (event : AuditEvent).

(** The tests, the enrichment and the validation. *)
Definition enter (k : Draws) (event : AuditEvent) (s : AuditSystem) : Entry :=
  if negb (Enabled (config s)) || negb (running s) then Ignored
  else if LogLevel (config s) <? ev_Severity event then Ignored
  else
    let event := enrichEvent (config s) k event in
    match Validate event with
    | Err e => Refused event e
    | Ok _ => Entered event
    end.

(** A failure of the chain is only logged. *)
Definition protect (k : Draws) (event : AuditEvent) (s : AuditSystem) : AuditSystem * AuditEvent :=
  match integrityChain s with
  | Some ic =>
      let '(ic, event, _) := ProcessEvent (now_link k) (salt k) event ic in
      (with_chain (Some ic) s, event)
  | None => (s, event)
  end.

Definition enqueue (event : AuditEvent) (s : AuditSystem) : AuditSystem * result AuditError unit :=
  if Z.of_nat (length (eventQueue s)) <? queueCap s then
    (with_received (wrap64 (eventsReceived s + 1)) (with_queue (eventQueue s ++ [event]) s), Ok tt)
  else (with_dropped (wrap64 (eventsDropped s + 1)) s, Err QueueFull).

Definition LogEvent (k : Draws) (event : AuditEvent) (s : AuditSystem)
  : AuditSystem * AuditEvent * result AuditError unit :=
  match enter k event s with
  | Ignored => (s, event, Ok tt)
  | Refused event e => (s, event, Err (InvalidEvent e))
  | Entered event =>
      let '(s, event) := protect k event s in
      let '(s, r) := enqueue event s in
      (s, event, r)
  end.

Record AuditStats := mkStats {
  EventsReceived : Z;
  EventsDropped : Z;
  QueueSize : nat;
  BackendCount : nat;
  LastFlushTime : Time;
  IntegrityEnabled : bool;
  stats_ComplianceMode : list ComplianceStandard
}.

Definition GetStats (s : AuditSystem) : AuditStats :=
  mkStats (eventsReceived s) (eventsDropped s) (length (eventQueue s)) (length (backends s))
    (lastFlush s) (EnableIntegrity (config s)) (ComplianceMode (config s)).

(** ** Starting, flushing and stopping *)

Definition Start (s : AuditSystem) : AuditSystem * result AuditError unit :=
  if negb (Enabled (config s)) then (s, Ok tt)
  else if running s then (s, Err AlreadyRunning)
  else (with_running true s, Ok tt).

(** The critical section of [flushBatch]. *)
Definition takeBatch (s : AuditSystem) : list AuditEvent * AuditSystem :=
  (batchBuffer s, with_buffer [] s).

(** [processEventsWithBackend] on back end [i]; an error is only logged. *)
Definition writeTo (i : nat) (a : Answers) (events : list AuditEvent) (s : AuditSystem) : AuditSystem :=
  match backends s !! i with
  | Some b => with_backends (<[i := (WriteEvents (cancelled s) a events b).1]> (backends s)) s
  | None => s
  end.

(** What one event does to the buffer: the processing loop's section. *)
Definition appendEvent (event : AuditEvent) (s : AuditSystem) : AuditSystem * bool :=
  let s := with_buffer (batchBuffer s ++ [event]) s in
  (s, BatchSize (config s) <=? Z.of_nat (length (batchBuffer s))).

Definition stopRunning (s : AuditSystem) : AuditSystem := with_cancelled true (with_running false s).

(** ** Concurrency *)

(** Who runs [flushBatch]. *)
Inductive Who := ByLoop | ByTimer | ByStop.

#[global] Instance Who_eq_dec : EqDecision Who.
Proof. solve_decision. Defined.

(** A flush between its critical section and its end. *)
Record Flight := mkFlight {
  who : Who;
  batch : list AuditEvent;
  next : nat
}.

Inductive Loop := LoopIdle | LoopHolding (event : AuditEvent) | LoopFull | LoopFlushing | LoopDone.
Inductive Timer := TimerIdle | TimerFlushing | TimerDone.
Inductive Life := Created | Live | Stopping | StopFlushing | Stopped.

(** The system, the calls of [LogEvent] before and after their link, the
    goroutines, and the history: the events that were accepted, the batches in
    the order they were taken, and the writes with the state of the context. *)
Record Sys := mkSys {
  sys : AuditSystem;
  entered : list AuditEvent;
  pending : list AuditEvent;
  loop : Loop;
  timer : Timer;
  life : Life;
  flights : list Flight;
  accepted : list AuditEvent;
  taken : list (list AuditEvent);
  writes : list (nat * bool * list AuditEvent)
}.

Definition eta_sys (s : Sys) : Sys :=
  mkSys (sys s) (entered s) (pending s) (loop s) (timer s) (life s) (flights s) (accepted s)
    (taken s) (writes s).

Definition put_sys : AuditSystem -> Sys -> Sys := ltac:(record_setter eta_sys sys).
Definition put_entered : list AuditEvent -> Sys -> Sys := ltac:(record_setter eta_sys entered).
Definition put_pending : list AuditEvent -> Sys -> Sys := ltac:(record_setter eta_sys pending).
Definition put_loop : Loop -> Sys -> Sys := ltac:(record_setter eta_sys loop).
Definition put_timer : Timer -> Sys -> Sys := ltac:(record_setter eta_sys timer).
Definition put_life : Life -> Sys -> Sys := ltac:(record_setter eta_sys life).
Definition put_flights : list Flight -> Sys -> Sys := ltac:(record_setter eta_sys flights).
Definition put_accepted : list AuditEvent -> Sys -> Sys := ltac:(record_setter eta_sys accepted).
Definition put_taken : list (list AuditEvent) -> Sys -> Sys := ltac:(record_setter eta_sys taken).
Definition put_writes : list (nat * bool * list AuditEvent) -> Sys -> Sys :=
  ltac:(record_setter eta_sys writes).

Definition initial (s : AuditSystem) : Sys := mkSys s [] [] LoopDone TimerDone Created [] [] [] [].

(** When a flush may begin: the loop after the append that filled the batch,
    the timer when it fires, [Stop] when the goroutines have ended. *)
Definition ready (w : Who) (s : Sys) : Prop :=
  match w with
  | ByLoop => loop s = LoopFull
  | ByTimer => timer s = TimerIdle
  | ByStop => life s = Stopping /\ loop s = LoopDone /\ timer s = TimerDone
  end.

Definition is_flushing (w : Who) (s : Sys) : Prop :=
  match w with
  | ByLoop => loop s = LoopFlushing
  | ByTimer => timer s = TimerFlushing
  | ByStop => life s = StopFlushing
  end.

(** The control of the goroutine during and after its flush. *)
Definition flushing (w : Who) (s : Sys) : Sys :=
  match w with
  | ByLoop => put_loop LoopFlushing s
  | ByTimer => put_timer TimerFlushing s
  | ByStop => put_life StopFlushing s
  end.

Definition flushed (w : Who) (s : Sys) : Sys :=
  match w with
  | ByLoop => put_loop LoopIdle s
  | ByTimer => put_timer TimerIdle s
  | ByStop => put_life Stopped s
  end.

Inductive step (s : Sys) : Sys -> Prop :=
| step_enter k event event' :
    enter k event (sys s) = Entered event' -> step s (put_entered (entered s ++ [event']) s)
| step_protect k event event' l1 l2 s' :
    entered s = l1 ++ event :: l2 -> protect k event (sys s) = (s', event') ->
    step s (put_entered (l1 ++ l2) (put_pending (pending s ++ [event']) (put_sys s' s)))
| step_enqueue event l1 l2 s' r :
    pending s = l1 ++ event :: l2 -> enqueue event (sys s) = (s', r) ->
    step s (put_pending (l1 ++ l2)
      (put_accepted (if is_ok r then accepted s ++ [event] else accepted s) (put_sys s' s)))
| step_start s' :
    life s = Created \/ life s = Stopped -> Enabled (config (sys s)) = true ->
    Start (sys s) = (s', Ok tt) ->
    step s (put_loop LoopIdle (put_timer TimerIdle (put_life Live (put_sys s' s))))
| step_receive event q :
    loop s = LoopIdle -> eventQueue (sys s) = event :: q ->
    step s (put_loop (LoopHolding event) (put_sys (with_queue q (sys s)) s))
| step_append event s' full :
    loop s = LoopHolding event -> appendEvent event (sys s) = (s', full) ->
    step s (put_loop (if full then LoopFull else LoopIdle) (put_sys s' s))
| step_loop_exit :
    loop s = LoopIdle -> cancelled (sys s) = true -> step s (put_loop LoopDone s)
| step_timer_exit :
    timer s = TimerIdle -> cancelled (sys s) = true -> step s (put_timer TimerDone s)
| step_stop :
    life s = Live -> running (sys s) = true ->
    step s (put_life Stopping (put_sys (stopRunning (sys s)) s))
| step_take_nothing w :
    ready w s -> batchBuffer (sys s) = [] -> step s (flushed w s)
| step_take w events s' :
    ready w s -> takeBatch (sys s) = (events, s') -> events <> [] ->
    step s (flushing w (put_flights (mkFlight w events 0 :: flights s)
      (put_taken (taken s ++ [events]) (put_sys s' s))))
| step_write f l1 l2 a :
    flights s = l1 ++ f :: l2 -> (next f < length (backends (sys s)))%nat ->
    step s (put_flights (l1 ++ mkFlight (who f) (batch f) (S (next f)) :: l2)
      (put_writes (writes s ++ [(next f, cancelled (sys s), batch f)])
        (put_sys (writeTo (next f) a (batch f) (sys s)) s)))
| step_written f l1 l2 now :
    flights s = l1 ++ f :: l2 -> next f = length (backends (sys s)) ->
    step s (flushed (who f) (put_flights (l1 ++ l2) (put_sys (with_lastFlush now (sys s)) s))).

(** ** Invariants *)

(** The event the loop has received and not yet appended. *)
Definition holding (s : Sys) : list AuditEvent :=
  match loop s with LoopHolding e => [e] | _ => [] end.

(** No batch is longer than this. *)
Definition batchBound (c : AuditSystemConfig) : Z := Z.max 1 (BatchSize c).

(** The batches written to back end [i], and those still to be written there. *)
Definition writes_of (i : nat) (s : Sys) : list (list AuditEvent) :=
  omap (λ w, if Nat.eqb w.1.1 i then Some w.2 else None) (writes s).
Definition todo (i : nat) (s : Sys) : list (list AuditEvent) :=
  omap (λ f, if (next f <=? i)%nat then Some (batch f) else None) (flights s).

(** The accepted events, in their order: flushed, buffered, held, queued. *)
Record Flow (s : Sys) : Prop := {
  flow_accepted : accepted s =
    concat (taken s) ++ batchBuffer (sys s) ++ holding s ++ eventQueue (sys s);
  flow_received : eventsReceived (sys s) = wrap64 (Z.of_nat (length (accepted s)));
  flow_queue : Z.of_nat (length (eventQueue (sys s))) <= queueCap (sys s);
  flow_buffer : Z.of_nat (length (batchBuffer (sys s))) <= batchBound (config (sys s));
  flow_room : loop s <> LoopFull ->
    Z.of_nat (length (batchBuffer (sys s))) < batchBound (config (sys s));
  flow_batches : Forall (λ b, b <> [] /\ Z.of_nat (length b) <= batchBound (config (sys s))) (taken s)
}.

(** The goroutines and their flushes. *)
Record Control (s : Sys) : Prop := {
  ctl_flights : Forall (λ f, is_flushing (who f) s /\ (next f <= length (backends (sys s)))%nat) (flights s);
  ctl_single : NoDup (who <$> flights s);
  ctl_life : match life s with
             | Created => loop s = LoopDone /\ timer s = TimerDone
             | Stopping => cancelled (sys s) = true
             | StopFlushing | Stopped =>
                 cancelled (sys s) = true /\ loop s = LoopDone /\ timer s = TimerDone /\
                 batchBuffer (sys s) = []
             | Live => True
             end
}.

(** Every batch is written once to every back end, or on its way there. *)
Definition Delivery (s : Sys) : Prop :=
  forall i, (i < length (backends (sys s)))%nat -> writes_of i s ++ todo i s ≡ₚ taken s.

Lemma wrap64_add a b : wrap64 (wrap64 a + b) = wrap64 (a + b).
Proof.
  unfold wrap64. set (m := 2 ^ 63).
  replace ((a + m) mod 2 ^ 64 - m + b + m) with ((a + m) mod 2 ^ 64 + b) by lia.
  rewrite Z.add_mod_idemp_l by done. f_equal. f_equal. lia.
Qed.

Lemma protect_frame k e s s' e' : protect k e s = (s', e') ->
  exists ic, s' = with_chain ic s.
Proof.
  unfold protect. destruct (integrityChain s) as [ic |] eqn:Hic.
  - destruct (ProcessEvent _ _ _ _) as [[ic' e''] r]. intros [= <- <-]. by eexists.
  - intros [= <- <-]. exists None. rewrite <- Hic. by destruct s.
Qed.

Lemma enqueue_cases e s s' r : enqueue e s = (s', r) ->
  (Z.of_nat (length (eventQueue s)) < queueCap s /\ r = Ok tt /\
   s' = with_received (wrap64 (eventsReceived s + 1)) (with_queue (eventQueue s ++ [e]) s)) \/
  (r = Err QueueFull /\ s' = with_dropped (wrap64 (eventsDropped s + 1)) s).
Proof.
  unfold enqueue. destruct (Z.ltb_spec (Z.of_nat (length (eventQueue s))) (queueCap s));
    intros [= <- <-]; auto.
Qed.

Lemma writeTo_frame i a es s : exists bs, writeTo i a es s = with_backends bs s /\
  length bs = length (backends s).
Proof.
  unfold writeTo. destruct (backends s !! i); [| exists (backends s); by destruct s].
  eexists. split; [done |]. apply length_insert.
Qed.

(** Case analysis of a step, with the sections it runs spelt out. *)
Ltac step_cases H :=
  destruct H as
    [ k event event' He | k event event' l1 l2 s1 Hl Hp | event l1 l2 s1 r Hl Hq
    | s1 Hlife Hen Hst | event q Hloop Hq | event s1 full Hloop Ha
    | Hloop Hc | Htimer Hc | Hlife Hrun | w Hready Hb | w events s1 Hready Ht Hne
    | f l1 l2 a Hf Hlt | f l1 l2 now Hf Hn ];
  [ | apply protect_frame in Hp as [ic ->]
    | apply enqueue_cases in Hq as [(Hroom & -> & ->) | (-> & ->)]
    | unfold Start in Hst; rewrite Hen in Hst; destruct (running _) in Hst; [done |];
      injection Hst as <-
    | | unfold appendEvent in Ha; injection Ha as <- <- | | | | destruct w
    | unfold takeBatch in Ht; injection Ht as <- <-; destruct w
    | lazymatch goal with
      | |- context [writeTo ?i ?a ?b ?t] => destruct (writeTo_frame i a b t) as (bs & -> & Hbs)
      end
    | destruct (who f) eqn:Hwho ];
  cbn in *; try (destruct Hready as (Hstopping & Hloop & Htimer)).

Lemma step_frame s s' : step s s' ->
  config (sys s') = config (sys s) /\ queueCap (sys s') = queueCap (sys s) /\
  length (backends (sys s')) = length (backends (sys s)) /\
  (cancelled (sys s) = true -> cancelled (sys s') = true).
Proof. intros H. step_cases H; done. Qed.

(** The goroutine of a flush in flight is in its flush. *)
Lemma flight_flushing s f l1 l2 : Control s -> flights s = l1 ++ f :: l2 -> is_flushing (who f) s.
Proof.
  intros HC Hf. pose proof (ctl_flights _ HC) as Hfl. rewrite Hf in Hfl.
  apply Forall_app in Hfl as [_ Hfl]. by apply Forall_inv in Hfl as [].
Qed.

Lemma concat_snoc {A} (l : list (list A)) x : concat (l ++ [x]) = concat l ++ x.
Proof. induction l as [| y l IH]; simpl; [apply app_nil_r |]. by rewrite IH, app_assoc. Qed.

Lemma batchBound_pos c : 0 < batchBound c.
Proof. unfold batchBound. lia. Qed.

(** Closes the clauses of [Flow]: the loop's control, list equations,
    lengths. *)
Ltac flow_clause :=
  repeat match goal with Hl : loop ?s = _, FA : context [loop ?s] |- _ => rewrite Hl in FA end;
  try match goal with Hl : loop ?s = _ |- context [loop ?s] => rewrite Hl end;
  rewrite ?concat_snoc, ?Forall_app, ?Forall_singleton, ?length_app;
  first
    [ done
    | match goal with FA : accepted _ = _ |- accepted _ ++ _ = _ => by rewrite FA, <- ?app_assoc end
    | match goal with FA : accepted _ = _ |- accepted _ = _ => by rewrite FA, <- ?app_assoc end
    | cbn in *; lia
    | split; [done | by split]
    | idtac ].

Lemma Flow_step s s' : step s s' -> Control s -> Flow s -> Flow s'.
Proof.
  intros H HC HF. pose proof (batchBound_pos (config (sys s))) as Hpos.
  assert (life s = Created \/ life s = Stopped -> loop s = LoopDone) as Hdone
    by (pose proof (ctl_life _ HC); intros [El | El]; rewrite El in *; naive_solver).
  pose proof (fun f l1 l2 => flight_flushing s f l1 l2 HC) as Hfly.
  pose proof HF as [FA FR FQ FB FM FS]. unfold holding in *. step_cases H;
    try specialize (Hdone Hlife);
    try (specialize (Hfly _ _ _ Hf); rewrite Hwho in Hfly; cbn in Hfly);
    (split; cbn; unfold holding; cbn; try done; flow_clause).
  all: try (intros _; apply FM; congruence).
  all: try (intros _; rewrite Hb; simpl; lia).
  - rewrite FR, wrap64_add. simpl. f_equal. lia.
  - by rewrite FA, Hq.
  - rewrite Hq in FQ. simpl in FQ. lia.
  - rewrite FA. destruct (_ <=? _); by rewrite <- ?app_assoc.
  - simpl. specialize (FM ltac:(congruence)). lia.
  - destruct (Z.leb_spec (BatchSize (config (sys s)))
      (Z.of_nat (length (batchBuffer (sys s)) + length [event]))); [done |].
    intros _. unfold batchBound. lia.
Qed.

(** Flights in progress are untouched by a change of another goroutine. *)
Ltac flights_kept FC :=
  eapply Forall_impl; [exact FC |]; intros f' [Hfl Hnx]; split; [| done];
  destruct (who f') eqn:?; cbn in *; first [done | congruence | naive_solver].

Lemma Control_flights s s' : step s s' -> Control s ->
  Forall (λ f, is_flushing (who f) s' /\ (next f <= length (backends (sys s')))%nat) (flights s').
Proof.
  intros H HC. pose proof HC as [FC FN FL].
  assert (life s = Created \/ life s = Stopped ->
    loop s = LoopDone /\ timer s = TimerDone /\ life s <> StopFlushing) as Hquiet
    by (intros [El | El]; rewrite El in FL |- *; naive_solver).
  step_cases H; try (destruct (Hquiet Hlife) as (Hloop & Htimer & Hnf)); try flights_kept FC.
  1-3: constructor; [split; [done | simpl; lia] | flights_kept FC].
  { rewrite Hf, Forall_app, Forall_cons in FC. destruct FC as (F1 & [Hw Hn] & F2).
    rewrite Forall_app, Forall_cons, Hbs. split; [flights_kept F1 | split; [| flights_kept F2]].
    split; [by destruct (who f) | simpl; lia]. }
  all: rewrite Hf in FC, FN; apply NoDup_middle in FN as [_ FN];
    rewrite Forall_app, Forall_cons in FC; destruct FC as (F1 & _ & F2);
    apply Forall_forall; intros f' Hin; rewrite Forall_forall in FN; specialize (FN f' Hin);
    rewrite Hwho in FN; rewrite Forall_forall in F1, F2; apply elem_of_app in Hin;
    (assert (is_flushing (who f') s /\ (next f' <= length (backends (sys s)))%nat) as [Hfl Hnx]
      by (destruct Hin; auto));
    split; [destruct (who f'); cbn in *; congruence | done].
Qed.

Lemma Control_step s s' : step s s' -> Control s -> Control s'.
Proof.
  intros H HC. pose proof (Control_flights _ _ H HC) as HF'.
  split; [done | |]; clear HF'; pose proof HC as [FC FN FL].
  - step_cases H; try done.
    1-3: apply NoDup_cons; split; [| done]; intros Hin; apply list_elem_of_fmap in Hin as (f & Ew & Hin);
      rewrite Forall_forall in FC; apply FC in Hin as [Hin _]; rewrite <- Ew in Hin; cbn in Hin; congruence.
    + rewrite Hf in FN. by rewrite fmap_app, fmap_cons in *.
    + rewrite Hf in FN. by apply NoDup_middle in FN as [? _].
    + rewrite Hf in FN. by apply NoDup_middle in FN as [? _].
    + rewrite Hf in FN. by apply NoDup_middle in FN as [? _].
  - pose proof (fun f l1 l2 => flight_flushing s f l1 l2 HC) as Hfly. step_cases H;
      try (specialize (Hfly _ _ _ Hf); rewrite Hwho in Hfly; cbn in Hfly);
      destruct (life s) eqn:?; destruct_and?; first [congruence | by repeat split | naive_solver].
Qed.

Lemma Delivery_step s s' : step s s' -> Delivery s -> Delivery s'.
Proof.
  intros H HD i. specialize (HD i). unfold writes_of, todo in *.
  step_cases H; intros Hi; try (by apply HD).
  1-3: rewrite <- (HD Hi), <- Permutation_middle; by rewrite <- Permutation_cons_append.
  - rewrite Hbs in Hi. specialize (HD Hi). rewrite Hf, omap_app in HD. rewrite !omap_app, <- HD. cbn -[Nat.leb].
    destruct (Nat.eqb_spec (next f) i) as [Ei | Hne]; cbn -[Nat.leb].
    + rewrite (proj2 (Nat.leb_gt (S (next f)) i)), (proj2 (Nat.leb_le (next f) i)) by lia.
      by rewrite <- app_assoc, <- Permutation_middle.
    + rewrite app_nil_r. destruct (Nat.leb_spec (next f) i), (Nat.leb_spec (S (next f)) i); try lia; done.
  - specialize (HD Hi). rewrite Hf, omap_app in HD. rewrite omap_app, <- HD. cbn -[Nat.leb].
    by rewrite (proj2 (Nat.leb_gt _ _)) by lia.
  - specialize (HD Hi). rewrite Hf, omap_app in HD. rewrite omap_app, <- HD. cbn -[Nat.leb].
    by rewrite (proj2 (Nat.leb_gt _ _)) by lia.
  - specialize (HD Hi). rewrite Hf, omap_app in HD. rewrite omap_app, <- HD. cbn -[Nat.leb].
    by rewrite (proj2 (Nat.leb_gt _ _)) by lia.
Qed.

(** Back ends change by writes only, which the history records. *)
Lemma step_writes s s' : step s s' ->
  (backends (sys s') = backends (sys s) /\ writes s' = writes s) \/
  (exists i a es, (i < length (backends (sys s)))%nat /\
     backends (sys s') = backends (writeTo i a es (sys s)) /\
     writes s' = writes s ++ [(i, cancelled (sys s), es)]).
Proof.
  intros H. destruct H as [| k e e' l1 l2 s1 ? Hp | e l1 l2 s1 r ? Hq | s1 ? Hen Hst | |
    e s1 full ? Ha | | | | w ? ? | w es s1 ? Ht ? | f l1 l2 a Hf Hlt | f l1 l2 now ? ?].
  1, 5, 7, 8, 9: by left.
  - left. apply protect_frame in Hp as [ic ->]. done.
  - left. apply enqueue_cases in Hq as [(_ & _ & ->) | (_ & ->)]; done.
  - left. unfold Start in Hst. rewrite Hen in Hst. destruct (running _); [done |]. by injection Hst as <-.
  - left. by injection Ha as <- <-.
  - left. by destruct w.
  - left. injection Ht as <- <-. by destruct w.
  - right. exists (next f), a, (batch f). done.
  - left. by destruct (who f).
Qed.

Lemma writeTo_lookup i a es s j b : backends s !! j = Some b ->
  backends (writeTo i a es s) !! j =
  Some (if decide (i = j) then (WriteEvents (cancelled s) a es b).1 else b).
Proof.
  intros Hj. unfold writeTo. destruct (decide (i = j)) as [-> | Hne].
  - rewrite Hj. cbn. apply list_lookup_insert_eq. by eapply lookup_lt_Some.
  - destruct (backends s !! i); [| done]. cbn. by rewrite list_lookup_insert_ne.
Qed.

Lemma WriteEvents_kind cancelled a es b : remote (WriteEvents cancelled a es b).1 = remote b.
Proof.
  destruct b; cbn [WriteEvents]; [done | by destruct (es_WriteEvents _ _ _ _) |
    by destruct (splunk_WriteEvents _ _ _ _)].
Qed.

(** A back end keeps its place and its kind. *)
Lemma step_kind s s' j : step s s' -> remote <$> backends (sys s') !! j = remote <$> backends (sys s) !! j.
Proof.
  intros H. apply step_writes in H as [[-> _] | (i & a & es & _ & -> & _)]; [done |].
  destruct (backends (sys s) !! j) as [b |] eqn:Hj.
  - rewrite (writeTo_lookup _ _ _ _ _ _ Hj). cbn. case_decide; [| done]. by rewrite WriteEvents_kind.
  - apply lookup_ge_None in Hj. rewrite (proj2 (lookup_ge_None _ _)); [done |].
    destruct (writeTo_frame i a es (sys s)) as (bs & -> & Hbs). cbn. lia.
Qed.

(** An in-memory back end has what was written to it, in that order. *)
Definition Memory (s : Sys) : Prop :=
  forall i tb, backends (sys s) !! i = Some (Test tb) -> tb_events tb = concat (writes_of i s).

Lemma Memory_step s s' : step s s' -> Memory s -> Memory s'.
Proof.
  intros H HM i tb' Hi. pose proof (step_kind _ _ i H) as Hk. rewrite Hi in Hk.
  destruct (backends (sys s) !! i) as [b |] eqn:Hb; [| done].
  destruct b as [tb | |]; [| done | done]. specialize (HM i tb Hb).
  unfold writes_of in *. apply step_writes in H as [[Eb ->] | (j & a & es & _ & Eb & ->)]; rewrite Eb in Hi.
  - rewrite Hb in Hi. by injection Hi as <-.
  - rewrite (writeTo_lookup _ _ _ _ _ _ Hb) in Hi. rewrite omap_app. cbn.
    destruct (decide (j = i)) as [-> | Hne].
    + injection Hi as <-. rewrite Nat.eqb_refl, concat_snoc. cbn. by rewrite HM.
    + rewrite (proj2 (Nat.eqb_neq j i)) by done. injection Hi as <-. by rewrite app_nil_r.
Qed.

(** ** Reachable states *)

Definition reachable (c : option AuditSystemConfig) (s : Sys) : Prop :=
  exists now random s0, NewAuditSystem c now random = Ok s0 /\ rtc step (initial s0) s.

Record Invariant (s : Sys) : Prop := {
  inv_flow : Flow s;
  inv_control : Control s;
  inv_delivery : Delivery s;
  inv_memory : Memory s
}.

Lemma newBackends_empty l i b : newBackends l !! i = Some b -> contents b = [].
Proof.
  revert i. induction l as [| c l IH]; intros i; simpl; [done |].
  destruct (NewBackend c) as [b' |] eqn:Hc; [| apply IH].
  destruct i as [| i]; simpl; [| apply IH]. intros [= <-].
  by apply NewBackend_types in Hc as (_ & _ & ?).
Qed.

Lemma initial_Invariant c now random s0 : NewAuditSystem c now random = Ok s0 -> Invariant (initial s0).
Proof.
  unfold NewAuditSystem. set (cfg := default DefaultAuditConfig c). intros E.
  destruct (Z.ltb_spec (MaxQueueSize cfg) 0), (Z.ltb_spec (BatchSize cfg) 0); try done.
  assert (exists ch, s0 = mkAuditSystem cfg (newBackends (Backends cfg)) []
    (if MaxQueueSize cfg =? 0 then MaxAuditQueueSize else MaxQueueSize cfg) [] false false ch now 0 0)
    as [ch ->].
  { destruct (EnableIntegrity cfg); [destruct (NewIntegrityChain random) |]; cbn in E; try done;
      injection E as <-; by eexists. }
  pose proof (batchBound_pos cfg). split.
  - split; cbn; try done; try lia. destruct (_ =? _); unfold MaxAuditQueueSize; lia.
  - split; cbn; [constructor | constructor | done].
  - intros i _. done.
  - intros i tb Hi. cbn in Hi. apply newBackends_empty in Hi. cbn in *. by destruct (tb_events tb).
Qed.

Lemma reachable_Invariant c s : reachable c s -> Invariant s.
Proof.
  intros (now & random & s0 & H0 & Hr). apply initial_Invariant in H0. revert H0.
  induction Hr as [s | s s1 s2 H _ IH]; [done |]. intros [HF HC HD HM]. apply IH. split.
  - by eapply Flow_step.
  - by eapply Control_step.
  - by eapply Delivery_step.
  - by eapply Memory_step.
Qed.

Lemma concat_permutation {A} (l k : list (list A)) : l ≡ₚ k -> concat l ≡ₚ concat k.
Proof.
  induction 1 as [| x l k _ IH | x y l | l k m _ IH1 _ IH2]; simpl; [done | by rewrite IH | | by rewrite IH1].
  by rewrite !app_assoc, (Permutation_app_comm y x).
Qed.

Lemma stopped_no_flights s : Control s -> life s = Stopped -> flights s = [].
Proof.
  intros HC Hl. destruct (flights s) as [| f l] eqn:Ef; [done |].
  pose proof (flight_flushing s f [] l HC Ef) as Hf. pose proof (ctl_life _ HC) as FL. rewrite Hl in FL.
  destruct FL as (_ & Hlo & Hti & _). destruct (who f); cbn in Hf; congruence.
Qed.

Lemma stopped_events c s i tb :
  reachable c s -> life s = Stopped -> backends (sys s) !! i = Some (Test tb) ->
  tb_events tb ++ eventQueue (sys s) ≡ₚ accepted s.
Proof.
  intros Hr Hl Hi. pose proof (reachable_Invariant _ _ Hr) as [HF HC HD HM].
  rewrite (HM i tb Hi), (flow_accepted _ HF).
  pose proof (ctl_life _ HC) as FL. rewrite Hl in FL. destruct FL as (_ & Hlo & _ & Hb).
  pose proof (HD i (lookup_lt_Some _ _ _ Hi)) as Hp. unfold todo in Hp.
  rewrite (stopped_no_flights s HC Hl) in Hp. cbn in Hp. rewrite app_nil_r in Hp.
  unfold holding. rewrite Hlo, Hb. cbn. by rewrite (concat_permutation _ _ Hp).
Qed.


(** Every batch that was taken is written exactly once to every back end,
    or is on its way there, and an in-memory back end holds exactly the events
    of its writes. *)
Theorem batches_delivered_once c s i :
  reachable c s -> (i < length (backends (sys s)))%nat ->
  writes_of i s ++ todo i s ≡ₚ taken s /\
  forall tb, backends (sys s) !! i = Some (Test tb) -> tb_events tb = concat (writes_of i s).
Proof.
  intros Hr Hi. apply reachable_Invariant in Hr as [_ _ HD HM]. split; [by apply HD | apply HM].
Qed.

(** When [Stop] has returned, an in-memory back end holds the accepted
    events except those that are still in the queue: these are lost. *)
Theorem stop_loses_the_queue c s i tb :
  reachable c s -> life s = Stopped -> backends (sys s) !! i = Some (Test tb) ->
  tb_events tb ++ eventQueue (sys s) ≡ₚ accepted s.
Proof. apply stopped_events. Qed.

(** Once [Stop] has returned no step but another [Start] takes anything
    from the queue or writes to a back end, while [LogEvent] calls that were
    under way still add to it. *)
Theorem stopped_queue_is_stuck c s s' :
  reachable c s -> life s = Stopped -> step s s' ->
  life s' = Live \/
  (life s' = Stopped /\ writes s' = writes s /\ eventQueue (sys s) `prefix_of` eventQueue (sys s')).
Proof.
  intros Hr Hend H. apply reachable_Invariant, inv_control in Hr. pose proof (ctl_life _ Hr) as FL.
  pose proof (stopped_no_flights s Hr Hend) as Hnf. rewrite Hend in FL. destruct FL as (_ & Hidle & Hquiet & _).
  step_cases H; try congruence; try (rewrite Hnf in Hf; by destruct l1); try (by right);
    try (by left); right; repeat split; try done; by eexists.
Qed.

(** From the moment [Stop] cancels the context no document reaches a
    server any more: the batch in flight and the final flush are written under
    the cancelled context. *)
Theorem final_flush_reaches_no_server s s' i b :
  rtc step s s' -> cancelled (sys s) = true -> backends (sys s) !! i = Some b -> remote b = true ->
  exists b', backends (sys s') !! i = Some b' /\ contents b' = contents b.
Proof.
  intros Hr. revert b. induction Hr as [s | s s1 s2 H _ IH]; intros b Hc Hi Hb; [by exists b |].
  destruct (step_frame _ _ H) as (_ & _ & _ & Hc1). specialize (Hc1 Hc).
  assert (exists b1, backends (sys s1) !! i = Some b1 /\ remote b1 = true /\ contents b1 = contents b)
    as (b1 & Hi1 & Hb1 & E1).
  { apply step_writes in H as [[-> _] | (j & a & es & _ & -> & _)]; [by exists b |].
    rewrite (writeTo_lookup _ _ _ _ _ _ Hi). eexists. split; [done |]. case_decide; [| done].
    rewrite WriteEvents_kind. split; [done |]. rewrite Hc.
    destruct (WriteEvents true a es b) as [b' r] eqn:Ew.
    apply remote_cancelled in Ew; done. }
  destruct (IH b1 Hc1 Hi1 Hb1) as (b' & Hi' & E'). exists b'. by rewrite E'.
Qed.

(** ** LogEvent *)

(** What a call adds to the accepted events. *)
Definition newlyAccepted (k : Draws) (event : AuditEvent) (s : AuditSystem) : list AuditEvent :=
  match enter k event s with
  | Entered _ => let '(_, e, r) := LogEvent k event s in if is_ok r then [e] else []
  | _ => []
  end.

(** A call of [LogEvent] that is not interrupted is a run of the
    concurrent system: it takes the state to the one the sequential function
    computes and leaves the goroutines alone. *)
Theorem LogEvent_is_run k event s :
  rtc step s (put_accepted (accepted s ++ newlyAccepted k event (sys s))
                (put_sys (LogEvent k event (sys s)).1.1 s)).
Proof.
  unfold newlyAccepted, LogEvent. destruct (enter k event (sys s)) as [| e err | e] eqn:He.
  1, 2: cbn; rewrite app_nil_r; by destruct s.
  destruct (protect k e (sys s)) as [s1 e1] eqn:Hp. destruct (enqueue e1 s1) as [s2 r] eqn:Hq. cbn.
  eapply rtc_l; [by eapply step_enter |].
  eapply rtc_l; [eapply (step_protect _ k e e1 (entered s) []); [done | exact Hp] |].
  eapply rtc_l; [eapply (step_enqueue _ e1 (pending s) []); [done | exact Hq] |].
  cbn. rewrite !app_nil_r. destruct s; cbn. destruct (is_ok r); [done |]. by rewrite app_nil_r.
Qed.

Lemma enrichEvent_Severity c k e : ev_Severity (enrichEvent c k e) = ev_Severity e.
Proof.
  unfold enrichEvent. set (e1 := set_SystemContext _ _).
  assert (ev_Severity e1 = ev_Severity e) as <- by (subst e1; repeat case_match; done).
  clearbody e1. induction (ComplianceMode c) as [| st l IH] in e1 |- *; [done |]. simpl. rewrite IH.
  unfold addStandard. repeat case_match; done.
Qed.

(** With the default log level and the default filter the only events
    that reach a server are those of severity Info: the system drops what is
    less urgent and the filter what is more urgent. *)
Theorem default_filter_keeps_info_only k event e s :
  enter k event s = Entered e -> LogLevel (config s) = LogLevel DefaultAuditConfig ->
  ShouldProcessEvent DefaultFilterConfig e = true <-> ev_Severity event = SeverityInfo.
Proof.
  unfold enter. intros He Hl. destruct (_ || _); [done |].
  destruct (Z.ltb_spec (LogLevel (config s)) (ev_Severity event)) as [| Hle]; [done |].
  destruct (Validate _); [| done]. injection He as <-. rewrite Hl in Hle. cbn in Hle.
  unfold ShouldProcessEvent. rewrite enrichEvent_Severity. cbn.
  destruct (Z.ltb_spec (ev_Severity event) SeverityInfo); split; try done; intros; unfold SeverityInfo in *; lia.
Qed.

(** ** Linkage of what is accepted *)

Section linkage.

(** Signing and encoding succeed. *)
Hypothesis signs : forall k digest salt, is_Some (SignPSS k digest salt).
Hypothesis encodes : forall d, is_Some (marshal_event d).
Hypothesis encodes_link : forall d, is_Some (marshal_link d).

(** A step of a run in which one call of [LogEvent] follows another and no
    event is dropped. *)
Definition seqstep (s s' : Sys) : Prop :=
  step s s' /\ (length (entered s') + length (pending s') <= 1)%nat /\
  eventsDropped (sys s') = eventsDropped (sys s).

(** The chain at work, with current hash [h]. *)
Definition working (s : Sys) (h : string) : Prop :=
  exists ic, integrityChain (sys s) = Some ic /\ enabled ic = true /\ is_Some (privateKey ic) /\
    lastHash ic = h.

(** The accepted events and the one between its link and the queue are
    linked, and the current hash is that of the newest. *)
Definition Linked (s : Sys) : Prop :=
  (length (pending s) <= 1)%nat /\
  Sorted linked (accepted s ++ pending s) /\
  Forall (λ e, ev_Hash e <> "") (accepted s ++ pending s) /\
  working s (match last (accepted s ++ pending s) with Some e => ev_Hash e | None => "" end).

Lemma ProcessEvent_succeeds now salt e ic :
  enabled ic = true -> is_Some (privateKey ic) ->
  exists ic' e', ProcessEvent now salt e ic = (ic', e', Ok tt) /\ enabled ic' = true /\
    is_Some (privateKey ic') /\ lastHash ic' = ev_Hash e' /\
    ev_Hash e' <> "" /\ (lastHash ic <> "" -> ev_PreviousHash e' = lastHash ic).
Proof.
  intros Hen [k Hk].
  assert (exists h, calculateEventHash e = Ok h) as [h Hh]
    by (unfold calculateEventHash; destruct (encodes (hashData e)) as [m ->]; by eexists).
  assert (forall l, exists c, calculateChainHash l = Ok c) as Hchain.
  { intros l. unfold calculateChainHash.
    match goal with |- context [marshal_link ?d] => destruct (encodes_link d) as [m ->] end. by eexists. }
  assert (forall n l, exists s, signLink (with_sequenceNum n ic) salt l = Ok s) as Hsign.
  { intros n l. unfold signLink. cbn [privateKey with_sequenceNum]. rewrite Hk.
    destruct (signs k (GoCrypto.Sum256 (payload l)) salt) as [s ->]. by eexists. }
  unfold ProcessEvent. rewrite Hen, Hh. cbn [negb].
  match goal with |- context [calculateChainHash ?l] => destruct (Hchain l) as [c ->] end.
  match goal with |- context [signLink (with_sequenceNum ?n _) _ ?l] => destruct (Hsign n l) as [s ->] end.
  destruct (calculateEventHash_ok _ _ Hh) as [Hne _].
  eexists _, _. refine (conj eq_refl (conj Hen (conj _ (conj eq_refl (conj Hne _))))); [by eexists |].
  intros Hl. cbn. by rewrite (proj2 (String.eqb_neq _ _) Hl).
Qed.

Lemma wrap64_succ_ne x : wrap64 (x + 1) <> x.
Proof.
  intros Ex. unfold wrap64 in Ex.
  pose proof (Z.div_mod (x + 1 + 2 ^ 63) (2 ^ 64) ltac:(done)) as Hd. lia.
Qed.

Lemma Linked_step s s' : seqstep s s' -> Linked s -> Linked s'.
Proof.
  intros (H & Hone & Hdrop) (Hp1 & Hs & Hh & ic & Hic & Hen & Hk & Hlast).
  destruct H as [| k e e' l1 l2 s1 Hl Hp | e l1 l2 s1 r Hl Hq | s1 ? Hst' Hst | |
    e s1 full ? Ha | | | | w ? ? | w es s1 ? Ht ? | f l1 l2 a Hf Hlt | f l1 l2 now ? ?].
  1, 5, 7, 8, 9: split; [done |]; split; [done |]; split; [done |]; by exists ic.
  - cbn in Hone. rewrite !length_app in Hone. cbn in Hone. assert (pending s = []) as Hpe
      by (destruct (pending s); [done | simpl in Hone; lia]).
    unfold protect in Hp. rewrite Hic in Hp.
    destruct (ProcessEvent_succeeds (now_link k) (salt k) e ic Hen Hk)
      as (ic1 & e1 & Ep & Hen1 & Hk1 & El1 & Hh1 & Hpr). rewrite Ep in Hp. injection Hp as <- <-.
    rewrite Hpe, app_nil_r in *. unfold Linked. cbn. split; [lia |]. split; [| split].
    + apply Sorted_snoc; [done |]. intros y Hy. rewrite Hy in Hlast. unfold linked.
      rewrite Hpr, Hlast; [done |]. rewrite Hlast.
      apply last_Some in Hy as [l' El']. rewrite El', Forall_app in Hh. by destruct Hh as [_ ?%Forall_inv].
    + apply Forall_app. split; [done |]. by repeat constructor.
    + rewrite last_snoc. by exists ic1.
  - apply enqueue_cases in Hq as [(_ & -> & ->) | (-> & ->)]; cbn in Hdrop; [| by apply wrap64_succ_ne in Hdrop].
    assert (l1 = [] /\ l2 = []) as [-> ->].
    { rewrite Hl in Hp1. rewrite length_app in Hp1. cbn in Hp1.
      destruct l1, l2; simpl in *; try lia; done. }
    rewrite Hl in *. unfold Linked. cbn. rewrite app_nil_r. split; [lia |]. split; [done |].
    split; [done |]. by exists ic.
  - unfold Start in Hst. rewrite Hst' in Hst. destruct (running _); [done |]. injection Hst as <-.
    split; [done |]. split; [done |]. split; [done |]. by exists ic.
  - injection Ha as <- <-. split; [done |]. split; [done |]. split; [done |]. by exists ic.
  - destruct w; (split; [done |]; split; [done |]; split; [done |]; by exists ic).
  - injection Ht as <- <-. destruct w; (split; [done |]; split; [done |]; split; [done |]; by exists ic).
  - destruct (writeTo_frame (next f) a (batch f) (sys s)) as (bs & -> & _).
    split; [done |]. split; [done |]. split; [done |]. by exists ic.
  - destruct (who f); (split; [done |]; split; [done |]; split; [done |]; by exists ic).
Qed.

(** If one call of [LogEvent] follows another, none is dropped, and
    signing and encoding succeed, the accepted events are linked: each carries
    the hash of the one accepted before it, so the batches in the order they
    were taken make one chain. *)
Theorem sequential_logging_is_linked c now random s0 s :
  NewAuditSystem c now random = Ok s0 -> EnableIntegrity (config s0) = true ->
  rtc seqstep (initial s0) s -> Sorted linked (accepted s).
Proof.
  intros H0 Hi Hr. assert (Linked (initial s0)) as HL.
  { unfold NewAuditSystem in H0. set (cfg := default DefaultAuditConfig c) in *.
    destruct (_ <? 0); [done |]. destruct (_ <? 0); [done |].
    destruct (EnableIntegrity cfg) eqn:Hc.
    - destruct (NewIntegrityChain random) as [ic |] eqn:Hn; cbn [rbind] in H0; [| done]. injection H0 as <-.
      unfold NewIntegrityChain, NewIntegrityChainWithConfig, initializeKeys in Hn.
      cbn [cfg_Enabled AutoGenerateKeys DefaultIntegrityConfig negb] in Hn.
      destruct (GenerateKey _ _) as [k |]; [| done]. injection Hn as <-.
      split; [cbn; lia |]. split; [constructor |]. split; [constructor |]. by eexists.
    - cbn in H0. injection H0 as <-. cbn in Hi. congruence. }
  assert (Linked s) as (_ & Hs & _).
  { revert HL. induction Hr as [| s s1 s2 H _ IH]; [done |]. intros HL. by eapply IH, Linked_step. }
  clear -Hs. revert Hs. generalize (accepted s), (pending s). intros l k.
  induction l as [| a l IH]; intros Hs; [constructor |]. inversion Hs as [| ? ? Hs' Hd].
  constructor; [by apply IH |]. destruct l; simpl in *; constructor. by inversion Hd.
Qed.

End linkage.

End system.

(** ** Witnesses *)

#[local] Existing Instance textRsa.
#[local] Existing Instance textRsaLaws.
#[local] Existing Instance textJson.
#[local] Existing Instance plainLib.

Definition fileBackend : BackendConfig :=
  mkBackendConfig BackendTypeFile true "file" ∅ DefaultRetryPolicy DefaultFilterConfig.

(** One in-memory back end, batches of one event. *)
Definition smallConfig (integrity : bool) : AuditSystemConfig :=
  mkAuditConfig true [] 1 SeverityInfo 1 Second 10 integrity [] [fileBackend].

Definition logged (id : string) : AuditEvent :=
  set_ID id (set_Timestamp 10 (set_EventType EventTypeSystemChange (set_Component "system"
    (set_Action "change" zeroEvent)))).

Definition noDraws : Draws := mkDraws "u" 1 2 "salt".

(** The event of [e] after [enrichEvent] without compliance standards. *)
Definition enriched (e : AuditEvent) : AuditEvent := enrichEvent (smallConfig false) noDraws e.

(** Takes one step and writes the new state with its constructors. *)
Ltac next_state :=
  match goal with
  | |- rtc step ?s _ =>
      let s' := eval lazy beta iota zeta delta
        [put_sys put_entered put_pending put_loop put_timer put_life put_flights put_accepted
         put_taken put_writes with_backends with_queue with_buffer with_running with_cancelled
         with_chain with_lastFlush with_received with_dropped initial flushing flushed stopRunning
         sys entered pending loop timer life flights accepted taken writes config backends eventQueue
         queueCap batchBuffer running cancelled integrityChain lastFlush eventsReceived eventsDropped
         app is_ok who batch next snd fst] in s in
      change s with s'
  end.
Tactic Notation "take_step" open_constr(c) := eapply rtc_l; [eapply c |]; [.. | next_state].

(** A complete call of [LogEvent]. *)
Ltac log_event e :=
  take_step (step_enter _ noDraws e (enriched e)); [by vm_compute |];
  take_step (step_protect _ noDraws (enriched e) (enriched e) [] []); [reflexivity | reflexivity |];
  take_step (step_enqueue _ (enriched e) [] []); [reflexivity | reflexivity |].

(** An event is written, another waits in the queue when the goroutines end. *)
Lemma stopped_run : exists s, reachable (Some (smallConfig false)) s /\ life s = Stopped /\
  eventQueue (sys s) = [enriched (logged "b")] /\
  backends (sys s) = [Test (mkTestBackend fileBackend [enriched (logged "a")])].
Proof.
  eexists. split; [eexists 0, "key", _; split; [reflexivity |] |].
  - take_step step_start; [by left | reflexivity | reflexivity |].
    log_event (logged "a").
    take_step step_receive; [reflexivity | reflexivity |].
    take_step step_append; [reflexivity | reflexivity |].
    take_step (step_take _ ByLoop); [reflexivity | reflexivity | done |].
    take_step (step_write _ (mkFlight ByLoop [enriched (logged "a")] 0) [] [] (mkAnswers NoAnswer NoAnswer));
      [reflexivity | cbn; lia |].
    take_step (step_written _ (mkFlight ByLoop [enriched (logged "a")] 1) [] [] 5); [reflexivity | reflexivity |].
    log_event (logged "b").
    take_step step_stop; [reflexivity | reflexivity |].
    take_step step_loop_exit; [reflexivity | reflexivity |].
    take_step step_timer_exit; [reflexivity | reflexivity |].
    take_step (step_take_nothing _ ByStop); [by repeat split | reflexivity |].
    apply rtc_refl.
  - by repeat split.
Qed.


Lemma batches_delivered_once_witness : exists s, life s = Stopped /\
  writes_of 0 s ++ todo 0 s ≡ₚ taken s /\
  forall tb, backends (sys s) !! 0%nat = Some (Test tb) -> tb_events tb = concat (writes_of 0 s).
Proof.
  destruct stopped_run as (s & Hr & Hl & _ & Hb). exists s. split; [done |].
  apply (batches_delivered_once _ s 0 Hr). rewrite Hb. simpl. lia.
Defined.

Lemma stop_loses_the_queue_witness : exists s, eventQueue (sys s) = [enriched (logged "b")] /\
  [enriched (logged "a")] ++ eventQueue (sys s) ≡ₚ accepted s.
Proof.
  destruct stopped_run as (s & Hr & Hl & Hq & Hb). exists s. split; [done |].
  apply (stop_loses_the_queue _ s 0 (mkTestBackend fileBackend [enriched (logged "a")]) Hr Hl).
  by rewrite Hb.
Defined.

(** [Stop] has ended the goroutines and one event is left in the buffer. *)
Definition lastBatch : Sys :=
  let sb := mkSplunk (mkBackendConfig BackendTypeSplunk true "s" ∅ DefaultRetryPolicy
              (mkFilter 0 [] [] [] [] [])) "u" "t" "" "" "" "" 0 0 [] in
  mkSys (mkAuditSystem (smallConfig false) [Splunk sb] [] 10 [enriched (logged "a")] false true None 0 1 0)
    [] [] LoopDone TimerDone Stopping [] [enriched (logged "a")] [] [].

Lemma final_flush_reaches_no_server_witness : exists s b', life s = Stopped /\ writes s = [(0%nat, true, [enriched (logged "a")])] /\
  backends (sys s) !! 0%nat = Some b' /\ contents b' = [].
Proof.
  assert (exists s, rtc step lastBatch s /\ life s = Stopped /\
    writes s = [(0%nat, true, [enriched (logged "a")])]) as (s & Hr & Hl & Hw).
  { eexists. split; [| split].
    - take_step (step_take _ ByStop); [by repeat split | reflexivity | done |].
      take_step (step_write _ (mkFlight ByStop [enriched (logged "a")] 0) [] [] (mkAnswers NoAnswer (Answered 200 None)));
        [reflexivity | cbn; lia |].
      take_step (step_written _ (mkFlight ByStop [enriched (logged "a")] 1) [] [] 5); [reflexivity | reflexivity |].
      apply rtc_refl.
    - reflexivity.
    - reflexivity. }
  destruct (final_flush_reaches_no_server lastBatch s 0 _ Hr eq_refl eq_refl eq_refl) as (b' & Hi & Hc).
  by exists s, b'.
Defined.

Lemma default_filter_keeps_info_only_witness :
  ev_Severity (logged "a") = SeverityEmergency /\
  exists s, enter noDraws (logged "a") s = Entered (enriched (logged "a")) /\
    ShouldProcessEvent DefaultFilterConfig (enriched (logged "a")) <> true.
Proof.
  split; [reflexivity |]. exists (with_running true (sys lastBatch)). split; [by vm_compute |].
  rewrite (default_filter_keeps_info_only noDraws (logged "a") (enriched (logged "a"))
    (with_running true (sys lastBatch)) ltac:(by vm_compute) eq_refl). done.
Defined.

Lemma enter_frame k e s s' : config s' = config s -> running s' = running s -> enter k e s' = enter k e s.
Proof. unfold enter. by intros -> ->. Qed.

Lemma protect_parts k e s : exists ic e', protect k e s = (with_chain ic s, e').
Proof.
  destruct (protect k e s) as [s' e'] eqn:Hp. pose proof (protect_frame _ _ _ _ _ Hp) as [ic ->]. by exists ic, e'.
Qed.

(** One call of [LogEvent] while no other is under way. *)
Lemma log_once k e e1 s :
  enter k e (sys s) = Entered e1 -> entered s = [] -> pending s = [] ->
  Z.of_nat (length (eventQueue (sys s))) < queueCap (sys s) ->
  exists s' e2, rtc seqstep s s' /\ accepted s' = accepted s ++ [e2] /\
    entered s' = [] /\ pending s' = [] /\ config (sys s') = config (sys s) /\
    running (sys s') = running (sys s) /\ queueCap (sys s') = queueCap (sys s) /\
    length (eventQueue (sys s')) = S (length (eventQueue (sys s))).
Proof.
  intros He Hen Hpe Hq. destruct (protect_parts k e1 (sys s)) as (ic & e2 & Hp).
  assert (enqueue e2 (with_chain ic (sys s)) =
    (with_received (wrap64 (eventsReceived (sys s) + 1))
      (with_queue (eventQueue (sys s) ++ [e2]) (with_chain ic (sys s))), Ok tt)) as Hqu
    by (unfold enqueue; cbn; by rewrite (proj2 (Z.ltb_lt _ _) Hq)).
  eexists _, e2. split.
  - eapply rtc_l; [split; [by eapply step_enter |]; cbn; by rewrite Hen, Hpe; auto |].
    eapply rtc_l; [split; [eapply (step_protect _ k e1 e2 [] []); cbn; [by rewrite Hen | exact Hp] |];
      cbn; by rewrite Hpe; auto |].
    eapply rtc_l; [split; [eapply (step_enqueue _ e2 [] []); cbn; [by rewrite Hpe | exact Hqu] |];
      cbn; split; [lia | done] |].
    apply rtc_refl.
  - cbn. rewrite length_app. cbn. repeat split; try done. lia.
Qed.

(** The system of the small configuration with an integrity chain. *)
Definition audited : AuditSystem :=
  mkAuditSystem (smallConfig true) (newBackends [fileBackend]) [] 10 [] false false (Some emptyChain) 0 0 0.

Lemma audited_new : NewAuditSystem (Some (smallConfig true)) 0 "key" = Ok audited.
Proof. unfold NewAuditSystem. cbn -[NewIntegrityChain newBackends]. by rewrite emptyChain_new. Qed.

Lemma sequential_logging_is_linked_witness : exists s, length (accepted s) = 2%nat /\ Sorted linked (accepted s).
Proof.
  set (s1 := put_loop LoopIdle (put_timer TimerIdle (put_life Live
    (put_sys (with_running true audited) (initial audited))))).
  assert (seqstep (initial audited) s1) as Hst.
  { split; [| cbn; split; [lia | done]].
    apply step_start; [by left | done | done]. }
  assert (forall e s, config s = smallConfig true -> running s = true -> e = logged "a" ->
    exists e1, enter noDraws e s = Entered e1) as Hent.
  { intros e s Hcs Hrs ->. rewrite (enter_frame noDraws (logged "a")
      (mkAuditSystem (smallConfig true) [] [] 0 [] true false None 0 0 0)) by done.
    eexists. by vm_compute. }
  destruct (Hent (logged "a") (sys s1) eq_refl eq_refl eq_refl) as [a Ha].
  destruct (log_once noDraws _ a s1 Ha eq_refl eq_refl) as (s2 & a2 & Hr2 & Hac2 & Hen2 & Hpe2 & Hc2 & Hru2 & Hcap2 & Hq2).
  { cbn. lia. }
  destruct (Hent (logged "a") (sys s2)) as [b Hb]; [by rewrite Hc2 | by rewrite Hru2 | done |].
  destruct (log_once noDraws _ b s2 Hb Hen2 Hpe2) as (s3 & b2 & Hr3 & Hac3 & _).
  { rewrite Hq2, Hcap2. cbn. lia. }
  exists s3. split; [by rewrite Hac3, Hac2 |].
  apply (sequential_logging_is_linked
    ltac:(intros k d t; by eexists) ltac:(intros d; by eexists) ltac:(intros d; by eexists)
    (Some (smallConfig true)) 0 "key" audited s3 audited_new eq_refl).
  eapply rtc_l; [exact Hst |]. by transitivity s2.
Defined.

(** The second of two events is linked before the first is queued. *)
Lemma overtaken :
  let '(s1, a) := protect noDraws (enriched (logged "a")) (with_running true audited) in
  let '(_, b) := protect noDraws (enriched (logged "b")) s1 in
  String.eqb (ev_PreviousHash a) (ev_Hash b) = false.
Proof. by vm_compute. Qed.

(** Linking and queueing are not one section: of two calls at the same time
    the second may overtake the first between the two, and the accepted events
    are then no chain although nothing was dropped. *)
Lemma concurrent_logging_unlinks : exists s, reachable (Some (smallConfig true)) s /\
  eventsDropped (sys s) = 0 /\ ~ Sorted linked (accepted s).
Proof.
  pose proof overtaken as Ha.
  destruct (protect_parts noDraws (enriched (logged "a")) (with_running true audited)) as (ic1 & a' & Hpa).
  destruct (protect_parts noDraws (enriched (logged "b")) (with_chain ic1 (with_running true audited)))
    as (ic2 & b' & Hpb).
  rewrite Hpa, Hpb in Ha. apply String.eqb_neq in Ha.
  assert (forall e s, Z.of_nat (length (eventQueue s)) < queueCap s -> enqueue e s =
    (with_received (wrap64 (eventsReceived s + 1)) (with_queue (eventQueue s ++ [e]) s), Ok tt)) as Hen
    by (intros e s Hlt; unfold enqueue; by rewrite (proj2 (Z.ltb_lt _ _) Hlt)).
  assert (forall id s, config s = smallConfig true -> running s = true -> id = "a" \/ id = "b" ->
    enter noDraws (logged id) s = Entered (enriched (logged id))) as Henter.
  { intros id s Hcs Hrs Hid. rewrite (enter_frame noDraws (logged id)
      (mkAuditSystem (smallConfig true) [] [] 0 [] true false None 0 0 0)) by done.
    destruct Hid as [-> | ->]; by vm_compute. }
  eexists. split; [exists 0, "key", audited; split; [exact audited_new |] |].
  - eapply rtc_l; [apply (step_start _ (with_running true audited)); [by left | done | done] |].
    eapply rtc_l; [apply (step_enter _ noDraws (logged "a") (enriched (logged "a"))), Henter; by auto |].
    eapply rtc_l; [apply (step_enter _ noDraws (logged "b") (enriched (logged "b"))), Henter; by auto |].
    eapply rtc_l; [eapply (step_protect _ noDraws (enriched (logged "a")) a' [] [enriched (logged "b")]); [done | exact Hpa] |].
    eapply rtc_l; [eapply (step_protect _ noDraws (enriched (logged "b")) b' [] []); [done | exact Hpb] |].
    eapply rtc_l; [eapply (step_enqueue _ b' [a'] []); [done |]; apply Hen; cbn; lia |].
    eapply rtc_l; [eapply (step_enqueue _ a' [] []); [done |]; apply Hen; cbn; lia |].
    apply rtc_refl.
  - cbn. split; [done |]. intros Hs. apply Sorted_inv in Hs as [_ Hs]. inversion Hs as [| ? ? El].
    by apply Ha.
Qed.
